(* ===== verification/_CoqProject ===== *)
-Q . S2P
Prelude.v
Bytes.v
Util.v
Checksum.v
Backend.v
TimeUtil.v
Validate.v
Listing.v
Multipart.v
MemoryBackend.v
MemorySpec.v
MemorySim.v
MemoryTheorems.v
Codec.v
CodecProofs.v
CodecKeys.v
MetaUtil.v
RocksDb.v
RocksMeta.v
RocksLedger.v
RocksProofs.v
RocksInv.v
RocksOps.v
RocksParts.v
RocksSteps.v
RocksTheorems.v
RocksFront.v
RocksStats.v
RocksListing.v
RocksReads.v
RocksLinks.v
FsPack.v
DuoWorld.v
FsData.v
DuoGc.v
DuoQueue.v
DuoHoare.v
DuoSafety.v
DuoLive.v
DuoReclaim.v
DuoOrphan.v
DuoDemo.v
RateLimiter.v
Semaphore.v
MetaCache.v
BucketRouter.v
Policy.v
Headers.v
BodyReader.v
FsRead.v
FsProofs.v
FsSystem.v
FsHooked.v
DuoMigrate.v
DuoBackend.v
DuoPins.v
DuoRequest.v
RocksStore.v
DuoHandlers.v
DuoServe.v
Digest.v
DigestProofs.v
Chunked.v
ChunkedProofs.v
Xml.v
XmlProofs.v
SigV4.v
SigV4Proofs.v
SigV4Sign.v
SigV4Theorems.v
