(* ===== verification/Prelude.v ===== *)
(** LightS3: a verification of the core of an S3-compatible object store.

    * The program

    LightS3 (sources under [src/src]) is a C++20 server in layers. L1 ([http/]) turns
    connections into requests with a header table and a streaming body. L2 ([s3/])
    authenticates a request, checks the integrity of its body, limits its rate, and
    serves it through handlers that read and write XML. L3 ([storage/]) is the interface
    [IStorageBackend] with its implementations: an in-memory backend, file-system
    backends, DuoStore (objects as extents in data files, records in a key/value engine),
    a cloud proxy and a tiering layer; a router picks the backend of a bucket. [core/]
    holds the asynchronous runtime and small utilities.

    The development models the parts where this code makes decisions: the complete
    in-memory backend with the validation, pagination and multipart rules all backends
    share; DuoStore from its record codec over the complete RocksDB metadata engine and the
    file data plane to its request handlers, the garbage collector, the orphan scan and
    compaction; the metadata cache, the bucket router, the rate limiter, the semaphore, the
    body pipeline (readers, digests, aws-chunked framing with its signature chain), SigV4
    authentication in full, the date formats, the policies of credentials, the header table and the XML reader and writer.

    * How code becomes definitions

    Bytes are [Byte.byte]; a string is a list of them. Machine integers are [Z] with the
    wrap-around written out ([u64], [u32], [i64], below). An exception is a value of
    [res]: [Throw] with the [S3ErrorCode] of [Backend]. A member function that changes
    its object is a run of the monad [ST] below, in which an exception keeps what was
    written before it. A region under a mutex is one atomic step; the interleavings of
    such regions are step relations ([step] of [MemoryBackend], [RateLimiter] and
    [Semaphore], [sys_step] of [MetaCache], [router_step] of [BucketRouter], [step] of
    [RocksSteps], [fs_step] of [FsSystem], [duo_step] of [DuoRequest]), and a reachable state is one their closure
    reaches. [std::map] and [unordered_map] are
    [gmap]s, iterated in byte order where the source iterates. Loops that are not
    structural take fuel, with a theorem that the stated fuel is enough.

    Code that is not part of the repository is a parameter: MD5, SHA-1, SHA-256 and
    HMAC as functions on byte strings, [fnmatch], [std::hash], the clock and the random
    source of upload ids (values observed by an operation are its arguments), the RocksDB
    library (the class [RocksDB] of its calls). The operating system is an oracle: system
    call number [t] fails, or moves as many bytes as [sys t] says; whether a mutex is free
    is [busy]; what other threads do between two calls of a collector is [env], which may
    also kill the process, and between two calls of a request handler [env], which stands
    for runs of the other requests ([others_run]). What is assumed of a parameter is a named hypothesis or a class
    of laws ([fnmatch_literal], [RocksLaw], [DataLaw], [ListingLaw], [ReclaimLaw],
    [RemovalLaw], [MetaObjects]), with an instance that obeys it.

    * Files

    - [Prelude], [Bytes]: results, state, machine integers, and the byte-string
      operations of the C++ library (compare, find, substr, split, from_chars).
    - [Util], [Checksum]: [core/util/hex.h], [core/util/uri.cc], [core/util/checksum.cc].
      [TimeUtil]: [core/util/time.cc].
    - [Backend]: [s3/errors.h], [s3/errors.cc] and the records of [storage/backend.h].
    - [Validate]: [storage/validate.cc]. [Listing]: [storage/listing.cc].
      [Multipart]: [storage/multipart.cc].
    - [MemoryBackend]: every operation of [storage/memory/memory_backend.cc] and their
      invariant lemmas; [MemorySpec]: the abstract store of byte strings, which request it
      refuses and why, what it answers and how it changes; [MemorySim]: each operation
      follows it; [MemoryTheorems]: what follows for clients.
    - [Codec]: [storage/duostore/codec.cc], the extents of [data_ref.h], the records of
      [meta_store.h]; [CodecProofs]: record round trips and error classes; [CodecKeys]:
      the key space.
    - [MetaUtil]: [storage/duostore/meta_util.h].
    - [RocksDb]: the library as the engine uses it, its laws, an instance and the
      repository's merge operator; [RocksMeta]: every operation of
      [storage/duostore/rocks_meta_store.cc]; [RocksLedger], [RocksProofs], [RocksInv],
      [RocksOps], [RocksParts], [RocksSteps]: the accounting tables, the invariant and its
      preservation, the engine as a system of interleaved clients; [RocksTheorems],
      [RocksStats], [RocksListing], [RocksReads], [RocksLinks]: what follows.
    - [DuoWorld]: the pin table, the operations in flight and the interface of the data
      plane; [DuoGc]: the collection round [run_gc_once] of
      [storage/duostore/duostore_backend.cc]; [DuoQueue], [DuoHoare]: triples for a round
      beside its environment; [DuoSafety], [DuoLive], [DuoReclaim]: what a round may
      and must do; [DuoOrphan]: the orphan scan; [DuoDemo]: a round evaluated.
    - [FsPack]: the pack format of [storage/duostore/fs_data_store.cc] and the scan of a
      pack; [FsData]: its writers, pack slots, sealing, batches and removal; [FsRead]: its
      reader, an instance of [ReaderLaw]; [FsProofs], [FsSystem]: what writers leave on the
      disk, and the data plane as a system; [FsHooked]: its effect on the metadata store.
    - [DuoMigrate]: compaction, [migrate_pack_records] over [rewrite_pack].
    - [DuoBackend]: the request handlers of [storage/duostore/duostore_backend.cc] with
      [storage/pipelined_md5.h], over the interface [IMetaStore] of [meta_store.h];
      [DuoPins]: what a GET pins; [DuoRequest]: requests as a transition system over views
      of the store, the laws [MetaLaw] of the interface and the invariant; [DuoHandlers]:
      each handler as a run of that system; [RocksFront], [RocksStore]: the RocksDB engine
      discharges [MetaLaw]; [DuoServe]: the backend over that engine, end to end.
    - [MetaCache]: [storage/meta_cache.h] and the protocol between the cache and its
      source of truth. [BucketRouter]: [storage/bucket_router.cc].
    - [RateLimiter]: [s3/ratelimit.cc]. [Semaphore]: [core/semaphore.h].
    - [Policy]: [s3/auth/policy.h] and its functions in [s3/auth/credential_store.cc].
    - [Headers]: [HeaderMap] and [parse_content_length] of [http/model.h].
    - [BodyReader]: the interface of streaming bodies ([http/model.h]) as the classes
      [BodyReader] (operations) and [ReaderLaw] (what a client may rely on). The string
      reader and the snapshot reader of a GET are instances; the decorators of [Digest]
      and [Chunked] are proved against the law, whatever they wrap, and [ChunkedProofs]
      shows that a de-framed body is a lawful reader again.
    - [Digest], [DigestProofs]: [s3/checksum_guard.h].
    - [Chunked], [ChunkedProofs]: [ChunkedSigV4BodyReader] and the payload types of
      [s3/auth/sigv4.cc]. [SigV4]: the rest of that file, the authenticator and the signer;
      [SigV4Proofs]: what verification accepts and what a signature covers; [SigV4Sign]:
      what the signer writes is accepted; [SigV4Theorems]: the theorems.
    - [Xml], [XmlProofs]: [s3/xml.cc].

    * What is proved

    - The in-memory backend refines the abstract store, reads and listings included: it
      answers what is specified and refuses exactly for the stated reasons, changing
      nothing but what the expiry sweep takes; in every reachable state its byte account
      equals the bytes held and stays within the limit, and its buckets, objects, uploads
      and parts are well formed;
      data written is read back, whole or by range; conditional writes exclude each
      other; a completed upload is the concatenation of its parts.
    - Listing pages, followed by their tokens, enumerate every key and group once, in
      order, and end; the same for parts and for whole buckets of the backend.
    - DuoStore records read back as written; the decoder that skips extents agrees with
      the full one; decoding arbitrary bytes fails only as corruption; keys are injective,
      scanned exactly by their prefixes, and ordered like names; a compaction swap keeps
      the references of live files.
    - In every reachable state of the RocksDB engine, with clients interleaved and restarts
      in between, the reference table lists exactly the files records use, every file
      allocated is with a writer, used, queued or retired, a queued file is never used
      again, ids are never reissued, pack counters agree with the records (bytes modulo
      [2 ^ 64], with the overhead the code counts), and a failed operation changes no table
      but the counter it draws from; listings, completions and reads agree with what was
      written.
    - A collection round deletes no file in use, wherever it is killed, beside clients that
      put no record into a pack found empty for the grace period; a completed round has
      taken what was due off the queue and off the disk; the watermark hides no entry; a
      round ends. An orphan scan deletes no file in use beside clients that pin the chunks
      they write and write packs under a pin or the write lock ([pack_protocol]).
    - What a finished write session of the file data plane returned reads back byte for
      byte in any range, whatever other writers do and whichever calls fail; a failed
      session leaves no chunk and no pin; the scan of a pack finds exactly its intact
      records; a compaction keeps the bytes of every object.
    - Whatever requests interleave and wherever they fail, every object of DuoStore over its
      RocksDB engine that is not a remote stub is whole: its bytes are on the disk, as many
      as its size says, and read back until it is replaced; those of a local object have
      the digest its ETag names. A PUT that answers has stored its body; every
      request is a run of the system and, unless the outcome of its commit is unknown,
      leaves no writer and no reference behind; a GET
      pins the files of its range and gives back what it took.
    - A cache hit is never stale outside a commit window. A router follows its
      configuration and changes atomically.
    - The limiter bounds rate and concurrency and never leaves a token dangling; the
      semaphore conserves permits, loses no wake-up and resumes a waiter once.
    - An accepted aws-chunked body is exactly a signed sequence of chunks, and every such
      body is accepted and decoded, whatever the fragmentation; the digest guard accepts
      exactly matching bodies; a session stays within its parent.
    - SigV4 verification accepts exactly the authentic requests and stays on once it is on;
      requests with one signature agree on everything signed unless a hash collides; a
      request the signer signed is accepted; dates print and parse back to the second.
    - The header table agrees with a plain scan; the XML parser terminates with a bounded
      depth and reads back what the writer emits; CRC tables equal the bitwise CRC;
      validation accepts exactly the documented names.
    - Where code and documentation part: shrinking a semaphore, a rule after a negated
      literal, narrowing by a glob, the unchecked bracket of an XML root, the order of
      operations in flight, wrapped lengths and stale tails in a pack scan, and the pins a
      failed migration keeps.

    * Fuel and bounds

    The chunked reader is given fuel per call; three per byte of the stream is enough
    ([chunked_decodes]), since every turn of its loops consumes a byte of the stream or
    changes the phase. The XML parser starts with one unit per input byte plus a constant
    and never runs out ([xml_parse_total]). [read_all] takes the buffer sizes of the
    successive reads; one more than the bytes to deliver reaches EOF. Decimal printing of
    a 64-bit value needs at most twenty digits. A collection round with more fuel than the
    largest sequence number never runs out ([gc_round_ends]); a pack scan has one unit per
    byte and moves by a header at least ([compaction_keeps_objects]); a write loop has one
    unit per byte, since a call moves one at least. A handler that reads a body takes the
    number of reads as fuel and runs out of it only when the body does not end within
    them ([put_object_stores]). Packs are taken to be shorter than
    [2 ^ 62] bytes where offsets are added. Evicting from the cache needs at most one
    round per entry. Integers keep their width; the generation counter of the cache and
    the waiter identities are unbounded. The limiter counts exact nano-tokens where the
    source uses [double].

    * What is not modelled

    The localfs and xlocalfs backends, the io_uring paths, the Redis, SQLite, TiKV and
    RADOS engines of DuoStore, the cloud proxy and the HTTP drivers; coroutine machinery,
    metrics and logging, messages of exceptions, and the command-line tools: they are
    mostly calls to code outside the repository. Of DuoStore, start-up, the persisted copy of the
    quarantine, scrubbing, dumps, backups and [close] are left out; the rounds of the
    collector and of the orphan scan begin with the lease in hand and have no exit for a
    lost lease or a closing store, the round leaves out the clearing of the metadata cache
    after a migration, the least write lease is an argument of the scan, write pins are
    taken as switched on, and looking at a pack ([stat_pack], [pack_write_locked]) does
    not fail. The engine is given records within their machine widths only ([typed]: a
    record beyond them is refused with an internal error the source does not raise);
    compaction is a system of its own beside that of the requests, and the directory walk
    of the data plane is an interface ([ListingLaw]). The tiering state machine, the
    persistence of credentials, the handlers of [s3/handlers], usage, quota and tenancy,
    lifecycle rules and table identifiers are not modelled: they are independent of what is proved here. *)

From Stdlib Require Import ZArith Lia.
From Stdlib Require Strings.Byte.
From stdpp Require Import base list gmap sets strings sorting countable relations.

#[global] Set Default Goal Selector "!".
Declare Scope lights3_scope.
Delimit Scope lights3_scope with L3.

(** * Byte strings

    [std::string] / [std::string_view] hold arbitrary bytes, so they are lists of
    [Byte.byte]; [bs] turns a Rocq string literal into one. *)
Abbreviation byte := Byte.byte.
Abbreviation bytes := (list Byte.byte).

Definition bs (s : string) : bytes := String.list_byte_of_string s.

#[global] Instance byte_eq_decision : EqDecision byte := Byte.byte_eq_dec.

#[global] Program Instance byte_countable : Countable byte :=
  inj_countable Byte.to_N Byte.of_N _.
Next Obligation. intros x. apply Byte.of_to_N. Qed.

#[global] Instance byte_inhabited : Inhabited byte := populate Byte.x00.

(** [bz b] is the value of [uint8_t(b)]; [zb z] is the conversion [char(z)],
    which keeps the low eight bits. *)
Definition bz (b : byte) : Z := Z.of_N (Byte.to_N b).

Definition zb (z : Z) : byte :=
  match Byte.of_N (Z.to_N (z mod 256)) with
  | Some b => b
  | None => Byte.x00
  end.

Lemma bz_range b : (0 <= bz b < 256)%Z.
Proof. unfold bz. pose proof (Byte.to_N_bounded b). lia. Qed.

(** The range of every byte in the context. *)
Ltac byte_ranges :=
  repeat match goal with
  | b : byte |- _ => lazymatch goal with H : (0 <= bz b < 256)%Z |- _ => fail | _ => pose proof (bz_range b) end
  end.

Lemma zb_bz b : zb (bz b) = b.
Proof.
  unfold zb. rewrite Z.mod_small by apply bz_range.
  unfold bz. rewrite N2Z.id, Byte.of_to_N. done.
Qed.

Lemma bz_zb z : bz (zb z) = (z mod 256)%Z.
Proof.
  unfold zb. pose proof (Z.mod_pos_bound z 256 eq_refl) as Hm.
  destruct (Byte.of_N (Z.to_N (z mod 256))) as [b|] eqn:E.
  - apply Byte.to_of_N in E. unfold bz. lia.
  - apply Byte.of_N_None_iff in E. lia.
Qed.

Lemma bz_zb_small z : (0 <= z < 256)%Z -> bz (zb z) = z.
Proof. intros. rewrite bz_zb. apply Z.mod_small. lia. Qed.

#[global] Instance bz_inj : Inj (=) (=) bz.
Proof. intros a b H. rewrite <- (zb_bz a), <- (zb_bz b), H. done. Qed.

(** Character constants by code point. *)
Definition ch (s : string) : byte :=
  match bs s with b :: _ => b | [] => Byte.x00 end.

(** The double quote. *)
Definition dquote : byte := Byte.x22.

(** [lo <= c && c <= hi] on character codes. *)
Definition in_range (lo hi c : byte) : bool := ((bz lo <=? bz c) && (bz c <=? bz hi))%Z.

Definition is_digit (c : byte) : bool := in_range (ch "0") (ch "9") c.
Definition is_lower (c : byte) : bool := in_range (ch "a") (ch "z") c.
Definition is_upper (c : byte) : bool := in_range (ch "A") (ch "Z") c.

(** * Machine integers: wrap-around written out *)
Definition u8 (z : Z) : Z := (z mod 2 ^ 8)%Z.
Definition u16 (z : Z) : Z := (z mod 2 ^ 16)%Z.
Definition u32 (z : Z) : Z := (z mod 2 ^ 32)%Z.
Definition u64 (z : Z) : Z := (z mod 2 ^ 64)%Z.
(** Conversion to [int64_t]. *)
Definition i64 (z : Z) : Z := ((z + 2 ^ 63) mod 2 ^ 64 - 2 ^ 63)%Z.

(** Wrapping [uint64_t] addition and subtraction. *)
Notation "x +₆₄ y" := (u64 (x + y)%Z) (at level 50, left associativity) : lights3_scope.
Notation "x -₆₄ y" := (u64 (x - y)%Z) (at level 50, left associativity) : lights3_scope.

Definition is_u8 (z : Z) : Prop := (0 <= z < 2 ^ 8)%Z.
Definition is_u16 (z : Z) : Prop := (0 <= z < 2 ^ 16)%Z.
Definition is_u32 (z : Z) : Prop := (0 <= z < 2 ^ 32)%Z.
Definition is_u64 (z : Z) : Prop := (0 <= z < 2 ^ 64)%Z.
Definition is_i64 (z : Z) : Prop := (- 2 ^ 63 <= z < 2 ^ 63)%Z.

Lemma u64_small z : is_u64 z -> u64 z = z.
Proof. intros. apply Z.mod_small. done. Qed.

Lemma u64_range z : is_u64 (u64 z).
Proof. apply Z.mod_pos_bound. done. Qed.

Lemma i64_u64 z : is_i64 z -> i64 (u64 z) = z.
Proof.
  unfold is_i64, i64, u64. intros H.
  rewrite Zplus_mod_idemp_l, Z.mod_small; lia.
Qed.

(** * Results: [Ok v], or an exception [Throw e] *)
Inductive res (E A : Type) : Type :=
| Ok (a : A)
| Throw (e : E).
Arguments Ok {E A} a.
Arguments Throw {E A} e.

#[global] Instance res_ret {E} : MRet (res E) := @Ok E.
#[global] Instance res_bind {E} : MBind (res E) :=
  λ A B f m, match m with Ok a => f a | Throw e => Throw e end.
#[global] Instance res_fmap {E} : FMap (res E) :=
  λ A B f m, match m with Ok a => Ok (f a) | Throw e => Throw e end.

(** [if (c) throw e;] *)
Definition throw_if {E} (c : bool) (e : E) : res E unit := if c then Throw e else Ok tt.

Lemma bind_Ok {E A B} (m : res E A) (f : A -> res E B) b :
  m ≫= f = Ok b <-> exists a, m = Ok a /\ f a = Ok b.
Proof. destruct m; cbn; naive_solver. Qed.

Lemma bind_Throw {E A B} (m : res E A) (f : A -> res E B) e :
  m ≫= f = Throw e <-> m = Throw e \/ exists a, m = Ok a /\ f a = Throw e.
Proof. destruct m; cbn; naive_solver. Qed.

Lemma throw_if_Ok {E} c (e : E) u : throw_if c e = Ok u <-> c = false.
Proof. destruct c, u; cbn; naive_solver. Qed.

Lemma throw_if_bind_Ok {E B} c (e : E) (k : unit -> res E B) v :
  throw_if c e ≫= k = Ok v <-> c = false /\ k tt = Ok v.
Proof. destruct c; cbn; naive_solver. Qed.

Definition is_Ok {E A} (m : res E A) : bool := match m with Ok _ => true | Throw _ => false end.

(** Invert every monadic hypothesis into its steps. *)
Ltac inv_res :=
  repeat match goal with
  | H : _ ≫= _ = Ok _ |- _ =>
      apply bind_Ok in H; let a := fresh "v" in let H1 := fresh "Hm" in destruct H as (a & H1 & H)
  | H : throw_if _ _ = Ok _ |- _ => apply throw_if_Ok in H
  | H : Ok _ = Ok _ |- _ => injection H as H
  | H : Throw _ = Throw _ |- _ => injection H as H
  | H : Ok _ = Throw _ |- _ => discriminate H
  | H : Throw _ = Ok _ |- _ => discriminate H
  end.

(** Split the boolean tests of the code into propositions. *)
Ltac bool_prop :=
  repeat match goal with
  | H : _ && _ = true |- _ => apply andb_true_iff in H; destruct H
  | H : _ || _ = false |- _ => apply orb_false_iff in H; destruct H
  | H : negb _ = true |- _ => apply negb_true_iff in H
  | H : negb _ = false |- _ => apply negb_false_iff in H
  | H : bool_decide _ = true |- _ => apply bool_decide_eq_true in H
  | H : bool_decide _ = false |- _ => apply bool_decide_eq_false in H
  end.

(** Case analysis on the scrutinee of an [if] or [match] of the goal. *)
Ltac case_if :=
  match goal with |- context [if ?c then _ else _] => let E := fresh "Hif" in destruct c eqn:E end.

(** * Bit fields as arithmetic *)
Lemma land_shiftl_small hi lo n :
  (0 <= n)%Z -> (0 <= lo < 2 ^ n)%Z -> Z.land (Z.shiftl hi n) lo = 0%Z.
Proof.
  intros Hn Hlo. apply Z.bits_inj'. intros m Hm. rewrite Z.land_spec, Z.bits_0.
  destruct (Z.lt_ge_cases m n).
  - by rewrite Z.shiftl_spec_low.
  - rewrite <- (Z.mod_small lo (2 ^ n)) by done. rewrite Z.mod_pow2_bits_high by lia. apply andb_false_r.
Qed.

Lemma lor_shiftl_add hi lo n :
  (0 <= n)%Z -> (0 <= lo < 2 ^ n)%Z -> Z.lor (Z.shiftl hi n) lo = (hi * 2 ^ n + lo)%Z.
Proof.
  intros Hn Hlo. rewrite <- Z.lxor_lor by (by apply land_shiftl_small).
  rewrite <- Z.add_nocarry_lxor by (by apply land_shiftl_small).
  by rewrite Z.shiftl_mul_pow2.
Qed.

Lemma land_ones_mod a n : (0 <= n)%Z -> Z.land a (2 ^ n - 1) = (a mod 2 ^ n)%Z.
Proof. intros. rewrite <- Z.land_ones by done. by rewrite Z.ones_equiv, Z.sub_1_r. Qed.

(** * State and exceptions

    A stateful member function is a map from the object's state to its outcome and
    the state left behind: an exception does not undo what was already written. *)
Definition ST (S E A : Type) : Type := S -> res E A * S.

#[global] Instance ST_ret {S E} : MRet (ST S E) := λ A a s, (Ok a, s).
#[global] Instance ST_bind {S E} : MBind (ST S E) :=
  λ A B f m s, match m s with
               | (Ok a, s') => f a s'
               | (Throw e, s') => (Throw e, s')
               end.

Definition get_st {S E} : ST S E S := λ s, (Ok s, s).
Definition put_st {S E} (s : S) : ST S E unit := λ _, (Ok tt, s).
Definition lift {S E A} (r : res E A) : ST S E A := λ s, (r, s).
Definition throw {S E A} (e : E) : ST S E A := λ s, (Throw e, s).

(** The equations of the monad, for rewriting from the left. *)
Lemma ST_bind_eq {S E A B} (m : ST S E A) (f : A -> ST S E B) s :
  (m ≫= f) s = match m s with (Ok a, s') => f a s' | (Throw e, s') => (Throw e, s') end.
Proof. done. Qed.
Lemma ST_get_bind {S E B} (f : S -> ST S E B) s : (get_st ≫= f) s = f s s.
Proof. done. Qed.
Lemma ST_ret_bind {S E A B} (a : A) (f : A -> ST S E B) s : ((mret a : ST S E A) ≫= f) s = f a s.
Proof. done. Qed.

(** Invert a successful run into the runs of its steps. *)
Lemma ST_bind_run {S E A B} (m : ST S E A) (f : A -> ST S E B) s r s' :
  (m ≫= f) s = (r, s') <->
  (exists a s1, m s = (Ok a, s1) /\ f a s1 = (r, s')) \/ (exists e, m s = (Throw e, s') /\ r = Throw e).
Proof.
  unfold mbind, ST_bind. destruct (m s) as [[a|e] s1]; split; intros H.
  - left. eauto.
  - destruct H as [(? & ? & [= <- <-] & ?)|(? & [=] & _)]. done.
  - injection H as <- <-. right. eauto.
  - destruct H as [(? & ? & [=] & _)|(? & [= <- <-] & ->)]. done.
Qed.

(** Simplification of runs, and the ranges the arithmetic of the components rests on. *)
Create HintDb lights3.
#[export] Hint Resolve bz_range u64_range bz_zb_small u64_small : lights3.
#[export] Hint Rewrite @ST_get_bind @ST_ret_bind : lights3.
