(* ===== verification/Bytes.v ===== *)
(** Byte-string operations of the C++ standard library that the sources use:
    lexicographic comparison, prefix and suffix tests, [find], [substr],
    [find_first_of], splitting loops, decimal printing and [from_chars],
    and the sorted iteration order of [std::map] with string keys. *)

From S2P Require Import Prelude.
From Stdlib Require Import ZArith Lia.
From Stdlib Require Strings.Byte.
From stdpp Require Import base list gmap sets strings sorting countable.

(** * Lexicographic order ([std::string::operator<]) *)
Fixpoint bytes_ltb (a b : bytes) : bool :=
  match a, b with
  | _, [] => false
  | [], _ :: _ => true
  | x :: a', y :: b' => if (bz x =? bz y)%Z then bytes_ltb a' b' else (bz x <? bz y)%Z
  end.

Definition bytes_lt (a b : bytes) : Prop := bytes_ltb a b = true.
Definition bytes_le (a b : bytes) : Prop := bytes_ltb b a = false.

#[global] Instance bytes_lt_dec : RelDecision bytes_lt.
Proof. intros a b. unfold bytes_lt. apply _. Defined.
#[global] Instance bytes_le_dec : RelDecision bytes_le.
Proof. intros a b. unfold bytes_le. apply _. Defined.

Ltac bytes_order :=
  repeat match goal with
  | |- context [(?x =? ?y)%Z] => destruct (Z.eqb_spec x y)
  | H : context [(?x =? ?y)%Z] |- _ => destruct (Z.eqb_spec x y)
  | H : (_ <? _)%Z = true |- _ => apply Z.ltb_lt in H
  | H : (_ <? _)%Z = false |- _ => apply Z.ltb_ge in H
  | |- (_ <? _)%Z = true => apply Z.ltb_lt
  | |- (_ <? _)%Z = false => apply Z.ltb_ge
  | H : bz ?x = bz ?y |- _ => apply (inj bz) in H; subst
  end.

#[global] Instance bytes_lt_irrefl : Irreflexive bytes_lt.
Proof. intros a. unfold complement, bytes_lt. induction a as [|x a IH]; cbn; [done|]. bytes_order; done. Qed.

#[global] Instance bytes_lt_trans : Transitive bytes_lt.
Proof.
  intros a. unfold bytes_lt. induction a as [|x a IH]; intros [|y b] [|z c]; cbn; try done.
  intros H1 H2. bytes_order; try lia; eauto.
Qed.

Lemma bytes_lt_total a b : bytes_lt a b \/ a = b \/ bytes_lt b a.
Proof.
  unfold bytes_lt. revert b. induction a as [|x a IH]; intros [|y b]; cbn; auto.
  bytes_order; try done.
  - destruct (IH b) as [?|[->|?]]; auto.
  - destruct (Z.lt_total (bz x) (bz y)) as [?|[?|?]]; bytes_order; rewrite ?Z.ltb_lt; auto; congruence.
Qed.

Lemma bytes_lt_not_le a b : bytes_lt a b <-> ~ bytes_le b a.
Proof. unfold bytes_lt, bytes_le. destruct (bytes_ltb a b); naive_solver. Qed.

Lemma bytes_le_lt_eq a b : bytes_le a b <-> bytes_lt a b \/ a = b.
Proof.
  unfold bytes_le. split.
  - intros H. destruct (bytes_lt_total a b) as [?|[?|H2]]; auto. unfold bytes_lt in H2. congruence.
  - intros [H| ->].
    + destruct (bytes_ltb b a) eqn:E; [|done].
      exfalso. apply (irreflexivity bytes_lt a). by trans b.
    + destruct (bytes_ltb b b) eqn:E; [|done]. by apply (irreflexivity bytes_lt b) in E.
Qed.

#[global] Instance bytes_le_total : Total bytes_le.
Proof. intros a b. rewrite !bytes_le_lt_eq. destruct (bytes_lt_total a b) as [?|[->|?]]; auto. Qed.

#[global] Instance bytes_le_trans : Transitive bytes_le.
Proof.
  intros a b c. rewrite !bytes_le_lt_eq. intros [?| ->] [?| ->]; auto. left. by trans b.
Qed.

#[global] Instance bytes_le_antisymm : AntiSymm (=) bytes_le.
Proof.
  intros a b. rewrite !bytes_le_lt_eq. intros [H1| ->] [H2| H2]; auto.
  exfalso. apply (irreflexivity bytes_lt a). by trans b.
Qed.

Lemma bytes_lt_le_trans a b c : bytes_lt a b -> bytes_le b c -> bytes_lt a c.
Proof. rewrite bytes_le_lt_eq. intros ? [?| ->]; [by trans b|done]. Qed.

Lemma bytes_le_lt_trans a b c : bytes_le a b -> bytes_lt b c -> bytes_lt a c.
Proof. rewrite bytes_le_lt_eq. intros [?| ->] ?; [by trans b|done]. Qed.

Lemma bytes_lt_nil a : a <> [] -> bytes_lt [] a.
Proof. by destruct a. Qed.

Lemma bytes_le_nil a : bytes_le [] a.
Proof. unfold bytes_le. by destruct a. Qed.

Lemma bytes_ltb_app p a b : bytes_ltb (p ++ a) (p ++ b) = bytes_ltb a b.
Proof. induction p as [|x p IH]; cbn; [done|]. by rewrite Z.eqb_refl. Qed.

(** * Prefix and suffix tests *)

(** [s.compare(0, p.size(), p) == 0], [s.starts_with(p)]. *)
Fixpoint starts_with (p s : bytes) : bool :=
  match p, s with
  | [], _ => true
  | _, [] => false
  | x :: p', y :: s' => bool_decide (x = y) && starts_with p' s'
  end.

Lemma starts_with_prefix p s : starts_with p s = true <-> p `prefix_of` s.
Proof.
  revert s. induction p as [|x p IH]; intros s; cbn.
  - split; [intros _; apply prefix_nil|done].
  - destruct s as [|y s]; [split; [done|intros H; by apply prefix_nil_inv in H]|].
    case_bool_decide as E; cbn.
    + subst. rewrite IH. split; [apply prefix_cons|apply prefix_cons_inv_2].
    + split; [done|]. intros H. by apply prefix_cons_inv_1 in H.
Qed.

Lemma starts_with_false p s : starts_with p s = false <-> ~ p `prefix_of` s.
Proof. rewrite <- starts_with_prefix. destruct (starts_with p s); naive_solver. Qed.

Lemma starts_with_app p s : starts_with p (p ++ s) = true.
Proof. apply starts_with_prefix. by exists s. Qed.

(** [s.ends_with(p)], [s.compare(s.size() - p.size(), p.size(), p) == 0]. *)
Definition ends_with (p s : bytes) : bool := starts_with (reverse p) (reverse s).

Lemma ends_with_suffix p s : ends_with p s = true <-> p `suffix_of` s.
Proof. unfold ends_with. rewrite starts_with_prefix, suffix_prefix_reverse. done. Qed.

Lemma ends_with_false p s : ends_with p s = false <-> ~ p `suffix_of` s.
Proof. rewrite <- ends_with_suffix. destruct (ends_with p s); naive_solver. Qed.

(** * [c_str]: the bytes before the first NUL *)
Fixpoint c_str (s : bytes) : bytes :=
  match s with [] => [] | c :: s' => if bool_decide (c = Byte.x00) then [] else c :: c_str s' end.

(** Keys between two keys with a common prefix have that prefix. *)
Lemma prefix_between p a b c :
  p `prefix_of` a -> p `prefix_of` c -> bytes_le a b -> bytes_le b c -> p `prefix_of` b.
Proof.
  unfold bytes_le. revert a b c.
  induction p as [|x p IH]; intros a b c; [intros; apply prefix_nil|].
  intros [a' ->] [c' ->] H1 H2. cbn in *.
  destruct b as [|y b]; [done|]. cbn in *. bytes_order; try (lia || congruence).
  apply prefix_cons. eapply (IH (p ++ a') b (p ++ c')); [by eexists|by eexists|done|done].
Qed.

Lemma prefix_le p s : p `prefix_of` s -> bytes_le p s.
Proof.
  intros [t ->]. unfold bytes_le. rewrite <- (app_nil_r p) at 2.
  rewrite bytes_ltb_app. by destruct t.
Qed.

(** * [find] *)

(** [s.find(pat)]: position of the first occurrence. *)
Fixpoint bfind (pat s : bytes) : option nat :=
  if starts_with pat s then Some 0
  else match s with [] => None | _ :: s' => S <$> bfind pat s' end.

(** [s.find(pat, pos)]. *)
Definition find_from (pat s : bytes) (pos : nat) : option nat :=
  if (pos <=? length s)%nat then (Nat.add pos) <$> bfind pat (drop pos s) else None.

(** [s.substr(pos, n)] for [pos <= s.size()]. *)
Definition substr (s : bytes) (pos n : nat) : bytes := take n (drop pos s).

Lemma bfind_spec pat s n :
  bfind pat s = Some n -> pat `prefix_of` drop n s /\ n + length pat <= length s.
Proof.
  revert n. induction s as [|x s IH]; intros n; cbn [bfind].
  - destruct (starts_with pat []) eqn:E; [|done]. intros [= <-].
    apply starts_with_prefix in E. apply prefix_nil_inv in E as ->. split; [apply prefix_nil|done].
  - destruct (starts_with pat (x :: s)) eqn:E.
    + intros [= <-]. apply starts_with_prefix in E. split; [done|].
      apply prefix_length in E. cbn in *. lia.
    + destruct (bfind pat s) as [m|] eqn:F; [|done]. intros [= <-].
      destruct (IH m eq_refl) as [? ?]. split; [done|]. cbn. lia.
Qed.

Lemma bfind_None pat s n : bfind pat s = None -> ~ pat `prefix_of` drop n s.
Proof.
  revert n. induction s as [|x s IH]; intros n; cbn [bfind].
  - destruct (starts_with pat []) eqn:E; [done|]. intros _ H.
    rewrite drop_nil in H. apply starts_with_prefix in H. congruence.
  - destruct (starts_with pat (x :: s)) eqn:E; [done|].
    destruct (bfind pat s) eqn:F; [done|]. intros _ H. destruct n as [|n]; cbn in H.
    + apply starts_with_prefix in H. congruence.
    + by apply (IH n) in H.
Qed.

Lemma prefix_app_short (p s t : bytes) :
  p `prefix_of` s ++ t -> length p <= length s -> p `prefix_of` s.
Proof.
  intros [k Hk] Hl. apply (f_equal (take (length p))) in Hk.
  rewrite take_app_le, take_app_length in Hk by done.
  exists (drop (length p) s). rewrite <- Hk at 1. by rewrite take_drop.
Qed.

Lemma bfind_app_l pat s t n : bfind pat s = Some n -> bfind pat (s ++ t) = Some n.
Proof.
  revert n. induction s as [|x s IH]; intros n.
  - cbn. destruct (starts_with pat []) eqn:E; [|done]. intros [= <-].
    apply starts_with_prefix, prefix_nil_inv in E as ->. by destruct t.
  - intros H. cbn [bfind] in H. change ((x :: s) ++ t) with (x :: (s ++ t)). cbn [bfind].
    destruct (starts_with pat (x :: s)) eqn:E.
    + injection H as <-. apply starts_with_prefix in E.
      assert (starts_with pat (x :: s ++ t) = true) as ->; [|done].
      apply starts_with_prefix. change (x :: s ++ t) with ((x :: s) ++ t). by apply prefix_app_r.
    + destruct (bfind pat s) as [m|] eqn:F; [|done]. injection H as <-.
      pose proof (bfind_spec _ _ _ F) as [_ Hl].
      destruct (starts_with pat (x :: s ++ t)) eqn:E2.
      * exfalso. apply starts_with_prefix in E2.
        apply (prefix_app_short _ (x :: s)), starts_with_prefix in E2; [congruence|cbn; lia].
      * by rewrite (IH m eq_refl).
Qed.

(** The occurrence found is already found in the text cut off right behind it. *)
Lemma bfind_take pat s n : bfind pat s = Some n -> bfind pat (take (n + length pat) s) = Some n.
Proof.
  revert n. induction s as [|x s IH]; intros n.
  - rewrite take_nil. done.
  - cbn [bfind]. destruct (starts_with pat (x :: s)) eqn:E.
    + intros [= <-]. apply starts_with_prefix in E as [t ->]. cbn [Nat.add]. rewrite take_app_length.
      destruct pat; cbn [bfind]; [done|]. rewrite <- (app_nil_r (_ :: _)) at 2. by rewrite starts_with_app.
    + destruct (bfind pat s) as [m|]; [|done]. intros [= <-]. cbn [Nat.add take bfind].
      rewrite (IH m) by done. destruct (starts_with pat (x :: take _ s)) eqn:E2; [|done].
      exfalso. apply starts_with_prefix in E2. apply starts_with_false in E. apply E. etrans; [done|].
      apply prefix_cons, prefix_take.
Qed.

(** * Splitting on a separator

    The scanning loops [while (pos <= s.size()) { end = s.find(sep, pos); ... }]
    visit exactly these segments, the last (possibly empty) one included. *)
Fixpoint split_on (sep : byte) (s : bytes) : list bytes :=
  match s with
  | [] => [[]]
  | c :: s' =>
      if bool_decide (c = sep) then [] :: split_on sep s'
      else match split_on sep s' with
           | seg :: rest => (c :: seg) :: rest
           | [] => [[c]]
           end
  end.

Lemma split_on_cons sep s : exists seg rest, split_on sep s = seg :: rest.
Proof.
  induction s as [|c s (seg & rest & IH)]; cbn; [by eexists _, _|].
  case_bool_decide; [by eexists _, _|]. rewrite IH. by eexists _, _.
Qed.

Lemma split_on_no_sep sep s : sep ∉ s -> split_on sep s = [s].
Proof.
  induction s as [|c s IH]; cbn; [done|]. intros [? ?]%not_elem_of_cons.
  rewrite bool_decide_false by congruence. by rewrite IH.
Qed.

Lemma split_on_app sep a b : sep ∉ a -> split_on sep (a ++ sep :: b) = a :: split_on sep b.
Proof.
  induction a as [|c a IH]; cbn; intros Hn.
  - by rewrite bool_decide_true.
  - apply not_elem_of_cons in Hn as [? ?]. rewrite bool_decide_false by congruence. by rewrite IH.
Qed.

Lemma split_on_segments sep s seg : seg ∈ split_on sep s -> sep ∉ seg.
Proof.
  revert seg. induction s as [|c s IH]; intros seg; cbn.
  - intros ->%list_elem_of_singleton. apply not_elem_of_nil.
  - destruct (split_on_cons sep s) as (sg & rest & E). rewrite E in IH |- *.
    case_bool_decide as Hc; rewrite elem_of_cons; intros [->|H].
    + apply not_elem_of_nil.
    + apply IH. done.
    + apply not_elem_of_cons. split; [done|]. apply IH. by left.
    + apply IH. by right.
Qed.

(** * Decimal numbers *)

Definition digit_char (d : Z) : byte := zb (48 + d).
Definition digit_val (c : byte) : Z := (bz c - 48)%Z.

(** [std::to_string] of an unsigned 64-bit value: at most 20 digits, since
    [2^64 < 10^20]. *)
Fixpoint dec_loop (fuel : nat) (n : Z) (acc : bytes) : bytes :=
  match fuel with
  | O => acc
  | S f =>
      let acc' := digit_char (n mod 10)%Z :: acc in
      if (n <? 10)%Z then acc' else dec_loop f (n / 10)%Z acc'
  end.
Definition to_string (n : Z) : bytes := dec_loop 20 n [].

(** Value of a digit string, [v] being the digits read so far. *)
Fixpoint dec_value (v : Z) (s : bytes) : Z :=
  match s with [] => v | c :: s' => dec_value (v * 10 + digit_val c)%Z s' end.

(** [std::from_chars] on an unsigned 64-bit target followed by the check that the
    whole input was consumed: digits only, at least one, no overflow. *)
Definition from_chars_u64 (s : bytes) : option Z :=
  if bool_decide (s <> []) && forallb is_digit s && (dec_value 0 s <? 2 ^ 64)%Z
  then Some (dec_value 0 s) else None.

Lemma digit_char_val d : (0 <= d < 10)%Z -> digit_val (digit_char d) = d.
Proof. intros. unfold digit_val, digit_char. rewrite bz_zb_small; lia. Qed.

Lemma digit_char_is_digit d : (0 <= d < 10)%Z -> is_digit (digit_char d) = true.
Proof.
  intros. unfold is_digit, in_range, digit_char. rewrite bz_zb_small by lia.
  change (bz (ch "0")) with 48%Z. change (bz (ch "9")) with 57%Z. lia.
Qed.

Lemma dec_loop_value f n acc :
  (0 <= n < 10 ^ Z.of_nat (S f))%Z ->
  dec_value 0 (dec_loop (S f) n acc) = dec_value n acc.
Proof.
  revert n acc. induction f as [|f IH]; intros n acc Hn; cbn [dec_loop].
  - destruct (Z.ltb_spec n 10); [|cbn in Hn; lia].
    cbn. rewrite digit_char_val by (apply Z.mod_pos_bound; lia). rewrite Z.mod_small; [done|lia].
  - pose proof (Z.mod_pos_bound n 10 ltac:(lia)).
    destruct (Z.ltb_spec n 10).
    + cbn. rewrite digit_char_val by done. rewrite Z.mod_small; [done|lia].
    + change (dec_value 0 (dec_loop (S f) (n / 10) (digit_char (n mod 10) :: acc)) = dec_value n acc).
      rewrite IH; cycle 1.
      { rewrite Nat2Z.inj_succ, Z.pow_succ_r in Hn by lia.
        split; [apply Z.div_pos; lia|apply Z.div_lt_upper_bound; lia]. }
      cbn. rewrite digit_char_val by done. f_equal. pose proof (Z.div_mod n 10). lia.
Qed.

Lemma dec_loop_digits f n acc :
  (0 <= n)%Z -> forallb is_digit acc = true -> forallb is_digit (dec_loop f n acc) = true.
Proof.
  revert n acc. induction f as [|f IH]; intros n acc Hn Ha; cbn [dec_loop]; [done|].
  assert (forallb is_digit (digit_char (n mod 10) :: acc) = true).
  { cbn. by rewrite digit_char_is_digit by (apply Z.mod_pos_bound; lia). }
  case_if; [done|]. apply IH; [apply Z.div_pos; lia|done].
Qed.

Lemma dec_loop_length f n acc :
  length (dec_loop f n acc) <= f + length acc.
Proof.
  revert n acc. induction f as [|f IH]; intros n acc; cbn [dec_loop]; [lia|].
  case_if; cbn; [lia|]. etrans; [apply IH|cbn; lia].
Qed.

Lemma dec_loop_nonempty f n acc : acc <> [] -> dec_loop f n acc <> [].
Proof. revert n acc. induction f as [|f IH]; intros n acc Ha; cbn [dec_loop]; [done|]. case_if; auto. Qed.

Lemma dec_loop_S_nonempty f n acc : dec_loop (S f) n acc <> [].
Proof. cbn [dec_loop]. case_if; [done|]. by apply dec_loop_nonempty. Qed.

Lemma to_string_nonempty n : to_string n <> [].
Proof. apply dec_loop_S_nonempty. Qed.

Lemma to_string_digits n : (0 <= n)%Z -> forallb is_digit (to_string n) = true.
Proof. intros. by apply dec_loop_digits. Qed.

Lemma to_string_value n : is_u64 n -> dec_value 0 (to_string n) = n.
Proof. intros [? ?]. apply (dec_loop_value 19). change (10 ^ Z.of_nat 20)%Z with 100000000000000000000%Z. lia. Qed.

(** Printing and parsing a [uint64_t] are inverse. *)
Lemma from_chars_to_string n : is_u64 n -> from_chars_u64 (to_string n) = Some n.
Proof.
  intros Hn. unfold from_chars_u64. rewrite to_string_value, to_string_digits by (done || apply Hn).
  rewrite bool_decide_true by apply to_string_nonempty.
  destruct Hn. assert ((n <? 2 ^ 64)%Z = true) as -> by lia. done.
Qed.

Lemma to_string_inj n m : is_u64 n -> is_u64 m -> to_string n = to_string m -> n = m.
Proof. intros Hn Hm H. apply (f_equal (dec_value 0)) in H. by rewrite !to_string_value in H. Qed.

(** A separator that is no digit does not occur in a printed number. *)
Lemma to_string_not_elem c n : (0 <= n)%Z -> is_digit c = false -> c ∉ to_string n.
Proof.
  intros Hn Hc Hin. pose proof (to_string_digits n Hn) as H.
  rewrite forallb_forall in H. apply list_elem_of_In, H in Hin. congruence.
Qed.

(** * Ordered maps

    [std::map<K, V>] is a [gmap] together with its iteration order: [map_items]
    lists the entries by increasing key. *)
Section ordered_map.
Context {K : Type} `{Countable K} (R : relation K).
Context `{!RelDecision R, !Transitive R, !Total R, !AntiSymm (=) R} {V : Type}.

Definition item_le (a b : K * V) : Prop := R a.1 b.1.

#[global] Instance item_le_dec : RelDecision item_le.
Proof. intros a b. unfold item_le. apply _. Defined.

Definition map_items (m : gmap K V) : list (K * V) := merge_sort item_le (map_to_list m).

#[local] Instance item_le_total : Total item_le.
Proof. intros a b. apply (total R). Qed.
#[local] Instance item_le_trans : Transitive item_le.
Proof. intros a b c. unfold item_le. apply transitivity. Qed.

Lemma map_items_perm m : map_items m ≡ₚ map_to_list m.
Proof. apply merge_sort_Permutation. Qed.

Lemma map_items_NoDup m : NoDup (map_items m).*1.
Proof. rewrite map_items_perm. apply NoDup_fst_map_to_list. Qed.

Lemma map_items_elem m k v : (k, v) ∈ map_items m <-> m !! k = Some v.
Proof. rewrite map_items_perm. apply elem_of_map_to_list. Qed.

Lemma map_items_keys m k : k ∈ (map_items m).*1 <-> is_Some (m !! k).
Proof.
  rewrite list_elem_of_fmap. split.
  - intros ([k' v] & -> & Hin). apply map_items_elem in Hin. cbn. by eexists.
  - intros [v Hv]. exists (k, v). by rewrite map_items_elem.
Qed.

Lemma list_to_map_items m : list_to_map (map_items m) = m.
Proof.
  rewrite <- (list_to_map_to_list m) at 2. apply list_to_map_proper.
  - apply map_items_NoDup.
  - apply map_items_perm.
Qed.

Lemma length_map_items m : length (map_items m) = size m.
Proof. rewrite map_items_perm. apply length_map_to_list. Qed.

(** Iteration visits strictly increasing keys. *)
Lemma map_items_sorted m : StronglySorted (λ a b, R a b /\ a <> b) (map_items m).*1.
Proof.
  pose proof (map_items_NoDup m) as Hn.
  assert (StronglySorted item_le (map_items m)) as Hs.
  { apply Sorted_StronglySorted; [apply _|]. apply Sorted_merge_sort; apply _. }
  revert Hs Hn. generalize (map_items m) as l. intros l.
  induction 1 as [|x l Hs IH Hx]; cbn; [constructor|].
  intros [Hn1 Hn2]%list.NoDup_cons. constructor; [by apply IH|].
  apply list.Forall_forall. intros k Hk. split.
  - apply list_elem_of_fmap in Hk as (y & -> & Hy). rewrite list.Forall_forall in Hx. by apply Hx.
  - intros E. by rewrite E in Hn1.
Qed.
End ordered_map.

(** * Sums over the values of a map *)
Section map_sum.
Context {K : Type} `{Countable K} {V : Type} (f : V -> Z).

Definition map_sum (m : gmap K V) : Z := map_fold (λ _ v acc, (f v + acc)%Z) 0%Z m.

Lemma map_sum_empty : map_sum ∅ = 0%Z.
Proof. apply map_fold_empty. Qed.

Lemma map_sum_insert_new m k v : m !! k = None -> map_sum (<[k:=v]> m) = (f v + map_sum m)%Z.
Proof. intros. unfold map_sum. rewrite map_fold_insert_L; [done| |done]. intros. lia. Qed.

Lemma map_sum_delete m k :
  map_sum (delete k m) = (map_sum m - match m !! k with Some v => f v | None => 0 end)%Z.
Proof.
  destruct (m !! k) as [v|] eqn:E.
  - rewrite <- (insert_delete_id m k v) at 2 by done.
    rewrite map_sum_insert_new by apply lookup_delete_eq. lia.
  - rewrite delete_id by done. lia.
Qed.

Lemma map_sum_insert m k v :
  map_sum (<[k:=v]> m) = (map_sum m - match m !! k with Some v' => f v' | None => 0 end + f v)%Z.
Proof.
  rewrite <- insert_delete_eq, map_sum_insert_new by apply lookup_delete_eq.
  rewrite map_sum_delete. lia.
Qed.

Lemma map_sum_nonneg m : (forall v, 0 <= f v)%Z -> (0 <= map_sum m)%Z.
Proof.
  intros Hf. induction m as [|k v m Hk IH] using map_ind; [by rewrite map_sum_empty|].
  rewrite map_sum_insert_new by done. specialize (Hf v). lia.
Qed.

Lemma map_sum_lookup m k v : (forall v, 0 <= f v)%Z -> m !! k = Some v -> (f v <= map_sum m)%Z.
Proof.
  intros Hf Hk. pose proof (map_sum_delete m k) as Hd. rewrite Hk in Hd.
  pose proof (map_sum_nonneg (delete k m) Hf). lia.
Qed.
End map_sum.
