(* ===== verification/Util.v ===== *)
(** core/util: hexadecimal ([src/src/core/util/hex.h]) and URI percent coding
    ([src/src/core/util/uri.cc]). *)

From S2P Require Import Prelude Bytes.
From Stdlib Require Import ZArith Lia.
From stdpp Require Import base list strings.

(** Lemma-by-enumeration over the 256 bytes. *)
Ltac all_bytes := let b := fresh in intros b; destruct b; vm_compute; reflexivity.

(** Index into a digit table. *)
Definition digit_at (digits : bytes) (i : Z) : byte := nth (Z.to_nat i) digits Byte.x00.

Module Hex.

(** [digits[b >> 4]], [digits[b & 0xf]] for every byte. *)
Definition hex_pair (digits : bytes) (b : byte) : bytes :=
  [digit_at digits (Z.shiftr (bz b) 4); digit_at digits (Z.land (bz b) 15)].

Definition to_hex (data : bytes) : bytes := flat_map (hex_pair (bs "0123456789abcdef")) data.

(** The [val] lambda of [from_hex], and [hex_val] of uri.cc. *)
Definition hex_val (c : byte) : Z :=
  if is_digit c then (bz c - bz (ch "0"))%Z
  else if in_range (ch "a") (ch "f") c then (bz c - bz (ch "a") + 10)%Z
  else if in_range (ch "A") (ch "F") c then (bz c - bz (ch "A") + 10)%Z
  else (-1)%Z.

(** The loop of [from_hex]; [None] stands for the [return {}] inside it. *)
Fixpoint from_hex_loop (hex : bytes) : option bytes :=
  match hex with
  | h :: l :: rest =>
      let hi := hex_val h in
      let lo := hex_val l in
      if (hi <? 0)%Z || (lo <? 0)%Z then None
      else cons (zb (Z.lor (Z.shiftl hi 4) lo)) <$> from_hex_loop rest
  | _ => Some []
  end.

Definition from_hex (hex : bytes) : bytes :=
  if negb (Nat.even (length hex)) then [] else default [] (from_hex_loop hex).

Lemma hex_pair_decodes : forall b,
  from_hex_loop (hex_pair (bs "0123456789abcdef") b) = Some [b].
Proof. all_bytes. Qed.

Lemma from_hex_loop_step h l b s :
  from_hex_loop [h; l] = Some [b] -> from_hex_loop (h :: l :: s) = cons b <$> from_hex_loop s.
Proof. cbn [from_hex_loop]. destruct (_ || _); [done|]. intros [= ->]. done. Qed.

Lemma from_hex_loop_cons b s :
  from_hex_loop (hex_pair (bs "0123456789abcdef") b ++ s) = cons b <$> from_hex_loop s.
Proof.
  pose proof (hex_pair_decodes b) as H. unfold hex_pair in *. by apply from_hex_loop_step.
Qed.

Lemma length_to_hex s : length (to_hex s) = 2 * length s.
Proof. induction s as [|b s IH]; [done|]. unfold to_hex in *. cbn [flat_map]. rewrite length_app, IH. cbn. lia. Qed.

(** Hexadecimal text decodes to the bytes it was made from. *)
Lemma from_hex_to_hex (s : bytes) : from_hex (to_hex s) = s.
Proof.
  unfold from_hex. rewrite length_to_hex, Nat.even_mul. cbn [orb negb Nat.even].
  assert (from_hex_loop (to_hex s) = Some s) as ->; [|done].
  induction s as [|b s IH]; [done|].
  change (to_hex (b :: s)) with (hex_pair (bs "0123456789abcdef") b ++ to_hex s).
  by rewrite from_hex_loop_cons, IH.
Qed.

(** Malformed text (odd length, a character outside the alphabet) gives the empty
    vector, never a truncated prefix. *)
Lemma from_hex_loop_bad pre h l rest :
  Nat.even (length pre) = true ->
  ((hex_val h <? 0) || (hex_val l <? 0))%Z = true ->
  from_hex_loop (pre ++ h :: l :: rest) = None.
Proof.
  remember (length pre) as n eqn:Hn. revert pre Hn.
  induction n as [n IH] using lt_wf_ind. intros pre -> He Hb.
  destruct pre as [|a [|b pre]]; [cbn [app from_hex_loop]; by rewrite Hb|done|].
  assert (from_hex_loop (pre ++ h :: l :: rest) = None) as Hr.
  { apply (IH (length pre)); [cbn; lia|done|done|done]. }
  cbn [app from_hex_loop]. cbv zeta. rewrite Hr. by case_if.
Qed.

End Hex.

Module Uri.
Import Hex.

Definition unreserved (c : byte) : bool :=
  is_upper c || is_lower c || is_digit c || bool_decide (c = ch "-") || bool_decide (c = ch "_")
  || bool_decide (c = ch ".") || bool_decide (c = ch "~").

(** [percent_decode]: [i + 2 < s.size()] means two more characters follow. *)
Fixpoint percent_decode (s : bytes) : bytes :=
  match s with
  | [] => []
  | c :: s' =>
      match s' with
      | h :: l :: rest =>
          if bool_decide (c = ch "%") && (0 <=? hex_val h)%Z && (0 <=? hex_val l)%Z
          then zb (hex_val h * 16 + hex_val l) :: percent_decode rest
          else c :: percent_decode s'
      | _ => c :: percent_decode s'
      end
  end.

Definition plus_to_space (c : byte) : byte := if bool_decide (c = ch "+") then ch " " else c.

Fixpoint percent_decode_query (s : bytes) : bytes :=
  match s with
  | [] => []
  | c :: s' =>
      match s' with
      | h :: l :: rest =>
          if bool_decide (c = ch "%") && (0 <=? hex_val h)%Z && (0 <=? hex_val l)%Z
          then zb (hex_val h * 16 + hex_val l) :: percent_decode_query rest
          else plus_to_space c :: percent_decode_query s'
      | _ => plus_to_space c :: percent_decode_query s'
      end
  end.

Definition encode_char (encode_slash : bool) (c : byte) : bytes :=
  if unreserved c || (bool_decide (c = ch "/") && negb encode_slash) then [c]
  else ch "%" :: hex_pair (bs "0123456789ABCDEF") c.

Definition aws_uri_encode (s : bytes) (encode_slash : bool) : bytes :=
  flat_map (encode_char encode_slash) s.

(** What one character is encoded to: itself when it is no escape character, or
    an escape that denotes it. *)
Definition encodes (enc : bytes) (c : byte) : bool :=
  match enc with
  | [x] => bool_decide (x = c) && negb (bool_decide (c = ch "%")) && negb (bool_decide (c = ch "+"))
  | [p; h; l] =>
      bool_decide (p = ch "%") && (0 <=? hex_val h)%Z && (0 <=? hex_val l)%Z
      && bool_decide (zb (hex_val h * 16 + hex_val l) = c)
  | _ => false
  end.

Lemma encode_char_encodes slash : forall c, encodes (encode_char slash c) c = true.
Proof. destruct slash; all_bytes. Qed.

Lemma encode_char_cases slash c :
  (encode_char slash c = [c] /\ c <> ch "%" /\ c <> ch "+") \/
  exists h l, encode_char slash c = [ch "%"; h; l] /\
    (0 <=? hex_val h)%Z = true /\ (0 <=? hex_val l)%Z = true /\ zb (hex_val h * 16 + hex_val l) = c.
Proof.
  pose proof (encode_char_encodes slash c) as H. unfold encodes in H.
  destruct (encode_char slash c) as [|x [|h [|l [|]]]]; try done; bool_prop; subst.
  - by left.
  - right. by eexists h, l.
Qed.

Lemma percent_decode_plain c s : c <> ch "%" -> percent_decode (c :: s) = c :: percent_decode s.
Proof. intros Hc. destruct s as [|h [|l s]]; cbn [percent_decode]; rewrite ?bool_decide_false by done; done. Qed.

Lemma percent_decode_query_plain c s :
  c <> ch "%" -> c <> ch "+" -> percent_decode_query (c :: s) = c :: percent_decode_query s.
Proof.
  intros Hc Hp. unfold percent_decode_query; fold percent_decode_query. unfold plus_to_space.
  destruct s as [|h [|l s]]; rewrite ?bool_decide_false by done; done.
Qed.

(** (roundtrip) Decoding an encoded path gives the path back, whether or not
    slashes were escaped. *)
Lemma decode_encode_uri (s : bytes) slash : percent_decode (aws_uri_encode s slash) = s.
Proof.
  induction s as [|c s IH]; [done|].
  change (percent_decode (encode_char slash c ++ aws_uri_encode s slash) = c :: s).
  destruct (encode_char_cases slash c) as [(E & H1 & _)|(h & l & E & Hh & Hl & Hz)]; rewrite E; cbn [app].
  - by rewrite percent_decode_plain, IH.
  - cbn [percent_decode]. rewrite Hh, Hl, bool_decide_true by done. cbn [andb]. by rewrite Hz, IH.
Qed.

Lemma decode_query_encode_uri (s : bytes) slash : percent_decode_query (aws_uri_encode s slash) = s.
Proof.
  induction s as [|c s IH]; [done|].
  change (percent_decode_query (encode_char slash c ++ aws_uri_encode s slash) = c :: s).
  destruct (encode_char_cases slash c) as [(E & H1 & H2)|(h & l & E & Hh & Hl & Hz)]; rewrite E; cbn [app].
  - by rewrite percent_decode_query_plain, IH.
  - cbn [percent_decode_query]. rewrite Hh, Hl, bool_decide_true by done. cbn [andb]. by rewrite Hz, IH.
Qed.

End Uri.

(** * Round trip of the text encodings *)

(** The text encodings are lossless: hexadecimal text, percent-encoded paths and
    percent-encoded query values decode to the bytes they were made from, whichever way
    '/' is treated. *)
Theorem text_encodings_roundtrip (s : bytes) (slash : bool) :
  Hex.from_hex (Hex.to_hex s) = s /\ Uri.percent_decode (Uri.aws_uri_encode s slash) = s /\
  Uri.percent_decode_query (Uri.aws_uri_encode s slash) = s.
Proof. split_and!; [apply Hex.from_hex_to_hex|apply Uri.decode_encode_uri|apply Uri.decode_query_encode_uri]. Qed.
