(* ===== verification/Checksum.v ===== *)
(** core/util/checksum ([src/src/core/util/checksum.cc], [checksum.h]): table-driven
    reflected CRCs and strict base64. *)

From S2P Require Import Prelude Bytes Util.
From Stdlib Require Import ZArith Lia.
From stdpp Require Import base list strings.

Module Crc.

(** One round of the table generator: [(c & 1) ? kPoly ^ (c >> 1) : c >> 1]. *)
Definition crc_step (kPoly c : Z) : Z :=
  if Z.testbit c 0 then Z.lxor kPoly (Z.shiftr c 1) else Z.shiftr c 1.

Definition crc_steps (kPoly : Z) (n : nat) (c : Z) : Z := Nat.iter n (crc_step kPoly) c.

(** The 256-entry table, computed once per polynomial. *)
Definition crc_table (kPoly : Z) : list Z := (λ i, crc_steps kPoly 8 (Z.of_nat i)) <$> seq 0 256.

(** [~crc] at width [w]. *)
Definition bit_not (w crc : Z) : Z := Z.lxor crc (Z.ones w).

Definition crc_byte (table : list Z) (crc : Z) (b : byte) : Z :=
  Z.lxor (nth (Z.to_nat (Z.land (Z.lxor crc (bz b)) 255)) table 0%Z) (Z.shiftr crc 8).

Definition table_crc (w kPoly crc : Z) (data : bytes) : Z :=
  bit_not w (foldl (crc_byte (crc_table kPoly)) (bit_not w crc) data).

Definition kCrc32c : Z := 0x82F63B78.
Definition kCrc32 : Z := 0xEDB88320.
Definition kCrc64nvme : Z := 0x9A6C9329AC4BC9B5.

Definition crc32c_update (crc : Z) (data : bytes) : Z := table_crc 32 kCrc32c crc data.
Definition crc32_update (crc : Z) (data : bytes) : Z := table_crc 32 kCrc32 crc data.
(** [table_crc64]: the 64-bit twin. *)
Definition crc64nvme_update (crc : Z) (data : bytes) : Z := table_crc 64 kCrc64nvme crc data.

Definition crc32c_of (data : bytes) : Z := crc32c_update 0 data.
Definition crc32_of (data : bytes) : Z := crc32_update 0 data.
Definition crc64nvme_of (data : bytes) : Z := crc64nvme_update 0 data.

(** The catalogue check values. *)
Example crc32c_check : crc32c_of (bs "123456789") = 0xE3069283%Z.
Proof. vm_compute. reflexivity. Qed.
Example crc32_check : crc32_of (bs "123456789") = 0xCBF43926%Z.
Proof. vm_compute. reflexivity. Qed.
Example crc64nvme_check : crc64nvme_of (bs "123456789") = 0xAE8B14860A799888%Z.
Proof. vm_compute. reflexivity. Qed.

(** ** Reference definition: one bit at a time, no table *)
Definition crc_byte_ref (kPoly crc : Z) (b : byte) : Z := crc_steps kPoly 8 (Z.lxor crc (bz b)).
Definition crc_ref (w kPoly crc : Z) (data : bytes) : Z :=
  bit_not w (foldl (crc_byte_ref kPoly) (bit_not w crc) data).

Lemma bit_not_involutive w crc : bit_not w (bit_not w crc) = crc.
Proof. unfold bit_not. by rewrite Z.lxor_assoc, Z.lxor_nilpotent, Z.lxor_0_r. Qed.

Lemma table_crc_app w kPoly crc a b :
  table_crc w kPoly crc (a ++ b) = table_crc w kPoly (table_crc w kPoly crc a) b.
Proof. unfold table_crc. by rewrite bit_not_involutive, foldl_app. Qed.

(** The step is linear over xor. *)
(** CRCs stay within their width. *)
Lemma lxor_range w a b : (0 <= w)%Z -> (0 <= a < 2 ^ w)%Z -> (0 <= b < 2 ^ w)%Z -> (0 <= Z.lxor a b < 2 ^ w)%Z.
Proof.
  intros Hw Ha Hb. assert (0 <= Z.lxor a b)%Z as Hn by (apply Z.lxor_nonneg; lia). split; [done|].
  apply Z.bounded_iff_bits_nonneg; [done|done|]. intros l Hl. rewrite Z.lxor_spec.
  rewrite (proj1 (Z.bounded_iff_bits_nonneg w a Hw (proj1 Ha)) (proj2 Ha) l Hl).
  by rewrite (proj1 (Z.bounded_iff_bits_nonneg w b Hw (proj1 Hb)) (proj2 Hb) l Hl).
Qed.

Lemma shiftr_range w n a : (0 <= n)%Z -> (0 <= a < 2 ^ w)%Z -> (0 <= Z.shiftr a n < 2 ^ w)%Z.
Proof.
  intros Hn Ha. rewrite Z.shiftr_div_pow2 by done. split; [apply Z.div_pos; lia|].
  pose proof (Z.div_le_upper_bound a (2 ^ n) a ltac:(lia) ltac:(nia)). lia.
Qed.

Lemma crc_steps_range w k n c :
  (0 <= w)%Z -> (0 <= k < 2 ^ w)%Z -> (0 <= c < 2 ^ w)%Z -> (0 <= crc_steps k n c < 2 ^ w)%Z.
Proof.
  intros Hw Hk Hc. induction n as [|n IH]; [done|].
  change (crc_steps k (S n) c) with (crc_step k (crc_steps k n c)). unfold crc_step.
  destruct (Z.testbit _ 0); [apply lxor_range; [done|done|]|]; apply shiftr_range; lia.
Qed.

Lemma crc_table_range w k i :
  (8 <= w)%Z -> (0 <= k < 2 ^ w)%Z -> (0 <= nth i (crc_table k) 0 < 2 ^ w)%Z.
Proof.
  intros Hw Hk. destruct (decide (i < 256)) as [Hi|Hi].
  - unfold crc_table. rewrite (nth_indep _ _ (crc_steps k 8 (Z.of_nat 0))) by (rewrite length_fmap, length_seq; lia).
    rewrite (map_nth (λ j, crc_steps k 8 (Z.of_nat j))), seq_nth by lia. apply crc_steps_range; [lia|done|].
    pose proof (Z.pow_le_mono_r 2 8 w ltac:(lia) ltac:(lia)). cbn in *. lia.
  - rewrite nth_overflow by (unfold crc_table; rewrite length_fmap, length_seq; lia). lia.
Qed.

Lemma table_crc_range w k crc data :
  (8 <= w)%Z -> (0 <= k < 2 ^ w)%Z -> (0 <= crc < 2 ^ w)%Z -> (0 <= table_crc w k crc data < 2 ^ w)%Z.
Proof.
  intros Hw Hk Hc. assert (forall x, 0 <= x < 2 ^ w -> 0 <= bit_not w x < 2 ^ w)%Z as Hnot.
  { intros x Hx. apply lxor_range; [lia|done|]. rewrite Z.ones_equiv. lia. }
  unfold table_crc. apply Hnot. generalize (Hnot crc Hc). generalize (bit_not w crc).
  induction data as [|b data IH]; intros x Hx; cbn [foldl]; [done|]. apply IH. unfold crc_byte.
  apply lxor_range; [lia|by apply crc_table_range|apply shiftr_range; lia].
Qed.

Lemma crc_step_lxor kPoly x y :
  crc_step kPoly (Z.lxor x y) = Z.lxor (crc_step kPoly x) (crc_step kPoly y).
Proof.
  unfold crc_step. rewrite Z.lxor_spec, Z.shiftr_lxor.
  destruct (Z.testbit x 0), (Z.testbit y 0); cbn [xorb];
    apply Z.bits_inj'; intros n Hn; rewrite ?Z.lxor_spec;
    destruct (Z.testbit kPoly n), (Z.testbit (Z.shiftr x 1) n), (Z.testbit (Z.shiftr y 1) n); done.
Qed.

Lemma crc_steps_lxor kPoly n x y :
  crc_steps kPoly n (Z.lxor x y) = Z.lxor (crc_steps kPoly n x) (crc_steps kPoly n y).
Proof.
  unfold crc_steps. induction n as [|n IH]; [done|].
  by rewrite !Nat.iter_succ, IH, crc_step_lxor.
Qed.

(** Shifting out low zero bits involves no feedback. *)
Lemma crc_steps_shiftl kPoly n z : crc_steps kPoly n (Z.shiftl z (Z.of_nat n)) = z.
Proof.
  revert z. induction n as [|n IH]; intros z; [apply Z.shiftl_0_r|].
  unfold crc_steps in *. rewrite Nat.iter_succ_r.
  assert (crc_step kPoly (Z.shiftl z (Z.of_nat (S n))) = Z.shiftl z (Z.of_nat n)) as ->; [|apply IH].
  unfold crc_step. rewrite Z.shiftl_spec_low by lia.
  rewrite Z.shiftr_shiftl_l by lia. f_equal. lia.
Qed.

Lemma split_low_byte c : c = Z.lxor (Z.land c 255) (Z.shiftl (Z.shiftr c 8) 8).
Proof.
  apply Z.bits_inj'. intros n Hn. rewrite Z.lxor_spec, Z.land_spec.
  change 255%Z with (Z.ones 8). rewrite Z.testbit_ones by lia.
  destruct (Z.lt_ge_cases n 8).
  - rewrite Z.shiftl_spec_low by done. assert ((0 <=? n) && (n <? 8) = true)%Z as -> by lia.
    by rewrite andb_true_r, xorb_false_r.
  - rewrite Z.shiftl_spec by done. rewrite Z.shiftr_spec by lia.
    replace (n - 8 + 8)%Z with n by lia.
    assert ((0 <=? n) && (n <? 8) = false)%Z as -> by lia. by rewrite andb_false_r, xorb_false_l.
Qed.

Lemma shiftr_lxor_byte crc b : Z.shiftr (Z.lxor crc (bz b)) 8 = Z.shiftr crc 8.
Proof.
  rewrite Z.shiftr_lxor. assert (Z.shiftr (bz b) 8 = 0%Z) as ->; [|apply Z.lxor_0_r].
  rewrite Z.shiftr_div_pow2 by lia. apply Z.div_small. apply bz_range.
Qed.

Lemma crc_table_lookup kPoly i :
  (0 <= i < 256)%Z -> nth (Z.to_nat i) (crc_table kPoly) 0%Z = crc_steps kPoly 8 i.
Proof.
  intros Hi. assert (crc_table kPoly !! Z.to_nat i = Some (crc_steps kPoly 8 i)) as Hl.
  { unfold crc_table. rewrite list_lookup_fmap, lookup_seq_lt by lia. cbn. by rewrite Z2Nat.id by lia. }
  by apply nth_lookup_Some with (d := 0%Z) in Hl.
Qed.

(** Each table step equals eight bit steps. *)
Lemma crc_byte_correct kPoly crc b : crc_byte (crc_table kPoly) crc b = crc_byte_ref kPoly crc b.
Proof.
  unfold crc_byte, crc_byte_ref.
  rewrite crc_table_lookup; cycle 1.
  { change 255%Z with (2 ^ 8 - 1)%Z. rewrite land_ones_mod by lia. by apply Z.mod_pos_bound. }
  rewrite (split_low_byte (Z.lxor crc (bz b))) at 2.
  rewrite crc_steps_lxor, (crc_steps_shiftl kPoly 8), shiftr_lxor_byte. done.
Qed.

Lemma table_crc_ref w kPoly crc data : table_crc w kPoly crc data = crc_ref w kPoly crc data.
Proof.
  unfold table_crc, crc_ref. f_equal. generalize (bit_not w crc) as c.
  induction data as [|b data IH]; intros c; cbn [foldl]; [done|]. by rewrite crc_byte_correct.
Qed.

End Crc.

Module Base64.

Definition kB64 : bytes := bs "ABCDEFGHIJKLMNOPQRSTUVWXYZabcdefghijklmnopqrstuvwxyz0123456789+/".

(** [kB64[(v >> sh) & 63]] *)
Definition b64_at (v sh : Z) : byte := digit_at kB64 (Z.land (Z.shiftr v sh) 63).

Fixpoint base64_encode (inp : bytes) : bytes :=
  match inp with
  | a :: b :: c :: rest =>
      let v := Z.lor (Z.lor (Z.shiftl (bz a) 16) (Z.shiftl (bz b) 8)) (bz c) in
      b64_at v 18 :: b64_at v 12 :: b64_at v 6 :: b64_at v 0 :: base64_encode rest
  | [a] =>
      let v := Z.shiftl (bz a) 16 in
      [b64_at v 18; b64_at v 12] ++ bs "=="
  | [a; b] =>
      let v := Z.lor (Z.shiftl (bz a) 16) (Z.shiftl (bz b) 8) in
      [b64_at v 18; b64_at v 12; b64_at v 6] ++ bs "="
  | [] => []
  end.

(** The [val] lambda of [base64_decode]. *)
Definition b64_val (c : byte) : Z :=
  if is_upper c then (bz c - bz (ch "A"))%Z
  else if is_lower c then (bz c - bz (ch "a") + 26)%Z
  else if is_digit c then (bz c - bz (ch "0") + 52)%Z
  else if bool_decide (c = ch "+") then 62%Z
  else if bool_decide (c = ch "/") then 63%Z
  else (-1)%Z.

(** Body of the inner loop at symbol [j]; [last] is [i + 4 == in.size()]. State: the
    padding count and the values so far (most recent first). *)
Definition b64_symbol (last : bool) (j : nat) (c : byte) (st : Z * list Z) : option (Z * list Z) :=
  let '(pad, v) := st in
  if bool_decide (c = ch "=") && last && (2 <=? j)%nat then Some (pad + 1, 0 :: v)%Z
  else if (b64_val c <? 0)%Z || (0 <? pad)%Z then None
  else Some (pad, b64_val c :: v).

(** One group of four symbols: the bytes it pushes. *)
Definition b64_group (last : bool) (c0 c1 c2 c3 : byte) : option bytes :=
  st ← b64_symbol last 0 c0 (0%Z, []);
  st ← b64_symbol last 1 c1 st;
  st ← b64_symbol last 2 c2 st;
  st ← b64_symbol last 3 c3 st;
  match st with
  | (pad, [v3; v2; v1; v0]) =>
      let x := Z.lor (Z.lor (Z.lor (Z.shiftl v0 18) (Z.shiftl v1 12)) (Z.shiftl v2 6)) v3 in
      Some ([zb (Z.land (Z.shiftr x 16) 255)]
            ++ (if (pad <? 2)%Z then [zb (Z.land (Z.shiftr x 8) 255)] else [])
            ++ (if (pad <? 1)%Z then [zb (Z.land x 255)] else []))
  | _ => None
  end.

Fixpoint b64_loop (inp : bytes) : option bytes :=
  match inp with
  | c0 :: c1 :: c2 :: c3 :: rest =>
      out ← b64_group (bool_decide (rest = [])) c0 c1 c2 c3;
      app out <$> b64_loop rest
  | _ => Some []
  end.

Definition base64_decode (inp : bytes) : option bytes :=
  if bool_decide (inp = []) || negb (length inp mod 4 =? 0)%nat then None else b64_loop inp.

(** ** Encode then decode *)
Lemma b64_symbol_ok i :
  (0 <= i < 64)%Z -> b64_val (digit_at kB64 i) = i /\ digit_at kB64 i <> ch "=".
Proof.
  intros Hi.
  assert (forallb (λ n, let c := digit_at kB64 (Z.of_nat n) in
            (b64_val c =? Z.of_nat n)%Z && negb (bool_decide (c = ch "="))) (seq 0 64) = true) as H
    by (vm_compute; reflexivity).
  rewrite forallb_forall in H. specialize (H (Z.to_nat i)). cbv zeta in H.
  rewrite Z2Nat.id in H by lia. rewrite andb_true_iff, Z.eqb_eq in H.
  rewrite in_seq in H. destruct H as [H1 H2]; [lia|]. bool_prop. done.
Qed.

Lemma b64_at_symbol v sh last j pad vs :
  (0 <= v)%Z -> (0 <= sh)%Z -> pad = 0%Z ->
  b64_symbol last j (b64_at v sh) (pad, vs) = Some (0%Z, Z.shiftr v sh mod 64 :: vs)%Z.
Proof.
  intros Hv Hsh ->. unfold b64_symbol, b64_at.
  change 63%Z with (2 ^ 6 - 1)%Z. rewrite land_ones_mod by lia. change (2 ^ 6)%Z with 64%Z.
  destruct (b64_symbol_ok (Z.shiftr v sh mod 64)) as [E1 E2]; [apply Z.mod_pos_bound; lia|].
  rewrite bool_decide_false by done. cbn [andb]. rewrite E1.
  assert ((Z.shiftr v sh mod 64 <? 0)%Z = false) as ->; [|done].
  apply Z.ltb_ge, Z.mod_pos_bound. lia.
Qed.

Lemma b64_pad_symbol j pad vs :
  2 <= j -> b64_symbol true j (ch "=") (pad, vs) = Some (pad + 1, 0 :: vs)%Z.
Proof. intros. unfold b64_symbol. rewrite bool_decide_true by done. by destruct (Nat.leb_spec 2 j); [|lia]. Qed.

(** The 24-bit word is split into four 6-bit values and reassembled. *)
Lemma b64_word v :
  (0 <= v < 2 ^ 24)%Z ->
  Z.lor (Z.lor (Z.lor (Z.shiftl (Z.shiftr v 18 mod 64) 18) (Z.shiftl (Z.shiftr v 12 mod 64) 12))
           (Z.shiftl (Z.shiftr v 6 mod 64) 6)) (Z.shiftr v 0 mod 64) = v.
Proof.
  intros Hv. rewrite !Z.shiftr_div_pow2 by lia.
  rewrite <- !Z.lor_assoc.
  assert (forall a, 0 <= a mod 64 < 64)%Z as Hm by (intros; apply Z.mod_pos_bound; lia).
  rewrite (lor_shiftl_add (v / 2 ^ 6 mod 64) _ 6) by (try apply Hm; lia).
  pose proof (Hm (v / 2 ^ 6)%Z). pose proof (Hm (v / 2 ^ 0)%Z). pose proof (Hm (v / 2 ^ 12)%Z).
  rewrite (lor_shiftl_add _ _ 12) by (change (2 ^ 12)%Z with 4096%Z; change (2 ^ 6)%Z with 64%Z in *; lia).
  rewrite (lor_shiftl_add _ _ 18) by
    (change (2 ^ 18)%Z with 262144%Z; change (2 ^ 12)%Z with 4096%Z in *; change (2 ^ 6)%Z with 64%Z in *; lia).
  change (2 ^ 18)%Z with 262144%Z; change (2 ^ 12)%Z with 4096%Z; change (2 ^ 6)%Z with 64%Z;
    change (2 ^ 0)%Z with 1%Z; change (2 ^ 24)%Z with 16777216%Z in Hv.
  Z.div_mod_to_equations. lia.
Qed.

(** The word holds the three bytes. *)
Lemma b64_bytes a b c :
  let v := Z.lor (Z.lor (Z.shiftl (bz a) 16) (Z.shiftl (bz b) 8)) (bz c) in
  (0 <= v < 2 ^ 24)%Z /\ zb (Z.land (Z.shiftr v 16) 255) = a /\
  zb (Z.land (Z.shiftr v 8) 255) = b /\ zb (Z.land v 255) = c.
Proof.
  cbv zeta. byte_ranges.
  rewrite <- Z.lor_assoc.
  rewrite (lor_shiftl_add (bz b) _ 8) by (change (2 ^ 8)%Z with 256%Z; lia).
  rewrite (lor_shiftl_add (bz a) _ 16) by (change (2 ^ 8)%Z with 256%Z; change (2 ^ 16)%Z with 65536%Z; lia).
  change 255%Z with (2 ^ 8 - 1)%Z. rewrite !land_ones_mod by lia. rewrite !Z.shiftr_div_pow2 by lia.
  change (2 ^ 8)%Z with 256%Z; change (2 ^ 16)%Z with 65536%Z; change (2 ^ 24)%Z with 16777216%Z.
  split; [lia|].
  split; [|split]; match goal with |- zb ?x = ?y => replace x with (bz y); [apply zb_bz|] end;
    Z.div_mod_to_equations; lia.
Qed.

Lemma b64_group_full last a b c :
  let v := Z.lor (Z.lor (Z.shiftl (bz a) 16) (Z.shiftl (bz b) 8)) (bz c) in
  b64_group last (b64_at v 18) (b64_at v 12) (b64_at v 6) (b64_at v 0) = Some [a; b; c].
Proof.
  intros v. destruct (b64_bytes a b c) as (Hv & Ha & Hb & Hc). fold v in Hv, Ha, Hb, Hc.
  unfold b64_group. rewrite !b64_at_symbol by (done || lia). cbn [mbind option_bind].
  rewrite b64_at_symbol by (done || lia). cbn [mbind option_bind].
  rewrite b64_at_symbol by (done || lia). cbn [mbind option_bind].
  rewrite b64_at_symbol by (done || lia). cbn [mbind option_bind].
  rewrite b64_word by done. by rewrite Ha, Hb, Hc.
Qed.

Lemma b64_group_two a b :
  let v := Z.lor (Z.shiftl (bz a) 16) (Z.shiftl (bz b) 8) in
  b64_group true (b64_at v 18) (b64_at v 12) (b64_at v 6) (ch "=") = Some [a; b].
Proof.
  pose proof (b64_bytes a b Byte.x00) as (Hv & Ha & Hb & Hc). cbv zeta in *.
  change (bz Byte.x00) with 0%Z in *. rewrite Z.lor_0_r in *.
  set (v := Z.lor _ _) in *. unfold b64_group.
  rewrite b64_at_symbol by (done || lia). cbn [mbind option_bind].
  rewrite b64_at_symbol by (done || lia). cbn [mbind option_bind].
  rewrite b64_at_symbol by (done || lia). cbn [mbind option_bind].
  rewrite b64_pad_symbol by lia. cbn [mbind option_bind].
  assert (Z.shiftr v 0 mod 64 = 0)%Z as H0.
  { subst v. byte_ranges.
    rewrite (lor_shiftl_add (bz a) _ 16); [|lia|].
    - rewrite Z.shiftl_mul_pow2, Z.shiftr_0_r by lia. rewrite (Z.mul_comm (bz b)).
      change (2 ^ 16)%Z with 65536%Z; change (2 ^ 8)%Z with 256%Z. Z.div_mod_to_equations; lia.
    - rewrite Z.shiftl_mul_pow2 by lia. change (2 ^ 16)%Z with 65536%Z; change (2 ^ 8)%Z with 256%Z. lia. }
  change (0 + 1 <? 2)%Z with true. change (0 + 1 <? 1)%Z with false. cbv iota.
  rewrite <- H0. rewrite b64_word by done. by rewrite Ha, Hb.
Qed.

Lemma b64_group_one a :
  let v := Z.shiftl (bz a) 16 in
  b64_group true (b64_at v 18) (b64_at v 12) (ch "=") (ch "=") = Some [a].
Proof. revert a. all_bytes. Qed.

Lemma base64_encode_nil s : base64_encode s = [] -> s = [].
Proof. by destruct s as [|a [|b [|c s]]]. Qed.

Lemma b64_loop_encode s : b64_loop (base64_encode s) = Some s.
Proof.
  remember (length s) as n eqn:Hn. revert s Hn.
  induction n as [n IH] using lt_wf_ind. intros s ->.
  destruct s as [|a [|b [|c s]]]; [done| | |].
  - cbn [base64_encode app b64_loop]. change (bs "==") with [ch "="; ch "="]. cbn [app b64_loop].
    rewrite bool_decide_true by done. pose proof (b64_group_one a) as H. cbv zeta in *. by rewrite H.
  - cbn [base64_encode app b64_loop]. change (bs "=") with [ch "="]. cbn [app b64_loop].
    rewrite bool_decide_true by done. pose proof (b64_group_two a b) as H. cbv zeta in *. by rewrite H.
  - cbn [base64_encode b64_loop].
    pose proof (b64_group_full (bool_decide (base64_encode s = [])) a b c) as H. cbv zeta in *. rewrite H.
    cbn [mbind option_bind]. by rewrite (IH (length s)) by (cbn; lia || done).
Qed.

Lemma length_base64_encode s : exists k, length (base64_encode s) = 4 * k.
Proof.
  remember (length s) as n eqn:Hn. revert s Hn.
  induction n as [n IH] using lt_wf_ind. intros s ->.
  destruct s as [|a [|b [|c s]]]; [by exists 0|by exists 1|by exists 1|].
  destruct (IH (length s)) with (s := s) as [k Hk]; [cbn; lia|done|].
  exists (S k). cbn [base64_encode length]. lia.
Qed.

Lemma base64_roundtrip s : s <> [] -> base64_decode (base64_encode s) = Some s.
Proof.
  intros Hs. unfold base64_decode.
  rewrite bool_decide_false by (intros E; by apply base64_encode_nil in E).
  destruct (length_base64_encode s) as [k ->].
  rewrite Nat.mul_comm, Nat.Div0.mod_mul. cbn [orb negb Nat.eqb]. apply b64_loop_encode.
Qed.

End Base64.

(** * Theorems *)

(** C40: The table-driven CRC computes the CRC: for every width, polynomial, start value
    and data, the lookup-table loop equals the bit-by-bit definition, and running it in
    pieces equals running it on the whole, so streamed updates are exact. *)
Theorem crc_table_correct (w kPoly crc : Z) (a b : bytes) :
  Crc.table_crc w kPoly crc a = Crc.crc_ref w kPoly crc a /\
  Crc.table_crc w kPoly crc (a ++ b) = Crc.table_crc w kPoly (Crc.table_crc w kPoly crc a) b.
Proof. split; [apply Crc.table_crc_ref|apply Crc.table_crc_app]. Qed.

(** Base64 is lossless on non-empty data (the decoder rejects the empty string). *)
Theorem base64_lossless (s : bytes) (Hs : s <> []) : Base64.base64_decode (Base64.base64_encode s) = Some s.
Proof. by apply Base64.base64_roundtrip. Qed.
Lemma base64_lossless_witness : Base64.base64_decode (Base64.base64_encode (bs "light")) = Some (bs "light").
Proof. apply base64_lossless. discriminate. Defined.
