(* ===== verification/Backend.v ===== *)
(** The L2/L3 boundary: error codes ([src/src/s3/errors.h], [errors.cc]) and the data
    types of the storage interface ([src/src/storage/backend.h]). *)

From S2P Require Import Prelude Bytes.
From Stdlib Require Import ZArith Lia.
From stdpp Require Import base list gmap strings.

(** * Error codes

    [LIGHTS3_S3_ERROR_CODES]. An [S3Error] is represented by its code: the message,
    the echoed resource and the extra headers are presentation only. *)
Inductive S3ErrorCode : Set :=
| AccessDenied
| AuthorizationHeaderMalformed
| BadDigest
| BucketAlreadyExists
| BucketAlreadyOwnedByYou
| BucketNotEmpty
| EntityTooLarge
| EntityTooSmall
| ExpiredToken
| InternalError
| InvalidAccessKeyId
| InvalidArgument
| InvalidBucketName
| InvalidDigest
| InvalidLocationConstraint
| InvalidObjectState
| InvalidPart
| InvalidPartNumber
| InvalidPartOrder
| InvalidRange
| InvalidRequest
| InvalidToken
| KeyTooLongError
| MalformedXML
| MetadataTooLarge
| MethodNotAllowed
| MissingContentLength
| NoSuchBucket
| NoSuchCORSConfiguration
| NoSuchKey
| NoSuchLifecycleConfiguration
| NoSuchQuotaConfiguration
| NoSuchTenant
| NoSuchWebsiteConfiguration
| NoSuchUpload
| NotImplemented
| PermanentRedirect
| PreconditionFailed
| QuotaExceeded
| RequestTimeout
| RequestTimeTooSkewed
| SignatureDoesNotMatch
| SlowDown
| TenantAlreadyExists
| TenantNotEmpty
| ScrubInProgress
| JobInProgress
| TooManyBuckets
| XAmzContentSHA256Mismatch.

#[global] Instance S3ErrorCode_eq_dec : EqDecision S3ErrorCode.
Proof. solve_decision. Defined.

(** The table [kEntries], in enum order. *)
Definition kEntries : list (S3ErrorCode * Z * string) :=
  [ (AccessDenied, 403%Z, "AccessDenied");
    (AuthorizationHeaderMalformed, 400%Z, "AuthorizationHeaderMalformed");
    (BadDigest, 400%Z, "BadDigest");
    (BucketAlreadyExists, 409%Z, "BucketAlreadyExists");
    (BucketAlreadyOwnedByYou, 409%Z, "BucketAlreadyOwnedByYou");
    (BucketNotEmpty, 409%Z, "BucketNotEmpty");
    (EntityTooLarge, 400%Z, "EntityTooLarge");
    (EntityTooSmall, 400%Z, "EntityTooSmall");
    (ExpiredToken, 400%Z, "ExpiredToken");
    (InternalError, 500%Z, "InternalError");
    (InvalidAccessKeyId, 403%Z, "InvalidAccessKeyId");
    (InvalidArgument, 400%Z, "InvalidArgument");
    (InvalidBucketName, 400%Z, "InvalidBucketName");
    (InvalidDigest, 400%Z, "InvalidDigest");
    (InvalidLocationConstraint, 400%Z, "InvalidLocationConstraint");
    (InvalidObjectState, 403%Z, "InvalidObjectState");
    (InvalidPart, 400%Z, "InvalidPart");
    (InvalidPartNumber, 416%Z, "InvalidPartNumber");
    (InvalidPartOrder, 400%Z, "InvalidPartOrder");
    (InvalidRange, 416%Z, "InvalidRange");
    (InvalidRequest, 400%Z, "InvalidRequest");
    (InvalidToken, 400%Z, "InvalidToken");
    (KeyTooLongError, 400%Z, "KeyTooLongError");
    (MalformedXML, 400%Z, "MalformedXML");
    (MetadataTooLarge, 400%Z, "MetadataTooLarge");
    (MethodNotAllowed, 405%Z, "MethodNotAllowed");
    (MissingContentLength, 411%Z, "MissingContentLength");
    (NoSuchBucket, 404%Z, "NoSuchBucket");
    (NoSuchCORSConfiguration, 404%Z, "NoSuchCORSConfiguration");
    (NoSuchKey, 404%Z, "NoSuchKey");
    (NoSuchLifecycleConfiguration, 404%Z, "NoSuchLifecycleConfiguration");
    (NoSuchQuotaConfiguration, 404%Z, "NoSuchQuotaConfiguration");
    (NoSuchTenant, 404%Z, "NoSuchTenant");
    (NoSuchWebsiteConfiguration, 404%Z, "NoSuchWebsiteConfiguration");
    (NoSuchUpload, 404%Z, "NoSuchUpload");
    (NotImplemented, 501%Z, "NotImplemented");
    (PermanentRedirect, 301%Z, "PermanentRedirect");
    (PreconditionFailed, 412%Z, "PreconditionFailed");
    (QuotaExceeded, 403%Z, "QuotaExceeded");
    (RequestTimeout, 400%Z, "RequestTimeout");
    (RequestTimeTooSkewed, 403%Z, "RequestTimeTooSkewed");
    (SignatureDoesNotMatch, 403%Z, "SignatureDoesNotMatch");
    (SlowDown, 503%Z, "SlowDown");
    (TenantAlreadyExists, 409%Z, "TenantAlreadyExists");
    (TenantNotEmpty, 409%Z, "TenantNotEmpty");
    (ScrubInProgress, 409%Z, "ScrubInProgress");
    (JobInProgress, 409%Z, "JobInProgress");
    (TooManyBuckets, 400%Z, "TooManyBuckets");
    (XAmzContentSHA256Mismatch, 400%Z, "XAmzContentSHA256Mismatch") ].

Definition entry (c : S3ErrorCode) : option (S3ErrorCode * Z * string) :=
  List.find (λ e, bool_decide (e.1.1 = c)) kEntries.

Definition http_status (c : S3ErrorCode) : Z := match entry c with Some e => e.1.2 | None => 0%Z end.
Definition wire_code (c : S3ErrorCode) : bytes := match entry c with Some e => bs e.2 | None => [] end.

(** First table entry with that wire code. *)
Definition code_from_wire (wire : bytes) : option S3ErrorCode :=
  (λ e, e.1.1) <$> List.find (λ e, bool_decide (wire = bs e.2)) kEntries.

(** The wire name of every code is looked up to that code, and every code has a
    status in the HTTP range. *)
Lemma code_from_wire_wire_code : forall c, code_from_wire (wire_code c) = Some c.
Proof. intros []; vm_compute; reflexivity. Qed.

Lemma http_status_range : forall c, (300 <= http_status c < 600)%Z.
Proof. intros []; vm_compute; split; discriminate || reflexivity. Qed.

(** Operations that may throw an [S3Error]. *)
Abbreviation result := (res S3ErrorCode).

(** * Data of the storage interface *)

(** [std::chrono::system_clock::time_point] in nanoseconds. *)
Abbreviation time_point := Z.

Record ByteRange := mkByteRange { range_first : option Z; range_last : option Z }.

Record ObjectMeta := mkObjectMeta {
  okey : bytes;
  osize : Z;
  etag : bytes;
  content_type : bytes;
  last_modified : time_point;
  user_meta : gmap bytes bytes;
  cache_control : bytes;
  content_disposition : bytes;
  content_encoding : bytes;
  content_language : bytes;
  expires : bytes;
  website_redirect : bytes;
  checksum_algorithm : bytes;
  checksum_value : bytes;
  checksum_type : bytes;
  checksum_pending : option bytes;
  part_sizes : list Z;
  tagging : bytes
}.

(** Default member initialisers. *)
Definition default_meta : ObjectMeta := {|
  okey := []; osize := 0; etag := []; content_type := bs "binary/octet-stream";
  last_modified := 0; user_meta := ∅; cache_control := []; content_disposition := [];
  content_encoding := []; content_language := []; expires := []; website_redirect := [];
  checksum_algorithm := []; checksum_value := []; checksum_type := [];
  checksum_pending := None; part_sizes := []; tagging := [] |}.

(** Member assignments [m.f = v]. *)
Definition set_okey (v : bytes) (m : ObjectMeta) : ObjectMeta :=
  mkObjectMeta v (osize m) (etag m) (content_type m) (last_modified m) (user_meta m) (cache_control m) (content_disposition m) (content_encoding m) (content_language m) (expires m) (website_redirect m) (checksum_algorithm m) (checksum_value m) (checksum_type m) (checksum_pending m) (part_sizes m) (tagging m).
Definition set_osize (v : Z) (m : ObjectMeta) : ObjectMeta :=
  mkObjectMeta (okey m) v (etag m) (content_type m) (last_modified m) (user_meta m) (cache_control m) (content_disposition m) (content_encoding m) (content_language m) (expires m) (website_redirect m) (checksum_algorithm m) (checksum_value m) (checksum_type m) (checksum_pending m) (part_sizes m) (tagging m).
Definition set_etag (v : bytes) (m : ObjectMeta) : ObjectMeta :=
  mkObjectMeta (okey m) (osize m) v (content_type m) (last_modified m) (user_meta m) (cache_control m) (content_disposition m) (content_encoding m) (content_language m) (expires m) (website_redirect m) (checksum_algorithm m) (checksum_value m) (checksum_type m) (checksum_pending m) (part_sizes m) (tagging m).
Definition set_content_type (v : bytes) (m : ObjectMeta) : ObjectMeta :=
  mkObjectMeta (okey m) (osize m) (etag m) v (last_modified m) (user_meta m) (cache_control m) (content_disposition m) (content_encoding m) (content_language m) (expires m) (website_redirect m) (checksum_algorithm m) (checksum_value m) (checksum_type m) (checksum_pending m) (part_sizes m) (tagging m).
Definition set_last_modified (v : time_point) (m : ObjectMeta) : ObjectMeta :=
  mkObjectMeta (okey m) (osize m) (etag m) (content_type m) v (user_meta m) (cache_control m) (content_disposition m) (content_encoding m) (content_language m) (expires m) (website_redirect m) (checksum_algorithm m) (checksum_value m) (checksum_type m) (checksum_pending m) (part_sizes m) (tagging m).
Definition set_user_meta (v : gmap bytes bytes) (m : ObjectMeta) : ObjectMeta :=
  mkObjectMeta (okey m) (osize m) (etag m) (content_type m) (last_modified m) v (cache_control m) (content_disposition m) (content_encoding m) (content_language m) (expires m) (website_redirect m) (checksum_algorithm m) (checksum_value m) (checksum_type m) (checksum_pending m) (part_sizes m) (tagging m).
Definition set_cache_control (v : bytes) (m : ObjectMeta) : ObjectMeta :=
  mkObjectMeta (okey m) (osize m) (etag m) (content_type m) (last_modified m) (user_meta m) v (content_disposition m) (content_encoding m) (content_language m) (expires m) (website_redirect m) (checksum_algorithm m) (checksum_value m) (checksum_type m) (checksum_pending m) (part_sizes m) (tagging m).
Definition set_content_disposition (v : bytes) (m : ObjectMeta) : ObjectMeta :=
  mkObjectMeta (okey m) (osize m) (etag m) (content_type m) (last_modified m) (user_meta m) (cache_control m) v (content_encoding m) (content_language m) (expires m) (website_redirect m) (checksum_algorithm m) (checksum_value m) (checksum_type m) (checksum_pending m) (part_sizes m) (tagging m).
Definition set_content_encoding (v : bytes) (m : ObjectMeta) : ObjectMeta :=
  mkObjectMeta (okey m) (osize m) (etag m) (content_type m) (last_modified m) (user_meta m) (cache_control m) (content_disposition m) v (content_language m) (expires m) (website_redirect m) (checksum_algorithm m) (checksum_value m) (checksum_type m) (checksum_pending m) (part_sizes m) (tagging m).
Definition set_content_language (v : bytes) (m : ObjectMeta) : ObjectMeta :=
  mkObjectMeta (okey m) (osize m) (etag m) (content_type m) (last_modified m) (user_meta m) (cache_control m) (content_disposition m) (content_encoding m) v (expires m) (website_redirect m) (checksum_algorithm m) (checksum_value m) (checksum_type m) (checksum_pending m) (part_sizes m) (tagging m).
Definition set_expires (v : bytes) (m : ObjectMeta) : ObjectMeta :=
  mkObjectMeta (okey m) (osize m) (etag m) (content_type m) (last_modified m) (user_meta m) (cache_control m) (content_disposition m) (content_encoding m) (content_language m) v (website_redirect m) (checksum_algorithm m) (checksum_value m) (checksum_type m) (checksum_pending m) (part_sizes m) (tagging m).
Definition set_website_redirect (v : bytes) (m : ObjectMeta) : ObjectMeta :=
  mkObjectMeta (okey m) (osize m) (etag m) (content_type m) (last_modified m) (user_meta m) (cache_control m) (content_disposition m) (content_encoding m) (content_language m) (expires m) v (checksum_algorithm m) (checksum_value m) (checksum_type m) (checksum_pending m) (part_sizes m) (tagging m).
Definition set_checksum_algorithm (v : bytes) (m : ObjectMeta) : ObjectMeta :=
  mkObjectMeta (okey m) (osize m) (etag m) (content_type m) (last_modified m) (user_meta m) (cache_control m) (content_disposition m) (content_encoding m) (content_language m) (expires m) (website_redirect m) v (checksum_value m) (checksum_type m) (checksum_pending m) (part_sizes m) (tagging m).
Definition set_checksum_value (v : bytes) (m : ObjectMeta) : ObjectMeta :=
  mkObjectMeta (okey m) (osize m) (etag m) (content_type m) (last_modified m) (user_meta m) (cache_control m) (content_disposition m) (content_encoding m) (content_language m) (expires m) (website_redirect m) (checksum_algorithm m) v (checksum_type m) (checksum_pending m) (part_sizes m) (tagging m).
Definition set_checksum_type (v : bytes) (m : ObjectMeta) : ObjectMeta :=
  mkObjectMeta (okey m) (osize m) (etag m) (content_type m) (last_modified m) (user_meta m) (cache_control m) (content_disposition m) (content_encoding m) (content_language m) (expires m) (website_redirect m) (checksum_algorithm m) (checksum_value m) v (checksum_pending m) (part_sizes m) (tagging m).
Definition set_checksum_pending (v : option bytes) (m : ObjectMeta) : ObjectMeta :=
  mkObjectMeta (okey m) (osize m) (etag m) (content_type m) (last_modified m) (user_meta m) (cache_control m) (content_disposition m) (content_encoding m) (content_language m) (expires m) (website_redirect m) (checksum_algorithm m) (checksum_value m) (checksum_type m) v (part_sizes m) (tagging m).
Definition set_part_sizes (v : list Z) (m : ObjectMeta) : ObjectMeta :=
  mkObjectMeta (okey m) (osize m) (etag m) (content_type m) (last_modified m) (user_meta m) (cache_control m) (content_disposition m) (content_encoding m) (content_language m) (expires m) (website_redirect m) (checksum_algorithm m) (checksum_value m) (checksum_type m) (checksum_pending m) v (tagging m).
Definition set_tagging (v : bytes) (m : ObjectMeta) : ObjectMeta :=
  mkObjectMeta (okey m) (osize m) (etag m) (content_type m) (last_modified m) (user_meta m) (cache_control m) (content_disposition m) (content_encoding m) (content_language m) (expires m) (website_redirect m) (checksum_algorithm m) (checksum_value m) (checksum_type m) (checksum_pending m) (part_sizes m) v.

Definition empty_string (s : bytes) : bool := bool_decide (s = []).

(** The value a serializer persists. *)
Definition resolved_checksum_value (m : ObjectMeta) : bytes :=
  if negb (empty_string (checksum_value m)) then checksum_value m
  else default [] (checksum_pending m).

Definition finalize_checksum (m : ObjectMeta) : ObjectMeta :=
  let m1 := match checksum_pending m with
            | Some p => if empty_string (checksum_value m) then set_checksum_value p m else m
            | None => m
            end in
  set_checksum_pending None m1.

Lemma finalize_resolved m :
  checksum_value (finalize_checksum m) = resolved_checksum_value m /\
  checksum_pending (finalize_checksum m) = None.
Proof.
  unfold finalize_checksum, resolved_checksum_value, empty_string.
  destruct (checksum_pending m), (bool_decide (checksum_value m = [])) eqn:E; cbn; bool_prop; naive_solver.
Qed.

(** [StdMetaField] / [kStdMetaFields]: header name, persistence key, member, echo flag. *)
Record StdMetaField := mkStd {
  std_header : string; store_key : string;
  field_get : ObjectMeta -> bytes; field_set : bytes -> ObjectMeta -> ObjectMeta;
  std_echo : bool }.

Definition kStdMetaFields : list StdMetaField :=
  [ mkStd "Cache-Control" "cache_control" cache_control set_cache_control true;
    mkStd "Content-Disposition" "content_disposition" content_disposition set_content_disposition true;
    mkStd "Content-Encoding" "content_encoding" content_encoding set_content_encoding true;
    mkStd "Content-Language" "content_language" content_language set_content_language true;
    mkStd "Expires" "expires" expires set_expires true;
    mkStd "x-amz-website-redirect-location" "website_redirect" website_redirect set_website_redirect true;
    mkStd "x-amz-tagging" "tagging" tagging set_tagging false ].

Record PutResult := mkPutResult {
  put_etag : bytes; put_checksum_algorithm : bytes; put_checksum_value : bytes; put_checksum_type : bytes }.

Record PutCondition := mkPutCondition { if_none_match : bool; if_match_etag : option bytes }.
Definition cond_active (c : PutCondition) : bool := if_none_match c || bool_decide (is_Some (if_match_etag c)).
Definition no_cond : PutCondition := mkPutCondition false None.

Record ListOptions := mkListOptions {
  lo_prefix : bytes; lo_delimiter : bytes; max_keys : Z; start_after : bytes }.
Record ListResult := mkListResult {
  objects : list ObjectMeta; common_prefixes : list bytes; is_truncated : bool; next_token : bytes }.

Record BucketInfo := mkBucketInfo { bucket_name : bytes; bucket_created : time_point }.

Record PartInfo := mkPartInfo {
  pi_part_no : Z; pi_etag : bytes; pi_checksum_algorithm : bytes; pi_checksum_value : bytes }.

Record PartChecksum := mkPartChecksum { pc_algorithm : bytes; pc_value : bytes; pc_pending : option bytes }.
Definition pc_resolved (c : PartChecksum) : bytes :=
  if negb (empty_string (pc_value c)) then pc_value c else default [] (pc_pending c).

Record PartMeta := mkPartMeta {
  pm_part_no : Z; pm_size : Z; pm_etag : bytes; pm_last_modified : time_point;
  pm_checksum_algorithm : bytes; pm_checksum_value : bytes }.

Record UploadInfo := mkUploadInfo { ui_key : bytes; ui_upload_id : bytes; ui_initiated : time_point }.

Record ListPartsOptions := mkListPartsOptions { max_parts : Z; part_number_marker : Z }.
Record ListPartsResult := mkListPartsResult {
  lp_parts : list PartMeta; lp_is_truncated : bool; next_part_number_marker : Z }.

Record ListUploadsOptions := mkListUploadsOptions {
  lu_prefix : bytes; lu_delimiter : bytes; max_uploads : Z; key_marker : bytes; upload_id_marker : bytes }.
Record ListUploadsResult := mkListUploadsResult {
  lu_uploads : list UploadInfo; lu_common_prefixes : list bytes; lu_is_truncated : bool;
  next_key_marker : bytes; next_upload_id_marker : bytes }.
