(* ===== verification/TimeUtil.v ===== *)
(** Dates ([src/src/core/util/time.cc]): the three formats, printed and parsed, over the
    calendar of the C library ([gmtime_r], [timegm]) and the conversions of [sscanf] and
    [snprintf] the code uses. A time point counts nanoseconds since 1970. *)

From S2P Require Import Prelude Bytes Backend.
From Stdlib Require Import ZArith Lia.
From stdpp Require Import base list strings.

(** * The calendar *)
Record Tm := mkTm { tm_year : Z; tm_mon : Z; tm_mday : Z; tm_hour : Z; tm_min : Z; tm_sec : Z; tm_wday : Z }.

(** Days since 1970-01-01 of a date; years begin in March here, eras last 400 years. *)
Definition days_from_civil (y m d : Z) : Z := (
  let y := if m <=? 2 then y - 1 else y in
  let era := y / 400 in
  let yoe := y - era * 400 in
  let doy := (153 * (m + (if 2 <? m then -3 else 9)) + 2) / 5 + d - 1 in
  let doe := yoe * 365 + yoe / 4 - yoe / 100 + doy in
  era * 146097 + doe - 719468)%Z.
(** The year a day falls in, from above: the guess is at most two years late within the
    range of a time point. Then the last month that has begun. *)
Fixpoint year_down (fuel : nat) (y z : Z) : Z :=
  match fuel with O => y | S f => if (days_from_civil y 1 1 <=? z)%Z then y else year_down f (y - 1) z end.
Fixpoint month_down (m : nat) (y z : Z) : Z :=
  match m with O => 1 | S m' => if (days_from_civil y (Z.of_nat m) 1 <=? z)%Z then Z.of_nat m else month_down m' y z end.
Definition civil_from_days (z : Z) : Z * Z * Z :=
  let y := year_down 4 (1970 + z / 365 + 1)%Z z in
  let m := month_down 12 y z in
  (y, m, z - days_from_civil y m 1 + 1)%Z.

(** [timegm]: fields out of range are carried over. *)
Definition timegm (t : Tm) : Z :=
  ((days_from_civil (tm_year t + 1900 + tm_mon t / 12) (tm_mon t mod 12 + 1) 1 + tm_mday t - 1) * 86400 + tm_hour t * 3600 + tm_min t * 60 + tm_sec t)%Z.
Definition gmtime (secs : Z) : Tm :=
  let days := (secs / 86400)%Z in
  let rest := (secs mod 86400)%Z in
  let '(y, m, d) := civil_from_days days in
  mkTm (y - 1900) (m - 1) d (rest / 3600) (rest / 60 mod 60) (rest mod 60) ((days + 4) mod 7).
Definition kNs : Z := 1000000000.
Definition to_utc_tm (t : time_point) : Tm := gmtime (Z.quot t kNs).

(** * Printing *)

(** [%0wd] of a number that is not negative. *)
Definition pad (w : nat) (n : Z) : bytes := let s := to_string n in replicate (w - length s) (ch "0") ++ s.
Definition wdays : list bytes := bs <$> ["Sun"; "Mon"; "Tue"; "Wed"; "Thu"; "Fri"; "Sat"]%string.
Definition months : list bytes := bs <$> ["Jan"; "Feb"; "Mar"; "Apr"; "May"; "Jun"; "Jul"; "Aug"; "Sep"; "Oct"; "Nov"; "Dec"]%string.
Definition name_at (l : list bytes) (i : Z) : bytes := default [] (l !! Z.to_nat i).

Definition http_date (t : time_point) : bytes :=
  let tm := to_utc_tm t in
  name_at wdays (tm_wday tm) ++ bs ", " ++ pad 2 (tm_mday tm) ++ bs " " ++ name_at months (tm_mon tm) ++ bs " " ++ pad 4 (tm_year tm + 1900) ++
  bs " " ++ pad 2 (tm_hour tm) ++ bs ":" ++ pad 2 (tm_min tm) ++ bs ":" ++ pad 2 (tm_sec tm) ++ bs " GMT".
Definition iso8601 (t : time_point) : bytes :=
  let tm := to_utc_tm t in
  pad 4 (tm_year tm + 1900) ++ bs "-" ++ pad 2 (tm_mon tm + 1) ++ bs "-" ++ pad 2 (tm_mday tm) ++ bs "T" ++
  pad 2 (tm_hour tm) ++ bs ":" ++ pad 2 (tm_min tm) ++ bs ":" ++ pad 2 (tm_sec tm) ++ bs ".000Z".
Definition amz_date (t : time_point) : bytes :=
  let tm := to_utc_tm t in
  pad 4 (tm_year tm + 1900) ++ pad 2 (tm_mon tm + 1) ++ pad 2 (tm_mday tm) ++ bs "T" ++ pad 2 (tm_hour tm) ++ pad 2 (tm_min tm) ++ pad 2 (tm_sec tm) ++ bs "Z".

(** * Parsing: the conversions of [sscanf] *)
Definition c_space (c : byte) : bool := bool_decide (c = ch " ") || in_range Byte.x09 Byte.x0d c.
Fixpoint skip_space (s : bytes) : bytes := match s with c :: s' => if c_space c then skip_space s' else s | [] => [] end.
(** At most [w] digits. *)
Fixpoint scan_digits (w : nat) (v : Z) (s : bytes) : Z * bytes :=
  match w, s with
  | S w', c :: s' => if is_digit c then scan_digits w' (v * 10 + digit_val c) s' else (v, s)
  | _, _ => (v, s)
  end.
Definition scan_unsigned (w : nat) (s : bytes) : option (Z * bytes) :=
  let '(v, s') := scan_digits w 0 s in if (length s' =? length s)%nat then None else Some (v, s').
(** [%wd]: blanks, a sign that counts in the width, digits. *)
Definition scan_int (w : nat) (s : bytes) : option (Z * bytes) :=
  match skip_space s with
  | c :: s' =>
      if bool_decide (c = ch "-") then x ← scan_unsigned (w - 1) s'; Some (- x.1, x.2)%Z
      else if bool_decide (c = ch "+") then scan_unsigned (w - 1) s'
      else scan_unsigned w (c :: s')
  | [] => None
  end.
Definition scan_char (c : byte) (s : bytes) : option bytes := match s with x :: s' => if bool_decide (x = c) then Some s' else None | [] => None end.
(** [%ws] *)
Fixpoint scan_word_loop (w : nat) (s : bytes) : bytes * bytes :=
  match w, s with
  | S w', c :: s' => if c_space c then ([], s) else let '(a, r) := scan_word_loop w' s' in (c :: a, r)
  | _, _ => ([], s)
  end.
Definition scan_word (w : nat) (s : bytes) : option (bytes * bytes) :=
  let '(a, r) := scan_word_loop w (skip_space s) in if (length a =? 0)%nat then None else Some (a, r).

Definition kMinYear : Z := 1970.
Definition kMaxYear : Z := 2200.
(** The year check, [timegm] and its error value. *)
Definition finish_tm (y mon d h mi s : Z) : option time_point :=
  if (y <? kMinYear)%Z || (kMaxYear <? y)%Z then None
  else let tt := timegm (mkTm (y - 1900) mon d h mi s 0) in if (tt =? -1)%Z then None else Some (tt * kNs)%Z.

Definition month_index (mon : bytes) : option Z := Z.of_nat ∘ fst <$> list_find (λ m, m = mon) months.
Definition parse_http_date (s : bytes) : option time_point :=
  x ← scan_word 3 (c_str s);
  r ← scan_char (ch ",") x.2;
  d ← scan_int 2 (skip_space r);
  mon ← scan_word 3 (skip_space d.2);
  y ← scan_int 4 (skip_space mon.2);
  h ← scan_int 2 (skip_space y.2);
  r ← scan_char (ch ":") h.2;
  mi ← scan_int 2 r;
  r ← scan_char (ch ":") mi.2;
  sec ← scan_int 2 r;
  m ← month_index mon.1;
  finish_tm y.1 m d.1 h.1 mi.1 sec.1.
Definition parse_iso8601 (s : bytes) : option time_point :=
  y ← scan_int 4 (c_str s);
  r ← scan_char (ch "-") y.2;
  mon ← scan_int 2 r;
  r ← scan_char (ch "-") mon.2;
  d ← scan_int 2 r;
  r ← scan_char (ch "T") d.2;
  h ← scan_int 2 r;
  r ← scan_char (ch ":") h.2;
  mi ← scan_int 2 r;
  r ← scan_char (ch ":") mi.2;
  sec ← scan_int 2 r;
  finish_tm y.1 (mon.1 - 1) d.1 h.1 mi.1 sec.1.
Definition parse_amz_date (s : bytes) : option time_point :=
  y ← scan_int 4 (c_str s);
  mon ← scan_int 2 y.2;
  d ← scan_int 2 mon.2;
  r ← scan_char (ch "T") d.2;
  h ← scan_int 2 r;
  mi ← scan_int 2 h.2;
  sec ← scan_int 2 mi.2;
  r ← scan_char (ch "Z") sec.2;
  if negb (length (c_str s) - length r =? 16)%nat || negb (length s =? 16)%nat then None
  else finish_tm y.1 (mon.1 - 1) d.1 h.1 mi.1 sec.1.

(** * Facts *)

(** A property of all numbers of a range, by evaluation. *)
Definition all_from (a : Z) (n : nat) (f : Z -> bool) : bool := (fix go (n : nat) (z : Z) : bool := match n with O => true | S n' => if f z then go n' (z + 1)%Z else false end) n a.
Lemma all_from_spec a n f : all_from a n f = true -> forall z, (a <= z < a + Z.of_nat n)%Z -> f z = true.
Proof.
  unfold all_from. revert a. induction n as [|n IH]; intros a H z Hz; [lia|]. destruct (f a) eqn:Ea; [|done]. destruct (decide (z = a)) as [->|Hne]; [done|]. apply (IH (a + 1)%Z); [done|lia].
Qed.

(** Every day until the end of 2200. *)
Definition kDays : Z := 84371.
(** New Year's Days, and the months between them. *)
Lemma year_starts y : (1969 <= y <= 2203)%Z -> (365 * (y - 1970) <= days_from_civil y 1 1 <= 365 * (y - 1970) + 57)%Z.
Proof.
  intros Hy. enough (((365 * (y - 1970) <=? days_from_civil y 1 1) && (days_from_civil y 1 1 <=? 365 * (y - 1970) + 57))%Z = true) as H by (apply andb_true_iff in H as [H1 H2]; lia).
  assert (1969 <= y < 1969 + Z.of_nat 235)%Z as Hy' by lia. clear Hy. revert y Hy'. apply all_from_spec. vm_compute. reflexivity.
Qed.
Definition month_ok (y m : Z) : bool := ((if m =? 12 then days_from_civil (y + 1) 1 1 else days_from_civil y (m + 1) 1) - days_from_civil y m 1 <=? 31)%Z.
Lemma month_lengths y m : (1970 <= y <= 2200)%Z -> (1 <= m <= 12)%Z -> month_ok y m = true.
Proof.
  intros Hy Hm. assert (1970 <= y < 1970 + Z.of_nat 231)%Z as Hy' by lia. assert (1 <= m < 1 + Z.of_nat 12)%Z as Hm' by lia. clear Hy Hm. revert m Hm'. apply all_from_spec. revert y Hy'. apply all_from_spec. vm_compute. reflexivity.
Qed.
Lemma year_down_spec fuel y z : (days_from_civil (y - Z.of_nat fuel) 1 1 <= z)%Z -> (z < days_from_civil (y + 1) 1 1)%Z ->
  let r := year_down fuel y z in (days_from_civil r 1 1 <= z < days_from_civil (r + 1) 1 1)%Z /\ (y - Z.of_nat fuel <= r <= y)%Z.
Proof.
  revert y. induction fuel as [|fuel IH]; intros y H1 H2; cbn [year_down]; [replace (y - Z.of_nat 0)%Z with y in H1 by lia; cbn; lia|]. destruct (Z.leb_spec (days_from_civil y 1 1) z) as [Hle|Hlt]; [cbn; lia|].
  destruct (IH (y - 1)%Z) as [I1 I2]; [by replace (y - 1 - Z.of_nat fuel)%Z with (y - Z.of_nat (S fuel))%Z by lia|by replace (y - 1 + 1)%Z with y by lia|]. cbn in *. lia.
Qed.
Lemma month_down_spec m y z : (1 <= m)%nat -> (days_from_civil y 1 1 <= z)%Z -> (z < if Z.of_nat m =? 12 then days_from_civil (y + 1) 1 1 else days_from_civil y (Z.of_nat m + 1) 1)%Z ->
  (m <= 12)%nat -> let r := month_down m y z in (1 <= r <= Z.of_nat m)%Z /\ (days_from_civil y r 1 <= z < if (r =? 12)%Z then days_from_civil (y + 1) 1 1 else days_from_civil y (r + 1) 1)%Z.
Proof.
  intros H1 H2. induction m as [|m IH]; [lia|]. intros H3 H4. cbn [month_down]. destruct (Z.leb_spec (days_from_civil y (Z.of_nat (S m)) 1) z) as [Hle|Hlt]; [cbn; split; [lia|done]|].
  destruct m as [|m]; [change (Z.of_nat 1) with 1%Z in Hlt; lia|]. destruct (IH ltac:(lia)) as [I1 I2]; [|lia|cbv zeta; split; [lia|exact I2]].
  destruct (Z.eqb_spec (Z.of_nat (S m)) 12); [lia|]. by replace (Z.of_nat (S m) + 1)%Z with (Z.of_nat (S (S m))) by lia.
Qed.
Lemma civil_ok z : (0 <= z < kDays)%Z ->
  let '(y, m, d) := civil_from_days z in (1970 <= y <= 2200)%Z /\ (1 <= m <= 12)%Z /\ (1 <= d <= 31)%Z /\ (days_from_civil y m 1 + d - 1 = z)%Z.
Proof.
  intros Hz. unfold civil_from_days. assert (0 <= z / 365 <= 231)%Z as Hq by (unfold kDays in Hz; Z.div_mod_to_equations; lia). pose proof (Z.div_mod z 365 ltac:(lia)) as Hd. pose proof (Z.mod_pos_bound z 365 ltac:(lia)) as Hm.
  assert (days_from_civil (1970 + z / 365 + 1 - Z.of_nat 2) 1 1 <= z)%Z as L1 by (change (Z.of_nat 2) with 2%Z; pose proof (year_starts (1970 + z / 365 + 1 - 2)%Z ltac:(lia)); lia).
  assert (z < days_from_civil (1970 + z / 365 + 1 + 1) 1 1)%Z as L2 by (pose proof (year_starts (1970 + z / 365 + 1 + 1)%Z ltac:(lia)); lia).
  assert (year_down 4 (1970 + z / 365 + 1) z = year_down 2 (1970 + z / 365 + 1) z) as ->.
  { cbn [year_down]. destruct (_ <=? _)%Z; [done|]. destruct (_ <=? _)%Z; [done|]. replace (1970 + z / 365 + 1 - 1 - 1)%Z with (1970 + z / 365 + 1 - Z.of_nat 2)%Z by lia. destruct (Z.leb_spec (days_from_civil (1970 + z / 365 + 1 - Z.of_nat 2) 1 1) z); [done|lia]. }
  destruct (year_down_spec 2 _ z L1 L2) as [[Y1 Y2] Y3]. cbv zeta in *. set (y := year_down 2 (1970 + z / 365 + 1) z) in *.
  assert (1970 <= y <= 2200)%Z as Hy.
  { split.
    - destruct (Z.le_gt_cases 1970 y); [done|]. pose proof (year_starts (y + 1)%Z ltac:(lia)). assert (y + 1 = 1970)%Z as E by lia. rewrite E in Y2. vm_compute in Y2. destruct Hz as [Hz _]. by destruct z.
    - destruct (Z.le_gt_cases y 2200); [done|]. pose proof (year_starts y ltac:(lia)) as Hs. destruct (decide (y = 2201)%Z) as [E|]; [rewrite E in Y1; change (days_from_civil 2201 1 1) with kDays in Y1; lia|]. unfold kDays in Hz. lia. }
  destruct (month_down_spec 12 y z) as [M1 [M2 M3]]; [lia|done|exact Y2|lia|]. cbv zeta in *. set (m := month_down 12 y z) in *. pose proof (month_lengths y m Hy ltac:(lia)) as Hl. unfold month_ok in Hl. split; [done|]. split; [lia|]. split; [|lia]. destruct (m =? 12)%Z; lia.
Qed.

Lemma pad2_eq n : (0 <= n < 100)%Z -> pad 2 n = [digit_char (n / 10); digit_char (n mod 10)]%Z.
Proof.
  intros Hn. enough (bool_decide (pad 2 n = [digit_char (n / 10); digit_char (n mod 10)]%Z) = true) as H by (by apply bool_decide_eq_true in H).
  revert n Hn. apply (all_from_spec 0 100). vm_compute. reflexivity.
Qed.
Lemma pad4_eq n : (1970 <= n <= 2200)%Z -> pad 4 n = [digit_char (n / 1000); digit_char (n / 100 mod 10); digit_char (n / 10 mod 10); digit_char (n mod 10)]%Z.
Proof.
  intros Hn. enough (bool_decide (pad 4 n = [digit_char (n / 1000); digit_char (n / 100 mod 10); digit_char (n / 10 mod 10); digit_char (n mod 10)]%Z) = true) as H by (by apply bool_decide_eq_true in H).
  assert (1970 <= n < 1970 + Z.of_nat 231)%Z as Hn' by lia. revert n Hn' Hn. intros n Hn' _. revert n Hn'. apply all_from_spec. vm_compute. reflexivity.
Qed.

Lemma digit_plain d : (0 <= d < 10)%Z -> c_space (digit_char d) = false /\ digit_char d <> ch "-" /\ digit_char d <> ch "+" /\ digit_char d <> Byte.x00 /\ is_digit (digit_char d) = true /\ digit_val (digit_char d) = d.
Proof.
  intros Hd. assert (d = 0 \/ d = 1 \/ d = 2 \/ d = 3 \/ d = 4 \/ d = 5 \/ d = 6 \/ d = 7 \/ d = 8 \/ d = 9)%Z as H by lia. repeat destruct H as [->|H]; [..|subst d]; repeat split; vm_compute; try reflexivity; intros [=].
Qed.
Lemma scan_int_digits c w rest : c_space c = false -> c <> ch "-" -> c <> ch "+" -> scan_int w (c :: rest) = scan_unsigned w (c :: rest).
Proof. intros H1 H2 H3. unfold scan_int. cbn [skip_space]. rewrite H1. by rewrite !bool_decide_false. Qed.
Lemma scan_pad2 n rest : (0 <= n < 100)%Z -> scan_int 2 (pad 2 n ++ rest) = Some (n, rest).
Proof.
  intros Hn. rewrite pad2_eq by done. assert (0 <= n / 10 < 10)%Z as H1 by (split; [apply Z.div_pos; lia|apply Z.div_lt_upper_bound; lia]). pose proof (Z.mod_pos_bound n 10 ltac:(lia)) as H2.
  destruct (digit_plain _ H1) as (A1 & A2 & A3 & _ & A4 & A5). destruct (digit_plain _ H2) as (_ & _ & _ & _ & B4 & B5). cbn [app]. rewrite scan_int_digits by done. unfold scan_unsigned. cbn [scan_digits]. rewrite A4, B4, A5, B5.
  destruct (Nat.eqb_spec (length rest) (length (digit_char (n / 10) :: digit_char (n mod 10) :: rest))) as [E|_]; [cbn in E; lia|]. do 2 f_equal. pose proof (Z.div_mod n 10). lia.
Qed.
Lemma scan_pad4 n rest : (1970 <= n <= 2200)%Z -> scan_int 4 (pad 4 n ++ rest) = Some (n, rest).
Proof.
  intros Hn. rewrite pad4_eq by done. assert (0 <= n / 1000 < 10)%Z as H1 by (split; [apply Z.div_pos; lia|apply Z.div_lt_upper_bound; lia]).
  pose proof (Z.mod_pos_bound (n / 100) 10 ltac:(lia)) as H2. pose proof (Z.mod_pos_bound (n / 10) 10 ltac:(lia)) as H3. pose proof (Z.mod_pos_bound n 10 ltac:(lia)) as H4.
  destruct (digit_plain _ H1) as (A1 & A2 & A3 & _ & A4 & A5). destruct (digit_plain _ H2) as (_ & _ & _ & _ & B4 & B5). destruct (digit_plain _ H3) as (_ & _ & _ & _ & C4 & C5). destruct (digit_plain _ H4) as (_ & _ & _ & _ & D4 & D5).
  cbn [app]. rewrite scan_int_digits by done. unfold scan_unsigned. cbn [scan_digits]. rewrite A4, B4, C4, D4, A5, B5, C5, D5.
  match goal with |- context [(length rest =? ?k)%nat] => destruct (Nat.eqb_spec (length rest) k) as [E|_]; [cbn in E; lia|] end. do 2 f_equal. Z.div_mod_to_equations. lia.
Qed.

(** The fields of a time between 1970 and 2200. *)
Record fields_ok (tm : Tm) (secs : Z) : Prop := mkFieldsOk {
  fo_year : (1970 <= tm_year tm + 1900 <= 2200)%Z; fo_mon : (0 <= tm_mon tm <= 11)%Z; fo_mday : (1 <= tm_mday tm <= 31)%Z;
  fo_hour : (0 <= tm_hour tm < 24)%Z; fo_min : (0 <= tm_min tm < 60)%Z; fo_sec : (0 <= tm_sec tm < 60)%Z; fo_wday : (0 <= tm_wday tm < 7)%Z;
  fo_back : timegm (mkTm (tm_year tm) (tm_mon tm) (tm_mday tm) (tm_hour tm) (tm_min tm) (tm_sec tm) 0) = secs }.
Definition in_era (t : time_point) : Prop := (0 <= t < kDays * 86400 * kNs)%Z.
Lemma gmtime_fields secs : (0 <= secs < kDays * 86400)%Z -> fields_ok (gmtime secs) secs.
Proof.
  intros Hs. assert (0 <= secs / 86400 < kDays)%Z as Hd by (split; [apply Z.div_pos; lia|apply Z.div_lt_upper_bound; lia]). pose proof (civil_ok _ Hd) as Hok. unfold gmtime.
  destruct (civil_from_days (secs / 86400)) as [[y m] d]. destruct Hok as (H1 & H3 & H5 & H7).
  pose proof (Z.mod_pos_bound secs 86400 ltac:(lia)) as Hr. pose proof (Z.div_mod secs 86400 ltac:(lia)) as Hdm. set (r := (secs mod 86400)%Z) in *. set (q := (secs / 86400)%Z) in *.
  split; cbn; try lia; try (Z.div_mod_to_equations; lia). unfold timegm. cbn. rewrite Z.div_small, Z.mod_small by lia. replace (y - 1900 + 1900 + 0)%Z with y by lia. replace (m - 1 + 1)%Z with m by lia.
  rewrite H7. pose proof (Z.div_mod r 3600 ltac:(lia)). pose proof (Z.div_mod (r / 60) 60 ltac:(lia)). pose proof (Z.div_mod r 60 ltac:(lia)). rewrite Z.div_div in * by lia. replace (60 * 60)%Z with 3600%Z in * by lia. lia.
Qed.
Lemma era_fields t : in_era t -> fields_ok (to_utc_tm t) (t / kNs).
Proof.
  intros [H1 H2]. unfold to_utc_tm. rewrite Z.quot_div_nonneg by (unfold kNs; lia). apply gmtime_fields. unfold kNs in *. split; [apply Z.div_pos; lia|apply Z.div_lt_upper_bound; lia].
Qed.
Lemma finish_back tm secs : fields_ok tm secs -> (0 <= secs)%Z -> finish_tm (tm_year tm + 1900) (tm_mon tm) (tm_mday tm) (tm_hour tm) (tm_min tm) (tm_sec tm) = Some (secs * kNs)%Z.
Proof.
  intros [H1 H2 H3 H4 H5 H6 H7 H8] H0. unfold finish_tm, kMinYear, kMaxYear. destruct (Z.ltb_spec (tm_year tm + 1900) 1970); [lia|]. destruct (Z.ltb_spec 2200 (tm_year tm + 1900)); [lia|]. cbn [orb].
  replace (tm_year tm + 1900 - 1900)%Z with (tm_year tm) by lia. rewrite H8. destruct (Z.eqb_spec secs (-1)); [lia|done].
Qed.

(** No byte of these strings is NUL. *)
Definition no_nul (s : bytes) : Prop := Byte.x00 ∉ s.
Lemma c_str_id s : no_nul s -> c_str s = s.
Proof. unfold no_nul. induction s as [|c s IH]; [done|]. intros [H1 H2]%not_elem_of_cons. cbn. rewrite bool_decide_false by done. by rewrite IH. Qed.
Lemma pad_digits w n : (0 <= n)%Z -> forallb is_digit (pad w n) = true.
Proof. intros Hn. unfold pad. rewrite forallb_app, to_string_digits by done. rewrite andb_true_r. apply forallb_forall. intros c Hc%list_elem_of_In%elem_of_replicate. by destruct Hc as [-> _]. Qed.
Lemma digits_no_nul s : forallb is_digit s = true -> Byte.x00 ∉ s.
Proof. intros H Hin. rewrite forallb_forall in H. by specialize (H Byte.x00 ltac:(by apply list_elem_of_In)). Qed.
Lemma no_nul_app a b : no_nul a -> no_nul b -> no_nul (a ++ b).
Proof. unfold no_nul. intros H1 H2 [?|?]%elem_of_app; done. Qed.
Lemma no_nul_pad w n : (0 <= n)%Z -> no_nul (pad w n).
Proof. intros. by apply digits_no_nul, pad_digits. Qed.
Lemma no_nul_const s : forallb (λ c, negb (bool_decide (c = Byte.x00))) s = true -> no_nul s.
Proof. intros H Hin. rewrite forallb_forall in H. specialize (H Byte.x00 ltac:(by apply list_elem_of_In)). by rewrite bool_decide_true in H. Qed.
Ltac nonul :=
  lazymatch goal with
  | |- no_nul (_ ++ _) => apply no_nul_app; nonul
  | |- no_nul (pad _ _) => apply no_nul_pad; lia
  | |- no_nul (bs _) => apply no_nul_const; vm_compute; reflexivity
  | |- _ => eauto
  end.

Lemma wday_scan i rest : (0 <= i < 7)%Z -> scan_word 3 (name_at wdays i ++ rest) = Some (name_at wdays i, rest) /\ no_nul (name_at wdays i).
Proof.
  intros Hi. assert (i = 0 \/ i = 1 \/ i = 2 \/ i = 3 \/ i = 4 \/ i = 5 \/ i = 6)%Z as H by lia. repeat destruct H as [->|H]; [..|subst i]; (split; [reflexivity|apply no_nul_const; vm_compute; reflexivity]).
Qed.
Lemma month_scan i rest : (0 <= i <= 11)%Z -> scan_word 3 (name_at months i ++ rest) = Some (name_at months i, rest) /\ month_index (name_at months i) = Some i /\ no_nul (name_at months i).
Proof.
  intros Hi. assert (i = 0 \/ i = 1 \/ i = 2 \/ i = 3 \/ i = 4 \/ i = 5 \/ i = 6 \/ i = 7 \/ i = 8 \/ i = 9 \/ i = 10 \/ i = 11)%Z as H by lia.
  repeat destruct H as [->|H]; [..|subst i]; (split; [reflexivity|split; [vm_compute; reflexivity|apply no_nul_const; vm_compute; reflexivity]]).
Qed.
Lemma skip_pad w n rest : (0 <= n < 100)%Z /\ w = 2%nat \/ (1970 <= n <= 2200)%Z /\ w = 4%nat -> skip_space (pad w n ++ rest) = pad w n ++ rest.
Proof.
  intros [[Hn ->]|[Hn ->]]; [rewrite pad2_eq by done|rewrite pad4_eq by done]; cbn [app skip_space].
  - destruct (digit_plain (n / 10)) as [-> _]; [|done]. split; [apply Z.div_pos; lia|apply Z.div_lt_upper_bound; lia].
  - destruct (digit_plain (n / 1000)) as [-> _]; [|done]. split; [apply Z.div_pos; lia|apply Z.div_lt_upper_bound; lia].
Qed.
Lemma skip_month i rest : (0 <= i <= 11)%Z -> skip_space (name_at months i ++ rest) = name_at months i ++ rest.
Proof.
  intros Hi. assert (i = 0 \/ i = 1 \/ i = 2 \/ i = 3 \/ i = 4 \/ i = 5 \/ i = 6 \/ i = 7 \/ i = 8 \/ i = 9 \/ i = 10 \/ i = 11)%Z as H by lia. repeat destruct H as [->|H]; [..|subst i]; reflexivity.
Qed.

(** * Round trips *)
Lemma scan_lit (r : bytes) :
  scan_char (ch "T") (bs "T" ++ r) = Some r /\ scan_char (ch "-") (bs "-" ++ r) = Some r /\ scan_char (ch ":") (bs ":" ++ r) = Some r /\ scan_char (ch ",") (bs ", " ++ r) = Some (bs " " ++ r).
Proof. repeat split; reflexivity. Qed.
Lemma skip_lit (r : bytes) : skip_space (bs " " ++ r) = skip_space r.
Proof. reflexivity. Qed.
Ltac scan1 :=
  first [rewrite scan_pad4 by lia | rewrite scan_pad2 by lia | rewrite skip_lit | rewrite (skip_pad 2) by (left; split; [lia|done]) | rewrite (skip_pad 4) by (right; split; [lia|done])
        | rewrite skip_month by lia | rewrite (proj1 (scan_lit _)) | rewrite (proj1 (proj2 (scan_lit _))) | rewrite (proj1 (proj2 (proj2 (scan_lit _)))) | rewrite (proj2 (proj2 (proj2 (scan_lit _))))];
  cbn [mbind option_bind fst snd].
Section fields.
Context (y mo d h mi se : Z) (Hy : (1970 <= y <= 2200)%Z) (Hmo : (0 <= mo <= 11)%Z) (Hd : (1 <= d <= 31)%Z) (Hh : (0 <= h < 24)%Z) (Hmi : (0 <= mi < 60)%Z) (Hse : (0 <= se < 60)%Z).
Lemma parse_amz_fields :
  parse_amz_date (pad 4 y ++ pad 2 (mo + 1) ++ pad 2 d ++ bs "T" ++ pad 2 h ++ pad 2 mi ++ pad 2 se ++ bs "Z") = finish_tm y mo d h mi se.
Proof.
  assert (length (pad 4 y ++ pad 2 (mo + 1) ++ pad 2 d ++ bs "T" ++ pad 2 h ++ pad 2 mi ++ pad 2 se ++ bs "Z") = 16%nat) as Hlen by (rewrite !length_app, pad4_eq, !pad2_eq by lia; reflexivity).
  unfold parse_amz_date. rewrite c_str_id by nonul. rewrite Hlen. repeat scan1. assert (scan_char (ch "Z") (bs "Z") = Some []) as -> by reflexivity. cbn [mbind option_bind]. by replace (mo + 1 - 1)%Z with mo by lia.
Qed.
Lemma parse_iso_fields :
  parse_iso8601 (pad 4 y ++ bs "-" ++ pad 2 (mo + 1) ++ bs "-" ++ pad 2 d ++ bs "T" ++ pad 2 h ++ bs ":" ++ pad 2 mi ++ bs ":" ++ pad 2 se ++ bs ".000Z") = finish_tm y mo d h mi se.
Proof. unfold parse_iso8601. rewrite c_str_id by nonul. repeat scan1. by replace (mo + 1 - 1)%Z with mo by lia. Qed.
Lemma parse_http_fields w : (0 <= w < 7)%Z ->
  parse_http_date (name_at wdays w ++ bs ", " ++ pad 2 d ++ bs " " ++ name_at months mo ++ bs " " ++ pad 4 y ++ bs " " ++ pad 2 h ++ bs ":" ++ pad 2 mi ++ bs ":" ++ pad 2 se ++ bs " GMT") = finish_tm y mo d h mi se.
Proof.
  intros Hw. destruct (wday_scan w [] Hw) as [_ N1]. destruct (month_scan mo [] Hmo) as (_ & Hm & N2). unfold parse_http_date. rewrite c_str_id by nonul. rewrite (proj1 (wday_scan _ _ Hw)). cbn [mbind option_bind fst snd].
  repeat scan1. rewrite (proj1 (month_scan _ _ Hmo)). cbn [mbind option_bind fst snd]. repeat scan1. rewrite Hm. reflexivity.
Qed.
End fields.

Lemma dates_back t : in_era t ->
  parse_amz_date (amz_date t) = Some (t / kNs * kNs)%Z /\ parse_iso8601 (iso8601 t) = Some (t / kNs * kNs)%Z /\ parse_http_date (http_date t) = Some (t / kNs * kNs)%Z.
Proof.
  intros Ht. pose proof (era_fields t Ht) as Hf. assert (0 <= t / kNs)%Z as H0 by (apply Z.div_pos; [apply Ht|done]). pose proof (finish_back _ _ Hf H0) as Hb. destruct Hf as [F1 F2 F3 F4 F5 F6 F7 _].
  unfold amz_date, iso8601, http_date. revert F1 F2 F3 F4 F5 F6 F7 Hb. generalize (to_utc_tm t). intros tm F1 F2 F3 F4 F5 F6 F7 <-. split; [|split]; cbv zeta.
  - by apply parse_amz_fields.
  - by apply parse_iso_fields.
  - by apply parse_http_fields.
Qed.
Lemma amz_date_chars t c : in_era t -> is_digit c = false -> c <> ch "T" -> c <> ch "Z" -> c ∉ amz_date t.
Proof.
  intros Ht Hc HT HZ. destruct (era_fields t Ht) as [F1 F2 F3 F4 F5 F6 F7 _]. assert (forall w n, (0 <= n)%Z -> c ∉ pad w n) as Hp.
  { intros w n Hn Hin. pose proof (pad_digits w n Hn) as Hd. rewrite forallb_forall in Hd. specialize (Hd c ltac:(by apply list_elem_of_In)). congruence. }
  assert (forall x : byte, c <> x -> c ∉ [x]) as H1 by (intros x Hx ?%list_elem_of_singleton; done). unfold amz_date. cbv zeta. change (bs "T") with [ch "T"]. change (bs "Z") with [ch "Z"].
  rewrite !not_elem_of_app. split_and!; first [apply Hp; lia|by apply H1].
Qed.

(** Printing a time between 1970 and 2200 in any of the three formats and parsing the
    result gives the time back, to the second. *)
Theorem dates_roundtrip t (Ht : in_era t) :
  parse_amz_date (amz_date t) = Some (t / kNs * kNs)%Z /\ parse_iso8601 (iso8601 t) = Some (t / kNs * kNs)%Z /\ parse_http_date (http_date t) = Some (t / kNs * kNs)%Z.
Proof. by apply dates_back. Qed.
Lemma dates_roundtrip_witness : parse_amz_date (amz_date (1784016000 * kNs + 5)) = Some (1784016000 * kNs)%Z.
Proof. destruct (dates_roundtrip (1784016000 * kNs + 5)) as [H _]; [split; reflexivity || (vm_compute; discriminate)|]. rewrite H. vm_compute. reflexivity. Defined.
Example amz1 : amz_date (1784016000 * kNs) = bs "20260714T080000Z".
Proof. vm_compute. reflexivity. Qed.
Example http1 : http_date (1784016000 * kNs) = bs "Tue, 14 Jul 2026 08:00:00 GMT".
Proof. vm_compute. reflexivity. Qed.
Example http2 : parse_http_date (bs "Tue, 14 Jul 2026 08:00:00 GMT") = Some (1784016000 * kNs)%Z.
Proof. vm_compute. reflexivity. Qed.
Example amz2 : parse_amz_date (bs "20260714T080000Z") = Some (1784016000 * kNs)%Z.
Proof. vm_compute. reflexivity. Qed.
