(* ===== verification/Validate.v ===== *)
(** Bucket and key validation ([src/src/storage/validate.cc]). *)

From S2P Require Import Prelude Bytes Backend.
From Stdlib Require Import ZArith Lia.
From stdpp Require Import base list strings.

Definition kSysBucketName : bytes := bs ".sys".

(** Value of one dotted segment; [None] is the [return false] on a non-digit. *)
Fixpoint seg_value (v : Z) (s : bytes) : option Z :=
  match s with
  | [] => Some v
  | c :: s' => if is_digit c then seg_value (v * 10 + (bz c - bz (ch "0"))) s' else None
  end.

(** The segment loop of [looks_like_ipv4]. *)
Fixpoint ipv4_loop (segs : nat) (l : list bytes) : bool :=
  match l with
  | [] => (segs =? 4)%nat
  | s :: l' =>
      if empty_string s || (3 <? length s)%nat then false
      else match seg_value 0 s with
           | None => false
           | Some v => if (255 <? v)%Z then false else ipv4_loop (S segs) l'
           end
  end.

Definition looks_like_ipv4 (b : bytes) : bool := ipv4_loop 0 (split_on (ch ".") b).

Definition bucket_char (c : byte) : bool :=
  is_lower c || is_digit c || bool_decide (c = ch "-") || bool_decide (c = ch ".").

Definition dash_or_dot (o : option byte) : bool :=
  match o with Some c => bool_decide (c = ch "-") || bool_decide (c = ch ".") | None => false end.

Definition contains (pat s : bytes) : bool := bool_decide (is_Some (bfind pat s)).

Definition kReservedPrefixes : list bytes := [bs "xn--"; bs "sthree-"; bs "amzn-s3-demo-"].
Definition kReservedSuffixes : list bytes := [bs "-s3alias"; bs "--ol-s3"; bs "--x-s3"; bs ".mrap"].

Definition validate_bucket_name (b : bytes) (allow_reserved : bool) : result unit :=
  if bool_decide (b = kSysBucketName) then
    if allow_reserved then Ok tt else Throw InvalidBucketName
  else
    _ ← throw_if ((length b <? 3)%nat || (63 <? length b)%nat) InvalidBucketName;
    _ ← throw_if (negb (forallb bucket_char b)) InvalidBucketName;
    _ ← throw_if (dash_or_dot (head b) || dash_or_dot (last b)) InvalidBucketName;
    _ ← throw_if (contains (bs "..") b) InvalidBucketName;
    _ ← throw_if (contains (bs ".-") b || contains (bs "-.") b) InvalidBucketName;
    _ ← throw_if (looks_like_ipv4 b) InvalidBucketName;
    _ ← throw_if (existsb (λ p, starts_with p b) kReservedPrefixes) InvalidBucketName;
    throw_if (existsb (λ s, ends_with s b) kReservedSuffixes) InvalidBucketName.

Definition control_char (c : byte) : bool := (bz c <? 32)%Z || (bz c =? 127)%Z.
Definition dot_segment (s : bytes) : bool := bool_decide (s = bs ".") || bool_decide (s = bs "..").

Definition validate_object_key (k : bytes) : result unit :=
  _ ← throw_if (empty_string k || (1024 <? length k)%nat) KeyTooLongError;
  _ ← throw_if (existsb control_char k) InvalidArgument;
  throw_if (existsb dot_segment (split_on (ch "/") k)) InvalidArgument.

(** The segment loop of [validate_fs_object_key]: the first bad segment decides. *)
Fixpoint fs_segments (l : list bytes) : result unit :=
  match l with
  | [] => Ok tt
  | s :: l' =>
      _ ← throw_if (empty_string s) InvalidArgument;
      _ ← throw_if (255 <? length s)%nat KeyTooLongError;
      fs_segments l'
  end.

Definition fs_body (k : bytes) : bytes :=
  if ends_with (bs "/") k then take (length k - 1) k else k.

(** [validate_fs_object_key] (called after [validate_object_key], so [k] is not empty). *)
Definition validate_fs_object_key (k : bytes) : result unit :=
  _ ← throw_if (bool_decide (head k = Some (ch "/"))) InvalidArgument;
  let body := fs_body k in
  _ ← throw_if (empty_string body) InvalidArgument;
  fs_segments (split_on (ch "/") body).

(** * What the checks accept *)

(** The bucket naming rules, declaratively. *)
Record bucket_ok (b : bytes) : Prop := {
  bo_not_sys : b <> kSysBucketName;
  bo_length : 3 <= length b <= 63;
  bo_chars : forall c, c ∈ b -> bucket_char c = true;
  bo_first : head b <> Some (ch "-") /\ head b <> Some (ch ".");
  bo_last : last b <> Some (ch "-") /\ last b <> Some (ch ".");
  bo_pairs : forall n, ~ bs ".." `prefix_of` drop n b /\ ~ bs ".-" `prefix_of` drop n b
                       /\ ~ bs "-." `prefix_of` drop n b;
  bo_not_ipv4 : looks_like_ipv4 b = false;
  bo_prefixes : forall p, p ∈ kReservedPrefixes -> ~ p `prefix_of` b;
  bo_suffixes : forall s, s ∈ kReservedSuffixes -> ~ s `suffix_of` b }.

Lemma contains_false pat s : contains pat s = false <-> forall n, ~ pat `prefix_of` drop n s.
Proof.
  unfold contains. rewrite bool_decide_eq_false. split.
  - intros H n. apply bfind_None. destruct (bfind pat s); [|done]. exfalso. eauto.
  - intros H [n Hn]. apply bfind_spec in Hn as [Hn _]. by apply (H n).
Qed.

Lemma existsb_false {A} (f : A -> bool) l : existsb f l = false <-> forall x, x ∈ l -> f x = false.
Proof.
  split.
  - intros H x Hx. destruct (f x) eqn:E; [|done].
    rewrite <- H. symmetry. apply existsb_exists. exists x. by rewrite <- list_elem_of_In.
  - intros H. apply not_true_is_false. intros (x & Hx & E)%existsb_exists.
    apply list_elem_of_In, H in Hx. congruence.
Qed.

Lemma forallb_elem {A} (f : A -> bool) l : forallb f l = true <-> forall x, x ∈ l -> f x = true.
Proof. rewrite forallb_forall. setoid_rewrite list_elem_of_In. done. Qed.

Lemma dash_or_dot_false o : dash_or_dot o = false <-> o <> Some (ch "-") /\ o <> Some (ch ".").
Proof.
  destruct o as [c|]; cbn [dash_or_dot]; [|by split].
  rewrite orb_false_iff, !bool_decide_eq_false. naive_solver.
Qed.

Lemma validate_bucket_name_spec b : validate_bucket_name b false = Ok tt <-> bucket_ok b.
Proof.
  unfold validate_bucket_name. case_bool_decide as Hs.
  { split; [done|]. by intros []. }
  rewrite !throw_if_bind_Ok, throw_if_Ok.
  rewrite !existsb_false, !orb_false_iff, negb_false_iff, forallb_elem, !contains_false,
    !dash_or_dot_false, !Nat.ltb_ge.
  setoid_rewrite ends_with_false. setoid_rewrite starts_with_false.
  split.
  - intros ([? ?] & ? & [? ?] & ? & [? ?] & ? & ? & ?). split; auto; lia.
  - intros []. naive_solver lia.
Qed.

(** The object-key rules, declaratively. *)
Record key_ok (k : bytes) : Prop := {
  ko_length : 1 <= length k <= 1024;
  ko_chars : forall c, c ∈ k -> control_char c = false;
  ko_segments : forall seg, seg ∈ split_on (ch "/") k -> seg <> bs "." /\ seg <> bs ".." }.

Lemma empty_string_false s : empty_string s = false <-> s <> [].
Proof. unfold empty_string. by rewrite bool_decide_eq_false. Qed.

Lemma dot_segment_false s : dot_segment s = false <-> s <> bs "." /\ s <> bs "..".
Proof. unfold dot_segment. by rewrite orb_false_iff, !bool_decide_eq_false. Qed.

Lemma validate_object_key_spec k : validate_object_key k = Ok tt <-> key_ok k.
Proof.
  unfold validate_object_key. rewrite !throw_if_bind_Ok, throw_if_Ok.
  rewrite orb_false_iff, empty_string_false, !existsb_false, Nat.ltb_ge.
  setoid_rewrite dot_segment_false. split.
  - intros ([Hk ?] & ? & ?). split; [|done..]. destruct k; cbn in *; [done|lia].
  - intros [? ? ?]. split; [split; [by destruct k; cbn in *; [lia|]|lia]|done].
Qed.

(** A name or key that passed validation holds no NUL, so the ['\0']-separated
    record keys built from it are unambiguous. *)
Lemma bucket_char_not_nul : bucket_char Byte.x00 = false.
Proof. done. Qed.

Lemma bucket_ok_no_nul b : bucket_ok b -> Byte.x00 ∉ b.
Proof. intros [] Hin. apply bo_chars0 in Hin. done. Qed.

Lemma key_ok_no_nul k : key_ok k -> Byte.x00 ∉ k.
Proof. intros [] Hin. apply ko_chars0 in Hin. done. Qed.

(** ** Path safety of filesystem backends *)

Lemma fs_segments_Ok l :
  fs_segments l = Ok tt <-> Forall (λ s, s <> [] /\ length s <= 255) l.
Proof.
  induction l as [|s l IH]; cbn [fs_segments]; [by split|].
  rewrite list.Forall_cons, <- IH, !throw_if_bind_Ok, empty_string_false, Nat.ltb_ge. naive_solver.
Qed.

(** Joining path segments under a root, resolving [.] and [..] the way the kernel
    does; [None] is an escape above the root. *)
Fixpoint resolve_path (depth : nat) (segs : list bytes) : option nat :=
  match segs with
  | [] => Some depth
  | s :: rest =>
      if bool_decide (s = []) || bool_decide (s = bs ".") then resolve_path depth rest
      else if bool_decide (s = bs "..") then
        match depth with O => None | S d => resolve_path d rest end
      else resolve_path (S depth) rest
  end.

Lemma resolve_path_plain segs d :
  Forall (λ s, s <> [] /\ s <> bs "." /\ s <> bs "..") segs ->
  resolve_path d segs = Some (d + length segs).
Proof.
  intros H. revert d. induction H as [|s segs (H1 & H2 & H3) _ IH]; intros d; cbn [resolve_path length].
  - f_equal. lia.
  - rewrite !bool_decide_false by done. cbn [orb]. rewrite IH. f_equal. lia.
Qed.

Lemma split_on_trailing sep s : split_on sep (s ++ [sep]) = split_on sep s ++ [[]].
Proof.
  induction s as [|c s IH]; cbn; [by rewrite bool_decide_true|].
  destruct (split_on_cons sep s) as (seg & rest & E). rewrite IH, E.
  by case_bool_decide.
Qed.

(** The segments of the body are segments of the key. *)
Lemma fs_body_segments k seg :
  seg ∈ split_on (ch "/") (fs_body k) -> seg ∈ split_on (ch "/") k.
Proof.
  unfold fs_body. destruct (ends_with (bs "/") k) eqn:E; [|done].
  apply ends_with_suffix in E as [pre ->]. rewrite length_app. change (length (bs "/")) with 1.
  rewrite Nat.add_sub, take_app_length. change (bs "/") with [ch "/"].
  rewrite split_on_trailing. intros ?. apply elem_of_app. by left.
Qed.

Lemma fs_key_safe k :
  validate_object_key k = Ok tt -> validate_fs_object_key k = Ok tt ->
  Forall (λ s, s <> [] /\ length s <= 255 /\ s <> bs "." /\ s <> bs "..") (split_on (ch "/") (fs_body k)).
Proof.
  intros Hk%validate_object_key_spec Hf. unfold validate_fs_object_key in Hf. inv_res.
  apply fs_segments_Ok in Hf. apply list.Forall_forall. intros s Hs.
  rewrite list.Forall_forall in Hf. destruct (Hf s Hs) as [? ?].
  apply fs_body_segments in Hs. by apply (ko_segments k Hk) in Hs as [? ?].
Qed.

(** * Theorems *)

(** The validators accept exactly the documented names: a bucket name is accepted if
    and only if it satisfies the naming rules, an object key if and only if it has 1 to
    1024 bytes, no control character and no "." or ".." segment. *)
Theorem validation_exact (b k : bytes) :
  (validate_bucket_name b false = Ok tt <-> bucket_ok b) /\ (validate_object_key k = Ok tt <-> key_ok k).
Proof. split; [apply validate_bucket_name_spec|apply validate_object_key_spec]. Qed.

(** C39: No path traversal: a key that passes both validations, joined under a directory,
    resolves strictly below it, one level per segment, and each component fits the
    file-system name limit. *)
Theorem fs_key_contained (k : bytes) (depth : nat) (Hk : validate_object_key k = Ok tt)
    (Hf : validate_fs_object_key k = Ok tt) :
  resolve_path depth (split_on (ch "/") (fs_body k)) = Some (depth + length (split_on (ch "/") (fs_body k))) /\
  Forall (λ s, 1 <= length s <= 255) (split_on (ch "/") (fs_body k)).
Proof.
  pose proof (fs_key_safe k Hk Hf) as Hs. split.
  - apply resolve_path_plain. eapply list.Forall_impl; [exact Hs|]. naive_solver.
  - eapply list.Forall_impl; [exact Hs|]. intros s (Hn & Hl & _). cbn. destruct s; [done|]. cbn in *. lia.
Qed.
Lemma fs_key_contained_witness :
  resolve_path 2 (split_on (ch "/") (fs_body (bs "a/b.txt"))) = Some (2 + length (split_on (ch "/") (fs_body (bs "a/b.txt")))).
Proof. apply (fs_key_contained (bs "a/b.txt") 2); vm_compute; reflexivity. Defined.
