(* ===== verification/Listing.v ===== *)
(** Shared range and pagination logic ([src/src/storage/listing.cc], [listing.h]). *)

From S2P Require Import Prelude Bytes Backend.
From Stdlib Require Import ZArith Lia.
From stdpp Require Import base list sets strings sorting.

(** * Byte ranges *)
Definition resolve_range (r : ByteRange) (sz : Z) : result (Z * Z) :=
  if (sz =? 0)%Z then Throw InvalidRange
  else match range_first r with
  | Some f =>
      if (sz <=? f)%Z then Throw InvalidRange
      else let l := match range_last r with Some l => Z.min l (sz - 1) | None => (sz - 1)%Z end in
           if (l <? f)%Z then Throw InvalidRange else Ok (f, l)
  | None =>
      match range_last r with
      | Some n =>
          if (n =? 0)%Z then Throw InvalidRange
          else let f := if (sz <=? n)%Z then 0%Z else (sz - n)%Z in Ok (f, sz - 1)%Z
      | None => Throw InvalidRange
      end
  end.

(** * ListObjects *)

(** [std::lower_bound] / [std::upper_bound] on a sorted range: skip the elements
    below the partition point. *)
Fixpoint drop_while {A} (p : A -> bool) (l : list A) : list A :=
  match l with [] => [] | x :: l' => if p x then drop_while p l' else l end.

Definition lower_bound (keys : list bytes) (v : bytes) : list bytes := drop_while (λ k, bytes_ltb k v) keys.
Definition upper_bound (keys : list bytes) (v : bytes) : list bytes :=
  drop_while (λ k, negb (bytes_ltb v k)) keys.

(** The group of a key: up to the first delimiter behind the prefix. *)
Definition group_of (pfx delim k : bytes) : option bytes :=
  if empty_string delim then None
  else (λ pos, take (pos + length delim) k) <$> find_from delim k (length pfx).

(** The inner [while]: skip the remaining keys of the group; returns the last key
    passed and the rest. *)
Fixpoint skip_group (group last : bytes) (rest : list bytes) : bytes * list bytes :=
  match rest with
  | k :: rest' => if starts_with group k then skip_group group k rest' else (last, rest)
  | [] => (last, [])
  end.

Section apply_listing.
Context (opt : ListOptions) (fetch : bytes -> ObjectMeta).

Definition push_object (m : ObjectMeta) (r : ListResult) : ListResult :=
  mkListResult (objects r ++ [m]) (common_prefixes r) (is_truncated r) (next_token r).
Definition push_prefix (g : bytes) (r : ListResult) : ListResult :=
  mkListResult (objects r) (common_prefixes r ++ [g]) (is_truncated r) (next_token r).
Definition truncate_at (tok : bytes) (r : ListResult) : ListResult :=
  mkListResult (objects r) (common_prefixes r) true tok.

(** The main loop; every round consumes at least one key, so [length keys] rounds
    are enough. *)
Fixpoint listing_loop (fuel : nat) (keys : list bytes) (count : Z) (last_emitted_key : bytes)
    (out : ListResult) : ListResult :=
  match fuel, keys with
  | S f, k :: rest =>
      if negb (starts_with (lo_prefix opt) k) then out
      else if (max_keys opt <=? count)%Z then truncate_at last_emitted_key out
      else match group_of (lo_prefix opt) (lo_delimiter opt) k with
           | Some group =>
               let '(lst, rest') := skip_group group k rest in
               listing_loop f rest' (count + 1) lst (push_prefix group out)
           | None => listing_loop f rest (count + 1) k (push_object (fetch k) out)
           end
  | _, _ => out
  end.

Definition empty_result : ListResult := mkListResult [] [] false [].

Definition selected (keys : list bytes) : list bytes :=
  let it := lower_bound keys (lo_prefix opt) in
  if empty_string (start_after opt) then it else upper_bound it (start_after opt).

Definition apply_listing (keys : list bytes) : ListResult :=
  if (max_keys opt <=? 0)%Z then empty_result
  else let it := selected keys in listing_loop (length it) it 0 [] empty_result.
End apply_listing.

(** ** What a listing denotes

    [items] is the whole (unpaged) listing of a key range: an object, or a group with
    the last key it covers. *)
Inductive item := Obj (k : bytes) | Grp (g last : bytes).

Definition item_objs (l : list item) : list bytes :=
  omap (λ i, match i with Obj k => Some k | Grp _ _ => None end) l.
Definition item_grps (l : list item) : list bytes :=
  omap (λ i, match i with Obj _ => None | Grp g _ => Some g end) l.
Definition item_last (i : item) : bytes := match i with Obj k => k | Grp _ l => l end.

Fixpoint items (pfx delim : bytes) (fuel : nat) (keys : list bytes) : list item :=
  match fuel, keys with
  | S f, k :: rest =>
      if negb (starts_with pfx k) then []
      else match group_of pfx delim k with
           | Some g => let '(lst, rest') := skip_group g k rest in Grp g lst :: items pfx delim f rest'
           | None => Obj k :: items pfx delim f rest
           end
  | _, _ => []
  end.

Definition all_items (opt : ListOptions) (keys : list bytes) : list item :=
  items (lo_prefix opt) (lo_delimiter opt) (length (selected opt keys)) (selected opt keys).

(** A client (or the lifecycle scan) that follows [next_token] until the listing is
    no longer truncated. *)
Definition continue_at (opt : ListOptions) (tok : bytes) : ListOptions :=
  mkListOptions (lo_prefix opt) (lo_delimiter opt) (max_keys opt) tok.

Fixpoint list_pages (fuel : nat) (opt : ListOptions) (fetch : bytes -> ObjectMeta) (keys : list bytes)
    : option (list ObjectMeta * list bytes) :=
  match fuel with
  | O => None
  | S f =>
      let r := apply_listing opt fetch keys in
      if is_truncated r then
        match list_pages f (continue_at opt (next_token r)) fetch keys with
        | Some (os, ps) => Some (objects r ++ os, common_prefixes r ++ ps)
        | None => None
        end
      else Some (objects r, common_prefixes r)
  end.

(** * Range resolution *)

(** A resolved range is a non-empty interval inside the object. *)
Lemma resolve_range_bounds r sz f l :
  (0 <= sz)%Z -> (forall x, range_first r = Some x -> 0 <= x)%Z -> (forall x, range_last r = Some x -> 0 <= x)%Z ->
  resolve_range r sz = Ok (f, l) -> (0 <= f <= l /\ l < sz)%Z.
Proof.
  intros Hs Hf Hl. unfold resolve_range.
  destruct (Z.eqb_spec sz 0); [done|].
  destruct (range_first r) as [a|].
  - specialize (Hf a eq_refl). destruct (Z.leb_spec sz a); [done|].
    destruct (range_last r) as [b|]; case_if; intros [= <- <-]; lia.
  - destruct (range_last r) as [b|]; [|done]. specialize (Hl b eq_refl).
    destruct (Z.eqb_spec b 0); [done|]. intros [= <- <-]. case_if; lia.
Qed.

(** * Grouping lemmas *)

(** A group is a prefix of its key that contains the listing prefix, and every key
    that starts with the group belongs to it. *)
Lemma group_of_spec pfx d k g :
  group_of pfx d k = Some g ->
  g `prefix_of` k /\ (pfx `prefix_of` k -> pfx `prefix_of` g)
  /\ (forall k', g `prefix_of` k' -> group_of pfx d k' = Some g).
Proof.
  unfold group_of, find_from. destruct (empty_string d) eqn:Ed; [done|].
  destruct (Nat.leb_spec (length pfx) (length k)) as [Hn|]; [|done].
  destruct (bfind d (drop (length pfx) k)) as [m|] eqn:Em; [|done]. cbn. intros [= <-].
  pose proof (bfind_spec _ _ _ Em) as [_ Hl]. rewrite length_drop in Hl.
  pose proof (bfind_take _ _ _ Em) as Ht.
  set (n := length pfx) in *. set (g := take (n + m + length d) k).
  assert (length g = n + m + length d) as Hg by (subst g; rewrite length_take; lia).
  split; [apply prefix_take|]. split.
  - intros Hp. apply (prefix_app_short pfx g (drop (n + m + length d) k)); [|lia].
    subst g. by rewrite take_drop.
  - intros k' [t ->]. rewrite length_app.
    destruct (Nat.leb_spec n (length g + length t)); [|lia].
    rewrite drop_app_le by lia.
    assert (bfind d (drop n g) = Some m) as Hb.
    { subst g. rewrite <- Nat.add_assoc, skipn_firstn_comm.
      replace (n + (m + length d) - n)%nat with (m + length d)%nat by lia. done. }
    rewrite (bfind_app_l _ _ t _ Hb). cbn. f_equal. rewrite take_app_le by lia.
    rewrite take_ge; [done|lia].
Qed.

Lemma skip_group_spec g lst0 rest lst rest' :
  skip_group g lst0 rest = (lst, rest') ->
  exists mid, rest = mid ++ rest' /\ Forall (λ k, starts_with g k = true) mid
    /\ list.last (lst0 :: mid) = Some lst
    /\ (forall k, head rest' = Some k -> starts_with g k = false).
Proof.
  revert lst0. induction rest as [|k rest IH]; intros lst0; cbn [skip_group].
  - intros [= <- <-]. exists []. by repeat split.
  - destruct (starts_with g k) eqn:E.
    + intros (mid & -> & Hm & Hl & Hh)%IH. exists (k :: mid). split; [done|].
      split; [by constructor|]. split; [|done]. by rewrite last_cons_cons.
    + intros [= <- <-]. exists []. repeat split; [constructor|]. by intros ? [= <-].
Qed.

Lemma skip_group_length g lst0 rest lst rest' :
  skip_group g lst0 rest = (lst, rest') -> length rest' <= length rest.
Proof. intros (mid & -> & _)%skip_group_spec. rewrite length_app. lia. Qed.

Lemma items_fuel pfx d f keys : length keys <= f -> items pfx d f keys = items pfx d (length keys) keys.
Proof.
  remember (length keys) as n eqn:Hn. revert keys Hn f.
  induction n as [n IH] using lt_wf_ind. intros keys -> f Hf. destruct keys as [|k rest]; [by destruct f|].
  destruct f as [|f]; [cbn in Hf; lia|]. cbn [items length] in *. case_if; [done|].
  destruct (group_of pfx d k) as [g|].
  - destruct (skip_group g k rest) as [lst rest'] eqn:E.
    apply skip_group_length in E. f_equal.
    rewrite (IH (length rest')) by lia. symmetry. apply (IH (length rest')); lia || done.
  - f_equal. apply (IH (length rest)); lia || done.
Qed.

(** [items] with enough rounds. *)
Definition Items (pfx d : bytes) (keys : list bytes) : list item := items pfx d (length keys) keys.

Lemma Items_cons pfx d k rest :
  Items pfx d (k :: rest) =
    if negb (starts_with pfx k) then []
    else match group_of pfx d k with
         | Some g => let '(lst, rest') := skip_group g k rest in Grp g lst :: Items pfx d rest'
         | None => Obj k :: Items pfx d rest
         end.
Proof.
  unfold Items. cbn [length items]. case_if; [done|].
  destruct (group_of pfx d k) as [g|]; [|done].
  destruct (skip_group g k rest) as [lst rest'] eqn:E.
  f_equal. apply items_fuel. by apply skip_group_length in E.
Qed.

(** Induction over the rounds of the loop. *)
Lemma rounds_ind (pfx d : bytes) (P : list bytes -> Prop) :
  P [] ->
  (forall k rest, starts_with pfx k = false -> P (k :: rest)) ->
  (forall k rest, starts_with pfx k = true -> group_of pfx d k = None -> P rest -> P (k :: rest)) ->
  (forall k g mid lst rest', starts_with pfx k = true -> group_of pfx d k = Some g ->
     skip_group g k (mid ++ rest') = (lst, rest') ->
     Forall (λ k, starts_with g k = true) mid -> list.last (k :: mid) = Some lst ->
     P rest' -> P (k :: mid ++ rest')) ->
  forall keys, P keys.
Proof.
  intros H0 H1 H2 H3 keys.
  remember (length keys) as n eqn:Hn. revert keys Hn.
  induction n as [n IH] using lt_wf_ind. intros keys Hn.
  destruct keys as [|k rest]; [done|]. cbn in Hn.
  destruct (starts_with pfx k) eqn:Ek; [|by apply H1].
  destruct (group_of pfx d k) as [g|] eqn:Eg; [|apply H2; try done; apply (IH (length rest)); lia || done].
  destruct (skip_group g k rest) as [lst rest'] eqn:E.
  pose proof (skip_group_spec _ _ _ _ _ E) as (mid & -> & Hm & Hl & _).
  apply (H3 k g mid lst rest'); try done.
  apply (IH (length rest')); [rewrite length_app in Hn; lia|done].
Qed.

(** * One page *)

Lemma take_S_cons {A} n (x : A) l : 0 < n -> take n (x :: l) = x :: take (n - 1) l.
Proof. destruct n; [lia|]. intros _. cbn. by rewrite Nat.sub_0_r. Qed.

Definition page_of (opt : ListOptions) (fetch : bytes -> ObjectMeta) (count : Z) (lst0 : bytes)
    (out : ListResult) (its : list item) : ListResult :=
  let n := Z.to_nat (max_keys opt - count) in
  let pg := take n its in
  let more := (n <? length its)%nat in
  mkListResult (objects out ++ (fetch <$> item_objs pg)) (common_prefixes out ++ item_grps pg)
    more (if more then default lst0 (item_last <$> list.last pg) else next_token out).

Definition push_item (fetch : bytes -> ObjectMeta) (i : item) (out : ListResult) : ListResult :=
  match i with Obj k => push_object (fetch k) out | Grp g _ => push_prefix g out end.

Lemma page_of_nil opt fetch count lst0 out :
  is_truncated out = false -> page_of opt fetch count lst0 out [] = out.
Proof. unfold page_of. rewrite take_nil. cbn. rewrite !app_nil_r. destruct out; cbn. by intros ->. Qed.

Lemma page_of_full opt fetch count lst0 out i its :
  (max_keys opt <= count)%Z -> page_of opt fetch count lst0 out (i :: its) = truncate_at lst0 out.
Proof. intros. unfold page_of. rewrite Z2Nat.nonpos by lia. cbn. by rewrite !app_nil_r. Qed.

Lemma page_of_cons opt fetch count lst0 out i its :
  (count < max_keys opt)%Z ->
  page_of opt fetch count lst0 out (i :: its) =
    page_of opt fetch (count + 1) (item_last i) (push_item fetch i out) its.
Proof.
  intros Hc. unfold page_of. rewrite (take_S_cons (Z.to_nat (max_keys opt - count))) by lia.
  replace (Z.to_nat (max_keys opt - count) - 1)%nat with (Z.to_nat (max_keys opt - (count + 1))) by lia.
  replace (Z.to_nat (max_keys opt - count)) with (S (Z.to_nat (max_keys opt - (count + 1)))) by lia.
  change (S ?n <? length (i :: its))%nat with (n <? length its)%nat.
  rewrite last_cons.
  destruct i; cbn [push_item push_object push_prefix objects common_prefixes next_token item_objs item_grps
    omap list_omap fmap list_fmap]; rewrite <- app_assoc; by destruct (list.last _).
Qed.

Lemma listing_loop_page opt fetch f keys count lst0 out :
  length keys <= f -> is_truncated out = false ->
  listing_loop opt fetch f keys count lst0 out =
    page_of opt fetch count lst0 out (Items (lo_prefix opt) (lo_delimiter opt) keys).
Proof.
  revert f count lst0 out.
  induction keys as [|k rest Hk|k rest Hk Hg IH|k g mid lst rest' Hk Hg Hs Hm Hl IH]
    using (rounds_ind (lo_prefix opt) (lo_delimiter opt)); intros f count lst0 out Hf Ht;
    (destruct f as [|f]; [try (cbn in Hf; lia)|]); cbn [listing_loop];
    rewrite ?Items_cons, ?Hk, ?Hg, ?Hs; cbn [negb]; rewrite ?page_of_nil by done; try done.
  - destruct (Z.leb_spec (max_keys opt) count).
    + by rewrite page_of_full.
    + rewrite page_of_cons by done. apply IH; [cbn in *; lia|done].
  - destruct (Z.leb_spec (max_keys opt) count).
    + by rewrite page_of_full.
    + rewrite page_of_cons by done. apply IH; [cbn in *; rewrite length_app in *; lia|done].
Qed.

(** * Following the token *)

(** The first [n] items cover an initial segment of the keys that ends in the token,
    and the remaining items are the items of what follows it. *)
Lemma Items_split pfx d keys n :
  0 < n <= length (Items pfx d keys) ->
  exists l1 l2 tok, keys = l1 ++ l2 /\ list.last l1 = Some tok /\ tok ∈ l1
    /\ item_last <$> list.last (take n (Items pfx d keys)) = Some tok
    /\ starts_with pfx tok = true
    /\ Items pfx d l2 = drop n (Items pfx d keys).
Proof.
  revert n.
  induction keys as [|k rest Hk|k rest Hk Hg IH|k g mid lst rest' Hk Hg Hs Hm Hl IH]
    using (rounds_ind pfx d); intros n Hn; rewrite ?Items_cons, ?Hk, ?Hg, ?Hs in *; cbn [negb length] in *;
    try (cbn in Hn; lia).
  - destruct (decide (n = 1)) as [->|].
    { exists [k], rest, k. split_and!; try done. set_solver. }
    destruct (IH (n - 1)) as (l1 & l2 & tok & -> & H1 & H2 & H3 & H4 & H5); [lia|].
    exists (k :: l1), l2, tok. rewrite last_cons, H1, take_S_cons, last_cons by lia.
    destruct (list.last (take (n - 1) _)); [|done].
    split_and!; try done; [set_solver|]. rewrite H5. by replace n with (S (n - 1)) at 2 by lia.
  - destruct (decide (n = 1)) as [->|].
    { exists (k :: mid), rest', lst. split_and!; try done; [by apply last_Some_elem_of|].
      apply last_Some in Hl as [l' Hl]. destruct l' as [|? l']; [naive_solver|].
      assert (lst ∈ mid) as Hin by (injection Hl as _ ->; set_solver).
      rewrite list.Forall_forall in Hm. apply Hm in Hin.
      rewrite !starts_with_prefix in *. etrans; [|done]. by eapply group_of_spec. }
    destruct (IH (n - 1)) as (l1 & l2 & tok & -> & H1 & H2 & H3 & H4 & H5); [lia|].
    exists (k :: mid ++ l1), l2, tok. rewrite take_S_cons, !last_cons, last_app, H1 by lia.
    destruct (list.last (take (n - 1) _)); [|done].
    split_and!; try done; [cbn; by rewrite <- app_assoc|set_solver|].
    rewrite H5. by replace n with (S (n - 1)) at 2 by lia.
Qed.

Lemma drop_while_suffix {A} (p : A -> bool) l :
  exists pre, l = pre ++ drop_while p l /\ Forall (λ x, p x = true) pre.
Proof.
  induction l as [|x l (pre & E & Hp)]; cbn; [by exists []|].
  destruct (p x) eqn:Ex; [|by exists []]. exists (x :: pre). split; [by rewrite E at 1|by constructor].
Qed.

Lemma drop_while_app {A} (p : A -> bool) a b :
  Forall (λ x, p x = true) a -> Forall (λ x, p x = false) b -> drop_while p (a ++ b) = b.
Proof.
  intros Ha Hb. induction Ha as [|x a Hx _ IH]; cbn; [|by rewrite Hx].
  destruct Hb as [|y b Hy _]; cbn; [done|by rewrite Hy].
Qed.

Lemma drop_while_compose {A} (p q : A -> bool) l :
  (forall x, p x = true -> q x = true) -> drop_while q (drop_while p l) = drop_while q l.
Proof.
  intros H. induction l as [|x l IH]; cbn; [done|].
  destruct (p x) eqn:E; [by rewrite (H x E)|]. done.
Qed.

(** Restarting behind the token selects exactly the keys not yet covered. *)
Lemma selected_continue opt keys l1 l2 tok :
  StronglySorted bytes_lt keys -> selected opt keys = l1 ++ l2 -> list.last l1 = Some tok ->
  starts_with (lo_prefix opt) tok = true -> tok <> [] ->
  selected (continue_at opt tok) keys = l2.
Proof.
  intros Hs Hsel [l' ->]%last_Some Hp Hne.
  assert (exists pre, keys = (pre ++ l' ++ [tok]) ++ l2) as [pre ->].
  { revert Hsel. unfold selected, lower_bound, upper_bound. case_if; intros Hsel.
    - destruct (drop_while_suffix (λ k, bytes_ltb k (lo_prefix opt)) keys) as (pre & E & _).
      exists pre. by rewrite E, Hsel, !app_assoc.
    - destruct (drop_while_suffix (λ k, bytes_ltb k (lo_prefix opt)) keys) as (pre & E & _).
      destruct (drop_while_suffix (λ k, negb (bytes_ltb (start_after opt) k))
        (drop_while (λ k, bytes_ltb k (lo_prefix opt)) keys)) as (pre2 & E2 & _).
      exists (pre ++ pre2). rewrite E, E2, Hsel. by rewrite !app_assoc. }
  unfold selected, continue_at, lower_bound, upper_bound. cbn [start_after lo_prefix].
  assert (empty_string tok = false) as -> by (by apply bool_decide_false).
  rewrite drop_while_compose; cycle 1.
  { intros x Hx. apply negb_true_iff. apply bytes_le_lt_eq. left. eapply bytes_lt_le_trans; [exact Hx|].
    by apply prefix_le, starts_with_prefix. }
  apply StronglySorted_app in Hs as (Hcross & Hl & _). rewrite app_assoc in Hl.
  apply StronglySorted_app in Hl as (Hpre & _ & _).
  apply drop_while_app.
  - rewrite app_assoc. apply list.Forall_app. split; [|constructor; [|constructor]].
    + apply list.Forall_forall. intros x Hx. apply negb_true_iff, bytes_le_lt_eq. left.
      apply Hpre; [done|set_solver].
    + apply negb_true_iff, bytes_le_lt_eq. by right.
  - apply list.Forall_forall. intros x Hx. apply negb_false_iff. apply Hcross; set_solver.
Qed.

Lemma apply_listing_page opt fetch keys :
  (0 < max_keys opt)%Z ->
  apply_listing opt fetch keys = page_of opt fetch 0 [] empty_result (all_items opt keys).
Proof.
  intros. unfold apply_listing. destruct (Z.leb_spec (max_keys opt) 0); [lia|].
  by apply listing_loop_page.
Qed.

Lemma drop_while_elem {A} (p : A -> bool) l x : x ∈ drop_while p l -> x ∈ l.
Proof.
  intros Hx. destruct (drop_while_suffix p l) as (pre & E & _). rewrite E. apply elem_of_app. by right.
Qed.

Lemma selected_subset opt keys k : k ∈ selected opt keys -> k ∈ keys.
Proof.
  unfold selected, lower_bound, upper_bound. case_if; [apply drop_while_elem|].
  intros Hk. by do 2 apply drop_while_elem in Hk.
Qed.

Lemma item_objs_app a b : item_objs (a ++ b) = item_objs a ++ item_objs b.
Proof. apply omap_app. Qed.
Lemma item_grps_app a b : item_grps (a ++ b) = item_grps a ++ item_grps b.
Proof. apply omap_app. Qed.

(** Following the tokens collects the whole listing, each entry once, in order, and
    takes at most one request per entry plus one. *)
Lemma list_pages_complete fetch keys :
  StronglySorted bytes_lt keys -> [] ∉ keys -> forall f opt,
  (0 < max_keys opt)%Z -> length (all_items opt keys) < f ->
  list_pages f opt fetch keys =
    Some (fetch <$> item_objs (all_items opt keys), item_grps (all_items opt keys)).
Proof.
  intros Hs Hne f. induction f as [|f IH]; intros opt Hm Hf; [lia|].
  cbn [list_pages]. rewrite apply_listing_page by done.
  unfold page_of. rewrite Z.sub_0_r.
  cbn [is_truncated objects common_prefixes next_token empty_result app].
  set (its := all_items opt keys) in *. set (n := Z.to_nat (max_keys opt)).
  destruct (Nat.ltb_spec n (length its)) as [Hlt|Hge].
  - destruct (Items_split (lo_prefix opt) (lo_delimiter opt) (selected opt keys) n)
      as (l1 & l2 & tok & Hk & Hl & Hin & Htok & Hp & Hrest); [unfold Items; fold (all_items opt keys); fold its; lia|].
    unfold Items in Htok. fold (all_items opt keys) in Htok. fold its in Htok. rewrite Htok. cbn [default].
    assert (selected (continue_at opt tok) keys = l2) as Hsel.
    { apply (selected_continue opt keys l1 l2); try done. intros ->. apply Hne, (selected_subset opt).
      rewrite Hk. set_solver. }
    assert (all_items (continue_at opt tok) keys = drop n its) as Hall.
    { unfold all_items. rewrite Hsel. exact Hrest. }
    change (id tok) with tok. rewrite IH; [|done|rewrite Hall, length_drop; lia]. rewrite Hall.
    rewrite <- fmap_app, <- item_objs_app, <- item_grps_app, take_drop. done.
  - by rewrite take_ge by lia.
Qed.

(** ** Contents of a listing *)

(** What the request asks for: keys under the prefix, behind the start point. *)
Definition listed (opt : ListOptions) (k : bytes) : Prop :=
  lo_prefix opt `prefix_of` k /\ (start_after opt = [] \/ bytes_lt (start_after opt) k).

Lemma skip_group_group pfx d k g mid :
  group_of pfx d k = Some g -> Forall (λ k, starts_with g k = true) mid ->
  Forall (λ k, group_of pfx d k = Some g) mid.
Proof.
  intros Hg Hm. eapply list.Forall_impl; [exact Hm|]. intros k' Hk'. cbn in Hk'. apply starts_with_prefix in Hk'.
  by eapply group_of_spec.
Qed.

Lemma Items_objs pfx d keys k :
  Forall (λ k, starts_with pfx k = true) keys ->
  (k ∈ item_objs (Items pfx d keys) <-> k ∈ keys /\ group_of pfx d k = None).
Proof.
  induction keys as [|k0 rest Hk|k0 rest Hk Hg IH|k0 g mid lst rest' Hk Hg Hs Hm Hl IH]
    using (rounds_ind pfx d); rewrite ?Items_cons, ?Hk, ?Hg, ?Hs; cbn [negb]; intros Hf.
  - cbn. set_solver.
  - inversion Hf; congruence.
  - inversion Hf; subst. change (item_objs (Obj k0 :: ?l)) with (k0 :: item_objs l).
    rewrite elem_of_cons, IH by done. split; [set_solver|]. set_solver.
  - inversion Hf as [|? ? _ Hf']; subst. apply list.Forall_app in Hf' as [_ Hf'].
    change (item_objs (Grp g lst :: ?l)) with (item_objs l). rewrite IH by done.
    pose proof (skip_group_group _ _ _ _ _ Hg Hm) as Hgm. rewrite list.Forall_forall in Hgm.
    split; [set_solver|]. intros [Hin Hn]. split; [|done].
    rewrite elem_of_cons, elem_of_app in Hin. destruct Hin as [->|[Hin|?]]; [congruence| |done].
    apply Hgm in Hin. congruence.
Qed.

Lemma Items_grps pfx d keys g :
  Forall (λ k, starts_with pfx k = true) keys ->
  (g ∈ item_grps (Items pfx d keys) <-> exists k, k ∈ keys /\ group_of pfx d k = Some g).
Proof.
  induction keys as [|k0 rest Hk|k0 rest Hk Hg IH|k0 g0 mid lst rest' Hk Hg Hs Hm Hl IH]
    using (rounds_ind pfx d); rewrite ?Items_cons, ?Hk, ?Hg, ?Hs; cbn [negb]; intros Hf.
  - cbn. set_solver.
  - inversion Hf; congruence.
  - inversion Hf; subst. change (item_grps (Obj k0 :: ?l)) with (item_grps l). rewrite IH by done.
    split; [set_solver|]. intros (k & Hin & E). apply elem_of_cons in Hin as [->|]; [congruence|eauto].
  - inversion Hf as [|? ? _ Hf']; subst. apply list.Forall_app in Hf' as [_ Hf'].
    change (item_grps (Grp g0 lst :: ?l)) with (g0 :: item_grps l). rewrite elem_of_cons, IH by done.
    pose proof (skip_group_group _ _ _ _ _ Hg Hm) as Hgm. rewrite list.Forall_forall in Hgm.
    split; [intros [->|(k & ? & ?)]; [exists k0|exists k]; set_solver|].
    intros (k & Hin & E). rewrite elem_of_cons, elem_of_app in Hin.
    destruct Hin as [->|[Hin|?]]; [left; congruence| |eauto].
    apply Hgm in Hin. left. congruence.
Qed.

Lemma skip_group_app g lst0 rest lst rest' tail :
  skip_group g lst0 rest = (lst, rest') ->
  (forall k, head tail = Some k -> starts_with g k = false) ->
  skip_group g lst0 (rest ++ tail) = (lst, rest' ++ tail).
Proof.
  revert lst0. induction rest as [|k rest IH]; intros lst0; cbn [skip_group app].
  - intros [= <- <-] Ht. destruct tail as [|k tail]; [done|]. cbn. by rewrite Ht.
  - case_if; [by apply IH|]. by intros [= <- <-].
Qed.

(** Keys behind the prefix range do not matter. *)
Lemma Items_run pfx d run tail :
  Forall (λ k, starts_with pfx k = true) run ->
  (forall k, head tail = Some k -> starts_with pfx k = false) ->
  Items pfx d (run ++ tail) = Items pfx d run.
Proof.
  intros Hr Ht. revert Hr.
  induction run as [|k rest Hk|k rest Hk Hg IH|k g mid lst rest' Hk Hg Hs Hm Hl IH]
    using (rounds_ind pfx d); intros Hr.
  - destruct tail as [|k tail]; [done|]. cbn [app]. rewrite Items_cons, Ht by done. done.
  - inversion Hr; congruence.
  - inversion Hr; subst. change ((k :: rest) ++ tail) with (k :: (rest ++ tail)).
    rewrite !Items_cons, Hk, Hg, IH by done. done.
  - inversion Hr as [|? ? _ Hr']; subst. apply list.Forall_app in Hr' as [_ Hr'].
    change ((k :: mid ++ rest') ++ tail) with (k :: ((mid ++ rest') ++ tail)).
    rewrite !Items_cons, Hk, Hg, Hs. cbn [negb].
    rewrite (skip_group_app _ _ _ _ _ tail Hs); [by rewrite IH|].
    intros k' Hk'. apply Ht in Hk'. apply starts_with_false. apply starts_with_false in Hk'.
    intros Hc. apply Hk'. etrans; [|done]. eapply group_of_spec; [done|]. by apply starts_with_prefix.
Qed.

Lemma StronglySorted_suffix (pre l : list bytes) :
  StronglySorted bytes_lt (pre ++ l) -> StronglySorted bytes_lt l.
Proof. rewrite StronglySorted_app. naive_solver. Qed.

(** The keys under a prefix are an initial run of a sorted list whose elements are
    not below the prefix. *)
Lemma prefix_run pfx l :
  StronglySorted bytes_lt l -> Forall (λ k, bytes_le pfx k) l ->
  exists run tail, l = run ++ tail /\ Forall (λ k, starts_with pfx k = true) run
    /\ Forall (λ k, starts_with pfx k = false) tail.
Proof.
  intros Hs Hle. induction l as [|k l IH]; [by exists [], []|].
  inversion Hs as [|? ? Hs' Hall]; inversion Hle; subst.
  destruct (starts_with pfx k) eqn:E.
  - destruct IH as (run & tail & -> & ? & ?); [done..|]. exists (k :: run), tail. by repeat constructor.
  - exists [], (k :: l). split; [done|]. split; [constructor|]. constructor; [done|].
    apply list.Forall_forall. intros x Hx. apply starts_with_false. intros Hp.
    apply starts_with_false in E. apply E. apply (prefix_between pfx pfx k x); [done|done|done|].
    rewrite list.Forall_forall in Hall. apply bytes_le_lt_eq. left. by apply Hall.
Qed.

Lemma lower_bound_spec keys v :
  StronglySorted bytes_lt keys ->
  StronglySorted bytes_lt (lower_bound keys v)
  /\ forall k, k ∈ lower_bound keys v <-> k ∈ keys /\ bytes_le v k.
Proof.
  intros Hs. unfold lower_bound. induction Hs as [|k keys Hs IH Hall]; cbn [drop_while].
  { split; [constructor|]. set_solver. }
  destruct (bytes_ltb k v) eqn:E.
  - split; [apply IH|]. intros k'. rewrite (proj2 IH k'), elem_of_cons.
    split; [naive_solver|]. intros [[->|?] Hle]; [|done]. exfalso. by apply bytes_lt_not_le in Hle.
  - split; [by constructor|]. intros k'. rewrite elem_of_cons.
    split; [|naive_solver]. intros Hk'. split; [done|]. destruct Hk' as [->|Hk']; [done|].
    rewrite list.Forall_forall in Hall. trans k; [done|]. apply bytes_le_lt_eq. left. by apply Hall.
Qed.

Lemma upper_bound_spec keys v :
  StronglySorted bytes_lt keys ->
  StronglySorted bytes_lt (upper_bound keys v)
  /\ forall k, k ∈ upper_bound keys v <-> k ∈ keys /\ bytes_lt v k.
Proof.
  intros Hs. unfold upper_bound. induction Hs as [|k keys Hs IH Hall]; cbn [drop_while].
  { split; [constructor|]. set_solver. }
  destruct (negb (bytes_ltb v k)) eqn:E; bool_prop.
  - split; [apply IH|]. intros k'. rewrite (proj2 IH k'), elem_of_cons.
    split; [naive_solver|]. intros [[->|?] Hlt]; [|done]. unfold bytes_lt in Hlt. congruence.
  - split; [by constructor|]. intros k'. rewrite elem_of_cons.
    split; [|naive_solver]. intros Hk'. split; [done|]. destruct Hk' as [->|Hk']; [done|].
    rewrite list.Forall_forall in Hall. trans k; [done|]. by apply Hall.
Qed.

Lemma selected_spec opt keys :
  StronglySorted bytes_lt keys ->
  StronglySorted bytes_lt (selected opt keys)
  /\ forall k, k ∈ selected opt keys <->
       k ∈ keys /\ bytes_le (lo_prefix opt) k /\ (start_after opt = [] \/ bytes_lt (start_after opt) k).
Proof.
  intros Hs. destruct (lower_bound_spec keys (lo_prefix opt) Hs) as [Hs1 H1].
  unfold selected. destruct (empty_string (start_after opt)) eqn:E.
  - apply bool_decide_eq_true in E. split; [done|]. intros k. rewrite H1. naive_solver.
  - destruct (upper_bound_spec _ (start_after opt) Hs1) as [Hs2 H2]. split; [done|].
    intros k. rewrite H2, H1. apply bool_decide_eq_false in E. naive_solver.
Qed.

(** The run of selected keys under the prefix: exactly the listed keys. *)
Lemma listing_run opt keys :
  StronglySorted bytes_lt keys ->
  exists run, StronglySorted bytes_lt run
    /\ Forall (λ k, starts_with (lo_prefix opt) k = true) run
    /\ (forall k, k ∈ run <-> k ∈ keys /\ listed opt k)
    /\ all_items opt keys = Items (lo_prefix opt) (lo_delimiter opt) run.
Proof.
  intros Hs. destruct (selected_spec opt keys Hs) as [Hsel Hin].
  destruct (prefix_run (lo_prefix opt) (selected opt keys)) as (run & tail & E & Hr & Ht); [done| |].
  { apply list.Forall_forall. intros k Hk. by apply Hin in Hk as (_ & ? & _). }
  exists run. unfold all_items. fold (Items (lo_prefix opt) (lo_delimiter opt) (selected opt keys)).
  rewrite E. split_and!; [|done| |].
  - rewrite E in Hsel. apply StronglySorted_app in Hsel. naive_solver.
  - intros k. rewrite list.Forall_forall in Hr, Ht. unfold listed. rewrite <- starts_with_prefix. split.
    + intros Hk. pose proof (proj1 (Hin k)) as H. rewrite E in H. specialize (H ltac:(set_solver)).
      split; [naive_solver|]. split; [by apply Hr|naive_solver].
    + intros (Hk & Hp & Ha). assert (k ∈ selected opt keys) as Hks.
      { apply Hin. split_and!; [done| |done]. by apply prefix_le, starts_with_prefix. }
      rewrite E, elem_of_app in Hks. destruct Hks as [?|Hk2]; [done|]. apply Ht in Hk2. congruence.
  - apply Items_run; [done|]. intros k Hk. rewrite list.Forall_forall in Ht.
    apply Ht. destruct tail; [done|]. injection Hk as ->. set_solver.
Qed.

Lemma Items_objs_sublist pfx d keys : item_objs (Items pfx d keys) `sublist_of` keys.
Proof.
  induction keys as [|k rest Hk|k rest Hk Hg IH|k g mid lst rest' Hk Hg Hs Hm Hl IH]
    using (rounds_ind pfx d); rewrite ?Items_cons, ?Hk, ?Hg, ?Hs; cbn [negb].
  - done.
  - apply sublist_nil_l.
  - by apply sublist_skip.
  - apply sublist_cons, sublist_inserts_l. done.
Qed.

Lemma Items_grps_NoDup pfx d keys :
  StronglySorted bytes_lt keys -> Forall (λ k, starts_with pfx k = true) keys ->
  NoDup (item_grps (Items pfx d keys)).
Proof.
  induction keys as [|k rest Hk|k rest Hk Hg IH|k g mid lst rest' Hk Hg Hs Hm Hl IH]
    using (rounds_ind pfx d); rewrite ?Items_cons, ?Hk, ?Hg, ?Hs; cbn [negb]; intros Hsort Hf.
  - constructor.
  - constructor.
  - inversion Hsort; inversion Hf; subst. by apply IH.
  - inversion Hsort as [|? ? Hsort' Hall]; inversion Hf as [|? ? _ Hf']; subst.
    apply list.Forall_app in Hf' as [_ Hf']. pose proof (StronglySorted_suffix _ _ Hsort') as Hsr.
    change (item_grps (Grp g lst :: ?l)) with (g :: item_grps l). constructor; [|by apply IH].
    rewrite Items_grps by done. intros (k' & Hin & Hg').
    apply skip_group_spec in Hs as (_ & _ & _ & _ & Hh).
    destruct rest' as [|h rest']; [set_solver|]. specialize (Hh h eq_refl). apply starts_with_false in Hh.
    apply Hh. apply group_of_spec in Hg as (Hgk & _), Hg' as (Hgk' & _).
    rewrite list.Forall_forall in Hall.
    apply (prefix_between g k h k'); [done|done| |].
    + apply bytes_le_lt_eq. left. apply Hall. set_solver.
    + apply bytes_le_lt_eq. apply elem_of_cons in Hin as [->|Hin]; [by right|left].
      inversion Hsr as [|? ? _ Hall2]; subst. rewrite list.Forall_forall in Hall2. by apply Hall2.
Qed.

(** The groups come in ascending order. *)
Lemma Items_grps_sorted pfx d keys :
  StronglySorted bytes_lt keys -> Forall (λ k, starts_with pfx k = true) keys ->
  StronglySorted bytes_lt (item_grps (Items pfx d keys)).
Proof.
  induction keys as [|k rest Hk|k rest Hk Hg IH|k g mid lst rest' Hk Hg Hs Hm Hl IH] using (rounds_ind pfx d);
    intros Hsort Hf; [constructor|by rewrite Items_cons, Hk; constructor| |].
  - rewrite Items_cons, Hk, Hg. cbn [negb]. inversion Hsort; inversion Hf; subst. by apply IH.
  - pose proof (Items_grps_NoDup pfx d _ Hsort Hf) as Hnd. rewrite Items_cons, Hk, Hg, Hs in *. cbn [negb] in *.
    change (item_grps (Grp g lst :: ?l)) with (g :: item_grps l) in *. apply list.NoDup_cons in Hnd as [Hnin _].
    inversion Hsort as [|? ? Hsort' Hall]; inversion Hf as [|? ? _ Hf']; subst.
    apply list.Forall_app in Hf' as [_ Hf']. constructor; [by apply IH; [eapply StronglySorted_suffix|]|].
    apply list.Forall_forall. intros g' Hg'. apply bytes_lt_not_le. intros Hle. apply Hnin.
    pose proof Hg' as (k' & Hin & Hk')%Items_grps; [|done].
    apply group_of_spec in Hk' as (Hgk' & _ & Huniq). pose proof Hg as (Hgk & _ & _)%group_of_spec.
    rewrite list.Forall_forall in Hall. pose proof (Hall k' ltac:(set_solver)) as Hlt.
    assert (g' `prefix_of` g) as Hp.
    { apply (prefix_between g' g' g k'); [done|done|done|]. trans k; [by apply prefix_le|]. apply bytes_le_lt_eq. by left. }
    assert (g' = g) as <-; [|done]. rewrite (Huniq k) in Hg by (by etrans). congruence.
Qed.

Lemma StronglySorted_sublist (l l' : list bytes) :
  l `sublist_of` l' -> StronglySorted bytes_lt l' -> StronglySorted bytes_lt l.
Proof.
  induction 1 as [|x l l' Hsub IH|x l l' Hsub IH]; intros Hs; [constructor| |];
    apply StronglySorted_inv in Hs as [Hs Hall]; [|by apply IH].
  constructor; [by apply IH|]. apply list.Forall_forall. intros y Hy. rewrite list.Forall_forall in Hall.
  apply Hall. by eapply elem_of_sublist.
Qed.

Lemma StronglySorted_lt_NoDup l : StronglySorted bytes_lt l -> NoDup l.
Proof.
  induction 1 as [|x l Hs IH Hall]; constructor; [|done].
  intros Hin. rewrite list.Forall_forall in Hall. apply Hall in Hin. by apply irreflexivity in Hin; [|apply _].
Qed.

Lemma listing_contents opt keys :
  StronglySorted bytes_lt keys ->
  (forall k, k ∈ item_objs (all_items opt keys) <->
     k ∈ keys /\ listed opt k /\ group_of (lo_prefix opt) (lo_delimiter opt) k = None) /\
  (forall g, g ∈ item_grps (all_items opt keys) <->
     exists k, k ∈ keys /\ listed opt k /\ group_of (lo_prefix opt) (lo_delimiter opt) k = Some g) /\
  StronglySorted bytes_lt (item_objs (all_items opt keys)) /\ StronglySorted bytes_lt (item_grps (all_items opt keys)).
Proof.
  intros Hs. destruct (listing_run opt keys Hs) as (run & Hsr & Hr & Hin & ->). split_and!.
  - intros k. rewrite Items_objs, Hin by done. naive_solver.
  - intros g. rewrite Items_grps by done. setoid_rewrite Hin. naive_solver.
  - eapply StronglySorted_sublist; [apply Items_objs_sublist|done].
  - by apply Items_grps_sorted.
Qed.

(** * Multipart listings *)

Definition part_empty : ListPartsResult := mkListPartsResult [] false 0.

(** The loop of [apply_parts_page]; [out] holds the parts emitted so far. *)
Fixpoint parts_loop (opt : ListPartsOptions) (sorted : list PartMeta) (out : list PartMeta) : ListPartsResult :=
  match sorted with
  | [] => mkListPartsResult out false 0
  | p :: rest =>
      if (pm_part_no p <=? part_number_marker opt)%Z then parts_loop opt rest out
      else if (max_parts opt <=? Z.of_nat (length out))%Z
      then mkListPartsResult out true (match list.last out with Some q => pm_part_no q | None => 0%Z end)
      else parts_loop opt rest (out ++ [p])
  end.

Definition apply_parts_page (sorted : list PartMeta) (opt : ListPartsOptions) : ListPartsResult :=
  if (max_parts opt <=? 0)%Z then part_empty else parts_loop opt sorted [].

(** The cursor of the uploads listing is the pair (key, upload id). *)
Definition upload_after_marker (u : UploadInfo) (opt : ListUploadsOptions) : bool :=
  if empty_string (key_marker opt) && empty_string (upload_id_marker opt) then true
  else if negb (bool_decide (ui_key u = key_marker opt)) then bytes_ltb (key_marker opt) (ui_key u)
  else if empty_string (upload_id_marker opt) then false
  else bytes_ltb (upload_id_marker opt) (ui_upload_id u).

(** Skip the remaining uploads of a group; the last one passed and the rest. *)
Fixpoint skip_uploads (group : bytes) (last : UploadInfo) (rest : list UploadInfo) : UploadInfo * list UploadInfo :=
  match rest with
  | u :: rest' => if starts_with group (ui_key u) then skip_uploads group u rest' else (last, rest)
  | [] => (last, [])
  end.

(** The loop of [apply_uploads_page]: [ups], [grps] and the cursor so far. *)
Fixpoint uploads_loop (opt : ListUploadsOptions) (fuel : nat) (sorted : list UploadInfo)
    (ups : list UploadInfo) (grps : list bytes) (km um : bytes) : ListUploadsResult :=
  match fuel, sorted with
  | S f, u :: rest =>
      if negb (starts_with (lu_prefix opt) (ui_key u)) then uploads_loop opt f rest ups grps km um
      else if negb (upload_after_marker u opt) then uploads_loop opt f rest ups grps km um
      else if (max_uploads opt <=? Z.of_nat (length ups + length grps))%Z
      then mkListUploadsResult ups grps true km um
      else match group_of (lu_prefix opt) (lu_delimiter opt) (ui_key u) with
           | Some group =>
               let '(l, rest') := skip_uploads group u rest in
               uploads_loop opt f rest' ups (grps ++ [group]) (ui_key l) (ui_upload_id l)
           | None => uploads_loop opt f rest (ups ++ [u]) grps (ui_key u) (ui_upload_id u)
           end
  | _, _ => mkListUploadsResult ups grps false [] []
  end.

Definition apply_uploads_page (sorted : list UploadInfo) (opt : ListUploadsOptions) : ListUploadsResult :=
  if (max_uploads opt <=? 0)%Z then mkListUploadsResult [] [] false [] []
  else uploads_loop opt (length sorted) sorted [] [] [] [].

(** ** Parts pagination *)

Definition parts_after (m : Z) (l : list PartMeta) : list PartMeta :=
  List.filter (λ p, (m <? pm_part_no p)%Z) l.

Lemma parts_loop_page opt sorted out :
  (Z.of_nat (length out) <= max_parts opt)%Z ->
  let rest := parts_after (part_number_marker opt) sorted in
  let n := (Z.to_nat (max_parts opt) - length out)%nat in
  parts_loop opt sorted out =
    mkListPartsResult (out ++ take n rest) (n <? length rest)%nat
      (if (n <? length rest)%nat
       then match list.last (out ++ take n rest) with Some q => pm_part_no q | None => 0%Z end else 0%Z).
Proof.
  cbv zeta. revert out. induction sorted as [|p sorted IH]; intros out Ho; cbn [parts_loop parts_after List.filter].
  - rewrite take_nil, app_nil_r. cbn. done.
  - destruct (Z.leb_spec (pm_part_no p) (part_number_marker opt)) as [Hp|Hp].
    + destruct (Z.ltb_spec (part_number_marker opt) (pm_part_no p)); [lia|]. by apply IH.
    + destruct (Z.ltb_spec (part_number_marker opt) (pm_part_no p)); [|lia].
      destruct (Z.leb_spec (max_parts opt) (Z.of_nat (length out))) as [Hm|Hm].
      * replace (Z.to_nat (max_parts opt) - length out)%nat with 0 by lia. cbn. by rewrite app_nil_r.
      * rewrite IH by (rewrite length_app; cbn; lia). fold (parts_after (part_number_marker opt) sorted).
        rewrite length_app. cbn [length].
        replace (Z.to_nat (max_parts opt) - length out)%nat
          with (S (Z.to_nat (max_parts opt) - (length out + 1)))%nat by lia.
        cbn [take]. change (S ?n <? S ?m)%nat with (n <? m)%nat. by rewrite <- !app_assoc.
Qed.

(** The loop of a client over [list_parts]. *)
Fixpoint parts_pages (fuel : nat) (opt : ListPartsOptions) (sorted : list PartMeta) : option (list PartMeta) :=
  match fuel with
  | O => None
  | S f =>
      let r := apply_parts_page sorted opt in
      if lp_is_truncated r
      then app (lp_parts r) <$> parts_pages f (mkListPartsOptions (max_parts opt) (next_part_number_marker r)) sorted
      else Some (lp_parts r)
  end.

Definition part_lt (p q : PartMeta) : Prop := (pm_part_no p < pm_part_no q)%Z.

Lemma filter_filter_impl {A} (p q : A -> bool) l :
  (forall x, p x = true -> q x = true) -> List.filter p (List.filter q l) = List.filter p l.
Proof.
  intros H. induction l as [|x l IH]; cbn; [done|].
  destruct (q x) eqn:Eq; cbn; [by rewrite IH|].
  destruct (p x) eqn:Ep; [apply H in Ep; congruence|done].
Qed.

Lemma StronglySorted_filter {A} (R : relation A) (p : A -> bool) l :
  StronglySorted R l -> StronglySorted R (List.filter p l).
Proof.
  induction 1 as [|x l Hs IH Hall]; cbn; [constructor|].
  destruct (p x); [|done]. constructor; [done|]. rewrite list.Forall_forall in *.
  intros y [Hy _]%list_elem_of_In%filter_In. apply Hall. by apply list_elem_of_In.
Qed.

(** Cutting an ascending list at its last element kept. *)
Lemma parts_after_take l n q :
  StronglySorted part_lt l -> list.last (take n l) = Some q ->
  List.filter (λ p, (pm_part_no q <? pm_part_no p)%Z) l = drop n l.
Proof.
  intros Hs [l' Hq]%last_Some. rewrite <- (take_drop n l), Hq in Hs. rewrite <- (take_drop n l) at 1.
  rewrite Hq, List.filter_app. apply StronglySorted_app in Hs as (Hcross & Hl & _).
  apply StronglySorted_app in Hl as (Hpre & _ & _).
  assert (List.filter (λ p, (pm_part_no q <? pm_part_no p)%Z) (l' ++ [q]) = []) as ->.
  { destruct (List.filter _ (l' ++ [q])) as [|x f] eqn:E; [done|]. exfalso.
    assert (In x (x :: f)) as Hx by (by left). rewrite <- E in Hx. apply filter_In in Hx as [Hx Hlt].
    apply list_elem_of_In, elem_of_app in Hx. apply Z.ltb_lt in Hlt.
    destruct Hx as [Hx|Hx]; [specialize (Hpre x q Hx ltac:(set_solver)); unfold part_lt in Hpre; lia|].
    apply list_elem_of_singleton in Hx as ->. lia. }
  cbn. clear Hpre. revert Hcross. generalize (drop n l) as d. intros d Hcross.
  induction d as [|x d IH]; cbn; [done|].
  assert ((pm_part_no q <? pm_part_no x)%Z = true) as ->.
  { apply Z.ltb_lt. apply (Hcross q x); set_solver. }
  f_equal. apply IH. intros a b Ha Hb. apply Hcross; set_solver.
Qed.

Lemma parts_pages_complete sorted :
  StronglySorted part_lt sorted -> forall f opt,
  (0 < max_parts opt)%Z -> length (parts_after (part_number_marker opt) sorted) < f ->
  parts_pages f opt sorted = Some (parts_after (part_number_marker opt) sorted).
Proof.
  intros Hs f. induction f as [|f IH]; intros opt Hm Hf; [lia|].
  cbn [parts_pages]. unfold apply_parts_page. destruct (Z.leb_spec (max_parts opt) 0); [lia|].
  pose proof (parts_loop_page opt sorted [] ltac:(cbn; lia)) as Hp. cbv zeta in Hp. rewrite Hp. clear Hp.
  cbn [length app lp_is_truncated lp_parts next_part_number_marker]. rewrite Nat.sub_0_r.
  set (rest := parts_after (part_number_marker opt) sorted) in *. set (n := Z.to_nat (max_parts opt)).
  destruct (Nat.ltb_spec n (length rest)) as [Hlt|]; [|by rewrite take_ge by lia].
  destruct (list.last (take n rest)) as [q|] eqn:Eq; cycle 1.
  { apply last_None in Eq. apply (f_equal length) in Eq. rewrite length_take in Eq. cbn in Eq. lia. }
  assert (StronglySorted part_lt rest) as Hsr by (by apply StronglySorted_filter).
  pose proof (parts_after_take rest n q Hsr Eq) as Hd.
  assert (parts_after (pm_part_no q) sorted = drop n rest) as Hd2.
  { rewrite <- Hd. subst rest. unfold parts_after. symmetry. apply filter_filter_impl.
    intros x Hx%Z.ltb_lt. apply Z.ltb_lt.
    assert (q ∈ parts_after (part_number_marker opt) sorted) as Hq.
    { apply (last_Some_elem_of) in Eq. by apply elem_of_take in Eq as (? & ? & _); apply list_elem_of_lookup; eauto. }
    apply list_elem_of_In, filter_In in Hq as [_ Hq]. apply Z.ltb_lt in Hq. lia. }
  rewrite IH; cbn [max_parts part_number_marker]; [|done|rewrite Hd2, length_drop; lia].
  rewrite Hd2. cbn. by rewrite take_drop.
Qed.

(** * Theorems *)
Lemma Items_length pfx d keys : length (Items pfx d keys) <= length keys.
Proof.
  remember (length keys) as n eqn:Hn. assert (length keys <= n) as Hle by lia. clear Hn. revert keys Hle.
  induction n as [|n IH]; intros keys Hle; [by destruct keys; [|cbn in Hle; lia]|].
  destruct keys as [|k rest]; [cbn; lia|]. rewrite Items_cons. cbn in Hle. case_if; [cbn; lia|].
  destruct (group_of pfx d k) as [g|]; [|cbn; specialize (IH rest ltac:(lia)); lia].
  destruct (skip_group g k rest) as [lst rest'] eqn:E.
  assert (length rest' <= length rest) as Hr; [|cbn; specialize (IH rest' ltac:(lia)); lia].
  clear -E. revert k lst rest' E. induction rest as [|x rest IH]; intros k lst rest' E; cbn in E.
  - by injection E as <- <-.
  - destruct (starts_with g x); [apply IH in E; cbn; lia|]. injection E as <- <-. done.
Qed.

Lemma selected_length opt keys : length (selected opt keys) <= length keys.
Proof.
  assert (forall (p : bytes -> bool) l, length (drop_while p l) <= length l) as Hd.
  { intros p l. induction l as [|x l IH]; cbn; [done|]. case_if; cbn; lia. }
  unfold selected, lower_bound, upper_bound. case_if; [apply Hd|]. etrans; [apply Hd|apply Hd].
Qed.

Lemma listing_pages (fetch : bytes -> ObjectMeta) keys opt :
  StronglySorted bytes_lt keys -> [] ∉ keys -> (0 < max_keys opt)%Z ->
  exists objs grps, list_pages (S (length keys)) opt fetch keys = Some (fetch <$> objs, grps) /\
    (forall k, k ∈ objs <-> k ∈ keys /\ listed opt k /\ group_of (lo_prefix opt) (lo_delimiter opt) k = None) /\
    (forall g, g ∈ grps <-> exists k, k ∈ keys /\ listed opt k /\ group_of (lo_prefix opt) (lo_delimiter opt) k = Some g) /\
    StronglySorted bytes_lt objs /\ StronglySorted bytes_lt grps.
Proof.
  intros Hsorted Hne Hmax.
  exists (item_objs (all_items opt keys)), (item_grps (all_items opt keys)). split.
  - apply list_pages_complete; try done. pose proof (selected_length opt keys).
    pose proof (Items_length (lo_prefix opt) (lo_delimiter opt) (selected opt keys)). unfold all_items, Items in *. lia.
  - by apply listing_contents.
Qed.

(** C10: Paging through a listing is exact: for any prefix, delimiter, start marker and
    positive page size, following the continuation tokens over a sorted key set ends
    within one request per key plus one, and the pages together hold every key under the
    prefix and after the marker exactly once (unless it falls into a common prefix), and
    every common prefix exactly once, each object fetched from its own key; the keys and
    the common prefixes come in strictly ascending byte order across the pages. *)
Theorem listing_pages_exact (fetch : bytes -> ObjectMeta) (keys : list bytes) (opt : ListOptions)
    (Hsorted : StronglySorted bytes_lt keys) (Hne : [] ∉ keys) (Hmax : (0 < max_keys opt)%Z) :
  exists objs grps, list_pages (S (length keys)) opt fetch keys = Some (fetch <$> objs, grps) /\
    (forall k, k ∈ objs <-> k ∈ keys /\ listed opt k /\ group_of (lo_prefix opt) (lo_delimiter opt) k = None) /\
    (forall g, g ∈ grps <-> exists k, k ∈ keys /\ listed opt k /\ group_of (lo_prefix opt) (lo_delimiter opt) k = Some g) /\
    StronglySorted bytes_lt objs /\ StronglySorted bytes_lt grps.
Proof. by apply listing_pages. Qed.
Definition demo_keys : list bytes := [bs "a"; bs "b/1"; bs "b/2"; bs "c"].
Lemma demo_keys_sorted : StronglySorted bytes_lt demo_keys.
Proof. repeat constructor. Qed.
Lemma listing_pages_exact_witness :
  exists objs grps, list_pages 5 (mkListOptions [] (bs "/") 1 []) (λ k, set_okey k default_meta) demo_keys
    = Some ((λ k, set_okey k default_meta) <$> objs, grps) /\ StronglySorted bytes_lt objs.
Proof.
  destruct (listing_pages_exact (λ k, set_okey k default_meta) demo_keys (mkListOptions [] (bs "/") 1 []))
    as (objs & grps & H & _ & _ & Hn & _).
  - apply demo_keys_sorted.
  - vm_compute. set_solver.
  - reflexivity.
  - exists objs, grps. split; [exact H|exact Hn].
Defined.

(** Paging through the parts of an upload is exact: following the part-number
    markers returns every part after the marker once, in order. *)
Theorem parts_paging_exact (sorted : list PartMeta) (opt : ListPartsOptions) (f : nat)
    (Hsorted : StronglySorted part_lt sorted) (Hmax : (0 < max_parts opt)%Z)
    (Hf : length (parts_after (part_number_marker opt) sorted) < f) :
  parts_pages f opt sorted = Some (parts_after (part_number_marker opt) sorted).
Proof. by apply parts_pages_complete. Qed.
Lemma parts_paging_exact_witness :
  parts_pages 3 (mkListPartsOptions 1 0) [mkPartMeta 1 5 [] 0 [] []; mkPartMeta 4 6 [] 0 [] []]
  = Some [mkPartMeta 1 5 [] 0 [] []; mkPartMeta 4 6 [] 0 [] []].
Proof.
  apply (parts_paging_exact [mkPartMeta 1 5 [] 0 [] []; mkPartMeta 4 6 [] 0 [] []] (mkListPartsOptions 1 0) 3).
  - repeat constructor.
  - reflexivity.
  - vm_compute. lia.
Defined.
