(* ===== verification/Multipart.v ===== *)
(** Backend-agnostic multipart helpers ([src/src/storage/multipart.cc], [multipart.h]). *)

From S2P Require Import Prelude Bytes Util Checksum Backend Validate.
From Stdlib Require Import ZArith Lia.
From stdpp Require Import base list sets strings sorting.
Import Hex Crc Base64.

Definition kMaxParts : Z := 10000.

(** [new_upload_id]: the argument is what [getentropy] produced for the 16 bytes,
    [None] when it failed. *)
Definition new_upload_id (entropy : option bytes) : result bytes :=
  match entropy with
  | None => Throw InternalError
  | Some e => Ok (to_hex e)
  end.

Definition is_valid_upload_id (id : bytes) : bool :=
  if negb (length id =? 32)%nat then false
  else forallb (λ c, is_digit c || in_range (ch "a") (ch "f") c) id.

Definition strip_etag_quotes (e : bytes) : bytes :=
  if (2 <=? length e)%nat && bool_decide (head e = Some dquote) && bool_decide (last e = Some dquote)
  then substr e 1 (length e - 2) else e.

(** The loop of [validate_part_order]. *)
Fixpoint part_order_loop (prev : Z) (parts : list PartInfo) : result unit :=
  match parts with
  | [] => Ok tt
  | p :: rest =>
      if (pi_part_no p <=? prev)%Z then Throw InvalidPartOrder else part_order_loop (pi_part_no p) rest
  end.

Definition validate_part_order (parts : list PartInfo) : result unit :=
  if bool_decide (parts = []) then Throw InvalidPart else part_order_loop 0 parts.

Definition validate_part_number (part_no : Z) : result unit :=
  throw_if ((part_no <? 1)%Z || (10000 <? part_no)%Z) InvalidArgument.

Record PartDigest := mkPartDigest { pd_algorithm : bytes; pd_value : bytes }.

Section digests.
(** OpenSSL digests: MD5 in hexadecimal, SHA-1 and SHA-256 raw. *)
Context (md5_hex sha1 sha256 : bytes -> bytes).

Definition combined_etag (part_md5_hex : list bytes) : bytes :=
  md5_hex (concat (from_hex <$> part_md5_hex)) ++ bs "-" ++ to_string (Z.of_nat (length part_md5_hex)).

(** Decoding loop of [composite_checksum]: the first digest fixes the length. *)
Fixpoint concat_digests (digest_len : nat) (values : list bytes) : option bytes :=
  match values with
  | [] => Some []
  | b64 :: rest =>
      raw ← base64_decode b64;
      let digest_len' := if (digest_len =? 0)%nat then length raw else digest_len in
      if negb (length raw =? digest_len')%nat || (digest_len' =? 0)%nat then None
      else app raw <$> concat_digests digest_len' rest
  end.

(** [for (s = 24; s >= 0; s -= 8) out.push_back(char((crc >> s) & 0xff))] *)
Definition be32 (crc : Z) : bytes := (λ s, zb (Z.land (Z.shiftr crc s) 255)) <$> [24; 16; 8; 0]%Z.

Definition composite_checksum (algorithm : bytes) (values : list bytes) : option bytes :=
  if bool_decide (values = []) then None
  else
    cat ← concat_digests 0 values;
    out ← (if bool_decide (algorithm = bs "SHA1") then Some (sha1 cat)
           else if bool_decide (algorithm = bs "SHA256") then Some (sha256 cat)
           else if bool_decide (algorithm = bs "CRC32") then Some (be32 (crc32_update 0 cat))
           else if bool_decide (algorithm = bs "CRC32C") then Some (be32 (crc32c_update 0 cat))
           else None);
    Some (base64_encode out ++ bs "-" ++ to_string (Z.of_nat (length values))).

(** Every part must carry a value under the algorithm of the first one. *)
Definition digests_uniform (parts : list PartDigest) : bool :=
  match parts with
  | [] => false
  | p0 :: _ =>
      forallb (λ p, negb (empty_string (pd_algorithm p)) && negb (empty_string (pd_value p))
                    && bool_decide (pd_algorithm p = pd_algorithm p0)) parts
  end.

Definition apply_composite_checksum (parts : list PartDigest) (meta : ObjectMeta) (r : PutResult)
    : ObjectMeta * PutResult :=
  if negb (digests_uniform parts) then (meta, r)
  else
    let algo := match parts with p0 :: _ => pd_algorithm p0 | [] => [] end in
    match composite_checksum algo (pd_value <$> parts) with
    | None => (meta, r)
    | Some composite =>
        (set_checksum_pending None (set_checksum_type (bs "COMPOSITE")
           (set_checksum_value composite (set_checksum_algorithm algo meta))),
         mkPutResult (put_etag r) algo composite (bs "COMPOSITE"))
    end.
End digests.

(** * The part-size list as text *)

Definition join_part_sizes (sizes : list Z) : bytes :=
  foldl (λ out s, (if empty_string out then out else out ++ bs ",") ++ to_string s) [] sizes.

(** The loop of [parse_part_sizes] over the segments: it stops when no character is
    left, so a final empty segment is not visited. *)
Fixpoint sizes_loop (segs : list bytes) : option (list Z) :=
  match segs with
  | [] => Some []
  | [[]] => Some []
  | seg :: rest => v ← from_chars_u64 seg; cons v <$> sizes_loop rest
  end.

Definition parse_part_sizes (s : bytes) : list Z := default [] (sizes_loop (split_on (ch ",") s)).

(** * Lemmas *)

(** Declarative form of the completion order. *)
Fixpoint ascending (prev : Z) (l : list Z) : Prop :=
  match l with [] => True | x :: l' => (prev < x)%Z /\ ascending x l' end.

Lemma part_order_loop_spec prev parts :
  part_order_loop prev parts = Ok tt <-> ascending prev (pi_part_no <$> parts).
Proof.
  revert prev. induction parts as [|p parts IH]; intros prev; cbn; [done|].
  destruct (Z.leb_spec (pi_part_no p) prev); [split; [done|lia]|]. rewrite IH. naive_solver.
Qed.

Lemma validate_part_order_Ok parts :
  validate_part_order parts = Ok tt <-> parts <> [] /\ ascending 0 (pi_part_no <$> parts).
Proof. unfold validate_part_order. case_bool_decide; [naive_solver|]. rewrite part_order_loop_spec. naive_solver. Qed.

Lemma ascending_bound prev l x : ascending prev l -> x ∈ l -> (prev < x)%Z.
Proof.
  revert prev. induction l as [|y l IH]; intros prev; [set_solver|].
  intros [H1 H2] [->|Hx]%elem_of_cons; [done|]. specialize (IH y H2 Hx). lia.
Qed.

Lemma ascending_NoDup prev l : ascending prev l -> NoDup l.
Proof.
  revert prev. induction l as [|y l IH]; intros prev; [constructor|]. intros [_ H2].
  constructor; [|by eapply IH]. intros Hin. apply (ascending_bound _ _ _ H2) in Hin. lia.
Qed.

(** A generated id has the accepted form. *)
Lemma hex_pair_lower : forall b,
  forallb (λ c, is_digit c || in_range (ch "a") (ch "f") c) (hex_pair (bs "0123456789abcdef") b) = true.
Proof. all_bytes. Qed.

Lemma to_hex_lower s : forallb (λ c, is_digit c || in_range (ch "a") (ch "f") c) (to_hex s) = true.
Proof.
  induction s as [|b s IH]; [done|]. unfold to_hex in *. cbn [flat_map]. by rewrite forallb_app, hex_pair_lower, IH.
Qed.

Lemma new_upload_id_valid e : length e = 16 -> is_valid_upload_id (to_hex e) = true.
Proof.
  intros He. unfold is_valid_upload_id. rewrite length_to_hex, He. cbn [Nat.mul Nat.add Nat.eqb negb].
  apply to_hex_lower.
Qed.

(** Quotes are stripped only in pairs. *)
Example strip_quotes_pair : strip_etag_quotes (dquote :: bs "ab" ++ [dquote]) = bs "ab".
Proof. reflexivity. Qed.
Example strip_quotes_single : strip_etag_quotes (dquote :: bs "ab") = dquote :: bs "ab".
Proof. reflexivity. Qed.

(** Joined sizes as a separated list. *)
Fixpoint intercalate (sep : byte) (l : list bytes) : bytes :=
  match l with
  | [] => []
  | [s] => s
  | s :: l' => s ++ sep :: intercalate sep l'
  end.

Lemma join_loop_spec l acc :
  acc <> [] ->
  foldl (λ out s, (if empty_string out then out else out ++ bs ",") ++ to_string s) acc l
  = match l with [] => acc | _ => acc ++ ch "," :: intercalate (ch ",") (to_string <$> l) end.
Proof.
  revert acc. induction l as [|x l IH]; intros acc Ha; [done|]. cbn [foldl].
  assert (empty_string acc = false) as -> by (by apply empty_string_false).
  rewrite IH; cycle 1. { intros H. by apply app_eq_nil in H as [_ ?%to_string_nonempty]. }
  change (bs ",") with [ch ","].
  destruct l; cbn [fmap list_fmap intercalate]; by rewrite <- !app_assoc.
Qed.

Lemma join_part_sizes_spec l : join_part_sizes l = intercalate (ch ",") (to_string <$> l).
Proof.
  destruct l as [|x l]; [done|]. unfold join_part_sizes. cbn [foldl empty_string].
  change (if empty_string [] then [] else [] ++ bs ",") with (@nil byte). cbn [app].
  rewrite join_loop_spec by apply to_string_nonempty. by destruct l.
Qed.

Lemma split_on_intercalate sep l :
  l <> [] -> Forall (λ s, sep ∉ s) l -> split_on sep (intercalate sep l) = l.
Proof.
  intros Hne Hl. induction Hl as [|s l Hs Hl IH]; [done|].
  destruct l as [|s2 l]; [by apply split_on_no_sep|].
  change (intercalate sep (s :: s2 :: l)) with (s ++ sep :: intercalate sep (s2 :: l)).
  rewrite split_on_app by done. f_equal. by apply IH.
Qed.

Lemma sizes_loop_to_string l :
  Forall is_u64 l -> sizes_loop (to_string <$> l) = Some l.
Proof.
  induction 1 as [|x l Hx Hl IH]; [done|]. cbn [fmap list_fmap].
  pose proof (to_string_nonempty x) as Hne. destruct (to_string x) as [|c s] eqn:E; [done|].
  assert (sizes_loop ((c :: s) :: (to_string <$> l)) = (v ← from_chars_u64 (c :: s); cons v <$> sizes_loop (to_string <$> l))) as -> by done.
  rewrite <- E, from_chars_to_string by done. cbn. by rewrite IH.
Qed.

Lemma parse_join_sizes l : Forall is_u64 l -> parse_part_sizes (join_part_sizes l) = l.
Proof.
  intros Hl. rewrite join_part_sizes_spec. unfold parse_part_sizes.
  destruct l as [|x l]; [done|]. rewrite split_on_intercalate; [|done|].
  - by rewrite sizes_loop_to_string.
  - apply list.Forall_forall. intros s (z & -> & Hz)%list_elem_of_fmap. rewrite list.Forall_forall in Hl.
    apply to_string_not_elem; [by apply Hl|done].
Qed.
