(* ===== verification/MemoryBackend.v ===== *)
(** The in-memory storage backend ([src/src/storage/memory/memory_backend.cc],
    [memory_backend.h]).

    The mutex [m_] makes every locked section atomic, so a section is one run of the
    state monad. [put_object] and [upload_part] read the request body without the
    lock: the body phase ([read_body]) takes, with each chunk, the value of
    [used_bytes()] observed at that moment, and the commit phase is a locked section
    of its own. *)

From S2P Require Import Prelude Bytes Util Backend Validate Listing Multipart.
From Stdlib Require Import ZArith Lia.
From stdpp Require Import base list gmap sets strings sorting.

(** * State *)
Record MemoryOptions := mkMemoryOptions { max_bytes : Z; mpu_ttl_sec : Z }.

Record Object := mkObject { obj_meta : ObjectMeta; obj_data : bytes }.
Record Bucket := mkBucket { info : BucketInfo; objs : gmap bytes Object }.
Record Part := mkPart {
  part_data : bytes; part_etag : bytes; part_uploaded : time_point;
  part_checksum_algorithm : bytes; part_checksum_value : bytes }.
Record Upload := mkUpload {
  up_bucket : bytes; up_key : bytes; up_meta : ObjectMeta; up_parts : gmap Z Part; up_initiated : time_point }.

Record State := mkState { used_bytes : Z; buckets : gmap bytes Bucket; uploads : gmap bytes Upload }.

Definition init_state : State := mkState 0 ∅ ∅.

Abbreviation M := (ST State S3ErrorCode).

Definition set_used (n : Z) (s : State) : State := mkState n (buckets s) (uploads s).
Definition set_buckets (bk : gmap bytes Bucket) (s : State) : State := mkState (used_bytes s) bk (uploads s).
Definition set_uploads (up : gmap bytes Upload) (s : State) : State := mkState (used_bytes s) (buckets s) up.
Definition modify (f : State -> State) : M unit := λ s, (Ok tt, f s).

(** [std::map] iteration: buckets, objects and uploads by name, parts by number. *)
Definition items_of {V} (m : gmap bytes V) : list (bytes * V) := map_items bytes_le m.
Definition parts_of (m : gmap Z Part) : list (Z * Part) := map_items Z.le m.

(** Byte length as [int64_t(data.size())]. *)
Definition blen (s : bytes) : Z := Z.of_nat (length s).
Definition parts_bytes (u : Upload) : Z := map_sum (λ p, blen (part_data p)) (up_parts u).
Definition bucket_bytes (b : Bucket) : Z := map_sum (λ o, blen (obj_data o)) (objs b).

(** * Reading a request body *)

(** One [body.read]: some bytes, or an exception of the reader. The list ends at EOF. *)
Inductive BodyRead := Chunk (b : bytes) | ReadThrows (e : S3ErrorCode).

(** Snapshot reader of a stored block: [SharedBlobReader]. *)
Record BlobReader := mkBlobReader { blob : bytes; off : nat; len : nat; pos : nat }.
Definition blob_read (buf_size : nat) (r : BlobReader) : bytes * BlobReader :=
  let n := Nat.min buf_size (len r - pos r) in
  (substr (blob r) (off r + pos r) n, mkBlobReader (blob r) (off r) (len r) (pos r + n)).

(** Reading to EOF with the given buffer sizes. *)
Fixpoint drain (bufs : list nat) (r : BlobReader) : bytes :=
  match bufs with
  | [] => []
  | n :: bufs' => let '(c, r') := blob_read n r in c ++ drain bufs' r'
  end.

Record ObjectStream := mkObjectStream { os_meta : ObjectMeta; os_body : BlobReader; os_range : option ByteRange }.

Section backend.
Context (opt : MemoryOptions) (md5_hex sha1 sha256 : bytes -> bytes).

(** * Accounting *)
Definition reserve_locked (delta : Z) : M unit := λ s,
  if (0 <? delta)%Z && negb (max_bytes opt =? 0)%Z && (max_bytes opt <? u64 (used_bytes s + u64 delta))%Z
  then (Throw SlowDown, s)
  else (Ok tt, set_used (u64 (i64 (used_bytes s) + delta)) s).

Definition check_inflight (used buffered : Z) : result unit :=
  throw_if (negb (max_bytes opt =? 0)%Z && (max_bytes opt <? (used +₆₄ buffered)%L3)%Z) SlowDown.

(** The read loop shared by [put_object] and [upload_part]. Each read comes with the
    value of [used_bytes()] at its capacity check. *)
Fixpoint read_body (body : list (BodyRead * Z)) (data : bytes) : result bytes :=
  match body with
  | [] => Ok data
  | (ReadThrows e, _) :: _ => Throw e
  | (Chunk c, used) :: rest =>
      if empty_string c then Ok data
      else
        let data' := data ++ c in
        _ ← check_inflight used (blen data');
        read_body rest data'
  end.

(** Without interleaving, every check sees the same usage. *)
Definition alone (s : State) (body : list BodyRead) : list (BodyRead * Z) := (λ r, (r, used_bytes s)) <$> body.

(** ** Expiry of abandoned uploads *)
Fixpoint expire_loop (cutoff : time_point) (ups : list (bytes * Upload)) : M unit :=
  match ups with
  | [] => mret tt
  | (id, u) :: rest =>
      if (cutoff <=? up_initiated u)%Z then expire_loop cutoff rest
      else
        _ ← reserve_locked (- parts_bytes u);
        _ ← modify (λ s, set_uploads (delete id (uploads s)) s);
        expire_loop cutoff rest
  end.

Definition expire_uploads_locked (now : time_point) : M unit :=
  if (mpu_ttl_sec opt <=? 0)%Z then mret tt
  else s ← get_st; expire_loop (now - mpu_ttl_sec opt * 1000000000) (items_of (uploads s)).

Definition bucket_or_throw (name : bytes) : M Bucket :=
  s ← get_st;
  match buckets s !! name with Some b => mret b | None => throw NoSuchBucket end.

Definition upload_or_throw (bucket key upload_id : bytes) : M Upload :=
  s ← get_st;
  match uploads s !! upload_id with
  | Some u =>
      if bool_decide (up_bucket u = bucket) && bool_decide (up_key u = key) then mret u else throw NoSuchUpload
  | None => throw NoSuchUpload
  end.

(** The object of a bucket, or [NoSuchKey]. *)
Definition object_or_throw (b : Bucket) (key : bytes) : M Object :=
  match objs b !! key with Some o => mret o | None => throw NoSuchKey end.

Definition store_bucket (name : bytes) (b : Bucket) : M unit :=
  modify (λ s, set_buckets (<[name := b]> (buckets s)) s).

(** * Buckets *)
Definition set_mtime_for_tests (bucket key : bytes) (t : time_point) : M bool :=
  s ← get_st;
  match buckets s !! bucket with
  | None => mret false
  | Some b =>
      match objs b !! key with
      | None => mret false
      | Some o =>
          _ ← store_bucket bucket
                (mkBucket (info b) (<[key := mkObject (set_last_modified t (obj_meta o)) (obj_data o)]> (objs b)));
          mret true
      end
  end.

Definition create_bucket (bucket : bytes) (now : time_point) : M unit :=
  _ ← lift (validate_bucket_name bucket true);
  s ← get_st;
  match buckets s !! bucket with
  | Some _ => throw BucketAlreadyOwnedByYou
  | None => store_bucket bucket (mkBucket (mkBucketInfo bucket now) ∅)
  end.

Definition delete_bucket (bucket : bytes) : M unit :=
  _ ← lift (validate_bucket_name bucket true);
  b ← bucket_or_throw bucket;
  if negb (bool_decide (objs b = ∅)) then throw BucketNotEmpty
  else modify (λ s, set_buckets (delete bucket (buckets s)) s).

Definition bucket_exists (bucket : bytes) : M bool :=
  _ ← lift (validate_bucket_name bucket true);
  s ← get_st; mret (bool_decide (is_Some (buckets s !! bucket))).

Definition list_buckets : M (list BucketInfo) :=
  s ← get_st; mret ((λ kb, info kb.2) <$> items_of (buckets s)).

(** * Objects *)

(** The conditional-write check, under the commit lock. *)
Definition check_condition (cond : PutCondition) (cur : option Object) : result unit :=
  if negb (cond_active cond) then Ok tt
  else
    _ ← throw_if (if_none_match cond && bool_decide (is_Some cur)) PreconditionFailed;
    match if_match_etag cond with
    | None => Ok tt
    | Some e =>
        match cur with
        | None => Throw NoSuchKey
        | Some o => throw_if (negb (bool_decide (e = etag (obj_meta o)))) PreconditionFailed
        end
    end.

Definition put_meta (meta : ObjectMeta) (key data : bytes) (now : time_point) : ObjectMeta :=
  finalize_checksum (set_last_modified now (set_etag (md5_hex data) (set_osize (blen data) (set_okey key meta)))).

Definition old_size (b : Bucket) (key : bytes) : Z :=
  match objs b !! key with Some o => blen (obj_data o) | None => 0%Z end.

(** The locked section of [put_object]. *)
Definition put_commit (bucket key : bytes) (meta : ObjectMeta) (data : bytes) (cond : PutCondition) : M PutResult :=
  b ← bucket_or_throw bucket;
  _ ← lift (check_condition cond (objs b !! key));
  _ ← reserve_locked (blen data - old_size b key);
  _ ← store_bucket bucket (mkBucket (info b) (<[key := mkObject meta data]> (objs b)));
  mret (mkPutResult (etag meta) [] [] []).

Definition put_object (bucket key : bytes) (meta : ObjectMeta) (body : list BodyRead) (cond : PutCondition)
    (now : time_point) : M PutResult :=
  _ ← lift (validate_bucket_name bucket true);
  _ ← lift (validate_object_key key);
  s ← get_st;
  data ← lift (read_body (alone s body) []);
  put_commit bucket key (put_meta meta key data now) data cond.

Definition get_object (bucket key : bytes) (range : option ByteRange) : M ObjectStream :=
  _ ← lift (validate_bucket_name bucket true);
  b ← bucket_or_throw bucket;
  o ← object_or_throw b key;
  match range with
  | None => mret (mkObjectStream (obj_meta o) (mkBlobReader (obj_data o) 0 (length (obj_data o)) 0) None)
  | Some r =>
      fl ← lift (resolve_range r (blen (obj_data o)));
      let '(f, l) := fl in
      mret (mkObjectStream (obj_meta o) (mkBlobReader (obj_data o) (Z.to_nat f) (Z.to_nat (l - f + 1)) 0)
              (Some (mkByteRange (Some f) (Some l))))
  end.

Definition head_object (bucket key : bytes) : M ObjectMeta :=
  _ ← lift (validate_bucket_name bucket true);
  b ← bucket_or_throw bucket;
  o ← object_or_throw b key;
  mret (obj_meta o).

Definition set_object_tagging (bucket key tags : bytes) : M unit :=
  _ ← lift (validate_bucket_name bucket true);
  _ ← lift (validate_object_key key);
  b ← bucket_or_throw bucket;
  o ← object_or_throw b key;
  store_bucket bucket (mkBucket (info b) (<[key := mkObject (set_tagging tags (obj_meta o)) (obj_data o)]> (objs b))).

Definition delete_object (bucket key : bytes) : M unit :=
  _ ← lift (validate_bucket_name bucket true);
  b ← bucket_or_throw bucket;
  match objs b !! key with
  | None => mret tt
  | Some o =>
      _ ← reserve_locked (- blen (obj_data o));
      store_bucket bucket (mkBucket (info b) (delete key (objs b)))
  end.

Definition list_objects (bucket : bytes) (o : ListOptions) : M ListResult :=
  _ ← lift (validate_bucket_name bucket true);
  b ← bucket_or_throw bucket;
  mret (apply_listing o
          (λ k, match objs b !! k with Some ob => obj_meta ob | None => default_meta end)
          (items_of (objs b)).*1).

(** * Multipart uploads *)
Definition create_multipart (bucket key : bytes) (meta : ObjectMeta) (entropy : option bytes) (now : time_point)
    : M bytes :=
  _ ← lift (validate_bucket_name bucket true);
  _ ← lift (validate_object_key key);
  _ ← expire_uploads_locked now;
  _ ← bucket_or_throw bucket;
  id ← lift (new_upload_id entropy);
  _ ← modify (λ s, set_uploads (<[id := mkUpload bucket key meta ∅ now]> (uploads s)) s);
  mret id.

Definition make_part (data : bytes) (checksum : option PartChecksum) (now : time_point) : Part :=
  match checksum with
  | Some c => mkPart data (md5_hex data) now (pc_algorithm c) (pc_resolved c)
  | None => mkPart data (md5_hex data) now [] []
  end.

Definition old_part_size (u : Upload) (part_no : Z) : Z :=
  match up_parts u !! part_no with Some p => blen (part_data p) | None => 0%Z end.

(** The second locked section of [upload_part]. *)
Definition upload_part_commit (bucket key upload_id : bytes) (part_no : Z) (data : bytes)
    (checksum : option PartChecksum) (now : time_point) : M PutResult :=
  u ← upload_or_throw bucket key upload_id;
  _ ← reserve_locked (blen data - old_part_size u part_no);
  _ ← modify (λ s, set_uploads (<[upload_id :=
        mkUpload (up_bucket u) (up_key u) (up_meta u) (<[part_no := make_part data checksum now]> (up_parts u))
          (up_initiated u)]> (uploads s)) s);
  mret (mkPutResult (md5_hex data) [] [] []).

Definition upload_part (bucket key upload_id : bytes) (part_no : Z) (body : list BodyRead)
    (checksum : option PartChecksum) (now : time_point) : M PutResult :=
  _ ← lift (validate_part_number part_no);
  _ ← upload_or_throw bucket key upload_id;
  s ← get_st;
  data ← lift (read_body (alone s body) []);
  upload_part_commit bucket key upload_id part_no data checksum now.

(** The selection loop of [complete_multipart]. *)
Fixpoint collect_parts (stored : gmap Z Part) (parts : list PartInfo) : result (list Part) :=
  match parts with
  | [] => Ok []
  | p :: rest =>
      match stored !! pi_part_no p with
      | None => Throw InvalidPart
      | Some sp =>
          if negb (bool_decide (part_etag sp = strip_etag_quotes (pi_etag p))) then Throw InvalidPart
          else cons sp <$> collect_parts stored rest
      end
  end.

Definition complete_multipart (bucket key upload_id : bytes) (parts : list PartInfo) (now : time_point)
    : M PutResult :=
  _ ← lift (validate_part_order parts);
  u ← upload_or_throw bucket key upload_id;
  b ← bucket_or_throw bucket;
  ps ← lift (collect_parts (up_parts u) parts);
  let data := concat (part_data <$> ps) in
  let et := combined_etag md5_hex (part_etag <$> ps) in
  let meta0 := set_part_sizes ((λ p, blen (part_data p)) <$> ps) (set_last_modified now
                 (set_etag et (set_osize (blen data) (set_okey key (up_meta u))))) in
  let '(meta, r) := apply_composite_checksum sha1 sha256
        ((λ p, mkPartDigest (part_checksum_algorithm p) (part_checksum_value p)) <$> ps)
        meta0 (mkPutResult et [] [] []) in
  _ ← reserve_locked (blen data - old_size b key);
  _ ← store_bucket bucket (mkBucket (info b) (<[key := mkObject meta data]> (objs b)));
  _ ← reserve_locked (- parts_bytes u);
  _ ← modify (λ s, set_uploads (delete upload_id (uploads s)) s);
  mret r.

Definition abort_multipart (bucket key upload_id : bytes) : M unit :=
  u ← upload_or_throw bucket key upload_id;
  _ ← reserve_locked (- parts_bytes u);
  modify (λ s, set_uploads (delete upload_id (uploads s)) s).

Definition part_meta_of (np : Z * Part) : PartMeta :=
  mkPartMeta np.1 (blen (part_data np.2)) (part_etag np.2) (part_uploaded np.2)
    (part_checksum_algorithm np.2) (part_checksum_value np.2).

(** [parts.upper_bound(marker)] to the end. *)
Definition list_parts (bucket key upload_id : bytes) (o : ListPartsOptions) : M ListPartsResult :=
  u ← upload_or_throw bucket key upload_id;
  mret (apply_parts_page
          (part_meta_of <$> drop_while (λ np, (np.1 <=? part_number_marker o)%Z) (parts_of (up_parts u))) o).

(** The comparison [std::tie(a.key, a.upload_id) < std::tie(b.key, b.upload_id)]. *)
Definition upload_le (a b : UploadInfo) : Prop :=
  bytes_lt (ui_key a) (ui_key b) \/ (ui_key a = ui_key b /\ bytes_le (ui_upload_id a) (ui_upload_id b)).
#[global] Instance upload_le_dec : RelDecision upload_le.
Proof. intros a b. unfold upload_le. apply _. Defined.

Definition list_multipart_uploads (bucket : bytes) (o : ListUploadsOptions) (now : time_point)
    : M ListUploadsResult :=
  _ ← lift (validate_bucket_name bucket true);
  _ ← expire_uploads_locked now;
  _ ← bucket_or_throw bucket;
  s ← get_st;
  let all := omap (λ iu : bytes * Upload,
                     if bool_decide (up_bucket iu.2 = bucket)
                     then Some (mkUploadInfo (up_key iu.2) iu.1 (up_initiated iu.2)) else None)
                  (items_of (uploads s)) in
  mret (apply_uploads_page (merge_sort upload_le all) o).

Definition close : M unit := put_st init_state.
End backend.

(** * Invariant *)

(** Bytes of all objects and of all in-flight parts. *)
Definition total (s : State) : Z := (map_sum bucket_bytes (buckets s) + map_sum parts_bytes (uploads s))%Z.

(** [used] accounts for [t] bytes: exactly modulo [2^64], and within the capacity. *)
Definition accounts (opt : MemoryOptions) (used t : Z) : Prop :=
  used = u64 t /\ (0 <= t)%Z /\ (max_bytes opt <> 0%Z -> (t <= max_bytes opt)%Z).

(** An object under its key: a valid key, recorded with the exact size of the data. *)
Definition object_wf (k : bytes) (o : Object) : Prop :=
  validate_object_key k = Ok tt /\ okey (obj_meta o) = k /\ osize (obj_meta o) = blen (obj_data o).
Definition bucket_wf (name : bytes) (b : Bucket) : Prop :=
  validate_bucket_name name true = Ok tt /\ bucket_name (info b) = name /\ map_Forall object_wf (objs b).
(** A pending part: numbered 1 to 10000, its ETag the digest of its data. *)
Definition part_wf (md5_hex : bytes -> bytes) (n : Z) (p : Part) : Prop :=
  (1 <= n <= 10000)%Z /\ part_etag p = md5_hex (part_data p).
Definition upload_wf (md5_hex : bytes -> bytes) (id : bytes) (u : Upload) : Prop :=
  validate_bucket_name (up_bucket u) true = Ok tt /\ validate_object_key (up_key u) = Ok tt /\
  map_Forall (part_wf md5_hex) (up_parts u).

Record inv (opt : MemoryOptions) (md5_hex : bytes -> bytes) (s : State) : Prop := mkInv {
  inv_used : accounts opt (used_bytes s) (total s);
  inv_buckets : map_Forall bucket_wf (buckets s);
  inv_uploads : map_Forall (upload_wf md5_hex) (uploads s) }.

(** The configured cap is below 2^63 (it counts bytes of memory). *)
Definition opt_ok (opt : MemoryOptions) : Prop := (0 <= max_bytes opt < 2 ^ 63)%Z.

(** * Runs of the backend

    Every locked section, as a labelled step: the phases before the lock contribute the
    checked arguments and arbitrary data, so any interleaving of requests is a sequence of these steps. *)
Section steps.
Context (opt : MemoryOptions) (md5_hex sha1 sha256 : bytes -> bytes).

Inductive step : State -> State -> Prop :=
| step_create_bucket s b now : step s (create_bucket b now s).2
| step_delete_bucket s b : step s (delete_bucket b s).2
| step_put s b k meta data cond now :
    validate_object_key k = Ok tt -> (blen data < 2 ^ 63)%Z ->
    step s (put_commit opt b k (put_meta md5_hex meta k data now) data cond s).2
| step_tagging s b k t : step s (set_object_tagging b k t s).2
| step_set_mtime s b k t : step s (set_mtime_for_tests b k t s).2
| step_delete s b k : step s (delete_object opt b k s).2
| step_create_mpu s b k meta e now :
    (** the random id is fresh *)
    (forall e', e = Some e' -> uploads s !! Hex.to_hex e' = None) -> step s (create_multipart opt b k meta e now s).2
| step_upload_part s b k id n data c now :
    validate_part_number n = Ok tt -> (blen data < 2 ^ 63)%Z ->
    step s (upload_part_commit opt md5_hex b k id n data c now s).2
| step_complete s b k id ps now : step s (complete_multipart opt md5_hex sha1 sha256 b k id ps now s).2
| step_abort s b k id : step s (abort_multipart opt b k id s).2
| step_list_uploads s b o now : step s (list_multipart_uploads opt b o now s).2
| step_close s : step s (close s).2.

Definition reachable (s : State) : Prop := rtc step init_state s.
End steps.

(** * Proofs *)

Lemma blen_nonneg d : (0 <= blen d)%Z.
Proof. unfold blen. lia. Qed.
Lemma blen_app a b : blen (a ++ b) = (blen a + blen b)%Z.
Proof. unfold blen. rewrite length_app. lia. Qed.
Lemma bucket_bytes_nonneg b : (0 <= bucket_bytes b)%Z.
Proof. apply map_sum_nonneg. intros. apply blen_nonneg. Qed.
Lemma parts_bytes_nonneg u : (0 <= parts_bytes u)%Z.
Proof. apply map_sum_nonneg. intros. apply blen_nonneg. Qed.
#[export] Hint Resolve blen_nonneg bucket_bytes_nonneg parts_bytes_nonneg : core.

Lemma u64_i64_add a d : u64 (i64 (u64 a) + d) = u64 (a + d).
Proof.
  unfold u64, i64. rewrite Zplus_mod_idemp_l.
  replace ((a + 2 ^ 63) mod 2 ^ 64 - 2 ^ 63 + d)%Z with ((a + 2 ^ 63) mod 2 ^ 64 + (d - 2 ^ 63))%Z by lia.
  rewrite Zplus_mod_idemp_l. f_equal. lia.
Qed.

Section proofs.
Context (opt : MemoryOptions) (md5_hex sha1 sha256 : bytes -> bytes).
Context (Hopt : opt_ok opt).

(** [reserve_locked] either refuses a growth and changes nothing, or books it. *)
Lemma reserve_cases d s :
  (reserve_locked opt d s = (Throw SlowDown, s) /\ (0 < d)%Z /\ max_bytes opt <> 0%Z) \/
  (reserve_locked opt d s = (Ok tt, set_used (u64 (i64 (used_bytes s) + d)) s) /\
    forall t, accounts opt (used_bytes s) t -> (max_bytes opt <> 0 -> d < 2 ^ 63)%Z -> (0 <= t + d)%Z ->
      accounts opt (u64 (i64 (used_bytes s) + d)) (t + d)).
Proof.
  unfold reserve_locked. destruct (_ && _ && _) eqn:E.
  - left. bool_prop. split_and!; [done|lia|lia].
  - right. split; [done|]. intros t (Hu & Ht & Hcap) Hd Htd. rewrite Hu in *. rewrite u64_i64_add.
    split; [done|]. split; [done|]. intros Hm. specialize (Hcap Hm). specialize (Hd Hm). unfold opt_ok in Hopt.
    destruct (Z.ltb_spec 0 d); [|lia]. cbn [andb] in E.
    destruct (Z.eqb_spec (max_bytes opt) 0); [done|]. cbn [andb negb] in E.
    apply Z.ltb_ge in E. rewrite (u64_small d), (u64_small t) in E by (unfold is_u64; lia).
    rewrite u64_small in E by (unfold is_u64; lia). lia.
Qed.

(** Sum updates. *)
Lemma total_store s name b b' :
  buckets s !! name = Some b ->
  total (set_buckets (<[name := b']> (buckets s)) s) = (total s - bucket_bytes b + bucket_bytes b')%Z.
Proof. intros Hb. unfold total. cbn. rewrite map_sum_insert, Hb. lia. Qed.

Lemma total_delete_upload s id u :
  uploads s !! id = Some u ->
  total (set_uploads (delete id (uploads s)) s) = (total s - parts_bytes u)%Z.
Proof. intros Hu. unfold total. cbn. rewrite map_sum_delete, Hu. lia. Qed.

Lemma total_set_upload s id u u' :
  uploads s !! id = Some u ->
  total (set_uploads (<[id := u']> (uploads s)) s) = (total s - parts_bytes u + parts_bytes u')%Z.
Proof. intros Hu. unfold total. cbn. rewrite map_sum_insert, Hu. lia. Qed.

Lemma bucket_bytes_insert i ob key o :
  bucket_bytes (mkBucket i (<[key := o]> ob))
  = (bucket_bytes (mkBucket i ob) - match ob !! key with Some o' => blen (obj_data o') | None => 0 end
     + blen (obj_data o))%Z.
Proof. unfold bucket_bytes. cbn. by rewrite map_sum_insert. Qed.

Lemma upload_total s id u : uploads s !! id = Some u -> (parts_bytes u <= total s)%Z.
Proof.
  intros Hu. unfold total. pose proof (map_sum_lookup parts_bytes _ _ _ parts_bytes_nonneg Hu).
  pose proof (map_sum_nonneg bucket_bytes (buckets s) bucket_bytes_nonneg). lia.
Qed.

(** Replacing an object (of the given old size) and booking the difference keeps
    the invariant. *)
Lemma inv_store_object s name b key o used' :
  inv opt md5_hex s -> buckets s !! name = Some b -> object_wf key o ->
  accounts opt used' (total s + (blen (obj_data o) - old_size b key)) ->
  inv opt md5_hex (set_buckets (<[name := mkBucket (info b) (<[key := o]> (objs b))]> (buckets s)) (set_used used' s)).
Proof.
  intros [Hu Hw Hup] Hb Ho Hacc. pose proof (Hw _ _ Hb) as (Hv & Hn & Hobjs). split; [| |done].
  - change (buckets s) with (buckets (set_used used' s)).
    rewrite (total_store _ name b) by done. rewrite bucket_bytes_insert.
    change (total (set_used used' s)) with (total s).
    replace (mkBucket (info b) (objs b)) with b by (by destruct b).
    unfold old_size in Hacc. cbn [used_bytes set_buckets set_used].
    match goal with |- accounts _ _ ?t => match type of Hacc with accounts _ _ ?t' => replace t with t' by lia end end.
    done.
  - cbn. apply map_Forall_insert_2; [|done]. split; [done|]. split; [done|]. cbn. by apply map_Forall_insert_2.
Qed.

Lemma inv_used_range s : inv opt md5_hex s -> (0 <= total s)%Z.
Proof. intros [(_ & ? & _) _ _]. done. Qed.

(** Dropping an upload and returning its bytes keeps the invariant. *)
Lemma inv_drop_upload s id u :
  inv opt md5_hex s -> uploads s !! id = Some u ->
  exists used', reserve_locked opt (- parts_bytes u) s = (Ok tt, set_used used' s) /\
    inv opt md5_hex (set_uploads (delete id (uploads s)) (set_used used' s)).
Proof.
  intros [Hacc Hw Hup] Hu. pose proof (upload_total _ _ _ Hu). pose proof (parts_bytes_nonneg u).
  destruct (reserve_cases (- parts_bytes u) s) as [(_ & ? & _)|[E Hbook]]; [lia|].
  eexists. split; [exact E|]. split; [|done|cbn; by apply map_Forall_delete].
  change (uploads s) with (uploads (set_used (u64 (i64 (used_bytes s) + - parts_bytes u)) s)).
  rewrite (total_delete_upload _ _ u) by done. change (total (set_used ?x s)) with (total s).
  replace (total s - parts_bytes u)%Z with (total s + - parts_bytes u)%Z by lia.
  apply Hbook; [done|lia|lia].
Qed.

Lemma old_size_range s name b key :
  buckets s !! name = Some b -> (0 <= old_size b key <= total s)%Z.
Proof.
  intros Hb. unfold total. pose proof (map_sum_lookup bucket_bytes _ _ _ bucket_bytes_nonneg Hb).
  pose proof (map_sum_nonneg parts_bytes (uploads s) parts_bytes_nonneg).
  pose proof (bucket_bytes_nonneg b). unfold old_size.
  destruct (objs b !! key) as [o|] eqn:Eo; [|lia].
  pose proof (map_sum_lookup (λ o, blen (obj_data o)) _ _ _ (λ v, blen_nonneg _) Eo).
  pose proof (blen_nonneg (obj_data o)). unfold bucket_bytes in *. lia.
Qed.

(** The expiry sweep always finishes and keeps the invariant and the buckets. *)
Lemma expire_loop_inv cutoff ups : forall s,
  inv opt md5_hex s -> NoDup ups.*1 -> (forall id u, (id, u) ∈ ups -> uploads s !! id = Some u) ->
  exists s', expire_loop opt cutoff ups s = (Ok tt, s') /\ inv opt md5_hex s' /\ buckets s' = buckets s
    /\ uploads s' ⊆ uploads s.
Proof.
  induction ups as [|[id u] ups IH]; intros s Hi Hn Hin; cbn [expire_loop].
  { by exists s. }
  cbn [fmap list_fmap] in Hn. apply list.NoDup_cons in Hn as [Hn1 Hn2].
  destruct (cutoff <=? up_initiated u)%Z.
  - apply IH; [done|done|]. intros id' u' ?. apply Hin. by right.
  - destruct (inv_drop_upload s id u Hi) as (used' & E & Hi'); [apply Hin; by left|].
    unfold mbind, ST_bind, modify. rewrite E. cbn [uploads set_used].
    destruct (IH _ Hi' Hn2) as (s' & Hr & Hi2 & Hb & Hu).
    { intros id' u' Hiu. cbn. rewrite lookup_delete_ne; [apply Hin; by right|].
      intros ->. apply Hn1. apply list_elem_of_fmap. by exists (id', u'). }
    exists s'. split_and!; [done|done|done|]. etrans; [exact Hu|]. cbn. apply delete_subseteq.
Qed.

Lemma expire_uploads_inv now s :
  inv opt md5_hex s ->
  exists s', expire_uploads_locked opt now s = (Ok tt, s') /\ inv opt md5_hex s' /\ buckets s' = buckets s
    /\ uploads s' ⊆ uploads s.
Proof.
  intros Hi. unfold expire_uploads_locked. case_if; [by exists s|].
  unfold mbind, ST_bind, get_st. apply expire_loop_inv; [done|apply map_items_NoDup; apply _|].
  intros id u. apply map_items_elem; apply _.
Qed.

(** ** Every locked section preserves the invariant *)

Ltac run := unfold bucket_or_throw, upload_or_throw, object_or_throw, store_bucket;
  unfold mbind, ST_bind, mret, ST_ret, lift, throw, get_st, put_st, modify; cbv beta.

Lemma create_bucket_inv b now s : inv opt md5_hex s -> inv opt md5_hex (create_bucket b now s).2.
Proof.
  intros Hi. pose proof Hi as [Hu Hw Hup]. unfold create_bucket. run.
  destruct (validate_bucket_name b true) as [[]|] eqn:Ev; [|done].
  destruct (buckets s !! b) as [B|] eqn:EB; [done|]. cbn. split; [|cbn; by apply map_Forall_insert_2|done].
  unfold total. cbn. rewrite map_sum_insert_new by done. exact Hu.
Qed.

Lemma delete_bucket_inv b s : inv opt md5_hex s -> inv opt md5_hex (delete_bucket b s).2.
Proof.
  intros Hi. pose proof Hi as [Hu Hw Hup]. unfold delete_bucket. run.
  destruct (validate_bucket_name b true); [|done].
  destruct (buckets s !! b) as [B|] eqn:EB; [|done].
  case_bool_decide as He; [|done]. cbn. split; [|cbn; by apply map_Forall_delete|done].
  unfold total. cbn. rewrite map_sum_delete, EB.
  assert (bucket_bytes B = 0%Z) as -> by (unfold bucket_bytes; rewrite He; apply map_sum_empty).
  rewrite Z.sub_0_r. exact Hu.
Qed.

Lemma put_commit_inv b k meta data cond s :
  validate_object_key k = Ok tt -> (blen data < 2 ^ 63)%Z -> okey meta = k -> osize meta = blen data ->
  inv opt md5_hex s -> inv opt md5_hex (put_commit opt b k meta data cond s).2.
Proof.
  intros Hv Hd Hk Hz Hi. unfold put_commit. run.
  destruct (buckets s !! b) as [B|] eqn:EB; [|done].
  destruct (check_condition cond (objs B !! k)); [|done].
  destruct (reserve_cases (blen data - old_size B k) s) as [(-> & _)|[-> Hbook]]; [done|]. cbn.
  apply inv_store_object; [done|done|by split|]. cbn. apply Hbook; [apply Hi| |].
  - pose proof (old_size_range _ _ _ k EB). lia.
  - pose proof (old_size_range _ _ _ k EB). pose proof (blen_nonneg data). lia.
Qed.

(** A rewrite of an object's metadata that keeps key and size. *)
Lemma inv_update_meta s name b key o m' :
  inv opt md5_hex s -> buckets s !! name = Some b -> objs b !! key = Some o ->
  okey m' = okey (obj_meta o) -> osize m' = osize (obj_meta o) ->
  inv opt md5_hex (set_buckets (<[name := mkBucket (info b) (<[key := mkObject m' (obj_data o)]> (objs b))]> (buckets s)) s).
Proof.
  intros Hi Hb Ho Hk Hz. replace s with (set_used (used_bytes s) s) at 2 by (by destruct s).
  pose proof (inv_buckets _ _ _ Hi _ _ Hb) as (_ & _ & Hw). destruct (Hw _ _ Ho) as (Hv & Hw1 & Hw2).
  apply inv_store_object; [done|done|by (split_and!; cbn; congruence)|]. cbn. unfold old_size. rewrite Ho, Z.sub_diag, Z.add_0_r.
  apply Hi.
Qed.

Lemma set_object_tagging_inv b k t s : inv opt md5_hex s -> inv opt md5_hex (set_object_tagging b k t s).2.
Proof.
  intros Hi. unfold set_object_tagging. run.
  destruct (validate_bucket_name b true); [|done]. destruct (validate_object_key k); [|done].
  destruct (buckets s !! b) as [B|] eqn:EB; [|done]. destruct (objs B !! k) as [o|] eqn:Eo; [|done].
  by apply inv_update_meta.
Qed.

Lemma set_mtime_inv b k t s : inv opt md5_hex s -> inv opt md5_hex (set_mtime_for_tests b k t s).2.
Proof.
  intros Hi. unfold set_mtime_for_tests. run.
  destruct (buckets s !! b) as [B|] eqn:EB; [|done]. destruct (objs B !! k) as [o|] eqn:Eo; [|done].
  by apply inv_update_meta.
Qed.

Lemma delete_object_inv b k s : inv opt md5_hex s -> inv opt md5_hex (delete_object opt b k s).2.
Proof.
  intros Hi. unfold delete_object. run.
  destruct (validate_bucket_name b true); [|done].
  destruct (buckets s !! b) as [B|] eqn:EB; [|done]. destruct (objs B !! k) as [o|] eqn:Eo; [|done].
  pose proof (blen_nonneg (obj_data o)) as Hd. pose proof (old_size_range _ _ _ k EB) as Hr.
  unfold old_size in Hr. rewrite Eo in Hr.
  destruct (reserve_cases (- blen (obj_data o)) s) as [(_ & ? & _)|[-> Hbook]]; [lia|]. cbn.
  pose proof Hi as [Hacc Hw Hup]. pose proof (Hw _ _ EB) as (Hv & Hn & Ho). split; [| |done].
  - set (u := u64 _). change (buckets s) with (buckets (set_used u s)).
    rewrite (total_store _ b B) by done. unfold bucket_bytes at 2. cbn [objs]. rewrite map_sum_delete, Eo.
    change (total (set_used u s)) with (total s). fold (bucket_bytes B).
    replace (total s - bucket_bytes B + (bucket_bytes B - blen (obj_data o)))%Z
      with (total s + - blen (obj_data o))%Z by lia.
    apply Hbook; [done|lia|lia].
  - cbn. apply map_Forall_insert_2; [|done]. split_and!; [done|done|]. by apply map_Forall_delete.
Qed.

Lemma create_multipart_inv b k meta e now s :
  (forall e', e = Some e' -> uploads s !! Hex.to_hex e' = None) ->
  inv opt md5_hex s -> inv opt md5_hex (create_multipart opt b k meta e now s).2.
Proof.
  intros He Hi. unfold create_multipart. run.
  destruct (validate_bucket_name b true) as [[]|] eqn:Ev; [|done].
  destruct (validate_object_key k) as [[]|] eqn:Ek; [|done].
  destruct (expire_uploads_inv now s Hi) as (s' & -> & Hi' & Hb & Hu).
  destruct (buckets s' !! b) as [B|] eqn:EB; [|done].
  destruct e as [e|]; [|done]. cbn. pose proof Hi' as [Hacc Hw Hup].
  split; [|done|cbn; by apply map_Forall_insert_2].
  unfold total. cbn. rewrite map_sum_insert_new.
  - unfold parts_bytes at 1. cbn. rewrite map_sum_empty. exact Hacc.
  - destruct (uploads s' !! _) eqn:E; [|done]. eapply lookup_weaken in E; [|exact Hu].
    rewrite He in E by done. done.
Qed.

Lemma old_part_size_range s id u n :
  uploads s !! id = Some u -> (0 <= old_part_size u n <= total s)%Z.
Proof.
  intros Hu. pose proof (upload_total _ _ _ Hu). pose proof (parts_bytes_nonneg u). unfold old_part_size.
  destruct (up_parts u !! n) as [p|] eqn:Ep; [|lia].
  pose proof (map_sum_lookup (λ p, blen (part_data p)) _ _ _ (λ v, blen_nonneg _) Ep).
  pose proof (blen_nonneg (part_data p)). unfold parts_bytes in *. lia.
Qed.

Lemma upload_part_commit_inv b k id n data c now s :
  validate_part_number n = Ok tt -> (blen data < 2 ^ 63)%Z ->
  inv opt md5_hex s -> inv opt md5_hex (upload_part_commit opt md5_hex b k id n data c now s).2.
Proof.
  intros Hn Hd Hi. unfold upload_part_commit. run.
  destruct (uploads s !! id) as [u|] eqn:Eu; [|done]. destruct (_ && _); [|done].
  pose proof (old_part_size_range _ _ _ n Eu). pose proof (blen_nonneg data).
  destruct (reserve_cases (blen data - old_part_size u n) s) as [(-> & _)|[-> Hbook]]; [done|]. cbn.
  pose proof Hi as [Hacc Hw Hup]. pose proof (Hup _ _ Eu) as (Hv & Hk & Hp). split; [|done|].
  2: { cbn. apply map_Forall_insert_2; [|done]. split_and!; [done|done|]. cbn. apply map_Forall_insert_2; [|done].
    unfold validate_part_number in Hn. apply throw_if_Ok in Hn. bool_prop. split; [lia|by destruct c]. }
  set (u' := u64 _). change (uploads s) with (uploads (set_used u' s)).
  rewrite (total_set_upload _ id u) by done. change (total (set_used u' s)) with (total s).
  unfold parts_bytes at 2. cbn [up_parts]. rewrite map_sum_insert. fold (parts_bytes u).
  fold (old_part_size u n).
  assert (part_data (make_part md5_hex data c now) = data) as -> by (by destruct c).
  replace (total s - parts_bytes u + (parts_bytes u - old_part_size u n + blen data))%Z
    with (total s + (blen data - old_part_size u n))%Z by lia.
  apply Hbook; [done|lia|lia].
Qed.

Lemma abort_multipart_inv b k id s : inv opt md5_hex s -> inv opt md5_hex (abort_multipart opt b k id s).2.
Proof.
  intros Hi. unfold abort_multipart. run.
  destruct (uploads s !! id) as [u|] eqn:Eu; [|done]. destruct (_ && _); [|done].
  by destruct (inv_drop_upload s id u Hi Eu) as (used' & -> & ?).
Qed.

Lemma collect_parts_delete stored parts n :
  n ∉ pi_part_no <$> parts -> collect_parts (delete n stored) parts = collect_parts stored parts.
Proof.
  induction parts as [|p parts IH]; [done|]. cbn. intros [? ?]%not_elem_of_cons.
  rewrite lookup_delete_ne by done. destruct (stored !! pi_part_no p) as [sp|]; [|done].
  case_if; [done|]. by rewrite IH.
Qed.

(** The selected parts are distinct parts of the upload. *)
Lemma collect_parts_bytes stored prev parts ps :
  ascending prev (pi_part_no <$> parts) -> collect_parts stored parts = Ok ps ->
  (blen (concat (part_data <$> ps)) <= map_sum (λ p, blen (part_data p)) stored)%Z.
Proof.
  revert stored prev ps. induction parts as [|p parts IH]; intros stored prev ps; cbn.
  { intros _ [= <-]. apply map_sum_nonneg. auto. }
  intros [_ Ha]. destruct (stored !! pi_part_no p) as [sp|] eqn:Es; [|done].
  case_if; [done|]. rewrite <- (collect_parts_delete _ _ (pi_part_no p)); cycle 1.
  { intros Hin. apply (ascending_bound _ _ _ Ha) in Hin. lia. }
  destruct (collect_parts (delete _ stored) parts) as [qs|] eqn:E; [|done]. intros [= <-].
  specialize (IH _ _ _ Ha E). rewrite map_sum_delete, Es in IH. cbn. rewrite blen_app. lia.
Qed.

Lemma apply_composite_keeps ds m r :
  okey (apply_composite_checksum sha1 sha256 ds m r).1 = okey m /\
  osize (apply_composite_checksum sha1 sha256 ds m r).1 = osize m /\
  etag (apply_composite_checksum sha1 sha256 ds m r).1 = etag m /\
  part_sizes (apply_composite_checksum sha1 sha256 ds m r).1 = part_sizes m /\
  put_etag (apply_composite_checksum sha1 sha256 ds m r).2 = put_etag r.
Proof. unfold apply_composite_checksum. case_if; [done|]. by destruct (composite_checksum _ _ _ _). Qed.

Lemma complete_multipart_inv b k id ps now s :
  inv opt md5_hex s -> inv opt md5_hex (complete_multipart opt md5_hex sha1 sha256 b k id ps now s).2.
Proof.
  intros Hi. unfold complete_multipart. run.
  destruct (validate_part_order ps) as [[]|] eqn:Eo; [|done].
  destruct (uploads s !! id) as [u|] eqn:Eu; [|done]. destruct (_ && _) eqn:Em; [|done].
  destruct (inv_uploads _ _ _ Hi _ _ Eu) as (_ & Hvk & _).
  assert (validate_object_key k = Ok tt) as Hk0 by (bool_prop; by subst k). clear Em.
  destruct (buckets s !! b) as [B|] eqn:EB; [|done].
  destruct (collect_parts (up_parts u) ps) as [qs|] eqn:Ec; [|done].
  match goal with |- context [apply_composite_checksum sha1 sha256 ?ds ?m ?r] =>
    pose proof (apply_composite_keeps ds m r) as (Hk & Hz & _); destruct (apply_composite_checksum sha1 sha256 ds m r) as [meta r'] end.
  cbn in Hk, Hz. set (data := concat (part_data <$> qs)) in *.
  pose proof (old_size_range _ _ _ k EB). pose proof (blen_nonneg data).
  assert (blen data <= parts_bytes u)%Z as Hdata.
  { unfold validate_part_order in Eo. case_bool_decide; [done|]. apply part_order_loop_spec in Eo.
    by eapply collect_parts_bytes. }
  pose proof (upload_total _ _ _ Eu).
  destruct (reserve_cases (blen data - old_size B k) s) as [(-> & _)|[-> Hbook]]; [done|].
  set (used1 := u64 _) in *.
  assert (inv opt md5_hex (set_buckets (<[b := mkBucket (info B) (<[k := mkObject meta data]> (objs B))]> (buckets s)) (set_used used1 s))) as Hi1.
  { apply inv_store_object; [done|done|by split|]. cbn. apply Hbook; [apply Hi| |lia].
    intros Hm. destruct Hi as [(_ & _ & Hcap) _ _]. specialize (Hcap Hm). unfold opt_ok in Hopt. lia. }
  cbn [buckets set_used].
  destruct (inv_drop_upload _ id u Hi1) as (used' & -> & ?); [done|]. done.
Qed.

Lemma list_uploads_inv b o now s : inv opt md5_hex s -> inv opt md5_hex (list_multipart_uploads opt b o now s).2.
Proof.
  intros Hi. unfold list_multipart_uploads. run.
  destruct (validate_bucket_name b true); [|done].
  destruct (expire_uploads_inv now s Hi) as (s' & -> & Hi' & _). by destruct (buckets s' !! b).
Qed.

Lemma put_meta_key meta k data now : okey (put_meta md5_hex meta k data now) = k.
Proof. unfold put_meta, finalize_checksum. cbn [checksum_pending set_last_modified set_etag set_osize set_okey]. destruct (checksum_pending meta); [case_if|]; done. Qed.
Lemma put_meta_size meta k data now : osize (put_meta md5_hex meta k data now) = blen data.
Proof. unfold put_meta, finalize_checksum. cbn [checksum_pending set_last_modified set_etag set_osize set_okey]. destruct (checksum_pending meta); [case_if|]; done. Qed.
Lemma put_meta_etag meta k data now : etag (put_meta md5_hex meta k data now) = md5_hex data.
Proof. unfold put_meta, finalize_checksum. cbn [checksum_pending set_last_modified set_etag set_osize set_okey]. destruct (checksum_pending meta); [case_if|]; done. Qed.

Lemma init_inv : inv opt md5_hex init_state.
Proof.
  split; [|apply map_Forall_empty|apply map_Forall_empty]. unfold total, init_state. cbn. rewrite !map_sum_empty.
  split; [done|]. split; [done|]. unfold opt_ok in Hopt. lia.
Qed.
End proofs.
