(* ===== verification/MemorySpec.v ===== *)
(** The contract of the storage interface ([IStorageBackend] in
    [src/src/storage/backend.h]) as the in-memory backend implements it: an abstract
    store without the byte counter, the requests of the interface (reads included),
    the reasons for which each may be refused, and the effect and the answer of each
    when it is not. *)

From S2P Require Import Prelude Bytes Util Backend Validate Listing Multipart MemoryBackend.
From Stdlib Require Import ZArith Lia.
From stdpp Require Import base list gmap sets strings sorting.

(** * Abstract store *)

(** Buckets with their objects, and the uploads in flight. *)
Record AStore := mkAStore { a_buckets : gmap bytes Bucket; a_mpu : gmap bytes Upload }.
Definition abs (s : State) : AStore := mkAStore (buckets s) (uploads s).

(** Bytes the store holds, objects and pending parts. *)
Definition stored (a : AStore) : Z := (map_sum bucket_bytes (a_buckets a) + map_sum parts_bytes (a_mpu a))%Z.

(** * Requests and answers *)
Inductive request :=
| RCreateBucket (b : bytes) (now : time_point)
| RDeleteBucket (b : bytes)
| RBucketExists (b : bytes)
| RListBuckets
| RPut (b k : bytes) (meta : ObjectMeta) (body : list BodyRead) (cond : PutCondition) (now : time_point)
| RGet (b k : bytes) (range : option ByteRange)
| RHead (b k : bytes)
| RTagging (b k tags : bytes)
| RDelete (b k : bytes)
| RListObjects (b : bytes) (o : ListOptions)
| RCreateMpu (b k : bytes) (meta : ObjectMeta) (entropy : option bytes) (now : time_point)
| RUploadPart (b k id : bytes) (n : Z) (body : list BodyRead) (c : option PartChecksum) (now : time_point)
| RComplete (b k id : bytes) (parts : list PartInfo) (now : time_point)
| RAbort (b k id : bytes)
| RListParts (b k id : bytes) (o : ListPartsOptions)
| RListUploads (b : bytes) (o : ListUploadsOptions) (now : time_point).

Inductive reply :=
| PDone
| PExists (x : bool)
| PBuckets (l : list BucketInfo)
| PPut (r : PutResult)
| PStream (st : ObjectStream)
| PMeta (m : ObjectMeta)
| PObjects (l : ListResult)
| PUploadId (id : bytes)
| PParts (l : ListPartsResult)
| PUploads (l : ListUploadsResult).

(** The bytes a body delivers: its chunks up to the first empty or failing read. *)
Fixpoint body_bytes (body : list BodyRead) : bytes :=
  match body with
  | Chunk c :: rest => if empty_string c then [] else c ++ body_bytes rest
  | _ => []
  end.

(** The exception of the body reader, if it throws before the end of the body. *)
Fixpoint body_error (body : list BodyRead) : option S3ErrorCode :=
  match body with
  | Chunk c :: rest => if empty_string c then None else body_error rest
  | ReadThrows e :: _ => Some e
  | [] => None
  end.

(** What the types of the arguments give: a body is shorter than [2^63] bytes, and the
    ends of a range ([uint64_t]) are not negative. *)
Definition req_ok (r : request) : Prop :=
  match r with
  | RPut _ _ _ body _ _ | RUploadPart _ _ _ _ body _ _ => (blen (body_bytes body) < 2 ^ 63)%Z
  | RGet _ _ (Some range) =>
      (forall x, range_first range = Some x -> 0 <= x)%Z /\ (forall x, range_last range = Some x -> 0 <= x)%Z
  | _ => True
  end.

(** * Specification *)
Section spec.
Context (opt : MemoryOptions) (md5_hex sha1 sha256 : bytes -> bytes).

(** ** Why a request may be refused *)
Definition bad_name (b : bytes) (e : S3ErrorCode) : Prop := validate_bucket_name b true = Throw e.
Definition bad_key (k : bytes) (e : S3ErrorCode) : Prop := validate_object_key k = Throw e.
Definition no_bucket (a : AStore) (b : bytes) (e : S3ErrorCode) : Prop :=
  e = NoSuchBucket /\ a_buckets a !! b = None.
Definition no_key (a : AStore) (b k : bytes) (e : S3ErrorCode) : Prop :=
  e = NoSuchKey /\ exists B, a_buckets a !! b = Some B /\ objs B !! k = None.
Definition no_upload (a : AStore) (b k id : bytes) (e : S3ErrorCode) : Prop :=
  e = NoSuchUpload /\ forall u, a_mpu a !! id = Some u -> up_bucket u <> b \/ up_key u <> k.
(** The store has a limit, and [d] more bytes exceed it. *)
Definition over_budget (a : AStore) (d : Z) (e : S3ErrorCode) : Prop :=
  e = SlowDown /\ (0 < d)%Z /\ max_bytes opt <> 0%Z /\ (max_bytes opt < stored a + d)%Z.
(** The condition of a conditional write against the object it would replace. *)
Definition cond_fails (cond : PutCondition) (cur : option Object) (e : S3ErrorCode) : Prop :=
  (e = PreconditionFailed /\ if_none_match cond = true /\ is_Some cur) \/
  (e = NoSuchKey /\ is_Some (if_match_etag cond) /\ cur = None) \/
  (e = PreconditionFailed /\ exists t o, if_match_etag cond = Some t /\ cur = Some o /\ t <> etag (obj_meta o)).
(** A listed part that is not stored with the ETag the client gives. *)
Definition missing_part (u : Upload) (ps : list PartInfo) : Prop :=
  exists p, p ∈ ps /\ forall sp, up_parts u !! pi_part_no p = Some sp -> part_etag sp <> strip_etag_quotes (pi_etag p).
(** The stored parts a completion lists, in its order. *)
Definition selected (u : Upload) (ps : list PartInfo) (qs : list Part) : Prop :=
  Forall2 (λ p sp, up_parts u !! pi_part_no p = Some sp /\ part_etag sp = strip_etag_quotes (pi_etag p)) ps qs.

Definition refused (a : AStore) (r : request) (e : S3ErrorCode) : Prop :=
  match r with
  | RCreateBucket b _ => bad_name b e \/ (e = BucketAlreadyOwnedByYou /\ is_Some (a_buckets a !! b))
  | RDeleteBucket b =>
      bad_name b e \/ no_bucket a b e \/ (e = BucketNotEmpty /\ exists B, a_buckets a !! b = Some B /\ objs B <> ∅)
  | RBucketExists b => bad_name b e
  | RListBuckets => False
  | RPut b k _ body cond _ =>
      bad_name b e \/ bad_key k e \/ no_bucket a b e \/ body_error body = Some e \/
      over_budget a (blen (body_bytes body)) e \/
      exists B, a_buckets a !! b = Some B /\ cond_fails cond (objs B !! k) e
  | RGet b k range =>
      bad_name b e \/ no_bucket a b e \/ no_key a b k e \/
      exists r B o, range = Some r /\ a_buckets a !! b = Some B /\ objs B !! k = Some o /\
        resolve_range r (blen (obj_data o)) = Throw e
  | RHead b k => bad_name b e \/ no_bucket a b e \/ no_key a b k e
  | RTagging b k _ => bad_name b e \/ bad_key k e \/ no_bucket a b e \/ no_key a b k e
  | RDelete b _ | RListObjects b _ | RListUploads b _ _ => bad_name b e \/ no_bucket a b e
  | RCreateMpu b k _ entropy _ =>
      bad_name b e \/ bad_key k e \/ no_bucket a b e \/ (e = InternalError /\ entropy = None)
  | RUploadPart b k id n body _ _ =>
      (e = InvalidArgument /\ ~ (1 <= n <= 10000)%Z) \/ no_upload a b k id e \/ body_error body = Some e \/
      over_budget a (blen (body_bytes body)) e
  | RComplete b k id ps _ =>
      (e = InvalidPart /\ ps = []) \/ (e = InvalidPartOrder /\ ~ ascending 0 (pi_part_no <$> ps)) \/
      no_upload a b k id e \/ no_bucket a b e \/
      exists u B, a_mpu a !! id = Some u /\ up_bucket u = b /\ up_key u = k /\ a_buckets a !! b = Some B /\
        ((e = InvalidPart /\ missing_part u ps) \/
         exists qs, selected u ps qs /\ over_budget a (blen (concat (part_data <$> qs)) - old_size B k) e)
  | RAbort b k id | RListParts b k id _ => no_upload a b k id e
  end.

(** ** What a request that is not refused does and answers *)

(** The uploads the sweep of expired uploads leaves: all of them without a lifetime,
    otherwise those initiated within it. *)
Definition kept (now : time_point) (m : gmap bytes Upload) : gmap bytes Upload :=
  if (mpu_ttl_sec opt <=? 0)%Z then m
  else filter (λ iu : bytes * Upload, (now - mpu_ttl_sec opt * 1000000000 <= up_initiated iu.2)%Z) m.

(** Metadata of an object written with the request metadata [meta]. *)
Definition described (m meta : ObjectMeta) (k d et : bytes) (now : time_point) : Prop :=
  okey m = k /\ osize m = blen d /\ etag m = et /\ last_modified m = now /\
  content_type m = content_type meta /\ user_meta m = user_meta meta /\ tagging m = tagging meta /\
  Forall (λ f, field_get f m = field_get f meta) kStdMetaFields.

(** The reader of a GET: drained with any sufficient non-empty buffers it yields [d]. *)
Definition serves (rd : BlobReader) (d : bytes) : Prop :=
  forall bufs, Forall (λ n, 0 < n) bufs -> length d <= length bufs -> drain bufs rd = d.

(** The keys of a map, ascending. *)
Definition keys_of {V} (m : gmap bytes V) (ks : list bytes) : Prop :=
  StronglySorted bytes_lt ks /\ forall k, k ∈ ks <-> is_Some (m !! k).

Definition put_at (a : AStore) (b : bytes) (B : Bucket) (k : bytes) (o : Object) : AStore :=
  mkAStore (<[b := mkBucket (info B) (<[k := o]> (objs B))]> (a_buckets a)) (a_mpu a).

Inductive spec_ok (a : AStore) : request -> reply -> AStore -> Prop :=
| spec_create_bucket b now :
    a_buckets a !! b = None ->
    spec_ok a (RCreateBucket b now) PDone
      (mkAStore (<[b := mkBucket (mkBucketInfo b now) ∅]> (a_buckets a)) (a_mpu a))
| spec_delete_bucket b B :
    a_buckets a !! b = Some B -> objs B = ∅ ->
    spec_ok a (RDeleteBucket b) PDone (mkAStore (delete b (a_buckets a)) (a_mpu a))
| spec_bucket_exists b x :
    (x = true <-> is_Some (a_buckets a !! b)) -> spec_ok a (RBucketExists b) (PExists x) a
| spec_list_buckets ks l :
    keys_of (a_buckets a) ks -> Forall2 (λ b i, info <$> a_buckets a !! b = Some i) ks l ->
    spec_ok a RListBuckets (PBuckets l) a
| spec_put b k meta body cond now B m r :
    a_buckets a !! b = Some B ->
    described m meta k (body_bytes body) (md5_hex (body_bytes body)) now ->
    checksum_value m = resolved_checksum_value meta -> put_etag r = md5_hex (body_bytes body) ->
    spec_ok a (RPut b k meta body cond now) (PPut r) (put_at a b B k (mkObject m (body_bytes body)))
| spec_get b k B o st :
    a_buckets a !! b = Some B -> objs B !! k = Some o ->
    os_meta st = obj_meta o -> os_range st = None -> serves (os_body st) (obj_data o) ->
    spec_ok a (RGet b k None) (PStream st) a
| spec_get_range b k r B o f l st :
    a_buckets a !! b = Some B -> objs B !! k = Some o -> resolve_range r (blen (obj_data o)) = Ok (f, l) ->
    os_meta st = obj_meta o -> os_range st = Some (mkByteRange (Some f) (Some l)) ->
    (0 <= f <= l /\ l < blen (obj_data o))%Z ->
    serves (os_body st) (take (Z.to_nat (l - f + 1)) (drop (Z.to_nat f) (obj_data o))) ->
    spec_ok a (RGet b k (Some r)) (PStream st) a
| spec_head b k B o :
    a_buckets a !! b = Some B -> objs B !! k = Some o -> spec_ok a (RHead b k) (PMeta (obj_meta o)) a
| spec_tagging b k t B o :
    a_buckets a !! b = Some B -> objs B !! k = Some o ->
    spec_ok a (RTagging b k t) PDone (put_at a b B k (mkObject (set_tagging t (obj_meta o)) (obj_data o)))
| spec_delete b k B :
    a_buckets a !! b = Some B ->
    spec_ok a (RDelete b k) PDone (mkAStore (<[b := mkBucket (info B) (delete k (objs B))]> (a_buckets a)) (a_mpu a))
| spec_list_objects b o B ks fetch :
    a_buckets a !! b = Some B -> keys_of (objs B) ks ->
    (forall k ob, objs B !! k = Some ob -> fetch k = obj_meta ob) ->
    spec_ok a (RListObjects b o) (PObjects (apply_listing o fetch ks)) a
| spec_create_mpu b k meta e now :
    spec_ok a (RCreateMpu b k meta (Some e) now) (PUploadId (Hex.to_hex e))
      (mkAStore (a_buckets a) (<[Hex.to_hex e := mkUpload b k meta ∅ now]> (kept now (a_mpu a))))
| spec_upload_part b k id n body c now u p r :
    a_mpu a !! id = Some u -> up_bucket u = b -> up_key u = k ->
    part_data p = body_bytes body -> part_etag p = md5_hex (body_bytes body) -> part_uploaded p = now ->
    (part_checksum_algorithm p, part_checksum_value p) =
      match c with Some c => (pc_algorithm c, pc_resolved c) | None => ([], []) end ->
    put_etag r = md5_hex (body_bytes body) ->
    spec_ok a (RUploadPart b k id n body c now) (PPut r)
      (mkAStore (a_buckets a) (<[id := mkUpload b k (up_meta u) (<[n := p]> (up_parts u)) (up_initiated u)]> (a_mpu a)))
| spec_complete b k id ps now u B qs m r :
    a_mpu a !! id = Some u -> up_bucket u = b -> up_key u = k -> a_buckets a !! b = Some B -> selected u ps qs ->
    described m (up_meta u) k (concat (part_data <$> qs)) (combined_etag md5_hex (part_etag <$> qs)) now ->
    part_sizes m = (λ p, blen (part_data p)) <$> qs -> put_etag r = etag m ->
    spec_ok a (RComplete b k id ps now) (PPut r)
      (mkAStore (a_buckets (put_at a b B k (mkObject m (concat (part_data <$> qs))))) (delete id (a_mpu a)))
| spec_abort b k id : spec_ok a (RAbort b k id) PDone (mkAStore (a_buckets a) (delete id (a_mpu a)))
| spec_list_parts b k id o u ns l :
    a_mpu a !! id = Some u -> StronglySorted Z.lt ns ->
    (forall n, n ∈ ns <-> (part_number_marker o < n)%Z /\ is_Some (up_parts u !! n)) ->
    Forall2 (λ n pm, exists p, up_parts u !! n = Some p /\ pm = part_meta_of (n, p)) ns l ->
    spec_ok a (RListParts b k id o) (PParts (apply_parts_page l o)) a
| spec_list_uploads b o now l :
    StronglySorted upload_le l -> NoDup l ->
    (forall x, x ∈ l <-> exists id u, kept now (a_mpu a) !! id = Some u /\ up_bucket u = b /\
       x = mkUploadInfo (up_key u) id (up_initiated u)) ->
    spec_ok a (RListUploads b o now) (PUploads (apply_uploads_page l o)) (mkAStore (a_buckets a) (kept now (a_mpu a))).

(** The sweep a request makes before it looks at its bucket. *)
Definition sweep_of (r : request) : option time_point :=
  match r with RCreateMpu _ _ _ _ now | RListUploads _ _ now => Some now | _ => None end.

(** A request run to completion by the backend. *)
Definition exec (r : request) : M reply :=
  match r with
  | RCreateBucket b now => _ ← create_bucket b now; mret PDone
  | RDeleteBucket b => _ ← delete_bucket b; mret PDone
  | RBucketExists b => x ← bucket_exists b; mret (PExists x)
  | RListBuckets => l ← list_buckets; mret (PBuckets l)
  | RPut b k meta body cond now => x ← put_object opt md5_hex b k meta body cond now; mret (PPut x)
  | RGet b k range => x ← get_object b k range; mret (PStream x)
  | RHead b k => x ← head_object b k; mret (PMeta x)
  | RTagging b k t => _ ← set_object_tagging b k t; mret PDone
  | RDelete b k => _ ← delete_object opt b k; mret PDone
  | RListObjects b o => x ← list_objects b o; mret (PObjects x)
  | RCreateMpu b k meta e now => x ← create_multipart opt b k meta e now; mret (PUploadId x)
  | RUploadPart b k id n body c now => x ← upload_part opt md5_hex b k id n body c now; mret (PPut x)
  | RComplete b k id ps now => x ← complete_multipart opt md5_hex sha1 sha256 b k id ps now; mret (PPut x)
  | RAbort b k id => _ ← abort_multipart opt b k id; mret PDone
  | RListParts b k id o => x ← list_parts b k id o; mret (PParts x)
  | RListUploads b o now => x ← list_multipart_uploads opt b o now; mret (PUploads x)
  end.

(** What a run must establish. An answer: there was no reason to refuse, and effect and
    answer are the specified ones. An exception: it is one of the reasons to refuse, and
    the state is the one before, or what the sweep of expired uploads makes of it. *)
Definition swept (now : time_point) (s s' : State) : Prop :=
  s' = (expire_uploads_locked opt now s).2 /\ buckets s' = buckets s /\ uploads s' = kept now (uploads s).
Definition agrees (r : request) (s : State) (out : res S3ErrorCode reply * State) : Prop :=
  match out with
  | (Ok rep, s') => (forall e, ~ refused (abs s) r e) /\ spec_ok (abs s) r rep (abs s')
  | (Throw e, s') => refused (abs s) r e /\ (s' = s \/ exists now, sweep_of r = Some now /\ swept now s s')
  end.
End spec.
