(* ===== verification/MemorySim.v ===== *)
(** The in-memory backend follows the contract of [MemorySpec], request by request. *)

From S2P Require Import Prelude Bytes Util Backend Validate Listing Multipart MemoryBackend MemorySpec.
From Stdlib Require Import ZArith Lia.
From stdpp Require Import base list gmap sets strings sorting.

(** * Readers *)
Lemma drain_all bufs : forall r,
  Forall (λ n, 0 < n) bufs -> len r - pos r <= length bufs ->
  drain bufs r = substr (blob r) (off r + pos r) (len r - pos r).
Proof.
  induction bufs as [|n bufs IH]; intros r Hp Hl; cbn [drain].
  - cbn in Hl. by replace (len r - pos r) with 0 by lia.
  - apply list.Forall_cons in Hp as [Hn Hp]. cbn in Hl. unfold blob_read at 1. rewrite IH; [|done|cbn; lia]. cbn.
    unfold substr. set (m := len r - pos r). replace (len r - (pos r + Nat.min n m)) with (m - Nat.min n m) by lia.
    rewrite Nat.add_assoc, <- (drop_drop _ _ (off r + pos r)).
    rewrite take_take_drop. f_equal. lia.
Qed.

(** A reader limited to a window of the blob. *)
Lemma drain_window data f n bufs :
  Forall (λ n, 0 < n) bufs -> n <= length bufs -> drain bufs (mkBlobReader data f n 0) = substr data f n.
Proof. intros Hp Hl. rewrite drain_all by (cbn; done || lia). cbn. by rewrite Nat.add_0_r, Nat.sub_0_r. Qed.

Lemma serves_window data f n : f + n <= length data -> serves (mkBlobReader data f n 0) (take n (drop f data)).
Proof.
  intros Hn bufs Hp Hl. rewrite drain_window; [done|done|].
  rewrite length_take, length_drop in Hl. lia.
Qed.

Lemma serves_all data : serves (mkBlobReader data 0 (length data) 0) data.
Proof. pose proof (serves_window data 0 (length data) (Nat.le_refl _)) as H. by rewrite drop_0, firstn_all in H. Qed.

(** * Orders *)
Lemma items_keys_sorted {V} (m : gmap bytes V) : StronglySorted bytes_lt (items_of m).*1.
Proof.
  pose proof (map_items_sorted bytes_le m) as Hs. unfold items_of. induction Hs as [|x l _ IH Hall]; constructor; [done|].
  eapply list.Forall_impl; [exact Hall|]. cbn. intros y [Hle Hne]. by apply bytes_le_lt_eq in Hle as [?|?].
Qed.

Lemma items_keys_of {V} (m : gmap bytes V) : keys_of m (items_of m).*1.
Proof. split; [apply items_keys_sorted|]. intros k. unfold items_of. apply map_items_keys. Qed.

#[global] Instance upload_le_total : Total upload_le.
Proof.
  intros x y. unfold upload_le. destruct (bytes_lt_total (ui_key x) (ui_key y)) as [?|[E|?]]; [by left; left| |by right; left].
  destruct (total bytes_le (ui_upload_id x) (ui_upload_id y)); [left|right]; right; by split.
Qed.
#[global] Instance upload_le_trans : Transitive upload_le.
Proof.
  intros x y z. unfold upload_le. intros [H1|[E1 H1]] [H2|[E2 H2]].
  - left. by trans (ui_key y).
  - left. by rewrite <- E2.
  - left. by rewrite E1.
  - right. split; [congruence|]. by trans (ui_upload_id y).
Qed.

(** Distinct uploads are listed as distinct entries. *)
Lemma NoDup_omap_info b (l : list (bytes * Upload)) :
  NoDup l.*1 ->
  NoDup (omap (λ iu : bytes * Upload, if bool_decide (up_bucket iu.2 = b)
    then Some (mkUploadInfo (up_key iu.2) iu.1 (up_initiated iu.2)) else None) l).
Proof.
  induction l as [|[id u] l IH]; cbn; [constructor|]. intros [Hn Hl]%list.NoDup_cons.
  case_bool_decide; [|by apply IH]. constructor; [|by apply IH]. intros Hin.
  apply list_elem_of_omap in Hin as ([id' u'] & Hin & Hx). cbn in Hx. case_bool_decide; [|done]. simplify_eq.
  apply Hn. apply list_elem_of_fmap. by exists (id, u').
Qed.

Section sim.
Context (opt : MemoryOptions) (md5_hex sha1 sha256 : bytes -> bytes) (Hopt : opt_ok opt).

(** * The budget *)
Lemma stored_abs s : stored (abs s) = MemoryBackend.total s.
Proof. done. Qed.

(** [reserve_locked] refuses exactly the growth that exceeds the limit. *)
Lemma reserve_exact d s :
  accounts opt (used_bytes s) (MemoryBackend.total s) -> (max_bytes opt <> 0 -> d < 2 ^ 63)%Z ->
  (reserve_locked opt d s = (Throw SlowDown, s) /\ over_budget opt (abs s) d SlowDown) \/
  (exists used, reserve_locked opt d s = (Ok tt, set_used used s) /\ forall e, ~ over_budget opt (abs s) d e).
Proof.
  intros (Hu & Ht & Hcap) Hd. unfold reserve_locked, over_budget. rewrite stored_abs.
  destruct (Z.ltb_spec 0 d) as [Hd0|Hd0]; cbn [andb]; [|right; eexists; split; [done|lia]].
  destruct (Z.eqb_spec (max_bytes opt) 0) as [Hm|Hm]; cbn [negb andb]; [right; eexists; split; [done|lia]|].
  specialize (Hcap Hm). specialize (Hd Hm). unfold opt_ok in Hopt. rewrite Hu, (u64_small d), (u64_small (MemoryBackend.total s)) by (unfold is_u64; lia).
  rewrite (u64_small (_ + _)) by (unfold is_u64; lia).
  destruct (Z.ltb_spec (max_bytes opt) (MemoryBackend.total s + d)); [left; by split_and!|right; eexists; split; [done|lia]].
Qed.

(** The in-flight checks refuse exactly a body that does not fit. *)
Lemma read_body_exact s body : forall d0,
  accounts opt (used_bytes s) (MemoryBackend.total s) -> (blen (d0 ++ body_bytes body) < 2 ^ 63)%Z ->
  (max_bytes opt <> 0 -> MemoryBackend.total s + blen d0 <= max_bytes opt)%Z ->
  match read_body opt (alone s body) d0 with
  | Ok d => d = d0 ++ body_bytes body /\ body_error body = None /\
      (max_bytes opt <> 0 -> MemoryBackend.total s + blen d <= max_bytes opt)%Z
  | Throw e => body_error body = Some e \/
      (e = SlowDown /\ max_bytes opt <> 0 /\ max_bytes opt < MemoryBackend.total s + blen (d0 ++ body_bytes body))%Z
  end.
Proof.
  induction body as [|[c|e] body IH]; intros d0 Hacc Hlt Hfit; cbn.
  - by rewrite app_nil_r.
  - cbn in Hlt. destruct (empty_string c) eqn:Ec; [by rewrite app_nil_r|].
    change ((λ r, (r, used_bytes s)) <$> body) with (alone s body).
    unfold check_inflight, throw_if. pose proof Hacc as (Hu & Ht & Hcap). rewrite app_assoc in *.
    assert (0 <= blen (d0 ++ c) <= blen ((d0 ++ c) ++ body_bytes body))%Z as Hle
      by (rewrite (blen_app (d0 ++ c)); pose proof (blen_nonneg (d0 ++ c)); pose proof (blen_nonneg (body_bytes body)); lia).
    destruct (Z.eqb_spec (max_bytes opt) 0) as [Hm|Hm]; cbn [negb andb mbind res_bind]; [by apply IH|].
    specialize (Hcap Hm). unfold opt_ok in Hopt. rewrite Hu, (u64_small (MemoryBackend.total s)) by (unfold is_u64; lia).
    rewrite (u64_small (_ + _)) by (unfold is_u64; lia).
    destruct (Z.ltb_spec (max_bytes opt) (MemoryBackend.total s + blen (d0 ++ c))); cbn [mbind res_bind].
    + right. split_and!; [done|done|lia].
    + apply IH; [done|done|lia].
  - by left.
Qed.

Lemma read_body_start s body :
  accounts opt (used_bytes s) (MemoryBackend.total s) -> (blen (body_bytes body) < 2 ^ 63)%Z ->
  match read_body opt (alone s body) [] with
  | Ok d => d = body_bytes body /\ body_error body = None /\
      (forall e, ~ over_budget opt (abs s) (blen (body_bytes body)) e)
  | Throw e => body_error body = Some e \/ over_budget opt (abs s) (blen (body_bytes body)) e
  end.
Proof.
  intros Hacc Hlt. pose proof (read_body_exact s body [] Hacc Hlt) as H. cbn [app] in H.
  pose proof Hacc as (Hu & Ht & Hcap). specialize (H ltac:(unfold blen; cbn; intros Hm; specialize (Hcap Hm); lia)).
  unfold over_budget. rewrite stored_abs. destruct (read_body _ _ _) as [d|e].
  - destruct H as (-> & He & Hf). split_and!; [done|done|]. intros e (_ & _ & Hm & Hx). specialize (Hf Hm). lia.
  - destruct H as [H|(-> & Hm & Hx)]; [by left|right]. specialize (Hcap Hm). split_and!; [done|lia|done|done].
Qed.

(** After the in-flight checks the booking of the commit cannot be refused. *)
Lemma reserve_fits d old s :
  accounts opt (used_bytes s) (MemoryBackend.total s) -> (0 <= old)%Z -> (d < 2 ^ 63)%Z -> (0 <= d)%Z ->
  (forall e, ~ over_budget opt (abs s) d e) ->
  exists used, reserve_locked opt (d - old) s = (Ok tt, set_used used s).
Proof.
  intros Hacc Ho Hd Hd0 Hno. destruct (reserve_exact (d - old) s Hacc ltac:(lia)) as [[_ Hx]|(used & E & _)]; [|by exists used].
  destruct (Hno SlowDown). destruct Hx as (_ & ? & ? & ?). split_and!; [done|lia|done|lia].
Qed.

(** Without the budget: the bytes read, and a booking that only touches the counter. *)
Lemma read_body_bytes s body : forall d0 d, read_body opt (alone s body) d0 = Ok d -> d = d0 ++ body_bytes body.
Proof.
  induction body as [|[c|e] body IH]; intros d0 d; cbn.
  - intros [= <-]. by rewrite app_nil_r.
  - destruct (empty_string c); [intros [= <-]; by rewrite app_nil_r|].
    destruct (check_inflight _ _ _); [|done]. cbn. intros H%IH. by rewrite app_assoc.
  - done.
Qed.
Lemma reserve_abs d s :
  reserve_locked opt d s = (Throw SlowDown, s) \/ exists used, reserve_locked opt d s = (Ok tt, set_used used s).
Proof. unfold reserve_locked. case_if; eauto. Qed.

(** Releasing bytes never throws. *)
Lemma reserve_release d s : (d <= 0)%Z -> exists used, reserve_locked opt d s = (Ok tt, set_used used s).
Proof. intros. unfold reserve_locked. destruct (Z.ltb_spec 0 d); [lia|]. eauto. Qed.

(** * The sweep *)
Lemma expire_loop_exact cutoff ups : forall s,
  exists s', expire_loop opt cutoff ups s = (Ok tt, s') /\ buckets s' = buckets s /\
    forall id u, uploads s' !! id = Some u <->
      uploads s !! id = Some u /\ ~ exists u', (id, u') ∈ ups /\ (up_initiated u' < cutoff)%Z.
Proof.
  induction ups as [|[id u] ups IH]; intros s; cbn [expire_loop].
  { exists s. split_and!; [done|done|]. intros. set_solver. }
  destruct (Z.leb_spec cutoff (up_initiated u)) as [Hc|Hc].
  - destruct (IH s) as (s' & E & Hb & Hu). exists s'. split_and!; [done|done|]. intros id' v. rewrite Hu.
    enough ((exists u', (id', u') ∈ ups /\ (up_initiated u' < cutoff)%Z)
      <-> exists u', (id', u') ∈ (id, u) :: ups /\ (up_initiated u' < cutoff)%Z) as -> by done.
    split; intros (u' & Hin & Hl); exists u'; (split; [|done]); [by right|].
    apply elem_of_cons in Hin as [[= -> ->]|Hin]; [lia|done].
  - unfold mbind, ST_bind, modify. destruct (reserve_release (- parts_bytes u) s) as [used ->].
    { pose proof (parts_bytes_nonneg u). lia. }
    cbn [uploads set_used]. destruct (IH (set_uploads (delete id (uploads s)) (set_used used s))) as (s' & E & Hb & Hu).
    exists s'. split_and!; [done|done|]. intros id' v. rewrite Hu. cbn [uploads set_uploads].
    rewrite lookup_delete_Some. split.
    + intros [[Hne Hv] Hno]. split; [done|]. intros (u' & Hin & Hl).
      apply elem_of_cons in Hin as [[= -> ->]|Hin]; [done|]. apply Hno. eauto.
    + intros [Hv Hno]. split_and!; [|done|].
      * intros ->. apply Hno. exists u. split; [by left|done].
      * intros (u' & Hin & Hl). apply Hno. exists u'. split; [by right|done].
Qed.

Lemma expire_exact now s :
  exists s', expire_uploads_locked opt now s = (Ok tt, s') /\ swept opt now s s'.
Proof.
  unfold swept, kept, expire_uploads_locked. case_if; [by exists s|].
  unfold mbind, ST_bind, get_st.
  destruct (expire_loop_exact (now - mpu_ttl_sec opt * 1000000000) (items_of (uploads s)) s) as (s' & E & Hb & Hu).
  exists s'. rewrite E. split_and!; [done|done|done|]. apply map_eq. intros id. apply option_eq. intros u.
  rewrite Hu, map_lookup_filter_Some. cbn. split; intros [Hv H]; (split; [done|]).
  - apply Z.nlt_ge. intros Hl. apply H. exists u. unfold items_of. by rewrite map_items_elem.
  - intros (u' & Hin & Hl). unfold items_of in Hin. rewrite map_items_elem in Hin. simplify_eq. lia.
Qed.

(** * Request by request *)
Ltac run := cbn [exec]; unfold bucket_or_throw, upload_or_throw, object_or_throw, store_bucket;
  unfold mbind, ST_bind, mret, ST_ret, lift, throw, get_st, put_st, modify; cbv beta.

Local Abbreviation agrees := (agrees opt md5_hex).
Local Abbreviation exec := (exec opt md5_hex sha1 sha256).

(** A refusal that changes nothing. *)
Lemma agrees_throw r s e : refused opt (abs s) r e -> agrees r s (Throw e, s).
Proof. intros H. split; [done|by left]. Qed.

Ltac refuse := apply agrees_throw; cbn [refused];
  unfold bad_name, bad_key, no_bucket, no_key, no_upload, abs; cbn [a_buckets a_mpu]; naive_solver.
Ltac granted := let Hr := fresh "Hr" in intros ?e Hr; cbn [refused] in Hr;
  unfold bad_name, bad_key, no_bucket, no_key, no_upload, abs in Hr; cbn [a_buckets a_mpu] in Hr;
  destruct_or?; destruct_and?;
  repeat match goal with H : exists _, _ |- _ => destruct H | H : is_Some _ |- _ => destruct H
    | H : _ /\ _ |- _ => destruct H end; simplify_eq; try congruence; naive_solver.

Lemma create_bucket_sim b now s : agrees (RCreateBucket b now) s (exec (RCreateBucket b now) s).
Proof.
  run. unfold create_bucket. run. destruct (validate_bucket_name b true) as [[]|] eqn:Ev; [|refuse].
  destruct (buckets s !! b) as [B|] eqn:EB; [refuse|]. split; [granted|]. by constructor.
Qed.

Lemma delete_bucket_sim b s : agrees (RDeleteBucket b) s (exec (RDeleteBucket b) s).
Proof.
  run. unfold delete_bucket. run. destruct (validate_bucket_name b true) as [[]|] eqn:Ev; [|refuse].
  destruct (buckets s !! b) as [B|] eqn:EB; [|refuse].
  case_bool_decide as He; cbn [negb]; [|refuse]. split; [granted|]. by econstructor.
Qed.

Lemma bucket_exists_sim b s : agrees (RBucketExists b) s (exec (RBucketExists b) s).
Proof.
  run. unfold bucket_exists. run. destruct (validate_bucket_name b true) as [[]|] eqn:Ev; [|refuse].
  split; [granted|]. constructor. by rewrite bool_decide_eq_true.
Qed.

Lemma list_buckets_sim s : agrees RListBuckets s (exec RListBuckets s).
Proof.
  run. unfold list_buckets. run. split; [granted|]. eapply (spec_list_buckets _ _ _ (items_of (buckets s)).*1); [apply items_keys_of|].
  apply Forall2_fmap. apply Forall_Forall2_diag. apply list.Forall_forall. intros [b B] Hin.
  unfold items_of in Hin. rewrite map_items_elem in Hin. cbn. by rewrite Hin.
Qed.

(** The conditional-write check refuses exactly for the stated reasons. *)
Lemma check_condition_exact cond cur :
  match check_condition cond cur with
  | Ok _ => forall e, ~ cond_fails cond cur e
  | Throw e => cond_fails cond cur e
  end.
Proof.
  unfold check_condition, cond_active, cond_fails, throw_if.
  destruct (if_none_match cond), (if_match_etag cond) as [t|], cur as [o|]; cbn; try naive_solver.
  all: try case_bool_decide; cbn; naive_solver.
Qed.

Lemma finalize_described meta k d et now :
  let m := finalize_checksum (set_last_modified now (set_etag et (set_osize (blen d) (set_okey k meta)))) in
  described m meta k d et now /\ checksum_value m = resolved_checksum_value meta.
Proof.
  cbv zeta. split; [|by rewrite (proj1 (finalize_resolved _))].
  unfold finalize_checksum, described, kStdMetaFields. cbn [checksum_pending set_last_modified set_etag set_osize set_okey].
  destruct (checksum_pending meta) as [p|]; [case_if|]; split_and!; try done; repeat constructor.
Qed.

Lemma put_object_sim b k meta body cond now s :
  inv opt md5_hex s -> (blen (body_bytes body) < 2 ^ 63)%Z ->
  agrees (RPut b k meta body cond now) s (exec (RPut b k meta body cond now) s).
Proof.
  intros Hi Hlen. pose proof (inv_used _ _ _ Hi) as Hacc. run. unfold put_object, put_commit. run.
  destruct (validate_bucket_name b true) as [[]|] eqn:Ev; [|refuse].
  destruct (validate_object_key k) as [[]|] eqn:Ek; [|refuse].
  pose proof (read_body_start s body Hacc Hlen) as Hr.
  destruct (read_body _ _ _) as [d|e]; [destruct Hr as (-> & Hbe & Hno)|refuse].
  destruct (buckets s !! b) as [B|] eqn:EB; [|refuse].
  pose proof (check_condition_exact cond (objs B !! k)) as Hc.
  destruct (check_condition cond (objs B !! k)) as [[]|e]; [|refuse].
  destruct (reserve_fits (blen (body_bytes body)) (old_size B k) s Hacc (proj1 (old_size_range s b B k EB))
    Hlen (blen_nonneg _) Hno) as [used ->].
  split; [granted|]. destruct (finalize_described meta k (body_bytes body) (md5_hex (body_bytes body)) now) as [Hd Hv].
  by apply spec_put; [|exact Hd|exact Hv|apply put_meta_etag].
Qed.

Lemma get_object_sim b k range s :
  req_ok (RGet b k range) -> agrees (RGet b k range) s (exec (RGet b k range) s).
Proof.
  intros Hq. run. unfold get_object. run. destruct (validate_bucket_name b true) as [[]|] eqn:Ev; [|refuse].
  destruct (buckets s !! b) as [B|] eqn:EB; [|refuse]. destruct (objs B !! k) as [o|] eqn:Eo; [|refuse].
  destruct range as [r|].
  - destruct (resolve_range r (blen (obj_data o))) as [[f l]|e] eqn:Er; [|refuse].
    pose proof (resolve_range_bounds r (blen (obj_data o)) f l (blen_nonneg _) (proj1 Hq) (proj2 Hq) Er).
    split; [granted|]. eapply spec_get_range; try done.
    apply serves_window. unfold blen in *. lia.
  - split; [granted|]. eapply spec_get; try done. apply serves_all.
Qed.

Lemma head_object_sim b k s : agrees (RHead b k) s (exec (RHead b k) s).
Proof.
  run. unfold head_object. run. destruct (validate_bucket_name b true) as [[]|] eqn:Ev; [|refuse].
  destruct (buckets s !! b) as [B|] eqn:EB; [|refuse]. destruct (objs B !! k) as [o|] eqn:Eo; [|refuse].
  split; [granted|]. by econstructor.
Qed.

Lemma tagging_sim b k t s : agrees (RTagging b k t) s (exec (RTagging b k t) s).
Proof.
  run. unfold set_object_tagging. run. destruct (validate_bucket_name b true) as [[]|] eqn:Ev; [|refuse].
  destruct (validate_object_key k) as [[]|] eqn:Ek; [|refuse].
  destruct (buckets s !! b) as [B|] eqn:EB; [|refuse]. destruct (objs B !! k) as [o|] eqn:Eo; [|refuse].
  split; [granted|]. by apply spec_tagging.
Qed.

Lemma delete_object_sim b k s : agrees (RDelete b k) s (exec (RDelete b k) s).
Proof.
  run. unfold delete_object. run. destruct (validate_bucket_name b true) as [[]|] eqn:Ev; [|refuse].
  destruct (buckets s !! b) as [B|] eqn:EB; [|refuse].
  destruct (objs B !! k) as [o|] eqn:Eo.
  - destruct (reserve_release (- blen (obj_data o)) s) as [used ->]; [pose proof (blen_nonneg (obj_data o)); lia|].
    split; [granted|]. by apply spec_delete.
  - split; [granted|]. pose proof (spec_delete opt md5_hex (abs s) b k B EB) as H.
    rewrite (delete_id (objs B)) in H by done. replace (mkBucket (info B) (objs B)) with B in H by (by destruct B).
    by rewrite insert_id in H.
Qed.

Lemma list_objects_sim b o s : agrees (RListObjects b o) s (exec (RListObjects b o) s).
Proof.
  run. unfold list_objects. run. destruct (validate_bucket_name b true) as [[]|] eqn:Ev; [|refuse].
  destruct (buckets s !! b) as [B|] eqn:EB; [|refuse]. split; [granted|].
  eapply spec_list_objects; [done|apply items_keys_of|]. cbn. by intros k ob ->.
Qed.

(** A request that first sweeps: refused afterwards, or run on what is kept. *)
Lemma agrees_swept r now s s' e :
  sweep_of r = Some now -> swept opt now s s' -> refused opt (abs s) r e -> agrees r s (Throw e, s').
Proof. intros Hr Hs H. split; [done|]. right. by exists now. Qed.
Ltac refuse_swept := eapply agrees_swept; [reflexivity|eassumption|]; cbn [refused];
  unfold bad_name, bad_key, no_bucket, abs; cbn [a_buckets a_mpu]; naive_solver.

Lemma create_mpu_sim b k meta e now s : agrees (RCreateMpu b k meta e now) s (exec (RCreateMpu b k meta e now) s).
Proof.
  run. unfold create_multipart. run. destruct (validate_bucket_name b true) as [[]|] eqn:Ev; [|refuse].
  destruct (validate_object_key k) as [[]|] eqn:Ek; [|refuse].
  destruct (expire_exact now s) as (s' & -> & Hs). pose proof Hs as (_ & Hb & Hu). rewrite Hb.
  destruct (buckets s !! b) as [B|] eqn:EB; [|refuse_swept]. destruct e as [e|]; [|refuse_swept].
  cbn [new_upload_id]. split; [granted|]. unfold abs. cbn [buckets uploads set_uploads]. rewrite Hb, Hu.
  apply (spec_create_mpu opt md5_hex (abs s)).
Qed.

Lemma upload_part_sim b k id n body c now s :
  inv opt md5_hex s -> (blen (body_bytes body) < 2 ^ 63)%Z ->
  agrees (RUploadPart b k id n body c now) s (exec (RUploadPart b k id n body c now) s).
Proof.
  intros Hi Hlen. pose proof (inv_used _ _ _ Hi) as Hacc. run. unfold upload_part, upload_part_commit. run.
  unfold validate_part_number, throw_if. destruct (_ || _) eqn:En.
  { apply agrees_throw. left. split; [done|]. bool_prop. lia. }
  destruct (uploads s !! id) as [u|] eqn:Eu; [|refuse].
  destruct (bool_decide (up_bucket u = b) && bool_decide (up_key u = k)) eqn:Em.
  2: { apply agrees_throw. right. left. split; [done|]. cbn. intros u' ?. simplify_eq.
    apply andb_false_iff in Em as [E|E]; bool_prop; [by left|by right]. }
  pose proof (read_body_start s body Hacc Hlen) as Hr.
  destruct (read_body _ _ _) as [d|e]; [destruct Hr as (-> & Hbe & Hno)|refuse].
  rewrite Eu, Em.
  destruct (reserve_fits (blen (body_bytes body)) (old_part_size u n) s Hacc (proj1 (old_part_size_range s id u n Eu))
    Hlen (blen_nonneg _) Hno) as [used ->].
  bool_prop. subst b k. split.
  - intros e. cbn [refused]. unfold no_upload. cbn. intros [[_ Hn]|[[_ Hn]|[Hn|Hn]]]; [lia| |congruence|by eapply Hno].
    by destruct (Hn u Eu).
  - eapply (spec_upload_part opt md5_hex (abs s) _ _ id n body c now u); try done; by destruct c.
Qed.

(** The selection loop finds the listed parts, or one of them is missing. *)
Lemma collect_parts_exact u ps :
  match collect_parts (up_parts u) ps with
  | Ok qs => selected u ps qs
  | Throw e => e = InvalidPart /\ missing_part u ps
  end.
Proof.
  unfold selected, missing_part. induction ps as [|p ps IH]; cbn; [constructor|].
  destruct (up_parts u !! pi_part_no p) as [sp|] eqn:Ep.
  - case_bool_decide as He; cbn [negb].
    + destruct (collect_parts (up_parts u) ps) as [qs|e]; cbn; [by constructor|].
      destruct IH as (-> & q & Hq & Hm). split; [done|]. exists q. split; [by right|done].
    + split; [done|]. exists p. split; [by left|]. intros sp' ?. rewrite Ep in *. by simplify_eq.
  - split; [done|]. exists p. split; [by left|]. intros sp' ?. by rewrite Ep in *.
Qed.

Lemma selected_det u ps qs qs' : selected u ps qs -> selected u ps qs' -> qs = qs'.
Proof.
  unfold selected. intros H. revert qs'. induction H as [|p q ps qs [Hp _] _ IH]; intros qs' H'.
  - by apply Forall2_nil_inv_l in H' as ->.
  - apply Forall2_cons_inv_l in H' as (q' & l & [Hp' _] & Hl & ->). f_equal; [congruence|by apply IH].
Qed.

Lemma selected_found u ps qs : selected u ps qs -> ~ missing_part u ps.
Proof.
  intros H (p & Hp & Hm). apply list_elem_of_lookup in Hp as [i Hi].
  destruct (Forall2_lookup_l _ _ _ _ _ H Hi) as (q & _ & Hq & He). by eapply Hm.
Qed.

Lemma validate_part_order_exact ps :
  match validate_part_order ps with
  | Ok _ => ps <> [] /\ ascending 0 (pi_part_no <$> ps)
  | Throw e => (e = InvalidPart /\ ps = []) \/ (e = InvalidPartOrder /\ ~ ascending 0 (pi_part_no <$> ps))
  end.
Proof.
  destruct (validate_part_order ps) as [[]|e] eqn:E; [by apply validate_part_order_Ok|].
  unfold validate_part_order in E. case_bool_decide as Hn; [left; by simplify_eq|right].
  destruct (part_order_loop 0 ps) as [[]|e'] eqn:El; [done|]. simplify_eq. split.
  - clear Hn. revert El. generalize 0%Z. induction ps as [|p ps IH]; cbn; [done|]. intros z. case_if; [by intros [= <-]|apply IH].
  - intros Ha. apply part_order_loop_spec in Ha. by rewrite El in Ha.
Qed.

(** The metadata of a completed object before its checksum. *)
Lemma apply_composite_described ds meta k d et now sizes r :
  let out := apply_composite_checksum sha1 sha256 ds
    (set_part_sizes sizes (set_last_modified now (set_etag et (set_osize (blen d) (set_okey k meta))))) r in
  described out.1 meta k d et now /\ part_sizes out.1 = sizes /\ put_etag out.2 = put_etag r.
Proof.
  cbv zeta. unfold apply_composite_checksum, described, kStdMetaFields.
  case_if; [|destruct (composite_checksum _ _ _ _)]; split_and!; try done; repeat constructor.
Qed.

(** The upload of a request, or [NoSuchUpload]. *)
Lemma upload_or_refused b k id s :
  (exists u, uploads s !! id = Some u /\ up_bucket u = b /\ up_key u = k /\
     upload_or_throw b k id s = (Ok u, s) /\ forall e, ~ no_upload (abs s) b k id e) \/
  (upload_or_throw b k id s = (Throw NoSuchUpload, s) /\ no_upload (abs s) b k id NoSuchUpload).
Proof.
  unfold upload_or_throw, no_upload. run. cbn. destruct (uploads s !! id) as [u|] eqn:Eu; [|right; naive_solver].
  destruct (decide (up_bucket u = b)) as [Hb|Hb], (decide (up_key u = k)) as [Hk|Hk].
  1: left; exists u; rewrite (bool_decide_eq_true_2 _ Hb), (bool_decide_eq_true_2 _ Hk); naive_solver.
  all: right; split; [repeat case_bool_decide; done|naive_solver].
Qed.

Lemma complete_sim b k id ps now s :
  inv opt md5_hex s -> agrees (RComplete b k id ps now) s (exec (RComplete b k id ps now) s).
Proof.
  intros Hi. pose proof (inv_used _ _ _ Hi) as Hacc. cbn [MemorySpec.exec]. unfold complete_multipart.
  unfold mbind at 1 2 3, ST_bind at 1 2 3. unfold lift at 1.
  pose proof (validate_part_order_exact ps) as Ho. destruct (validate_part_order ps) as [[]|e].
  2: { apply agrees_throw. cbn [refused]. tauto. }
  destruct (upload_or_refused b k id s) as [(u & Eu & Hb & Hk & -> & Hnu)|[-> Hnu]].
  2: { apply agrees_throw. cbn [refused]. tauto. }
  run. destruct (buckets s !! b) as [B|] eqn:EB; [|refuse].
  pose proof (collect_parts_exact u ps) as Hc.
  destruct (collect_parts (up_parts u) ps) as [qs|e] eqn:Ec.
  2: { apply agrees_throw. cbn [refused]. do 4 right. exists u, B. by split_and!; [..|left]. }
  match goal with |- context [apply_composite_checksum sha1 sha256 ?ds (set_part_sizes ?z _) ?r] =>
    pose proof (apply_composite_described ds (up_meta u) k (concat (part_data <$> qs)) (combined_etag md5_hex (part_etag <$> qs)) now z r) as Hm end.
  cbv zeta in Hm. destruct (apply_composite_checksum _ _ _ _ _) as [meta r']. cbn [fst snd] in Hm. destruct Hm as (Hm & Hz & Hr).
  assert (max_bytes opt <> 0 -> blen (concat (part_data <$> qs)) - old_size B k < 2 ^ 63)%Z as Hlt.
  { intros Hmax. pose proof (old_size_range _ _ _ k EB). pose proof (collect_parts_bytes _ _ _ _ (proj2 Ho) Ec) as Hle.
    fold (parts_bytes u) in Hle. pose proof (upload_total _ _ _ Eu). destruct Hacc as (_ & _ & Hcap).
    unfold opt_ok in Hopt. specialize (Hcap Hmax). lia. }
  destruct (reserve_exact _ s Hacc Hlt) as [[-> Hov]|(used & -> & Hno)].
  { apply agrees_throw. cbn [refused]. do 4 right. exists u, B. split_and!; try done. right. by exists qs. }
  match goal with |- context [reserve_locked opt (- parts_bytes u) ?s1] =>
    destruct (reserve_release (- parts_bytes u) s1) as [used' ->] end; [pose proof (parts_bytes_nonneg u); lia|].
  split.
  - intros e. cbn [refused]. intros [[_ ?]|[[_ ?]|[Hx|[[_ Hx]|(u' & B' & Hu' & _ & _ & HB' & Hx)]]]]; try tauto.
    + by eapply Hnu.
    + cbn in Hx. congruence.
    + cbn in Hu', HB'. simplify_eq. destruct Hx as [[_ Hx]|(qs' & Hq & Hx)]; [by eapply selected_found|].
      rewrite (selected_det _ _ _ _ Hq Hc) in Hx. by eapply Hno.
  - eapply (spec_complete opt md5_hex (abs s) b k id ps now u B qs meta r'); try done.
    rewrite Hr. cbn. symmetry. apply Hm.
Qed.

Lemma abort_sim b k id s : agrees (RAbort b k id) s (exec (RAbort b k id) s).
Proof.
  cbn [MemorySpec.exec]. unfold abort_multipart. unfold mbind at 1 2, ST_bind at 1 2.
  destruct (upload_or_refused b k id s) as [(u & Eu & Hb & Hk & -> & Hnu)|[-> Hnu]]; [|by apply agrees_throw].
  run. destruct (reserve_release (- parts_bytes u) s) as [used ->]; [pose proof (parts_bytes_nonneg u); lia|].
  split; [done|]. apply (spec_abort opt md5_hex (abs s)).
Qed.

(** [upper_bound] on the part numbers of an upload. *)
Lemma drop_while_sorted {V} (m : Z) (l : list (Z * V)) :
  StronglySorted Z.lt l.*1 ->
  exists l', drop_while (λ np, (np.1 <=? m)%Z) l = l' /\ StronglySorted Z.lt l'.*1 /\
    forall x, x ∈ l' <-> x ∈ l /\ (m < x.1)%Z.
Proof.
  intros Hs. eexists. split; [done|]. induction l as [|[n p] l IH]; cbn in *; [split; [constructor|set_solver]|].
  apply StronglySorted_inv in Hs as [Hs Hall]. destruct (Z.leb_spec n m) as [Hn|Hn].
  - destruct (IH Hs) as [H1 H2]. split; [done|]. intros x. rewrite H2, elem_of_cons.
    split; [naive_solver|]. intros [[->|?] ?]; [cbn in *; lia|done].
  - split; [by constructor|]. intros x. split; [|naive_solver]. intros Hx. split; [done|].
    apply elem_of_cons in Hx as [->|Hx]; [done|]. rewrite list.Forall_forall in Hall.
    specialize (Hall x.1 ltac:(apply list_elem_of_fmap; eauto)). lia.
Qed.

Lemma parts_of_sorted m : StronglySorted Z.lt (parts_of m).*1.
Proof.
  pose proof (map_items_sorted Z.le m) as Hs. unfold parts_of. induction Hs as [|x l _ IH Hall]; constructor; [done|].
  eapply list.Forall_impl; [exact Hall|]. cbn. intros y [Hle Hne]. lia.
Qed.

Lemma list_parts_sim b k id o s : agrees (RListParts b k id o) s (exec (RListParts b k id o) s).
Proof.
  cbn [MemorySpec.exec]. unfold list_parts. unfold mbind at 1 2, ST_bind at 1 2.
  destruct (upload_or_refused b k id s) as [(u & Eu & Hb & Hk & -> & Hnu)|[-> Hnu]]; [|by apply agrees_throw].
  run. split; [done|].
  destruct (drop_while_sorted (part_number_marker o) (parts_of (up_parts u)) (parts_of_sorted _)) as (l & -> & Hs & Hl).
  unfold parts_of in Hl. eapply (spec_list_parts opt md5_hex (abs s) b k id o u l.*1); [done|done| |].
  - intros n. rewrite list_elem_of_fmap. split.
    + intros ([n' p] & -> & Hin). apply Hl in Hin as [Hin Hn]. rewrite map_items_elem in Hin. cbn in *. naive_solver.
    + intros [Hn [p Hp]]. exists (n, p). split; [done|]. apply Hl. by rewrite map_items_elem.
  - apply Forall2_fmap, Forall_Forall2_diag, list.Forall_forall. intros [n p] Hin.
    apply Hl in Hin as [Hin _]. rewrite map_items_elem in Hin. by exists p.
Qed.

Lemma list_uploads_sim b o now s : agrees (RListUploads b o now) s (exec (RListUploads b o now) s).
Proof.
  run. unfold list_multipart_uploads. run. destruct (validate_bucket_name b true) as [[]|] eqn:Ev; [|refuse].
  destruct (expire_exact now s) as (s' & -> & Hs). pose proof Hs as (_ & Hb & Hu). rewrite Hb.
  destruct (buckets s !! b) as [B|] eqn:EB; [|refuse_swept].
  split; [granted|]. unfold abs at 2. rewrite Hb, Hu.
  apply (spec_list_uploads opt md5_hex (abs s) b o now).
  - apply Sorted_StronglySorted; [apply _|]. apply Sorted_merge_sort; apply _.
  - rewrite merge_sort_Permutation. apply NoDup_omap_info, map_items_NoDup; apply _.
  - intros x. rewrite merge_sort_Permutation, list_elem_of_omap. unfold items_of. split.
    + intros ([id u] & Hin & Hx). rewrite map_items_elem in Hin. cbn in Hx. case_bool_decide; [|done]. exists id, u. naive_solver.
    + intros (id & u & Hk & <- & ->). exists (id, u). rewrite map_items_elem. cbn in *. split; [done|].
      by rewrite bool_decide_eq_true_2.
Qed.

Lemma exec_sim r s : inv opt md5_hex s -> req_ok r -> agrees r s (exec r s).
Proof.
  intros Hi Hr. destruct r;
    auto using create_bucket_sim, delete_bucket_sim, bucket_exists_sim, list_buckets_sim, put_object_sim, get_object_sim,
      head_object_sim, tagging_sim, delete_object_sim, list_objects_sim, create_mpu_sim, upload_part_sim, complete_sim,
      abort_sim, list_parts_sim, list_uploads_sim.
Qed.
End sim.
