(* ===== verification/MemoryTheorems.v ===== *)
(** The theorems about the in-memory backend: its accounting and well-formedness
    invariant over every interleaving of locked sections, refinement of the abstract
    store (effects, answers, refusals and their atomicity), read-back of written data, conditional
    writes, and the object a multipart upload assembles. *)

From S2P Require Import Prelude Bytes Util Backend Validate Listing Multipart MemoryBackend MemorySpec MemorySim.
From Stdlib Require Import ZArith Lia.
From stdpp Require Import base list gmap sets strings sorting relations.

(** * A concrete backend for the witnesses *)
Definition demo_opt : MemoryOptions := mkMemoryOptions 1024 3600.
Definition demo_hash (d : bytes) : bytes := to_string (Z.of_nat (length d)).
Definition demo_state (rs : list request) : State :=
  fold_left (λ s r, (exec demo_opt demo_hash demo_hash demo_hash r s).2) rs init_state.
Definition demo_put (k d : string) : request :=
  RPut (bs "bucket") (bs k) default_meta [Chunk (bs d)] no_cond 7.
Definition demo_bucket : State := demo_state [RCreateBucket (bs "bucket") 5].

(** * Invariant *)
Lemma memory_step_inv opt md5_hex sha1 sha256 s s' :
  opt_ok opt -> inv opt md5_hex s -> step opt md5_hex sha1 sha256 s s' -> inv opt md5_hex s'.
Proof.
  intros Hopt Hi Hs. destruct Hs; auto using create_bucket_inv, delete_bucket_inv, set_object_tagging_inv, set_mtime_inv,
    delete_object_inv, create_multipart_inv, upload_part_commit_inv, complete_multipart_inv,
    abort_multipart_inv, list_uploads_inv, init_inv.
  apply put_commit_inv; auto using put_meta_key, put_meta_size.
Qed.

Lemma memory_reachable_inv opt md5_hex sha1 sha256 s :
  opt_ok opt -> reachable opt md5_hex sha1 sha256 s -> inv opt md5_hex s.
Proof.
  intros Hopt. refine (rtc_ind_r (λ s, inv opt md5_hex s) _ _ _ s); [by apply init_inv|]. intros. by eapply memory_step_inv.
Qed.

(** C5: Every state the backend can reach, under any interleaving of the locked
    sections of any requests, satisfies the invariant: the byte counter equals the
    bytes of all objects and pending parts (modulo 2^64) and these never exceed
    [max_bytes]; every bucket is stored under its own valid name; every object has a
    valid key and records that key and its exact size; every upload in flight is for a
    valid bucket name and key, and every part of it has a number from 1 to 10000 and
    the digest of its data as ETag. *)
Theorem memory_invariant (opt : MemoryOptions) (md5_hex sha1 sha256 : bytes -> bytes) (s : State)
    (Hopt : opt_ok opt) (Hr : reachable opt md5_hex sha1 sha256 s) :
  (used_bytes s = u64 (MemoryBackend.total s) /\ (max_bytes opt <> 0 -> MemoryBackend.total s <= max_bytes opt)%Z) /\
  (forall b B, buckets s !! b = Some B -> validate_bucket_name b true = Ok tt /\ bucket_name (info B) = b) /\
  (forall b B k o, buckets s !! b = Some B -> objs B !! k = Some o ->
     validate_object_key k = Ok tt /\ okey (obj_meta o) = k /\ osize (obj_meta o) = blen (obj_data o)) /\
  (forall id u, uploads s !! id = Some u ->
     validate_bucket_name (up_bucket u) true = Ok tt /\ validate_object_key (up_key u) = Ok tt /\
     forall n p, up_parts u !! n = Some p -> (1 <= n <= 10000)%Z /\ part_etag p = md5_hex (part_data p)).
Proof.
  destruct (memory_reachable_inv _ _ _ _ _ Hopt Hr) as [(Hu & _ & Hcap) Hb Hup]. split_and!; [done|done| | |].
  - intros b B HB. by destruct (Hb _ _ HB) as (? & ? & _).
  - intros b B k o HB Ho. destruct (Hb _ _ HB) as (_ & _ & Hw). by apply Hw.
  - intros id u Hid. destruct (Hup _ _ Hid) as (? & ? & Hp). split_and!; [done|done|]. intros n p Hn. by apply Hp.
Qed.
Lemma memory_demo_reachable : reachable demo_opt demo_hash demo_hash demo_hash demo_bucket.
Proof. eapply rtc_r; [apply rtc_refl|]. apply (step_create_bucket _ _ _ _ init_state (bs "bucket") 5). Defined.
Lemma memory_invariant_witness : used_bytes demo_bucket = u64 (MemoryBackend.total demo_bucket).
Proof.
  destruct (memory_invariant demo_opt demo_hash demo_hash demo_hash demo_bucket) as [[H _] _].
  - unfold opt_ok. cbn. lia.
  - apply memory_demo_reachable.
  - exact H.
Defined.

(** * Refinement *)

(** C4: In every state the backend can reach, a request, run alone, follows the abstract
    store. If it answers, there was none of the stated reasons to refuse it, and both
    the new store and the answer are the specified ones; if it throws, the error is one
    of the stated reasons for this request on this store, and the whole state is
    unchanged, except that the two requests which first sweep expired uploads may have
    made exactly that sweep. *)
Theorem memory_refines_store (opt : MemoryOptions) (md5_hex sha1 sha256 : bytes -> bytes) (r : request) (s : State)
    (Hopt : opt_ok opt) (Hreach : reachable opt md5_hex sha1 sha256 s) (Hr : req_ok r) :
  match exec opt md5_hex sha1 sha256 r s with
  | (Ok rep, s') => (forall e, ~ refused opt (abs s) r e) /\ spec_ok opt md5_hex (abs s) r rep (abs s')
  | (Throw e, s') => refused opt (abs s) r e /\
      (s' = s \/ exists now, sweep_of r = Some now /\ swept opt now s s')
  end.
Proof. apply (exec_sim opt md5_hex sha1 sha256 Hopt); [by eapply memory_reachable_inv|done]. Qed.
Lemma memory_refines_store_witness :
  exists rep s', exec demo_opt demo_hash demo_hash demo_hash (demo_put "k" "v") demo_bucket = (Ok rep, s') /\
    spec_ok demo_opt demo_hash (abs demo_bucket) (demo_put "k" "v") rep (abs s').
Proof.
  assert (exists rep s', exec demo_opt demo_hash demo_hash demo_hash (demo_put "k" "v") demo_bucket = (Ok rep, s'))
    as (rep & s' & E) by (eexists _, _; vm_compute; reflexivity).
  exists rep, s'. split; [exact E|].
  pose proof (memory_refines_store demo_opt demo_hash demo_hash demo_hash (demo_put "k" "v") demo_bucket) as H.
  rewrite E in H. apply H.
  - unfold opt_ok. cbn. lia.
  - apply memory_demo_reachable.
  - reflexivity.
Defined.

(** * Reading back *)

Ltac run_ops H :=
  unfold put_object, put_commit, get_object, complete_multipart in H;
  unfold bucket_or_throw, upload_or_throw, object_or_throw, store_bucket in H;
  unfold mbind, ST_bind, mret, ST_ret, lift, throw, get_st, put_st, modify in H; cbv beta in H.

(** The state a successful put leaves. *)
Lemma put_object_Ok opt md5_hex b k meta body cond now s r s' :
  put_object opt md5_hex b k meta body cond now s = (Ok r, s') ->
  validate_bucket_name b true = Ok tt /\ put_etag r = md5_hex (body_bytes body) /\
  exists B, buckets s !! b = Some B /\ check_condition cond (objs B !! k) = Ok tt /\ uploads s' = uploads s /\
    buckets s' = <[b := mkBucket (info B) (<[k :=
       mkObject (put_meta md5_hex meta k (body_bytes body) now) (body_bytes body)]> (objs B))]> (buckets s).
Proof.
  intros H. run_ops H. destruct (validate_bucket_name b true) as [[]|]; [|done].
  destruct (validate_object_key k); [|done].
  destruct (read_body _ _ _) as [d|] eqn:Er; [|done]. apply read_body_bytes in Er as ->. cbn [app] in H.
  destruct (buckets s !! b) as [B|] eqn:EB; [|done].
  destruct (check_condition cond (objs B !! k)) as [[]|] eqn:Ec; [|done].
  destruct (reserve_abs opt (blen (body_bytes body) - old_size B k) s) as [E|[used E]]; rewrite E in H; [done|].
  injection H as <- <-. split; [done|]. split; [cbn [put_etag]; apply put_meta_etag|]. by exists B.
Qed.

(** C6: Round trip: after a successful PUT, HEAD and GET of the same key succeed with the
    metadata the PUT recorded (the request's, with the key, the size, the digest and the
    time filled in and the checksum resolved), and draining its body with any sufficient sequence of
    non-empty buffers yields exactly the bytes the request body delivered; the
    returned ETag is the MD5 of those bytes. *)
Theorem put_then_get (opt : MemoryOptions) (md5_hex : bytes -> bytes) (b k : bytes) (meta : ObjectMeta)
    (body : list BodyRead) (cond : PutCondition) (now : time_point) (s s' : State) (r : PutResult) (bufs : list nat)
    (Hput : put_object opt md5_hex b k meta body cond now s = (Ok r, s'))
    (Hpos : Forall (λ n, 0 < n) bufs) (Henough : length (body_bytes body) <= length bufs) :
  put_etag r = md5_hex (body_bytes body) /\
  head_object b k s' = (Ok (put_meta md5_hex meta k (body_bytes body) now), s') /\
  exists st, get_object b k None s' = (Ok st, s') /\
    os_meta st = put_meta md5_hex meta k (body_bytes body) now /\
    drain bufs (os_body st) = body_bytes body.
Proof.
  apply put_object_Ok in Hput as (Hv & He & B & HB & _ & _ & Hs'). split; [done|].
  unfold head_object, get_object, bucket_or_throw, object_or_throw, mbind, ST_bind, mret, ST_ret, lift, throw, get_st.
  rewrite Hv, Hs'. cbn. rewrite !lookup_insert_eq. cbn. rewrite lookup_insert_eq. cbn.
  split; [done|]. eexists. split; [reflexivity|]. split; [done|]. cbn. rewrite drain_window by done.
  unfold substr. rewrite drop_0. apply firstn_all.
Qed.
Lemma put_then_get_witness :
  exists r s' st, put_object demo_opt demo_hash (bs "bucket") (bs "k") default_meta [Chunk (bs "va"); Chunk (bs "lue")]
      no_cond 7 demo_bucket = (Ok r, s') /\
    get_object (bs "bucket") (bs "k") None s' = (Ok st, s') /\ drain [2; 2; 2; 2; 2] (os_body st) = bs "value".
Proof.
  assert (exists r s', put_object demo_opt demo_hash (bs "bucket") (bs "k") default_meta
    [Chunk (bs "va"); Chunk (bs "lue")] no_cond 7 demo_bucket = (Ok r, s')) as (r & s' & Hput)
    by (eexists _, _; vm_compute; reflexivity).
  destruct (put_then_get demo_opt demo_hash (bs "bucket") (bs "k") default_meta
    [Chunk (bs "va"); Chunk (bs "lue")] no_cond 7 demo_bucket s' r [2; 2; 2; 2; 2] Hput) as (_ & _ & st & Hg & _ & Hd).
  - repeat constructor.
  - vm_compute. lia.
  - exists r, s', st. split; [exact Hput|]. split; [exact Hg|exact Hd].
Defined.

(** A ranged GET that succeeds resolves the range to [f..l] inside the object and
    its drained body is exactly that slice of the stored bytes. *)
Theorem range_get_slice (b k : bytes) (range : ByteRange) (s : State) (st : ObjectStream) (B : Bucket) (o : Object)
    (bufs : list nat)
    (Hb : buckets s !! b = Some B) (Ho : objs B !! k = Some o)
    (Hf : forall x, range_first range = Some x -> (0 <= x)%Z) (Hl : forall x, range_last range = Some x -> (0 <= x)%Z)
    (Hget : get_object b k (Some range) s = (Ok st, s))
    (Hpos : Forall (λ n, 0 < n) bufs) (Henough : length (obj_data o) <= length bufs) :
  exists f l, resolve_range range (blen (obj_data o)) = Ok (f, l) /\ (0 <= f <= l /\ l < blen (obj_data o))%Z /\
    os_range st = Some (mkByteRange (Some f) (Some l)) /\
    drain bufs (os_body st) = take (Z.to_nat (l - f + 1)) (drop (Z.to_nat f) (obj_data o)).
Proof.
  run_ops Hget. destruct (validate_bucket_name b true); [|done]. rewrite Hb in Hget. cbn in Hget.
  rewrite Ho in Hget. destruct (resolve_range range (blen (obj_data o))) as [[f l]|] eqn:Er; [|done].
  injection Hget as <-. exists f, l. split; [done|].
  pose proof (resolve_range_bounds _ _ _ _ (blen_nonneg _) Hf Hl Er). split; [done|]. split; [done|]. cbn.
  apply drain_window; [done|]. unfold blen in *. lia.
Qed.
Lemma range_get_slice_witness :
  exists st f l, get_object (bs "bucket") (bs "k") (Some (mkByteRange None (Some 3%Z)))
      (demo_state [RCreateBucket (bs "bucket") 5; demo_put "k" "value"]) =
        (Ok st, demo_state [RCreateBucket (bs "bucket") 5; demo_put "k" "value"]) /\
    drain (replicate 5 1) (os_body st) = take (Z.to_nat (l - f + 1)) (drop (Z.to_nat f) (bs "value")).
Proof.
  set (s := demo_state _).
  assert (exists B o, buckets s !! bs "bucket" = Some B /\ objs B !! bs "k" = Some o /\ obj_data o = bs "value")
    as (B & o & Hb & Ho & Hd).
  { eexists _, _. split; [vm_compute; reflexivity|]. split; [vm_compute; reflexivity|reflexivity]. }
  assert (exists st, get_object (bs "bucket") (bs "k") (Some (mkByteRange None (Some 3%Z))) s = (Ok st, s)) as [st Hst].
  { eexists. vm_compute. reflexivity. }
  destruct (range_get_slice (bs "bucket") (bs "k") (mkByteRange None (Some 3%Z)) s st B o (replicate 5 1))
    as (f & l & _ & _ & _ & H).
  - exact Hb.
  - exact Ho.
  - intros x. discriminate.
  - intros x Hx. injection Hx as <-. lia.
  - exact Hst.
  - repeat constructor.
  - rewrite Hd. vm_compute. lia.
  - rewrite Hd in H. exists st, f, l. split; [exact Hst|exact H].
Defined.

(** * Conditional writes *)

(** Compare-and-swap: a successful [If-None-Match: *] write, or a successful write
    whose data has a digest other than [e], makes a following write conditioned on
    [If-None-Match: *], respectively on [If-Match: e], fail with PreconditionFailed
    and change nothing: of two racing conditional writers at most one wins. *)
Theorem conditional_put_exclusive (opt : MemoryOptions) (md5_hex : bytes -> bytes) (b k : bytes)
    (m1 m2 : ObjectMeta) (body1 : list BodyRead) (data2 e : bytes) (c1 c2 : PutCondition) (now1 : time_point)
    (s s1 : State) (r1 : PutResult)
    (Hput : put_object opt md5_hex b k m1 body1 c1 now1 s = (Ok r1, s1))
    (Hc2 : if_none_match c2 = true \/ (if_match_etag c2 = Some e /\ md5_hex (body_bytes body1) <> e)) :
  put_commit opt b k m2 data2 c2 s1 = (Throw PreconditionFailed, s1).
Proof.
  apply put_object_Ok in Hput as (_ & _ & B & HB & _ & _ & Hs').
  pose proof (put_meta_etag md5_hex m1 k (body_bytes body1) now1) as He.
  set (m := put_meta _ _ _ _ _) in *. clearbody m.
  unfold put_commit, bucket_or_throw, mbind, ST_bind, mret, ST_ret, lift, throw, get_st.
  rewrite Hs', lookup_insert_eq. cbn. rewrite lookup_insert_eq.
  unfold check_condition, cond_active. destruct Hc2 as [->|[-> Hne]]; [done|].
  rewrite orb_true_r. cbn. rewrite He.
  destruct (if_none_match c2); [done|]. cbn. by rewrite bool_decide_eq_false_2.
Qed.
Lemma conditional_put_exclusive_witness :
  exists s1, put_commit demo_opt (bs "bucket") (bs "k") default_meta (bs "w") (mkPutCondition false (Some (bs "9"))) s1
    = (Throw PreconditionFailed, s1).
Proof.
  eexists. eapply (conditional_put_exclusive demo_opt demo_hash (bs "bucket") (bs "k") default_meta default_meta
    [Chunk (bs "value")] (bs "w") (bs "9") no_cond (mkPutCondition false (Some (bs "9"))) 7 demo_bucket).
  - vm_compute. reflexivity.
  - right. split; [reflexivity|]. vm_compute. discriminate.
Defined.

(** * Multipart assembly *)

(** ** The state a successful completion leaves *)
Lemma complete_Ok opt md5_hex sha1 sha256 b k id parts now s r s' :
  complete_multipart opt md5_hex sha1 sha256 b k id parts now s = (Ok r, s') ->
  exists u B meta ps, uploads s !! id = Some u /\ buckets s !! b = Some B /\ validate_part_order parts = Ok tt /\
    collect_parts (up_parts u) parts = Ok ps /\
    buckets s' = <[b := mkBucket (info B) (<[k := mkObject meta (concat (part_data <$> ps))]> (objs B))]> (buckets s) /\
    uploads s' = delete id (uploads s) /\
    osize meta = blen (concat (part_data <$> ps)) /\ etag meta = combined_etag md5_hex (part_etag <$> ps) /\
    part_sizes meta = (λ p, blen (part_data p)) <$> ps /\ put_etag r = combined_etag md5_hex (part_etag <$> ps).
Proof.
  intros H. run_ops H. destruct (validate_part_order parts) as [[]|]; [|done].
  destruct (uploads s !! id) as [u|] eqn:Eu; [|done]. destruct (_ && _); [|done].
  destruct (buckets s !! b) as [B|] eqn:EB; [|done].
  destruct (collect_parts (up_parts u) parts) as [ps|] eqn:Ec; [|done].
  match type of H with context [apply_composite_checksum sha1 sha256 ?ds ?m ?r0] =>
    pose proof (apply_composite_keeps sha1 sha256 ds m r0) as (_ & Hz & He & Hp & Hr);
    destruct (apply_composite_checksum sha1 sha256 ds m r0) as [meta r'] end.
  cbn in Hz, He, Hp, Hr. set (data := concat (part_data <$> ps)) in *.
  destruct (reserve_abs opt (blen data - old_size B k) s) as [E|[used E]]; rewrite E in H; [done|].
  match type of H with context [reserve_locked opt (- parts_bytes u) ?s1] =>
    destruct (reserve_release opt (- parts_bytes u) s1) as [used' E']; [pose proof (parts_bytes_nonneg u); lia|rewrite E' in H] end.
  injection H as <- <-. exists u, B, meta, ps. done.
Qed.

Lemma collect_parts_Forall2 stored parts ps :
  collect_parts stored parts = Ok ps ->
  Forall2 (λ p sp, stored !! pi_part_no p = Some sp /\ part_etag sp = strip_etag_quotes (pi_etag p)) parts ps.
Proof.
  revert ps. induction parts as [|p parts IH]; intros ps; cbn; [by intros [= <-]; constructor|].
  destruct (stored !! pi_part_no p) as [sp|] eqn:E; [|done]. case_bool_decide as Ee; [|done]. cbn.
  destruct (collect_parts stored parts) as [qs|]; [|done]. intros [= <-]. constructor; auto.
Qed.

Lemma blen_concat (ps : list Part) :
  blen (concat (part_data <$> ps)) = foldr Z.add 0%Z ((λ p, blen (part_data p)) <$> ps).
Proof. induction ps as [|p ps IH]; [done|]. cbn. rewrite blen_app. by rewrite IH. Qed.

Lemma complete_gone opt md5_hex sha1 sha256 b k id parts now s :
  validate_part_order parts = Ok tt -> uploads s !! id = None ->
  complete_multipart opt md5_hex sha1 sha256 b k id parts now s = (Throw NoSuchUpload, s).
Proof.
  intros Ho Hn. unfold complete_multipart, upload_or_throw, mbind, ST_bind, lift, get_st, throw. by rewrite Ho, Hn.
Qed.

(** C9: A completed upload: the listed part numbers were strictly ascending and all
    stored with matching ETags; the object's bytes are the parts' bytes concatenated
    in that order; its size is the sum of the recorded part sizes, its ETag the
    combined ETag of the part digests; the upload is gone, so a second completion
    throws NoSuchUpload; no other key of the bucket changed. *)
Theorem complete_assembles (opt : MemoryOptions) (md5_hex sha1 sha256 : bytes -> bytes) (b k id : bytes)
    (parts : list PartInfo) (now : time_point) (s s' : State) (r : PutResult)
    (Hrun : complete_multipart opt md5_hex sha1 sha256 b k id parts now s = (Ok r, s')) :
  exists u B B' o ps, uploads s !! id = Some u /\ buckets s !! b = Some B /\
    ascending 0 (pi_part_no <$> parts) /\
    Forall2 (λ p sp, up_parts u !! pi_part_no p = Some sp /\ part_etag sp = strip_etag_quotes (pi_etag p)) parts ps /\
    buckets s' !! b = Some B' /\ objs B' = <[k := o]> (objs B) /\
    obj_data o = concat (part_data <$> ps) /\
    osize (obj_meta o) = foldr Z.add 0%Z (part_sizes (obj_meta o)) /\
    etag (obj_meta o) = combined_etag md5_hex (part_etag <$> ps) /\ put_etag r = etag (obj_meta o) /\
    complete_multipart opt md5_hex sha1 sha256 b k id parts now s' = (Throw NoSuchUpload, s').
Proof.
  apply complete_Ok in Hrun as (u & B & meta & ps & Hu & HB & Ho & Hc & Hs' & Hus & Hz & He & Hp & Hr).
  exists u, B, (mkBucket (info B) (<[k := mkObject meta (concat (part_data <$> ps))]> (objs B))), (mkObject meta (concat (part_data <$> ps))), ps.
  pose proof Ho as [_ Ha]%validate_part_order_Ok.
  split_and!; try done.
  - by apply collect_parts_Forall2.
  - by rewrite Hs', lookup_insert_eq.
  - cbn. rewrite Hz, Hp. apply blen_concat.
  - cbn. by rewrite Hr, He.
  - apply complete_gone; [done|]. by rewrite Hus, lookup_delete_eq.
Qed.
Definition demo_upload : State :=
  demo_state [RCreateBucket (bs "bucket") 5; RCreateMpu (bs "bucket") (bs "k") default_meta (Some (bs "0123456789abcdef")) 6;
              RUploadPart (bs "bucket") (bs "k") (Hex.to_hex (bs "0123456789abcdef")) 3 [Chunk (bs "lue")] None 7;
              RUploadPart (bs "bucket") (bs "k") (Hex.to_hex (bs "0123456789abcdef")) 1 [Chunk (bs "va")] None 8].
Lemma complete_assembles_witness :
  exists r s' B' o, complete_multipart demo_opt demo_hash demo_hash demo_hash (bs "bucket") (bs "k")
      (Hex.to_hex (bs "0123456789abcdef")) [mkPartInfo 1 (bs "2") [] []; mkPartInfo 3 (bs "3") [] []] 9 demo_upload = (Ok r, s') /\
    buckets s' !! bs "bucket" = Some B' /\ objs B' !! bs "k" = Some o /\ put_etag r = etag (obj_meta o).
Proof.
  assert (exists r s', complete_multipart demo_opt demo_hash demo_hash demo_hash (bs "bucket") (bs "k")
      (Hex.to_hex (bs "0123456789abcdef")) [mkPartInfo 1 (bs "2") [] []; mkPartInfo 3 (bs "3") [] []] 9 demo_upload = (Ok r, s'))
    as (r & s' & Hrun) by (eexists _, _; vm_compute; reflexivity).
  destruct (complete_assembles demo_opt demo_hash demo_hash demo_hash (bs "bucket") (bs "k")
      (Hex.to_hex (bs "0123456789abcdef")) [mkPartInfo 1 (bs "2") [] []; mkPartInfo 3 (bs "3") [] []] 9 demo_upload s' r Hrun)
    as (u & B & B' & o & ps & _ & _ & _ & _ & HB & Ho & _ & _ & _ & Hr & _).
  exists r, s', B', o. split; [exact Hrun|]. split; [exact HB|]. split; [|exact Hr]. rewrite Ho. apply lookup_insert_eq.
Defined.

(** * Listing the backend *)

(** A client that follows the continuation tokens of [list_objects]. *)
Fixpoint list_all (fuel : nat) (bucket : bytes) (o : ListOptions) : M (list ObjectMeta * list bytes) :=
  match fuel with
  | O => throw InternalError
  | S f =>
      r ← list_objects bucket o;
      if is_truncated r then
        rest ← list_all f bucket (continue_at o (next_token r));
        mret (objects r ++ rest.1, common_prefixes r ++ rest.2)
      else mret (objects r, common_prefixes r)
  end.

Definition fetch_of (B : Bucket) (k : bytes) : ObjectMeta :=
  match objs B !! k with Some ob => obj_meta ob | None => default_meta end.

Lemma list_all_pages fuel : forall b B o s,
  validate_bucket_name b true = Ok tt -> buckets s !! b = Some B ->
  list_all fuel b o s =
    match list_pages fuel o (fetch_of B) (items_of (objs B)).*1 with
    | Some r => (Ok r, s) | None => (Throw InternalError, s)
    end.
Proof.
  induction fuel as [|f IH]; intros b B o s Hv Hb; [done|]. cbn [list_all list_pages].
  unfold list_objects, bucket_or_throw, mbind, ST_bind, mret, ST_ret, lift, get_st. rewrite Hv, Hb. fold (fetch_of B).
  set (r := apply_listing o (fetch_of B) (items_of (objs B)).*1). case_if; [|done].
  rewrite (IH b B) by done. by destruct (list_pages f _ _ _) as [[os ps]|].
Qed.

(** Listing a bucket page by page returns its objects: whatever the prefix,
    delimiter and page size, the pages of [list_objects] end, hold the metadata of
    exactly the stored objects selected by the request in ascending order, and exactly the
    common prefixes of the rest. *)
Theorem memory_listing_exact (b : bytes) (B : Bucket) (o : ListOptions) (s : State)
    (Hv : validate_bucket_name b true = Ok tt) (Hb : buckets s !! b = Some B)
    (Hne : objs B !! [] = None) (Hmax : (0 < max_keys o)%Z) :
  exists ks grps, list_all (S (size (objs B))) b o s = (Ok (fetch_of B <$> ks, grps), s) /\ StronglySorted bytes_lt ks /\ StronglySorted bytes_lt grps /\
    (forall k, k ∈ ks <-> is_Some (objs B !! k) /\ listed o k /\ group_of (lo_prefix o) (lo_delimiter o) k = None) /\
    (forall g, g ∈ grps <-> exists k, is_Some (objs B !! k) /\ listed o k /\ group_of (lo_prefix o) (lo_delimiter o) k = Some g).
Proof.
  destruct (listing_pages (fetch_of B) (items_of (objs B)).*1 o) as (ks & grps & Hp & H1 & H2 & H3 & H4);
    [apply items_keys_sorted| |done|].
  - unfold items_of. rewrite map_items_keys. intros [? ?]. congruence.
  - exists ks, grps. rewrite (list_all_pages _ b B) by done.
    rewrite length_fmap in Hp. unfold items_of in Hp at 1. rewrite length_map_items in Hp. rewrite Hp.
    unfold items_of in H1, H2. setoid_rewrite map_items_keys in H1. setoid_rewrite map_items_keys in H2. done.
Qed.
Lemma memory_listing_exact_witness :
  exists B ks grps, buckets (demo_state [RCreateBucket (bs "bucket") 5; demo_put "k" "v"]) !! bs "bucket" = Some B /\
    list_all (S (size (objs B))) (bs "bucket") (mkListOptions [] [] 1 [])
      (demo_state [RCreateBucket (bs "bucket") 5; demo_put "k" "v"])
    = (Ok (fetch_of B <$> ks, grps), demo_state [RCreateBucket (bs "bucket") 5; demo_put "k" "v"]).
Proof.
  set (s := demo_state _).
  assert (exists B, buckets s !! bs "bucket" = Some B /\ objs B !! [] = None) as (B & Hb & Hn).
  { eexists. split; vm_compute; reflexivity. }
  destruct (memory_listing_exact (bs "bucket") B (mkListOptions [] [] 1 []) s) as (ks & grps & H & _).
  - vm_compute. reflexivity.
  - exact Hb.
  - exact Hn.
  - reflexivity.
  - exists B, ks, grps. split; [exact Hb|exact H].
Defined.
