(* ===== verification/Codec.v ===== *)
(** The key/value codec of DuoStore's metadata engines
    ([src/src/storage/duostore/codec.cc], [codec.h], [data_ref.h], and the records of
    [meta_store.h]): definitions only, the proofs are in [CodecProofs].

    An encoder appends to its output string and may throw, a decoder consumes its
    input: both are runs of the state monad, over the output written so far and over
    the bytes from the cursor's position to the end. *)

From S2P Require Import Prelude Bytes Util Backend Multipart.
From Stdlib Require Import ZArith Lia.
From stdpp Require Import base list gmap sets strings sorting.

(** * Records *)
Module Extent.
Inductive Kind := kChunk | kPack | kRados.
Definition kind_byte (k : Kind) : Z := match k with kChunk => 0 | kPack => 1 | kRados => 2 end.
Definition kind_of (z : Z) : Kind := if (z =? 0)%Z then kChunk else if (z =? 1)%Z then kPack else kRados.
#[global] Instance kind_eq : EqDecision Kind.
Proof. solve_decision. Defined.

Record t := mk { kind : Kind; file_id : Z; offset : Z; length : Z; crc32c : Z }.
End Extent.

Abbreviation DataRef := (list Extent.t).
Definition data_total (d : DataRef) : Z := fold_left (λ sum e, (sum +₆₄ Extent.length e)%L3) d 0%Z.

Record TierState := mkTierState { tier : Z; remote_etag : bytes; remote_at : bytes }.
Record ObjectRec := mkObjectRec { or_meta : ObjectMeta; or_data : DataRef; version : Z; or_tier : TierState }.
Record UploadRec := mkUploadRec { ur_upload_id : bytes; ur_meta : ObjectMeta; initiated_ms : Z }.
Record PartRec := mkPartRec {
  pr_part_no : Z; pr_size : Z; pr_etag : bytes; pr_modified_ms : Z; pr_data : DataRef;
  pr_checksum_algorithm : bytes; pr_checksum_value : bytes }.

Inductive ReclaimReason := kUnknown | kOverwrite | kDelete | kPartOverwrite | kAbort | kComplete.
Definition reason_byte (r : ReclaimReason) : Z :=
  match r with kUnknown => 0 | kOverwrite => 1 | kDelete => 2 | kPartOverwrite => 3 | kAbort => 4 | kComplete => 5 end.
Definition reason_of (z : Z) : ReclaimReason :=
  if (z =? 1)%Z then kOverwrite else if (z =? 2)%Z then kDelete else if (z =? 3)%Z then kPartOverwrite
  else if (z =? 4)%Z then kAbort else if (z =? 5)%Z then kComplete else kUnknown.
Definition reclaim_reason_name (r : ReclaimReason) : string :=
  match r with
  | kOverwrite => "overwrite" | kDelete => "delete" | kPartOverwrite => "part_overwrite"
  | kAbort => "abort" | kComplete => "complete" | kUnknown => "unknown"
  end.
Record Reclaim := mkReclaim { rc_extents : DataRef; rc_enqueue_ms : Z; rc_reason : ReclaimReason }.

(** * Writing *)
Abbreviation Wr := (ST bytes S3ErrorCode unit).

Definition append (v : bytes) : Wr := λ s, (Ok tt, s ++ v).

(** [for (int i = 0; i < w; ++i) s.push_back(char(v >> (8 * i)))] *)
Definition le_bytes (w : nat) (v : Z) : bytes := (λ i, zb (Z.shiftr v (8 * Z.of_nat i))) <$> seq 0 w.
Definition put_u8 (v : Z) : Wr := append [zb v].
Definition put_u16 (v : Z) : Wr := append (le_bytes 2 v).
Definition put_u32 (v : Z) : Wr := append (le_bytes 4 v).
Definition put_u64 (v : Z) : Wr := append (le_bytes 8 v).

Definition blen (v : bytes) : Z := Z.of_nat (length v).

Definition put_str (v : bytes) : Wr :=
  if (65535 <? blen v)%Z then throw InvalidArgument
  else _ ← put_u16 (blen v); append v.

Fixpoint for_each {A} (f : A -> Wr) (l : list A) : Wr :=
  match l with [] => mret tt | x :: l' => _ ← f x; for_each f l' end.

(** The output of an encoder that starts from an empty string. *)
Definition encoded (w : Wr) : result bytes :=
  match w [] with (Ok _, s) => Ok s | (Throw e, _) => Throw e end.

(** * Reading *)
Abbreviation Rd := (ST bytes S3ErrorCode).

Definition corrupt {A} : Rd A := throw InternalError.

Definition need (n : nat) : Rd unit := λ s, if length s <? n then (Throw InternalError, s) else (Ok tt, s).
Definition advance (n : nat) : Rd bytes := λ s, (Ok (take n s), drop n s).
Definition skip (n : nat) : Rd unit := _ ← need n; _ ← advance n; mret tt.

(** [v |= uintN_t(uint8_t(s[pos++])) << (8 * i)], from [i]. *)
Fixpoint le_loop (i v : Z) (l : bytes) : Z :=
  match l with [] => v | b :: l' => le_loop (i + 1) (Z.lor v (Z.shiftl (bz b) (8 * i))) l' end.
Definition read_le (w : nat) : Rd Z := _ ← need w; l ← advance w; mret (le_loop 0 0 l).

Definition read_u8 : Rd Z := read_le 1.
Definition read_u16 : Rd Z := read_le 2.
Definition read_u32 : Rd Z := read_le 4.
Definition read_u64 : Rd Z := read_le 8.
Definition read_str : Rd bytes := n ← read_u16; _ ← need (Z.to_nat n); advance (Z.to_nat n).
Definition read_done : Rd unit := λ s, if bool_decide (s = []) then (Ok tt, s) else (Throw InternalError, s).

Definition check_ver (expect : Z) : Rd unit :=
  v ← read_u8; if (v =? expect)%Z then mret tt else corrupt.
Definition read_ver (max : Z) : Rd Z :=
  v ← read_u8; if (v =? 0)%Z || (max <? v)%Z then corrupt else mret v.

(** The value a decoder returns on a whole input. *)
Definition decoded {A} (r : Rd A) (v : bytes) : result A := (r v).1.

(** * Extent runs *)
Record Run := mkRun {
  run_kind : Extent.Kind; first_id : Z; count : Z; chunk_len : Z; last_len : Z; pack_offset : Z; crcs : list Z }.

(** [runs] is the vector with its back first. *)
Definition add_extent (runs : list Run) (e : Extent.t) : list Run :=
  let fresh := mkRun (Extent.kind e) (Extent.file_id e) 1 (Extent.length e) (Extent.length e) (Extent.offset e)
                 [Extent.crc32c e] in
  match runs with
  | r :: rest =>
      if bool_decide (run_kind r = Extent.kind e) && negb (bool_decide (Extent.kind e = Extent.kPack))
         && (Extent.file_id e =? (first_id r +₆₄ count r)%L3)%Z && (Extent.offset e =? 0)%Z
         && (last_len r =? chunk_len r)%Z
      then mkRun (run_kind r) (first_id r) (u32 (count r + 1)) (chunk_len r) (Extent.length e) (pack_offset r)
             (crcs r ++ [Extent.crc32c e]) :: rest
      else fresh :: runs
  | [] => [fresh]
  end.

Definition put_run (r : Run) : Wr :=
  _ ← put_u8 (Extent.kind_byte (run_kind r));
  _ ← put_u64 (first_id r);
  _ ← put_u32 (count r);
  _ ← put_u64 (chunk_len r);
  _ ← put_u64 (last_len r);
  _ ← put_u64 (pack_offset r);
  for_each put_u32 (crcs r).

Definition append_extent_runs (extents : DataRef) : Wr :=
  let runs := reverse (fold_left add_extent extents []) in
  _ ← put_u32 (Z.of_nat (length runs));
  for_each put_run runs.

(** [if (size_t(n) * per > c.s.size() - c.pos) corrupt(...)] *)
Definition payload_bound (n per : Z) : Rd unit := λ s,
  if (blen s <? n * per)%Z then (Throw InternalError, s) else (Ok tt, s).

Fixpoint skip_runs (n : nat) : Rd unit :=
  match n with
  | O => mret tt
  | S n' =>
      _ ← read_u8; _ ← read_u64;
      cnt ← read_u32;
      _ ← read_u64; _ ← read_u64; _ ← read_u64;
      _ ← skip (Z.to_nat (cnt * 4));
      skip_runs n'
  end.

Definition skip_extent_runs : Rd unit :=
  n_runs ← read_u32;
  _ ← payload_bound n_runs 33;
  skip_runs (Z.to_nat n_runs).

(** The inner loop, from [j], with [n] iterations left ([count = j + n]). *)
Fixpoint read_run_extents (k : Extent.Kind) (first count chunk last pack : Z) (j : Z) (n : nat) : Rd DataRef :=
  match n with
  | O => mret []
  | S n' =>
      crc ← read_u32;
      rest ← read_run_extents k first count chunk last pack (j + 1) n';
      mret (Extent.mk k (u64 (first + j)) (if bool_decide (k = Extent.kPack) then pack else 0)
              (if (j + 1 <? count)%Z then chunk else last) crc :: rest)
  end.

Fixpoint read_runs (n : nat) : Rd DataRef :=
  match n with
  | O => mret []
  | S n' =>
      kind ← read_u8;
      _ ← (if (Extent.kind_byte Extent.kRados <? kind)%Z then corrupt else mret tt);
      first ← read_u64;
      cnt ← read_u32;
      _ ← (if (cnt =? 0)%Z then corrupt else mret tt);
      _ ← (if (kind =? Extent.kind_byte Extent.kPack)%Z && negb (cnt =? 1)%Z then corrupt else mret tt);
      _ ← payload_bound cnt 4;
      chunk ← read_u64;
      last ← read_u64;
      pack ← read_u64;
      es ← read_run_extents (Extent.kind_of kind) first cnt chunk last pack 0 (Z.to_nat cnt);
      rest ← read_runs n';
      mret (es ++ rest)
  end.

Definition read_extent_runs : Rd DataRef :=
  n_runs ← read_u32;
  _ ← payload_bound n_runs 33;
  read_runs (Z.to_nat n_runs).

(** * Metadata sections *)
Definition put_kv (kv : bytes * bytes) : Wr := _ ← put_str kv.1; put_str kv.2.

Definition put_user_meta (m : gmap bytes bytes) : Wr :=
  if (65535 <? Z.of_nat (size m))%Z then throw InvalidArgument
  else _ ← put_u16 (Z.of_nat (size m)); for_each put_kv (map_items bytes_le m).

Fixpoint read_kvs (n : nat) (m : gmap bytes bytes) : Rd (gmap bytes bytes) :=
  match n with
  | O => mret m
  | S n' => k ← read_str; v ← read_str; read_kvs n' (<[k := v]> m)
  end.
Definition read_user_meta : Rd (gmap bytes bytes) := n ← read_u16; read_kvs (Z.to_nat n) ∅.

(** An entry unless its value is empty. *)
Definition entry_unless_empty (k : string) (v : bytes) : list (bytes * bytes) :=
  if empty_string v then [] else [(bs k, v)].

Definition std_extra (m : ObjectMeta) : list (bytes * bytes) :=
  entry_unless_empty "checksum_algorithm" (checksum_algorithm m)
  ++ entry_unless_empty "checksum_value" (resolved_checksum_value m)
  ++ entry_unless_empty "checksum_type" (checksum_type m)
  ++ (if bool_decide (part_sizes m = []) then [] else [(bs "part_sizes", join_part_sizes (part_sizes m))]).

Definition std_fields (m : ObjectMeta) : list (bytes * bytes) :=
  concat ((λ f, entry_unless_empty (store_key f) (field_get f m)) <$> kStdMetaFields).

Definition put_std_meta (m : ObjectMeta) : Wr :=
  let extra := std_extra m in
  _ ← put_u16 (u16 (Z.of_nat (length extra) + Z.of_nat (length (std_fields m))));
  _ ← for_each put_kv (std_fields m);
  for_each put_kv extra.

(** The assignment one entry makes. *)
Definition assign_std (k v : bytes) (m : ObjectMeta) : ObjectMeta :=
  if bool_decide (k = bs "checksum_algorithm") then set_checksum_algorithm v m
  else if bool_decide (k = bs "checksum_value") then set_checksum_value v m
  else if bool_decide (k = bs "checksum_type") then set_checksum_type v m
  else if bool_decide (k = bs "part_sizes") then set_part_sizes (parse_part_sizes v) m
  else fold_left (λ m f, if bool_decide (k = bs (store_key f)) then field_set f v m else m) kStdMetaFields m.

Fixpoint read_stds (n : nat) (m : ObjectMeta) : Rd ObjectMeta :=
  match n with
  | O => mret m
  | S n' => k ← read_str; v ← read_str; read_stds n' (assign_std k v m)
  end.
Definition read_std_meta (m : ObjectMeta) : Rd ObjectMeta := n ← read_u16; read_stds (Z.to_nat n) m.

(** * Timestamps *)

(** [duration_cast<milliseconds>] truncates toward zero. *)
Definition to_unix_ms (tp : time_point) : Z := Z.quot tp 1000000.
Definition from_unix_ms (ms : Z) : time_point := (ms * 1000000)%Z.

(** * Keys *)
Definition nul : byte := Byte.x00.
Definition require_no_nul (part : bytes) : result unit := throw_if (bool_decide (nul ∈ part)) InternalError.

Definition object_key (bucket key : bytes) : result bytes :=
  _ ← require_no_nul bucket;
  _ ← require_no_nul key;
  Ok (bucket ++ [nul] ++ key).

Definition upload_key (bucket key id : bytes) : result bytes :=
  _ ← require_no_nul id;
  s ← object_key bucket key;
  Ok (s ++ [nul] ++ id).

Definition parts_prefix (bucket key id : bytes) : result bytes :=
  s ← upload_key bucket key id; Ok (s ++ [nul]).

Definition part_key (bucket key id : bytes) (part_no : Z) : result bytes :=
  s ← parts_prefix bucket key id;
  Ok (s ++ [zb (Z.shiftr part_no 8); zb part_no]).

Definition part_no_of_key (k : bytes) : result Z :=
  if length k <? 2 then Throw InternalError
  else match drop (length k - 2) k with
       | [hi; lo] => Ok (Z.lor (Z.shiftl (bz hi) 8) (bz lo))
       | _ => Throw InternalError
       end.

Definition be64_key (v : Z) : bytes := (λ i, zb (Z.shiftr v (8 * (7 - Z.of_nat i)))) <$> seq 0 8.
Definition parse_be64 (k : bytes) : result Z :=
  if negb (length k =? 8) then Throw InternalError
  else Ok (fold_left (λ v b, Z.lor (u64 (Z.shiftl v 8)) (bz b)) k 0%Z).

(** The loop of [bump_last_byte], on the string from its last byte down. *)
Fixpoint bump_rev (r : bytes) : option bytes :=
  match r with
  | [] => None
  | b :: r' => if (bz b =? 255)%Z then bump_rev r' else Some (zb (bz b + 1) :: r')
  end.
Definition bump_last_byte (s : bytes) : option bytes := reverse <$> bump_rev (reverse s).

(** * Values *)
Definition encode_extents (extents : DataRef) : result bytes := encoded (append_extent_runs extents).
Definition decode_extents (v : bytes) : result DataRef :=
  decoded (out ← read_extent_runs; _ ← read_done; mret out) v.

Definition encode_bucket (created_ms : Z) : result bytes :=
  encoded (_ ← put_u8 1; put_u64 (u64 created_ms)).
Definition decode_bucket (v : bytes) : result Z :=
  decoded (_ ← check_ver 1; ms ← read_u64; _ ← read_done; mret (i64 ms)) v.

Definition kObjectVer : Z := 3.
Definition kUploadVer : Z := 2.

Definition encode_object (rec : ObjectRec) : result bytes := encoded (
  _ ← put_u8 kObjectVer;
  _ ← put_u64 (osize (or_meta rec));
  _ ← put_u64 (u64 (to_unix_ms (last_modified (or_meta rec))));
  _ ← put_u64 (version rec);
  _ ← put_str (etag (or_meta rec));
  _ ← put_str (content_type (or_meta rec));
  _ ← put_user_meta (user_meta (or_meta rec));
  _ ← put_std_meta (or_meta rec);
  _ ← put_u8 (tier (or_tier rec));
  _ ← put_str (remote_etag (or_tier rec));
  _ ← put_str (remote_at (or_tier rec));
  append_extent_runs (or_data rec)).

(** The fields both decoders read up to the tier section: the metadata and the version. *)
Definition decode_object_head (ver : Z) (key : bytes) : Rd (ObjectMeta * Z) :=
  sz ← read_u64;
  ms ← read_u64;
  vers ← read_u64;
  et ← read_str;
  ct ← read_str;
  um ← read_user_meta;
  let m := set_user_meta um (set_content_type ct (set_etag et
             (set_last_modified (from_unix_ms (i64 ms)) (set_osize sz (set_okey key default_meta))))) in
  m' ← (if (2 <=? ver)%Z then read_std_meta m else mret m);
  mret (m', vers).

Definition default_tier : TierState := mkTierState 0 [] [].
Definition read_tier : Rd TierState := t ← read_u8; e ← read_str; a ← read_str; mret (mkTierState t e a).

Definition skip_tier : Rd unit := _ ← read_u8; _ ← read_str; _ ← read_str; mret tt.

Definition decode_object_meta (key v : bytes) : result ObjectMeta := decoded (
  ver ← read_ver kObjectVer;
  mv ← decode_object_head ver key;
  _ ← (if (3 <=? ver)%Z then skip_tier else mret tt);
  _ ← skip_extent_runs;
  _ ← read_done;
  mret mv.1) v.

Definition decode_object (key v : bytes) : result ObjectRec := decoded (
  ver ← read_ver kObjectVer;
  mv ← decode_object_head ver key;
  t ← (if (3 <=? ver)%Z then read_tier else mret default_tier);
  es ← read_extent_runs;
  _ ← read_done;
  mret (mkObjectRec mv.1 es mv.2 t)) v.

Definition encode_upload (rec : UploadRec) : result bytes := encoded (
  _ ← put_u8 kUploadVer;
  _ ← put_u64 (u64 (initiated_ms rec));
  _ ← put_str (content_type (ur_meta rec));
  _ ← put_user_meta (user_meta (ur_meta rec));
  put_std_meta (ur_meta rec)).

Definition decode_upload (key upload_id v : bytes) : result UploadRec := decoded (
  ver ← read_ver kUploadVer;
  ms ← read_u64;
  ct ← read_str;
  um ← read_user_meta;
  let m := set_user_meta um (set_content_type ct (set_okey key default_meta)) in
  m' ← (if (2 <=? ver)%Z then read_std_meta m else mret m);
  _ ← read_done;
  mret (mkUploadRec upload_id m' (i64 ms))) v.

Definition encode_part (rec : PartRec) : result bytes := encoded (
  _ ← put_u8 2;
  _ ← put_u64 (pr_size rec);
  _ ← put_str (pr_etag rec);
  _ ← put_u64 (u64 (pr_modified_ms rec));
  _ ← put_str (pr_checksum_algorithm rec);
  _ ← put_str (pr_checksum_value rec);
  append_extent_runs (pr_data rec)).

Definition decode_part (part_no : Z) (v : bytes) : result PartRec := decoded (
  ver ← read_ver 2;
  sz ← read_u64;
  et ← read_str;
  ms ← read_u64;
  ck ← (if (2 <=? ver)%Z then a ← read_str; b ← read_str; mret (a, b) else mret ([], []));
  es ← read_extent_runs;
  _ ← read_done;
  mret (mkPartRec part_no sz et (i64 ms) es ck.1 ck.2)) v.

Definition encode_reclaim (r : Reclaim) (enqueue_ms : Z) : result bytes := encoded (
  _ ← put_u8 1;
  _ ← put_u8 (reason_byte (rc_reason r));
  _ ← put_u64 (u64 enqueue_ms);
  append_extent_runs (rc_extents r)).

Definition decode_reclaim (v : bytes) : result Reclaim := decoded (
  _ ← check_ver 1;
  reason ← read_u8;
  ms ← read_u64;
  es ← read_extent_runs;
  _ ← read_done;
  mret (mkReclaim es (i64 ms) (if (reason <=? reason_byte kComplete)%Z then reason_of reason else kUnknown))) v.

Definition encode_counter_delta (d : Z) : result bytes := encoded (put_u64 (u64 d)).
Definition decode_counter (v : bytes) : result Z := decoded (d ← read_u64; _ ← read_done; mret (i64 d)) v.

(** * Pack record owners *)
Inductive OwnerKind := OObject | OPart | OLegacyPart | OUnknown.
Record PackOwner := mkPackOwner {
  ow_kind : OwnerKind; ow_bucket : bytes; ow_key : bytes; ow_upload_id : bytes; ow_part_no : Z }.

(** [parse_no]: [None] on a non-digit or an empty string. [int] overflow is undefined
    in the source; the value here is exact. *)
Definition parse_no (s : bytes) : option Z :=
  if forallb is_digit s && negb (empty_string s) then Some (fold_left (λ v c, v * 10 + (bz c - 48)) s 0)%Z else None.

Definition parse_pack_owner (owner : bytes) : PackOwner :=
  match split_on nul owner with
  | [b; k] => if negb (empty_string b) && negb (empty_string k) then mkPackOwner OObject b k [] 0
              else mkPackOwner OUnknown [] [] [] 0
  | [m; b; k; id; no] =>
      if bool_decide (m = bs "mpu") && negb (empty_string b) && negb (empty_string k) then
        match parse_no no with
        | Some n => mkPackOwner OPart b k id n
        | None => mkPackOwner OUnknown [] [] [] 0
        end
      else mkPackOwner OUnknown [] [] [] 0
  | [m; id; no] =>
      if bool_decide (m = bs "mpu") then
        match parse_no no with
        | Some n => mkPackOwner OLegacyPart [] [] id n
        | None => mkPackOwner OUnknown [] [] [] 0
        end
      else mkPackOwner OUnknown [] [] [] 0
  | _ => mkPackOwner OUnknown [] [] [] 0
  end.

(** The owner string [DuoStoreBackend::upload_part] builds. *)
Definition part_owner (bucket key upload_id : bytes) (part_no : Z) : bytes :=
  bs "mpu" ++ [nul] ++ bucket ++ [nul] ++ key ++ [nul] ++ upload_id ++ [nul] ++ to_string part_no.

Definition kPackRecHeaderFixed : Z := 22.
Definition pack_rec_overhead (b k : bytes) : Z := (kPackRecHeaderFixed + blen b + 1 + blen k)%Z.

(** [for (int v = part_no; v >= 10; v /= 10) ++digits]; an [int] needs at most ten rounds. *)
Fixpoint count_digits (fuel : nat) (digits v : Z) : Z :=
  match fuel with
  | O => digits
  | S f => if (10 <=? v)%Z then count_digits f (digits + 1) (v / 10) else digits
  end.
Definition pack_rec_overhead_part (b k id : bytes) (part_no : Z) : Z :=
  (kPackRecHeaderFixed + 3 + 1 + blen b + 1 + blen k + 1 + blen id + 1 + count_digits 10 1 part_no)%Z.

(** * Conditional writes of the key-value facade *)
Definition check_kv_condition (cond : PutCondition) (current : option bytes) : result unit :=
  if negb (cond_active cond) then Ok tt
  else
    _ ← throw_if (if_none_match cond && bool_decide (is_Some current)) PreconditionFailed;
    match if_match_etag cond with
    | None => Ok tt
    | Some e =>
        match current with
        | None => Throw NoSuchKey
        | Some c => throw_if (negb (bool_decide (c = e))) PreconditionFailed
        end
    end.
