(* ===== verification/CodecProofs.v ===== *)
(** Proofs about the metadata codec: every record reads back as it was written, the
    listing decoder agrees with the full one, and decoders only ever report corruption.
    The keys are in [CodecKeys]. *)

From S2P Require Import Prelude Bytes Util Backend Validate Multipart Codec.
From Stdlib Require Import ZArith Lia.
From stdpp Require Import base list gmap sets strings sorting.

(** * Writers and readers *)

(** [emits w e]: the writer succeeds and appends exactly [e]. *)
Definition emits (w : Wr) (e : bytes) : Prop := forall s, w s = (Ok tt, s ++ e).

(** [reads r e a]: on any input that starts with [e], the reader consumes [e] and returns [a]. *)
Definition reads {A} (r : Rd A) (e : bytes) (a : A) : Prop := forall rest, r (e ++ rest) = (Ok a, rest).

Lemma emits_append e : emits (append e) e.
Proof. by intros s. Qed.
Lemma emits_ret : emits (mret tt) [].
Proof. intros s. by rewrite app_nil_r. Qed.
Lemma emits_bind w1 w2 e1 e2 : emits w1 e1 -> emits w2 e2 -> emits (_ ← w1; w2) (e1 ++ e2).
Proof. intros H1 H2 s. unfold mbind, ST_bind. by rewrite H1, H2, app_assoc. Qed.

(** A writer either emits a fixed string or throws [InvalidArgument] on every output. *)
Definition writes (w : Wr) : Prop :=
  (exists e, emits w e) \/ (forall s, exists s', w s = (Throw InvalidArgument, s')).

Lemma writes_bind w1 w2 : writes w1 -> writes w2 -> writes (_ ← w1; w2).
Proof.
  intros [[e1 H1]|H1] [[e2 H2]|H2].
  - left. eexists. by apply emits_bind.
  - right. intros s. unfold mbind, ST_bind. rewrite H1. apply H2.
  - right. intros s. unfold mbind, ST_bind. destruct (H1 s) as [s' ->]. eauto.
  - right. intros s. unfold mbind, ST_bind. destruct (H1 s) as [s' ->]. eauto.
Qed.
Lemma writes_emits w e : emits w e -> writes w.
Proof. left. eauto. Qed.
Lemma writes_for_each {A} (f : A -> Wr) l : (forall x, writes (f x)) -> writes (for_each f l).
Proof. intros Hf. induction l as [|x l IH]; cbn; [eapply writes_emits, emits_ret|by apply writes_bind]. Qed.
Lemma writes_str v : writes (put_str v).
Proof.
  unfold put_str. case_if; [right; intros s; by eexists|]. left. eexists. apply emits_bind; apply emits_append.
Qed.
Lemma writes_append v : writes (append v).
Proof. eapply writes_emits, emits_append. Qed.

Lemma writes_ints v : writes (put_u8 v) /\ writes (put_u16 v) /\ writes (put_u32 v) /\ writes (put_u64 v).
Proof. by split_and!; apply writes_append. Qed.
Lemma writes_u8 v : writes (put_u8 v). Proof. apply writes_ints. Qed.
Lemma writes_u16 v : writes (put_u16 v). Proof. apply writes_ints. Qed.
Lemma writes_u64 v : writes (put_u64 v). Proof. apply writes_ints. Qed.

Create HintDb codec.
#[export] Hint Resolve writes_bind writes_for_each writes_str writes_append writes_u8 writes_u16 writes_u64 : codec.

(** A successful bind splits into its parts' outputs. *)
Lemma emits_bind_inv w1 w2 e :
  writes w1 -> writes w2 -> emits (_ ← w1; w2) e -> exists e1 e2, emits w1 e1 /\ emits w2 e2 /\ e = e1 ++ e2.
Proof.
  intros [[e1 H1]|H1] [[e2 H2]|H2] H; specialize (H []); unfold mbind, ST_bind in H.
  - exists e1, e2. split; [done|]. split; [done|]. rewrite H1, H2 in H. by injection H as <-.
  - rewrite H1 in H. destruct (H2 ([] ++ e1)) as [s' E]. by rewrite E in H.
  - destruct (H1 []) as [s' E]. by rewrite E in H.
  - destruct (H1 []) as [s' E]. by rewrite E in H.
Qed.

Lemma encoded_emits w v : writes w -> encoded w = Ok v <-> emits w v.
Proof.
  unfold encoded. intros [[e He]|He].
  - rewrite He. cbn. split; [intros [= <-]; done|]. intros H. specialize (He []). rewrite H in He. by injection He as ->.
  - destruct (He []) as [s' E]. rewrite E. split; [done|]. intros H. specialize (H []). by rewrite H in E.
Qed.

(** ** Reader combinators *)
Lemma reads_ret {A} (a : A) : reads (mret a) [] a.
Proof. by intros rest. Qed.
Lemma reads_bind {A B} (r : Rd A) (f : A -> Rd B) e1 e2 a b :
  reads r e1 a -> reads (f a) e2 b -> reads (r ≫= f) (e1 ++ e2) b.
Proof. intros H1 H2 rest. unfold mbind, ST_bind. by rewrite <- app_assoc, H1, H2. Qed.
Lemma reads_bind_pure {A B} (r : Rd A) (f : A -> Rd B) e a b :
  reads r [] a -> reads (f a) e b -> reads (r ≫= f) e b.
Proof. intros H1 H2. apply (reads_bind r f [] e a b H1 H2). Qed.
Lemma reads_last {A B} (r : Rd A) (f : A -> Rd B) e a b :
  reads r e a -> reads (f a) [] b -> reads (r ≫= f) e b.
Proof. intros H1 H2. rewrite <- (app_nil_r e). by eapply reads_bind. Qed.

(** The whole input of a decoder that ends with [done()]. *)
Lemma decoded_done {A} (r : Rd A) v a :
  reads r v a -> decoded (x ← r; _ ← read_done; mret x) v = Ok a.
Proof.
  intros H. specialize (H []). rewrite app_nil_r in H. unfold decoded, mbind, ST_bind. by rewrite H.
Qed.

(** * Integers *)
Lemma le_loop_spec l : forall i v,
  (0 <= i)%Z -> (0 <= v < 2 ^ (8 * i))%Z ->
  le_loop i v l = (v + 2 ^ (8 * i) * le_loop 0 0 l)%Z /\ (0 <= le_loop 0 0 l < 2 ^ (8 * Z.of_nat (length l)))%Z.
Proof.
  induction l as [|b l IH]; intros i v Hi Hv.
  { cbn [le_loop]. split; [lia|]. cbn. lia. }
  cbn [le_loop]. pose proof (bz_range b) as Hb.
  rewrite Z.lor_0_l, Z.mul_0_r, Z.shiftl_0_r. change (0 + 1)%Z with 1%Z.
  assert (Z.lor v (Z.shiftl (bz b) (8 * i)) = v + bz b * 2 ^ (8 * i))%Z as ->.
  { rewrite Z.lor_comm, lor_shiftl_add by lia. lia. }
  assert (2 ^ (8 * (i + 1)) = 256 * 2 ^ (8 * i))%Z as E.
  { replace (8 * (i + 1))%Z with (8 + 8 * i)%Z by lia. rewrite Z.pow_add_r by lia. done. }
  destruct (IH (i + 1)%Z (v + bz b * 2 ^ (8 * i))%Z) as [H1 H2]; [lia|nia|].
  destruct (IH 1%Z (bz b)) as [H3 _]; [lia|cbn; lia|].
  rewrite H1, H3, E. change (2 ^ (8 * 1))%Z with 256%Z. split; [lia|].
  cbn [length]. replace (8 * Z.of_nat (S (length l)))%Z with (8 + 8 * Z.of_nat (length l))%Z by lia.
  rewrite Z.pow_add_r by lia. change (2 ^ 8)%Z with 256%Z. nia.
Qed.

#[global] Arguments le_bytes : simpl never.

Lemma length_le_bytes w v : length (le_bytes w v) = w.
Proof. unfold le_bytes. by rewrite length_fmap, length_seq. Qed.

Lemma le_bytes_S w v : le_bytes (S w) v = zb v :: le_bytes w (Z.shiftr v 8).
Proof.
  unfold le_bytes. cbn [seq fmap list_fmap]. rewrite Z.shiftr_0_r. f_equal.
  rewrite <- fmap_S_seq, <- list_fmap_compose. apply list_fmap_ext. intros _ i _. cbn.
  rewrite Z.shiftr_shiftr by lia. f_equal. f_equal. lia.
Qed.

Lemma le_loop_bytes w : forall v, le_loop 0 0 (le_bytes w v) = (v mod 2 ^ (8 * Z.of_nat w))%Z.
Proof.
  induction w as [|w IH]; intros v; [cbn; by rewrite Z.mod_1_r|].
  rewrite le_bytes_S. cbn [le_loop]. rewrite Z.lor_0_l, Z.shiftl_0_r. change (0 + 1)%Z with 1%Z.
  destruct (le_loop_spec (le_bytes w (Z.shiftr v 8)) 1 (bz (zb v))) as [-> _]; [lia|pose proof (bz_range (zb v)); cbn; lia|].
  rewrite IH, bz_zb. rewrite Z.shiftr_div_pow2 by lia.
  replace (8 * Z.of_nat (S w))%Z with (8 + 8 * Z.of_nat w)%Z by lia. rewrite Z.pow_add_r by lia.
  rewrite Z.rem_mul_r by lia. done.
Qed.

Lemma need_ok n s : n <= length s -> need n s = (Ok tt, s).
Proof. intros. unfold need. by destruct (Nat.ltb_spec (length s) n); [lia|]. Qed.

Lemma reads_le w v : reads (read_le w) (le_bytes w v) (v mod 2 ^ (8 * Z.of_nat w))%Z.
Proof.
  intros rest. unfold read_le, mbind, ST_bind. rewrite need_ok by (rewrite length_app, length_le_bytes; lia).
  unfold advance. rewrite take_app_length', drop_app_length' by (by rewrite length_le_bytes).
  by rewrite le_loop_bytes.
Qed.

Lemma reads_u8 v : is_u8 v -> reads read_u8 [zb v] v.
Proof.
  intros Hv. replace [zb v] with (le_bytes 1 v) by (by rewrite le_bytes_S).
  rewrite <- (Z.mod_small v (2 ^ (8 * Z.of_nat 1))) at 2 by done. apply reads_le.
Qed.
Lemma reads_u16 v : is_u16 v -> reads read_u16 (le_bytes 2 v) v.
Proof. intros Hv. rewrite <- (Z.mod_small v (2 ^ (8 * Z.of_nat 2))) at 2 by done. apply reads_le. Qed.
Lemma reads_u32 v : is_u32 v -> reads read_u32 (le_bytes 4 v) v.
Proof. intros Hv. rewrite <- (Z.mod_small v (2 ^ (8 * Z.of_nat 4))) at 2 by done. apply reads_le. Qed.
Lemma reads_u64 v : is_u64 v -> reads read_u64 (le_bytes 8 v) v.
Proof. intros Hv. rewrite <- (Z.mod_small v (2 ^ (8 * Z.of_nat 8))) at 2 by done. apply reads_le. Qed.

(** * Strings and lists *)
Lemma emits_str_inv v e : emits (put_str v) e -> (blen v <= 65535)%Z /\ e = le_bytes 2 (blen v) ++ v.
Proof.
  intros H. specialize (H []). unfold put_str in H.
  destruct (Z.ltb_spec 65535 (blen v)); [done|]. split; [lia|].
  unfold mbind, ST_bind, put_u16, append in H. cbn in H. by injection H as <-.
Qed.

Lemma reads_str v e : emits (put_str v) e -> reads read_str e v.
Proof.
  intros [Hv ->]%emits_str_inv. eapply reads_bind; [apply reads_u16; unfold is_u16, blen in *; lia|].
  intros rest. unfold mbind, ST_bind, blen. rewrite Nat2Z.id. rewrite need_ok by (rewrite length_app; lia).
  unfold advance. by rewrite take_app_length, drop_app_length.
Qed.

Lemma emits_for_each_inv {A} (f : A -> Wr) l e :
  (forall x, writes (f x)) -> emits (for_each f l) e ->
  exists es, Forall2 (λ x ex, emits (f x) ex) l es /\ e = concat es.
Proof.
  intros Hf. revert e. induction l as [|x l IH]; cbn; intros e He.
  - exists []. split; [constructor|]. specialize (He []). by injection He as <-.
  - apply emits_bind_inv in He as (e1 & e2 & H1 & H2 & ->); [|done|by apply writes_for_each].
    apply IH in H2 as (es & H2 & ->). exists (e1 :: es). split; [by constructor|done].
Qed.

Lemma emits_for_each {A} (f : A -> Wr) (g : A -> bytes) l :
  (forall x, emits (f x) (g x)) -> emits (for_each f l) (concat (g <$> l)).
Proof. intros H. induction l as [|x l IH]; cbn; [apply emits_ret|by apply emits_bind]. Qed.

Lemma reads_payload {A} n per (f : Rd A) e b :
  (n * per <= blen e)%Z -> reads f e b -> reads (_ ← payload_bound n per; f) e b.
Proof.
  intros Hn Hf rest. unfold mbind, ST_bind, payload_bound. unfold blen in *. rewrite length_app.
  destruct (Z.ltb_spec (Z.of_nat (length e + length rest)) (n * per)); [lia|]. apply Hf.
Qed.

(** * Extent runs *)
Definition extent_wf (e : Extent.t) : Prop :=
  is_u64 (Extent.file_id e) /\ is_u64 (Extent.offset e) /\ is_u64 (Extent.length e) /\ is_u32 (Extent.crc32c e) /\
  (Extent.kind e <> Extent.kPack -> Extent.offset e = 0%Z).

(** The extents a run stands for. *)
Fixpoint expand (k : Extent.Kind) (first cnt chunk last pack j : Z) (cs : list Z) : DataRef :=
  match cs with
  | [] => []
  | c :: cs' =>
      Extent.mk k (u64 (first + j)) (if bool_decide (k = Extent.kPack) then pack else 0)
        (if (j + 1 <? cnt)%Z then chunk else last) c :: expand k first cnt chunk last pack (j + 1) cs'
  end.
Definition run_extents (r : Run) : DataRef :=
  expand (run_kind r) (first_id r) (count r) (chunk_len r) (last_len r) (pack_offset r) 0 (crcs r).

Definition run_wf (r : Run) : Prop :=
  is_u64 (first_id r) /\ count r = Z.of_nat (length (crcs r)) /\ (1 <= count r < 2 ^ 32)%Z /\ is_u64 (chunk_len r) /\
  is_u64 (last_len r) /\ is_u64 (pack_offset r) /\ Forall is_u32 (crcs r) /\
  (run_kind r = Extent.kPack -> count r = 1%Z).

Definition run_bytes (r : Run) : bytes :=
  [zb (Extent.kind_byte (run_kind r))] ++ le_bytes 8 (first_id r) ++ le_bytes 4 (count r) ++ le_bytes 8 (chunk_len r)
  ++ le_bytes 8 (last_len r) ++ le_bytes 8 (pack_offset r) ++ concat (le_bytes 4 <$> crcs r).

Lemma length_expand k f n c l p cs : forall j, length (expand k f n c l p j cs) = length cs.
Proof. induction cs as [|x cs IH]; intros j; cbn; [done|]. by rewrite IH. Qed.

Lemma expand_app k f n c l p cs x : forall j,
  expand k f n c l p j (cs ++ [x]) = expand k f n c l p j cs ++ expand k f n c l p (j + Z.of_nat (length cs)) [x].
Proof.
  induction cs as [|y cs IH]; intros j; cbn [app expand]; [cbn; by rewrite Z.add_0_r|].
  rewrite IH. cbn [app expand length]. do 3 f_equal; lia || (f_equal; lia) || idtac.
  all: replace (j + 1 + Z.of_nat (length cs))%Z with (j + Z.of_nat (S (length cs)))%Z by lia; done.
Qed.

(** Lengthening a run of equal chunks. *)
Lemma expand_grow k f c l p cs : forall j m m',
  (m = j + Z.of_nat (length cs))%Z -> (m < m')%Z ->
  expand k f m c c p j cs = expand k f m' c l p j cs.
Proof.
  induction cs as [|y cs IH]; intros j m m' Hm Hlt; cbn [expand]; [done|]. cbn [length] in Hm.
  rewrite (IH (j + 1)%Z m m') by lia. do 2 f_equal. destruct (Z.ltb_spec (j + 1) m'); [|lia]. by destruct (_ <? _)%Z.
Qed.

Lemma add_extent_spec rs e :
  Forall run_wf rs -> extent_wf e ->
  (Z.of_nat (length (concat (run_extents <$> reverse rs))) + 1 < 2 ^ 32)%Z ->
  Forall run_wf (add_extent rs e) /\ length (add_extent rs e) <= S (length rs) /\
  concat (run_extents <$> reverse (add_extent rs e)) = concat (run_extents <$> reverse rs) ++ [e].
Proof.
  intros Hrs He Hlen. pose proof He as (Hf & Ho & Hl & Hc & Hk).
  assert (forall rs, concat (run_extents <$> reverse (mkRun (Extent.kind e) (Extent.file_id e) 1 (Extent.length e)
            (Extent.length e) (Extent.offset e) [Extent.crc32c e] :: rs)) = concat (run_extents <$> reverse rs) ++ [e]) as Hnew.
  { intros rs'. rewrite reverse_cons, fmap_app, concat_app. cbn. f_equal. f_equal. rewrite Z.add_0_r, u64_small by done.
    destruct e as [k f o l c]; cbn in *. f_equal. case_bool_decide; [done|]. by rewrite Hk. }
  assert (run_wf (mkRun (Extent.kind e) (Extent.file_id e) 1 (Extent.length e)
            (Extent.length e) (Extent.offset e) [Extent.crc32c e])) as Hwf.
  { unfold run_wf. cbn. split_and!; try done. by apply list.Forall_singleton. }
  unfold add_extent. destruct rs as [|r rs]; [split; [by constructor|split; [done|apply Hnew]]|].
  case_if; [|split; [by constructor|split; [cbn; lia|apply Hnew]]].
  apply list.Forall_cons in Hrs as [(R1 & R2 & R3 & R4 & R5 & R6 & R7 & R8) Hrs]. bool_prop.
  rewrite reverse_cons, fmap_app, concat_app, length_app in Hlen. cbn in Hlen. rewrite app_nil_r in Hlen.
  unfold run_extents in Hlen at 2. rewrite length_expand in Hlen.
  assert (u32 (count r + 1) = count r + 1)%Z as -> by (apply Z.mod_small; lia).
  split; [|split; [cbn; lia|]].
  - constructor; [|done]. unfold run_wf. cbn. rewrite length_app. cbn. split_and!; try done; try lia.
    + apply list.Forall_app. split; [done|by apply list.Forall_singleton].
    + intros. congruence.
  - rewrite !reverse_cons, !fmap_app, !concat_app. cbn. rewrite !app_nil_r, <- app_assoc. f_equal.
    unfold run_extents. cbn. rewrite expand_app. f_equal.
    + replace (last_len r) with (chunk_len r) by lia. symmetry. apply expand_grow; lia.
    + cbn. rewrite <- R2. replace (0 + count r)%Z with (count r) by lia. rewrite Z.ltb_irrefl.
      destruct e as [k f o l c]; cbn in *. rewrite bool_decide_eq_false_2 by congruence. do 2 f_equal; [congruence|lia|lia].
Qed.

Lemma runs_spec es :
  Forall extent_wf es -> (Z.of_nat (length es) < 2 ^ 32)%Z ->
  let rs := fold_left add_extent es [] in
  Forall run_wf rs /\ length rs <= length es /\ concat (run_extents <$> reverse rs) = es.
Proof.
  induction es as [|e es IH] using rev_ind; intros Hes Hn; [by repeat split|].
  apply list.Forall_app in Hes as [Hes He]. apply list.Forall_cons in He as [He _].
  rewrite length_app in Hn. cbn in Hn. destruct IH as (H1 & H2 & H3); [done|lia|].
  cbv zeta. rewrite fold_left_app. cbn [fold_left]. destruct (add_extent_spec (fold_left add_extent es []) e) as (H4 & H5 & H6);
    [done|done|rewrite H3; lia|]. split; [done|]. split; [rewrite length_app; cbn; lia|]. by rewrite H6, H3.
Qed.

Lemma kind_of_byte k : Extent.kind_of (Extent.kind_byte k) = k.
Proof. by destruct k. Qed.

Lemma reads_run_extents k f n c l p cs : forall j,
  Forall is_u32 cs ->
  reads (read_run_extents k f n c l p j (length cs)) (concat (le_bytes 4 <$> cs)) (expand k f n c l p j cs).
Proof.
  induction cs as [|x cs IH]; intros j Hcs; [apply reads_ret|].
  apply list.Forall_cons in Hcs as [Hx Hcs]. cbn.
  eapply reads_bind; [by apply reads_u32|]. eapply reads_last; [by apply IH|]. apply reads_ret.
Qed.

Lemma length_crcs cs : length (concat (le_bytes 4 <$> cs)) = 4 * length cs.
Proof. induction cs as [|x cs IH]; [done|]. cbn [fmap list_fmap concat]. rewrite length_app, length_le_bytes, IH. cbn. lia. Qed.

Lemma reads_pass (r : Rd unit) : (forall s, r s = (Ok tt, s)) -> reads r [] tt.
Proof. intros H rest. by rewrite H. Qed.

Lemma reads_runs rs :
  Forall run_wf rs ->
  reads (read_runs (length rs)) (concat (run_bytes <$> rs)) (concat (run_extents <$> rs)).
Proof.
  induction rs as [|r rs IH]; intros Hrs; [apply reads_ret|].
  apply list.Forall_cons in Hrs as [(H1 & H2 & H3 & H4 & H5 & H6 & H7 & H8) Hrs].
  cbn [length read_runs fmap list_fmap concat]. unfold run_bytes at 1. rewrite <- !app_assoc.
  eapply reads_bind; [apply reads_u8; by destruct (run_kind r)|].
  eapply reads_bind_pure; [apply reads_pass; intros s; by destruct (run_kind r)|].
  eapply reads_bind; [by apply reads_u64|].
  eapply reads_bind; [apply reads_u32; unfold is_u32; lia|].
  eapply reads_bind_pure; [apply reads_pass; intros s; destruct (Z.eqb_spec (count r) 0); [lia|done]|].
  eapply reads_bind_pure.
  { apply reads_pass. intros s. case_if; [|done]. bool_prop. destruct (run_kind r); try done. rewrite H8 in * by done. done. }
  eapply reads_payload; [unfold blen; rewrite !length_app, length_crcs, !length_le_bytes; lia|].
  eapply reads_bind; [by apply reads_u64|]. eapply reads_bind; [by apply reads_u64|].
  eapply reads_bind; [by apply reads_u64|].
  eapply reads_bind.
  { rewrite H2 at 2. rewrite Nat2Z.id. by apply reads_run_extents. }
  eapply reads_last; [by apply IH|]. rewrite kind_of_byte. apply reads_ret.
Qed.

Lemma emits_run r : emits (put_run r) (run_bytes r).
Proof. repeat (apply emits_bind; [apply emits_append|]). apply emits_for_each. intros x. apply emits_append. Qed.

Definition extents_ok (es : DataRef) : Prop := Forall extent_wf es /\ (Z.of_nat (length es) < 2 ^ 32)%Z.

Definition runs_bytes (es : DataRef) : bytes :=
  let rs := reverse (fold_left add_extent es []) in
  le_bytes 4 (Z.of_nat (length rs)) ++ concat (run_bytes <$> rs).

Lemma emits_extents es : emits (append_extent_runs es) (runs_bytes es).
Proof. apply emits_bind; [apply emits_append|]. apply emits_for_each, emits_run. Qed.

Lemma length_run_bytes r : 37 <= length (run_bytes r).
Proof. unfold run_bytes. rewrite !length_app, !length_le_bytes. cbn. lia. Qed.

Lemma length_concat_runs rs : 37 * length rs <= length (concat (run_bytes <$> rs)).
Proof.
  induction rs as [|r rs IH]; [done|]. cbn [fmap list_fmap concat length]. rewrite length_app.
  pose proof (length_run_bytes r). lia.
Qed.

Lemma reads_extents es : extents_ok es -> reads read_extent_runs (runs_bytes es) es.
Proof.
  intros [Hes Hn]. destruct (runs_spec es Hes Hn) as (Hwf & Hl & Hc). unfold runs_bytes.
  set (rs := reverse (fold_left add_extent es [])) in *.
  assert (length rs <= length es) by (unfold rs; by rewrite length_reverse).
  eapply reads_bind; [apply reads_u32; unfold is_u32; lia|].
  apply reads_payload; [pose proof (length_concat_runs rs); unfold blen; lia|].
  rewrite Nat2Z.id. rewrite <- Hc at 1. apply reads_runs. unfold rs. by apply Forall_reverse.
Qed.

Lemma writes_extents es : writes (append_extent_runs es).
Proof. eapply writes_emits, emits_extents. Qed.
#[export] Hint Resolve writes_extents : codec.

(** * Metadata sections *)
Lemma writes_kv kv : writes (put_kv kv).
Proof. apply writes_bind; apply writes_str. Qed.
#[export] Hint Resolve writes_kv : codec.

Lemma emits_kv_inv kv e :
  emits (put_kv kv) e -> exists e1 e2, emits (put_str kv.1) e1 /\ emits (put_str kv.2) e2 /\ e = e1 ++ e2.
Proof. apply emits_bind_inv; apply writes_str. Qed.

Lemma writes_user_meta m : writes (put_user_meta m).
Proof. unfold put_user_meta. case_if; [right; intros s; by eexists|auto with codec]. Qed.
Lemma writes_std_meta m : writes (put_std_meta m).
Proof. unfold put_std_meta. auto 6 with codec. Qed.
#[export] Hint Resolve writes_user_meta writes_std_meta : codec.

Lemma reads_kvs kvs es : forall m,
  NoDup kvs.*1 -> Forall2 (λ kv e, emits (put_kv kv) e) kvs es ->
  reads (read_kvs (length kvs) m) (concat es) (list_to_map kvs ∪ m).
Proof.
  revert es. induction kvs as [|[k v] kvs IH]; intros es m Hn H.
  - apply Forall2_nil_inv_l in H as ->. rewrite list_to_map_nil, (left_id_L ∅ (∪)). apply reads_ret.
  - apply Forall2_cons_inv_l in H as (e & es' & (e1 & e2 & H1 & H2 & ->)%emits_kv_inv & H & ->).
    cbn [fmap list_fmap] in Hn. apply list.NoDup_cons in Hn as [Hk Hn]. cbn in Hk.
    cbn [length read_kvs concat]. rewrite <- app_assoc.
    eapply reads_bind; [by apply reads_str|]. eapply reads_bind; [by apply reads_str|]. cbn.
    rewrite <- insert_union_l, insert_union_r by (by apply not_elem_of_list_to_map_1). by apply IH.
Qed.

Lemma reads_user_meta m e : emits (put_user_meta m) e -> reads read_user_meta e m.
Proof.
  unfold put_user_meta. destruct (Z.ltb_spec 65535 (Z.of_nat (size m))).
  { intros Hf. specialize (Hf []). done. }
  intros (e1 & e2 & H1 & H2 & ->)%emits_bind_inv; [|apply writes_append|auto with codec].
  apply emits_for_each_inv in H2 as (es & H2 & ->); [|auto with codec].
  assert (e1 = le_bytes 2 (Z.of_nat (size m))) as -> by (specialize (H1 []); by injection H1 as <-).
  eapply reads_bind; [apply reads_u16; unfold is_u16; lia|].
  rewrite Nat2Z.id, <- (length_map_items bytes_le m).
  rewrite <- (list_to_map_items bytes_le m) at 2. rewrite <- (right_id_L ∅ (∪) (list_to_map _)).
  apply reads_kvs; [apply map_items_NoDup; apply _|done].
Qed.

Definition assign_all (kvs : list (bytes * bytes)) (m : ObjectMeta) : ObjectMeta :=
  fold_left (λ m kv, assign_std kv.1 kv.2 m) kvs m.

Lemma reads_stds kvs es : forall m,
  Forall2 (λ kv e, emits (put_kv kv) e) kvs es ->
  reads (read_stds (length kvs) m) (concat es) (assign_all kvs m).
Proof.
  revert es. induction kvs as [|[k v] kvs IH]; intros es m H.
  - apply Forall2_nil_inv_l in H as ->. apply reads_ret.
  - apply Forall2_cons_inv_l in H as (e & es' & (e1 & e2 & H1 & H2 & ->)%emits_kv_inv & H & ->).
    cbn [length read_stds concat]. rewrite <- app_assoc.
    eapply reads_bind; [by apply reads_str|]. eapply reads_bind; [by apply reads_str|]. by apply IH.
Qed.

Lemma length_entry k v : length (entry_unless_empty k v) <= 1.
Proof. unfold entry_unless_empty. case_if; cbn; lia. Qed.

Lemma std_count m :
  u16 (Z.of_nat (length (std_extra m)) + Z.of_nat (length (std_fields m)))
  = Z.of_nat (length (std_fields m ++ std_extra m)).
Proof.
  rewrite length_app, Nat2Z.inj_add, (Z.add_comm (Z.of_nat _)). apply Z.mod_small.
  unfold std_extra, std_fields. cbn [kStdMetaFields fmap list_fmap concat]. rewrite !length_app.
  repeat match goal with |- context [length (entry_unless_empty ?k ?v)] =>
    pose proof (length_entry k v); generalize dependent (length (entry_unless_empty k v)); intros end.
  case_bool_decide; cbn; lia.
Qed.

(** Reading back an entry that is written unless empty. *)
Lemma assign_entry k v set m :
  (forall v m, assign_std (bs k) v m = set v m) -> set [] m = m ->
  assign_all (entry_unless_empty k v) m = set v m.
Proof.
  intros Ha Hs. unfold entry_unless_empty, empty_string. case_bool_decide as E; [by subst|]. cbn. by rewrite Ha.
Qed.

(** [base] with the self-described fields of [m]. *)
Definition restore (k : bytes) (sz : Z) (et ct : bytes) (lm : time_point) (um : gmap bytes bytes) (m : ObjectMeta)
    : ObjectMeta :=
  mkObjectMeta k sz et ct lm um (cache_control m) (content_disposition m) (content_encoding m) (content_language m)
    (expires m) (website_redirect m) (checksum_algorithm m) (resolved_checksum_value m) (checksum_type m) None
    (part_sizes m) (tagging m).

Lemma assign_all_app a b m : assign_all (a ++ b) m = assign_all b (assign_all a m).
Proof. apply fold_left_app. Qed.

(** Evaluate member assignments on an explicit record. *)
Ltac eval_meta :=
  cbn [set_okey set_osize set_etag set_content_type set_last_modified set_user_meta set_cache_control set_content_disposition set_content_encoding set_content_language set_expires set_website_redirect set_checksum_algorithm set_checksum_value set_checksum_type set_checksum_pending set_part_sizes set_tagging
    okey osize etag content_type last_modified user_meta cache_control content_disposition content_encoding content_language expires website_redirect checksum_algorithm checksum_value checksum_type checksum_pending part_sizes tagging].

Lemma assign_algorithm v m : assign_std (bs "checksum_algorithm") v m = set_checksum_algorithm v m.
Proof. unfold assign_std. by rewrite bool_decide_eq_true_2. Qed.
Lemma assign_value v m : assign_std (bs "checksum_value") v m = set_checksum_value v m.
Proof. unfold assign_std. by rewrite bool_decide_eq_false_2, bool_decide_eq_true_2. Qed.
Lemma assign_type v m : assign_std (bs "checksum_type") v m = set_checksum_type v m.
Proof. unfold assign_std. by rewrite 2!bool_decide_eq_false_2, bool_decide_eq_true_2. Qed.
Lemma assign_part_sizes v m : assign_std (bs "part_sizes") v m = set_part_sizes (parse_part_sizes v) m.
Proof. unfold assign_std. by rewrite 3!bool_decide_eq_false_2, bool_decide_eq_true_2. Qed.

Lemma assign_restores m k sz et ct lm um :
  Forall is_u64 (part_sizes m) ->
  assign_all (std_fields m ++ std_extra m) (mkObjectMeta k sz et ct lm um [] [] [] [] [] [] [] [] [] None [] [])
  = restore k sz et ct lm um m.
Proof.
  intros Hp. unfold std_fields, std_extra. cbn [kStdMetaFields fmap list_fmap concat store_key field_get].
  rewrite app_nil_r, !assign_all_app.
  rewrite (assign_entry "cache_control" _ set_cache_control) by reflexivity. eval_meta.
  rewrite (assign_entry "content_disposition" _ set_content_disposition) by reflexivity. eval_meta.
  rewrite (assign_entry "content_encoding" _ set_content_encoding) by reflexivity. eval_meta.
  rewrite (assign_entry "content_language" _ set_content_language) by reflexivity. eval_meta.
  rewrite (assign_entry "expires" _ set_expires) by reflexivity. eval_meta.
  rewrite (assign_entry "website_redirect" _ set_website_redirect) by reflexivity. eval_meta.
  rewrite (assign_entry "tagging" _ set_tagging) by reflexivity. eval_meta.
  rewrite (assign_entry "checksum_algorithm" _ set_checksum_algorithm) by (apply assign_algorithm || reflexivity). eval_meta.
  rewrite (assign_entry "checksum_value" _ set_checksum_value) by (apply assign_value || reflexivity). eval_meta.
  rewrite (assign_entry "checksum_type" _ set_checksum_type) by (apply assign_type || reflexivity). eval_meta.
  case_bool_decide as E; cbn [assign_all fold_left fst snd].
  - unfold restore. by rewrite E.
  - by rewrite assign_part_sizes, parse_join_sizes.
Qed.

Lemma reads_std_meta m e k sz et ct lm um :
  Forall is_u64 (part_sizes m) -> emits (put_std_meta m) e ->
  reads (read_std_meta (mkObjectMeta k sz et ct lm um [] [] [] [] [] [] [] [] [] None [] [])) e
    (restore k sz et ct lm um m).
Proof.
  intros Hp. unfold put_std_meta. rewrite std_count.
  intros (e1 & e' & H1 & (e2 & e3 & H2 & H3 & ->)%emits_bind_inv & ->)%emits_bind_inv; [|auto with codec..].
  apply emits_for_each_inv in H2 as (es2 & H2 & ->); [|auto with codec].
  apply emits_for_each_inv in H3 as (es3 & H3 & ->); [|auto with codec].
  rewrite <- concat_app. assert (e1 = le_bytes 2 (Z.of_nat (length (std_fields m ++ std_extra m)))) as ->
    by (specialize (H1 []); by injection H1 as <-).
  eapply reads_bind.
  - apply reads_u16. pose proof (std_count m) as Hc. unfold u16 in Hc. rewrite <- Hc. apply Z.mod_pos_bound. done.
  - rewrite Nat2Z.id, <- assign_restores by done. apply reads_stds. by apply Forall2_app.
Qed.

(** * Whole values *)

(** [whole r v a]: the reader accepts exactly [v]. *)
Definition whole {A} (r : Rd A) (v : bytes) (a : A) : Prop := r v = (Ok a, []).
Lemma whole_bind {A B} (r : Rd A) (f : A -> Rd B) e1 e2 a b :
  reads r e1 a -> whole (f a) e2 b -> whole (r ≫= f) (e1 ++ e2) b.
Proof. intros H1 H2. unfold whole, mbind, ST_bind. by rewrite H1. Qed.
Lemma whole_pure {A B} (r : Rd A) (f : A -> Rd B) e a b :
  reads r [] a -> whole (f a) e b -> whole (r ≫= f) e b.
Proof. apply (whole_bind r f []). Qed.
Lemma whole_last {A B} (r : Rd A) (f : A -> Rd B) e a b :
  reads r e a -> whole (f a) [] b -> whole (r ≫= f) e b.
Proof. intros H1 H2. rewrite <- (app_nil_r e). by eapply whole_bind. Qed.
Lemma whole_done {A} (a : A) : whole (_ ← read_done; mret a) [] a.
Proof. done. Qed.
Lemma decoded_whole {A} (r : Rd A) v a : whole r v a -> decoded r v = Ok a.
Proof. unfold whole, decoded. by intros ->. Qed.

Lemma reads_ver v max : is_u8 v -> (1 <= v <= max)%Z -> reads (read_ver max) [zb v] v.
Proof.
  intros Hv Hm. eapply reads_last; [by apply reads_u8|]. intros rest.
  destruct (Z.eqb_spec v 0), (Z.ltb_spec max v); try lia. done.
Qed.
Lemma reads_check_ver v : is_u8 v -> reads (check_ver v) [zb v] tt.
Proof. intros Hv. eapply reads_last; [by apply reads_u8|]. intros rest. by rewrite Z.eqb_refl. Qed.

(** Split a successful encoder into the outputs of its steps. *)
Lemma emits_u8_inv v e : emits (put_u8 v) e -> e = [zb v].
Proof. intros H. specialize (H []). by injection H as <-. Qed.
Lemma emits_u64_inv v e : emits (put_u64 v) e -> e = le_bytes 8 v.
Proof. intros H. specialize (H []). by injection H as <-. Qed.
Lemma emits_extents_inv es e : emits (append_extent_runs es) e -> e = runs_bytes es.
Proof. intros H. specialize (H []). rewrite (emits_extents es []) in H. by injection H as <-. Qed.

Ltac split_emits :=
  repeat match goal with
  | H : emits (_ ← _; _) _ |- _ =>
      apply emits_bind_inv in H;
      [let e1 := fresh "e" in let e2 := fresh "e" in let H1 := fresh "Hw" in
       destruct H as (e1 & e2 & H1 & H & ->) | solve [auto 20 with codec] | solve [auto 20 with codec]]
  | H : emits (put_u8 _) _ |- _ => apply emits_u8_inv in H; subst
  | H : emits (put_u64 _) _ |- _ => apply emits_u64_inv in H; subst
  | H : emits (append_extent_runs _) _ |- _ => apply emits_extents_inv in H; subst
  end.

(** One step of a reader against the next field. *)
Ltac read_field :=
  first [ apply reads_u8; done | apply reads_u64; first [done | apply u64_range] | apply reads_str; eassumption
        | apply reads_user_meta; eassumption | apply reads_extents; done ].
Ltac read_all := repeat (first [eapply whole_bind | eapply reads_bind]; [read_field|]).

(** ** Objects *)
Definition object_rec_ok (r : ObjectRec) : Prop :=
  is_u64 (osize (or_meta r)) /\ is_u64 (version r) /\ is_u8 (tier (or_tier r)) /\
  Forall is_u64 (part_sizes (or_meta r)) /\ is_i64 (to_unix_ms (last_modified (or_meta r))) /\ extents_ok (or_data r).

(** What survives persistence: the key is the record's key in the store, time is kept
    to the millisecond, a pending checksum is resolved. *)
Definition persisted_meta (key : bytes) (m : ObjectMeta) : ObjectMeta :=
  restore key (osize m) (etag m) (content_type m) (from_unix_ms (to_unix_ms (last_modified m))) (user_meta m) m.

Definition persisted_object (key : bytes) (r : ObjectRec) : ObjectRec :=
  mkObjectRec (persisted_meta key (or_meta r)) (or_data r) (version r) (or_tier r).

Lemma reads_object_head key r e1 e2 e3 e4 :
  object_rec_ok r ->
  emits (put_str (etag (or_meta r))) e1 -> emits (put_str (content_type (or_meta r))) e2 ->
  emits (put_user_meta (user_meta (or_meta r))) e3 -> emits (put_std_meta (or_meta r)) e4 ->
  reads (decode_object_head 3 key)
    (le_bytes 8 (osize (or_meta r)) ++ le_bytes 8 (u64 (to_unix_ms (last_modified (or_meta r)))) ++
     le_bytes 8 (version r) ++ e1 ++ e2 ++ e3 ++ e4)
    (persisted_meta key (or_meta r), version r).
Proof.
  intros (Hs & Hv & _ & Hp & Ht & _) H1 H2 H3 H4. unfold decode_object_head. read_all.
  eapply reads_last; [|apply reads_ret]. cbn [Z.leb Z.compare Pos.compare Pos.compare_cont].
  rewrite i64_u64 by done. by apply reads_std_meta.
Qed.

Lemma group7 (a b c d e f g t : bytes) :
  a ++ b ++ c ++ d ++ e ++ f ++ g ++ t = (a ++ b ++ c ++ d ++ e ++ f ++ g) ++ t.
Proof. by rewrite <- !app_assoc. Qed.

Lemma reads_tier t e1 e2 :
  is_u8 (tier t) -> emits (put_str (remote_etag t)) e1 -> emits (put_str (remote_at t)) e2 ->
  reads read_tier ([zb (tier t)] ++ e1 ++ e2) t.
Proof.
  intros Ht H1 H2. unfold read_tier. eapply reads_bind; [by apply reads_u8|]. eapply reads_bind; [by apply reads_str|].
  eapply reads_last; [by apply reads_str|]. by destruct t.
Qed.

Lemma object_roundtrip key v r :
  object_rec_ok r -> encode_object r = Ok v -> decode_object key v = Ok (persisted_object key r).
Proof.
  intros Hok Henc. unfold encode_object in Henc. rewrite encoded_emits in Henc by auto 20 with codec.
  split_emits. apply decoded_whole. eapply whole_bind; [by apply reads_ver|].
  rewrite group7. eapply whole_bind; [by apply reads_object_head|].
  destruct Hok as (_ & _ & Ht & _ & _ & Hx). cbn [Z.leb Z.compare Pos.compare Pos.compare_cont].
  rewrite (app_assoc e8), app_assoc. eapply whole_bind; [by apply reads_tier|].
  eapply whole_last; [by apply reads_extents|]. by destruct r.
Qed.

(** C23: Every object record the codec accepts for writing reads back as itself: all
    metadata, the data location and the tier state, with the key supplied by the
    store, the time kept to the millisecond and a pending checksum resolved. *)
Theorem object_record_roundtrip (key v : bytes) (r : ObjectRec) (Hok : object_rec_ok r)
    (Henc : encode_object r = Ok v) : decode_object key v = Ok (persisted_object key r).
Proof. by apply object_roundtrip. Qed.

Definition demo_extents : DataRef :=
  [Extent.mk Extent.kChunk 7 0 4096 11; Extent.mk Extent.kChunk 8 0 4096 12; Extent.mk Extent.kChunk 9 0 100 13;
   Extent.mk Extent.kPack 2 640 50 14].
Definition demo_object : ObjectRec :=
  mkObjectRec (set_tagging (bs "a=b") (set_part_sizes [4096; 4246]%Z (set_user_meta {[bs "k" := bs "v"]}
    (set_etag (bs "e") (set_osize 8342 default_meta))))) demo_extents 3 (mkTierState 2 (bs "r") (bs "t")).

Lemma demo_extents_ok : extents_ok demo_extents.
Proof. split; [|cbn; lia]. repeat constructor; cbn; done. Qed.
Lemma demo_object_ok : object_rec_ok demo_object.
Proof.
  unfold object_rec_ok. split_and!; try done; [repeat constructor; done|apply demo_extents_ok].
Qed.

Lemma object_record_roundtrip_witness :
  exists v, encode_object demo_object = Ok v /\ decode_object (bs "key") v = Ok (persisted_object (bs "key") demo_object).
Proof.
  assert (exists v, encode_object demo_object = Ok v) as [v Hv] by (eexists; vm_compute; reflexivity).
  exists v. split; [exact Hv|]. apply (object_record_roundtrip (bs "key") v demo_object demo_object_ok Hv).
Defined.

(** ** Uploads, parts and reclaim entries *)

(** An upload record reads back with its start time, content type and all
    metadata. *)
Theorem upload_record_roundtrip (key upload_id v : bytes) (r : UploadRec) (Hms : is_i64 (initiated_ms r))
    (Hparts : Forall is_u64 (part_sizes (ur_meta r))) (Henc : encode_upload r = Ok v) :
  decode_upload key upload_id v
  = Ok (mkUploadRec upload_id
          (restore key 0 [] (content_type (ur_meta r)) 0 (user_meta (ur_meta r)) (ur_meta r)) (initiated_ms r)).
Proof.
  unfold encode_upload in Henc. rewrite encoded_emits in Henc by auto 20 with codec.
  split_emits. apply decoded_whole. eapply whole_bind; [by apply reads_ver|]. read_all.
  eapply whole_last; [by apply reads_std_meta|]. rewrite i64_u64 by done. apply whole_done.
Qed.
Lemma upload_record_roundtrip_witness :
  exists v, encode_upload (mkUploadRec (bs "u") (or_meta demo_object) (-5)) = Ok v /\
    decode_upload (bs "key") (bs "u") v
    = Ok (mkUploadRec (bs "u") (restore (bs "key") 0 [] (content_type (or_meta demo_object)) 0
            (user_meta (or_meta demo_object)) (or_meta demo_object)) (-5)).
Proof.
  assert (exists v, encode_upload (mkUploadRec (bs "u") (or_meta demo_object) (-5)) = Ok v) as [v Hv]
    by (eexists; vm_compute; reflexivity).
  exists v. split; [exact Hv|].
  apply (upload_record_roundtrip (bs "key") (bs "u") v (mkUploadRec (bs "u") (or_meta demo_object) (-5))).
  - cbn. unfold is_i64. lia.
  - repeat constructor; done.
  - exact Hv.
Defined.

Definition part_rec_ok (r : PartRec) : Prop :=
  is_u64 (pr_size r) /\ is_i64 (pr_modified_ms r) /\ extents_ok (pr_data r).

Lemma part_roundtrip r v :
  part_rec_ok r -> encode_part r = Ok v -> decode_part (pr_part_no r) v = Ok r.
Proof.
  intros (Hs & Hm & Hx) Henc. unfold encode_part in Henc. rewrite encoded_emits in Henc by auto 20 with codec.
  split_emits. apply decoded_whole. eapply whole_bind; [by apply reads_ver|]. read_all.
  rewrite app_assoc. eapply whole_bind.
  { cbn [Z.leb Z.compare Pos.compare Pos.compare_cont]. eapply reads_bind; [by apply reads_str|].
    eapply reads_last; [by apply reads_str|]. apply reads_ret. }
  eapply whole_last; [by apply reads_extents|]. rewrite i64_u64 by done. by destruct r.
Qed.

Lemma reclaim_roundtrip es reason ms v :
  extents_ok es -> is_i64 ms ->
  encode_reclaim (mkReclaim es ms reason) ms = Ok v -> decode_reclaim v = Ok (mkReclaim es ms reason).
Proof.
  intros Hx Hm Henc. unfold encode_reclaim in Henc. rewrite encoded_emits in Henc by auto 20 with codec.
  cbn [rc_reason rc_extents] in Henc. split_emits. apply decoded_whole. eapply whole_bind; [by apply reads_check_ver|].
  eapply whole_bind; [apply reads_u8; by destruct reason|]. read_all.
  eapply whole_last; [by apply reads_extents|]. rewrite i64_u64 by done. by destruct reason.
Qed.

(** Part records and garbage-queue entries read back exactly, extents included. *)
Theorem part_reclaim_roundtrip (p : PartRec) (es : DataRef) (reason : ReclaimReason) (ms : Z) (vp vr : bytes)
    (Hp : part_rec_ok p) (Hes : extents_ok es) (Hms : is_i64 ms)
    (Hep : encode_part p = Ok vp) (Her : encode_reclaim (mkReclaim es ms reason) ms = Ok vr) :
  decode_part (pr_part_no p) vp = Ok p /\ decode_reclaim vr = Ok (mkReclaim es ms reason).
Proof. split; [by apply part_roundtrip|by apply reclaim_roundtrip]. Qed.
Lemma part_reclaim_roundtrip_witness :
  exists vp vr, decode_part 7 vp = Ok (mkPartRec 7 99 (bs "e") 5 demo_extents (bs "CRC32C") (bs "AAAA")) /\
    decode_reclaim vr = Ok (mkReclaim demo_extents 9 kAbort).
Proof.
  set (p := mkPartRec 7 99 (bs "e") 5 demo_extents (bs "CRC32C") (bs "AAAA")).
  assert (exists v, encode_part p = Ok v) as [vp Hvp] by (eexists; vm_compute; reflexivity).
  assert (exists v, encode_reclaim (mkReclaim demo_extents 9 kAbort) 9 = Ok v) as [vr Hvr]
    by (eexists; vm_compute; reflexivity).
  exists vp, vr. apply (part_reclaim_roundtrip p demo_extents kAbort 9 vp vr).
  - split; [done|]. split; [done|apply demo_extents_ok].
  - apply demo_extents_ok.
  - done.
  - exact Hvp.
  - exact Hvr.
Defined.

Lemma bucket_roundtrip ms : is_i64 ms -> encode_bucket ms ≫= decode_bucket = Ok ms.
Proof.
  intros Hm. assert (encode_bucket ms = Ok ([zb 1] ++ le_bytes 8 (u64 ms))) as ->.
  { apply encoded_emits; [auto with codec|]. apply emits_bind; apply emits_append. }
  apply decoded_whole. eapply whole_bind; [by apply reads_check_ver|]. rewrite <- (app_nil_r (le_bytes 8 _)).
  eapply whole_bind; [apply reads_u64, u64_range|]. rewrite i64_u64 by done. apply whole_done.
Qed.

Lemma counter_roundtrip d : is_i64 d -> encode_counter_delta d ≫= decode_counter = Ok d.
Proof.
  intros Hm. assert (encode_counter_delta d = Ok (le_bytes 8 (u64 d))) as ->.
  { apply encoded_emits; [auto with codec|]. apply emits_append. }
  apply decoded_whole. eapply whole_last; [apply reads_u64, u64_range|]. rewrite i64_u64 by done. apply whole_done.
Qed.

Lemma extents_roundtrip es : extents_ok es -> encode_extents es ≫= decode_extents = Ok es.
Proof.
  intros Hx. assert (encode_extents es = Ok (runs_bytes es)) as ->.
  { apply encoded_emits; [auto with codec|]. apply emits_extents. }
  apply decoded_whole. eapply whole_last; [by apply reads_extents|]. apply whole_done.
Qed.

(** Run-length coding of extents is lossless: any list of well-formed extents
    (chunk and rados extents at offset 0) is encoded without error and decodes to
    itself; likewise bucket timestamps and signed counters. *)
Theorem extent_runs_lossless (es : DataRef) (ms : Z) (Hes : extents_ok es) (Hms : is_i64 ms) :
  encode_extents es ≫= decode_extents = Ok es /\ encode_bucket ms ≫= decode_bucket = Ok ms /\
  encode_counter_delta ms ≫= decode_counter = Ok ms.
Proof. split_and!; [by apply extents_roundtrip|by apply bucket_roundtrip|by apply counter_roundtrip]. Qed.
Lemma extent_runs_lossless_witness : encode_extents demo_extents ≫= decode_extents = Ok demo_extents.
Proof. apply (extent_runs_lossless demo_extents (-1) demo_extents_ok). unfold is_i64. lia. Defined.

(** * Error classes *)

(** A reader that fails only with [InternalError]. *)
Definition only_corrupt {A} (r : Rd A) : Prop := forall s e s', r s = (Throw e, s') -> e = InternalError.

Lemma oc_ret {A} (a : A) : only_corrupt (mret a).
Proof. by intros s e s' [=]. Qed.
Lemma oc_corrupt {A} : only_corrupt (@corrupt A).
Proof. by intros s e s' [= <- _]. Qed.
Lemma oc_bind {A B} (r : Rd A) (f : A -> Rd B) :
  only_corrupt r -> (forall a, only_corrupt (f a)) -> only_corrupt (r ≫= f).
Proof.
  intros Hr Hf s e s' H. unfold mbind, ST_bind in H. destruct (r s) as [[a|e'] s1] eqn:E; [by eapply Hf|].
  injection H as <- _. by eapply Hr.
Qed.
Lemma oc_need n : only_corrupt (need n).
Proof. intros s e s'. unfold need. case_if; [by intros [= <- _]|done]. Qed.
Lemma oc_advance n : only_corrupt (advance n).
Proof. by intros s e s' [=]. Qed.
Lemma oc_done : only_corrupt read_done.
Proof. intros s e s'. unfold read_done. case_if; [done|by intros [= <- _]]. Qed.
Lemma oc_payload n p : only_corrupt (payload_bound n p).
Proof. intros s e s'. unfold payload_bound. case_if; [by intros [= <- _]|done]. Qed.
#[export] Hint Resolve oc_ret oc_corrupt oc_bind oc_need oc_advance oc_done oc_payload : codec.

Lemma oc_le w : only_corrupt (read_le w).
Proof. unfold read_le. auto with codec. Qed.
Lemma oc_u8 : only_corrupt read_u8. Proof. apply oc_le. Qed.
Lemma oc_u16 : only_corrupt read_u16. Proof. apply oc_le. Qed.
Lemma oc_u32 : only_corrupt read_u32. Proof. apply oc_le. Qed.
Lemma oc_u64 : only_corrupt read_u64. Proof. apply oc_le. Qed.
#[export] Hint Resolve oc_u8 oc_u16 oc_u32 oc_u64 : codec.
Lemma oc_str : only_corrupt read_str.
Proof. unfold read_str. auto 6 with codec. Qed.
#[export] Hint Resolve oc_str : codec.
Lemma oc_if {A} (b : bool) (r1 r2 : Rd A) : only_corrupt r1 -> only_corrupt r2 -> only_corrupt (if b then r1 else r2).
Proof. by destruct b. Qed.
#[export] Hint Resolve oc_if : codec.
Lemma oc_ver max : only_corrupt (read_ver max).
Proof. unfold read_ver. auto 6 with codec. Qed.
Lemma oc_check_ver v : only_corrupt (check_ver v).
Proof. unfold check_ver. auto 6 with codec. Qed.
Lemma oc_run_extents k f c ch l p n : forall j, only_corrupt (read_run_extents k f c ch l p j n).
Proof. induction n as [|n IH]; intros j; cbn; auto 6 with codec. Qed.
#[export] Hint Resolve oc_ver oc_check_ver oc_run_extents : codec.
Lemma oc_runs n : only_corrupt (read_runs n).
Proof. induction n as [|n IH]; cbn; auto 30 with codec. Qed.
Lemma oc_skip_runs n : only_corrupt (skip_runs n).
Proof. induction n as [|n IH]; cbn; unfold skip; auto 30 with codec. Qed.
#[export] Hint Resolve oc_runs oc_skip_runs : codec.
Lemma oc_extents : only_corrupt read_extent_runs.
Proof. unfold read_extent_runs. auto 6 with codec. Qed.
Lemma oc_skip_extents : only_corrupt skip_extent_runs.
Proof. unfold skip_extent_runs. auto 6 with codec. Qed.
Lemma oc_kvs n : forall m, only_corrupt (read_kvs n m).
Proof. induction n as [|n IH]; intros m; cbn; auto 6 with codec. Qed.
Lemma oc_stds n : forall m, only_corrupt (read_stds n m).
Proof. induction n as [|n IH]; intros m; cbn; auto 6 with codec. Qed.
#[export] Hint Resolve oc_extents oc_skip_extents oc_kvs oc_stds : codec.
Lemma oc_user_meta : only_corrupt read_user_meta.
Proof. unfold read_user_meta. auto 6 with codec. Qed.
Lemma oc_std_meta m : only_corrupt (read_std_meta m).
Proof. unfold read_std_meta. auto 6 with codec. Qed.
#[export] Hint Resolve oc_user_meta oc_std_meta : codec.
Lemma oc_head ver k : only_corrupt (decode_object_head ver k).
Proof. unfold decode_object_head. auto 30 with codec. Qed.
#[export] Hint Resolve oc_head : codec.

Lemma decoded_only {A} (r : Rd A) v e : only_corrupt r -> decoded r v = Throw e -> e = InternalError.
Proof. unfold decoded. intros H He. destruct (r v) as [x s] eqn:E. cbn in He. subst. by eapply H. Qed.

(** A writer fails only with [InvalidArgument]. *)
Lemma encoded_only w e : writes w -> encoded w = Throw e -> e = InvalidArgument.
Proof.
  unfold encoded. intros [[x H]|H]; [by rewrite H|]. destruct (H []) as [s' ->]. by intros [= <-].
Qed.

(** The two error classes never mix: whatever bytes a decoder is given, the only
    error it reports is corruption (InternalError); whatever record an encoder is
    given, the only error is a request error (InvalidArgument). *)
Theorem codec_error_classes (key v : bytes) (n : Z) (o : ObjectRec) (u : UploadRec) (p : PartRec) (e : S3ErrorCode) :
  (decode_object key v = Throw e -> e = InternalError) /\
  (decode_object_meta key v = Throw e -> e = InternalError) /\
  (decode_upload key key v = Throw e -> e = InternalError) /\
  (decode_part n v = Throw e -> e = InternalError) /\
  (decode_reclaim v = Throw e -> e = InternalError) /\
  (encode_object o = Throw e -> e = InvalidArgument) /\
  (encode_upload u = Throw e -> e = InvalidArgument) /\
  (encode_part p = Throw e -> e = InvalidArgument).
Proof.
  split_and!; intros H; first [eapply decoded_only in H; [done|] | eapply encoded_only in H; [done|]];
    unfold read_tier, skip_tier; auto 40 with codec.
Qed.

(** * The listing decoder *)
Lemma read_le_run w s v s' :
  read_le w s = (Ok v, s') -> w <= length s /\ s' = drop w s /\ (0 <= v < 2 ^ (8 * Z.of_nat w))%Z.
Proof.
  unfold read_le, mbind, ST_bind, need. destruct (Nat.ltb_spec (length s) w); [done|].
  unfold advance. intros [= <- <-]. split; [lia|]. split; [done|].
  destruct (le_loop_spec (take w s) 0 0) as [_ H2]; [lia|cbn; lia|]. rewrite length_take in H2.
  by replace (Nat.min w (length s)) with w in H2 by lia.
Qed.

Lemma run_extents_skip k f c ch l p n : forall j s es s',
  read_run_extents k f c ch l p j n s = (Ok es, s') -> 4 * n <= length s /\ s' = drop (4 * n) s.
Proof.
  induction n as [|n IH]; intros j s es s'; cbn [read_run_extents].
  - intros [= _ <-]. split; [lia|done].
  - intros [(crc & s1 & H1 & H)|(e & _ & [=])]%ST_bind_run.
    apply ST_bind_run in H as [(rest & s2 & H2 & H)|(e & _ & [=])]. injection H as _ <-.
    apply read_le_run in H1 as (Hl & -> & _). apply IH in H2 as (Hl2 & ->). rewrite length_drop in Hl2.
    rewrite drop_drop. split; [lia|]. f_equal. lia.
Qed.

(** Invert a successful run of a reader into its steps. *)
Ltac inv_run H :=
  repeat match type of H with
  | _ = (Ok _, _) =>
      apply ST_bind_run in H; destruct H as [H|(? & _ & [=])];
      let a := fresh "a" in let s1 := fresh "s" in let H1 := fresh "Hr" in destruct H as (a & s1 & H1 & H)
  end.

Lemma runs_skip n : forall s es s', read_runs n s = (Ok es, s') -> skip_runs n s = (Ok tt, s').
Proof.
  induction n as [|n IH]; intros s es s' H; [by injection H as _ <-|]. cbn [read_runs] in H.
  inv_run H. injection H as _ <-.
  cbn [skip_runs]. unfold mbind, ST_bind.
  assert (forall (b : bool) s s', (if b then corrupt else mret tt) s = (Ok tt, s') -> s' = s) as Hpass.
  { by intros [] ?? [=]. }
  assert (forall n p s s', payload_bound n p s = (Ok tt, s') -> s' = s) as Hpay.
  { intros ????. unfold payload_bound. case_if; [done|]. by intros [=]. }
  repeat match goal with
  | x : unit |- _ => destruct x
  | H : (if _ then corrupt else mret tt) _ = (Ok tt, _) |- _ => apply Hpass in H; subst
  | H : payload_bound _ _ _ = (Ok tt, _) |- _ => apply Hpay in H; subst
  end.
  rewrite Hr. rewrite Hr1.
  repeat match goal with H : ?r ?s = (Ok _, _) |- context [?r ?s] => rewrite H end.
  match goal with H : read_run_extents _ _ ?c _ _ _ _ _ _ = _, H2 : read_u32 _ = (Ok ?c, _) |- _ =>
    apply read_le_run in H2 as (_ & _ & Hc); apply run_extents_skip in H as [Hl ->] end.
  unfold skip, mbind, ST_bind. rewrite need_ok; [|lia]. unfold advance.
  replace (Z.to_nat (a2 * 4)) with (4 * Z.to_nat a2) by lia. by eapply IH.
Qed.

Lemma extents_skip s es s' : read_extent_runs s = (Ok es, s') -> skip_extent_runs s = (Ok tt, s').
Proof.
  unfold read_extent_runs. intros H. inv_run H. unfold skip_extent_runs, mbind, ST_bind. rewrite Hr, Hr0.
  by eapply runs_skip.
Qed.

Lemma tier_skip s t s' : read_tier s = (Ok t, s') -> skip_tier s = (Ok tt, s').
Proof.
  unfold read_tier. intros H. inv_run H. injection H as _ <-. unfold skip_tier, mbind, ST_bind.
  by rewrite Hr, Hr0, Hr1.
Qed.

Lemma decoded_inv {A} (r : Rd A) v a : decoded r v = Ok a -> exists s', r v = (Ok a, s').
Proof. unfold decoded. destruct (r v) as [x s']. cbn. intros ->. eauto. Qed.

Lemma decode_meta_skips key v r : decode_object key v = Ok r -> decode_object_meta key v = Ok (or_meta r).
Proof.
  intros [s' H]%decoded_inv. inv_run H. injection H as <- <-.
  unfold decode_object_meta, decoded, mbind, ST_bind. rewrite Hr, Hr0.
  assert ((if (3 <=? a)%Z then skip_tier else mret tt) s0 = (Ok tt, s1)) as ->.
  { destruct (3 <=? a)%Z; [by eapply tier_skip|by injection Hr1 as _ <-]. }
  by rewrite (extents_skip _ _ _ Hr2), Hr3.
Qed.
(** The listing decoder, which skips the extent array arithmetically, agrees with
    the full decoder: on every value (any version, well-formed or not) that the full
    decoder accepts, it returns exactly the metadata of that record. *)
Theorem decode_object_meta_agrees (key v : bytes) (r : ObjectRec) (Hdec : decode_object key v = Ok r) :
  decode_object_meta key v = Ok (or_meta r).
Proof. by apply decode_meta_skips. Qed.

Lemma decode_object_meta_agrees_witness :
  exists v, encode_object demo_object = Ok v /\
    decode_object_meta (bs "key") v = Ok (or_meta (persisted_object (bs "key") demo_object)).
Proof.
  assert (exists v, encode_object demo_object = Ok v /\
      decode_object (bs "key") v = Ok (persisted_object (bs "key") demo_object)) as (v & Hv & Hd).
  { assert (exists v, encode_object demo_object = Ok v) as [v Hv] by (eexists; vm_compute; reflexivity).
    exists v. split; [exact Hv|]. by apply object_roundtrip, Hv; apply demo_object_ok. }
  exists v. split; [exact Hv|]. apply (decode_object_meta_agrees (bs "key") v _ Hd).
Defined.
