(* ===== verification/CodecKeys.v ===== *)
(** The key space of DuoStore's metadata engines: the encodings of
    [src/src/storage/duostore/codec.cc] are total on validated names, injective,
    scanned exactly by their prefixes and ordered as the listings need, and the owner
    strings embedded in pack records parse back. *)

From S2P Require Import Prelude Bytes Util Backend Validate Multipart Codec.
From Stdlib Require Import ZArith Lia.
From stdpp Require Import base list gmap sets strings sorting.

(** Equality of concatenations up to association. *)
Ltac app_norm := cbn [app]; repeat (rewrite <- app_assoc; cbn [app]); done.

(** * NUL-separated keys *)
Lemma cut_nul (a a' x y : bytes) :
  nul ∉ a -> nul ∉ a' -> a ++ [nul] ++ x = a' ++ [nul] ++ y -> a = a' /\ x = y.
Proof.
  revert a'. induction a as [|c a IH]; intros [|c' a'] Ha Ha' E; cbn in E.
  - by injection E.
  - injection E as <- _. exfalso. apply Ha'. by left.
  - injection E as -> _. exfalso. apply Ha. by left.
  - injection E as <- E. destruct (IH a') as [-> ->]; [set_solver|set_solver|done|done].
Qed.

Lemma require_no_nul_Ok p u : require_no_nul p = Ok u <-> nul ∉ p.
Proof. unfold require_no_nul. rewrite throw_if_Ok, bool_decide_eq_false. done. Qed.

Lemma object_key_Ok b k s : object_key b k = Ok s <-> (nul ∉ b) /\ (nul ∉ k) /\ s = b ++ [nul] ++ k.
Proof.
  unfold object_key. rewrite bind_Ok. setoid_rewrite bind_Ok. setoid_rewrite require_no_nul_Ok. split.
  - by intros (_ & Hb & _ & Hk & [= <-]).
  - intros (Hb & Hk & ->). by exists tt; split; [|exists tt].
Qed.

Lemma upload_key_Ok b k id s :
  upload_key b k id = Ok s <-> (nul ∉ b) /\ (nul ∉ k) /\ (nul ∉ id) /\ s = b ++ [nul] ++ k ++ [nul] ++ id.
Proof.
  unfold upload_key. rewrite bind_Ok. setoid_rewrite bind_Ok. setoid_rewrite require_no_nul_Ok.
  setoid_rewrite object_key_Ok. split.
  - intros (_ & Hid & t & (Hb & Hk & ->) & [= <-]). by rewrite <- !app_assoc.
  - intros (Hb & Hk & Hid & ->). exists tt. split; [done|]. eexists. split; [done|]. by rewrite <- !app_assoc.
Qed.

Lemma parts_prefix_Ok b k id s :
  parts_prefix b k id = Ok s <->
  (nul ∉ b) /\ (nul ∉ k) /\ (nul ∉ id) /\ s = b ++ [nul] ++ k ++ [nul] ++ id ++ [nul].
Proof.
  unfold parts_prefix. rewrite bind_Ok. setoid_rewrite upload_key_Ok. split.
  - intros (t & (Hb & Hk & Hid & ->) & [= <-]). split_and!; try done. app_norm.
  - intros (Hb & Hk & Hid & ->). eexists. split; [done|]. f_equal. app_norm.
Qed.

Lemma part_key_Ok b k id n s :
  part_key b k id n = Ok s <->
  (nul ∉ b) /\ (nul ∉ k) /\ (nul ∉ id) /\ s = b ++ [nul] ++ k ++ [nul] ++ id ++ [nul] ++ [zb (Z.shiftr n 8); zb n].
Proof.
  unfold part_key. rewrite bind_Ok. setoid_rewrite parts_prefix_Ok. split.
  - intros (t & (Hb & Hk & Hid & ->) & [= <-]). split_and!; try done. app_norm.
  - intros (Hb & Hk & Hid & ->). eexists. split; [done|]. f_equal. app_norm.
Qed.

(** The two trailing bytes of a part key. *)
Lemma be16_value n : is_u16 n -> (bz (zb (Z.shiftr n 8)) * 256 + bz (zb n) = n)%Z.
Proof.
  unfold is_u16. intros Hn. rewrite !bz_zb, Z.shiftr_div_pow2 by lia. change (2 ^ 8)%Z with 256%Z.
  rewrite (Z.mod_small (n / 256)); [pose proof (Z.div_mod n 256); lia|].
  split; [apply Z.div_pos; lia|apply Z.div_lt_upper_bound; lia].
Qed.

Lemma part_key_inj b k id n b' k' id' n' s :
  is_u16 n -> is_u16 n' -> part_key b k id n = Ok s -> part_key b' k' id' n' = Ok s ->
  b = b' /\ k = k' /\ id = id' /\ n = n'.
Proof.
  intros Hn Hn' (Hb & Hk & Hi & ->)%part_key_Ok (Hb' & Hk' & Hi' & E)%part_key_Ok.
  apply cut_nul in E as [-> E]; [|done..]. apply cut_nul in E as [-> E]; [|done..].
  apply cut_nul in E as [-> E]; [|done..]. split_and!; try done.
  rewrite <- (be16_value n), <- (be16_value n') by done. congruence.
Qed.

(** Keys never collide. Two objects with the same encoded key are the same
    object, two uploads the same upload, two parts (numbers within 16 bits) the same
    part of the same upload; so distinct records never overwrite each other. *)
Theorem keys_injective (b k id b' k' id' so su sp : bytes) (n n' : Z) (Hn : is_u16 n) (Hn' : is_u16 n') :
  (object_key b k = Ok so -> object_key b' k' = Ok so -> b = b' /\ k = k') /\
  (upload_key b k id = Ok su -> upload_key b' k' id' = Ok su -> b = b' /\ k = k' /\ id = id') /\
  (part_key b k id n = Ok sp -> part_key b' k' id' n' = Ok sp -> b = b' /\ k = k' /\ id = id' /\ n = n').
Proof.
  split_and!; [| |by apply part_key_inj].
  - intros (? & ? & ->)%object_key_Ok (? & ? & E)%object_key_Ok. by apply cut_nul in E.
  - intros (? & ? & ? & ->)%upload_key_Ok (? & ? & ? & E)%upload_key_Ok.
    apply cut_nul in E as [-> E]; [|done..]. by apply cut_nul in E as [-> ->].
Qed.
Lemma keys_injective_witness :
  part_key (bs "b") (bs "k") (bs "i") 258 = Ok (bs "b" ++ [nul] ++ bs "k" ++ [nul] ++ bs "i" ++ [nul; zb 1; zb 2]) /\
  (forall n, is_u16 n -> part_key (bs "b") (bs "k") (bs "i") n
     = Ok (bs "b" ++ [nul] ++ bs "k" ++ [nul] ++ bs "i" ++ [nul; zb 1; zb 2]) -> n = 258%Z).
Proof.
  split; [reflexivity|]. intros n Hn H.
  apply (keys_injective (bs "b") (bs "k") (bs "i") (bs "b") (bs "k") (bs "i") [] []
    (bs "b" ++ [nul] ++ bs "k" ++ [nul] ++ bs "i" ++ [nul; zb 1; zb 2]) n 258 Hn); [unfold is_u16; lia|exact H|reflexivity].
Defined.

(** A scan of an upload's parts prefix meets the parts of that upload and no
    other, and the prefix of a bucket meets exactly that bucket's objects. *)
Theorem prefix_scan_exact (b k id b' k' id' p s o : bytes) (n : Z)
    (Hp : parts_prefix b k id = Ok p) (Hs : part_key b' k' id' n = Ok s) (Ho : object_key b' k' = Ok o) :
  (starts_with p s = true <-> b = b' /\ k = k' /\ id = id') /\
  (starts_with (b ++ [nul]) o = true <-> b = b').
Proof.
  apply parts_prefix_Ok in Hp as (Hb & Hk & Hi & ->). apply part_key_Ok in Hs as (Hb' & Hk' & Hi' & ->).
  apply object_key_Ok in Ho as (_ & _ & ->). rewrite !starts_with_prefix. split; split.
  - intros [t E]. rewrite <- !app_assoc in E. symmetry in E.
    apply cut_nul in E as [-> E]; [|done..]. apply cut_nul in E as [-> E]; [|done..].
    by apply cut_nul in E as [-> E].
  - intros (-> & -> & ->). exists [zb (Z.shiftr n 8); zb n]. by rewrite <- !app_assoc.
  - intros [t E]. rewrite <- app_assoc in E. symmetry in E. by apply cut_nul in E as [-> _].
  - intros ->. exists k'. by rewrite <- app_assoc.
Qed.
Lemma prefix_scan_exact_witness :
  starts_with (bs "b" ++ [nul] ++ bs "k" ++ [nul] ++ bs "i" ++ [nul])
    (bs "b" ++ [nul] ++ bs "k" ++ [nul] ++ bs "i" ++ [nul; zb 1; zb 2]) = true.
Proof.
  apply (prefix_scan_exact (bs "b") (bs "k") (bs "i") (bs "b") (bs "k") (bs "i")
    (bs "b" ++ [nul] ++ bs "k" ++ [nul] ++ bs "i" ++ [nul]) (bs "b" ++ [nul] ++ bs "k" ++ [nul] ++ bs "i" ++ [nul; zb 1; zb 2])
    (bs "b" ++ [nul] ++ bs "k") 258); [reflexivity|reflexivity|reflexivity|done].
Defined.

(** Validated names can always be encoded: the defensive NUL check of the key
    builders never fires on a bucket name and object key that passed validation. *)
Theorem validated_names_encode (b k : bytes) (Hb : validate_bucket_name b false = Ok tt)
    (Hk : validate_object_key k = Ok tt) : object_key b k = Ok (b ++ [nul] ++ k).
Proof.
  apply object_key_Ok. split_and!; [|apply key_ok_no_nul; by apply validate_object_key_spec|done].
  apply bucket_ok_no_nul. by apply validate_bucket_name_spec.
Qed.
Lemma validated_names_encode_witness :
  object_key (bs "my-bucket") (bs "dir/file") = Ok (bs "my-bucket" ++ [nul] ++ bs "dir/file").
Proof. apply validated_names_encode; vm_compute; reflexivity. Defined.

(** * Big-endian order *)
Definition be_value (l : bytes) : Z := fold_left (λ v b, v * 256 + bz b)%Z l 0%Z.

Lemma be_value_acc l : forall v, fold_left (λ v b, v * 256 + bz b)%Z l v = (v * 256 ^ Z.of_nat (length l) + be_value l)%Z.
Proof.
  unfold be_value. induction l as [|b l IH]; intros v; cbn [fold_left length]; [cbn; lia|].
  rewrite (IH (v * 256 + bz b)%Z), (IH (0 * 256 + bz b)%Z), Nat2Z.inj_succ, Z.pow_succ_r by lia. lia.
Qed.
Lemma be_value_cons b l : be_value (b :: l) = (bz b * 256 ^ Z.of_nat (length l) + be_value l)%Z.
Proof. unfold be_value at 1. cbn [fold_left]. by rewrite be_value_acc. Qed.
Lemma be_value_range l : (0 <= be_value l < 256 ^ Z.of_nat (length l))%Z.
Proof.
  induction l as [|b l IH]; [cbn; lia|]. rewrite be_value_cons. cbn [length]. rewrite Nat2Z.inj_succ, Z.pow_succ_r by lia.
  byte_ranges. nia.
Qed.

(** On strings of equal length, the byte order is the order of the values. *)
Lemma be_value_order a : forall b, length a = length b -> bytes_ltb a b = (be_value a <? be_value b)%Z.
Proof.
  induction a as [|x a IH]; intros [|y b] Hl; try done. cbn in Hl. injection Hl as Hl. cbn [bytes_ltb].
  rewrite !be_value_cons, Hl. pose proof (be_value_range a) as Ha. pose proof (be_value_range b) as Hb. rewrite Hl in Ha.
  set (M := (256 ^ Z.of_nat (length b))%Z) in *.
  destruct (Z.eqb_spec (bz x) (bz y)) as [->|Hne].
  - rewrite IH by done. destruct (Z.ltb_spec (be_value a) (be_value b)); symmetry; [apply Z.ltb_lt|apply Z.ltb_ge]; lia.
  - destruct (Z.ltb_spec (bz x) (bz y)); symmetry; [apply Z.ltb_lt|apply Z.ltb_ge]; nia.
Qed.

Lemma be64_key_S v : forall w, be_value ((λ i, zb (Z.shiftr v (8 * (Z.of_nat w - 1 - Z.of_nat i)))) <$> seq 0 w)
  = (v mod 256 ^ Z.of_nat w)%Z.
Proof.
  intros w. revert v. induction w as [|w IH]; intros v; [cbn; by rewrite Z.mod_1_r|].
  cbn [seq fmap list_fmap]. rewrite be_value_cons, length_fmap, length_seq.
  rewrite <- fmap_S_seq, <- list_fmap_compose.
  rewrite (list_fmap_ext _ (λ i, zb (Z.shiftr v (8 * (Z.of_nat w - 1 - Z.of_nat i))))); cycle 1.
  { intros _ i _. cbn. do 3 f_equal. lia. }
  rewrite IH, bz_zb. replace (Z.of_nat (S w) - 1 - Z.of_nat 0)%Z with (Z.of_nat w) by lia.
  rewrite Z.shiftr_div_pow2 by lia. rewrite Z.pow_mul_r by lia. change (2 ^ 8)%Z with 256%Z.
  rewrite Nat2Z.inj_succ, Z.pow_succ_r by lia. rewrite (Z.mul_comm 256), Z.rem_mul_r by lia. lia.
Qed.

Lemma be64_value v : is_u64 v -> be_value (be64_key v) = v.
Proof.
  intros Hv. unfold be64_key. etrans; [|apply Z.mod_small; exact Hv].
  change (2 ^ 64)%Z with (256 ^ Z.of_nat 8)%Z. rewrite <- be64_key_S. done.
Qed.

Lemma length_be64 v : length (be64_key v) = 8.
Proof. done. Qed.

Lemma parse_be64_fold l : forall v, (0 <= v)%Z -> (v * 256 ^ Z.of_nat (length l) + 256 ^ Z.of_nat (length l) <= 2 ^ 64)%Z ->
  fold_left (λ v b, Z.lor (u64 (Z.shiftl v 8)) (bz b)) l v = fold_left (λ v b, v * 256 + bz b)%Z l v.
Proof.
  induction l as [|b l IH]; intros v Hv Hb; [done|]. cbn [fold_left].
  cbn [length] in Hb. rewrite Nat2Z.inj_succ, Z.pow_succ_r in Hb by lia.
  byte_ranges. pose proof (Z.pow_pos_nonneg 256 (Z.of_nat (length l))).
  assert (Z.lor (u64 (Z.shiftl v 8)) (bz b) = v * 256 + bz b)%Z as ->.
  { rewrite u64_small by (rewrite Z.shiftl_mul_pow2 by lia; unfold is_u64; nia). rewrite lor_shiftl_add by lia. done. }
  apply IH; nia.
Qed.

Lemma parse_be64_key v : is_u64 v -> parse_be64 (be64_key v) = Ok v.
Proof.
  intros Hv. unfold parse_be64. rewrite length_be64. cbn [Nat.eqb negb]. rewrite parse_be64_fold by (rewrite ?length_be64; done).
  f_equal. by apply be64_value.
Qed.

Lemma part_no_of_part_key n p : is_u16 n -> part_no_of_key (p ++ [nul] ++ [zb (Z.shiftr n 8); zb n]) = Ok n.
Proof.
  intros Hn. unfold part_no_of_key. rewrite app_assoc, length_app. cbn [length].
  destruct (Nat.ltb_spec (length (p ++ [nul]) + 2) 2); [lia|].
  rewrite drop_app_length' by lia. f_equal. rewrite lor_shiftl_add; [|lia|apply bz_range]. by apply be16_value.
Qed.

Lemma be64_key_lt u v : is_u64 u -> is_u64 v -> bytes_lt (be64_key u) (be64_key v) <-> (u < v)%Z.
Proof. intros Hu Hv. unfold bytes_lt. rewrite be_value_order by done. by rewrite !be64_value, Z.ltb_lt. Qed.

(** Store order is numeric order: keys of the reference and garbage queues parse
    back and compare as their numbers, and the parts of an upload are stored in
    part-number order, each key giving back its number. *)
Theorem key_order (u v : Z) (b k id s t : bytes) (n m : Z) (Hu : is_u64 u) (Hv : is_u64 v) (Hn : is_u16 n) (Hm : is_u16 m)
    (Hs : part_key b k id n = Ok s) (Ht : part_key b k id m = Ok t) :
  parse_be64 (be64_key u) = Ok u /\ (bytes_lt (be64_key u) (be64_key v) <-> (u < v)%Z) /\
  part_no_of_key s = Ok n /\ (bytes_lt s t <-> (n < m)%Z).
Proof.
  apply part_key_Ok in Hs as (_ & _ & _ & ->). apply part_key_Ok in Ht as (_ & _ & _ & ->).
  split; [by apply parse_be64_key|]. split.
  { by apply be64_key_lt. }
  split; [rewrite !app_assoc, <- (app_assoc _ [nul]); by apply part_no_of_part_key|].
  unfold bytes_lt. rewrite !bytes_ltb_app. rewrite be_value_order by done. rewrite !be_value_cons. cbn.
  rewrite Z.ltb_lt. pose proof (be16_value n Hn). pose proof (be16_value m Hm). lia.
Qed.
Lemma key_order_witness :
  parse_be64 (be64_key 77) = Ok 77%Z /\ (bytes_lt (be64_key 77) (be64_key 1000) <-> (77 < 1000)%Z) /\
  part_no_of_key (bs "b" ++ [nul] ++ bs "k" ++ [nul] ++ bs "i" ++ [nul; zb 0; zb 9]) = Ok 9%Z.
Proof.
  destruct (key_order 77 1000 (bs "b") (bs "k") (bs "i")
    (bs "b" ++ [nul] ++ bs "k" ++ [nul] ++ bs "i" ++ [nul; zb 0; zb 9])
    (bs "b" ++ [nul] ++ bs "k" ++ [nul] ++ bs "i" ++ [nul; zb 1; zb 2]) 9 258) as (H1 & H2 & H3 & _);
    [unfold is_u64; lia|unfold is_u64; lia|unfold is_u16; lia|unfold is_u16; lia|reflexivity|reflexivity|].
  split; [exact H1|]. split; [exact H2|exact H3].
Defined.

(** * The seek point after a group *)
Lemma bump_rev_spec r r' :
  bump_rev r = Some r' -> exists f b t, r = f ++ b :: t /\ Forall (λ x, bz x = 255%Z) f /\ (bz b < 255)%Z /\
    r' = zb (bz b + 1) :: t.
Proof.
  induction r as [|x r IH]; cbn; [done|]. destruct (Z.eqb_spec (bz x) 255).
  - intros (f & b & t & -> & Hf & Hb & ->)%IH. exists (x :: f), b, t. split_and!; try done. by constructor.
  - intros [= <-]. exists [], x, r. byte_ranges. split_and!; try done. lia.
Qed.

Lemma bump_rev_None r : bump_rev r = None -> Forall (λ x, bz x = 255%Z) r.
Proof.
  induction r as [|x r IH]; cbn; [constructor|]. destruct (Z.eqb_spec (bz x) 255); [|done]. constructor; auto.
Qed.

(** A string above everything that starts with a run of 0xff is longer than the run. *)
Lemma above_ff f : Forall (λ x, bz x = 255%Z) f -> forall t, bytes_lt f t -> f `prefix_of` t.
Proof.
  unfold bytes_lt. induction 1 as [|x f Hx Hf IH]; intros t; [intros _; apply prefix_nil|]. destruct t as [|y t]; [done|].
  cbn. destruct (Z.eqb_spec (bz x) (bz y)) as [E|]; [apply (inj bz) in E; subst; intros H; by apply prefix_cons, IH|].
  rewrite Z.ltb_lt. byte_ranges. lia.
Qed.

(** Strings above [p b g] but outside its subtree reach the bumped byte. *)
Lemma bump_least (p g t : bytes) (b : byte) :
  Forall (λ x, bz x = 255%Z) g -> (bz b < 255)%Z ->
  bytes_lt (p ++ [b] ++ g) t -> ~ (p ++ [b] ++ g) `prefix_of` t -> bytes_le (p ++ [zb (bz b + 1)]) t.
Proof.
  intros Hg Hb. byte_ranges. assert (bz (zb (bz b + 1)) = bz b + 1)%Z as Hb1 by (apply bz_zb_small; lia).
  unfold bytes_lt, bytes_le. revert t. induction p as [|x p IH]; intros [|y t]; try done; cbn.
  - rewrite Hb1. destruct (Z.eqb_spec (bz b) (bz y)) as [E|Hne]; [apply (inj bz) in E; subst y|].
    + intros Hlt Hn. exfalso. apply Hn, prefix_cons. by apply above_ff.
    + intros Hlt _. apply Z.ltb_lt in Hlt. destruct (Z.eqb_spec (bz y) (bz b + 1)); [by destruct t|]. apply Z.ltb_ge. lia.
  - destruct (Z.eqb_spec (bz x) (bz y)) as [E|Hne]; [apply (inj bz) in E; subst y|].
    + rewrite Z.eqb_refl. intros Hlt Hn. apply IH; [done|]. intros Hp. by apply Hn, prefix_cons.
    + rewrite Z.ltb_lt. intros Hlt _. destruct (Z.eqb_spec (bz y) (bz x)); [lia|]. apply Z.ltb_ge. lia.
Qed.

Lemma bump_some (s s' t : bytes) :
  bump_last_byte s = Some s' -> (s `prefix_of` t -> bytes_lt t s') /\ (bytes_lt s t -> ~ s `prefix_of` t -> bytes_le s' t).
Proof.
  unfold bump_last_byte. intros (r' & E & ->)%fmap_Some.
  apply bump_rev_spec in E as (f & b & q & E & Hf & Hb & ->). apply (f_equal reverse) in E.
  rewrite reverse_involutive, reverse_app, reverse_cons in E. rewrite reverse_cons.
  apply Forall_reverse in Hf. set (g := reverse f) in *. set (p := reverse q) in *. subst s. rewrite <- app_assoc.
  byte_ranges. assert (bz (zb (bz b + 1)) = bz b + 1)%Z as Hb1 by (apply bz_zb_small; lia). split; [|by apply bump_least].
  intros [t' ->]. unfold bytes_lt. rewrite <- !app_assoc, bytes_ltb_app. cbn. rewrite Hb1.
  destruct (Z.eqb_spec (bz b) (bz b + 1)); [lia|]. apply Z.ltb_lt. lia.
Qed.

Lemma bump_nul (q : bytes) : bump_last_byte (q ++ [nul]) = Some (q ++ [Byte.x01]).
Proof.
  unfold bump_last_byte. rewrite reverse_app. change (reverse [nul] ++ reverse q) with (nul :: reverse q).
  change (reverse <$> bump_rev (nul :: reverse q)) with (Some (reverse ([Byte.x01] ++ reverse q))).
  by rewrite reverse_app, reverse_involutive.
Qed.

(** The range from a prefix to its bump is the keys that start with the prefix. *)
Lemma bump_range (q t : bytes) :
  let p := q ++ [nul] in bytes_le p t /\ bytes_lt t (default p (bump_last_byte p)) <-> p `prefix_of` t.
Proof.
  intros p. pose proof (bump_nul q) as E. fold p in E.
  destruct (bump_some p _ t E) as [H1 H2]. rewrite E. cbn. split.
  - intros [Hle Hlt]. destruct (decide (p `prefix_of` t)) as [|Hn]; [done|]. exfalso.
    apply bytes_le_lt_eq in Hle as [Hle| <-]; [|by apply Hn]. apply (bytes_lt_not_le t (q ++ [Byte.x01])); [done|]. by apply H2.
  - intros Hp. split; [by apply prefix_le|by apply H1].
Qed.

(** The group-skip seek point is exact: it lies above every key that starts with
    the group and is the least such string, so jumping to it skips the whole group and
    nothing else. When there is no seek point, every key above the group starts with it. *)
Theorem bump_last_byte_exact (s t : bytes) :
  match bump_last_byte s with
  | Some s' => (s `prefix_of` t -> bytes_lt t s') /\ (bytes_lt s t -> ~ s `prefix_of` t -> bytes_le s' t)
  | None => bytes_lt s t -> s `prefix_of` t
  end.
Proof.
  destruct (bump_last_byte s) as [s'|] eqn:E; [by apply bump_some|].
  apply fmap_None, bump_rev_None, Forall_reverse in E. rewrite reverse_involutive in E. by apply above_ff.
Qed.

(** * Pack owners *)
Lemma parse_no_to_string n : is_u64 n -> parse_no (to_string n) = Some n.
Proof.
  intros Hn. unfold parse_no. rewrite to_string_digits by (unfold is_u64 in Hn; lia).
  rewrite (proj2 (empty_string_false _) (to_string_nonempty n)). cbn [andb negb]. f_equal.
  rewrite <- (to_string_value n) at 2 by done. generalize 0%Z as v. generalize (to_string n) as l.
  induction l as [|c l IH]; intros v; [done|]. cbn. apply IH.
Qed.

(** Owner strings embedded in pack records parse back: an object's owner to that
    object, a part's owner to that part of that upload, and an owner of one form is
    never taken for another, even for a bucket named like the part marker. *)
Theorem pack_owner_roundtrip (b k id s : bytes) (n : Z) (Hs : object_key b k = Ok s) (Hid : nul ∉ id)
    (Hb : b <> []) (Hk : k <> []) (Hn : is_u64 n) :
  parse_pack_owner s = mkPackOwner OObject b k [] 0 /\
  parse_pack_owner (part_owner b k id n) = mkPackOwner OPart b k id n.
Proof.
  apply object_key_Ok in Hs as (Hnb & Hnk & ->). apply empty_string_false in Hb. apply empty_string_false in Hk.
  unfold parse_pack_owner, part_owner. cbn [app]. split.
  - rewrite split_on_app, split_on_no_sep by done. by rewrite Hb, Hk.
  - rewrite split_on_app by (vm_compute; set_solver). rewrite !split_on_app by done.
    rewrite split_on_no_sep by (apply to_string_not_elem; [unfold is_u64 in Hn; lia|done]).
    rewrite bool_decide_eq_true_2 by done. by rewrite Hb, Hk, parse_no_to_string.
Qed.
Lemma pack_owner_roundtrip_witness :
  parse_pack_owner (bs "mpu" ++ [nul] ++ bs "7") = mkPackOwner OObject (bs "mpu") (bs "7") [] 0.
Proof.
  apply (pack_owner_roundtrip (bs "mpu") (bs "7") (bs "id") (bs "mpu" ++ [nul] ++ bs "7") 1).
  - reflexivity.
  - vm_compute. set_solver.
  - done.
  - done.
  - unfold is_u64. lia.
Defined.

(** ** Record overhead *)
Lemma dec_loop_count f : forall n acc d,
  (0 <= n < 10 ^ Z.of_nat (S f))%Z ->
  (Z.of_nat (length (dec_loop (S f) n acc)) + (d - 1) = count_digits f d n + Z.of_nat (length acc))%Z.
Proof.
  induction f as [|f IH]; intros n acc d Hn.
  - cbn [dec_loop count_digits]. case_if; cbn [length]; lia.
  - cbn [dec_loop count_digits]. destruct (Z.ltb_spec n 10), (Z.leb_spec 10 n); try lia; [cbn [length]; lia|].
    specialize (IH (n / 10)%Z (digit_char (n mod 10) :: acc) (d + 1)%Z). cbn [length] in IH.
    rewrite Nat2Z.inj_succ, Z.pow_succ_r in Hn by lia.
    assert (0 <= n / 10 < 10 ^ Z.of_nat (S f))%Z as Hq
      by (split; [apply Z.div_pos; lia|apply Z.div_lt_upper_bound; lia]).
    specialize (IH Hq). cbn [dec_loop] in IH. lia.
Qed.

Lemma count_digits_fuel f g : forall d n, (0 <= n < 10 ^ Z.of_nat (S f))%Z -> count_digits (f + g) d n = count_digits f d n.
Proof.
  induction f as [|f IH]; intros d n Hn; cbn [count_digits Nat.add].
  - cbn in Hn. destruct g; [done|]. cbn. by destruct (Z.leb_spec 10 n); [lia|].
  - destruct (Z.leb_spec 10 n); [|done]. apply IH. rewrite Nat2Z.inj_succ, Z.pow_succ_r in Hn by lia.
    split; [apply Z.div_pos; lia|apply Z.div_lt_upper_bound; lia].
Qed.

(** The accounted overhead of a pack record is exactly its fixed header plus the
    length of the owner string written into it, for objects and for parts. *)
Theorem pack_overhead_exact (b k id s : bytes) (n : Z) (Hs : object_key b k = Ok s) (Hn : (0 <= n < 10 ^ 11)%Z) :
  pack_rec_overhead b k = (kPackRecHeaderFixed + blen s)%Z /\
  pack_rec_overhead_part b k id n = (kPackRecHeaderFixed + blen (part_owner b k id n))%Z.
Proof.
  apply object_key_Ok in Hs as (_ & _ & ->).
  unfold pack_rec_overhead, pack_rec_overhead_part, part_owner, blen. rewrite !length_app. cbn [length bs].
  pose proof (dec_loop_count 19 n [] 1) as Hc. rewrite (count_digits_fuel 10 9) in Hc by lia.
  unfold to_string. cbn [length] in Hc. change (length (bs "mpu")) with 3. lia.
Qed.
Lemma pack_overhead_exact_witness : pack_rec_overhead_part (bs "b") (bs "k") (bs "i") 10000
  = (kPackRecHeaderFixed + blen (part_owner (bs "b") (bs "k") (bs "i") 10000))%Z.
Proof.
  apply (pack_overhead_exact (bs "b") (bs "k") (bs "i") (bs "b" ++ [nul] ++ bs "k") 10000); [reflexivity|lia].
Defined.
