(* ===== verification/MetaUtil.v ===== *)
(** The engine-independent parts of the duostore metadata transactions
    ([src/src/storage/duostore/meta_util.h]): the schema marker, the conditional-write
    check, the assembly of a completed upload and the reference difference of a
    compaction. *)

From S2P Require Import Prelude Bytes Backend Multipart Codec.
From Stdlib Require Import ZArith Lia.
From stdpp Require Import base list gmap sets strings.

(** * Schema marker *)

(** [std::from_chars] into an [int64_t], all input consumed. *)
Definition from_chars_i64 (s : bytes) : option Z :=
  match s with
  | c :: s' =>
      let neg := bool_decide (c = ch "-") in
      let digits := if neg then s' else s in
      if bool_decide (digits <> []) && forallb is_digit digits then
        let v := (if neg then - dec_value 0 digits else dec_value 0 digits)%Z in
        if ((- 2 ^ 63 <=? v) && (v <? 2 ^ 63))%Z then Some v else None
      else None
  | [] => None
  end.

Definition parse_schema_marker (stored lineage : bytes) (current : Z) : result Z :=
  let ver :=
    if (length lineage <? length stored)%nat && starts_with lineage stored
    then default (-1)%Z (from_chars_i64 (drop (length lineage) stored))
    else (-1)%Z in
  if (ver <? 0)%Z then Throw InternalError
  else if (current <? ver)%Z then Throw InternalError
  else Ok ver.

(** * Conditional writes *)
Definition check_put_condition (cond : PutCondition) (old : option ObjectRec) : result unit :=
  if negb (cond_active cond) then Ok tt
  else
    _ ← throw_if (if_none_match cond && bool_decide (is_Some old)) PreconditionFailed;
    match if_match_etag cond with
    | None => Ok tt
    | Some e =>
        match old with
        | None => Throw NoSuchKey
        | Some o => throw_if (negb (bool_decide (e = etag (or_meta o)))) PreconditionFailed
        end
    end.

(** * Completion of an upload *)
Section assemble.
Context (md5_hex sha1 sha256 : bytes -> bytes).

(** What the loop carries: the record, the MD5s, the digests and the selected numbers. *)
Record Assembly := mkAssembly {
  as_meta : ObjectMeta; as_data : DataRef; as_md5s : list bytes; as_digests : list PartDigest; as_selected : gset Z }.

Definition select_part (stored : gmap Z PartRec) (pi : PartInfo) (a : Assembly) : result Assembly :=
  match stored !! pi_part_no pi with
  | None => Throw InvalidPart
  | Some p =>
      if negb (bool_decide (pr_etag p = strip_etag_quotes (pi_etag pi))) then Throw InvalidPart
      else Ok (mkAssembly
        (set_part_sizes (part_sizes (as_meta a) ++ [pr_size p]) (set_osize (osize (as_meta a) +₆₄ pr_size p)%L3 (as_meta a)))
        (as_data a ++ pr_data p) (as_md5s a ++ [pr_etag p])
        (as_digests a ++ [mkPartDigest (pr_checksum_algorithm p) (pr_checksum_value p)])
        ({[pi_part_no pi]} ∪ as_selected a))
  end.

Fixpoint select_parts_loop (stored : gmap Z PartRec) (parts : list PartInfo) (a : Assembly) : result Assembly :=
  match parts with
  | [] => Ok a
  | pi :: rest => a' ← select_part stored pi a; select_parts_loop stored rest a'
  end.

Definition assemble_completed_object (meta : ObjectMeta) (parts : list PartInfo) (stored : gmap Z PartRec)
    (selected : gset Z) (now : time_point) : result (ObjectRec * gset Z) :=
  a ← select_parts_loop stored parts (mkAssembly meta [] [] [] selected);
  let m := set_last_modified now (set_etag (combined_etag md5_hex (as_md5s a)) (as_meta a)) in
  let '(m', _) := apply_composite_checksum sha1 sha256 (as_digests a) m (mkPutResult [] [] [] []) in
  Ok (mkObjectRec m' (as_data a) 0 default_tier, as_selected a).
End assemble.

(** * Reference difference of a compaction *)
Definition is_pack (e : Extent.t) : bool := bool_decide (Extent.kind e = Extent.kPack).
Definition ref_ids (d : DataRef) : gset Z := list_to_set (Extent.file_id <$> List.filter (λ e, negb (is_pack e)) d).

Record RefsDelta := mkRefsDelta { added : DataRef; removed : DataRef }.

(** Extents outside [other], one per file id. *)
Fixpoint fresh_refs (other seen : gset Z) (l : DataRef) : DataRef :=
  match l with
  | [] => []
  | e :: l' =>
      if negb (is_pack e) && negb (bool_decide (Extent.file_id e ∈ other)) && negb (bool_decide (Extent.file_id e ∈ seen))
      then e :: fresh_refs other ({[Extent.file_id e]} ∪ seen) l'
      else fresh_refs other seen l'
  end.
Definition refs_delta (from to : DataRef) : RefsDelta :=
  mkRefsDelta (fresh_refs (ref_ids from) ∅ to) (fresh_refs (ref_ids to) ∅ from).

(** * Facts *)

(** The refs table: one entry per file id; a swap puts, then deletes. *)
Definition put_refs {V} (v : V) (d : DataRef) (refs : gmap Z V) : gmap Z V :=
  fold_left (λ r e, <[Extent.file_id e := v]> r) d refs.
Definition delete_refs {V} (d : DataRef) (refs : gmap Z V) : gmap Z V :=
  fold_left (λ r e, delete (Extent.file_id e) r) d refs.

Lemma lookup_put_refs {V} (v : V) d refs i :
  put_refs v d refs !! i = if bool_decide (i ∈ Extent.file_id <$> d) then Some v else refs !! i.
Proof.
  unfold put_refs. revert refs. induction d as [|e d IH]; intros refs; cbn [fold_left fmap list_fmap].
  { rewrite bool_decide_eq_false_2; [done|]. apply not_elem_of_nil. }
  rewrite IH. repeat case_bool_decide; try done; rewrite elem_of_cons in *; try naive_solver.
  - destruct (decide (i = Extent.file_id e)) as [->|]; [by rewrite lookup_insert_eq|naive_solver].
  - rewrite lookup_insert_ne by naive_solver. done.
Qed.

Lemma lookup_delete_refs {V} d (refs : gmap Z V) i :
  delete_refs d refs !! i = if bool_decide (i ∈ Extent.file_id <$> d) then None else refs !! i.
Proof.
  unfold delete_refs. revert refs. induction d as [|e d IH]; intros refs; cbn [fold_left fmap list_fmap].
  { rewrite bool_decide_eq_false_2; [done|]. apply not_elem_of_nil. }
  rewrite IH. repeat case_bool_decide; try done; rewrite elem_of_cons in *; try naive_solver.
  - destruct (decide (i = Extent.file_id e)) as [->|]; [by rewrite lookup_delete_eq|naive_solver].
  - rewrite lookup_delete_ne by naive_solver. done.
Qed.

Lemma elem_ref_ids i d : i ∈ ref_ids d <-> exists e, e ∈ d /\ is_pack e = false /\ Extent.file_id e = i.
Proof.
  unfold ref_ids. rewrite elem_of_list_to_set, list_elem_of_fmap. setoid_rewrite list_elem_of_In. setoid_rewrite List.filter_In.
  setoid_rewrite negb_true_iff. setoid_rewrite <- list_elem_of_In. naive_solver.
Qed.

Lemma fresh_refs_ids other seen l i :
  i ∈ Extent.file_id <$> fresh_refs other seen l <-> i ∈ ref_ids l /\ i ∉ other /\ i ∉ seen.
Proof.
  revert seen. induction l as [|e l IH]; intros seen; cbn [fresh_refs].
  { split; [intros H; by apply not_elem_of_nil in H|]. intros [H _]. apply elem_ref_ids in H as (e & H & _). by apply not_elem_of_nil in H. }
  assert (i ∈ ref_ids (e :: l) <-> (is_pack e = false /\ Extent.file_id e = i) \/ i ∈ ref_ids l) as ->.
  { rewrite !elem_ref_ids. setoid_rewrite elem_of_cons. naive_solver. }
  destruct (is_pack e) eqn:Ep; cbn [negb andb]; [rewrite IH; naive_solver|].
  case_bool_decide as Ho; cbn [negb andb]; [rewrite IH; naive_solver|].
  case_bool_decide as Hs; cbn [negb andb]; [rewrite IH; naive_solver|].
  rewrite fmap_cons, elem_of_cons, IH, not_elem_of_union, not_elem_of_singleton.
  destruct (decide (i = Extent.file_id e)) as [->|]; naive_solver.
Qed.

Lemma refs_delta_lookup {V} (v : V) from to (refs : gmap Z V) i :
  let d := refs_delta from to in
  delete_refs (removed d) (put_refs v (added d) refs) !! i =
    if bool_decide (i ∈ ref_ids to) then (if bool_decide (i ∈ ref_ids from) then refs !! i else Some v)
    else if bool_decide (i ∈ ref_ids from) then None else refs !! i.
Proof.
  cbv zeta. rewrite lookup_delete_refs, lookup_put_refs. cbn [added removed refs_delta].
  rewrite !(bool_decide_ext _ _ (fresh_refs_ids _ _ _ _)).
  pose proof (not_elem_of_empty (C := gset Z) i). by repeat case_bool_decide; destruct_and?; try done; exfalso; tauto.
Qed.

(** A compaction swap keeps every live reference: applying the difference of an
    object's old and new extents to the refs table leaves an entry for exactly the files
    the new extents use, entries of files shared by both and of files of other objects
    untouched, and the order of the puts and deletes does not matter. *)
Theorem refs_swap_exact {V} (v : V) from to (refs : gmap Z V) :
  let d := refs_delta from to in
  let refs' := delete_refs (removed d) (put_refs v (added d) refs) in
  (forall i, i ∈ ref_ids from -> is_Some (refs !! i)) ->
  (forall i, i ∈ ref_ids to -> is_Some (refs' !! i)) /\
  (forall i, i ∈ ref_ids from -> i ∉ ref_ids to -> refs' !! i = None) /\
  (forall i, i ∈ ref_ids from -> i ∈ ref_ids to -> refs' !! i = refs !! i) /\
  (forall i, i ∉ ref_ids from -> i ∉ ref_ids to -> refs' !! i = refs !! i) /\
  refs' = put_refs v (added d) (delete_refs (removed d) refs).
Proof.
  intros d refs' Hfrom. pose proof (refs_delta_lookup v from to refs : forall i, refs' !! i = _) as Hl. split_and!.
  - intros i Hi. rewrite Hl, bool_decide_eq_true_2 by done. case_bool_decide; [by apply Hfrom|done].
  - intros i H1 H2. by rewrite Hl, bool_decide_eq_false_2, bool_decide_eq_true_2.
  - intros i H1 H2. by rewrite Hl, !bool_decide_eq_true_2.
  - intros i H1 H2. by rewrite Hl, !bool_decide_eq_false_2.
  - apply map_eq. intros i. rewrite Hl, lookup_put_refs, lookup_delete_refs. cbn [d added removed refs_delta].
    rewrite !(bool_decide_ext _ _ (fresh_refs_ids _ _ _ _)).
    clear. pose proof (not_elem_of_empty (C := gset Z) i). by repeat case_bool_decide; destruct_and?; try done; exfalso; tauto.
Qed.

Definition demo_from : DataRef := [Extent.mk Extent.kChunk 1 0 4 0; Extent.mk Extent.kPack 9 0 4 0].
Definition demo_to : DataRef := [Extent.mk Extent.kChunk 1 0 4 0; Extent.mk Extent.kChunk 2 0 4 0].

Lemma refs_swap_exact_witness :
  let d := refs_delta demo_from demo_to in
  is_Some (delete_refs (removed d) (put_refs tt (added d) ({[1%Z := tt]})) !! 2%Z).
Proof.
  destruct (refs_swap_exact tt demo_from demo_to {[1%Z := tt]}) as [H _].
  - intros i Hi. assert (ref_ids demo_from = {[1%Z]}) as E by (vm_compute; reflexivity). rewrite E in Hi.
    apply elem_of_singleton in Hi as ->. rewrite lookup_singleton_eq. by eexists.
  - apply H. assert (ref_ids demo_to = {[1; 2]}%Z) as -> by (vm_compute; reflexivity). set_solver.
Defined.
