(* ===== verification/RocksDb.v ===== *)
(** RocksDB as the metadata engine uses it ([src/src/storage/duostore/rocks_meta_store.cc]):
    the library is a parameter, the class [RocksDB] of its calls with the class [RocksLaw]
    of what its documentation promises: reads see the contents, a write batch applies its
    operations in order and atomically, an iterator visits a column family by key. The
    merge operator is the repository's own. [mem_db] is an engine that obeys the law. *)

From S2P Require Import Prelude Bytes Backend Codec.
From Stdlib Require Import ZArith Lia.
From stdpp Require Import base list gmap sets strings sorting.

(** * Column families and batches *)
Inductive Cf := kDefault | kBuckets | kObjects | kUploads | kParts | kRefs | kGcq | kStats | kTc.
#[global] Instance cf_eq : EqDecision Cf.
Proof. solve_decision. Defined.

Inductive BatchOp :=
| BPut (cf : Cf) (k v : bytes)
| BDelete (cf : Cf) (k : bytes)
| BMerge (cf : Cf) (k v : bytes)
| BDeleteRange (cf : Cf) (from upto : bytes).

Definition op_cf (o : BatchOp) : Cf :=
  match o with BPut c _ _ | BDelete c _ | BMerge c _ _ | BDeleteRange c _ _ => c end.

Abbreviation table := (gmap bytes bytes).

(** [CounterMerge::Merge]: operands that are not eight bytes count as zero. *)
Definition counter_or_zero (v : bytes) : Z :=
  if (length v =? 8)%nat then match decode_counter v with Ok z => z | Throw _ => 0%Z end else 0%Z.
Definition counter_merge (existing : option bytes) (value : bytes) : result bytes :=
  encode_counter_delta (match existing with Some v => counter_or_zero v | None => 0 end + counter_or_zero value)%Z.

(** What one operation does to the family it names. *)
Definition apply_op (o : BatchOp) (t : table) : table :=
  match o with
  | BPut _ k v => <[k := v]> t
  | BDelete _ k => delete k t
  | BMerge _ k v => match counter_merge (t !! k) v with Ok v' => <[k := v']> t | Throw _ => t end
  | BDeleteRange _ a z => base.filter (λ kv, ~ (bytes_le a kv.1 /\ bytes_lt kv.1 z)) t
  end.

Definition apply_ops (b : list BatchOp) (t : table) : table := fold_left (λ t o, apply_op o t) b t.

(** The part of a batch that concerns one family. *)
Definition on_cf (c : Cf) (b : list BatchOp) : list BatchOp := base.filter (λ o, op_cf o = c) b.

(** * The library *)

(** A call that returns a status other than OK is [None]; a failed write has no effect.
    [db_items] is what an iterator over a family visits, from the first key to the last. *)
Class RocksDB (DB : Type) := {
  db_get : Cf -> bytes -> DB -> option (option bytes);
  db_write : bool -> list BatchOp -> DB -> option DB;
  db_items : Cf -> DB -> option (list (bytes * bytes)) }.

Class RocksLaw (DB : Type) `{RocksDB DB} := {
  contents : DB -> Cf -> table;
  get_law d c k v : db_get c k d = Some v -> v = contents d c !! k;
  write_law d d' sync b c : db_write sync b d = Some d' -> contents d' c = apply_ops (on_cf c b) (contents d c);
  items_law d c l : db_items c d = Some l -> l = map_items bytes_le (contents d c) }.

(** An engine none of whose calls fails. *)
Class RocksReliable (DB : Type) `{RocksDB DB} := {
  get_reliable d c k : is_Some (db_get c k d);
  write_reliable d sync b : is_Some (db_write sync b d);
  items_reliable d c : is_Some (db_items c d) }.

(** ** Iterators

    The entries before the position, nearest first, and those from the position on. *)
Abbreviation db_iter := (list (bytes * bytes) * list (bytes * bytes))%type.

Fixpoint seek_from (before : list (bytes * bytes)) (t : bytes) (l : list (bytes * bytes)) : db_iter :=
  match l with
  | kv :: l' => if bytes_ltb kv.1 t then seek_from (kv :: before) t l' else (before, l)
  | [] => (before, [])
  end.
Definition it_seek (t : bytes) (l : list (bytes * bytes)) : db_iter := seek_from [] t l.
Definition it_next (i : db_iter) : db_iter := match i with (b, kv :: a) => (kv :: b, a) | (b, []) => (b, []) end.
Definition it_prev (i : db_iter) : db_iter := match i with (kv :: b, a) => (b, kv :: a) | ([], a) => ([], []) end.
Definition it_all (i : db_iter) : list (bytes * bytes) := reverse i.1 ++ i.2.

Fixpoint take_while {A} (f : A -> bool) (l : list A) : list A :=
  match l with x :: l' => if f x then x :: take_while f l' else [] | [] => [] end.

(** [Seek(prefix)] and [Next] while the key starts with the prefix. *)
Definition scan_prefix (prefix : bytes) (l : list (bytes * bytes)) : list (bytes * bytes) :=
  take_while (λ kv, starts_with prefix kv.1) (it_seek prefix l).2.

(** * Facts about batches *)
Lemma apply_ops_app a b t : apply_ops (a ++ b) t = apply_ops b (apply_ops a t).
Proof. apply fold_left_app. Qed.

Lemma on_cf_app c a b : on_cf c (a ++ b) = on_cf c a ++ on_cf c b.
Proof. apply list.filter_app. Qed.

Lemma on_cf_cons c o b : on_cf c (o :: b) = if decide (op_cf o = c) then o :: on_cf c b else on_cf c b.
Proof. done. Qed.

Lemma on_cf_none c b : Forall (λ o, op_cf o <> c) b -> on_cf c b = [].
Proof.
  induction 1 as [|o b Ho Hb IH]; [done|]. rewrite on_cf_cons, IH. by rewrite decide_False.
Qed.
Lemma on_cf_all c b : Forall (λ o, op_cf o = c) b -> on_cf c b = b.
Proof. induction 1 as [|o b Ho Hb IH]; [done|]. rewrite on_cf_cons, IH. by rewrite decide_True. Qed.

Lemma apply_ops_cons o b t : apply_ops (o :: b) t = apply_ops b (apply_op o t).
Proof. done. Qed.

(** * Facts about counters *)
Lemma encode_counter_eq d : encode_counter_delta d = Ok (le_bytes 8 (u64 d)).
Proof. done. Qed.

(** * An engine in memory *)
Record mem_db := mkMemDb { mem_tables : list (Cf * table) }.

Definition mem_table (c : Cf) (l : list (Cf * table)) : table :=
  match List.find (λ ct, bool_decide (ct.1 = c)) l with Some ct => ct.2 | None => ∅ end.
Definition all_cfs : list Cf := [kDefault; kBuckets; kObjects; kUploads; kParts; kRefs; kGcq; kStats; kTc].

#[export] Instance mem_rocks : RocksDB mem_db := {
  db_get c k d := Some (mem_table c (mem_tables d) !! k);
  db_write _ b d := Some (mkMemDb ((λ c, (c, apply_ops (on_cf c b) (mem_table c (mem_tables d)))) <$> all_cfs));
  db_items c d := Some (map_items bytes_le (mem_table c (mem_tables d))) }.

#[export] Program Instance mem_law : RocksLaw mem_db := { contents d c := mem_table c (mem_tables d) }.
Next Obligation. by intros d c k v [= <-]. Qed.
Next Obligation. intros d d' sync b c [= <-]. by destruct c. Qed.
Next Obligation. by intros d c l [= <-]. Qed.
#[export] Program Instance mem_reliable : RocksReliable mem_db.
Next Obligation. by eexists. Qed.
Next Obligation. by eexists. Qed.
Next Obligation. by eexists. Qed.
