(* ===== verification/RocksMeta.v ===== *)
(** The RocksDB metadata engine of DuoStore ([RocksMetaStore] in
    [src/src/storage/duostore/rocks_meta_store.cc]): definitions only.

    A member function is a run over the store's state: the database handle and the
    in-memory id ranges. The functions that take [mu_] are atomic with respect to each
    other; those that do not (allocation, write-offs) touch keys of their own. A value
    read from the clock or drawn at random is an argument, the clock being read once per
    operation. Sums of [int64_t] are exact until they are encoded. *)

From S2P Require Import Prelude Bytes Backend Listing Multipart Codec MetaUtil RocksDb.
From Stdlib Require Import ZArith Lia.
From stdpp Require Import base list gmap sets strings.

(** * State *)
Record IdRange := mkRange { next : Z; limit : Z }.
Inductive Counter := CChunk | CPack | CSeq.
#[global] Instance counter_eq : EqDecision Counter.
Proof. solve_decision. Defined.

Record Meta (DB : Type) := mkMeta {
  opt_sync : bool; handle : option DB; chunk_ids : IdRange; pack_ids : IdRange; seqs : IdRange }.
Arguments mkMeta {DB} _ _ _ _ _.
Arguments opt_sync {DB} _.
Arguments handle {DB} _.
Arguments chunk_ids {DB} _.
Arguments pack_ids {DB} _.
Arguments seqs {DB} _.

Definition kIdSegment : Z := 4096.
Definition kMaxIdRun : Z := 64.
Definition kReclaimMaxExtents : nat := 4096.
Definition kSchemaCurrent : Z := 1.

Definition counter_key (c : Counter) : bytes := match c with CChunk => bs "c0" | CPack => bs "c1" | CSeq => bs "q" end.
Definition pack_stat_key (pack_id : Z) (field : byte) : bytes := bs "p" ++ be64_key pack_id ++ [field].

Record PackStat := mkPackStat { ps_pack_id : Z; file_size : Z; live_bytes : Z; live_recs : Z; sealed : bool }.
Record SwapReq := mkSwapReq { sr_bucket : bytes; sr_key : bytes; expect_version : Z; sr_from : DataRef; sr_to : DataRef }.
Record KvItem := mkKvItem { kv_key : bytes; kv_value : bytes; kv_item_etag : bytes }.
Record KvPut := mkKvPut { kp_key : bytes; kp_value : bytes; kp_cond : PutCondition }.

#[global] Instance extent_eq : EqDecision Extent.t.
Proof. solve_decision. Defined.

Definition set_version (v : Z) (r : ObjectRec) : ObjectRec := mkObjectRec (or_meta r) (or_data r) v (or_tier r).
Definition set_data (d : DataRef) (r : ObjectRec) : ObjectRec := mkObjectRec (or_meta r) d (version r) (or_tier r).

Section store.
Context {DB : Type} `{RocksDB DB}.
Abbreviation M := (ST (Meta DB) S3ErrorCode).

Definition range (c : Counter) (s : Meta DB) : IdRange :=
  match c with CChunk => chunk_ids s | CPack => pack_ids s | CSeq => seqs s end.
Definition set_range (c : Counter) (r : IdRange) (s : Meta DB) : Meta DB :=
  match c with
  | CChunk => mkMeta (opt_sync s) (handle s) r (pack_ids s) (seqs s)
  | CPack => mkMeta (opt_sync s) (handle s) (chunk_ids s) r (seqs s)
  | CSeq => mkMeta (opt_sync s) (handle s) (chunk_ids s) (pack_ids s) r
  end.
Definition set_handle (d : DB) (s : Meta DB) : Meta DB := mkMeta (opt_sync s) (Some d) (chunk_ids s) (pack_ids s) (seqs s).
Definition modify (f : Meta DB -> Meta DB) : M unit := λ s, (Ok tt, f s).

(** * Basic wrappers *)
Definition db : M DB := λ s, match handle s with Some d => (Ok d, s) | None => (Throw InternalError, s) end.

(** A status other than OK throws. *)
Definition status {A} (r : option A) : M A := match r with Some a => mret a | None => throw InternalError end.

Definition get_raw (c : Cf) (k : bytes) : M (option bytes) := d ← db; status (db_get c k d).
Definition write (sync : bool) (b : list BatchOp) : M unit := d ← db; d' ← status (db_write sync b d); modify (set_handle d').
Definition commit (b : list BatchOp) : M unit := s ← get_st; write (opt_sync s) b.
Definition items (c : Cf) : M (list (bytes * bytes)) := d ← db; status (db_items c d).

Definition require_bucket_locked (b : bytes) : M unit :=
  v ← get_raw kBuckets b; lift (throw_if (negb (bool_decide (is_Some v))) NoSuchBucket).

Definition batch_refs (d : DataRef) (add : bool) (owner : bytes) : list BatchOp :=
  flat_map (λ e, if is_pack e then []
                 else [if add then BPut kRefs (be64_key (Extent.file_id e)) owner
                       else BDelete kRefs (be64_key (Extent.file_id e))]) d.

(** The aggregation by pack: bytes and records. *)
Definition agg_extent (sign rec_overhead : Z) (agg : gmap Z (Z * Z)) (e : Extent.t) : gmap Z (Z * Z) :=
  if is_pack e then
    let '(b, r) := default (0, 0)%Z (agg !! Extent.file_id e) in
    <[Extent.file_id e := (b + sign * (i64 (Extent.length e) + rec_overhead), r + sign)%Z]> agg
  else agg.
Definition pack_agg (d : DataRef) (sign rec_overhead : Z) : gmap Z (Z * Z) := fold_left (agg_extent sign rec_overhead) d ∅.

Definition pack_ops (id : Z) (bytes_delta recs_delta : Z) : result (list BatchOp) :=
  b ← encode_counter_delta bytes_delta;
  r ← encode_counter_delta recs_delta;
  Ok [BMerge kStats (pack_stat_key id (ch "b")) b; BMerge kStats (pack_stat_key id (ch "r")) r].

Fixpoint pack_ops_all (l : list (Z * (Z * Z))) : result (list BatchOp) :=
  match l with
  | [] => Ok []
  | (id, (b, r)) :: l' => o ← pack_ops id b r; rest ← pack_ops_all l'; Ok (o ++ rest)
  end.

Definition batch_pack_delta (d : DataRef) (sign rec_overhead : Z) : result (list BatchOp) :=
  pack_ops_all (map_items Z.le (pack_agg d sign rec_overhead)).

(** * Ids *)
(** Reserving a segment: persisted, and always synced, before an id is handed out. *)
Definition reserve_segment (c : Counter) : M unit :=
  delta ← lift (encode_counter_delta kIdSegment);
  _ ← write true [BMerge kStats (counter_key c) delta];
  v ← get_raw kStats (counter_key c);
  match v with
  | None => throw InternalError
  | Some v =>
      d ← lift (decode_counter v);
      let hi := u64 d in
      modify (set_range c (mkRange (u64 (hi - kIdSegment)) hi))
  end.

Definition clamp_run (n : Z) : Z := Z.max 1 (Z.min n kMaxIdRun).

Definition alloc_id (c : Counter) (n : Z) : M Z :=
  s ← get_st;
  _ ← (if (u64 (limit (range c s) - next (range c s)) <? clamp_run n)%Z then reserve_segment c else mret tt);
  s ← get_st;
  _ ← modify (set_range c (mkRange (u64 (next (range c s) + clamp_run n)) (limit (range c s))));
  mret (next (range c s)).

Definition alloc_file_run (kind : Extent.Kind) (n : Z) : M Z :=
  alloc_id (match kind with Extent.kPack => CPack | _ => CChunk end) n.

(** [enqueue_reclaim_locked]: one entry per [kReclaimMaxExtents] extents. *)
Fixpoint enqueue_loop (fuel : nat) (now : Z) (reason : ReclaimReason) (es : DataRef) : M (list BatchOp) :=
  match fuel, es with
  | S f, _ :: _ =>
      seq ← alloc_id CSeq 1;
      enc ← lift (encode_reclaim (mkReclaim (take kReclaimMaxExtents es) 0 reason) now);
      rest ← enqueue_loop f now reason (drop kReclaimMaxExtents es);
      mret (BPut kGcq (be64_key seq) enc :: rest)
  | _, _ => mret []
  end.
Definition enqueue_reclaim_locked (now : Z) (es : DataRef) (reason : ReclaimReason) : M (list BatchOp) :=
  enqueue_loop (length es) now reason es.

(** Queue an old reference, and take it out of the references and the ledger. *)
Definition drop_data (now : Z) (es : DataRef) (reason : ReclaimReason) (ov : Z) : M (list BatchOp) :=
  q ← enqueue_reclaim_locked now es reason;
  p ← lift (batch_pack_delta es (-1) ov);
  mret (q ++ batch_refs es false [] ++ p).

(** * Buckets *)
Definition create_bucket (b : bytes) (now : Z) : M unit :=
  v ← get_raw kBuckets b;
  _ ← lift (throw_if (bool_decide (is_Some v)) BucketAlreadyOwnedByYou);
  enc ← lift (encode_bucket now);
  commit [BPut kBuckets b enc].

Definition any_with_prefix (prefix : bytes) (l : list (bytes * bytes)) : bool :=
  match (it_seek prefix l).2 with (k, _) :: _ => starts_with prefix k | [] => false end.

Definition delete_bucket (b : bytes) : M unit :=
  _ ← require_bucket_locked b;
  objs ← items kObjects;
  _ ← lift (throw_if (any_with_prefix (b ++ [nul]) objs) BucketNotEmpty);
  ups ← items kUploads;
  _ ← lift (throw_if (any_with_prefix (b ++ [nul]) ups) BucketNotEmpty);
  commit [BDelete kBuckets b].

Definition bucket_exists (b : bytes) : M bool := v ← get_raw kBuckets b; mret (bool_decide (is_Some v)).

Fixpoint bucket_infos (l : list (bytes * bytes)) : result (list BucketInfo) :=
  match l with
  | [] => Ok []
  | (k, v) :: l' => created ← decode_bucket v; rest ← bucket_infos l'; Ok (mkBucketInfo k (from_unix_ms created) :: rest)
  end.
Definition list_buckets : M (list BucketInfo) := l ← items kBuckets; lift (bucket_infos l).

(** * Objects *)
Definition opt_decode {A} (f : bytes -> result A) (v : option bytes) : result (option A) :=
  match v with Some x => Some <$> f x | None => Ok None end.

Definition get_object (b k : bytes) : M (option ObjectRec) :=
  okey ← lift (object_key b k); v ← get_raw kObjects okey; lift (opt_decode (decode_object k) v).
Definition head_object (b k : bytes) : M (option ObjectMeta) :=
  okey ← lift (object_key b k); v ← get_raw kObjects okey; lift (opt_decode (decode_object_meta k) v).

Definition next_version (old : option ObjectRec) : Z := match old with Some o => u64 (version o + 1) | None => 1 end.

Definition drop_old (now : Z) (old : option ObjectRec) (ov : Z) : M (list BatchOp) :=
  match old with Some o => drop_data now (or_data o) kOverwrite ov | None => mret [] end.

Definition put_object (b k : bytes) (rec : ObjectRec) (cond : PutCondition) (now : Z) : M unit :=
  _ ← require_bucket_locked b;
  okey ← lift (object_key b k);
  oldv ← get_raw kObjects okey;
  old ← lift (opt_decode (decode_object k) oldv);
  _ ← lift (check_put_condition cond old);
  enc ← lift (encode_object (set_version (next_version old) rec));
  let ov := pack_rec_overhead b k in
  pd ← lift (batch_pack_delta (or_data rec) 1 ov);
  drops ← drop_old now old ov;
  commit (BPut kObjects okey enc :: batch_refs (or_data rec) true okey ++ pd ++ drops).

Definition delete_object (b k : bytes) (now : Z) : M bool :=
  _ ← require_bucket_locked b;
  okey ← lift (object_key b k);
  oldv ← get_raw kObjects okey;
  match oldv with
  | None => mret false
  | Some v =>
      old ← lift (decode_object k v);
      drops ← drop_data now (or_data old) kDelete (pack_rec_overhead b k);
      _ ← commit (BDelete kObjects okey :: drops);
      mret true
  end.

(** ** Listing by seeking

    [all] is what the iterator bounded by the bucket's range visits. *)
Section list_loop.
Context (opt : ListOptions) (base : bytes) (all : list (bytes * bytes)).

(** The last key of a skipped group, when something follows it. *)
Definition group_tail (it : db_iter) (last : bytes) : bytes :=
  match it.2 with
  | [] => last
  | _ :: _ => match (it_prev it).2 with (k, _) :: _ => drop (length base) k | [] => last end
  end.

(** Every round moves the iterator forward. *)
Fixpoint list_loop (fuel : nat) (it : db_iter) (count : Z) (last : bytes) (out : ListResult) : result ListResult :=
  match fuel, it.2 with
  | S f, (k, v) :: _ =>
      let uk := drop (length base) k in
      if negb (starts_with (lo_prefix opt) uk) then Ok out
      else if (max_keys opt <=? count)%Z then Ok (truncate_at last out)
      else match group_of (lo_prefix opt) (lo_delimiter opt) uk with
           | Some group =>
               match bump_last_byte (base ++ group) with
               | None => Ok (push_prefix group out)
               | Some target =>
                   let it' := it_seek target all in
                   list_loop f it' (count + 1) (group_tail it' last) (push_prefix group out)
               end
           | None =>
               m ← decode_object_meta uk v;
               list_loop f (it_next it) (count + 1) uk (push_object m out)
           end
  | _, _ => Ok out
  end.
End list_loop.

Definition bytes_max (a b : bytes) : bytes := if bytes_ltb a b then b else a.

Definition list_objects (b : bytes) (opt : ListOptions) : M ListResult :=
  v ← get_raw kBuckets b;
  _ ← lift (throw_if (negb (bool_decide (is_Some v))) NoSuchBucket);
  if (max_keys opt <=? 0)%Z then mret empty_result
  else
    let base := b ++ [nul] in
    let upper := b ++ [Byte.x01] in
    l ← items kObjects;
    let all := List.filter (λ kv, bytes_ltb kv.1 upper) l in
    let it := it_seek (base ++ bytes_max (lo_prefix opt) (start_after opt)) all in
    let it' := match it.2 with
               | (k, _) :: _ => if negb (empty_string (start_after opt)) && bool_decide (k = base ++ start_after opt)
                                then it_next it else it
               | [] => it
               end in
    lift (list_loop opt base all (S (length all)) it' 0 [] empty_result).

(** * Multipart *)
Definition create_upload (b k : bytes) (meta : ObjectMeta) (new_id : bytes) (now : Z) : M bytes :=
  _ ← require_bucket_locked b;
  let rec := mkUploadRec new_id (set_okey k meta) now in
  ukey ← lift (upload_key b k new_id);
  enc ← lift (encode_upload rec);
  _ ← commit [BPut kUploads ukey enc];
  mret new_id.

Definition require_upload (b k id : bytes) : M UploadRec :=
  if negb (is_valid_upload_id id) then throw NoSuchUpload
  else
    ukey ← lift (upload_key b k id);
    v ← get_raw kUploads ukey;
    match v with
    | None => throw NoSuchUpload
    | Some v => lift (decode_upload k id v)
    end.

Definition put_part (b k id : bytes) (p : PartRec) (now : Z) : M unit :=
  _ ← require_upload b k id;
  pkey ← lift (part_key b k id (pr_part_no p));
  oldv ← get_raw kParts pkey;
  old ← lift (opt_decode (decode_part (pr_part_no p)) oldv);
  enc ← lift (encode_part p);
  let ov := pack_rec_overhead_part b k id (pr_part_no p) in
  pd ← lift (batch_pack_delta (pr_data p) 1 ov);
  drops ← match old with Some o => drop_data now (pr_data o) kPartOverwrite ov | None => mret [] end;
  commit (BPut kParts pkey enc :: batch_refs (pr_data p) true pkey ++ pd ++ drops).

Fixpoint decode_parts (l : list (bytes * bytes)) : result (list PartRec) :=
  match l with
  | [] => Ok []
  | (k, v) :: l' => no ← part_no_of_key k; p ← decode_part no v; rest ← decode_parts l'; Ok (p :: rest)
  end.
Definition scan_parts (b k id : bytes) : M (list PartRec) :=
  prefix ← lift (parts_prefix b k id);
  l ← items kParts;
  lift (decode_parts (scan_prefix prefix l)).

Definition list_parts (b k id : bytes) : M (list PartRec) := _ ← require_upload b k id; scan_parts b k id.

(** [rfind] of a separator: what precedes and what follows its last occurrence. *)
Fixpoint rcut (sep : byte) (s : bytes) : option (bytes * bytes) :=
  match s with
  | [] => None
  | c :: s' =>
      match rcut sep s' with
      | Some (a, z) => Some (c :: a, z)
      | None => if bool_decide (c = sep) then Some ([], s') else None
      end
  end.

Definition upload_seek (prefix key_marker id_marker key_prefix : bytes) : bytes :=
  let seek := if negb (empty_string id_marker) then prefix ++ key_marker ++ [nul] ++ id_marker ++ [nul]
              else if negb (empty_string key_marker) then prefix ++ key_marker ++ [Byte.x01]
              else prefix in
  let from := prefix ++ key_prefix in
  if bytes_ltb seek from then from else seek.

Fixpoint uploads_loop (prefix key_prefix : bytes) (lim : Z) (count : Z) (l : list (bytes * bytes)) : result (list UploadInfo) :=
  match l with
  | [] => Ok []
  | (k, v) :: l' =>
      if negb (starts_with prefix k) then Ok []
      else if (0 <? lim)%Z && (lim <=? count)%Z then Ok []
      else
        let rest := drop (length prefix) k in
        if negb (starts_with key_prefix rest) then Ok []
        else match rcut nul rest with
             | None => uploads_loop prefix key_prefix lim count l'
             | Some (key, id) =>
                 r ← decode_upload key id v;
                 more ← uploads_loop prefix key_prefix lim (count + 1) l';
                 Ok (mkUploadInfo (okey (ur_meta r)) (ur_upload_id r) (from_unix_ms (initiated_ms r)) :: more)
             end
  end.
Definition list_uploads (b key_marker id_marker : bytes) (lim : Z) (key_prefix : bytes) : M (list UploadInfo) :=
  _ ← require_bucket_locked b;
  let prefix := b ++ [nul] in
  l ← items kUploads;
  lift (uploads_loop prefix key_prefix lim 0 (it_seek (upload_seek prefix key_marker id_marker key_prefix) l).2).

Section complete.
Context (md5_hex sha1 sha256 : bytes -> bytes).

(** The accounting of one stored part at completion. *)
Definition complete_part (b k id okey : bytes) (now : Z) (selected : gset Z) (np : Z * PartRec) : M (list BatchOp) :=
  let '(no, p) := np in
  let ovp := pack_rec_overhead_part b k id no in
  if bool_decide (no ∈ selected) then
    less ← lift (batch_pack_delta (pr_data p) (-1) ovp);
    more ← lift (batch_pack_delta (pr_data p) 1 (pack_rec_overhead b k));
    mret (batch_refs (pr_data p) true okey ++ less ++ more)
  else drop_data now (pr_data p) kComplete ovp.

Fixpoint complete_parts (b k id okey : bytes) (now : Z) (selected : gset Z) (l : list (Z * PartRec)) : M (list BatchOp) :=
  match l with
  | [] => mret []
  | np :: l' =>
      o ← complete_part b k id okey now selected np;
      rest ← complete_parts b k id okey now selected l';
      mret (o ++ rest)
  end.

(** [tp] is the time the assembled object is stamped with. *)
Definition complete_upload (b k id : bytes) (parts : list PartInfo) (now : Z) (tp : time_point) : M bytes :=
  up ← require_upload b k id;
  _ ← require_bucket_locked b;
  ps ← scan_parts b k id;
  let stored : gmap Z PartRec := list_to_map ((λ p, (pr_part_no p, p)) <$> ps) in
  rs ← lift (assemble_completed_object md5_hex sha1 sha256 (ur_meta up) parts stored ∅ tp);
  okey ← lift (object_key b k);
  oldv ← get_raw kObjects okey;
  old ← lift (opt_decode (decode_object k) oldv);
  let rec := set_version (next_version old) rs.1 in
  enc ← lift (encode_object rec);
  ukey ← lift (upload_key b k id);
  pfx ← lift (parts_prefix b k id);
  moves ← complete_parts b k id okey now rs.2 (map_items Z.le stored);
  drops ← drop_old now old (pack_rec_overhead b k);
  _ ← commit ([BPut kObjects okey enc; BDelete kUploads ukey; BDeleteRange kParts pfx (default pfx (bump_last_byte pfx))]
              ++ moves ++ drops);
  mret (etag (or_meta rec)).
End complete.

Fixpoint drop_parts (b k id : bytes) (now : Z) (l : list PartRec) : M (list BatchOp) :=
  match l with
  | [] => mret []
  | p :: l' =>
      o ← drop_data now (pr_data p) kAbort (pack_rec_overhead_part b k id (pr_part_no p));
      rest ← drop_parts b k id now l';
      mret (o ++ rest)
  end.
Definition abort_upload (b k id : bytes) (now : Z) : M unit :=
  _ ← require_upload b k id;
  ukey ← lift (upload_key b k id);
  pfx ← lift (parts_prefix b k id);
  ps ← scan_parts b k id;
  drops ← drop_parts b k id now ps;
  commit ([BDelete kUploads ukey; BDeleteRange kParts pfx (default pfx (bump_last_byte pfx))] ++ drops).

(** * Garbage accounting *)
Fixpoint peek_loop (max max_extents : Z) (count extents : Z) (l : list (bytes * bytes)) : result (list (Z * Reclaim)) :=
  match l with
  | (k, v) :: l' =>
      if (max <=? count)%Z then Ok []
      else
        seq ← parse_be64 k;
        r ← decode_reclaim v;
        let extents' := (extents + Z.of_nat (length (rc_extents r)))%Z in
        if (max_extents <=? extents')%Z then Ok [(seq, r)]
        else rest ← peek_loop max max_extents (count + 1) extents' l'; Ok ((seq, r) :: rest)
  | [] => Ok []
  end.
Definition peek_reclaims (max min_seq max_extents : Z) : M (list (Z * Reclaim)) :=
  l ← items kGcq; lift (peek_loop max max_extents 0 0 (it_seek (be64_key min_seq) l).2).

Definition ack_reclaim (seq : Z) : M unit := commit [BDelete kGcq (be64_key seq)].
Definition ack_reclaims (l : list Z) : M unit :=
  if bool_decide (l = []) then mret tt else commit ((λ s, BDelete kGcq (be64_key s)) <$> l).

(** The current entry of [pack_stats] and the ones finished. *)
Definition stat_field (k : byte) (v : bytes) (p : PackStat) : result PackStat :=
  if bool_decide (k = ch "b") then
    c ← decode_counter v; Ok (mkPackStat (ps_pack_id p) (file_size p) c (live_recs p) (sealed p))
  else if bool_decide (k = ch "r") then
    c ← decode_counter v; Ok (mkPackStat (ps_pack_id p) (file_size p) (live_bytes p) c (sealed p))
  else if bool_decide (k = ch "s") then
    c ← decode_counter v; Ok (mkPackStat (ps_pack_id p) (u64 c) (live_bytes p) (live_recs p) true)
  else Ok p.

(** [out] is in reverse, as [out.back()] is updated in place. *)
Fixpoint stats_loop (l : list (bytes * bytes)) (out : list PackStat) : result (list PackStat) :=
  match l with
  | [] => Ok (reverse out)
  | (k, v) :: l' =>
      if negb (length k =? 10)%nat then stats_loop l' out
      else
        id ← parse_be64 (substr k 1 8);
        let '(cur, done) := match out with
                            | p :: out' => if (ps_pack_id p =? id)%Z then (p, out') else (mkPackStat id 0 0 0 false, out)
                            | [] => (mkPackStat id 0 0 0 false, [])
                            end in
        cur' ← match last k with Some f => stat_field f v cur | None => Ok cur end;
        stats_loop l' (cur' :: done)
  end.
Definition pack_stats : M (list PackStat) := l ← items kStats; lift (stats_loop (scan_prefix (bs "p") l) []).

Definition seal_known (skey : bytes) (size : Z) : M bool :=
  if (size =? 0)%Z then v ← get_raw kStats skey; mret (bool_decide (is_Some v)) else mret false.
Definition seal_pack (pack_id size : Z) : M unit :=
  let skey := pack_stat_key pack_id (ch "s") in
  known ← seal_known skey size;
  if bool_decide (known = true) then mret tt
  else enc ← lift (encode_counter_delta (i64 size)); commit [BPut kStats skey enc].

Definition drop_pack_stat (pack_id : Z) : M unit :=
  commit ((λ f, BDelete kStats (pack_stat_key pack_id f)) <$> [ch "b"; ch "r"; ch "s"]).

(** The mutations of a reference swap, or [None] on a mismatch. *)
Definition stage_swap_locked (b k : bytes) (expect : Z) (from to : DataRef) : M (option (list BatchOp)) :=
  okey ← lift (object_key b k);
  v ← get_raw kObjects okey;
  match v with
  | None => mret None
  | Some v =>
      rec ← lift (decode_object k v);
      if negb (version rec =? expect)%Z || negb (bool_decide (or_data rec = from)) then mret None
      else
        enc ← lift (encode_object (set_version (u64 (version rec + 1)) (set_data to rec)));
        let rd := refs_delta from to in
        let ov := pack_rec_overhead b k in
        more ← lift (batch_pack_delta to 1 ov);
        less ← lift (batch_pack_delta from (-1) ov);
        mret (Some (BPut kObjects okey enc :: batch_refs (added rd) true okey ++ batch_refs (removed rd) false [] ++ more ++ less))
  end.

Definition swap_extents (b k : bytes) (expect : Z) (from to : DataRef) : M bool :=
  ops ← stage_swap_locked b k expect from to;
  match ops with
  | None => mret false
  | Some ops => _ ← commit ops; mret true
  end.

Fixpoint stage_swaps (reqs : list SwapReq) : M (list BatchOp * list bool) :=
  match reqs with
  | [] => mret ([], [])
  | r :: rest =>
      o ← stage_swap_locked (sr_bucket r) (sr_key r) (expect_version r) (sr_from r) (sr_to r);
      more ← stage_swaps rest;
      mret (default [] o ++ more.1, bool_decide (is_Some o) :: more.2)
  end.
Definition swap_extents_batch (reqs : list SwapReq) : M (list bool) :=
  r ← stage_swaps reqs;
  _ ← (if existsb id r.2 then commit r.1 else mret tt);
  mret r.2.

Definition chunk_referenced (file_id : Z) : M bool :=
  v ← get_raw kRefs (be64_key file_id); mret (bool_decide (is_Some v)).

Fixpoint parse_keys (l : list (bytes * bytes)) : result (list Z) :=
  match l with [] => Ok [] | (k, _) :: l' => i ← parse_be64 k; rest ← parse_keys l'; Ok (i :: rest) end.
(** The ids the callback is given, in order. *)
Definition scan_refs : M (list Z) := l ← items kRefs; lift (parse_keys l).

(** * Key/value facade *)
Section kv.
Context (sha256_hex : bytes -> bytes).
Definition kv_etag (v : bytes) : bytes := take 16 (sha256_hex v).

Definition kv_get (key : bytes) : M (option KvItem) :=
  v ← get_raw kTc key; mret ((λ x, mkKvItem key x (kv_etag x)) <$> v).

Fixpoint kv_stage (puts : list KvPut) : M (list BatchOp * list bytes) :=
  match puts with
  | [] => mret ([], [])
  | p :: rest =>
      v ← get_raw kTc (kp_key p);
      _ ← lift (check_kv_condition (kp_cond p) (kv_etag <$> v));
      more ← kv_stage rest;
      mret (BPut kTc (kp_key p) (kp_value p) :: more.1, kv_etag (kp_value p) :: more.2)
  end.
Definition kv_put_batch (puts : list KvPut) : M (list bytes) :=
  r ← kv_stage puts; _ ← commit r.1; mret r.2.
Definition kv_put (key value : bytes) (cond : PutCondition) : M bytes :=
  r ← kv_put_batch [mkKvPut key value cond]; mret (default [] (head r)).

Definition kv_delete (key : bytes) : M bool :=
  v ← get_raw kTc key;
  if bool_decide (is_Some v) then _ ← commit [BDelete kTc key]; mret true else mret false.

Fixpoint kv_scan_loop (prefix after : bytes) (lim count : Z) (l : list (bytes * bytes)) : list KvItem :=
  match l with
  | (k, v) :: l' =>
      if (lim <=? count)%Z then []
      else if negb (bool_decide (take (length prefix) k = prefix)) then []
      else if negb (empty_string after) && negb (bytes_ltb after k) then kv_scan_loop prefix after lim count l'
      else mkKvItem k v (kv_etag v) :: kv_scan_loop prefix after lim (count + 1) l'
  | [] => []
  end.
Definition kv_scan (prefix after : bytes) (lim : Z) : M (list KvItem) :=
  let lim := if (lim =? 0)%Z then 1000%Z else lim in
  l ← items kTc;
  mret (kv_scan_loop prefix after lim 0 (it_seek (if empty_string after then prefix else after) l).2).
End kv.

(** * Opening and closing *)
Definition migrate_schema (stored : bytes) : M unit :=
  ver ← (lift (parse_schema_marker stored [] kSchemaCurrent) : M Z);
  lift (throw_if (negb (ver =? kSchemaCurrent)%Z) InternalError).

Definition close : M unit := λ s, (Ok tt, mkMeta (opt_sync s) None (chunk_ids s) (pack_ids s) (seqs s)).

(** The schema check of the constructor; [id] is the new instance's id. *)
Definition check_schema (id : bytes) : M unit :=
  schema ← get_raw kDefault (bs "schema");
  match schema with
  | None => commit [BPut kDefault (bs "schema") (to_string kSchemaCurrent); BPut kDefault (bs "instance") id]
  | Some v => migrate_schema v
  end.
Definition open_schema (id : bytes) : M unit := λ s,
  match check_schema id s with
  | (Throw e, s') => (Throw e, (close s').2)
  | r => r
  end.
End store.
