(* ===== verification/RocksLedger.v ===== *)
(** The accounting tables of the RocksDB engine, seen as tables: which files the live
    records reference, what the garbage queue holds, and how the batch operations that
    the engine emits change the reference table and the pack counters. *)

From S2P Require Import Prelude Bytes Backend Multipart Codec CodecProofs CodecKeys MetaUtil RocksDb RocksMeta.
From Stdlib Require Import ZArith Lia.
From stdpp Require Import base list gmap sets strings sorting.

(** * Arithmetic modulo 2^64 *)
Inductive eqm64 (a b : Z) : Prop := eqm64_intro (H : u64 a = u64 b).
Infix "≡₆₄" := eqm64 (at level 70) : lights3_scope.
Open Scope lights3_scope.

Lemma eqm64_elim a b : a ≡₆₄ b -> u64 a = u64 b.
Proof. by destruct 1. Qed.

#[global] Instance eqm64_equiv : Equivalence eqm64.
Proof. split; [by intros x|intros x y []; by constructor|intros x y z [] []; constructor; congruence]. Qed.
#[global] Instance eqm64_add : Proper (eqm64 ==> eqm64 ==> eqm64) Z.add.
Proof.
  intros a a' [Ha] b b' [Hb]. constructor. unfold u64 in *. rewrite <- Z.add_mod_idemp_l, <- Z.add_mod_idemp_r by done.
  rewrite Ha, Hb. by rewrite Z.add_mod_idemp_l, Z.add_mod_idemp_r.
Qed.

Lemma eqm64_u64 a : u64 a ≡₆₄ a.
Proof. constructor. unfold u64. by rewrite Z.mod_mod. Qed.
Lemma eqm64_i64 a : i64 a ≡₆₄ a.
Proof. constructor. unfold u64, i64. rewrite Zminus_mod_idemp_l. f_equal. lia. Qed.
Lemma eqm64_small a b : (- 2 ^ 63 <= a < 2 ^ 63)%Z -> (- 2 ^ 63 <= b < 2 ^ 63)%Z -> a ≡₆₄ b -> a = b.
Proof.
  intros Ha Hb [E]. unfold u64 in E. assert ((a - b) mod 2 ^ 64 = 0)%Z as H.
  { rewrite Zminus_mod, E, Z.sub_diag. done. }
  apply Z.mod_divide in H; [|done]. destruct H as [q Hq]. assert (q = 0)%Z by nia. lia.
Qed.

(** * Sums over a table, with its keys *)
Section ksum.
Context {K V : Type} `{Countable K} (f : K -> V -> Z).

Definition ksum (m : gmap K V) : Z := map_fold (λ k v acc, (f k v + acc)%Z) 0%Z m.
Definition lsum (l : list (K * V)) : Z := foldr (λ kv acc, (f kv.1 kv.2 + acc)%Z) 0%Z l.
Definition kval (m : gmap K V) (k : K) : Z := match m !! k with Some v => f k v | None => 0%Z end.

Lemma ksum_empty : ksum ∅ = 0%Z.
Proof. apply map_fold_empty. Qed.
Lemma ksum_insert_new m k v : m !! k = None -> ksum (<[k:=v]> m) = (f k v + ksum m)%Z.
Proof. intros. unfold ksum. rewrite map_fold_insert_L; [done| |done]. intros. lia. Qed.
Lemma ksum_delete m k : ksum (delete k m) = (ksum m - kval m k)%Z.
Proof.
  unfold kval. destruct (m !! k) as [v|] eqn:E.
  - rewrite <- (insert_delete_id m k v) at 2 by done. rewrite ksum_insert_new by apply lookup_delete_eq. lia.
  - rewrite delete_id by done. lia.
Qed.
Lemma ksum_insert m k v : ksum (<[k:=v]> m) = (ksum m - kval m k + f k v)%Z.
Proof. rewrite <- insert_delete_eq, ksum_insert_new by apply lookup_delete_eq. rewrite ksum_delete. lia. Qed.

Lemma lsum_app a b : lsum (a ++ b) = (lsum a + lsum b)%Z.
Proof. induction a as [|x a IH]; cbn [app lsum foldr]; [done|]. fold (lsum (a ++ b)). rewrite IH. cbn. unfold lsum. lia. Qed.

(** Taking out the entries of a duplicate-free list. *)
Lemma ksum_split (P : K * V -> Prop) `{forall x, Decision (P x)} m :
  ksum m = (ksum (base.filter P m) + ksum (base.filter (λ x, ~ P x) m))%Z.
Proof.
  induction m as [|k v m Hk IH] using map_ind; [by rewrite !map_filter_empty, ksum_empty|].
  rewrite ksum_insert_new by done. destruct (decide (P (k, v))) as [Hp|Hp].
  - rewrite map_filter_insert_True, (map_filter_insert_False (λ x, ~ P x)) by (done || naive_solver).
    rewrite delete_id by done. rewrite ksum_insert_new by (rewrite map_lookup_filter, Hk; done). lia.
  - rewrite map_filter_insert_False, (map_filter_insert_True (λ x, ~ P x)) by done.
    rewrite delete_id by done. rewrite ksum_insert_new by (rewrite map_lookup_filter, Hk; done). lia.
Qed.

Lemma ksum_list m l : NoDup l.*1 -> (forall k v, (k, v) ∈ l <-> m !! k = Some v) -> ksum m = lsum l.
Proof.
  revert m. induction l as [|[k v] l IH]; intros m Hn Hl.
  - assert (m = ∅) as ->; [|apply ksum_empty]. apply map_empty. intros k. destruct (m !! k) as [v|] eqn:E; [|done].
    apply Hl in E. by apply not_elem_of_nil in E.
  - cbn in Hn. apply list.NoDup_cons in Hn as [Hk Hn]. cbn. rewrite <- (insert_delete_id m k v) by (apply Hl; left).
    rewrite ksum_insert_new by apply lookup_delete_eq. f_equal. apply IH; [done|]. intros k' v'.
    rewrite lookup_delete_Some, <- Hl, elem_of_cons. split.
    + intros Hin. split; [|by right]. intros ->. apply Hk. apply list_elem_of_fmap. by exists (k', v').
    + intros [Hne [[= -> ->]|Hin]]; [done|done].
Qed.

Lemma ksum_nonneg m : (forall k v, 0 <= f k v)%Z -> (0 <= ksum m)%Z.
Proof.
  intros Hf. induction m as [|k v m Hk IH] using map_ind; [by rewrite ksum_empty|].
  rewrite ksum_insert_new by done. specialize (Hf k v). lia.
Qed.
Lemma ksum_lookup m k : (forall k v, 0 <= f k v)%Z -> (kval m k <= ksum m)%Z.
Proof. intros Hf. pose proof (ksum_delete m k). pose proof (ksum_nonneg (delete k m) Hf). lia. Qed.
End ksum.

(** * Keys of the tables *)
Lemma be64_key_inj a b : is_u64 a -> is_u64 b -> be64_key a = be64_key b -> a = b.
Proof. intros Ha Hb E. rewrite <- (be64_value a), <- (be64_value b), E; done. Qed.

Lemma pack_stat_key_inj a b f g :
  is_u64 a -> is_u64 b -> pack_stat_key a f = pack_stat_key b g -> a = b /\ f = g.
Proof.
  intros Ha Hb E. unfold pack_stat_key in E. apply (f_equal (drop 1)) in E. cbn [bs app drop] in E.
  apply app_inj_1 in E as [E1 E2]; [|done]. injection E2 as ->. by apply be64_key_inj in E1.
Qed.
Lemma pack_stat_not_counter p f c : pack_stat_key p f <> counter_key c.
Proof. intros E%(f_equal length). destruct c; vm_compute in E; done. Qed.

Lemma object_part_key b k b' k' id n s : object_key b k = Ok s -> part_key b' k' id n = Ok s -> False.
Proof.
  intros (Hb & Hk & ->)%object_key_Ok (Hb' & Hk' & _ & E)%part_key_Ok.
  apply cut_nul in E as [_ ->]; [|done..]. apply Hk. apply elem_of_app. right. left.
Qed.

(** * The reference table *)
Abbreviation wf_data := (Forall extent_wf).

Lemma ref_ids_app a b : ref_ids (a ++ b) = ref_ids a ∪ ref_ids b.
Proof. unfold ref_ids. by rewrite List.filter_app, fmap_app, list_to_set_app_L. Qed.
Lemma ref_ids_nil : ref_ids [] = ∅.
Proof. done. Qed.
Lemma ref_ids_cons e d : ref_ids (e :: d) = (if is_pack e then ∅ else {[Extent.file_id e]}) ∪ ref_ids d.
Proof. unfold ref_ids. cbn. destruct (is_pack e); cbn; set_solver. Qed.
Lemma ref_ids_concat l i : i ∈ ref_ids (concat l) <-> exists d, d ∈ l /\ i ∈ ref_ids d.
Proof.
  induction l as [|d l IH]; [set_solver|]. change (concat (d :: l)) with (d ++ concat l).
  rewrite ref_ids_app, elem_of_union, IH. setoid_rewrite elem_of_cons. naive_solver.
Qed.
Lemma ref_ids_u64 d i : wf_data d -> i ∈ ref_ids d -> is_u64 i.
Proof. intros Hd (e & He & _ & <-)%elem_ref_ids. rewrite list.Forall_forall in Hd. by apply (Hd e He). Qed.

Lemma batch_refs_cf d add o : Forall (λ x, op_cf x = kRefs) (batch_refs d add o).
Proof.
  induction d as [|e d IH]; cbn; [constructor|]. destruct (is_pack e); [done|]. constructor; [by destruct add|done].
Qed.

(** A put or delete for every file outside packs. *)
Lemma batch_refs_lookup d add o t i :
  wf_data d -> is_u64 i ->
  apply_ops (batch_refs d add o) t !! be64_key i =
    if decide (i ∈ ref_ids d) then (if add then Some o else None) else t !! be64_key i.
Proof.
  intros Hd Hi. revert t. induction d as [|e d IH]; intros t; [by rewrite decide_False by set_solver|].
  apply list.Forall_cons in Hd as [He Hd]. cbn [batch_refs flat_map]. fold (batch_refs d add o).
  rewrite apply_ops_app, IH, ref_ids_cons by done. destruct (is_pack e); cbn [apply_ops fold_left].
  - destruct (decide (i ∈ ref_ids d)); [rewrite decide_True by set_solver|rewrite decide_False by set_solver]; done.
  - destruct (decide (i ∈ ref_ids d)); [by rewrite decide_True by set_solver|].
    destruct (decide (i = Extent.file_id e)) as [->|Hne].
    + rewrite decide_True by set_solver. destruct add; cbn; [apply lookup_insert_eq|apply lookup_delete_eq].
    + rewrite decide_False by set_solver. destruct He as [He _].
      assert (be64_key (Extent.file_id e) <> be64_key i) as Hk by (intros E; by apply be64_key_inj in E).
      destruct add; cbn; [by rewrite lookup_insert_ne|by rewrite lookup_delete_ne].
Qed.

Definition be64_keys (t : table) : Prop := forall k, is_Some (t !! k) -> exists i, is_u64 i /\ k = be64_key i.

Lemma batch_refs_keys d add o t : wf_data d -> be64_keys t -> be64_keys (apply_ops (batch_refs d add o) t).
Proof.
  intros Hd. revert t. induction d as [|e d IH]; intros t Ht; [done|].
  apply list.Forall_cons in Hd as [He Hd]. cbn [batch_refs flat_map]. fold (batch_refs d add o).
  rewrite apply_ops_app. apply IH; [done|]. destruct (is_pack e); [done|]. destruct He as [He _]. cbn. intros k.
  destruct add; cbn; [rewrite lookup_insert_is_Some|rewrite lookup_delete_is_Some]; naive_solver.
Qed.

(** * The pack counters *)
Definition stat (t : table) (k : bytes) : Z := match t !! k with Some v => counter_or_zero v | None => 0%Z end.

Lemma decode_counter_le d : decode_counter (le_bytes 8 (u64 d)) = Ok (i64 (u64 d)).
Proof. apply decoded_whole. eapply whole_last; [apply reads_u64, u64_range|]. apply whole_done. Qed.
Lemma counter_le d : counter_or_zero (le_bytes 8 (u64 d)) ≡₆₄ d.
Proof. unfold counter_or_zero. rewrite decode_counter_le, length_le_bytes. etrans; [apply eqm64_i64|apply eqm64_u64]. Qed.

Lemma merge_stat t c k d k' :
  stat (apply_op (BMerge c k (le_bytes 8 (u64 d))) t) k' ≡₆₄ (stat t k' + if decide (k = k') then d else 0)%Z.
Proof.
  cbn [apply_op]. unfold counter_merge. rewrite encode_counter_eq. unfold stat at 1. destruct (decide (k = k')) as [->|Hne].
  - rewrite lookup_insert_eq, counter_le. fold (stat t k'). by rewrite counter_le.
  - rewrite lookup_insert_ne by done. fold (stat t k'). by rewrite Z.add_0_r.
Qed.

(** What the extents of [d] weigh in pack [p]. *)
Definition pack_bytes (p ov : Z) (d : DataRef) : Z :=
  foldr (λ e acc, ((if is_pack e && (Extent.file_id e =? p)%Z then i64 (Extent.length e) + ov else 0) + acc)%Z) 0%Z d.
Definition pack_recs (p : Z) (d : DataRef) : Z :=
  foldr (λ e acc, ((if is_pack e && (Extent.file_id e =? p)%Z then 1 else 0) + acc)%Z) 0%Z d.

Lemma pack_bytes_app p ov a b : pack_bytes p ov (a ++ b) = (pack_bytes p ov a + pack_bytes p ov b)%Z.
Proof. induction a as [|e a IH]; cbn [app pack_bytes foldr]; [done|]. fold (pack_bytes p ov (a ++ b)). rewrite IH. unfold pack_bytes. lia. Qed.
Lemma pack_recs_app p a b : pack_recs p (a ++ b) = (pack_recs p a + pack_recs p b)%Z.
Proof. induction a as [|e a IH]; cbn [app pack_recs foldr]; [done|]. fold (pack_recs p (a ++ b)). rewrite IH. unfold pack_recs. lia. Qed.
Lemma pack_recs_range p d : (0 <= pack_recs p d <= Z.of_nat (length d))%Z.
Proof. induction d as [|e d IH]; cbn [pack_recs foldr length]; [lia|]. fold (pack_recs p d). case_if; lia. Qed.
Lemma pack_recs_zero p d : pack_recs p d = 0%Z <-> forall e, e ∈ d -> is_pack e = true -> Extent.file_id e <> p.
Proof.
  induction d as [|e d IH]; cbn [pack_recs foldr]; [split; [set_solver|done]|]. fold (pack_recs p d).
  pose proof (pack_recs_range p d). setoid_rewrite elem_of_cons. destruct (is_pack e) eqn:Ep; cbn [andb].
  - destruct (Z.eqb_spec (Extent.file_id e) p); [split; [lia|naive_solver]|]. rewrite Z.add_0_l, IH. naive_solver.
  - rewrite Z.add_0_l, IH. naive_solver congruence.
Qed.

Lemma pack_agg_default d sign ov agg p :
  default (0, 0)%Z (fold_left (agg_extent sign ov) d agg !! p) =
  ((default (0, 0)%Z (agg !! p)).1 + sign * pack_bytes p ov d, (default (0, 0)%Z (agg !! p)).2 + sign * pack_recs p d)%Z.
Proof.
  revert agg. induction d as [|e d IH]; intros agg.
  { cbn. destruct (default _ _). f_equal; cbn; lia. }
  cbn [fold_left]. rewrite IH. cbn [pack_bytes pack_recs foldr]. fold (pack_bytes p ov d) (pack_recs p d).
  unfold agg_extent. destruct (is_pack e); cbn [andb]; [|f_equal; lia].
  destruct (Z.eqb_spec (Extent.file_id e) p) as [->|Hne].
  - destruct (default (0, 0)%Z (agg !! p)) as [b r] eqn:E. rewrite lookup_insert_eq. cbn. f_equal; lia.
  - destruct (default (0, 0)%Z (agg !! Extent.file_id e)) as [b r]. rewrite lookup_insert_ne by done. f_equal; lia.
Qed.

Lemma pack_agg_lookup d sign ov p :
  default (0, 0)%Z (pack_agg d sign ov !! p) = (sign * pack_bytes p ov d, sign * pack_recs p d)%Z.
Proof. unfold pack_agg. rewrite pack_agg_default, lookup_empty. cbn. f_equal; lia. Qed.

Lemma pack_agg_u64 d sign ov agg :
  wf_data d -> map_Forall (λ p _, is_u64 p) agg -> map_Forall (λ p _, is_u64 p) (fold_left (agg_extent sign ov) d agg).
Proof.
  revert agg. induction d as [|e d IH]; intros agg Hd Ha; [done|]. apply list.Forall_cons in Hd as [[He _] Hd].
  cbn [fold_left]. apply IH; [done|]. unfold agg_extent. destruct (is_pack e); [|done].
  destruct (default _ _). by apply map_Forall_insert_2.
Qed.

(** Effect of a batch on the statistics: counters move by [db] and [dr], nothing else. *)
Record stats_delta (ops : list BatchOp) (db dr : Z -> Z) : Prop := mkStatsDelta {
  sd_cf : Forall (λ x, op_cf x = kStats) ops;
  sd_bytes : forall t p, is_u64 p -> stat (apply_ops ops t) (pack_stat_key p (ch "b")) ≡₆₄ (stat t (pack_stat_key p (ch "b")) + db p)%Z;
  sd_recs : forall t p, is_u64 p -> stat (apply_ops ops t) (pack_stat_key p (ch "r")) ≡₆₄ (stat t (pack_stat_key p (ch "r")) + dr p)%Z;
  sd_other : forall t k, (forall p f, k = pack_stat_key p f -> f <> ch "b" /\ f <> ch "r") -> apply_ops ops t !! k = t !! k }.

Lemma stats_delta_nil : stats_delta [] (λ _, 0%Z) (λ _, 0%Z).
Proof. split; try done; intros; by rewrite Z.add_0_r. Qed.

Lemma stats_delta_app a b db dr db' dr' :
  stats_delta a db dr -> stats_delta b db' dr' -> stats_delta (a ++ b) (λ p, db p + db' p)%Z (λ p, dr p + dr' p)%Z.
Proof.
  intros [A1 A2 A3 A4] [B1 B2 B3 B4]. split.
  - by apply list.Forall_app.
  - intros t p Hp. rewrite apply_ops_app, B2, A2 by done. by rewrite Z.add_assoc.
  - intros t p Hp. rewrite apply_ops_app, B3, A3 by done. by rewrite Z.add_assoc.
  - intros t k Hk. by rewrite apply_ops_app, B4, A4.
Qed.

Lemma stats_delta_ext a db dr db' dr' :
  stats_delta a db dr -> (forall p, db p = db' p) -> (forall p, dr p = dr' p) -> stats_delta a db' dr'.
Proof. intros [A1 A2 A3 A4] Eb Er. split; intros; rewrite <- ?Eb, <- ?Er; auto. Qed.

Lemma pack_ops_delta id b r :
  is_u64 id -> exists ops, pack_ops id b r = Ok ops /\
    stats_delta ops (λ p, if decide (id = p) then b else 0)%Z (λ p, if decide (id = p) then r else 0)%Z.
Proof.
  intros Hid. unfold pack_ops. rewrite !encode_counter_eq. cbn [mbind res_bind]. eexists. split; [reflexivity|]. split.
  - by repeat constructor.
  - intros t p Hp. rewrite apply_ops_cons, apply_ops_cons. cbn [apply_ops fold_left]. rewrite !merge_stat.
    rewrite (decide_False (P := pack_stat_key id (ch "r") = _)) by (intros [_ E]%pack_stat_key_inj; done). rewrite Z.add_0_r.
    destruct (decide (id = p)) as [->|Hne]; [by rewrite decide_True|].
    rewrite decide_False; [done|]. by intros [? _]%pack_stat_key_inj.
  - intros t p Hp. rewrite apply_ops_cons, apply_ops_cons. cbn [apply_ops fold_left]. rewrite !merge_stat.
    rewrite (decide_False (P := pack_stat_key id (ch "b") = _)) by (intros [_ E]%pack_stat_key_inj; done). rewrite Z.add_0_r.
    destruct (decide (id = p)) as [->|Hne]; [by rewrite decide_True|].
    rewrite decide_False; [done|]. by intros [? _]%pack_stat_key_inj.
  - intros t k Hk. rewrite !apply_ops_cons. cbn [apply_ops fold_left apply_op]. unfold counter_merge. rewrite !encode_counter_eq.
    rewrite !lookup_insert_ne; [done| |]; intros <-; by destruct (Hk id _ eq_refl).
Qed.

Definition entry_at (l : list (Z * (Z * Z))) (p : Z) : Z * Z :=
  default (0, 0)%Z ((list_to_map l : gmap Z (Z * Z)) !! p).

Lemma pack_ops_all_delta l :
  NoDup l.*1 -> Forall is_u64 l.*1 -> exists ops, pack_ops_all l = Ok ops /\
    stats_delta ops (λ p, (entry_at l p).1) (λ p, (entry_at l p).2).
Proof.
  induction l as [|[id [b r]] l IH]; cbn [fmap list_fmap fst pack_ops_all]; intros Hn Hu.
  { eexists. split; [reflexivity|]. by eapply stats_delta_ext; [apply stats_delta_nil| |]. }
  apply list.NoDup_cons in Hn as [Hid Hn]. apply list.Forall_cons in Hu as [Hu1 Hu].
  destruct (pack_ops_delta id b r Hu1) as (o & -> & Ho), (IH Hn Hu) as (ops & -> & Hops). cbn.
  eexists. split; [reflexivity|]. eapply stats_delta_ext; [by apply stats_delta_app| |]; intros p; unfold entry_at; cbn;
    destruct (decide (id = p)) as [->|Hne]; rewrite ?lookup_insert_eq, ?lookup_insert_ne by done; cbn;
    rewrite ?(not_elem_of_list_to_map_1 l p) by done; cbn; lia.
Qed.

Lemma batch_pack_delta_spec d sign ov :
  wf_data d -> exists ops, batch_pack_delta d sign ov = Ok ops /\
    stats_delta ops (λ p, sign * pack_bytes p ov d)%Z (λ p, sign * pack_recs p d)%Z.
Proof.
  intros Hd. unfold batch_pack_delta. destruct (pack_ops_all_delta (map_items Z.le (pack_agg d sign ov))) as (ops & E & H).
  - apply map_items_NoDup.
  - apply list.Forall_forall. intros p [x Hx]%map_items_keys. unfold pack_agg in Hx.
    by apply (pack_agg_u64 d sign ov ∅ Hd (map_Forall_empty _) p x).
  - exists ops. split; [done|]. eapply stats_delta_ext; [exact H| |]; intros p; unfold entry_at;
      by rewrite list_to_map_items, pack_agg_lookup.
Qed.

(** * Holders: the data of every live record, by key *)
Abbreviation holding := (gmap bytes DataRef).

Definition held (H : holding) (i : Z) : Prop := exists o d, H !! o = Some d /\ i ∈ ref_ids d.

(** The reference table names, for every file outside packs, the record that uses it. *)
Record refs_inv (H : holding) (R : table) : Prop := mkRefsInv {
  ri_keys : be64_keys R;
  ri_wf : map_Forall (λ _ d, wf_data d) H;
  ri_owner : forall i o, is_u64 i -> R !! be64_key i = Some o <-> exists d, H !! o = Some d /\ i ∈ ref_ids d }.

Lemma refs_excl H R i o o' d d' :
  refs_inv H R -> H !! o = Some d -> i ∈ ref_ids d -> H !! o' = Some d' -> i ∈ ref_ids d' -> o = o'.
Proof.
  intros [_ Hw Ho] H1 H2 H3 H4. pose proof (ref_ids_u64 d i (Hw o d H1) H2) as Hi.
  pose proof (proj2 (Ho i o Hi) (ex_intro _ d (conj H1 H2))) as E1.
  pose proof (proj2 (Ho i o' Hi) (ex_intro _ d' (conj H3 H4))) as E2. congruence.
Qed.

Lemma refs_none H R i : refs_inv H R -> is_u64 i -> ~ held H i -> R !! be64_key i = None.
Proof.
  intros [_ _ Ho] Hi Hn. destruct (R !! be64_key i) as [o|] eqn:E; [|done]. apply Ho in E as (d & H1 & H2); [|done].
  exfalso. apply Hn. by exists o, d.
Qed.

(** A record replaces another under the same key, with files of its own. *)
Lemma refs_put H R o d :
  refs_inv H R -> wf_data d -> (forall i, i ∈ ref_ids d -> ~ held H i) ->
  refs_inv (<[o:=d]> H) (apply_ops (batch_refs d true o ++ batch_refs (default [] (H !! o)) false []) R).
Proof.
  intros Hinv Hd Hf. pose proof Hinv as [Hk Hw Ho]. set (old := default [] (H !! o)).
  assert (wf_data old) as Hold by (unfold old; destruct (H !! o) as [x|] eqn:E; [by apply (Hw o)|constructor]).
  split.
  - rewrite apply_ops_app. by apply batch_refs_keys, batch_refs_keys.
  - by apply map_Forall_insert_2.
  - intros i o' Hi. rewrite apply_ops_app, !batch_refs_lookup by done.
    destruct (decide (i ∈ ref_ids old)) as [Hio|Hio].
    { assert (H !! o = Some old) as Eo by (unfold old in *; destruct (H !! o); [done|set_solver]).
      split; [done|]. intros (d' & Hd' & Hi'). exfalso. destruct (decide (o = o')) as [<-|Hne].
      - rewrite lookup_insert_eq in Hd'. injection Hd' as <-. by apply (Hf i); [|exists o, old].
      - rewrite lookup_insert_ne in Hd' by done. by apply Hne, (refs_excl H R i o o' old d'). }
    destruct (decide (i ∈ ref_ids d)) as [Hid|Hid].
    { split; [intros [= <-]; exists d; by rewrite lookup_insert_eq|]. intros (d' & Hd' & Hi').
      destruct (decide (o = o')) as [<-|Hne]; [done|]. rewrite lookup_insert_ne in Hd' by done.
      exfalso. apply (Hf i); [done|]. by exists o', d'. }
    rewrite Ho by done. destruct (decide (o = o')) as [<-|Hne]; [|by rewrite lookup_insert_ne].
    rewrite lookup_insert_eq. split; [|naive_solver]. intros (d' & Hd' & Hi'). unfold old in Hio. rewrite Hd' in Hio. done.
Qed.

Lemma refs_delete H R o d :
  refs_inv H R -> H !! o = Some d -> refs_inv (delete o H) (apply_ops (batch_refs d false []) R).
Proof.
  intros Hinv Hd. pose proof Hinv as [Hk Hw Ho]. pose proof (Hw o d Hd) as Hdw. split.
  - by apply batch_refs_keys.
  - by apply map_Forall_delete.
  - intros i o' Hi. rewrite batch_refs_lookup by done. destruct (decide (i ∈ ref_ids d)) as [Hid|Hid].
    + split; [done|]. intros (d' & [Hne Hd']%lookup_delete_Some & Hi'). exfalso. by apply Hne, (refs_excl H R i o o' d d').
    + rewrite Ho by done. destruct (decide (o = o')) as [<-|Hne]; [|by rewrite lookup_delete_ne].
      rewrite lookup_delete_eq. naive_solver.
Qed.

(** Extents outside [other], one per id, all of them outside packs. *)
Lemma fresh_refs_nopack other seen l : Forall (λ e, is_pack e = false) (fresh_refs other seen l).
Proof.
  revert seen. induction l as [|e l IH]; intros seen; cbn; [constructor|]. case_if; [|apply IH]. bool_prop. constructor; [done|apply IH].
Qed.
Lemma ref_ids_nopack d : Forall (λ e, is_pack e = false) d -> ref_ids d = list_to_set (Extent.file_id <$> d).
Proof.
  induction 1 as [|e d He Hd IH]; [done|]. rewrite ref_ids_cons, He, IH. done.
Qed.
Lemma ref_ids_fresh other l i : i ∈ ref_ids (fresh_refs other ∅ l) <-> i ∈ ref_ids l /\ i ∉ other.
Proof. rewrite ref_ids_nopack by apply fresh_refs_nopack. rewrite elem_of_list_to_set, fresh_refs_ids. set_solver. Qed.
Lemma fresh_refs_wf other seen l : wf_data l -> wf_data (fresh_refs other seen l).
Proof. intros Hl. revert seen. induction Hl as [|e l He Hl IH]; intros seen; cbn; [constructor|]. case_if; [constructor; [done|]|]; apply IH. Qed.

(** A compaction swap: the new extents share files with the old ones. *)
Lemma refs_swap H R o from to :
  refs_inv H R -> H !! o = Some from -> wf_data to ->
  (forall i, i ∈ ref_ids to -> i ∈ ref_ids from \/ ~ held H i) ->
  refs_inv (<[o:=to]> H)
    (apply_ops (batch_refs (added (refs_delta from to)) true o ++ batch_refs (removed (refs_delta from to)) false []) R).
Proof.
  intros Hinv Hfrom Hto Hf. pose proof Hinv as [Hk Hw Ho]. pose proof (Hw o from Hfrom) as Hfw.
  unfold refs_delta. cbn [added removed]. split.
  - rewrite apply_ops_app. apply batch_refs_keys; [by apply fresh_refs_wf|]. apply batch_refs_keys; [by apply fresh_refs_wf|done].
  - by apply map_Forall_insert_2.
  - intros i o' Hi. rewrite apply_ops_app, !batch_refs_lookup by (done || by apply fresh_refs_wf).
    destruct (decide (i ∈ ref_ids (fresh_refs (ref_ids to) _ from))) as [Hc|Hd];
      [|destruct (decide (i ∈ ref_ids (fresh_refs (ref_ids from) _ to))) as [Hc|Hc]]; rewrite ref_ids_fresh in *.
    + split; [done|]. intros (d' & Hd' & Hi'). exfalso. destruct (decide (o = o')) as [<-|Hne].
      * rewrite lookup_insert_eq in Hd'. naive_solver.
      * rewrite lookup_insert_ne in Hd' by done. destruct Hc as [Hc _]. by apply Hne, (refs_excl H R i o o' from d').
    + destruct Hc as [Hc Hc1]. split; [intros [= <-]; exists to; by rewrite lookup_insert_eq|]. intros (d' & Hd' & Hi').
      destruct (decide (o = o')) as [<-|Hne]; [done|]. rewrite lookup_insert_ne in Hd' by done.
      exfalso. destruct (Hf i) as [|Hn]; [done|done|]. apply Hn. by exists o', d'.
    + rewrite Ho by done. destruct (decide (o = o')) as [<-|Hne]; [|by rewrite lookup_insert_ne].
      rewrite lookup_insert_eq, Hfrom. destruct (decide (i ∈ ref_ids from)), (decide (i ∈ ref_ids to)); naive_solver.
Qed.

(** Many records leave at once: those marked pass their files to [o], the others give
    them up. *)
Definition move_refs (o : bytes) (L : list (bytes * (DataRef * bool))) : list BatchOp :=
  flat_map (λ x, batch_refs x.2.1 x.2.2 (if x.2.2 then o else [])) L.

Lemma move_refs_cf o L : Forall (λ x, op_cf x = kRefs) (move_refs o L).
Proof. induction L as [|x L IH]; cbn; [constructor|]. apply list.Forall_app. split; [apply batch_refs_cf|done]. Qed.

Lemma move_refs_keys o L t :
  Forall (λ x, wf_data x.2.1) L -> be64_keys t -> be64_keys (apply_ops (move_refs o L) t).
Proof.
  intros HL. revert t. induction HL as [|x L Hx HL IH]; intros t Ht; [done|]. cbn. rewrite apply_ops_app.
  by apply IH, batch_refs_keys.
Qed.

Lemma move_refs_other o L t i :
  Forall (λ x, wf_data x.2.1) L -> is_u64 i -> (forall x, x ∈ L -> i ∉ ref_ids x.2.1) ->
  apply_ops (move_refs o L) t !! be64_key i = t !! be64_key i.
Proof.
  intros HL Hi. revert t. induction HL as [|x L Hx HL IH]; intros t Hn; [done|]. cbn. rewrite apply_ops_app.
  rewrite IH by (intros y Hy; apply Hn; by right). rewrite batch_refs_lookup by done.
  rewrite decide_False; [done|]. apply Hn. by left.
Qed.

Lemma move_refs_hit o L t i (b : bool) :
  Forall (λ x, wf_data x.2.1) L -> is_u64 i -> (exists x, x ∈ L /\ i ∈ ref_ids x.2.1) ->
  (forall x, x ∈ L -> i ∈ ref_ids x.2.1 -> x.2.2 = b) ->
  apply_ops (move_refs o L) t !! be64_key i = if b then Some o else None.
Proof.
  intros HL Hi. revert t. induction HL as [|x L Hx HL IH]; intros t [y [Hy Hiy]] Hb; [set_solver|]. cbn [move_refs flat_map]. fold (move_refs o L). rewrite apply_ops_app.
  destruct (decide (Exists (λ x : bytes * (DataRef * bool), i ∈ ref_ids x.2.1) L)) as [Hex|Hex].
  - apply IH; [by apply list.Exists_exists in Hex|]. intros z Hz. apply Hb. by right.
  - assert (forall z, z ∈ L -> i ∉ ref_ids z.2.1) as Hn by (intros z Hz Hzi; apply Hex, list.Exists_exists; by exists z).
    rewrite move_refs_other by done. apply elem_of_cons in Hy as [->|Hy]; [|by destruct (Hn y)].
    rewrite batch_refs_lookup, decide_True by done. rewrite (Hb x) by (done || by left). by destruct b.
Qed.

Lemma nodup_fst_inj {K V} (l : list (K * V)) k x y : NoDup l.*1 -> (k, x) ∈ l -> (k, y) ∈ l -> x = y.
Proof.
  intros Hn Hx Hy. apply list_elem_of_lookup in Hx as [i Hi], Hy as [j Hj].
  assert (i = j) as ->; [|congruence]. eapply (NoDup_lookup l.*1 i j k); [done| |]; rewrite list_lookup_fmap, ?Hi, ?Hj; done.
Qed.

(** A file of the leaving records belongs to one of them. *)
Lemma refs_one_mark H R (L : list (bytes * (DataRef * bool))) i :
  refs_inv H R -> (forall k x, (k, x) ∈ L -> H !! k = Some x.1) -> NoDup L.*1 ->
  (exists x, x ∈ L /\ i ∈ ref_ids x.2.1) -> exists b, forall x, x ∈ L -> i ∈ ref_ids x.2.1 -> x.2.2 = b.
Proof.
  intros Hinv HL Hnd ([k x] & Hx & Hi). exists x.2. intros [k' x'] Hx' Hi'. cbn in *.
  assert (k' = k) as -> by (eapply (refs_excl H R i); [done|by apply HL|done|by apply HL|done]).
  by rewrite (nodup_fst_inj L k x' x Hnd Hx' Hx).
Qed.

(** The records of [L] leave; [o] takes over the files of the marked ones, giving up its
    own. *)
Lemma refs_move H R o L d :
  refs_inv H R -> (forall k x, (k, x) ∈ L -> H !! k = Some x.1) -> NoDup L.*1 -> o ∉ L.*1 -> wf_data d ->
  (forall i, i ∈ ref_ids d <-> exists x, x ∈ L /\ x.2.2 = true /\ i ∈ ref_ids x.2.1) ->
  refs_inv (<[o:=d]> (base.filter (λ kv, kv.1 ∉ L.*1) H))
    (apply_ops (move_refs o L ++ batch_refs (default [] (H !! o)) false []) R).
Proof.
  intros Hinv HL Hnd HoL Hd Hids. pose proof Hinv as [Hk Hw Ho]. set (old := default [] (H !! o)).
  assert (wf_data old) as Hold by (unfold old; destruct (H !! o) as [x|] eqn:E; [by apply (Hw o)|constructor]).
  assert (Forall (λ x, wf_data x.2.1) L) as HLw.
  { apply list.Forall_forall. intros [k x] Hx. apply (Hw k). by apply HL. }
  assert (forall k x i, (k, x) ∈ L -> i ∈ ref_ids x.1 -> forall k' d', H !! k' = Some d' -> i ∈ ref_ids d' -> k' = k) as Hex.
  { intros k x i Hx Hi k' d' H1 H2. symmetry. eapply (refs_excl H R i); [done|by apply HL|done|done|done]. }
  split.
  - rewrite apply_ops_app. by apply batch_refs_keys, move_refs_keys.
  - apply map_Forall_insert_2; [done|]. intros k x [Hx _]%map_lookup_filter_Some. by apply (Hw k).
  - intros i o' Hi. rewrite apply_ops_app, batch_refs_lookup by done.
    destruct (decide (i ∈ ref_ids old)) as [Hio|Hio].
    { assert (H !! o = Some old) as Eo by (unfold old in *; destruct (H !! o); [done|set_solver]).
      split; [done|]. intros (d' & Hd' & Hi'). exfalso. destruct (decide (o = o')) as [<-|Hne].
      - rewrite lookup_insert_eq in Hd'. injection Hd' as <-. apply Hids in Hi' as ([k x] & Hx & _ & Hix).
        pose proof (Hex k x i Hx Hix o old Eo Hio) as ->. apply HoL, list_elem_of_fmap. by exists (k, x).
      - rewrite lookup_insert_ne in Hd' by done. apply map_lookup_filter_Some in Hd' as [Hd' _].
        by apply Hne, (refs_excl H R i o o' old d'). }
    destruct (decide (Exists (λ x : bytes * (DataRef * bool), i ∈ ref_ids x.2.1) L)) as [Hhit|Hmiss].
    + apply list.Exists_exists in Hhit. destruct (refs_one_mark H R L i Hinv HL Hnd Hhit) as [b Hb]. rewrite (move_refs_hit o L R i b) by done.
      destruct Hhit as ([k x] & Hx & Hix). specialize (Hb _ Hx Hix) as Hb'. cbn in Hb', Hix. split.
      * destruct b; [|done]. intros [= <-]. exists d. rewrite lookup_insert_eq. split; [done|]. apply Hids. by exists (k, x).
      * intros (d' & Hd' & Hi'). destruct (decide (o = o')) as [<-|Hne].
        -- rewrite lookup_insert_eq in Hd'. injection Hd' as <-. apply Hids in Hi' as (y & Hy & Hyb & Hyi).
           rewrite (Hb y Hy Hyi) in Hyb. by rewrite Hyb.
        -- rewrite lookup_insert_ne in Hd' by done. apply map_lookup_filter_Some in Hd' as [Hd' Hnot].
           exfalso. apply Hnot. rewrite (Hex k x i Hx Hix o' d' Hd' Hi'). apply list_elem_of_fmap. by exists (k, x).
    + assert (forall x, x ∈ L -> i ∉ ref_ids x.2.1) as Hn by (intros x Hx Hxi; apply Hmiss, list.Exists_exists; by exists x).
      rewrite move_refs_other by done. rewrite Ho by done. destruct (decide (o = o')) as [<-|Hne].
      * rewrite lookup_insert_eq. split.
        -- intros (d' & Hd' & Hi'). unfold old in Hio. by rewrite Hd' in Hio.
        -- intros (d' & [= <-] & Hi'). apply Hids in Hi' as (x & Hx & _ & Hxi). by destruct (Hn x Hx).
      * rewrite lookup_insert_ne by done. setoid_rewrite map_lookup_filter_Some. split; [|naive_solver].
        intros (d' & Hd' & Hi'). exists d'. split; [|done]. split; [done|]. intros ([k x] & Hkx & Hx)%list_elem_of_fmap.
        cbn in Hkx. subst o'. apply (Hn _ Hx). cbn in *. rewrite (HL k x Hx) in Hd'. by injection Hd' as <-.
Qed.

Definition without {V} (ks : list bytes) (H : gmap bytes V) : gmap bytes V := base.filter (λ kv, kv.1 ∉ ks) H.

Lemma without_cons {V} (k : bytes) (ks : list bytes) (H : gmap bytes V) : without (k :: ks) H = without ks (delete k H).
Proof.
  apply map_eq. intros i. apply option_eq. intros x. unfold without. rewrite !map_lookup_filter_Some, lookup_delete_Some. cbn.
  rewrite elem_of_cons. naive_solver.
Qed.

Lemma refs_leave H R (L : list (bytes * DataRef)) :
  refs_inv H R -> (forall k d, (k, d) ∈ L -> H !! k = Some d) -> NoDup L.*1 ->
  refs_inv (without L.*1 H) (apply_ops (flat_map (λ x, batch_refs x.2 false []) L) R).
Proof.
  revert H R. induction L as [|[k d] L IH]; intros H R Hinv HL Hnd.
  { unfold without. rewrite map_filter_id; [done|]. intros. cbn. set_solver. }
  cbn in Hnd. apply list.NoDup_cons in Hnd as [Hk Hnd]. cbn [flat_map fmap list_fmap fst snd]. rewrite apply_ops_app, without_cons.
  apply IH; [|intros k' d' Hin|done].
  - apply refs_delete; [done|]. apply HL. left.
  - rewrite lookup_delete_ne; [apply HL; by right|]. intros ->. apply Hk, list_elem_of_fmap. by exists (k', d').
Qed.

(** * Live records *)
Definition data_of_object (v : bytes) : DataRef := match decode_object [] v with Ok r => or_data r | Throw _ => [] end.
Definition data_of_part (v : bytes) : DataRef := match decode_part 0 v with Ok r => pr_data r | Throw _ => [] end.
Definition data_of_reclaim (v : bytes) : DataRef := match decode_reclaim v with Ok r => rc_extents r | Throw _ => [] end.

Definition object_value (v : bytes) : Prop := exists r, object_rec_ok r /\ encode_object r = Ok v.
Definition part_value (v : bytes) : Prop := exists r, part_rec_ok r /\ encode_part r = Ok v.
Definition upload_value (v : bytes) : Prop :=
  exists r, is_i64 (initiated_ms r) /\ Forall is_u64 (part_sizes (ur_meta r)) /\ encode_upload r = Ok v.
Definition reclaim_value (v : bytes) : Prop :=
  exists es ms reason, extents_ok es /\ is_i64 ms /\ encode_reclaim (mkReclaim es ms reason) ms = Ok v.

Lemma to_unix_from ms : to_unix_ms (from_unix_ms ms) = ms.
Proof. unfold to_unix_ms, from_unix_ms. by rewrite Z.quot_mul. Qed.

Lemma persisted_ok k r : object_rec_ok r -> object_rec_ok (persisted_object k r).
Proof. intros (H1 & H2 & H3 & H4 & H5 & H6). split_and!; try done. cbn. by rewrite to_unix_from. Qed.

Lemma object_value_read v k : object_value v ->
  exists r, decode_object k v = Ok r /\ object_rec_ok r /\ or_data r = data_of_object v.
Proof.
  intros (r & Hok & Henc). exists (persisted_object k r). split_and!.
  - by apply object_roundtrip.
  - by apply persisted_ok.
  - unfold data_of_object. by rewrite (object_roundtrip [] v r Hok Henc).
Qed.

Lemma object_value_encode r v : object_rec_ok r -> encode_object r = Ok v -> object_value v /\ data_of_object v = or_data r.
Proof.
  intros Hok Henc. split; [by exists r|]. unfold data_of_object. by rewrite (object_roundtrip [] v r Hok Henc).
Qed.

Definition renumber (n : Z) (r : PartRec) : PartRec :=
  mkPartRec n (pr_size r) (pr_etag r) (pr_modified_ms r) (pr_data r) (pr_checksum_algorithm r) (pr_checksum_value r).
Lemma part_read n r v : part_rec_ok r -> encode_part r = Ok v -> decode_part n v = Ok (renumber n r).
Proof. intros Hok Henc. exact (part_roundtrip (renumber n r) v Hok Henc). Qed.

Lemma part_value_read v n : part_value v ->
  exists r, decode_part n v = Ok r /\ part_rec_ok r /\ pr_data r = data_of_part v /\ pr_part_no r = n.
Proof.
  intros (r & Hok & Henc). exists (renumber n r). split_and!; [by apply part_read|done| |done].
  unfold data_of_part. by rewrite (part_read 0 r v Hok Henc).
Qed.
Lemma part_value_encode r v : part_rec_ok r -> encode_part r = Ok v -> part_value v /\ data_of_part v = pr_data r.
Proof. intros Hok Henc. split; [by exists r|]. unfold data_of_part. by rewrite (part_read 0 r v Hok Henc). Qed.

Lemma reclaim_value_encode es ms reason v :
  extents_ok es -> is_i64 ms -> encode_reclaim (mkReclaim es 0 reason) ms = Ok v ->
  reclaim_value v /\ data_of_reclaim v = es.
Proof.
  intros Hx Hm Henc. change (encode_reclaim (mkReclaim es ms reason) ms = Ok v) in Henc.
  split; [by exists es, ms, reason|]. unfold data_of_reclaim. by rewrite (reclaim_roundtrip es reason ms v Hx Hm Henc).
Qed.

Lemma data_of_object_wf v : object_value v -> extents_ok (data_of_object v).
Proof. intros (r & _ & (_ & _ & _ & _ & _ & Hx) & <-)%(object_value_read v []). done. Qed.
Lemma data_of_part_wf v : part_value v -> extents_ok (data_of_part v).
Proof. intros (r & _ & (_ & _ & Hx) & <- & _)%(λ H, part_value_read v 0 H). done. Qed.

(** * Sums over records that leave *)
Lemma ksum_fmap {K V W} `{Countable K} (f : K -> W -> Z) (g : V -> W) (m : gmap K V) :
  ksum f (g <$> m) = ksum (λ k v, f k (g v)) m.
Proof.
  induction m as [|k v m Hk IH] using map_ind; [by rewrite fmap_empty, !ksum_empty|].
  rewrite fmap_insert, !ksum_insert_new by (by rewrite ?lookup_fmap, ?Hk). by rewrite IH.
Qed.

Lemma ksum_without {V} (f : bytes -> V -> Z) (H : gmap bytes V) (L : list (bytes * V)) :
  NoDup L.*1 -> (forall k d, (k, d) ∈ L -> H !! k = Some d) -> ksum f H = (lsum f L + ksum f (without L.*1 H))%Z.
Proof.
  revert H. induction L as [|[k d] L IH]; intros H Hn HL.
  { cbn. unfold without. rewrite map_filter_id; [lia|]. intros. cbn. set_solver. }
  cbn in Hn. apply list.NoDup_cons in Hn as [Hk Hn]. cbn [fmap list_fmap fst]. rewrite without_cons.
  assert (ksum f (delete k H) = (lsum f L + ksum f (without L.*1 (delete k H)))%Z) as E.
  { apply IH; [done|]. intros k' d' Hin. rewrite lookup_delete_ne; [apply HL; by right|].
    intros ->. apply Hk, list_elem_of_fmap. by exists (k', d'). }
  rewrite ksum_delete in E. unfold kval in E. rewrite (HL k d ltac:(left)) in E. cbn [lsum foldr fst snd]. fold (lsum f L). lia.
Qed.

(** * Prefix scans of a sorted table *)
Section scan.
Context (pfx : bytes).
Abbreviation pairs := (list (bytes * bytes)).
Definition ascend (l : pairs) : Prop := StronglySorted (λ a b, bytes_le a b /\ a <> b) l.*1.

Lemma seek_from_split before t (l : pairs) :
  exists skipped, (seek_from before t l).1 = reverse skipped ++ before /\ l = skipped ++ (seek_from before t l).2 /\
    Forall (λ kv, bytes_lt kv.1 t) skipped /\ (forall kv r, (seek_from before t l).2 = kv :: r -> bytes_le t kv.1).
Proof.
  revert before. induction l as [|kv l IH]; intros before; cbn; [by exists []|].
  destruct (bytes_ltb kv.1 t) eqn:E.
  - destruct (IH (kv :: before)) as (sk & H1 & H2 & H3 & H4). exists (kv :: sk). rewrite H1, reverse_cons, <- app_assoc. cbn.
    split_and!; [done|by rewrite <- H2|by constructor|done].
  - exists []. split_and!; [done|done|constructor|]. by intros ? ? [= <- <-].
Qed.

Lemma take_while_prefix (l : pairs) :
  ascend l -> (forall k v r, l = (k, v) :: r -> bytes_le pfx k) ->
  forall k v, (k, v) ∈ take_while (λ kv, starts_with pfx kv.1) l <-> (k, v) ∈ l /\ pfx `prefix_of` k.
Proof.
  induction l as [|[k0 v0] l IH]; intros Hs Hf k v; [cbn; set_solver|].
  apply StronglySorted_inv in Hs as [Hs Hall]. cbn [take_while fst]. rewrite list.Forall_forall in Hall.
  pose proof (Hf k0 v0 l eq_refl) as Hle. destruct (starts_with pfx k0) eqn:E.
  - apply starts_with_prefix in E. rewrite !elem_of_cons, IH; [naive_solver|done|].
    intros k1 v1 r ->. destruct (Hall k1 ltac:(left)) as [H1 _]. by trans k0.
  - apply starts_with_false in E. split; [set_solver|]. intros [[[= -> ->]|Hin]%elem_of_cons Hp]; [done|].
    exfalso. apply E. destruct (Hall k ltac:(apply list_elem_of_fmap; by exists (k, v))) as [H1 _].
    by apply (prefix_between pfx pfx k0 k).
Qed.

Lemma take_while_NoDup {A B} (f : A * B -> bool) l : NoDup l.*1 -> NoDup (take_while f l).*1.
Proof.
  induction l as [|x l IH]; cbn; [done|]. intros [Hx Hn]%list.NoDup_cons. destruct (f x); cbn; [|constructor].
  constructor; [|by apply IH]. intros Hin. apply Hx. clear -Hin. induction l as [|y l IH]; cbn in *; [done|].
  destruct (f y); [|set_solver]. cbn in Hin. set_solver.
Qed.

Lemma scan_prefix_elem (t : table) k v :
  (k, v) ∈ scan_prefix pfx (map_items bytes_le t) <-> t !! k = Some v /\ pfx `prefix_of` k.
Proof.
  unfold scan_prefix, it_seek. destruct (seek_from_split [] pfx (map_items bytes_le t)) as (sk & _ & Hl & Hsk & Hhd).
  pose proof (map_items_sorted bytes_le t) as Hsorted. rewrite Hl, fmap_app in Hsorted.
  set (l := (seek_from [] pfx (map_items bytes_le t)).2) in *. rewrite take_while_prefix.
  - rewrite <- map_items_elem, Hl, elem_of_app. split; [naive_solver|]. intros [[Hin|Hin] Hp]; [|done].
    exfalso. rewrite list.Forall_forall in Hsk. specialize (Hsk _ Hin). cbn in Hsk. apply prefix_le in Hp.
    by apply bytes_lt_not_le in Hsk.
  - by apply StronglySorted_app_1_r in Hsorted.
  - intros k0 v0 r E. by apply (Hhd (k0, v0) r).
Qed.

Lemma scan_prefix_NoDup (t : table) : NoDup (scan_prefix pfx (map_items bytes_le t)).*1.
Proof.
  unfold scan_prefix, it_seek. apply take_while_NoDup.
  destruct (seek_from_split [] pfx (map_items bytes_le t)) as (sk & _ & Hl & _ & _).
  pose proof (map_items_NoDup bytes_le t) as Hn. rewrite Hl, fmap_app in Hn. by apply NoDup_app in Hn as (_ & _ & Hn).
Qed.
End scan.
