(* ===== verification/RocksProofs.v ===== *)
(** Runs of the RocksDB engine: what the wrappers and the id allocator do, the invariant
    of the metadata tables, and that every operation keeps it. *)

From S2P Require Import Prelude Bytes Backend Listing Multipart Codec CodecProofs CodecKeys MetaUtil RocksDb RocksMeta RocksLedger.
From Stdlib Require Import ZArith Lia.
From stdpp Require Import base list gmap sets strings sorting relations.
Open Scope lights3_scope.

Section runs.
Context {DB : Type} {rocks : RocksDB DB} {law : RocksLaw DB}.
Abbreviation M := (ST (Meta DB) S3ErrorCode).
Implicit Types (s : Meta DB).

(** The contents of a family; a closed store has none. *)
Definition tab (s : Meta DB) (c : Cf) : table := match handle s with Some d => contents d c | None => ∅ end.

(** * Wrappers *)
Lemma lift_run {A} (r : result A) s o s' : (lift r : M A) s = (o, s') -> o = r /\ s' = s.
Proof. by intros [= <- <-]. Qed.
Lemma mret_run {A} (a : A) s o s' : (mret a : M A) s = (o, s') -> o = Ok a /\ s' = s.
Proof. by intros [= <- <-]. Qed.

Lemma db_run s o s' : db s = (o, s') -> s' = s /\ match o with Ok d => handle s = Some d | Throw _ => True end.
Proof. unfold db. destruct (handle s) eqn:E; intros [= <- <-]; done. Qed.

Lemma get_raw_run c k s o s' : get_raw c k s = (o, s') -> s' = s /\ forall v, o = Ok v -> v = tab s c !! k.
Proof.
  unfold get_raw. intros [(d & s1 & [-> Ed]%db_run & E)|(e & [-> _]%db_run & ->)]%ST_bind_run; [|done].
  unfold status in E. destruct (db_get c k d) as [x|] eqn:Ex; injection E as <- <-; split; try done.
  intros v [= <-]. unfold tab. rewrite Ed. by apply get_law.
Qed.

Lemma items_run c s o s' : items c s = (o, s') -> s' = s /\ forall l, o = Ok l -> l = map_items bytes_le (tab s c).
Proof.
  unfold items. intros [(d & s1 & [-> Ed]%db_run & E)|(e & [-> _]%db_run & ->)]%ST_bind_run; [|done].
  unfold status in E. destruct (db_items c d) as [x|] eqn:Ex; injection E as <- <-; split; try done.
  intros v [= <-]. unfold tab. rewrite Ed. by apply items_law.
Qed.

(** A batch was applied and nothing else changed. *)
Definition applied (b : list BatchOp) (s s' : Meta DB) : Prop :=
  (forall c, tab s' c = apply_ops (on_cf c b) (tab s c)) /\ (forall c, range c s' = range c s).

Lemma write_run sync b s o s' : write sync b s = (o, s') -> match o with Ok _ => applied b s s' | Throw _ => s' = s end.
Proof.
  unfold write. intros [(d & s1 & [-> Ed]%db_run & E)|(e & [-> _]%db_run & ->)]%ST_bind_run; [|done].
  unfold status in E. destruct (db_write sync b d) as [x|] eqn:Ex.
  - rewrite ST_ret_bind in E. injection E as <- <-. split.
    + intros c. unfold tab. cbn. rewrite Ed. by apply (write_law d x sync b c).
    + by intros [].
  - rewrite ST_bind_eq in E. by injection E as <- <-.
Qed.
Lemma commit_run b s o s' : commit b s = (o, s') -> match o with Ok _ => applied b s s' | Throw _ => s' = s end.
Proof. unfold commit. rewrite ST_get_bind. apply write_run. Qed.

(** * Ids *)
Definition cstat (s : Meta DB) (c : Counter) : Z := stat (tab s kStats) (counter_key c).

Record ids_ok (s : Meta DB) (c : Counter) (used : Z -> Prop) : Prop := mkIdsOk {
  io_range : (0 <= next (range c s) <= limit (range c s))%Z;
  io_limit : (limit (range c s) <= cstat s c)%Z;
  io_used : forall i, used i -> (0 <= i < cstat s c)%Z /\ ~ (next (range c s) <= i < limit (range c s))%Z;
  io_tight : c = CSeq -> next (range c s) = limit (range c s) \/ limit (range c s) = cstat s c }.

(** Only the counter [c] and its range may differ. *)
Record only_counter (c : Counter) (s s' : Meta DB) : Prop := mkOnlyCounter {
  oc_tab : forall cf, cf <> kStats -> tab s' cf = tab s cf;
  oc_stats : forall k, k <> counter_key c -> tab s' kStats !! k = tab s kStats !! k;
  oc_range : forall c', c' <> c -> range c' s' = range c' s }.

Lemma only_counter_refl c s : only_counter c s s.
Proof. by split. Qed.
Lemma only_counter_trans c s1 s2 s3 : only_counter c s1 s2 -> only_counter c s2 s3 -> only_counter c s1 s3.
Proof.
  intros [A1 A2 A3] [B1 B2 B3]. split; intros.
  - rewrite B1, A1; done.
  - rewrite B2, A2; done.
  - rewrite B3, A3; done.
Qed.

Lemma counter_key_inj c c' : counter_key c = counter_key c' -> c = c'.
Proof. by destruct c, c'. Qed.

Lemma counter_range v : (- 2 ^ 63 <= counter_or_zero v < 2 ^ 63)%Z.
Proof.
  unfold counter_or_zero. case_if; [|lia]. destruct (decode_counter v) as [z|] eqn:E; [|lia].
  unfold decode_counter in E. apply decoded_inv in E as [s' E]. inv_run E. injection E as <- _.
  unfold i64. pose proof (Z.mod_pos_bound (a + 2 ^ 63) (2 ^ 64) ltac:(lia)). lia.
Qed.

(** The reservation of a segment. *)
Lemma reserve_run c s s' :
  (0 <= cstat s c)%Z -> (cstat s c + kIdSegment < 2 ^ 63)%Z -> applied [BMerge kStats (counter_key c) (le_bytes 8 (u64 kIdSegment))] s s' ->
  only_counter c s s' /\ cstat s' c = (cstat s c + kIdSegment)%Z /\ range c s' = range c s /\
  exists v, tab s' kStats !! counter_key c = Some v /\ decode_counter v = Ok (cstat s c + kIdSegment)%Z.
Proof.
  intros H0 Hroom [Ht Hr].
  assert (counter_or_zero (le_bytes 8 (u64 kIdSegment)) = kIdSegment) as Hd by reflexivity.
  assert (tab s' kStats = <[counter_key c := le_bytes 8 (u64 (cstat s c + kIdSegment))]> (tab s kStats)) as E.
  { rewrite Ht. cbn [on_cf base.filter list_filter op_cf]. rewrite decide_True by done. cbn [apply_ops fold_left apply_op].
    unfold counter_merge. rewrite encode_counter_eq, Hd. done. }
  assert (decode_counter (le_bytes 8 (u64 (cstat s c + kIdSegment))) = Ok (cstat s c + kIdSegment)%Z) as Hdec.
  { rewrite decode_counter_le, i64_u64; [done|]. unfold is_i64, kIdSegment in *. lia. }
  split_and!.
  - split.
    + intros cf Hcf. rewrite Ht. rewrite on_cf_none; [done|]. by repeat constructor.
    + intros k Hk. by rewrite E, lookup_insert_ne.
    + intros c' _. apply Hr.
  - unfold cstat at 1, stat. rewrite E, lookup_insert_eq. unfold counter_or_zero. by rewrite length_le_bytes, Hdec.
  - apply Hr.
  - eexists. split; [by rewrite E, lookup_insert_eq|done].
Qed.

Lemma modify_run f s o s' : (modify f : M unit) s = (o, s') -> o = Ok tt /\ s' = f s.
Proof. by intros [= <- <-]. Qed.

Lemma range_set c c' r s : range c' (set_range c r s) = if decide (c = c') then r else range c' s.
Proof. by destruct c, c'. Qed.
Lemma tab_set c r s : tab (set_range c r s) = tab s.
Proof. by destruct c. Qed.

Lemma set_range_only c r s : only_counter c s (set_range c r s).
Proof. split; intros; rewrite ?tab_set; try done. rewrite range_set. by rewrite decide_False. Qed.

Definition room (s : Meta DB) (c : Counter) (k : Z) : Prop := (cstat s c + kIdSegment * k < 2 ^ 63)%Z.

Lemma ids_stat_nonneg s c used : ids_ok s c used -> (0 <= cstat s c)%Z.
Proof. intros [? ? _ _]. lia. Qed.

Lemma reserve_segment_run c s o s' used k :
  ids_ok s c used -> (c = CSeq -> next (range c s) = limit (range c s)) ->
  room s c (k + 1) -> (0 <= k)%Z -> reserve_segment c s = (o, s') ->
  only_counter c s s' /\ ids_ok s' c used /\ room s' c k /\
  match o with Ok _ => (next (range c s') + kIdSegment = limit (range c s'))%Z | Throw _ => True end.
Proof.
  intros Hids Hdry Hroom Hk. pose proof (ids_stat_nonneg _ _ _ Hids) as H0. pose proof Hids as [R1 R2 R3 R4]. unfold room, kIdSegment in *.
  unfold reserve_segment. rewrite encode_counter_eq. intros E. rewrite ST_bind_eq in E. cbn [lift] in E.
  apply ST_bind_run in E as [(u & s1 & Hw%write_run & E)|(e & Hw%write_run & ->)].
  2: { subst s'. split_and!; [apply only_counter_refl|done|lia|done]. }
  destruct (reserve_run c s s1 H0 ltac:(unfold kIdSegment; lia) Hw) as (Ho & Hs & Hr & v & Hv & Hdec). unfold kIdSegment in *.
  assert (ids_ok s1 c used) as Hids1.
  { split; rewrite ?Hr, ?Hs; [done|lia| |auto]. intros i Hi. destruct (R3 i Hi). split; [lia|done]. }
  apply ST_bind_run in E as [(v' & s2 & [-> Hg]%get_raw_run & E)|(e & [-> _]%get_raw_run & ->)].
  2: { split_and!; [done|done|lia|done]. }
  rewrite (Hg v' eq_refl), Hv, Hdec in E. rewrite ST_bind_eq in E. cbn [lift] in E. apply modify_run in E as [-> ->].
  assert (u64 (cstat s c + 4096) = cstat s c + 4096)%Z as Hu1 by (apply u64_small; unfold is_u64; lia).
  rewrite Hu1. unfold kIdSegment. replace (cstat s c + 4096 - 4096)%Z with (cstat s c) by lia.
  rewrite (u64_small (cstat s c)) by (unfold is_u64; lia).
  split_and!; [by eapply only_counter_trans; [|apply set_range_only]| | |].
  - split; unfold cstat in *; rewrite ?range_set, ?tab_set, ?decide_True by done; cbn; [lia|lia| |intros; lia].
    intros i Hi. destruct (R3 i Hi). lia.
  - unfold cstat in *. rewrite tab_set. lia.
  - rewrite range_set, decide_True by done. done.
Qed.

(** An allocated run was never issued before. *)
Lemma alloc_id_run c n s o s' used k :
  ids_ok s c used -> (c = CSeq -> clamp_run n = 1%Z) -> room s c (k + 1) -> (0 <= k)%Z -> alloc_id c n s = (o, s') ->
  only_counter c s s' /\ room s' c k /\
  match o with
  | Ok f => ids_ok s' c (λ i, used i \/ (f <= i < f + clamp_run n)%Z) /\
            (forall i, (f <= i < f + clamp_run n)%Z -> ~ used i) /\ (0 <= f)%Z /\ (f + clamp_run n < 2 ^ 63)%Z
  | Throw _ => ids_ok s' c used
  end.
Proof.
  intros Hids Hone Hroom Hk E. unfold alloc_id in E. rewrite ST_get_bind in E.
  assert (1 <= clamp_run n <= 64)%Z as Hn by (unfold clamp_run, kMaxIdRun; lia). set (m := clamp_run n) in *. clearbody m.
  assert (forall s1, ids_ok s1 c used -> only_counter c s s1 -> room s1 c k -> (m <= limit (range c s1) - next (range c s1))%Z ->
    (s' = set_range c (mkRange (u64 (next (range c s1) + m)) (limit (range c s1))) s1) -> o = Ok (next (range c s1)) ->
    only_counter c s s' /\ room s' c k /\ match o with
      | Ok f => ids_ok s' c (λ i, used i \/ (f <= i < f + m)%Z) /\
                (forall i, (f <= i < f + m)%Z -> ~ used i) /\ (0 <= f)%Z /\ (f + m < 2 ^ 63)%Z
      | Throw _ => ids_ok s' c used end) as Hfin.
  { intros s1 [R1 R2 R3 R4] Ho Hr1 Hgap -> ->. unfold room, kIdSegment, cstat in *.
    pose proof (counter_range (default [] (tab s1 kStats !! counter_key c))) as Hcr.
    assert (next (range c s1) + m < 2 ^ 63)%Z as Hlt.
    { unfold stat in *. destruct (tab s1 kStats !! counter_key c); cbn in *; lia. }
    rewrite (u64_small (next (range c s1) + m)) by (unfold is_u64; lia).
    split_and!; [by eapply only_counter_trans; [|apply set_range_only]|by rewrite tab_set| | |lia|lia].
    - split; unfold cstat; rewrite ?range_set, ?tab_set, ?decide_True by done; cbn; [lia|lia| |intros Hc; destruct (R4 Hc); lia].
      intros i [Hi|Hi]; [destruct (R3 i Hi)|]; lia.
    - intros i Hi Hu. destruct (R3 i Hu). lia. }
  pose proof Hids as [R1 R2 R3 R4]. pose proof (counter_range (default [] (tab s kStats !! counter_key c))) as Hcr.
  assert (u64 (limit (range c s) - next (range c s)) = limit (range c s) - next (range c s))%Z as Hu.
  { apply u64_small. unfold is_u64, cstat, stat in *. destruct (tab s kStats !! counter_key c); cbn in *; lia. }
  rewrite Hu in E. destruct (Z.ltb_spec (limit (range c s) - next (range c s)) m) as [Hlt|Hge].
  - apply ST_bind_run in E as [(u & s1 & Hres & E)|(e & Hres & ->)].
    + destruct (reserve_segment_run _ _ _ _ _ _ Hids ltac:(intros Hc; specialize (Hone Hc); lia) Hroom Hk Hres) as (A1 & A2 & A3 & A4).
      rewrite ST_get_bind in E. apply ST_bind_run in E as [(u2 & s2 & [_ ->]%modify_run & E)|(e & [[=] _]%modify_run & _)].
      apply mret_run in E as [-> ->]. eapply Hfin; try done. unfold kIdSegment in *. lia.
    + destruct (reserve_segment_run _ _ _ _ _ _ Hids ltac:(intros Hc; specialize (Hone Hc); lia) Hroom Hk Hres) as (A1 & A2 & A3 & _). done.
  - rewrite ST_ret_bind, ST_get_bind in E.
    apply ST_bind_run in E as [(u2 & s2 & [_ ->]%modify_run & E)|(e & [[=] _]%modify_run & _)].
    apply mret_run in E as [-> ->]. apply (Hfin s); try done. unfold room, kIdSegment in *. lia.
Qed.

Lemma ids_ok_weaken s c (used used' : Z -> Prop) : ids_ok s c used -> (forall i, used' i -> used i) -> ids_ok s c used'.
Proof. intros [R1 R2 R3 R4] Hu. split; auto. Qed.
Lemma room_weaken s c k k' : room s c k -> (k' <= k)%Z -> room s c k'.
Proof. unfold room, kIdSegment. lia. Qed.

(** * Queueing garbage *)
Definition gputs (E : list (Z * bytes)) : list BatchOp := (λ x, BPut kGcq (be64_key x.1) x.2) <$> E.

(** New queue entries that together hold [es], under numbers not in use. *)
Record entries_for (E : list (Z * bytes)) (used : Z -> Prop) (es : DataRef) : Prop := mkEntriesFor {
  ef_nodup : NoDup E.*1;
  ef_fresh : forall i, i ∈ E.*1 -> is_u64 i /\ ~ used i;
  ef_value : Forall reclaim_value E.*2;
  ef_data : concat (data_of_reclaim <$> E.*2) = es }.

Lemma entries_nil used : entries_for [] used [].
Proof. split; try done; [constructor|set_solver]. Qed.

Lemma entries_app E E' used es es' :
  entries_for E used es -> entries_for E' (λ i, used i \/ i ∈ E.*1) es' -> entries_for (E ++ E') used (es ++ es').
Proof.
  intros [A1 A2 A3 A4] [B1 B2 B3 B4]. split.
  - rewrite fmap_app. apply NoDup_app. split_and!; [done| |done]. intros i Hi Hi'. apply B2 in Hi'. naive_solver.
  - intros i. rewrite fmap_app, elem_of_app. intros [Hi|Hi]; [by apply A2|]. apply B2 in Hi. naive_solver.
  - rewrite fmap_app. by apply list.Forall_app.
  - by rewrite !fmap_app, concat_app, A4, B4.
Qed.

Lemma enqueue_nil_run s o s' used k :
  ids_ok s CSeq used -> room s CSeq k -> (mret [] : M (list BatchOp)) s = (o, s') ->
  only_counter CSeq s s' /\ room s' CSeq k /\
  match o with
  | Ok ops => exists E, ops = gputs E /\ entries_for E used [] /\ ids_ok s' CSeq (λ i, used i \/ i ∈ E.*1)
  | Throw _ => ids_ok s' CSeq used
  end.
Proof.
  intros Hids Hroom [-> ->]%mret_run. split_and!; [apply only_counter_refl|done|]. exists []. split_and!; [done|apply entries_nil|].
  eapply ids_ok_weaken; [done|]. intros i [?|Hi]; [done|by apply not_elem_of_nil in Hi].
Qed.

Lemma enqueue_loop_run fuel now reason es s o s' used k :
  length es <= fuel -> wf_data es -> is_i64 now -> ids_ok s CSeq used -> room s CSeq (Z.of_nat (length es) + k) -> (0 <= k)%Z ->
  enqueue_loop fuel now reason es s = (o, s') ->
  only_counter CSeq s s' /\ room s' CSeq k /\
  match o with
  | Ok ops => exists E, ops = gputs E /\ entries_for E used es /\ ids_ok s' CSeq (λ i, used i \/ i ∈ E.*1)
  | Throw _ => ids_ok s' CSeq used
  end.
Proof.
  revert es s o s' used. induction fuel as [|fuel IH]; intros [|x es] s o s' used Hl Hw Hms Hids Hroom Hk E;
    [by apply (enqueue_nil_run s o s' used k)|cbn in Hl; lia|by apply (enqueue_nil_run s o s' used k)|].
  cbn [enqueue_loop] in E. set (all := x :: es) in *. set (hd := take kReclaimMaxExtents all) in *.
  assert (all = hd ++ drop kReclaimMaxExtents all) as Hall by (symmetry; apply take_drop).
  assert (wf_data hd /\ wf_data (drop kReclaimMaxExtents all)) as [Hw1 Hw2] by (rewrite Hall in Hw; by apply list.Forall_app in Hw).
  assert (length (drop kReclaimMaxExtents all) <= fuel /\ (Z.of_nat (length (drop kReclaimMaxExtents all)) + 1 <= Z.of_nat (length all))%Z) as [Hl2 Hl3]
    by (rewrite length_drop; unfold all, kReclaimMaxExtents in *; cbn [length] in *; lia).
  apply ST_bind_run in E as [(q & s1 & Ha & E)|(e & Ha & ->)].
  2: { destruct (alloc_id_run CSeq 1 _ _ _ _ k Hids ltac:(done) ltac:(eapply room_weaken; [done|lia]) Hk Ha) as (A1 & A2 & A3). done. }
  destruct (alloc_id_run CSeq 1 _ _ _ _ (Z.of_nat (length (drop kReclaimMaxExtents all)) + k)%Z Hids ltac:(done)
              ltac:(eapply room_weaken; [done|lia]) ltac:(lia) Ha) as (A1 & A2 & A3 & A4 & A5 & A6).
  change (clamp_run 1) with 1%Z in *.
  apply ST_bind_run in E as [(enc & s2 & [Henc ->]%lift_run & E)|(e & [_ ->]%lift_run & ->)].
  2: { split_and!; [done|eapply room_weaken; [done|lia]|]. eapply ids_ok_weaken; [done|]. cbn. auto. }
  symmetry in Henc. destruct (reclaim_value_encode hd now reason enc) as [Hv Hd]; [|done|done|].
  { split; [done|]. unfold hd. rewrite length_take. unfold kReclaimMaxExtents. lia. }
  apply ST_bind_run in E as [(rest & s3 & Hr & E)|(e & Hr & ->)].
  2: { destruct (IH _ _ _ _ _ Hl2 Hw2 Hms A3 A2 Hk Hr) as (B1 & B2 & B3).
       split_and!; [by eapply only_counter_trans|done|]. eapply ids_ok_weaken; [done|]. cbn. auto. }
  destruct (IH _ _ _ _ _ Hl2 Hw2 Hms A3 A2 Hk Hr) as (B1 & B2 & E' & -> & B4 & B5). apply mret_run in E as [-> ->].
  split_and!; [by eapply only_counter_trans|done|]. exists ((q, enc) :: E'). split; [done|]. split.
  - rewrite Hall. apply (entries_app [(q, enc)]).
    + split; cbn; [apply NoDup_singleton| |by apply list.Forall_singleton|by rewrite Hd, app_nil_r].
      intros i ->%list_elem_of_singleton. split; [unfold is_u64; lia|apply A4; lia].
    + destruct B4 as [C1 C2 C3 C4]. split; try done. intros i Hi. destruct (C2 i Hi) as [Hu Hn]. split; [done|].
      intros Hc. apply Hn. destruct Hc as [Hc|Hc%list_elem_of_singleton]; [by left|right]. cbn in Hc. lia.
  - eapply ids_ok_weaken; [done|]. cbn. intros i [Hi|[->|Hi]%elem_of_cons]; [auto|left; right; lia|auto].
Qed.

(** * Accounting batches: queue entries, reference changes and counter changes *)
Record acct (ops : list BatchOp) (E : list (Z * bytes)) (refs : list BatchOp) (db dr : Z -> Z) : Prop := mkAcct {
  ac_gcq : on_cf kGcq ops = gputs E;
  ac_refs : on_cf kRefs ops = refs;
  ac_stats : stats_delta (on_cf kStats ops) db dr;
  ac_other : forall c, c <> kGcq -> c <> kRefs -> c <> kStats -> on_cf c ops = [] }.

Lemma on_cf_other c c' ops : Forall (λ x, op_cf x = c') ops -> c <> c' -> on_cf c ops = [].
Proof. intros Hf Hc. apply on_cf_none. eapply list.Forall_impl; [exact Hf|]. cbn. congruence. Qed.

Lemma acct_nil : acct [] [] [] (λ _, 0%Z) (λ _, 0%Z).
Proof. split; try done. apply stats_delta_nil. Qed.
Lemma acct_app a b E E' r r' db dr db' dr' :
  acct a E r db dr -> acct b E' r' db' dr' -> acct (a ++ b) (E ++ E') (r ++ r') (λ p, db p + db' p)%Z (λ p, dr p + dr' p)%Z.
Proof.
  intros [A1 A2 A3 A4] [B1 B2 B3 B4]. split; [| | |intros]; rewrite on_cf_app.
  - unfold gputs. by rewrite A1, B1, fmap_app.
  - by rewrite A2, B2.
  - by apply stats_delta_app.
  - by rewrite A4, B4.
Qed.
Lemma acct_ext ops E r db dr db' dr' :
  acct ops E r db dr -> (forall p, db p = db' p) -> (forall p, dr p = dr' p) -> acct ops E r db' dr'.
Proof. intros [A1 A2 A3 A4] H1 H2. split; try done. by eapply stats_delta_ext. Qed.
Lemma acct_of_refs d add o : acct (batch_refs d add o) [] (batch_refs d add o) (λ _, 0%Z) (λ _, 0%Z).
Proof.
  pose proof (batch_refs_cf d add o) as Hf. split; try (intros; by apply (on_cf_other _ kRefs)).
  - by apply on_cf_all.
  - rewrite (on_cf_other kStats kRefs) by done. apply stats_delta_nil.
Qed.
Lemma acct_of_stats ops db dr : stats_delta ops db dr -> acct ops [] [] db dr.
Proof.
  intros Hd. pose proof (sd_cf _ _ _ Hd) as Hf. split; try (intros; by apply (on_cf_other _ kStats)). by rewrite on_cf_all.
Qed.
Lemma gputs_cf E : Forall (λ x, op_cf x = kGcq) (gputs E).
Proof. induction E; by constructor. Qed.
Lemma acct_of_gputs E : acct (gputs E) E [] (λ _, 0%Z) (λ _, 0%Z).
Proof.
  pose proof (gputs_cf E) as Hf. split; try (intros; by apply (on_cf_other _ kGcq)); [by apply on_cf_all|].
  rewrite (on_cf_other kStats kGcq) by done. apply stats_delta_nil.
Qed.

(** Outcome of an accounting run from [s]: the batch, or an error; either way only the
    sequence counter moved. *)
Definition acct_run (s s' : Meta DB) (o : result (list BatchOp)) (used : Z -> Prop) (k : Z) (es : DataRef)
    (refs : list BatchOp) (db dr : Z -> Z) : Prop :=
  only_counter CSeq s s' /\ room s' CSeq k /\
  match o with
  | Ok ops => exists E, acct ops E refs db dr /\ entries_for E used es /\ ids_ok s' CSeq (λ i, used i \/ i ∈ E.*1)
  | Throw _ => ids_ok s' CSeq used
  end.

Lemma drop_data_run now es reason ov s o s' used k :
  wf_data es -> is_i64 now -> ids_ok s CSeq used -> room s CSeq (Z.of_nat (length es) + k) -> (0 <= k)%Z ->
  drop_data now es reason ov s = (o, s') ->
  acct_run s s' o used k es (batch_refs es false []) (λ p, - pack_bytes p ov es)%Z (λ p, - pack_recs p es)%Z.
Proof.
  intros Hw Hms Hids Hroom Hk E. unfold drop_data, enqueue_reclaim_locked in E.
  apply ST_bind_run in E as [(q & s1 & Hq & E)|(e & Hq & ->)];
    pose proof (enqueue_loop_run (length es) now reason es s _ _ used k ltac:(done) Hw Hms Hids Hroom Hk Hq) as (A1 & A2 & A3); [|done].
  destruct A3 as (En & -> & A3 & A4). destruct (batch_pack_delta_spec es (-1) ov Hw) as (p & Hp & Hd). rewrite Hp in E.
  rewrite ST_bind_eq in E. cbn [lift] in E. apply mret_run in E as [-> ->]. split_and!; [done|done|]. exists En. split_and!; [|done|done].
  eapply acct_ext; [replace En with (En ++ [] ++ []) at 2 by (by rewrite !app_nil_r);
    replace (batch_refs es false []) with ([] ++ batch_refs es false [] ++ []) at 2 by (by rewrite app_nil_r);
    apply acct_app; [apply acct_of_gputs|apply acct_app; [apply acct_of_refs|by apply acct_of_stats]]| |]; intros x; cbn; lia.
Qed.

Lemma acct_run_bind {s s1 s2} {a b} {o : result (list BatchOp)} {E used k k' es es' r r' db dr db' dr'} :
  acct a E r db dr -> only_counter CSeq s s1 -> entries_for E used es -> ids_ok s1 CSeq (λ i, used i \/ i ∈ E.*1) -> (k' <= k)%Z ->
  acct_run s1 s2 b (λ i, used i \/ i ∈ E.*1) k es' r' db' dr' ->
  o = match b with Ok x => Ok (a ++ x) | Throw e => Throw e end ->
  acct_run s s2 o used k' (es ++ es') (r ++ r') (λ p, db p + db' p)%Z (λ p, dr p + dr' p)%Z.
Proof.
  intros Ha Ho He Hids Hk (B1 & B2 & B3) ->. split_and!; [by eapply only_counter_trans|by eapply room_weaken|].
  destruct b as [x|e].
  - destruct B3 as (E' & C1 & C2 & C3). exists (E ++ E'). split_and!; [by apply acct_app|by apply entries_app|].
    eapply ids_ok_weaken; [done|]. cbn. intros i. rewrite fmap_app, elem_of_app. naive_solver.
  - eapply ids_ok_weaken; [done|]. cbn. auto.
Qed.
End runs.
