(* ===== verification/RocksInv.v ===== *)
(** The invariant of the RocksDB engine's tables, and its preservation by every operation
    that changes them. *)

From S2P Require Import Prelude Bytes Backend Listing Multipart Codec CodecProofs CodecKeys MetaUtil RocksDb RocksMeta RocksLedger RocksProofs.
From Stdlib Require Import ZArith Lia.
From stdpp Require Import base list gmap sets strings sorting relations.
Open Scope lights3_scope.

(** * What the tables hold *)
Definition holders (O P : table) : holding := (data_of_object <$> O) ∪ (data_of_part <$> P).
Definition queued (G : table) (i : Z) : Prop := exists k v, G !! k = Some v /\ i ∈ ref_ids (data_of_reclaim v).

(** What a pack record costs, from the key of the record that owns it. *)
Definition object_ov (k : bytes) : Z := (kPackRecHeaderFixed + blen k)%Z.
Definition part_ov (k : bytes) : Z :=
  (kPackRecHeaderFixed + blen k + 2 + count_digits 10 1 (match part_no_of_key k with Ok n => n | Throw _ => 0 end))%Z.

(** The bytes and records of pack [p] that live records use. *)
Definition ledger_bytes (O P : table) (p : Z) : Z :=
  (ksum (λ k v, pack_bytes p (object_ov k) (data_of_object v)) O + ksum (λ k v, pack_bytes p (part_ov k) (data_of_part v)) P)%Z.
Definition ledger_recs (O P : table) (p : Z) : Z :=
  (ksum (λ _ v, pack_recs p (data_of_object v)) O + ksum (λ _ v, pack_recs p (data_of_part v)) P)%Z.
Definition stored_extents (O P : table) : Z :=
  (ksum (λ _ v, Z.of_nat (length (data_of_object v))) O + ksum (λ _ v, Z.of_nat (length (data_of_part v))) P)%Z.

Definition objects_ok (O : table) : Prop :=
  map_Forall (λ k v, (exists b o, object_key b o = Ok k) /\ object_value v) O.
Definition parts_ok (P : table) : Prop :=
  map_Forall (λ k v, (exists b o id n, is_u16 n /\ part_key b o id n = Ok k) /\ part_value v) P.
Definition uploads_ok (U : table) : Prop := map_Forall (λ _ v, upload_value v) U.
Definition queue_ok (G : table) : Prop := be64_keys G /\ map_Forall (λ _ v, reclaim_value v) G.

(** ** Facts *)
Lemma keys_disjoint O P k : objects_ok O -> parts_ok P -> is_Some (O !! k) -> P !! k = None.
Proof.
  intros HO HP [v Hv]. destruct (HO k v Hv) as [(b & o & Ho) _]. destruct (P !! k) as [w|] eqn:E; [|done].
  destruct (HP k w E) as [(b' & o' & id & n & _ & Hp) _]. by destruct (object_part_key b o b' o' id n k).
Qed.

Lemma holders_object O P k v : O !! k = Some v -> holders O P !! k = Some (data_of_object v).
Proof. intros E. unfold holders. apply lookup_union_Some_l. by rewrite lookup_fmap, E. Qed.
Lemma holders_part O P k v : O !! k = None -> P !! k = Some v -> holders O P !! k = Some (data_of_part v).
Proof. intros E1 E2. unfold holders. rewrite lookup_union_r; by rewrite lookup_fmap, ?E1, ?E2. Qed.

Lemma holders_insert_object O P k v : holders (<[k:=v]> O) P = <[k:=data_of_object v]> (holders O P).
Proof. unfold holders. by rewrite fmap_insert, insert_union_l. Qed.
Lemma holders_insert_part O P k v : O !! k = None -> holders O (<[k:=v]> P) = <[k:=data_of_part v]> (holders O P).
Proof. intros E. unfold holders. by rewrite fmap_insert, insert_union_r by (by rewrite lookup_fmap, E). Qed.
Lemma holders_delete_object O P k : P !! k = None -> holders (delete k O) P = delete k (holders O P).
Proof.
  intros E. unfold holders. rewrite delete_union, fmap_delete. f_equal.
  by rewrite (delete_id (data_of_part <$> P)) by (by rewrite lookup_fmap, E).
Qed.
(** Parts that leave. *)
Lemma holders_without O P ks : (forall k, k ∈ ks -> O !! k = None) -> holders O (without ks P) = without ks (holders O P).
Proof.
  intros Hks. apply map_eq. intros i. apply option_eq. intros x. unfold holders, without.
  rewrite map_lookup_filter_Some, !lookup_union, !lookup_fmap. cbn.
  destruct (O !! i) as [v|] eqn:EO; cbn.
  - rewrite !union_Some_l. split; [|by intros [-> _]]. intros ->. split; [done|]. intros Hi. by rewrite (Hks i Hi) in EO.
  - rewrite !(left_id_L None (∪)). destruct (decide (i ∈ ks)) as [Hi|Hi].
    + assert (base.filter (λ kv, kv.1 ∉ ks) P !! i = None) as ->; [|naive_solver].
      apply map_lookup_filter_None. right. naive_solver.
    + assert (base.filter (λ kv, kv.1 ∉ ks) P !! i = P !! i) as ->; [|naive_solver].
      destruct (P !! i) eqn:EP; [by apply map_lookup_filter_Some|]. apply map_lookup_filter_None. by left.
Qed.

Lemma holders_wf O P : objects_ok O -> parts_ok P -> map_Forall (λ _ d, wf_data d) (holders O P).
Proof.
  intros HO HP k d. unfold holders. rewrite lookup_union, !lookup_fmap. destruct (O !! k) as [v|] eqn:E; cbn.
  - rewrite union_Some_l. intros [= <-]. by apply data_of_object_wf, (HO k).
  - rewrite (left_id_L None (∪)). destruct (P !! k) as [v|] eqn:E'; cbn; [|done]. intros [= <-]. by apply data_of_part_wf, (HP k).
Qed.

Lemma object_ov_eq b k s : object_key b k = Ok s -> pack_rec_overhead b k = object_ov s.
Proof. intros (_ & _ & ->)%object_key_Ok. unfold pack_rec_overhead, object_ov, blen. rewrite !length_app. cbn. lia. Qed.
Lemma part_ov_eq b k id n s : is_u16 n -> part_key b k id n = Ok s -> pack_rec_overhead_part b k id n = part_ov s.
Proof.
  intros Hn (_ & _ & _ & ->)%part_key_Ok. unfold pack_rec_overhead_part, part_ov, blen.
  assert (part_no_of_key (b ++ [nul] ++ k ++ [nul] ++ id ++ [nul] ++ [zb (Z.shiftr n 8); zb n]) = Ok n) as ->.
  { rewrite <- (part_no_of_part_key n (b ++ [nul] ++ k ++ [nul] ++ id)) by done. f_equal. by rewrite <- !app_assoc. }
  rewrite !length_app. cbn [length]. lia.
Qed.

Lemma queued_puts E G i :
  (forall j, j ∈ E.*1 -> is_u64 j /\ G !! be64_key j = None) -> NoDup E.*1 ->
  queued (apply_ops (gputs E) G) i <-> queued G i \/ i ∈ ref_ids (concat (data_of_reclaim <$> E.*2)).
Proof.
  revert G. induction E as [|[j v] E IH]; intros G HE Hn; cbn [fmap list_fmap fst snd gputs concat].
  { cbn. set_solver. }
  cbn in Hn. apply list.NoDup_cons in Hn as [Hj Hn]. destruct (HE j ltac:(left)) as [Hju Hjn].
  rewrite apply_ops_cons. cbn [apply_op]. fold (gputs E). rewrite IH; [| |done].
  - change (concat (data_of_reclaim v :: ?x)) with (data_of_reclaim v ++ concat x). rewrite ref_ids_app, elem_of_union.
    assert (queued (<[be64_key j := v]> G) i <-> i ∈ ref_ids (data_of_reclaim v) \/ queued G i) as ->; [|tauto].
    unfold queued. split.
    + intros (k & w & Hk & Hi). apply lookup_insert_Some in Hk as [[<- <-]|[_ Hk]]; eauto.
    + intros [Hi|(k & w & Hk & Hi)]; [exists (be64_key j), v; by rewrite lookup_insert_eq|]. exists k, w.
      rewrite lookup_insert_ne; [done|]. intros <-. by rewrite Hjn in Hk.
  - intros j' Hj'. destruct (HE j' ltac:(by right)) as [Hu Hnone]. split; [done|]. rewrite lookup_insert_ne; [done|].
    intros Ek%be64_key_inj; [|done|done]. by subst.
Qed.

Lemma queue_puts E G : (forall j, j ∈ E.*1 -> is_u64 j) -> Forall reclaim_value E.*2 -> queue_ok G -> queue_ok (apply_ops (gputs E) G).
Proof.
  revert G. induction E as [|[j v] E IH]; intros G HE Hv HG; [done|]. cbn in Hv. apply list.Forall_cons in Hv as [Hv Hvs].
  cbn [gputs fmap list_fmap fst snd]. rewrite apply_ops_cons. cbn [apply_op]. fold (gputs E). apply IH; [|done|].
  - intros i Hi. apply HE. by right.
  - destruct HG as [H1 H2]. split; [|by apply map_Forall_insert_2]. intros k [<-|Hk]%lookup_insert_is_Some'; [|by apply H1].
    exists j. split; [|done]. apply HE. by left.
Qed.

Lemma gputs_used E G i w :
  (forall j, j ∈ E.*1 -> is_u64 j) -> is_u64 i -> apply_ops (gputs E) G !! be64_key i = Some w ->
  G !! be64_key i = Some w \/ i ∈ E.*1.
Proof.
  intros HE Hu. revert G. induction E as [|[j v] E IH]; intros G Hsome; [by left|].
  cbn [gputs fmap list_fmap fst snd] in Hsome |- *. rewrite apply_ops_cons in Hsome. fold (gputs E) in Hsome.
  apply IH in Hsome as [Hsome|Hin]; [|right; by right|intros j' Hj'; apply HE; by right]. cbn [apply_op] in Hsome.
  apply lookup_insert_Some in Hsome as [[Ej _]|[_ Hs]]; [|by left]. right.
  assert (j = i) as -> by (apply be64_key_inj; [apply HE; by left|done|done]). by left.
Qed.

(** The chunk files and the pack files ever allocated. *)
Record Issued := mkIssued { chunks : gset Z; packs : gset Z }.

(** A bound that the numbers of new queue entries respect. *)
Class Passed := passed : Z.

Section inv.
Context {DB : Type} {rocks : RocksDB DB} {law : RocksLaw DB} {bound : Passed}.
Abbreviation M := (ST (Meta DB) S3ErrorCode).
Implicit Types (s : Meta DB) (issued : Issued) (writers : gset Z).

(** Numbers no new entry may get: those in the queue and those below [passed]. *)
Definition seq_used (G : table) (i : Z) : Prop := is_u64 i /\ (is_Some (G !! be64_key i) \/ (i < passed)%Z).
(** Entries stay as they are, and new ones are numbered from [passed] on. *)
Definition queue_grows (G G' : table) : Prop :=
  forall i v, is_u64 i -> G' !! be64_key i = Some v -> G !! be64_key i = Some v \/ (passed <= i)%Z.

(** * The invariant

    [issued] are the files ever allocated, [writers] the chunk files still in the hands
    of a writer that has not committed. *)
Record minv (s : Meta DB) (issued : Issued) (writers : gset Z) : Prop := mkMinv {
  mi_objects : objects_ok (tab s kObjects);
  mi_parts : parts_ok (tab s kParts);
  mi_uploads : uploads_ok (tab s kUploads);
  mi_queue : queue_ok (tab s kGcq);
  mi_refs : refs_inv (holders (tab s kObjects) (tab s kParts)) (tab s kRefs);
  mi_bytes : forall p, is_u64 p ->
    stat (tab s kStats) (pack_stat_key p (ch "b")) ≡₆₄ ledger_bytes (tab s kObjects) (tab s kParts) p;
  mi_recs : forall p, is_u64 p ->
    stat (tab s kStats) (pack_stat_key p (ch "r")) ≡₆₄ ledger_recs (tab s kObjects) (tab s kParts) p;
  mi_seq : ids_ok s CSeq (seq_used (tab s kGcq));
  mi_chunk : ids_ok s CChunk (λ i, i ∈ chunks issued);
  mi_writers : writers ⊆ chunks issued;
  mi_held : forall i, held (holders (tab s kObjects) (tab s kParts)) i -> i ∈ chunks issued /\ i ∉ writers;
  mi_queued : forall i, queued (tab s kGcq) i ->
    i ∈ chunks issued /\ i ∉ writers /\ ~ held (holders (tab s kObjects) (tab s kParts)) i;
  mi_pack : ids_ok s CPack (λ i, i ∈ packs issued) }.

Definition live (s : Meta DB) (i : Z) : Prop := held (holders (tab s kObjects) (tab s kParts)) i.

(** Where a file may be: with a writer, in a live record, or in the queue. *)
Definition tracked (s : Meta DB) (writers : gset Z) (i : Z) : Prop := i ∈ writers \/ live s i \/ queued (tab s kGcq) i.
(** No file is lost sight of, no file comes to life but from a writer, and the queue
    grows at its end. *)
Definition keeps (s : Meta DB) (writers : gset Z) (s' : Meta DB) (writers' : gset Z) : Prop :=
  (forall i, tracked s writers i -> tracked s' writers' i) /\
  (forall i, live s' i \/ i ∈ writers' -> live s i \/ i ∈ writers) /\
  queue_grows (tab s kGcq) (tab s' kGcq).

Lemma keeps_same s s' writers :
  (forall c, c = kObjects \/ c = kParts \/ c = kGcq -> tab s' c = tab s c) -> keeps s writers s' writers.
Proof. intros E. split_and!; [intros i; unfold tracked, live; by rewrite !E by auto..|]. intros i v _. rewrite E by auto. auto. Qed.
Lemma keeps_refl s writers : keeps s writers s writers.
Proof. by apply keeps_same. Qed.
Lemma inv_refl s issued writers : minv s issued writers -> minv s issued writers /\ keeps s writers s writers.
Proof. intros Hi. split; [done|apply keeps_refl]. Qed.
Lemma keeps_trans s1 w1 s2 w2 s3 w3 : keeps s1 w1 s2 w2 -> keeps s2 w2 s3 w3 -> keeps s1 w1 s3 w3.
Proof.
  intros (H1 & G1 & K1) (H2 & G2 & K2). split_and!; [intros i Hi; by apply H2, H1|intros i Hi; by apply G1, G2|].
  intros i v Hu [Hv|?]%(K2 i v Hu); [by apply K1|by right].
Qed.

Lemma cstat_other s s' c c' :
  (forall k, k <> counter_key c -> tab s' kStats !! k = tab s kStats !! k) -> c <> c' -> cstat s' c' = cstat s c'.
Proof. intros Hk Hne. unfold cstat, stat. rewrite Hk; [done|]. intros E%counter_key_inj. by subst. Qed.

Lemma ids_ok_same s s' c used :
  ids_ok s c used -> range c s' = range c s -> cstat s' c = cstat s c -> ids_ok s' c used.
Proof. intros [R1 R2 R3 R4] Er Es. split; rewrite ?Er, ?Es; done. Qed.

Lemma stat_other s s' c p f :
  (forall k, k <> counter_key c -> tab s' kStats !! k = tab s kStats !! k) ->
  stat (tab s' kStats) (pack_stat_key p f) = stat (tab s kStats) (pack_stat_key p f).
Proof. intros Hk. unfold stat. rewrite Hk; [done|]. apply pack_stat_not_counter. Qed.

(** Only the sequence counter moved, as when an operation throws. *)
Lemma minv_only_counter s s' issued writers :
  minv s issued writers -> only_counter CSeq s s' -> ids_ok s' CSeq (seq_used (tab s kGcq)) -> minv s' issued writers.
Proof.
  intros [I1 I2 I3 I4 I5 I6 I7 I8 I9 I10 I11 I12 I13] [O1 O2 O3] Hs.
  split; rewrite ?(O1 kObjects), ?(O1 kParts), ?(O1 kUploads), ?(O1 kGcq), ?(O1 kRefs) by done; try done.
  - intros p Hp. rewrite (stat_other s s' CSeq) by done. auto.
  - intros p Hp. rewrite (stat_other s s' CSeq) by done. auto.
  - eapply ids_ok_same; [done|by apply O3|]. by apply (cstat_other s s' CSeq).
  - eapply ids_ok_same; [done|by apply O3|]. by apply (cstat_other s s' CSeq).
Qed.

(** A committed batch: [front] on the records, [ops] on the accounts. *)
Lemma minv_commit s s1 s' issued writers writers' front ops E refs db dr es :
  minv s issued writers -> only_counter CSeq s s1 -> ids_ok s1 CSeq (λ i, seq_used (tab s kGcq) i \/ i ∈ E.*1) ->
  applied (front ++ ops) s1 s' -> acct ops E refs db dr -> entries_for E (seq_used (tab s kGcq)) es ->
  on_cf kGcq front = [] -> on_cf kRefs front = [] -> on_cf kStats front = [] ->
  let O' := apply_ops (on_cf kObjects front) (tab s kObjects) in
  let P' := apply_ops (on_cf kParts front) (tab s kParts) in
  objects_ok O' -> parts_ok P' -> uploads_ok (apply_ops (on_cf kUploads front) (tab s kUploads)) ->
  refs_inv (holders O' P') (apply_ops refs (tab s kRefs)) ->
  (forall p, ledger_bytes O' P' p = ledger_bytes (tab s kObjects) (tab s kParts) p + db p)%Z ->
  (forall p, ledger_recs O' P' p = ledger_recs (tab s kObjects) (tab s kParts) p + dr p)%Z ->
  (forall i, i ∈ ref_ids es -> live s i /\ ~ held (holders O' P') i) ->
  (forall i, held (holders O' P') i -> (live s i \/ i ∈ writers) /\ i ∉ writers') -> writers' ⊆ writers ->
  (forall i, live s i -> held (holders O' P') i \/ i ∈ ref_ids es) ->
  (forall i, i ∈ writers -> i ∈ writers' \/ held (holders O' P') i) ->
  minv s' issued writers' /\ keeps s writers s' writers'.
Proof.
  intros [I1 I2 I3 I4 I5 I6 I7 I8 I9 I10 I11 I12 I13] [O1 O2 O3] Hs [Ht Hr] [A1 A2 A3 A4] HE F1 F2 F3 O' P' HO HP HU HR HB HC Hq Hh Hw K1 K2.
  assert (tab s' kObjects = O') as EO by (rewrite Ht, on_cf_app, A4, app_nil_r, O1; done).
  assert (tab s' kParts = P') as EP by (rewrite Ht, on_cf_app, A4, app_nil_r, O1; done).
  assert (tab s' kUploads = apply_ops (on_cf kUploads front) (tab s kUploads)) as EU by (rewrite Ht, on_cf_app, A4, app_nil_r, O1; done).
  assert (tab s' kGcq = apply_ops (gputs E) (tab s kGcq)) as EG by (rewrite Ht, on_cf_app, F1, A1, O1; done).
  assert (tab s' kRefs = apply_ops refs (tab s kRefs)) as ER by (rewrite Ht, on_cf_app, F2, A2, O1; done).
  assert (tab s' kStats = apply_ops (on_cf kStats ops) (tab s1 kStats)) as ES by (rewrite Ht, on_cf_app, F3; done).
  destruct HE as [E1 E2 E3 E4].
  assert (forall j, j ∈ E.*1 -> is_u64 j /\ tab s kGcq !! be64_key j = None) as HE'.
  { intros j Hj. destruct (E2 j Hj) as [Hu Hn]. split; [done|]. apply eq_None_not_Some. intros Hsome. apply Hn. by split; [|left]. }
  assert (forall c, cstat s' c = cstat s1 c) as Hc.
  { intros c. unfold cstat, stat. rewrite ES, (sd_other _ _ _ A3); [done|]. intros p f Hk. by destruct (pack_stat_not_counter p f c). }
  assert (forall i, queued (tab s' kGcq) i <-> queued (tab s kGcq) i \/ i ∈ ref_ids es) as HQ.
  { intros i. rewrite EG, queued_puts, E4 by done. done. }
  split; [|split_and!; [intros i; unfold tracked, live; rewrite ?HQ, EO, EP; specialize (K1 i); specialize (K2 i); specialize (Hh i); specialize (Hw i);
    unfold live in *; tauto..|]].
  2: { intros i v Hu Hv. rewrite EG in Hv. apply gputs_used in Hv as [Hv|Hin]; [by left| |intros j Hj; by apply HE'|done].
       right. destruct (E2 i Hin) as [_ Hn]. destruct (Z.lt_ge_cases i passed); [|done]. destruct Hn. split; auto. }
  split; rewrite ?EO, ?EP, ?EU, ?ER; try done.
  - rewrite EG. apply queue_puts; [|done|done]. intros j Hj. by apply HE'.
  - intros p Hp. rewrite ES, (sd_bytes _ _ _ A3) by done. rewrite (stat_other s s1 CSeq) by done. rewrite HB. by rewrite I6.
  - intros p Hp. rewrite ES, (sd_recs _ _ _ A3) by done. rewrite (stat_other s s1 CSeq) by done. rewrite HC. by rewrite I7.
  - eapply ids_ok_same; [|apply Hr|apply Hc]. eapply ids_ok_weaken; [done|]. cbn. intros i [Hu [[v Hv]|Hlt]]; [|left; split; auto]. rewrite EG in Hv.
    destruct (gputs_used E (tab s kGcq) i v (λ j Hj, proj1 (HE' j Hj)) Hu Hv); [left; split; eauto|by right].
  - eapply ids_ok_same; [done|rewrite Hr; by apply O3|rewrite Hc; by apply (cstat_other s s1 CSeq)].
  - set_solver.
  - intros i Hi. destruct (Hh i Hi) as [[Hl|Hwi] Hn]; [|set_solver]. destruct (I11 i Hl). done.
  - intros i [Hqi|Hi]%HQ.
    + destruct (I12 i Hqi) as (? & ? & Hnl). split_and!; [done|set_solver|]. intros Hi. destruct (Hh i Hi) as [[|] _]; done.
    + destruct (Hq i Hi) as [Hl Hn]. destruct (I11 i Hl). split_and!; [done|set_solver|done].
  - eapply ids_ok_same; [done|rewrite Hr; by apply O3|rewrite Hc; by apply (cstat_other s s1 CSeq)].
Qed.

(** * What an operation reads *)
Lemma holders_at_object O P b k okey :
  parts_ok P -> object_key b k = Ok okey -> holders O P !! okey = data_of_object <$> O !! okey.
Proof.
  intros HP Hk. destruct (O !! okey) as [v|] eqn:E; [by apply holders_object|]. cbn.
  unfold holders. rewrite lookup_union_r by (by rewrite lookup_fmap, E). rewrite lookup_fmap.
  destruct (P !! okey) as [w|] eqn:EP; [|done]. destruct (HP okey w EP) as [(b' & o' & id & n & _ & Hp) _].
  by destruct (object_part_key b k b' o' id n okey).
Qed.
Lemma holders_at_part O P b k id n pkey :
  objects_ok O -> part_key b k id n = Ok pkey -> O !! pkey = None /\ holders O P !! pkey = data_of_part <$> P !! pkey.
Proof.
  intros HO Hk. assert (O !! pkey = None) as E.
  { destruct (O !! pkey) as [w|] eqn:EO; [|done]. destruct (HO pkey w EO) as [(b' & o' & Hp) _].
    by destruct (object_part_key b' o' b k id n pkey). }
  split; [done|]. unfold holders. rewrite lookup_union_r by (by rewrite lookup_fmap, E). by rewrite lookup_fmap.
Qed.

Lemma read_old_object O k okey :
  objects_ok O -> exists old, opt_decode (decode_object k) (O !! okey) = Ok old /\
    or_data <$> old = data_of_object <$> O !! okey /\ (forall r, old = Some r -> object_rec_ok r).
Proof.
  intros HO. destruct (O !! okey) as [v|] eqn:E; [|by exists None].
  destruct (HO okey v E) as [_ (r & Hr & Hok & Hd)%(λ H, object_value_read v k H)]. exists (Some r). cbn. rewrite Hr, Hd.
  split_and!; [done|done|]. by intros ? [= <-].
Qed.
Lemma read_old_part P n pkey :
  parts_ok P -> exists old, opt_decode (decode_part n) (P !! pkey) = Ok old /\ pr_data <$> old = data_of_part <$> P !! pkey.
Proof.
  intros HP. destruct (P !! pkey) as [v|] eqn:E; [|by exists None].
  destruct (HP pkey v E) as [_ (r & Hr & _ & Hd & _)%(λ H, part_value_read v n H)]. exists (Some r). cbn. by rewrite Hr, Hd.
Qed.

Lemma held_at H o d i : H !! o = Some d -> i ∈ ref_ids d -> held H i.
Proof. intros. by exists o, d. Qed.

(** * Old data gives way *)
Lemma drop_opt_run (opt : option DataRef) now reason ov s o s' used k :
  wf_data (default [] opt) -> is_i64 now -> ids_ok s CSeq used ->
  room s CSeq (Z.of_nat (length (default [] opt)) + k) -> (0 <= k)%Z ->
  (match opt with Some d => drop_data now d reason ov | None => mret [] end) s = (o, s') ->
  acct_run s s' o used k (default [] opt) (batch_refs (default [] opt) false [])
    (λ p, - pack_bytes p ov (default [] opt))%Z (λ p, - pack_recs p (default [] opt))%Z.
Proof.
  intros Hw Hn Hids Hroom Hk E. destruct opt as [d|]; [by eapply drop_data_run|]. apply mret_run in E as [-> ->].
  split_and!; [apply only_counter_refl|done|]. exists []. split_and!; [apply acct_nil|apply entries_nil|].
  eapply ids_ok_weaken; [done|]. intros i [?|Hi]; [done|by apply not_elem_of_nil in Hi].
Qed.

Lemma stored_object O P k v :
  O !! k = Some v -> (Z.of_nat (length (data_of_object v)) <= stored_extents O P)%Z.
Proof.
  intros E. pose proof (ksum_lookup (λ _ v, Z.of_nat (length (data_of_object v))) O k ltac:(intros; cbn; lia)) as H1.
  unfold kval in H1. rewrite E in H1.
  pose proof (ksum_nonneg (λ _ v, Z.of_nat (length (data_of_part v))) P ltac:(intros; cbn; lia)). unfold stored_extents. lia.
Qed.
Lemma stored_part O P k v :
  P !! k = Some v -> (Z.of_nat (length (data_of_part v)) <= stored_extents O P)%Z.
Proof.
  intros E. pose proof (ksum_lookup (λ _ v, Z.of_nat (length (data_of_part v))) P k ltac:(intros; cbn; lia)) as H1.
  unfold kval in H1. rewrite E in H1.
  pose proof (ksum_nonneg (λ _ v, Z.of_nat (length (data_of_object v))) O ltac:(intros; cbn; lia)). unfold stored_extents. lia.
Qed.
Lemma stored_nonneg O P : (0 <= stored_extents O P)%Z.
Proof.
  pose proof (ksum_nonneg (λ _ v, Z.of_nat (length (data_of_object v))) O ltac:(intros; cbn; lia)).
  pose proof (ksum_nonneg (λ _ v, Z.of_nat (length (data_of_part v))) P ltac:(intros; cbn; lia)). unfold stored_extents. lia.
Qed.

(** ** Steps of an operation that leave the state alone *)
Definition stopped {A} (o : result A) (s s' : Meta DB) : Prop := s' = s /\ exists e, o = Throw e.

Lemma get_raw_bind {A} c k (f : option bytes -> M A) s o s' :
  (get_raw c k ≫= f) s = (o, s') -> stopped o s s' \/ f (tab s c !! k) s = (o, s').
Proof.
  intros [(v & s1 & [-> Hv]%get_raw_run & E)|(e & [-> _]%get_raw_run & ->)]%ST_bind_run; [|left; split; eauto].
  right. by rewrite <- (Hv v eq_refl).
Qed.
Lemma items_bind {A} c (f : list (bytes * bytes) -> M A) s o s' :
  (items c ≫= f) s = (o, s') -> stopped o s s' \/ f (map_items bytes_le (tab s c)) s = (o, s').
Proof.
  intros [(v & s1 & [-> Hv]%items_run & E)|(e & [-> _]%items_run & ->)]%ST_bind_run; [|left; split; eauto].
  right. by rewrite <- (Hv v eq_refl).
Qed.
Lemma lift_bind {A B} (r : result A) (f : A -> M B) s o s' :
  (lift r ≫= f) s = (o, s') -> stopped o s s' \/ exists a, r = Ok a /\ f a s = (o, s').
Proof.
  intros [(v & s1 & [Hv ->]%lift_run & E)|(e & [_ ->]%lift_run & ->)]%ST_bind_run; [|left; split; eauto].
  right. by exists v.
Qed.
Lemma require_bucket_bind {A} b (f : unit -> M A) s o s' :
  (require_bucket_locked b ≫= f) s = (o, s') -> stopped o s s' \/ (is_Some (tab s kBuckets !! b) /\ f tt s = (o, s')).
Proof.
  intros [(v & s1 & Hr & E)|(e & Hr & ->)]%ST_bind_run; unfold require_bucket_locked in Hr; apply get_raw_bind in Hr as [[-> [e' Hr]]|Hr].
  - done.
  - apply lift_run in Hr as [Hr ->]. destruct v. symmetry in Hr. apply throw_if_Ok, negb_false_iff, bool_decide_eq_true in Hr. auto.
  - left. split; eauto.
  - apply lift_run in Hr as [_ ->]. left. split; eauto.
Qed.
Lemma commit_bind {A} ops (f : unit -> M A) s o s' :
  (commit ops ≫= f) s = (o, s') -> stopped o s s' \/ exists s1, applied ops s s1 /\ f tt s1 = (o, s').
Proof.
  intros [(v & s1 & Hr%commit_run & E)|(e & Hr%commit_run & ->)]%ST_bind_run; [|left; split; eauto].
  right. destruct v. by exists s1.
Qed.

(** Enough sequence numbers for one queue entry per stored extent. *)
Definition ample (s : Meta DB) : Prop := room s CSeq (stored_extents (tab s kObjects) (tab s kParts)).

(** The outcome of an operation that throws: no table changed but the sequence counter. *)
Definition threw (s s' : Meta DB) : Prop := only_counter CSeq s s' /\ ids_ok s' CSeq (seq_used (tab s kGcq)).

Lemma stopped_threw {A} (o : result A) s s' issued writers : minv s issued writers -> stopped o s s' -> threw s s' /\ exists e, o = Throw e.
Proof. intros Hi [-> He]. split; [|done]. split; [apply only_counter_refl|apply Hi]. Qed.

(** A committed change of records with its accounts. *)
Definition committed (s s' : Meta DB) (front refs : list BatchOp) (es : DataRef) (db dr : Z -> Z) : Prop :=
  exists s1 ops E, only_counter CSeq s s1 /\ ids_ok s1 CSeq (λ i, seq_used (tab s kGcq) i \/ i ∈ E.*1) /\
    applied (front ++ ops) s1 s' /\ acct ops E refs db dr /\ entries_for E (seq_used (tab s kGcq)) es.

Lemma put_object_run b k rec cond now s o s' issued writers :
  minv s issued writers -> ample s -> is_i64 now -> wf_data (or_data rec) ->
  put_object b k rec cond now s = (o, s') ->
  (threw s s' /\ exists e, o = Throw e) \/
  (o = Ok tt /\ exists okey old enc, object_key b k = Ok okey /\ is_Some (tab s kBuckets !! b) /\
    opt_decode (decode_object k) (tab s kObjects !! okey) = Ok old /\ check_put_condition cond old = Ok tt /\
    encode_object (set_version (next_version old) rec) = Ok enc /\
    let d := default [] (data_of_object <$> tab s kObjects !! okey) in
    committed s s' [BPut kObjects okey enc] (batch_refs (or_data rec) true okey ++ batch_refs d false []) d
      (λ p, pack_bytes p (object_ov okey) (or_data rec) - pack_bytes p (object_ov okey) d)%Z
      (λ p, pack_recs p (or_data rec) - pack_recs p d)%Z).
Proof.
  intros Hi Ham Hnow Hwf E. pose proof (stopped_threw o s s' _ _ Hi) as Hstop. unfold put_object in E.
  apply require_bucket_bind in E as [?|[Hb E]]; [by left; auto|]. apply lift_bind in E as [?|(okey & Hk & E)]; [by left; auto|].
  apply get_raw_bind in E as [?|E]; [by left; auto|].
  destruct (read_old_object (tab s kObjects) k okey (mi_objects _ _ _ Hi)) as (old & Hold & Hdata & _).
  rewrite Hold in E. apply lift_bind in E as [?|(? & [= <-] & E)]; [by left; auto|].
  apply lift_bind in E as [?|([] & Hc & E)]; [by left; auto|]. apply lift_bind in E as [?|(enc & Henc & E)]; [by left; auto|].
  rewrite (object_ov_eq b k okey Hk) in E.
  destruct (batch_pack_delta_spec (or_data rec) 1 (object_ov okey) Hwf) as (pd & Hpd & Hd). rewrite Hpd in E.
  apply lift_bind in E as [?|(? & [= <-] & E)]; [by left; auto|].
  set (d := default [] (data_of_object <$> tab s kObjects !! okey)).
  assert (wf_data d /\ (Z.of_nat (length d) <= stored_extents (tab s kObjects) (tab s kParts))%Z) as [Hdw Hdl].
  { unfold d. destruct (tab s kObjects !! okey) as [v|] eqn:Ev; cbn; [|split; [constructor|apply stored_nonneg]].
    split; [by apply data_of_object_wf, (mi_objects _ _ _ Hi okey)|by apply (stored_object _ _ okey)]. }
  apply ST_bind_run in E as [(drops & s1 & Hdr & E)|(e & Hdr & ->)].
  all: assert ((match or_data <$> old with Some d => drop_data now d kOverwrite (object_ov okey) | None => mret [] end) s = (_, _)) as Hdr'
    by (rewrite <- Hdr; by destruct old); rewrite Hdata in Hdr'; fold d in Hdr'.
  all: destruct (drop_opt_run _ now kOverwrite (object_ov okey) s _ _ (seq_used (tab s kGcq)) 0 Hdw Hnow (mi_seq _ _ _ Hi)
    ltac:(eapply room_weaken; [exact Ham|fold d; lia]) ltac:(lia) Hdr') as (A1 & A2 & A3).
  2: { left. split; [by split|by eexists]. }
  destruct A3 as (En & B1 & B2 & B3). apply commit_run in E. destruct o as [[]|e].
  2: { left. subst s'. split; [|by eexists]. split; [done|]. eapply ids_ok_weaken; [done|]. cbn. auto. }
  right. split; [done|]. exists okey, old, enc. split_and!; try done. fold d.
  exists s1, (batch_refs (or_data rec) true okey ++ pd ++ drops), En. split_and!; [done|done|done| |done].
  eapply acct_ext; [apply (acct_app _ _ [] En); [apply acct_of_refs|apply (acct_app _ _ [] En []); [by apply acct_of_stats|exact B1]]| |];
    intros p; cbv beta; fold d; lia.
Qed.

(** ** Writers' files become live, the old ones are queued *)
Lemma put_held H R o d writers :
  refs_inv H R -> ref_ids d ⊆ writers -> (forall i, held H i -> i ∉ writers) ->
  (forall i, i ∈ ref_ids (default [] (H !! o)) -> held H i /\ ~ held (<[o:=d]> H) i) /\
  (forall i, held (<[o:=d]> H) i -> (held H i \/ i ∈ writers) /\ i ∉ writers ∖ ref_ids d) /\
  (forall i, held H i -> held (<[o:=d]> H) i \/ i ∈ ref_ids (default [] (H !! o))) /\
  (forall i, i ∈ writers -> i ∈ writers ∖ ref_ids d \/ held (<[o:=d]> H) i).
Proof.
  intros Hr Hd Hw. split_and!.
  - intros i Hi. destruct (H !! o) as [old|] eqn:E; cbn in Hi; [|set_solver]. assert (held H i) as Hh by (by exists o, old).
    split; [done|]. intros (o' & d' & Ho' & Hi'). apply lookup_insert_Some in Ho' as [[<- <-]|[Hne Ho']].
    + apply (Hw i); [done|]. by apply Hd.
    + by apply Hne, (refs_excl H R i o o' old d').
  - intros i (o' & d' & Ho' & Hi'). apply lookup_insert_Some in Ho' as [[<- <-]|[Hne Ho']]; [set_solver|].
    assert (held H i) as Hh by (by exists o', d'). specialize (Hw i Hh). set_solver.
  - intros i (o' & d' & Ho' & Hi'). destruct (decide (o = o')) as [<-|Hne]; [right; by rewrite Ho'|].
    left. exists o', d'. by rewrite lookup_insert_ne.
  - intros i Hi. destruct (decide (i ∈ ref_ids d)); [right; exists o, d; by rewrite lookup_insert_eq|left; set_solver].
Qed.

Lemma pack_bytes_nil p ov : pack_bytes p ov [] = 0%Z.
Proof. done. Qed.
Lemma pack_recs_nil p : pack_recs p [] = 0%Z.
Proof. done. Qed.

Lemma ledger_put_object O P okey enc d p :
  d = default [] (data_of_object <$> O !! okey) ->
  ledger_bytes (<[okey:=enc]> O) P p = (ledger_bytes O P p + (pack_bytes p (object_ov okey) (data_of_object enc) - pack_bytes p (object_ov okey) d))%Z /\
  ledger_recs (<[okey:=enc]> O) P p = (ledger_recs O P p + (pack_recs p (data_of_object enc) - pack_recs p d))%Z.
Proof.
  intros ->. unfold ledger_bytes, ledger_recs. rewrite !ksum_insert. unfold kval. destruct (O !! okey); cbn [fmap option_fmap option_map default from_option id]; rewrite ?pack_bytes_nil, ?pack_recs_nil; lia.
Qed.
Lemma ledger_put_part O P pkey enc d p :
  d = default [] (data_of_part <$> P !! pkey) ->
  ledger_bytes O (<[pkey:=enc]> P) p = (ledger_bytes O P p + (pack_bytes p (part_ov pkey) (data_of_part enc) - pack_bytes p (part_ov pkey) d))%Z /\
  ledger_recs O (<[pkey:=enc]> P) p = (ledger_recs O P p + (pack_recs p (data_of_part enc) - pack_recs p d))%Z.
Proof.
  intros ->. unfold ledger_bytes, ledger_recs. rewrite !ksum_insert. unfold kval. destruct (P !! pkey); cbn [fmap option_fmap option_map default from_option id]; rewrite ?pack_bytes_nil, ?pack_recs_nil; lia.
Qed.

Lemma minv_threw s s' issued writers :
  minv s issued writers -> threw s s' -> minv s' issued writers /\ keeps s writers s' writers.
Proof.
  intros Hi [Ho Hids]. split; [by eapply minv_only_counter|]. apply keeps_same.
  intros c Hc. apply (oc_tab _ _ _ Ho). by destruct Hc as [->|[->| ->]].
Qed.
Lemma minv_stopped {A} (o : result A) s s' issued writers :
  minv s issued writers -> stopped o s s' -> minv s' issued writers /\ keeps s writers s' writers.
Proof. intros Hi [-> _]. split; [done|apply keeps_refl]. Qed.

(** What remains with the writers after an operation that takes [d] from them. *)
Definition left_over {A} (o : result A) (d : DataRef) (writers : gset Z) : gset Z :=
  match o with Ok _ => writers ∖ ref_ids d | Throw _ => writers end.

Lemma set_version_ok v r : is_u64 v -> object_rec_ok r -> object_rec_ok (set_version v r).
Proof. intros Hv (H1 & H2 & H3 & H4 & H5 & H6). by split_and!. Qed.
Lemma next_version_u64 old : is_u64 (next_version old).
Proof. destruct old; [apply u64_range|done]. Qed.

Lemma put_object_inv b k rec cond now s o s' issued writers :
  minv s issued writers -> ample s -> is_i64 now -> object_rec_ok rec -> ref_ids (or_data rec) ⊆ writers ->
  put_object b k rec cond now s = (o, s') ->
  minv s' issued (left_over o (or_data rec) writers) /\ keeps s writers s' (left_over o (or_data rec) writers).
Proof.
  intros Hi Ham Hnow Hok Hw E. assert (wf_data (or_data rec)) as Hwf by apply Hok.
  destruct (put_object_run _ _ _ _ _ _ _ _ _ _ Hi Ham Hnow Hwf E) as [[Ht [e ->]]|(-> & okey & old & enc & Hk & _ & _ & _ & Henc & Hc)];
    [by eapply minv_threw|]. cbv zeta in Hc. destruct Hc as (s1 & ops & En & C1 & C2 & C3 & C4 & C5). cbn [left_over].
  destruct (object_value_encode _ _ (set_version_ok _ _ (next_version_u64 old) Hok) Henc) as [Hv Hd]. cbn in Hd.
  set (O := tab s kObjects) in *. set (P := tab s kParts) in *. pose proof (mi_refs _ _ _ Hi) as HR. fold O P in HR.
  pose proof (holders_at_object O P b k okey (mi_parts _ _ _ Hi) Hk) as HH.
  destruct (put_held (holders O P) _ okey (or_data rec) writers HR Hw (λ i Hh, proj2 (mi_held _ _ _ Hi i Hh))) as (HQ & HL & K1 & K2).
  rewrite HH in HQ, K1. eapply (minv_commit s s1 s' issued writers _ _ ops En); [done|done|done|exact C3|exact C4|exact C5|done..| | | | | | | | |set_solver| |].
  all: cbn [on_cf base.filter list_filter op_cf]; rewrite ?decide_True, ?decide_False by done; cbn [apply_ops fold_left apply_op]; fold O P.
  - apply map_Forall_insert_2; [|apply Hi]. split; [by exists b, k|done].
  - apply Hi.
  - apply Hi.
  - rewrite holders_insert_object, Hd, <- HH. apply refs_put; [done|done|]. intros i Hin Hh. by apply (mi_held _ _ _ Hi i Hh), Hw.
  - intros p. rewrite <- Hd. by apply ledger_put_object.
  - intros p. rewrite <- Hd. by apply ledger_put_object.
  - by rewrite holders_insert_object, Hd.
  - by rewrite holders_insert_object, Hd.
  - by rewrite holders_insert_object, Hd.
  - by rewrite holders_insert_object, Hd.
Qed.
End inv.
