(* ===== verification/RocksOps.v ===== *)
(** Preservation of the invariant of the RocksDB engine by its operations: deletion,
    multipart uploads, compaction swaps, write-offs and allocation. *)

From S2P Require Import Prelude Bytes Backend Listing Multipart Codec CodecProofs CodecKeys MetaUtil.
From S2P Require Import RocksDb RocksMeta RocksLedger RocksProofs RocksInv.
From Stdlib Require Import ZArith Lia.
From stdpp Require Import base list gmap sets strings sorting relations.
Open Scope lights3_scope.

Ltac stop := by left; auto.
Ltac eval_batch := cbn [on_cf base.filter list_filter op_cf app]; repeat first [rewrite decide_True by done | rewrite decide_False by done]; cbn [apply_ops fold_left apply_op].

Section ops.
Context {DB : Type} {rocks : RocksDB DB} {law : RocksLaw DB} {bound : Passed}.
Abbreviation M := (ST (Meta DB) S3ErrorCode).
Implicit Types (s : Meta DB) (issued : Issued) (writers : gset Z).

Lemma require_upload_bind {A} b k id (f : UploadRec -> M A) s o s' :
  (require_upload b k id ≫= f) s = (o, s') -> stopped o s s' \/
  exists ukey v u, is_valid_upload_id id = true /\ upload_key b k id = Ok ukey /\ tab s kUploads !! ukey = Some v /\
    decode_upload k id v = Ok u /\ f u s = (o, s').
Proof.
  intros [(u & s1 & Hr & E)|(e & Hr & ->)]%ST_bind_run; unfold require_upload in Hr.
  all: destruct (is_valid_upload_id id) eqn:Ev; cbn [negb] in Hr; [|injection Hr as ? ->].
  all: try done.
  all: try (left; split; by eauto).
  all: apply lift_bind in Hr as [[-> [e' He']]|(ukey & Hk & Hr)]; [try done; left; split; by eauto|].
  all: apply get_raw_bind in Hr as [[-> [e' He']]|Hr]; [try done; left; split; by eauto|].
  all: destruct (tab s kUploads !! ukey) as [v|] eqn:Eu; [apply lift_run in Hr as [Hr ->]|injection Hr as ? ->; try done].
  - right. exists ukey, v, u. by split_and!.
  - left. split; eauto.
  - left. split; eauto.
Qed.

(** * Deleting an object *)
Lemma delete_object_run b k now s o s' issued writers :
  minv s issued writers -> ample s -> is_i64 now -> delete_object b k now s = (o, s') ->
  (threw s s' /\ exists e, o = Throw e) \/
  (o = Ok false /\ s' = s /\ exists okey, object_key b k = Ok okey /\ tab s kObjects !! okey = None) \/
  (o = Ok true /\ exists okey v, object_key b k = Ok okey /\ tab s kObjects !! okey = Some v /\
    let d := data_of_object v in
    committed s s' [BDelete kObjects okey] (batch_refs d false []) d
      (λ p, - pack_bytes p (object_ov okey) d)%Z (λ p, - pack_recs p d)%Z).
Proof.
  intros Hi Ham Hnow E. pose proof (stopped_threw o s s' _ _ Hi) as Hstop. unfold delete_object in E.
  apply require_bucket_bind in E as [?|[Hb E]]; [stop|]. apply lift_bind in E as [?|(okey & Hk & E)]; [stop|].
  apply get_raw_bind in E as [?|E]; [stop|]. destruct (tab s kObjects !! okey) as [v|] eqn:Ev.
  2: { apply mret_run in E as [-> ->]. right. left. eauto. }
  destruct (mi_objects _ _ _ Hi okey v Ev) as [_ Hv]. destruct (object_value_read v k Hv) as (r & Hr & _ & Hd). rewrite Hr in E.
  apply lift_bind in E as [?|(? & [= <-] & E)]; [stop|]. rewrite (object_ov_eq b k okey Hk), Hd in E.
  apply ST_bind_run in E as [(drops & s1 & Hdr & E)|(e & Hdr & ->)].
  all: destruct (drop_data_run now _ kDelete (object_ov okey) s _ _ (seq_used (tab s kGcq)) 0
    (proj1 (data_of_object_wf v Hv)) Hnow (mi_seq _ _ _ Hi)
    ltac:(eapply room_weaken; [exact Ham|pose proof (stored_object _ (tab s kParts) okey v Ev); lia]) ltac:(lia) Hdr) as (A1 & A2 & A3).
  2: { left. split; [by split|by eexists]. }
  destruct A3 as (En & B1 & B2 & B3). apply commit_bind in E as [[-> He]|(s2 & Hap & E)].
  { left. split; [|done]. split; [done|]. eapply ids_ok_weaken; [done|]. cbn. auto. }
  apply mret_run in E as [-> ->]. right. right. split; [done|]. exists okey, v. split_and!; try done.
  by exists s1, drops, En.
Qed.

Lemma delete_held H R o d :
  refs_inv H R -> H !! o = Some d ->
  (forall i, i ∈ ref_ids d -> held H i /\ ~ held (delete o H) i) /\ (forall i, held (delete o H) i -> held H i) /\
  (forall i, held H i -> held (delete o H) i \/ i ∈ ref_ids d).
Proof.
  intros Hr Ho. split_and!.
  - intros i Hi. split; [by exists o, d|]. intros (o' & d' & [Hne Ho']%lookup_delete_Some & Hi').
    by apply Hne, (refs_excl H R i o o' d d').
  - intros i (o' & d' & [_ Ho']%lookup_delete_Some & Hi'). by exists o', d'.
  - intros i (o' & d' & Ho' & Hi'). destruct (decide (o = o')) as [<-|Hne]; [right; congruence|].
    left. exists o', d'. by rewrite lookup_delete_ne.
Qed.

Lemma meta_delete_object_inv b k now s o s' issued writers :
  minv s issued writers -> ample s -> is_i64 now -> delete_object b k now s = (o, s') ->
  minv s' issued writers /\ keeps s writers s' writers.
Proof.
  intros Hi Ham Hnow E.
  destruct (delete_object_run _ _ _ _ _ _ _ _ Hi Ham Hnow E) as [[Ht _]|[(-> & -> & _)|(-> & okey & v & Hk & Hv & Hc)]];
    [by eapply minv_threw|split; [done|apply keeps_refl]|]. cbv zeta in Hc. destruct Hc as (s1 & ops & En & C1 & C2 & C3 & C4 & C5).
  set (O := tab s kObjects) in *. set (P := tab s kParts) in *. pose proof (mi_refs _ _ _ Hi) as HR. fold O P in HR.
  assert (P !! okey = None) as HP by (eapply (keys_disjoint O P); [apply Hi|apply Hi|by eexists]).
  destruct (delete_held (holders O P) _ okey (data_of_object v) HR (holders_object O P okey v Hv)) as (HQ & HL & K1).
  eapply (minv_commit s s1 s' issued writers _ _ ops En); [done|done|done|exact C3|exact C4|exact C5|done..| | | | | | | | |done| |by left].
  all: eval_batch; fold O P.
  - apply map_Forall_delete, Hi.
  - apply Hi.
  - apply Hi.
  - rewrite holders_delete_object by done. apply refs_delete; [done|]. by apply holders_object.
  - intros p. unfold ledger_bytes. rewrite ksum_delete. unfold kval. rewrite Hv. lia.
  - intros p. unfold ledger_recs. rewrite ksum_delete. unfold kval. rewrite Hv. lia.
  - by rewrite holders_delete_object.
  - rewrite holders_delete_object by done. intros i Hh%HL. split; [by left|]. by apply (mi_held _ _ _ Hi).
  - by rewrite holders_delete_object.
Qed.

(** * Parts *)
Lemma put_part_run b k id p now s o s' issued writers :
  minv s issued writers -> ample s -> is_i64 now -> wf_data (pr_data p) -> is_u16 (pr_part_no p) ->
  put_part b k id p now s = (o, s') ->
  (threw s s' /\ exists e, o = Throw e) \/
  (o = Ok tt /\ exists pkey enc, part_key b k id (pr_part_no p) = Ok pkey /\ encode_part p = Ok enc /\
    (exists ukey, upload_key b k id = Ok ukey /\ is_Some (tab s kUploads !! ukey)) /\
    let d := default [] (data_of_part <$> tab s kParts !! pkey) in
    committed s s' [BPut kParts pkey enc] (batch_refs (pr_data p) true pkey ++ batch_refs d false []) d
      (λ q, pack_bytes q (part_ov pkey) (pr_data p) - pack_bytes q (part_ov pkey) d)%Z
      (λ q, pack_recs q (pr_data p) - pack_recs q d)%Z).
Proof.
  intros Hi Ham Hnow Hwf Hno E. pose proof (stopped_threw o s s' _ _ Hi) as Hstop. unfold put_part in E.
  apply require_upload_bind in E as [?|(ukey & uv & u & _ & Huk & Huv & _ & E)]; [stop|].
  apply lift_bind in E as [?|(pkey & Hk & E)]; [stop|]. apply get_raw_bind in E as [?|E]; [stop|].
  destruct (read_old_part (tab s kParts) (pr_part_no p) pkey (mi_parts _ _ _ Hi)) as (old & Hold & Hdata).
  rewrite Hold in E. apply lift_bind in E as [?|(? & [= <-] & E)]; [stop|].
  apply lift_bind in E as [?|(enc & Henc & E)]; [stop|]. rewrite (part_ov_eq b k id _ pkey Hno Hk) in E.
  destruct (batch_pack_delta_spec (pr_data p) 1 (part_ov pkey) Hwf) as (pd & Hpd & Hd). rewrite Hpd in E.
  apply lift_bind in E as [?|(? & [= <-] & E)]; [stop|].
  set (d := default [] (data_of_part <$> tab s kParts !! pkey)).
  assert (wf_data d /\ (Z.of_nat (length d) <= stored_extents (tab s kObjects) (tab s kParts))%Z) as [Hdw Hdl].
  { unfold d. destruct (tab s kParts !! pkey) as [v|] eqn:Ev; cbn; [|split; [constructor|apply stored_nonneg]].
    split; [by apply data_of_part_wf, (mi_parts _ _ _ Hi pkey)|by apply (stored_part _ _ pkey)]. }
  apply ST_bind_run in E as [(drops & s1 & Hdr & E)|(e & Hdr & ->)].
  all: assert ((match pr_data <$> old with Some d => drop_data now d kPartOverwrite (part_ov pkey) | None => mret [] end) s = (_, _)) as Hdr'
    by (rewrite <- Hdr; by destruct old); rewrite Hdata in Hdr'.
  all: destruct (drop_opt_run _ now kPartOverwrite (part_ov pkey) s _ _ (seq_used (tab s kGcq)) 0 Hdw Hnow (mi_seq _ _ _ Hi)
    ltac:(eapply room_weaken; [exact Ham|fold d; lia]) ltac:(lia) Hdr') as (A1 & A2 & A3).
  2: { left. split; [by split|by eexists]. }
  destruct A3 as (En & B1 & B2 & B3). apply commit_run in E. destruct o as [[]|e].
  2: { left. subst s'. split; [|by eexists]. split; [done|]. eapply ids_ok_weaken; [done|]. cbn. auto. }
  right. split; [done|]. exists pkey, enc. split_and!; try done; [by eexists; split; [|by eexists]|]. fold d.
  exists s1, (batch_refs (pr_data p) true pkey ++ pd ++ drops), En. split_and!; [done|done|done| |done].
  eapply acct_ext; [apply (acct_app _ _ [] En); [apply acct_of_refs|apply (acct_app _ _ [] En []); [by apply acct_of_stats|exact B1]]| |];
    intros q; cbv beta; fold d; lia.
Qed.

Lemma put_part_inv b k id p now s o s' issued writers :
  minv s issued writers -> ample s -> is_i64 now -> part_rec_ok p -> is_u16 (pr_part_no p) -> ref_ids (pr_data p) ⊆ writers ->
  put_part b k id p now s = (o, s') ->
  minv s' issued (left_over o (pr_data p) writers) /\ keeps s writers s' (left_over o (pr_data p) writers).
Proof.
  intros Hi Ham Hnow Hok Hno Hw E. assert (wf_data (pr_data p)) as Hwf by apply Hok.
  destruct (put_part_run _ _ _ _ _ _ _ _ _ _ Hi Ham Hnow Hwf Hno E) as [[Ht [e ->]]|(-> & pkey & enc & Hk & Henc & _ & Hc)];
    [by eapply minv_threw|]. cbv zeta in Hc. destruct Hc as (s1 & ops & En & C1 & C2 & C3 & C4 & C5). cbn [left_over].
  destruct (part_value_encode p enc Hok Henc) as [Hv Hd].
  set (O := tab s kObjects) in *. set (P := tab s kParts) in *. pose proof (mi_refs _ _ _ Hi) as HR. fold O P in HR.
  destruct (holders_at_part O P b k id _ pkey (mi_objects _ _ _ Hi) Hk) as [HO HH].
  destruct (put_held (holders O P) _ pkey (pr_data p) writers HR Hw (λ i Hh, proj2 (mi_held _ _ _ Hi i Hh))) as (HQ & HL & K1 & K2).
  rewrite HH in HQ, K1. eapply (minv_commit s s1 s' issued writers _ _ ops En); [done|done|done|exact C3|exact C4|exact C5|done..| | | | | | | | |set_solver| |].
  all: eval_batch; fold O P.
  - apply Hi.
  - apply map_Forall_insert_2; [|apply Hi]. split; [by exists b, k, id, (pr_part_no p)|done].
  - apply Hi.
  - rewrite holders_insert_part, Hd, <- HH by done. apply refs_put; [done|done|]. intros i Hin Hh. by apply (mi_held _ _ _ Hi i Hh), Hw.
  - intros q. rewrite <- Hd. by apply ledger_put_part.
  - intros q. rewrite <- Hd. by apply ledger_put_part.
  - by rewrite holders_insert_part, Hd.
  - by rewrite holders_insert_part, Hd.
  - by rewrite holders_insert_part, Hd.
  - by rewrite holders_insert_part, Hd.
Qed.

(** * Changes of other tables *)

(** A batch on families the accounts do not depend on. *)
Lemma minv_aside s s' ops issued writers :
  minv s issued writers -> applied ops s s' ->
  Forall (λ x, op_cf x = kBuckets \/ op_cf x = kTc \/ op_cf x = kDefault) ops ->
  minv s' issued writers /\ keeps s writers s' writers.
Proof.
  intros [I1 I2 I3 I4 I5 I6 I7 I8 I9 I10 I11 I12 I13] [Ht Hr] Hf.
  assert (forall c, c <> kBuckets -> c <> kTc -> c <> kDefault -> tab s' c = tab s c) as E.
  { intros c ? ? ?. rewrite Ht, on_cf_none; [done|]. eapply list.Forall_impl; [exact Hf|]. cbn. naive_solver congruence. }
  split; [|by apply keeps_same; intros c [->|[->| ->]]; apply E]. split; rewrite ?E by done; try done.
  - eapply ids_ok_same; [done|apply Hr|]. unfold cstat. by rewrite E.
  - eapply ids_ok_same; [done|apply Hr|]. unfold cstat. by rewrite E.
  - eapply ids_ok_same; [done|apply Hr|]. unfold cstat. by rewrite E.
Qed.

Lemma create_upload_inv b k meta new_id now s o s' issued writers :
  minv s issued writers -> is_i64 now -> Forall is_u64 (part_sizes meta) ->
  create_upload b k meta new_id now s = (o, s') -> minv s' issued writers /\ keeps s writers s' writers.
Proof.
  intros Hi Hnow Hps E. pose proof (minv_stopped o s s' _ _ Hi) as Hstop. unfold create_upload in E.
  apply require_bucket_bind in E as [?|[_ E]]; [auto|]. cbv zeta in E. apply lift_bind in E as [?|(ukey & Hk & E)]; [auto|].
  apply lift_bind in E as [?|(enc & Henc & E)]; [auto|]. apply commit_bind in E as [?|(s2 & [Ht Hr] & E)]; [auto|].
  apply mret_run in E as [-> ->]. destruct Hi as [I1 I2 I3 I4 I5 I6 I7 I8 I9 I10 I11 I12 I13].
  assert (forall c, c <> kUploads -> tab s2 c = tab s c) as Ec by (intros c Hc; rewrite Ht, on_cf_none; [done|by repeat constructor]).
  split; [|by apply keeps_same; intros c [->|[->| ->]]; apply Ec]. split; rewrite ?Ec by done; try done.
  - rewrite Ht. eval_batch. apply map_Forall_insert_2; [|done]. eexists. split_and!; [| |exact Henc]; done.
  - eapply ids_ok_same; [done|apply Hr|]. unfold cstat. by rewrite Ec.
  - eapply ids_ok_same; [done|apply Hr|]. unfold cstat. by rewrite Ec.
  - eapply ids_ok_same; [done|apply Hr|]. unfold cstat. by rewrite Ec.
Qed.

(** * Compaction swaps *)

(** The operations of a swap of the object at [okey] from [from] to [to]. *)
Definition swap_ops (O : table) (okey : bytes) (from to : DataRef) (ops : list BatchOp) : Prop :=
  exists v enc rest b k r,
    ops = BPut kObjects okey enc :: rest /\ O !! okey = Some v /\ data_of_object v = from /\ object_key b k = Ok okey /\
    encode_object r = Ok enc /\ object_rec_ok r /\ or_data r = to /\
    acct rest [] (batch_refs (added (refs_delta from to)) true okey ++ batch_refs (removed (refs_delta from to)) false [])
      (λ p, pack_bytes p (object_ov okey) to - pack_bytes p (object_ov okey) from)%Z (λ p, pack_recs p to - pack_recs p from)%Z.

Lemma stage_swap_run b k expect from to s o s' issued writers :
  minv s issued writers -> extents_ok to -> stage_swap_locked b k expect from to s = (o, s') ->
  s' = s /\ match o with
            | Ok (Some ops) => exists okey, object_key b k = Ok okey /\ swap_ops (tab s kObjects) okey from to ops
            | _ => True
            end.
Proof.
  intros Hi Hto E. assert (stopped o s s' -> s' = s /\ match o with
            | Ok (Some ops) => exists okey, object_key b k = Ok okey /\ swap_ops (tab s kObjects) okey from to ops
            | _ => True end) as Hstop by (by intros [-> [e ->]]). unfold stage_swap_locked in E.
  apply lift_bind in E as [?|(okey & Hk & E)]; [auto|]. apply get_raw_bind in E as [?|E]; [auto|].
  destruct (tab s kObjects !! okey) as [v|] eqn:Ev; [|by apply mret_run in E as [-> ->]].
  destruct (mi_objects _ _ _ Hi okey v Ev) as [_ Hv]. destruct (object_value_read v k Hv) as (r & Hr & Hok & Hd). rewrite Hr in E.
  apply lift_bind in E as [?|(? & [= <-] & E)]; [auto|]. destruct (_ || _) eqn:Hif in E; [by apply mret_run in E as [-> ->]|].
  apply orb_false_iff in Hif as [_ Hif]. bool_prop. apply lift_bind in E as [?|(enc & Henc & E)]; [auto|]. cbv zeta in E.
  destruct (batch_pack_delta_spec to 1 (pack_rec_overhead b k) (proj1 Hto)) as (more & Hm & Sm).
  assert (wf_data from) as Hfw by (rewrite <- Hif, Hd; by apply data_of_object_wf).
  destruct (batch_pack_delta_spec from (-1) (pack_rec_overhead b k) Hfw) as (less & Hl & Sl). rewrite Hm, Hl in E.
  apply lift_bind in E as [?|(? & [= <-] & E)]; [auto|]. apply lift_bind in E as [?|(? & [= <-] & E)]; [auto|].
  apply mret_run in E as [-> ->]. split; [done|]. exists okey. split; [done|].
  eexists v, enc, _, b, k, _. split_and!; [reflexivity|done|by rewrite <- Hd|done|exact Henc| |done|].
  { destruct Hok as (H1 & H2 & H3 & H4 & H5 & H6). split_and!; try done; first [apply u64_range|apply Hto]. }
  rewrite (object_ov_eq b k okey Hk) in *.
  pose proof (acct_app _ _ [] [] _ _ _ _ _ _ (acct_of_refs (added (refs_delta from to)) true okey)
    (acct_app _ _ [] [] _ _ _ _ _ _ (acct_of_refs (removed (refs_delta from to)) false [])
      (acct_of_stats _ _ _ (stats_delta_app _ _ _ _ _ _ Sm Sl)))) as Ha.
  rewrite (app_nil_r (batch_refs (removed _) _ _)) in Ha. eapply acct_ext; [exact Ha| |]; intros p; cbv beta; lia.
Qed.

Lemma swap_held H R o from to writers :
  refs_inv H R -> H !! o = Some from -> ref_ids to ⊆ ref_ids from ∪ writers -> (forall i, held H i -> i ∉ writers) ->
  (forall i, i ∈ ref_ids to -> i ∈ ref_ids from \/ ~ held H i) /\
  (forall i, held (<[o:=to]> H) i -> (held H i \/ i ∈ writers) /\ i ∉ writers ∖ ref_ids to) /\
  (forall i, i ∈ writers -> i ∈ writers ∖ ref_ids to \/ held (<[o:=to]> H) i) /\
  (ref_ids from ⊆ ref_ids to -> forall i, held H i -> held (<[o:=to]> H) i).
Proof.
  intros Hr Ho Hto Hw. split_and!.
  - intros i Hi. destruct (decide (i ∈ ref_ids from)) as [|Hn]; [by left|]. right. intros Hh%Hw. set_solver.
  - intros i (o' & d' & Ho' & Hi'). apply lookup_insert_Some in Ho' as [[<- <-]|[Hne Ho']].
    + split; [|set_solver]. destruct (decide (i ∈ ref_ids from)); [left; by exists o, from|right; set_solver].
    + assert (held H i) as Hh by (by exists o', d'). specialize (Hw i Hh). set_solver.
  - intros i Hi. destruct (decide (i ∈ ref_ids to)); [right; exists o, to; by rewrite lookup_insert_eq|left; set_solver].
  - intros Hsub i (o' & d' & Ho' & Hi'). destruct (decide (o = o')) as [<-|Hne].
    + exists o, to. rewrite lookup_insert_eq. split; [done|]. apply Hsub. congruence.
    + exists o', d'. by rewrite lookup_insert_ne.
Qed.

Lemma swap_ops_inv s s' okey from to ops issued writers :
  minv s issued writers -> extents_ok to -> ref_ids from ⊆ ref_ids to -> ref_ids to ⊆ ref_ids from ∪ writers ->
  swap_ops (tab s kObjects) okey from to ops -> applied ops s s' ->
  (minv s' issued (writers ∖ ref_ids to) /\ keeps s writers s' (writers ∖ ref_ids to)) /\ (forall k, k <> okey -> tab s' kObjects !! k = tab s kObjects !! k).
Proof.
  intros Hi Hto Hkeep Hsub (v & enc & rest & b & k & r & -> & Hv & <- & Hk & Henc & Hok & Hr & Hacct) Hap.
  set (O := tab s kObjects) in *. set (P := tab s kParts). pose proof (mi_refs _ _ _ Hi) as HR. fold O P in HR.
  destruct (object_value_encode r enc Hok Henc) as [Henv Hd]. rewrite Hr in Hd.
  destruct (swap_held (holders O P) _ okey (data_of_object v) to writers HR (holders_object O P okey v Hv) Hsub
    (λ i Hh, proj2 (mi_held _ _ _ Hi i Hh))) as (HF & HL & K2 & K1).
  split.
  - eapply (minv_commit s s s' issued writers _ [_] rest []); [done|apply only_counter_refl| |exact Hap|exact Hacct|apply entries_nil|done..| | | | | | | | |set_solver| |].
    all: eval_batch; fold O P.
    + eapply ids_ok_weaken; [apply Hi|]. cbn. intros i [?|Hin]; [done|by apply not_elem_of_nil in Hin].
    + apply map_Forall_insert_2; [|apply Hi]. split; [by exists b, k|done].
    + apply Hi.
    + apply Hi.
    + rewrite holders_insert_object, Hd. apply refs_swap; [done|by apply holders_object|apply Hto|done].
    + intros p. rewrite <- Hd. apply ledger_put_object. by rewrite Hv.
    + intros p. rewrite <- Hd. apply ledger_put_object. by rewrite Hv.
    + intros i Hin. by apply elem_of_empty in Hin.
    + by rewrite holders_insert_object, Hd.
    + rewrite holders_insert_object, Hd. intros i Hh. left. by apply K1.
    + by rewrite holders_insert_object, Hd.
  - intros k' Hne. destruct Hap as [Ht _]. rewrite Ht, on_cf_cons, decide_True by done.
    rewrite (ac_other _ _ _ _ _ Hacct) by done. cbn. by rewrite lookup_insert_ne.
Qed.

Lemma swap_extents_inv b k expect from to s o s' issued writers :
  minv s issued writers -> extents_ok to -> ref_ids from ⊆ ref_ids to -> ref_ids to ⊆ ref_ids from ∪ writers ->
  swap_extents b k expect from to s = (o, s') ->
  let writers' := match o with Ok true => writers ∖ ref_ids to | _ => writers end in
  minv s' issued writers' /\ keeps s writers s' writers'.
Proof.
  intros Hi Hto Hkeep Hsub E. cbv zeta. unfold swap_extents in E.
  apply ST_bind_run in E as [(ops & s1 & Hst & E)|(e & Hst & ->)];
    destruct (stage_swap_run _ _ _ _ _ _ _ _ _ _ Hi Hto Hst) as [-> Hops]; [|by apply inv_refl].
  destruct ops as [ops|]; [|by apply mret_run in E as [-> ->]; apply inv_refl]. destruct Hops as (okey & _ & Hops).
  apply commit_bind in E as [[-> [e ->]]|(s2 & Hap & E)]; [by apply inv_refl|]. apply mret_run in E as [-> ->].
  by destruct (swap_ops_inv s s2 okey from to ops issued writers Hi Hto Hkeep Hsub Hops Hap).
Qed.

End ops.

(** ** Batched swaps

    Every store has a view over plain tables, itself a lawful engine; a batch of swaps is
    followed there one swap at a time. *)
#[local] Instance tables_rocks : RocksDB (Cf -> table) := {
  db_get c k d := Some (d c !! k);
  db_write _ b d := Some (λ c, apply_ops (on_cf c b) (d c));
  db_items c d := Some (map_items bytes_le (d c)) }.
#[local] Program Instance tables_law : RocksLaw (Cf -> table) := { contents d := d }.
Next Obligation. by intros d c k v [= <-]. Qed.
Next Obligation. by intros d d' sync b c [= <-]. Qed.
Next Obligation. by intros d c l [= <-]. Qed.

Section batch.
Context {DB : Type} {rocks : RocksDB DB} {law : RocksLaw DB} {bound : Passed}.
Implicit Types (s : Meta DB) (issued : Issued) (writers : gset Z).

Definition view (s : Meta DB) : Meta (Cf -> table) := mkMeta (opt_sync s) (Some (tab s)) (chunk_ids s) (pack_ids s) (seqs s).
Definition push (ops : list BatchOp) (v : Meta (Cf -> table)) : Meta (Cf -> table) :=
  mkMeta (opt_sync v) (Some (λ c, apply_ops (on_cf c ops) (tab v c))) (chunk_ids v) (pack_ids v) (seqs v).

Lemma push_applied (ops : list BatchOp) (v : Meta (Cf -> table)) : applied ops v (push ops v).
Proof. split; [done|by intros []]. Qed.

Lemma minv_view s issued writers : minv s issued writers -> minv (view s) issued writers.
Proof.
  intros [I1 I2 I3 I4 I5 I6 I7 I8 I9 I10 I11 I12 I13]. split; try done.
  - destruct I8 as [R1 R2 R3 R4]. by split.
  - destruct I9 as [R1 R2 R3 R4]. by split.
  - destruct I13 as [R1 R2 R3 R4]. by split.
Qed.

(** The tables of a store follow those of a view. *)
Lemma minv_unview s (v : Meta (Cf -> table)) issued writers :
  minv v issued writers -> (forall c, tab s c = tab v c) -> (forall c, range c s = range c v) -> minv s issued writers.
Proof.
  intros [I1 I2 I3 I4 I5 I6 I7 I8 I9 I10 I11 I12 I13] Et Er.
  assert (forall c used, ids_ok v c used -> ids_ok s c used) as Hids.
  { intros c used [R1 R2 R3 R4]. unfold cstat in *. split; rewrite ?Er; unfold cstat; rewrite ?Et; done. }
  split; rewrite ?Et; auto.
Qed.

End batch.

Section swaps.
Context {DB : Type} {rocks : RocksDB DB} {law : RocksLaw DB} {bound : Passed}.
Implicit Types (s : Meta DB) (issued : Issued) (writers : gset Z).

(** What the swaps of a batch may use: the files of the object, all of which stay since
    compaction moves pack records only, and files of the writer not used by an earlier
    swap. *)
Fixpoint swaps_ok (reqs : list SwapReq) (writers : gset Z) : Prop :=
  match reqs with
  | [] => True
  | r :: rest => extents_ok (sr_to r) /\ ref_ids (sr_from r) ⊆ ref_ids (sr_to r) /\
                 ref_ids (sr_to r) ⊆ ref_ids (sr_from r) ∪ writers /\
                 swaps_ok rest (writers ∖ ref_ids (sr_to r))
  end.
Fixpoint swaps_left (reqs : list SwapReq) (done : list bool) (writers : gset Z) : gset Z :=
  match reqs, done with
  | r :: reqs', d :: done' => swaps_left reqs' done' (if d then writers ∖ ref_ids (sr_to r) else writers)
  | _, _ => writers
  end.
Definition swap_key (r : SwapReq) : bytes * bytes := (sr_bucket r, sr_key r).

Lemma swaps_ok_mono reqs w w' : swaps_ok reqs w -> w ⊆ w' -> swaps_ok reqs w'.
Proof.
  revert w w'. induction reqs as [|r reqs IH]; intros w w'; [done|]. cbn. intros (H1 & H2 & H3 & H4) Hw.
  split_and!; [done|done|set_solver|]. eapply IH; [done|]. set_solver.
Qed.

Lemma stage_swaps_run reqs s o s' issued writers :
  minv s issued writers -> Forall (λ r, extents_ok (sr_to r)) reqs -> stage_swaps reqs s = (o, s') ->
  s' = s /\ forall r, o = Ok r -> exists opss : list (option (list BatchOp)),
    r.1 = flat_map (default []) opss /\ r.2 = (λ x, bool_decide (is_Some x)) <$> opss /\
    Forall2 (λ req x, forall ops, x = Some ops -> exists okey, object_key (sr_bucket req) (sr_key req) = Ok okey /\
               swap_ops (tab s kObjects) okey (sr_from req) (sr_to req) ops) reqs opss.
Proof.
  intros Hi. revert o s'. induction reqs as [|req reqs IH]; intros o s' Hok E.
  { apply mret_run in E as [-> ->]. split; [done|]. intros r [= <-]. exists []. by split_and!; [| |constructor]. }
  apply list.Forall_cons in Hok as [Hto Hok]. cbn [stage_swaps] in E.
  apply ST_bind_run in E as [(x & s1 & Hst & E)|(e & Hst & ->)];
    destruct (stage_swap_run _ _ _ _ _ _ _ _ _ _ Hi Hto Hst) as [-> Hops]; [|done].
  apply ST_bind_run in E as [(more & s2 & Hm & E)|(e & Hm & ->)]; destruct (IH _ _ Hok Hm) as [-> Hrest]; [|done].
  destruct (Hrest more eq_refl) as (opss & E1 & E2 & HF). apply mret_run in E as [-> ->]. split; [done|]. intros r [= <-].
  exists (x :: opss). cbn. rewrite E1, E2. split_and!; [done|done|]. constructor; [|done]. intros ops ->. done.
Qed.

Lemma swaps_apply (v : Meta (Cf -> table)) (reqs : list SwapReq) (opss : list (option (list BatchOp))) issued writers (O : table) :
  minv v issued writers -> swaps_ok reqs writers -> NoDup (swap_key <$> reqs) ->
  Forall2 (λ req x, forall ops, x = Some ops -> exists okey, object_key (sr_bucket req) (sr_key req) = Ok okey /\
             swap_ops O okey (sr_from req) (sr_to req) ops) reqs opss ->
  (forall req okey, req ∈ reqs -> object_key (sr_bucket req) (sr_key req) = Ok okey -> tab v kObjects !! okey = O !! okey) ->
  let v' := push (flat_map (default []) opss) v in
  let writers' := swaps_left reqs ((λ x, bool_decide (is_Some x)) <$> opss) writers in
  minv v' issued writers' /\ keeps v writers v' writers'.
Proof.
  cbv zeta.
  revert v opss writers. induction reqs as [|req reqs IH]; intros v opss writers Hi Hok Hnd HF Hsame.
  - apply list.Forall2_nil_inv_l in HF as ->. split; [eapply minv_unview; [exact Hi|done|by intros []]|by apply keeps_same].
  - apply list.Forall2_cons_inv_l in HF as (x & opss' & Hx & HF & ->). cbn [swaps_ok] in Hok. destruct Hok as (Hto & Hkp & Hsub & Hok).
    cbn in Hnd. apply list.NoDup_cons in Hnd as [Hreq Hnd].
    destruct x as [ops|]; cbn [flat_map default from_option id fmap list_fmap swaps_left].
    + destruct (Hx ops eq_refl) as (okey & Hk & Hops).
      assert (swap_ops (tab v kObjects) okey (sr_from req) (sr_to req) ops) as Hops'.
      { destruct Hops as (w & enc & rest & b & k & r & H1 & H2 & H3). exists w, enc, rest, b, k, r.
        rewrite (Hsame req okey ltac:(left) Hk). done. }
      destruct (swap_ops_inv v (push ops v) okey _ _ ops issued writers Hi Hto Hkp Hsub Hops' (push_applied ops v)) as [[Hi' Hkv] Hkeep].
      rewrite bool_decide_eq_true_2 by done.
      set (w' := swaps_left reqs ((λ x, bool_decide (is_Some x)) <$> opss') (writers ∖ ref_ids (sr_to req))).
      set (v' := push (flat_map (default []) opss') (push ops v)).
      assert (minv v' issued w' /\ keeps (push ops v) (writers ∖ ref_ids (sr_to req)) v' w') as [Hfin Hk2].
      { apply IH; try done. intros req' okey' Hin Hk'. rewrite Hkeep; [apply (Hsame req'); [by right|done]|].
        intros ->. apply Hreq, list_elem_of_fmap. exists req'. split; [|done].
        apply object_key_Ok in Hk as (N1 & N2 & E1), Hk' as (N3 & N4 & E2). unfold swap_key. rewrite E1 in E2.
        apply cut_nul in E2 as [E2 E3]; [|done|done]. by rewrite E2, E3. }
      assert (forall c, tab (push (ops ++ flat_map (default []) opss') v) c = tab v' c) as Et
        by (intros c; cbn; by rewrite on_cf_app, apply_ops_app).
      split; [by eapply minv_unview; [exact Hfin|exact Et|intros []]|].
      eapply keeps_trans; [exact Hkv|]. eapply keeps_trans; [exact Hk2|]. apply keeps_same. intros c _. apply Et.
    + rewrite bool_decide_eq_false_2 by (by intros [? [=]]). apply IH; try done.
      * eapply swaps_ok_mono; [done|set_solver].
      * intros req' okey' Hin. apply Hsame. by right.
Qed.

Lemma batch_unview s s' ops issued writers (done : gset Z) :
  minv (push ops (view s)) issued done -> keeps (view s) writers (push ops (view s)) done ->
  (forall c, tab s' c = tab (push ops (view s)) c) -> (forall c, range c s' = range c (push ops (view s))) ->
  minv s' issued done /\ keeps s writers s' done.
Proof.
  intros Hm Hk Et Er. split; [by eapply minv_unview|]. destruct Hk as (H1 & H2 & H3).
  split_and!; [intros i; specialize (H1 i)|intros i; specialize (H2 i)|]; unfold tracked, live in *; by rewrite !Et.
Qed.

Lemma swap_extents_batch_inv reqs s o s' issued writers :
  minv s issued writers -> swaps_ok reqs writers -> NoDup (swap_key <$> reqs) ->
  swap_extents_batch reqs s = (o, s') ->
  let writers' := match o with Ok done => swaps_left reqs done writers | Throw _ => writers end in
  minv s' issued writers' /\ keeps s writers s' writers'.
Proof.
  intros Hi Hok Hnd E. cbv zeta. unfold swap_extents_batch in E.
  assert (Forall (λ r, extents_ok (sr_to r)) reqs) as Hto.
  { clear -Hok. revert writers Hok. induction reqs as [|r reqs IH]; intros w; cbn; [constructor|]. intros (H1 & _ & _ & H3). constructor; eauto. }
  apply ST_bind_run in E as [(r & s1 & Hst & E)|(e & Hst & ->)];
    destruct (stage_swaps_run _ _ _ _ _ _ Hi Hto Hst) as [-> Hr]; [|by apply inv_refl].
  destruct (Hr r eq_refl) as (opss & E1 & E2 & HF). rewrite E2, E1 in E.
  pose proof (swaps_apply (view s) reqs opss issued writers (tab s kObjects) (minv_view s issued writers Hi) Hok Hnd HF (λ _ _ _ _, eq_refl)) as [Hfin Hkp].
  destruct (existsb id _) eqn:Ex in E.
  - apply commit_bind in E as [[-> [e ->]]|(s2 & [Ht Hrg] & E)]; [by apply inv_refl|]. apply mret_run in E as [-> ->].
    apply (batch_unview s s2 _ issued _ _ Hfin Hkp); [intros c; by rewrite Ht|intros c; rewrite Hrg; by destruct c].
  - rewrite ST_ret_bind in E. apply mret_run in E as [-> ->]. apply (batch_unview s s _ issued _ _ Hfin Hkp); [|by intros []].
    assert (flat_map (default []) opss = []) as ->; [|done]. clear -Ex. induction opss as [|x opss IH]; [done|].
    cbn in Ex |- *. apply orb_false_iff in Ex as [Hx Ex]. rewrite IH by done. unfold id in Hx. apply bool_decide_eq_false in Hx.
    destruct x; [by destruct Hx|done].
Qed.
End swaps.
