(* ===== verification/RocksParts.v ===== *)
(** Uploads in the RocksDB engine: the scan of an upload's parts, and that abort and
    completion keep the invariant. *)

From S2P Require Import Prelude Bytes Backend Listing Multipart Codec CodecProofs CodecKeys MetaUtil.
From S2P Require Import RocksDb RocksMeta RocksLedger RocksProofs RocksInv RocksOps.
From Stdlib Require Import ZArith Lia.
From stdpp Require Import base list gmap sets strings sorting relations.
Open Scope lights3_scope.

(** * The parts of an upload *)
Definition part_at (b k id : bytes) (no : Z) : bytes := match part_key b k id no with Ok s => s | Throw _ => [] end.

(** [L] holds the parts of an upload, by number. *)
Record upload_parts (P : table) (b k id : bytes) (L : list (Z * PartRec)) : Prop := mkUploadParts {
  up_nodup : NoDup L.*1;
  up_stored : forall no p, (no, p) ∈ L -> is_u16 no /\ part_key b k id no = Ok (part_at b k id no) /\ part_rec_ok p /\ pr_part_no p = no /\
    exists v, P !! part_at b k id no = Some v /\ pr_data p = data_of_part v;
  up_all : forall pfx key, parts_prefix b k id = Ok pfx -> is_Some (P !! key) -> pfx `prefix_of` key -> exists no p, (no, p) ∈ L /\ key = part_at b k id no }.

Definition part_data (b k id : bytes) (L : list (Z * PartRec)) : list (bytes * DataRef) :=
  (λ np, (part_at b k id np.1, pr_data np.2)) <$> L.

Lemma part_at_inj (b k id : bytes) n n' :
  is_u16 n -> is_u16 n' -> part_key b k id n = Ok (part_at b k id n) -> part_key b k id n' = Ok (part_at b k id n') ->
  part_at b k id n = part_at b k id n' -> n = n'.
Proof. intros Hn Hn' E1 E2 E. rewrite <- E in E2. by destruct (part_key_inj b k id n b k id n' _ Hn Hn' E1 E2) as (_ & _ & _ & ->). Qed.

Lemma part_data_NoDup (P : table) (b k id : bytes) L : upload_parts P b k id L -> NoDup (part_data b k id L).*1.
Proof.
  intros [Hn Hs _]. unfold part_data. rewrite <- list_fmap_compose. induction L as [|[no p] L IH]; [constructor|].
  cbn in Hn |- *. apply list.NoDup_cons in Hn as [Hno Hn]. constructor; [|apply IH; [done|]; intros; apply Hs; by right].
  intros ([no' p'] & E & Hin)%list_elem_of_fmap. cbn in E. apply Hno. apply list_elem_of_fmap. exists (no', p'). split; [|done]. cbn.
  destruct (Hs no p ltac:(left)) as (H1 & H2 & _), (Hs no' p' ltac:(by right)) as (H3 & H4 & _). by apply (part_at_inj b k id).
Qed.

Lemma part_data_holders (P : table) (b k id : bytes) L O key d :
  upload_parts P b k id L -> objects_ok O -> (key, d) ∈ part_data b k id L ->
  O !! key = None /\ (data_of_part <$> P) !! key = Some d /\ holders O P !! key = Some d.
Proof.
  intros [_ Hs _] HO ([no p] & [= -> ->] & Hin)%list_elem_of_fmap.
  destruct (Hs no p Hin) as (_ & Hk & _ & _ & v & Hv & ->). destruct (holders_at_part O P b k id no _ HO Hk) as [E1 E2].
  rewrite E2, lookup_fmap, Hv. done.
Qed.

(** The range deletion takes out exactly the parts of the upload. *)
Lemma parts_range (P : table) (b k id pfx : bytes) L :
  upload_parts P b k id L -> parts_prefix b k id = Ok pfx ->
  apply_op (BDeleteRange kParts pfx (default pfx (bump_last_byte pfx))) P = without (part_data b k id L).*1 P.
Proof.
  intros [_ Hs Ha] Hp. pose proof Hp as (Nb & Nk & Ni & Epfx)%parts_prefix_Ok. cbn [apply_op]. unfold without.
  apply map_filter_strong_ext. intros key v. cbn. split; intros [Hn Hv]; (split; [|done]); intros Hin; apply Hn; clear Hn.
  - apply list_elem_of_fmap in Hin as ([key' d] & -> & ([no p] & [= -> ->] & Hin)%list_elem_of_fmap).
    destruct (Hs no p Hin) as (_ & Hk & _). cbn. apply part_key_Ok in Hk as (_ & _ & _ & Ek).
    rewrite Epfx. replace (b ++ [nul] ++ k ++ [nul] ++ id ++ [nul]) with ((b ++ [nul] ++ k ++ [nul] ++ id) ++ [nul]) by (by rewrite <- !app_assoc).
    apply bump_range. rewrite Ek. exists [zb (Z.shiftr no 8); zb no]. by rewrite <- !app_assoc.
  - rewrite Epfx in Hin. replace (b ++ [nul] ++ k ++ [nul] ++ id ++ [nul]) with ((b ++ [nul] ++ k ++ [nul] ++ id) ++ [nul]) in Hin by (by rewrite <- !app_assoc).
    apply bump_range in Hin. destruct (Ha pfx key Hp ltac:(by eexists)) as (no & p & HL & ->).
    { rewrite Epfx. by rewrite <- !app_assoc in Hin. }
    apply list_elem_of_fmap. exists (part_at b k id no, pr_data p). split; [done|]. apply list_elem_of_fmap. by exists (no, p).
Qed.

(** ** The scan *)
Lemma decode_parts_read (b k id : bytes) (P : table) (l : list (bytes * bytes)) ps :
  parts_ok P -> (forall key v, (key, v) ∈ l -> P !! key = Some v /\ exists no, is_u16 no /\ part_key b k id no = Ok key) ->
  decode_parts l = Ok ps ->
  Forall2 (λ kv p, is_u16 (pr_part_no p) /\ part_key b k id (pr_part_no p) = Ok kv.1 /\ part_rec_ok p /\ pr_data p = data_of_part kv.2) l ps.
Proof.
  intros HP. revert ps. induction l as [|[key v] l IH]; intros ps Hl E; [injection E as <-; constructor|].
  cbn [decode_parts] in E. destruct (Hl key v ltac:(left)) as [Hv (no & Hno & Hk)].
  assert (part_no_of_key key = Ok no) as En.
  { apply part_key_Ok in Hk as (_ & _ & _ & ->). rewrite <- (part_no_of_part_key no (b ++ [nul] ++ k ++ [nul] ++ id)) by done. f_equal. by rewrite <- !app_assoc. }
  rewrite En in E. cbn [mbind res_bind] in E. destruct (HP key v Hv) as [_ Hval].
  destruct (part_value_read v no Hval) as (r & Hr & Hok & Hd & Hpn). rewrite Hr in E. cbn [mbind res_bind] in E.
  destruct (decode_parts l) as [rest|e] eqn:Er; [|done]. injection E as <-. constructor; [cbn; by rewrite Hpn|].
  apply IH; [|done]. intros; apply Hl; by right.
Qed.

Lemma parts_prefix_part (b k id pfx : bytes) (P : table) key v :
  parts_ok P -> parts_prefix b k id = Ok pfx -> P !! key = Some v -> pfx `prefix_of` key ->
  exists no, is_u16 no /\ part_key b k id no = Ok key.
Proof.
  intros HP Hp Hv [z Hz]. destruct (HP key v Hv) as [(b' & k' & id' & n & Hn & Hk) _]. exists n. split; [done|].
  apply parts_prefix_Ok in Hp as (Nb & Nk & Ni & ->). pose proof Hk as (Nb' & Nk' & Ni' & E)%part_key_Ok. rewrite Hz in E.
  rewrite <- !app_assoc in E. apply cut_nul in E as [-> E]; [|done|done]. apply cut_nul in E as [-> E]; [|done|done].
  apply cut_nul in E as [-> E]; [|done|done]. done.
Qed.

Lemma scan_upload_parts (b k id pfx : bytes) (P : table) ps :
  parts_ok P -> parts_prefix b k id = Ok pfx -> decode_parts (scan_prefix pfx (map_items bytes_le P)) = Ok ps ->
  upload_parts P b k id ((λ p, (pr_part_no p, p)) <$> ps).
Proof.
  intros HP Hp E. set (l := scan_prefix pfx (map_items bytes_le P)) in *.
  assert (Forall2 (λ kv p, is_u16 (pr_part_no p) /\ part_key b k id (pr_part_no p) = Ok kv.1 /\ part_rec_ok p /\ pr_data p = data_of_part kv.2) l ps) as HF.
  { apply (decode_parts_read b k id P); [done| |done]. intros key v [Hv Hpre]%scan_prefix_elem. split; [done|].
    by apply (parts_prefix_part b k id pfx P key v). }
  assert (forall p, p ∈ ps -> exists kv, kv ∈ l /\ is_u16 (pr_part_no p) /\ part_key b k id (pr_part_no p) = Ok kv.1 /\ part_rec_ok p /\ pr_data p = data_of_part kv.2) as Hps.
  { intros p Hin. apply list_elem_of_lookup in Hin as [i Hi]. destruct (Forall2_lookup_r _ _ _ _ _ HF Hi) as (kv & Hkv & H). exists kv.
    split; [by eapply list_elem_of_lookup_2|done]. }
  split.
  - rewrite <- list_fmap_compose. change ((fst ∘ (λ p, (pr_part_no p, p))) <$> ps) with (pr_part_no <$> ps).
    pose proof (scan_prefix_NoDup pfx P) as Hn. fold l in Hn. clear -HF Hn. induction HF as [|kv p l ps Hkv HF IH]; [constructor|].
    cbn in Hn |- *. apply list.NoDup_cons in Hn as [Hk Hn]. constructor; [|by apply IH]. intros (p' & E & Hp')%list_elem_of_fmap.
    apply list_elem_of_lookup in Hp' as [i Hi]. destruct (Forall2_lookup_r _ _ _ _ _ HF Hi) as (kv' & Hkv' & H1 & H2 & _).
    destruct Hkv as (_ & H3 & _). apply Hk, list_elem_of_fmap. exists kv'. split; [|by eapply list_elem_of_lookup_2]. rewrite E in H3. congruence.
  - intros no p (p' & [= -> ->] & Hin)%list_elem_of_fmap. destruct (Hps p' Hin) as ([key v] & Hl & Hno & Hk & Hok & Hd).
    cbn in Hk, Hd. unfold part_at. rewrite Hk. apply scan_prefix_elem in Hl as [Hv _]. split_and!; try done. by exists v.
  - intros pfx' key E' [v Hv] Hpre. rewrite Hp in E'. injection E' as <-.
    assert ((key, v) ∈ l) as Hin by (by apply scan_prefix_elem). apply list_elem_of_lookup in Hin as [i Hi].
    destruct (Forall2_lookup_l _ _ _ _ _ HF Hi) as (p & Hi' & Hno & Hk & _). exists (pr_part_no p), p.
    unfold part_at. rewrite Hk. split; [|done]. apply list_elem_of_fmap. exists p. split; [done|]. by eapply list_elem_of_lookup_2.
Qed.

(** * Accounting of many parts *)
Lemma flat_map_fmap {A B C} (f : B -> list C) (g : A -> B) (l : list A) : flat_map f (g <$> l) = flat_map (λ x, f (g x)) l.
Proof. induction l as [|x l IH]; [done|]. cbn. by rewrite <- IH. Qed.

(** The parts of an upload, each marked if the completed object takes it over. *)
Definition marked (b k id : bytes) (sel : gset Z) (L : list (Z * PartRec)) : list (bytes * (DataRef * bool)) :=
  (λ np, (part_at b k id np.1, (pr_data np.2, bool_decide (np.1 ∈ sel)))) <$> L.

Definition given_up (L : list (bytes * (DataRef * bool))) : DataRef :=
  concat ((λ x : bytes * (DataRef * bool), if x.2.2 then [] else x.2.1) <$> L).
Definition moved_bytes (okey : bytes) (L : list (bytes * (DataRef * bool))) (p : Z) : Z :=
  lsum (λ (k : bytes) (x : DataRef * bool), (if x.2 then pack_bytes p (object_ov okey) x.1 else 0) - pack_bytes p (part_ov k) x.1)%Z L.
Definition moved_recs (L : list (bytes * (DataRef * bool))) (p : Z) : Z :=
  lsum (λ (k : bytes) (x : DataRef * bool), (if x.2 then pack_recs p x.1 else 0) - pack_recs p x.1)%Z L.

(** ** Sums *)
Section lsums.
Context {K V : Type} `{Countable K}.
Implicit Types (f g : K -> V -> Z) (L : list (K * V)).
Lemma lsum_minus f g L : lsum (λ k x, f k x - g k x)%Z L = (lsum f L - lsum g L)%Z.
Proof. induction L as [|x L IH]; [done|]. cbn [lsum foldr] in *. unfold lsum in IH. lia. Qed.
Lemma lsum_le f g L : (forall k x, f k x <= g k x)%Z -> (lsum f L <= lsum g L)%Z.
Proof. intros Hle. induction L as [|x L IH]; [done|]. cbn [lsum foldr] in *. specialize (Hle x.1 x.2). unfold lsum in IH. lia. Qed.
Lemma lsum_zero f L : (forall k x, (k, x) ∈ L -> f k x = 0%Z) -> lsum f L = 0%Z.
Proof.
  intros Hz. induction L as [|[k x] L IH]; [done|]. cbn [lsum foldr fst snd]. rewrite (Hz k x ltac:(left)). fold (lsum f L).
  rewrite IH; [done|]. intros. apply Hz. by right.
Qed.
End lsums.

Lemma length_given_up L : (Z.of_nat (length (given_up L)) <= lsum (λ (_ : bytes) (x : DataRef * bool), Z.of_nat (length x.1)) L)%Z.
Proof.
  induction L as [|[k [d m]] L IH]; [done|]. cbn [lsum foldr fst snd]. fold (lsum (λ (_ : bytes) (x : DataRef * bool), Z.of_nat (length x.1)) L).
  unfold given_up in *. cbn [fmap list_fmap concat fst snd]. change (concat (?x :: ?y)) with (x ++ concat y). rewrite length_app. destruct m; cbn [length]; lia.
Qed.

Lemma marked_data (b k id : bytes) sel L : part_data b k id L = (λ x, (x.1, x.2.1)) <$> marked b k id sel L.
Proof. unfold part_data, marked. by rewrite <- list_fmap_compose. Qed.
Lemma marked_keys (b k id : bytes) sel L : (marked b k id sel L).*1 = (part_data b k id L).*1.
Proof. rewrite (marked_data b k id sel L), <- list_fmap_compose. done. Qed.
Lemma marked_elem (b k id : bytes) sel L key x : (key, x) ∈ marked b k id sel L -> (key, x.1) ∈ part_data b k id L.
Proof. intros Hin. rewrite (marked_data b k id sel L). apply list_elem_of_fmap. by exists (key, x). Qed.

Lemma without_fmap {V W} (g : V -> W) (ks : list bytes) (m : gmap bytes V) : without ks (g <$> m) = g <$> without ks m.
Proof. unfold without. rewrite map_filter_fmap. f_equal. Qed.

(** What the records that leave weighed. *)
Lemma parts_leave_sum (f : bytes -> DataRef -> Z) (P : table) (b k id : bytes) sel L :
  upload_parts P b k id L ->
  (ksum (λ key v, f key (data_of_part v)) (without (part_data b k id L).*1 P) =
   ksum (λ key v, f key (data_of_part v)) P - lsum (λ key x, f key x.1) (marked b k id sel L))%Z.
Proof.
  intros HL. rewrite <- !(ksum_fmap f data_of_part).
  rewrite (ksum_without f (data_of_part <$> P) (part_data b k id L)); [|by eapply part_data_NoDup|].
  - rewrite without_fmap. assert (lsum f (part_data b k id L) = lsum (λ key x, f key x.1) (marked b k id sel L)) as ->; [|lia].
    rewrite (marked_data b k id sel L). unfold lsum. by rewrite foldr_fmap.
  - intros key d Hin. by apply (part_data_holders P b k id L ∅).
Qed.

Lemma ledger_leave (O P : table) (b k id : bytes) sel L p :
  upload_parts P b k id L ->
  ledger_bytes O (without (part_data b k id L).*1 P) p =
    (ledger_bytes O P p - lsum (λ key x, pack_bytes p (part_ov key) x.1) (marked b k id sel L))%Z /\
  ledger_recs O (without (part_data b k id L).*1 P) p =
    (ledger_recs O P p - lsum (λ _ x, pack_recs p x.1) (marked b k id sel L))%Z.
Proof.
  intros HL. unfold ledger_bytes, ledger_recs.
  rewrite (parts_leave_sum (λ key d, pack_bytes p (part_ov key) d) P b k id sel L HL).
  rewrite (parts_leave_sum (λ key d, pack_recs p d) P b k id sel L HL). lia.
Qed.

Lemma given_up_stored (O P : table) (b k id : bytes) sel L :
  upload_parts P b k id L ->
  (Z.of_nat (length (given_up (marked b k id sel L))) + ksum (λ _ v, Z.of_nat (length (data_of_object v))) O <= stored_extents O P)%Z.
Proof.
  intros HL. pose proof (length_given_up (marked b k id sel L)). unfold stored_extents.
  pose proof (parts_leave_sum (λ _ d, Z.of_nat (length d)) P b k id sel L HL) as E.
  pose proof (ksum_nonneg (λ _ v, Z.of_nat (length (data_of_part v))) (without (part_data b k id L).*1 P) ltac:(intros; cbn; lia)). cbv beta in *. lia.
Qed.

(** ** Holders that leave *)
Lemma held_without {H : holding} ks i : held (without ks H) i -> held H i.
Proof. intros (o & d & [Ho _]%map_lookup_filter_Some & Hi). by exists o, d. Qed.

Lemma held_split {H : holding} ks i :
  held H i -> held (without ks H) i \/ exists key d, key ∈ ks /\ H !! key = Some d /\ i ∈ ref_ids d.
Proof.
  intros (o & d & Ho & Hi). destruct (decide (o ∈ ks)); [right; by exists o, d|]. left. exists o, d. split; [|done].
  by apply map_lookup_filter_Some.
Qed.

Lemma leave_held (H : holding) R ks i key d :
  refs_inv H R -> H !! key = Some d -> key ∈ ks -> i ∈ ref_ids d -> held H i /\ ~ held (without ks H) i.
Proof.
  intros Hr Hk Hks Hi. split; [by exists key, d|]. intros (o & d' & [Ho Hn]%map_lookup_filter_Some & Hi'). cbn in Hn.
  apply Hn. by rewrite <- (refs_excl H R i key o d d' Hr Hk Hi Ho Hi').
Qed.

Lemma given_up_elem i (L : list (bytes * (DataRef * bool))) :
  i ∈ ref_ids (given_up L) <-> exists key d, (key, (d, false)) ∈ L /\ i ∈ ref_ids d.
Proof.
  unfold given_up. rewrite ref_ids_concat. split.
  - intros (d & ([key [d' m]] & -> & Hin)%list_elem_of_fmap & Hi). destruct m; cbn in Hi; [set_solver|]. by exists key, d'.
  - intros (key & d & Hin & Hi). exists d. split; [|done]. apply list_elem_of_fmap. by exists (key, (d, false)).
Qed.

Lemma move_held (H : holding) R (o : bytes) (L : list (bytes * (DataRef * bool))) d :
  refs_inv H R -> (forall k x, (k, x) ∈ L -> H !! k = Some x.1) -> NoDup L.*1 -> o ∉ L.*1 ->
  (forall i, i ∈ ref_ids d <-> exists x, x ∈ L /\ x.2.2 = true /\ i ∈ ref_ids x.2.1) ->
  (forall i, i ∈ ref_ids (given_up L ++ default [] (H !! o)) -> held H i /\ ~ held (<[o:=d]> (without L.*1 H)) i) /\
  (forall i, held (<[o:=d]> (without L.*1 H)) i -> held H i) /\
  (forall i, held H i -> held (<[o:=d]> (without L.*1 H)) i \/ i ∈ ref_ids (given_up L ++ default [] (H !! o))).
Proof.
  intros Hr HL Hnd HoL Hd.
  assert (forall i, i ∈ ref_ids d -> exists k x, (k, x) ∈ L /\ x.2 = true /\ H !! k = Some x.1 /\ i ∈ ref_ids x.1) as Hd'.
  { intros i ([k x] & Hx & Hm & Hi)%Hd. exists k, x. auto. }
  assert (forall i, held (<[o:=d]> (without L.*1 H)) i -> i ∈ ref_ids d \/ exists o' d', o' <> o /\ o' ∉ L.*1 /\ H !! o' = Some d' /\ i ∈ ref_ids d') as Hcase.
  { intros i (o' & d' & Ho' & Hi). apply lookup_insert_Some in Ho' as [[<- <-]|[Hne Ho']]; [by left|].
    right. apply map_lookup_filter_Some in Ho' as [Ho' Hn]. exists o', d'. split_and!; try done. }
  split_and!.
  - intros i. rewrite ref_ids_app, elem_of_union, given_up_elem. intros [(key & e & Hin & Hi)|Hi].
    + pose proof (HL _ _ Hin) as Hk. cbn in Hk. split; [by exists key, e|]. intros [Hid|(o' & d' & _ & Hn & Ho' & Hi')]%Hcase.
      * destruct (Hd' i Hid) as (k2 & x & Hin2 & Hm & Hk2 & Hi2).
        pose proof (refs_excl H R i key k2 e x.1 Hr Hk Hi Hk2 Hi2) as <-.
        pose proof (nodup_fst_inj L key (e, false) x Hnd Hin Hin2) as <-. done.
      * apply Hn. rewrite <- (refs_excl H R i key o' e d' Hr Hk Hi Ho' Hi'). apply list_elem_of_fmap. by exists (key, (e, false)).
    + destruct (H !! o) as [e|] eqn:Eo; cbn in Hi; [|set_solver]. split; [by exists o, e|].
      intros [Hid|(o' & d' & Hne & _ & Ho' & Hi')]%Hcase.
      * destruct (Hd' i Hid) as (k2 & x & Hin2 & _ & Hk2 & Hi2). apply HoL.
        rewrite (refs_excl H R i o k2 e x.1 Hr Eo Hi Hk2 Hi2). apply list_elem_of_fmap. by exists (k2, x).
      * apply Hne. symmetry. by apply (refs_excl H R i o o' e d').
  - intros i [(k & x & _ & _ & Hk & Hi)%Hd'|(o' & d' & _ & _ & Ho' & Hi')]%Hcase; [by exists k, x.1|by exists o', d'].
  - intros i Hh. rewrite ref_ids_app, elem_of_union, given_up_elem.
    destruct (held_split L.*1 i Hh) as [(o' & d' & Ho' & Hi')|(key & d' & ([key' [d2 m]] & -> & Hin)%list_elem_of_fmap & Ho' & Hi')]; cbn in *.
    + destruct (decide (o = o')) as [<-|Hne].
      * apply map_lookup_filter_Some in Ho' as [Ho' _]. right. right. by rewrite Ho'.
      * left. exists o', d'. by rewrite lookup_insert_ne.
    + pose proof (HL _ _ Hin) as E. cbn in E. rewrite Ho' in E. injection E as <-. destruct m; [left|right; left; eauto].
      exists o, d. rewrite lookup_insert_eq. split; [done|]. apply Hd. by exists (key', (d', true)).
Qed.

(** * Assembly of the completed object *)
Lemma ksum_ext {K V} `{Countable K} (f g : K -> V -> Z) (m : gmap K V) :
  (forall k v, m !! k = Some v -> f k v = g k v) -> ksum f m = ksum g m.
Proof.
  induction m as [|k v m Hk IH] using map_ind; intros He; [by rewrite !ksum_empty|]. rewrite !ksum_insert_new by done.
  rewrite (He k v) by apply lookup_insert_eq. rewrite IH; [done|]. intros k' v' Hv. apply He. rewrite lookup_insert_ne; [done|]. intros ->. by rewrite Hk in Hv.
Qed.

(** Summing over selected numbers is summing over the selected entries. *)
Lemma ksum_select (h : PartRec -> Z) (stored : gmap Z PartRec) (nos : list Z) (ps : list PartRec) :
  NoDup nos -> Forall2 (λ n p, stored !! n = Some p) nos ps ->
  ksum (λ n p, if bool_decide (n ∈ (list_to_set nos : gset Z)) then h p else 0)%Z stored = foldr (λ p acc, h p + acc)%Z 0%Z ps.
Proof.
  intros Hn HF. induction HF as [|n p nos ps Hp HF IH].
  - rewrite (ksum_ext _ (λ _ _, 0%Z)) by (intros; by rewrite bool_decide_eq_false_2 by set_solver).
    clear. induction stored as [|k v m Hk IH] using map_ind; [apply ksum_empty|]. by rewrite ksum_insert_new, IH.
  - apply list.NoDup_cons in Hn as [Hnin Hn]. cbn [foldr]. rewrite <- (IH Hn). clear IH.
    rewrite <- (insert_delete_id stored n p) by done. rewrite !ksum_insert_new by apply lookup_delete_eq.
    rewrite bool_decide_eq_true_2, (bool_decide_eq_false_2 (n ∈ (list_to_set nos : gset Z))) by set_solver.
    rewrite Z.add_0_l. f_equal. apply ksum_ext. intros k v [Hne _]%lookup_delete_Some.
    by rewrite (bool_decide_ext (k ∈ (list_to_set (n :: nos) : gset Z)) (k ∈ (list_to_set nos : gset Z))) by set_solver.
Qed.

Lemma select_loop (stored : gmap Z PartRec) parts a a' :
  select_parts_loop stored parts a = Ok a' -> exists ps,
    Forall2 (λ n p, stored !! n = Some p) (pi_part_no <$> parts) ps /\
    as_data a' = as_data a ++ concat (pr_data <$> ps) /\ as_selected a' = list_to_set (pi_part_no <$> parts) ∪ as_selected a /\
    part_sizes (as_meta a') = part_sizes (as_meta a) ++ (pr_size <$> ps) /\ (parts = [] \/ is_u64 (osize (as_meta a'))).
Proof.
  revert a. induction parts as [|pi parts IH]; intros a E.
  { injection E as <-. exists []. cbn. rewrite !app_nil_r. split_and!; [constructor|done|set_solver|done|by left]. }
  cbn [select_parts_loop] in E. unfold select_part in E. destruct (stored !! pi_part_no pi) as [p|] eqn:Ep; [|done].
  destruct (negb _); [done|]. cbn [mbind res_bind] in E. pose proof E as E0. apply IH in E as (ps & HF & Hd & Hsel & Hps & Hsz). exists (p :: ps). cbn in *.
  split_and!; [by constructor|by rewrite Hd, <- app_assoc|rewrite Hsel; set_solver|by rewrite Hps, <- app_assoc|].
  right. destruct Hsz as [->|Hsz]; [|done]. injection E0 as <-. apply u64_range.
Qed.

Lemma composite_keeps sha1 sha256 ds m r :
  let m' := (apply_composite_checksum sha1 sha256 ds m r).1 in
  osize m' = osize m /\ part_sizes m' = part_sizes m /\ last_modified m' = last_modified m.
Proof. unfold apply_composite_checksum. destruct (negb _); [done|]. by destruct (composite_checksum _ _ _ _). Qed.

Lemma assemble_spec md5_hex sha1 sha256 meta parts (stored : gmap Z PartRec) tp rec sel :
  assemble_completed_object md5_hex sha1 sha256 meta parts stored ∅ tp = Ok (rec, sel) -> parts <> [] ->
  Forall is_u64 (part_sizes meta) -> map_Forall (λ _ p, part_rec_ok p) stored -> is_i64 (to_unix_ms tp) ->
  (Z.of_nat (length (or_data rec)) < 2 ^ 32)%Z -> exists ps,
    Forall2 (λ n p, stored !! n = Some p) (pi_part_no <$> parts) ps /\
    or_data rec = concat (pr_data <$> ps) /\ sel = list_to_set (pi_part_no <$> parts) /\ object_rec_ok rec.
Proof.
  intros E Hne Hps Hst Htp Hlen. unfold assemble_completed_object in E.
  destruct (select_parts_loop stored parts _) as [a|] eqn:Es; [|done]. cbn [mbind res_bind] in E.
  apply select_loop in Es as (ps & HF & Hd & Hsel & Hsz & Hos). cbn in Hd, Hsel, Hsz.
  set (m := set_last_modified tp (set_etag (combined_etag md5_hex (as_md5s a)) (as_meta a))) in *.
  pose proof (composite_keeps sha1 sha256 (as_digests a) m (mkPutResult [] [] [] [])) as (K1 & K2 & K3).
  destruct (apply_composite_checksum _ _ _ _ _) as [m' r']. cbn in K1, K2, K3. injection E as <- <-. cbn in Hlen.
  assert (Forall part_rec_ok ps) as Hok.
  { apply list.Forall_forall. intros p [i Hi]%list_elem_of_lookup. destruct (Forall2_lookup_r _ _ _ _ _ HF Hi) as (n & _ & Hn). by apply (Hst n). }
  exists ps. split_and!; [done|done|set_solver|]. split_and!; cbn; rewrite ?K1, ?K2, ?K3.
  - unfold m. cbn. by destruct Hos.
  - done.
  - done.
  - unfold m. cbn. rewrite Hsz. apply list.Forall_app. split; [done|]. apply list.Forall_fmap. eapply list.Forall_impl; [exact Hok|].
    intros p Hp. apply Hp.
  - done.
  - split; [|done]. rewrite Hd. apply list.Forall_forall. intros e. rewrite list_elem_of_In, in_concat. intros (d & (p & <- & Hp)%in_map_iff & He).
    rewrite list.Forall_forall in Hok. destruct (Hok p ltac:(by apply list_elem_of_In)) as (_ & _ & Hw & _).
    rewrite list.Forall_forall in Hw. by apply Hw, list_elem_of_In.
Qed.

Lemma upload_parts_perm (P : table) (b k id : bytes) (L L' : list (Z * PartRec)) : L ≡ₚ L' -> upload_parts P b k id L -> upload_parts P b k id L'.
Proof.
  intros Hp [Hn Hs Ha]. split; [by rewrite <- Hp|intros no p; rewrite <- Hp; apply Hs|].
  intros pfx key H1 H2 H3. destruct (Ha pfx key H1 H2 H3) as (no & p & Hin & ->). exists no, p. by rewrite <- Hp.
Qed.
Lemma upload_parts_map (P : table) (b k id : bytes) (L : list (Z * PartRec)) :
  upload_parts P b k id L -> upload_parts P b k id (map_items Z.le (list_to_map L : gmap Z PartRec)).
Proof.
  intros HL. eapply upload_parts_perm; [|exact HL]. rewrite map_items_perm. symmetry. apply map_to_list_to_map, HL.
Qed.

(** ** What the completed object weighs *)
Lemma pack_bytes_concat p ov (l : list PartRec) : pack_bytes p ov (concat (pr_data <$> l)) = foldr (λ x acc, pack_bytes p ov (pr_data x) + acc)%Z 0%Z l.
Proof. induction l as [|x l IH]; [done|]. cbn [fmap list_fmap concat foldr]. change (concat (?x :: ?y)) with (x ++ concat y). by rewrite pack_bytes_app, IH. Qed.
Lemma pack_recs_concat p (l : list PartRec) : pack_recs p (concat (pr_data <$> l)) = foldr (λ x acc, pack_recs p (pr_data x) + acc)%Z 0%Z l.
Proof. induction l as [|x l IH]; [done|]. cbn [fmap list_fmap concat foldr]. change (concat (?x :: ?y)) with (x ++ concat y). by rewrite pack_recs_app, IH. Qed.
Lemma length_concat_parts (l : list PartRec) : Z.of_nat (length (concat (pr_data <$> l))) = foldr (λ x acc, Z.of_nat (length (pr_data x)) + acc)%Z 0%Z l.
Proof. induction l as [|x l IH]; [done|]. cbn [fmap list_fmap concat foldr]. change (concat (?x :: ?y)) with (x ++ concat y). rewrite length_app. lia. Qed.

Lemma marked_select (h : DataRef -> Z) (b k id : bytes) (stored : gmap Z PartRec) nos ps :
  NoDup nos -> Forall2 (λ n p, stored !! n = Some p) nos ps ->
  lsum (λ (_ : bytes) (x : DataRef * bool), if x.2 then h x.1 else 0%Z) (marked b k id (list_to_set nos) (map_items Z.le stored)) =
  foldr (λ p acc, h (pr_data p) + acc)%Z 0%Z ps.
Proof.
  intros Hn HF. rewrite <- (ksum_select (λ p, h (pr_data p)) stored nos ps Hn HF).
  rewrite (ksum_list _ stored (map_items Z.le stored)); [|apply map_items_NoDup|intros; apply map_items_elem].
  unfold lsum, marked. by rewrite foldr_fmap.
Qed.

Lemma marked_refs (b k id : bytes) (stored : gmap Z PartRec) nos ps i :
  Forall2 (λ n p, stored !! n = Some p) nos ps ->
  i ∈ ref_ids (concat (pr_data <$> ps)) <->
  exists x, x ∈ marked b k id (list_to_set nos) (map_items Z.le stored) /\ x.2.2 = true /\ i ∈ ref_ids x.2.1.
Proof.
  intros HF. rewrite ref_ids_concat. split.
  - intros (d & (p & -> & [j Hj]%list_elem_of_lookup)%list_elem_of_fmap & Hi). destruct (Forall2_lookup_r _ _ _ _ _ HF Hj) as (n & Hn & Hp).
    exists (part_at b k id n, (pr_data p, true)). cbn. split_and!; [|done|done]. apply list_elem_of_fmap. exists (n, p). cbn. split; [|by apply map_items_elem].
    by rewrite bool_decide_eq_true_2 by (apply elem_of_list_to_set; by eapply list_elem_of_lookup_2).
  - intros (x & ([n p] & -> & Hin%map_items_elem)%list_elem_of_fmap & Hm & Hi). cbn in Hm, Hi. apply bool_decide_eq_true, elem_of_list_to_set in Hm.
    apply list_elem_of_lookup in Hm as [j Hj]. destruct (Forall2_lookup_l _ _ _ _ _ HF Hj) as (p' & Hp' & Hn).
    exists (pr_data p). split; [|done]. apply list_elem_of_fmap. exists p. split; [done|]. replace p with p' by congruence. by eapply list_elem_of_lookup_2.
Qed.

(** The extents of an upload's parts. *)
Definition upload_extents (P : table) (b k id : bytes) : Z :=
  ksum (λ key v, if starts_with (b ++ [nul] ++ k ++ [nul] ++ id ++ [nul]) key then Z.of_nat (length (data_of_part v)) else 0%Z) P.

Lemma selected_extents (P : table) (b k id : bytes) (stored : gmap Z PartRec) nos ps :
  upload_parts P b k id (map_items Z.le stored) -> NoDup nos -> Forall2 (λ n p, stored !! n = Some p) nos ps ->
  (Z.of_nat (length (concat (pr_data <$> ps))) <= upload_extents P b k id)%Z.
Proof.
  intros HL Hn HF. set (pfx := b ++ [nul] ++ k ++ [nul] ++ id ++ [nul]).
  rewrite length_concat_parts, <- (marked_select (λ d, Z.of_nat (length d)) b k id stored nos ps Hn HF).
  set (Lm := marked b k id (list_to_set nos) (map_items Z.le stored)).
  pose proof (parts_leave_sum (λ key d, if starts_with pfx key then Z.of_nat (length d) else 0%Z) P b k id (list_to_set nos) _ HL) as E.
  pose proof (ksum_nonneg (λ key v, if starts_with pfx key then Z.of_nat (length (data_of_part v)) else 0%Z)
    (without (part_data b k id (map_items Z.le stored)).*1 P) ltac:(intros; cbn; case_if; lia)) as Hnn.
  assert (lsum (λ (key : bytes) (x : DataRef * bool), if starts_with pfx key then Z.of_nat (length x.1) else 0%Z) Lm =
          lsum (λ (_ : bytes) (x : DataRef * bool), Z.of_nat (length x.1)) Lm) as Eq.
  { assert (forall key x, (key, x) ∈ Lm -> starts_with pfx key = true) as Hst.
    { intros key x ([no p] & [= -> ->] & Hin)%list_elem_of_fmap. destruct (up_stored _ _ _ _ _ HL no p Hin) as (_ & (_ & _ & _ & Ek)%part_key_Ok & _).
      cbn. apply starts_with_prefix. rewrite Ek. exists [zb (Z.shiftr no 8); zb no]. unfold pfx. by rewrite <- !app_assoc. }
    clear -Hst. induction Lm as [|[key x] l IH]; [done|]. cbn [lsum foldr fst snd]. rewrite (Hst key x) by left. f_equal. apply IH. intros; eapply Hst; by right. }
  pose proof (lsum_le (λ (_ : bytes) (x : DataRef * bool), if x.2 then Z.of_nat (length x.1) else 0%Z) (λ _ x, Z.of_nat (length x.1)) Lm
    ltac:(intros ? []; cbn; case_if; lia)). unfold upload_extents. fold Lm in E. fold pfx. cbv beta in *. lia.
Qed.

Section parts.
Context {DB : Type} {rocks : RocksDB DB} {law : RocksLaw DB} {bound : Passed}.
Abbreviation M := (ST (Meta DB) S3ErrorCode).
Implicit Types (s : Meta DB) (issued : Issued) (writers : gset Z).

Fixpoint run_all {A} (f : A -> M (list BatchOp)) (l : list A) : M (list BatchOp) :=
  match l with
  | [] => mret []
  | x :: l' => o ← f x; rest ← run_all f l'; mret (o ++ rest)
  end.

Lemma drop_parts_all (b k id : bytes) now ps :
  drop_parts b k id now ps =
  run_all (λ p, drop_data now (pr_data p) kAbort (pack_rec_overhead_part b k id (pr_part_no p))) ps.
Proof. induction ps as [|p ps IH]; [done|]. cbn [drop_parts run_all]. by rewrite IH. Qed.
Lemma complete_parts_all (b k id okey : bytes) now sel L :
  complete_parts b k id okey now sel L = run_all (complete_part b k id okey now sel) L.
Proof. induction L as [|p ps IH]; [done|]. cbn [complete_parts run_all]. by rewrite IH. Qed.

Lemma run_all_acct {A} (f : A -> M (list BatchOp)) (l : list A) (es : A -> DataRef) (rf : A -> list BatchOp) (fb fr : A -> Z -> Z) s o s' used k :
  (forall x s o s' used k, x ∈ l -> ids_ok s CSeq used -> room s CSeq (Z.of_nat (length (es x)) + k) -> (0 <= k)%Z ->
     f x s = (o, s') -> acct_run s s' o used k (es x) (rf x) (fb x) (fr x)) ->
  ids_ok s CSeq used -> room s CSeq (Z.of_nat (length (concat (es <$> l))) + k) -> (0 <= k)%Z -> run_all f l s = (o, s') ->
  acct_run s s' o used k (concat (es <$> l)) (flat_map rf l) (λ p, foldr (λ x acc, fb x p + acc) 0 l)%Z (λ p, foldr (λ x acc, fr x p + acc) 0 l)%Z.
Proof.
  revert s o s' used. induction l as [|x l IH]; intros s o s' used Hf Hids Hroom Hk E.
  { apply mret_run in E as [-> ->]. split_and!; [apply only_counter_refl|done|]. exists []. split_and!; [apply acct_nil|apply entries_nil|].
    eapply ids_ok_weaken; [done|]. intros i [?|Hi]; [done|by apply not_elem_of_nil in Hi]. }
  cbn [run_all] in E. cbn [fmap list_fmap concat flat_map foldr] in *. change (concat (es x :: ?y)) with (es x ++ concat y) in Hroom |- *.
  rewrite length_app in Hroom. set (n := length (concat (es <$> l))) in *.
  assert (room s CSeq (Z.of_nat (length (es x)) + (Z.of_nat n + k))) as Hroom' by (eapply room_weaken; [exact Hroom|lia]).
  apply ST_bind_run in E as [(a & s1 & Ha & E)|(e & Ha & ->)].
  2: { destruct (Hf x s _ _ used _ ltac:(left) Hids Hroom' ltac:(lia) Ha) as (A1 & A2 & A3). split_and!; [done|eapply room_weaken; [done|lia]|done]. }
  destruct (Hf x s _ _ used _ ltac:(left) Hids Hroom' ltac:(lia) Ha) as (A1 & A2 & En & A3 & A4 & A5).
  assert (exists o1, run_all f l s1 = (o1, s') /\ o = match o1 with Ok y => Ok (a ++ y) | Throw e => Throw e end) as (o1 & Hrest & Ho).
  { apply ST_bind_run in E as [(rest & s2 & Hr & [-> ->]%mret_run)|(e & Hr & ->)]; eauto. }
  pose proof (IH s1 o1 s' (λ i, used i \/ i ∈ En.*1) ltac:(intros; eapply Hf; [by right|done..]) A5 A2 Hk Hrest) as Hr.
  by apply (acct_run_bind A3 A1 A4 A5 (Z.le_refl k) Hr Ho).
Qed.

Lemma complete_part_run (b k id okey : bytes) now sel no p s o s' used m :
  is_u16 no -> part_key b k id no = Ok (part_at b k id no) -> wf_data (pr_data p) -> object_key b k = Ok okey -> is_i64 now ->
  ids_ok s CSeq used -> room s CSeq (Z.of_nat (length (if bool_decide (no ∈ sel) then [] else pr_data p)) + m) -> (0 <= m)%Z ->
  complete_part b k id okey now sel (no, p) s = (o, s') ->
  let mk := bool_decide (no ∈ sel) in
  acct_run s s' o used m (if mk then [] else pr_data p) (batch_refs (pr_data p) mk (if mk then okey else []))
    (λ q, (if mk then pack_bytes q (object_ov okey) (pr_data p) else 0) - pack_bytes q (part_ov (part_at b k id no)) (pr_data p))%Z
    (λ q, (if mk then pack_recs q (pr_data p) else 0) - pack_recs q (pr_data p))%Z.
Proof.
  intros Hno Hk Hw Ho Hnow Hids Hroom Hm E. unfold complete_part in E. rewrite (part_ov_eq b k id no _ Hno Hk) in E. cbv zeta.
  destruct (bool_decide (no ∈ sel)); [|by eapply drop_data_run].
  rewrite (object_ov_eq b k okey Ho) in E.
  destruct (batch_pack_delta_spec (pr_data p) (-1) (part_ov (part_at b k id no)) Hw) as (less & Hl & Sl).
  destruct (batch_pack_delta_spec (pr_data p) 1 (object_ov okey) Hw) as (more & Hmo & Sm). rewrite Hl, Hmo in E.
  rewrite ST_bind_eq in E. cbn [lift] in E. rewrite ST_bind_eq in E. cbn [lift] in E. apply mret_run in E as [-> ->].
  split_and!; [apply only_counter_refl|exact Hroom|]. exists []. split_and!; [|apply entries_nil|].
  - pose proof (acct_app _ _ [] [] _ _ _ _ _ _ (acct_of_refs (pr_data p) true okey) (acct_of_stats _ _ _ (stats_delta_app _ _ _ _ _ _ Sl Sm))) as Ha.
    rewrite (app_nil_r (batch_refs _ _ _)) in Ha. eapply acct_ext; [exact Ha| |]; intros q; cbv beta; lia.
  - eapply ids_ok_weaken; [done|]. intros i [?|Hi]; [done|by apply not_elem_of_nil in Hi].
Qed.

Lemma complete_parts_run (P : table) (b k id okey : bytes) now sel L s o s' used m :
  upload_parts P b k id L -> object_key b k = Ok okey -> is_i64 now ->
  ids_ok s CSeq used -> room s CSeq (Z.of_nat (length (given_up (marked b k id sel L))) + m) -> (0 <= m)%Z ->
  complete_parts b k id okey now sel L s = (o, s') ->
  acct_run s s' o used m (given_up (marked b k id sel L)) (move_refs okey (marked b k id sel L))
    (moved_bytes okey (marked b k id sel L)) (moved_recs (marked b k id sel L)).
Proof.
  intros HL Ho Hnow Hids Hroom Hm E. rewrite complete_parts_all in E.
  eapply (run_all_acct _ _ (λ np, if bool_decide (np.1 ∈ sel) then [] else pr_data np.2)
    (λ np, batch_refs (pr_data np.2) (bool_decide (np.1 ∈ sel)) (if bool_decide (np.1 ∈ sel) then okey else []))
    (λ np q, (if bool_decide (np.1 ∈ sel) then pack_bytes q (object_ov okey) (pr_data np.2) else 0) - pack_bytes q (part_ov (part_at b k id np.1)) (pr_data np.2))%Z
    (λ np q, (if bool_decide (np.1 ∈ sel) then pack_recs q (pr_data np.2) else 0) - pack_recs q (pr_data np.2))%Z) in E.
  - assert (given_up (marked b k id sel L) = concat ((λ np : Z * PartRec, if bool_decide (np.1 ∈ sel) then [] else pr_data np.2) <$> L)) as Eg
      by (unfold given_up, marked; by rewrite <- list_fmap_compose).
    rewrite Eg. clear -E. unfold move_refs, moved_bytes, moved_recs, lsum, marked.
    destruct E as (E1 & E2 & E3). split_and!; [done|exact E2|]. destruct o as [ops|e]; [|done].
    destruct E3 as (En & F1 & F2 & F3). exists En. split_and!; [|done|done].
    rewrite flat_map_fmap. eapply acct_ext; [exact F1| |]; intros q; by rewrite foldr_fmap.
  - intros [no p] s0 o0 s0' used0 k0 Hin Hids0 Hroom0 Hk0 E0. destruct (up_stored _ _ _ _ _ HL no p Hin) as (Hno & Hk & Hok & _).
    by apply (complete_part_run b k id okey now sel no p); try done; apply Hok.
  - done.
  - unfold given_up, marked in Hroom. by rewrite <- list_fmap_compose in Hroom.
  - done.
Qed.

Lemma drop_parts_run (P : table) (b k id : bytes) now ps s o s' used m :
  let L := marked b k id ∅ ((λ p, (pr_part_no p, p)) <$> ps) in
  upload_parts P b k id ((λ p, (pr_part_no p, p)) <$> ps) -> is_i64 now ->
  ids_ok s CSeq used -> room s CSeq (Z.of_nat (length (given_up L)) + m) -> (0 <= m)%Z ->
  drop_parts b k id now ps s = (o, s') ->
  acct_run s s' o used m (given_up L) (move_refs [] L) (moved_bytes [] L) (moved_recs L).
Proof.
  intros L HL Hnow Hids Hroom Hm E. rewrite drop_parts_all in E.
  assert (L = (λ p, (part_at b k id (pr_part_no p), (pr_data p, false))) <$> ps) as EL
    by (unfold L, marked; by rewrite <- list_fmap_compose). unfold given_up in *. rewrite EL in *. rewrite <- list_fmap_compose in *.
  eapply (run_all_acct _ _ (λ p, pr_data p) (λ p, batch_refs (pr_data p) false [])
    (λ p q, 0 - pack_bytes q (part_ov (part_at b k id (pr_part_no p))) (pr_data p))%Z (λ p q, 0 - pack_recs q (pr_data p))%Z) in E;
    [|intros p s0 o0 s0' used0 k0 Hin Hids0 Hroom0 Hk0 E0|done|exact Hroom|done].
  - unfold move_refs, moved_bytes, moved_recs, lsum. destruct E as (E1 & E2 & E3). split_and!; [done|done|]. destruct o as [ops|e]; [|done].
    destruct E3 as (En & F1 & F2 & F3). exists En. split_and!; [|done|done].
    rewrite flat_map_fmap. eapply acct_ext; [exact F1| |]; intros q; by rewrite foldr_fmap.
  - destruct (up_stored _ _ _ _ _ HL (pr_part_no p) p ltac:(apply list_elem_of_fmap; by exists p)) as (Hno & Hk & Hok & _).
    rewrite (part_ov_eq b k id _ _ Hno Hk) in E0. by eapply drop_data_run; [apply Hok|..].
Qed.

Lemma scan_parts_bind {A} (b k id : bytes) (f : list PartRec -> M A) s o s' issued writers :
  minv s issued writers -> (scan_parts b k id ≫= f) s = (o, s') -> stopped o s s' \/
  exists pfx ps, parts_prefix b k id = Ok pfx /\ upload_parts (tab s kParts) b k id ((λ p, (pr_part_no p, p)) <$> ps) /\ f ps s = (o, s').
Proof.
  intros Hi [(ps & s1 & Hr & E)|(e & Hr & ->)]%ST_bind_run; unfold scan_parts in Hr.
  - apply lift_bind in Hr as [[-> [e He]]|(pfx & Hp & Hr)]; [done|]. apply items_bind in Hr as [[-> [e He]]|Hr]; [done|].
    apply lift_run in Hr as [Hr ->]. right. exists pfx, ps. split_and!; [done| |done]. eapply scan_upload_parts; [apply Hi|done|done].
  - left. apply lift_bind in Hr as [[-> _]|(pfx & Hp & Hr)]; [split; by eauto|]. apply items_bind in Hr as [[-> _]|Hr]; [split; by eauto|].
    apply lift_run in Hr as [_ ->]. split; by eauto.
Qed.

Lemma marked_holders s (b k id : bytes) sel L issued writers key x :
  minv s issued writers -> upload_parts (tab s kParts) b k id L -> (key, x) ∈ marked b k id sel L ->
  tab s kObjects !! key = None /\ holders (tab s kObjects) (tab s kParts) !! key = Some x.1.
Proof.
  intros Hi HL Hin%marked_elem. by destruct (part_data_holders _ _ _ _ _ (tab s kObjects) key x.1 HL (mi_objects _ _ _ Hi) Hin) as (? & _ & ?).
Qed.

Lemma parts_ok_without (P : table) ks : parts_ok P -> parts_ok (without ks P).
Proof. intros HP k v [Hv _]%map_lookup_filter_Some. by apply HP. Qed.

(** * Abort *)
Lemma abort_upload_run (b k id : bytes) now s o s' issued writers :
  minv s issued writers -> ample s -> is_i64 now -> abort_upload b k id now s = (o, s') ->
  (threw s s' /\ exists e, o = Throw e) \/
  (o = Ok tt /\ exists ukey pfx L, upload_key b k id = Ok ukey /\ parts_prefix b k id = Ok pfx /\ upload_parts (tab s kParts) b k id L /\
    let Lm := marked b k id ∅ L in
    committed s s' [BDelete kUploads ukey; BDeleteRange kParts pfx (default pfx (bump_last_byte pfx))]
      (move_refs [] Lm) (given_up Lm) (moved_bytes [] Lm) (moved_recs Lm)).
Proof.
  intros Hi Ham Hnow E. pose proof (stopped_threw o s s' _ _ Hi) as Hstop. unfold abort_upload in E.
  apply require_upload_bind in E as [?|(ukey0 & uv & u & _ & _ & _ & _ & E)]; [stop|]. apply lift_bind in E as [?|(ukey & Huk & E)]; [stop|].
  apply lift_bind in E as [?|(pfx & Hp & E)]; [stop|]. apply (scan_parts_bind _ _ _ _ _ _ _ issued writers Hi) in E as [?|(? & ps & _ & HL & E)]; [stop|].
  set (O := tab s kObjects) in *. set (P := tab s kParts) in *.
  set (L := (λ p, (pr_part_no p, p)) <$> ps) in *. set (Lm := marked b k id ∅ L).
  assert (room s CSeq (Z.of_nat (length (given_up Lm)) + 0)) as Hroom.
  { eapply room_weaken; [exact Ham|]. pose proof (given_up_stored O P b k id ∅ L HL) as Hg.
    pose proof (ksum_nonneg (λ _ v, Z.of_nat (length (data_of_object v))) O ltac:(intros; cbn; lia)). fold Lm in Hg. fold O P. lia. }
  apply ST_bind_run in E as [(drops & s1 & Hdr & E)|(e & Hdr & ->)];
    destruct (drop_parts_run P b k id now ps s _ _ (seq_used (tab s kGcq)) 0 HL Hnow (mi_seq _ _ _ Hi) Hroom ltac:(lia) Hdr) as (A1 & A2 & A3);
    fold L Lm in A3; [|left; split; [by split|by eexists]].
  destruct A3 as (En & B1 & B2 & B3). apply commit_run in E. destruct o as [[]|e].
  2: { left. subst s'. split; [|by eexists]. split; [done|]. eapply ids_ok_weaken; [done|]. cbn. auto. }
  right. split; [done|]. exists ukey, pfx, L. cbv zeta. fold Lm. split_and!; try done. by exists s1, drops, En.
Qed.

Lemma abort_upload_inv (b k id : bytes) now s o s' issued writers :
  minv s issued writers -> ample s -> is_i64 now -> abort_upload b k id now s = (o, s') ->
  minv s' issued writers /\ keeps s writers s' writers.
Proof.
  intros Hi Ham Hnow E.
  destruct (abort_upload_run _ _ _ _ _ _ _ _ _ Hi Ham Hnow E) as [[Ht _]|(-> & ukey & pfx & L & Huk & Hp & HL & Hc)]; [by eapply minv_threw|].
  cbv zeta in Hc. destruct Hc as (s1 & ops & En & C1 & C2 & C3 & C4 & C5). set (Lm := marked b k id ∅ L) in *.
  set (O := tab s kObjects) in *. set (P := tab s kParts) in *. pose proof (mi_refs _ _ _ Hi) as HR. fold O P in HR.
  assert (forall key d, (key, d) ∈ part_data b k id L -> O !! key = None /\ holders O P !! key = Some d) as HLh.
  { intros key d Hin. by destruct (part_data_holders P b k id L O key d HL (mi_objects _ _ _ Hi) Hin) as (? & _ & ?). }
  assert (forall q, lsum (λ (_ : bytes) (x : DataRef * bool), (if x.2 then pack_bytes q (object_ov []) x.1 else 0)%Z) Lm = 0%Z /\
                    lsum (λ (_ : bytes) (x : DataRef * bool), (if x.2 then pack_recs q x.1 else 0)%Z) Lm = 0%Z) as Hz.
  { intros q. split; apply lsum_zero; intros key y ([no p] & [= -> ->] & _)%list_elem_of_fmap; done. }
  pose proof (parts_range P b k id pfx L HL Hp) as Hrg. cbn [apply_op] in Hrg.
  eapply (minv_commit s s1 s' issued writers _ _ ops En); [done|done|done|exact C3|exact C4|exact C5|done..| | | | | | | | |done| |by left].
  all: eval_batch; fold O P.
  all: rewrite ?Hrg, ?holders_without by (intros ? ([? ?] & -> & ?)%list_elem_of_fmap; by eapply HLh).
  - apply Hi.
  - apply parts_ok_without, Hi.
  - apply map_Forall_delete, Hi.
  - assert (move_refs [] Lm = flat_map (λ x, batch_refs x.2 false []) (part_data b k id L)) as ->.
    { unfold move_refs, Lm, marked, part_data. by rewrite !flat_map_fmap. }
    apply refs_leave; [done|apply HLh|by eapply part_data_NoDup].
  - intros q. rewrite (proj1 (ledger_leave O P b k id ∅ L q HL)). fold Lm. unfold moved_bytes. rewrite lsum_minus, (proj1 (Hz q)). lia.
  - intros q. rewrite (proj2 (ledger_leave O P b k id ∅ L q HL)). fold Lm. unfold moved_recs. rewrite lsum_minus, (proj2 (Hz q)). lia.
  - intros i (key & d & Hin & Hid)%given_up_elem. apply marked_elem in Hin. eapply (leave_held (holders O P)); [done|by apply HLh| |done].
    apply list_elem_of_fmap. by exists (key, d).
  - intros i Hh%held_without. split; [by left|]. by apply (mi_held _ _ _ Hi).
  - intros i Hh. destruct (held_split (part_data b k id L).*1 i Hh) as [|(key & d & Hin & Hd & Hid)]; [by left|right].
    apply given_up_elem. apply list_elem_of_fmap in Hin as ([key' d'] & -> & Hin). exists key', d. split; [|done].
    destruct (HLh _ _ Hin) as [_ E']. cbn in Hd. fold O P in Hd. rewrite Hd in E'. injection E' as ->.
    unfold Lm. apply list_elem_of_fmap in Hin as ([no p] & [= -> ->] & Hin). apply list_elem_of_fmap. by exists (no, p).
Qed.

(** * Completion *)
Section complete.
Context (md5_hex sha1 sha256 : bytes -> bytes).
Abbreviation complete := (complete_upload md5_hex sha1 sha256).

Lemma complete_upload_run (b k id : bytes) parts now tp s o s' issued writers :
  minv s issued writers -> ample s -> is_i64 now -> is_i64 (to_unix_ms tp) -> validate_part_order parts = Ok tt ->
  (upload_extents (tab s kParts) b k id < 2 ^ 32)%Z ->
  complete b k id parts now tp s = (o, s') ->
  (threw s s' /\ exists e, o = Throw e) \/
  exists okey old rec enc ukey pfx stored ps,
    let L := marked b k id (list_to_set (pi_part_no <$> parts)) (map_items Z.le stored) in
    let d := default [] (data_of_object <$> tab s kObjects !! okey) in
    o = Ok (etag (or_meta rec)) /\ is_Some (tab s kBuckets !! b) /\ object_key b k = Ok okey /\ parts_prefix b k id = Ok pfx /\ upload_key b k id = Ok ukey /\
    opt_decode (decode_object k) (tab s kObjects !! okey) = Ok old /\
    encode_object (set_version (next_version old) rec) = Ok enc /\ object_rec_ok rec /\
    upload_parts (tab s kParts) b k id (map_items Z.le stored) /\
    Forall2 (λ n p, stored !! n = Some p) (pi_part_no <$> parts) ps /\ or_data rec = concat (pr_data <$> ps) /\
    committed s s' [BPut kObjects okey enc; BDelete kUploads ukey; BDeleteRange kParts pfx (default pfx (bump_last_byte pfx))]
      (move_refs okey L ++ batch_refs d false []) (given_up L ++ d)
      (λ p, moved_bytes okey L p - pack_bytes p (object_ov okey) d)%Z (λ p, moved_recs L p - pack_recs p d)%Z.
Proof.
  intros Hi Ham Hnow Htp [Hne Hasc]%validate_part_order_Ok Hfew E. pose proof (stopped_threw o s s' _ _ Hi) as Hstop. unfold complete_upload in E.
  apply require_upload_bind in E as [?|(ukey0 & uv & up & _ & _ & Huv & Hup & E)]; [stop|]. apply require_bucket_bind in E as [?|[Hbk E]]; [stop|].
  apply (scan_parts_bind _ _ _ _ _ _ _ issued writers Hi) in E as [?|(pfx0 & ps0 & _ & HL0 & E)]; [stop|]. cbv zeta in E.
  apply upload_parts_map in HL0. set (stored := list_to_map ((λ p, (pr_part_no p, p)) <$> ps0) : gmap Z PartRec) in *.
  apply lift_bind in E as [?|([rec sel] & Has & E)]; [stop|]. cbn [fst snd] in E. apply lift_bind in E as [?|(okey & Hk & E)]; [stop|].
  apply get_raw_bind in E as [?|E]; [stop|].
  destruct (read_old_object (tab s kObjects) k okey (mi_objects _ _ _ Hi)) as (old & Hold & Hdata & _).
  rewrite Hold in E. apply lift_bind in E as [?|(? & [= <-] & E)]; [stop|]. apply lift_bind in E as [?|(enc & Henc & E)]; [stop|].
  apply lift_bind in E as [?|(ukey & Huk & E)]; [stop|]. apply lift_bind in E as [?|(pfx & Hp & E)]; [stop|].
  assert (exists ps, Forall2 (λ n p, stored !! n = Some p) (pi_part_no <$> parts) ps /\ or_data rec = concat (pr_data <$> ps) /\
    sel = list_to_set (pi_part_no <$> parts) /\ object_rec_ok rec) as (ps & HF & Hd & -> & Hok).
  { assert (Forall is_u64 (part_sizes (ur_meta up))) as Hps.
    { destruct (mi_uploads _ _ _ Hi ukey0 uv Huv) as (r & R1 & R2 & R3). rewrite (upload_record_roundtrip k id uv r R1 R2 R3) in Hup. by injection Hup as <-. }
    assert (map_Forall (λ _ p, part_rec_ok p) stored) as Hst.
    { intros n p Hn%(map_items_elem Z.le). by destruct (up_stored _ _ _ _ _ HL0 n p Hn) as (_ & _ & ? & _). }
    apply (assemble_spec md5_hex sha1 sha256 (ur_meta up) parts stored tp); try done.
    pose proof Has as Has'. unfold assemble_completed_object in Has'. destruct (select_parts_loop stored parts _) as [a|] eqn:Es; [|done]. cbn [mbind res_bind] in Has'.
    destruct (apply_composite_checksum _ _ _ _ _). injection Has' as <- _. apply select_loop in Es as (ps & HF & -> & _). cbn.
    pose proof (selected_extents _ b k id stored _ ps HL0 (ascending_NoDup _ _ Hasc) HF). lia. }
  set (Lm := marked b k id (list_to_set (pi_part_no <$> parts)) (map_items Z.le stored)) in *.
  set (d := default [] (data_of_object <$> tab s kObjects !! okey)).
  assert (wf_data d /\ (Z.of_nat (length (given_up Lm)) + Z.of_nat (length d) <= stored_extents (tab s kObjects) (tab s kParts))%Z) as [Hdw Hdl].
  { pose proof (given_up_stored (tab s kObjects) _ b k id (list_to_set (pi_part_no <$> parts)) _ HL0) as Hg. fold Lm in Hg.
    pose proof (ksum_lookup (λ _ v, Z.of_nat (length (data_of_object v))) (tab s kObjects) okey ltac:(intros; cbn; lia)) as Hkv. unfold kval in Hkv.
    unfold d. destruct (tab s kObjects !! okey) as [v|] eqn:Ev; cbn;
      split; try lia; [by apply data_of_object_wf, (mi_objects _ _ _ Hi okey)|constructor]. }
  apply ST_bind_run in E as [(moves & s1 & Hmv & E)|(e & Hmv & ->)];
    destruct (complete_parts_run (tab s kParts) b k id okey now (list_to_set (pi_part_no <$> parts)) (map_items Z.le stored) s _ _ (seq_used (tab s kGcq)) (Z.of_nat (length d)) HL0 Hk Hnow (mi_seq _ _ _ Hi)
      ltac:(eapply room_weaken; [exact Ham|fold Lm; lia]) ltac:(lia) Hmv) as (A1 & A2 & A3); fold Lm in A3; [|left; split; [by split|by eexists]].
  destruct A3 as (En & B1 & B2 & B3). rewrite (object_ov_eq b k okey Hk) in E.
  assert (forall o s'', drop_old now old (object_ov okey) s1 = (o, s'') -> acct_run s1 s'' o (λ i, seq_used (tab s kGcq) i \/ i ∈ En.*1) 0 d (batch_refs d false [])
    (λ p, - pack_bytes p (object_ov okey) d)%Z (λ p, - pack_recs p d)%Z) as Hdrop.
  { intros o1 s1' Hdr. assert ((match or_data <$> old with Some d => drop_data now d kOverwrite (object_ov okey) | None => mret [] end) s1 = (o1, s1')) as Hdr'
      by (rewrite <- Hdr; by destruct old). rewrite Hdata in Hdr'. fold d in Hdr'.
    by apply (drop_opt_run _ now kOverwrite (object_ov okey) s1 o1 s1' _ 0); [|..|eapply room_weaken; [exact A2|fold d; lia]| |]. }
  apply ST_bind_run in E as [(drops & s2 & Hdr & E)|(e & Hdr & ->)]; specialize (Hdrop _ _ Hdr).
  2: { left. split; [|by eexists]. destruct Hdrop as (D1 & _ & D2). split; [by eapply only_counter_trans|]. eapply ids_ok_weaken; [done|]. cbn. auto. }
  pose proof (acct_run_bind B1 A1 B2 B3 (Z.le_refl 0) Hdrop eq_refl) as (C1 & _ & En' & C2 & C3 & C4).
  apply commit_bind in E as [[-> He]|(s3 & Hap & E)].
  { left. split; [|done]. split; [done|]. eapply ids_ok_weaken; [done|]. cbn. auto. }
  apply mret_run in E as [-> ->]. right. exists okey, old, rec, enc, ukey, pfx, stored, ps. cbv zeta. fold Lm d. split_and!; try done.
  exists s2, (moves ++ drops), En'. split_and!; [done|done|done| |done].
  eapply acct_ext; [exact C2| |]; intros p; cbv beta; lia.
Qed.

Lemma complete_upload_inv (b k id : bytes) parts now tp s o s' issued writers :
  minv s issued writers -> ample s -> is_i64 now -> is_i64 (to_unix_ms tp) -> validate_part_order parts = Ok tt ->
  (upload_extents (tab s kParts) b k id < 2 ^ 32)%Z ->
  complete b k id parts now tp s = (o, s') -> minv s' issued writers /\ keeps s writers s' writers.
Proof.
  intros Hi Ham Hnow Htp Hpo Hfew E. pose proof Hpo as [_ Hasc]%validate_part_order_Ok.
  destruct (complete_upload_run _ _ _ _ _ _ _ _ _ _ _ Hi Ham Hnow Htp Hpo Hfew E) as
    [[Ht _]|(okey & old & rec & enc & ukey & pfx & stored & ps & Hc)]; [by eapply minv_threw|]. cbv zeta in Hc.
  destruct Hc as (-> & _ & Hk & Hp & _ & _ & Henc & Hok & HL & HF & Hd & (s1 & ops & En & C1 & C2 & C3 & C4 & C5)).
  set (sel := list_to_set (pi_part_no <$> parts) : gset Z) in *. set (L := map_items Z.le stored) in *. set (Lm := marked b k id sel L) in *.
  set (O := tab s kObjects) in *. set (P := tab s kParts) in *. pose proof (mi_refs _ _ _ Hi) as HR. fold O P in HR.
  destruct (object_value_encode _ _ (set_version_ok _ _ (next_version_u64 old) Hok) Henc) as [Hv Hdv]. cbn in Hdv.
  pose proof (holders_at_object O P b k okey (mi_parts _ _ _ Hi) Hk) as HH.
  assert (forall key x, (key, x) ∈ Lm -> O !! key = None /\ holders O P !! key = Some x.1) as HLh by (intros key x Hin; by apply (marked_holders s b k id sel L issued writers)).
  assert (NoDup Lm.*1) as Hnd by (unfold Lm; rewrite marked_keys; by eapply part_data_NoDup).
  assert (okey ∉ Lm.*1) as HoL.
  { intros ([key x] & -> & ([no p] & [= -> ->] & Hin)%list_elem_of_fmap)%list_elem_of_fmap. destruct (up_stored _ _ _ _ _ HL no p Hin) as (_ & Hpk & _).
    by destruct (object_part_key b k b k id no _ Hk Hpk). }
  assert (forall i, i ∈ ref_ids (or_data rec) <-> exists x, x ∈ Lm /\ x.2.2 = true /\ i ∈ ref_ids x.2.1) as Hids
    by (intros i; rewrite Hd; by apply marked_refs).
  destruct (move_held (holders O P) _ okey Lm (or_data rec) HR (λ k x Hin, proj2 (HLh k x Hin)) Hnd HoL Hids) as (HQ & HLv & K1).
  pose proof (parts_range P b k id pfx L HL Hp) as Hrg. cbn [apply_op] in Hrg. rewrite <- (marked_keys b k id sel L) in Hrg. fold Lm in Hrg.
  assert (holders (<[okey:=enc]> O) (without Lm.*1 P) = <[okey:=or_data rec]> (without Lm.*1 (holders O P))) as Hholders.
  { rewrite holders_insert_object, Hdv, holders_without; [done|]. intros ? ([key x] & -> & Hin)%list_elem_of_fmap. by destruct (HLh key x Hin). }
  eapply (minv_commit s s1 s' issued writers _ _ ops En); [done|done|done|exact C3|exact C4|exact C5|done..| | | | | | | | |done| |by left].
  all: eval_batch; fold O P; rewrite ?Hrg, ?Hholders.
  - apply map_Forall_insert_2; [|apply Hi]. split; [by exists b, k|done].
  - apply parts_ok_without, Hi.
  - apply map_Forall_delete, Hi.
  - rewrite <- HH. apply refs_move; try done; [intros; by apply HLh|apply Hok].
  - intros q. rewrite (proj1 (ledger_put_object O (without Lm.*1 P) okey enc _ q eq_refl)). unfold Lm at 1. rewrite marked_keys.
    rewrite (proj1 (ledger_leave O P b k id sel L q HL)). fold Lm. rewrite Hdv, Hd, pack_bytes_concat.
    rewrite <- (marked_select (pack_bytes q (object_ov okey)) b k id stored _ ps (ascending_NoDup _ _ Hasc) HF). fold L sel Lm.
    unfold moved_bytes. rewrite lsum_minus. lia.
  - intros q. rewrite (proj2 (ledger_put_object O (without Lm.*1 P) okey enc _ q eq_refl)). unfold Lm at 1. rewrite marked_keys.
    rewrite (proj2 (ledger_leave O P b k id sel L q HL)). fold Lm. rewrite Hdv, Hd, pack_recs_concat.
    rewrite <- (marked_select (pack_recs q) b k id stored _ ps (ascending_NoDup _ _ Hasc) HF). fold L sel Lm.
    unfold moved_recs. rewrite lsum_minus. lia.
  - rewrite <- HH. exact HQ.
  - intros i Hh%HLv. split; [by left|]. by apply (mi_held _ _ _ Hi).
  - rewrite <- HH. exact K1.
Qed.
End complete.

End parts.
