(* ===== verification/RocksSteps.v ===== *)
(** The RocksDB engine as a system: the operations its clients interleave as a step
    relation over the store, the files allocated, the files writers hold and the files
    retired, and the invariant of its reachable states. *)

From S2P Require Import Prelude Bytes Backend Listing Multipart Codec CodecProofs CodecKeys MetaUtil.
From S2P Require Import RocksDb RocksMeta RocksLedger RocksProofs RocksInv RocksOps RocksParts.
From Stdlib Require Import ZArith Lia.
From stdpp Require Import base list gmap sets strings sorting relations.
Open Scope lights3_scope.

(** Files a contiguous run of ids stands for. *)
Definition id_run (first n : Z) : gset Z := list_to_set ((λ i, first + Z.of_nat i)%Z <$> seq 0 (Z.to_nat n)).
Lemma elem_id_run first n i : i ∈ id_run first n <-> (first <= i < first + n)%Z.
Proof.
  unfold id_run. rewrite elem_of_list_to_set, list_elem_of_fmap. setoid_rewrite elem_of_seq. split.
  - intros (j & -> & Hj). lia.
  - intros Hi. exists (Z.to_nat (i - first)). lia.
Qed.

(** Files of the queue entries with the numbers [l]. *)
Definition entry_files (G : table) (l : list Z) : gset Z :=
  ⋃ ((λ q, match G !! be64_key q with Some v => ref_ids (data_of_reclaim v) | None => ∅ end) <$> l).

(** ** A pack without records weighs nothing *)
Lemma ksum_zero {K V} `{Countable K} (f : K -> V -> Z) (m : gmap K V) : (forall k v, m !! k = Some v -> f k v = 0%Z) -> ksum f m = 0%Z.
Proof.
  intros Hz. rewrite (ksum_ext f (λ _ _, 0%Z)) by done. clear Hz. induction m as [|k v m Hk IH] using map_ind; [apply ksum_empty|].
  by rewrite ksum_insert_new, IH.
Qed.
Lemma ksum_zero_inv {K V} `{Countable K} (f : K -> V -> Z) (m : gmap K V) :
  (forall k v, 0 <= f k v)%Z -> ksum f m = 0%Z -> forall k v, m !! k = Some v -> f k v = 0%Z.
Proof. intros Hf Hz k v Hk. pose proof (ksum_lookup f m k Hf) as Hle. unfold kval in Hle. rewrite Hk in Hle. specialize (Hf k v). lia. Qed.
Lemma pack_bytes_zero p ov d : pack_recs p d = 0%Z -> pack_bytes p ov d = 0%Z.
Proof.
  induction d as [|e d IH]; cbn [pack_recs pack_bytes foldr]; [done|]. fold (pack_recs p d) (pack_bytes p ov d). pose proof (pack_recs_range p d).
  destruct (is_pack e && (Extent.file_id e =? p)%Z); [lia|]. intros Hz. rewrite IH; lia.
Qed.

Lemma ledger_recs_zero (O P : table) p :
  ledger_recs O P p = 0%Z ->
  (forall k v, O !! k = Some v -> pack_recs p (data_of_object v) = 0%Z) /\ (forall k v, P !! k = Some v -> pack_recs p (data_of_part v) = 0%Z).
Proof.
  unfold ledger_recs. intros Hz.
  pose proof (ksum_nonneg (λ _ v, pack_recs p (data_of_object v)) O ltac:(intros; cbn; apply pack_recs_range)).
  pose proof (ksum_nonneg (λ _ v, pack_recs p (data_of_part v)) P ltac:(intros; cbn; apply pack_recs_range)).
  split.
  - apply (ksum_zero_inv (λ _ v, pack_recs p (data_of_object v))); [intros; apply pack_recs_range|lia].
  - apply (ksum_zero_inv (λ _ v, pack_recs p (data_of_part v))); [intros; apply pack_recs_range|lia].
Qed.
Lemma ledger_bytes_zero (O P : table) p : ledger_recs O P p = 0%Z -> ledger_bytes O P p = 0%Z.
Proof.
  intros [H1 H2]%ledger_recs_zero. unfold ledger_bytes. rewrite !ksum_zero; [done| |]; intros k v Hk; apply pack_bytes_zero; eauto.
Qed.

Lemma ksum_le {K V} `{Countable K} (f g : K -> V -> Z) (m : gmap K V) : (forall k v, f k v <= g k v)%Z -> (ksum f m <= ksum g m)%Z.
Proof.
  intros Hle. induction m as [|k v m Hk IH] using map_ind; [by rewrite !ksum_empty|]. rewrite !ksum_insert_new by done.
  specialize (Hle k v). lia.
Qed.
Lemma ledger_recs_range (O P : table) p : (0 <= ledger_recs O P p <= stored_extents O P)%Z.
Proof.
  unfold ledger_recs, stored_extents.
  pose proof (ksum_nonneg (λ _ v, pack_recs p (data_of_object v)) O ltac:(intros; cbn; apply pack_recs_range)).
  pose proof (ksum_nonneg (λ _ v, pack_recs p (data_of_part v)) P ltac:(intros; cbn; apply pack_recs_range)).
  pose proof (ksum_le (λ _ v, pack_recs p (data_of_object v)) (λ _ v, Z.of_nat (length (data_of_object v))) O ltac:(intros; cbn; apply pack_recs_range)).
  pose proof (ksum_le (λ _ v, pack_recs p (data_of_part v)) (λ _ v, Z.of_nat (length (data_of_part v))) P ltac:(intros; cbn; apply pack_recs_range)). lia.
Qed.

Lemma delete_ops_lookup (c : Cf) (ks : list bytes) (t : table) k v :
  apply_ops ((λ k, BDelete c k) <$> ks) t !! k = Some v <-> t !! k = Some v /\ k ∉ ks.
Proof.
  revert t. induction ks as [|x ks IH]; intros t; cbn [fmap list_fmap].
  { cbn. set_solver. }
  rewrite apply_ops_cons, IH. cbn [apply_op]. rewrite lookup_delete_Some, not_elem_of_cons. naive_solver.
Qed.

Section steps.
Context {DB : Type} {rocks : RocksDB DB} {law : RocksLaw DB} {bound : Passed}.
Context (md5_hex sha1 sha256 sha256_hex : bytes -> bytes).
Abbreviation M := (ST (Meta DB) S3ErrorCode).
Implicit Types (s : Meta DB) (issued : Issued) (writers : gset Z).

(** * Write-offs, allocation and restart *)

(** Records and references stay; the queue may shrink, ids may be handed out. *)
Lemma minv_account s s' issued issued' writers writers' :
  minv s issued writers -> (forall c, c = kObjects \/ c = kParts \/ c = kUploads \/ c = kRefs -> tab s' c = tab s c) ->
  tab s' kGcq ⊆ tab s kGcq ->
  (forall p, is_u64 p -> stat (tab s' kStats) (pack_stat_key p (ch "b")) ≡₆₄ ledger_bytes (tab s kObjects) (tab s kParts) p) ->
  (forall p, is_u64 p -> stat (tab s' kStats) (pack_stat_key p (ch "r")) ≡₆₄ ledger_recs (tab s kObjects) (tab s kParts) p) ->
  ids_ok s' CSeq (seq_used (tab s' kGcq)) -> ids_ok s' CChunk (λ i, i ∈ chunks issued') ->
  ids_ok s' CPack (λ i, i ∈ packs issued') -> chunks issued ⊆ chunks issued' ->
  writers' ⊆ chunks issued' -> (forall i, i ∈ writers' -> i ∈ writers \/ i ∉ chunks issued) ->
  minv s' issued' writers'.
Proof.
  intros [I1 I2 I3 I4 I5 I6 I7 I8 I9 I10 I11 I12 I13] E Hq Hb Hr Hseq Hch Hpk Hi Hw Hf.
  assert (forall i, queued (tab s' kGcq) i -> queued (tab s kGcq) i) as HQ.
  { intros i (k & v & Hk & Hv). exists k, v. split; [|done]. by eapply lookup_weaken. }
  split; rewrite ?(E kObjects), ?(E kParts), ?(E kUploads), ?(E kRefs) by auto; try done.
  - destruct I4 as [K1 K2]. split.
    + intros k [v Hv]. apply K1. exists v. by eapply lookup_weaken.
    + intros k v Hv. apply (K2 k). by eapply lookup_weaken.
  - intros i Hh. destruct (I11 i Hh). split; [by apply Hi|]. intros Hw'. by destruct (Hf i Hw').
  - intros i Hqi%HQ. destruct (I12 i Hqi) as (? & ? & ?). split_and!; [by apply Hi| |done]. intros Hw'. by destruct (Hf i Hw').
Qed.

Lemma seq_used_sub (G G' : table) i : G' ⊆ G -> seq_used G' i -> seq_used G i.
Proof. intros Hs [Hu [[v Hv]|Hlt]]; (split; [done|]); [left|by right]. exists v. by eapply lookup_weaken. Qed.

Lemma queue_shrinks (G G' : table) : G' ⊆ G -> queue_grows G G'.
Proof. intros Hs i v _ Hv. left. by eapply lookup_weaken. Qed.
Lemma ack_reclaims_sub l s o s' : ack_reclaims l s = (o, s') -> tab s' kGcq ⊆ tab s kGcq.
Proof using Type.
  intros E. unfold ack_reclaims in E. case_bool_decide; [by apply mret_run in E as [_ ->]|]. apply commit_run in E. destruct o; [|by subst].
  destruct E as [Ht _]. apply map_subseteq_spec. intros k v Hk. rewrite Ht, on_cf_all in Hk by (by apply list.Forall_fmap, list.Forall_true).
  rewrite (list_fmap_compose be64_key (λ k, BDelete kGcq k)) in Hk. by apply delete_ops_lookup in Hk as [? _].
Qed.

Lemma ack_reclaims_inv l s o s' issued writers :
  minv s issued writers -> ack_reclaims l s = (o, s') ->
  minv s' issued writers /\ (forall c, c <> kGcq -> tab s' c = tab s c) /\
  (forall i, queued (tab s kGcq) i -> queued (tab s' kGcq) i \/ i ∈ entry_files (tab s kGcq) l).
Proof using Type.
  intros Hi E. assert (s' = s -> minv s' issued writers /\ (forall c, c <> kGcq -> tab s' c = tab s c) /\
    (forall i, queued (tab s kGcq) i -> queued (tab s' kGcq) i \/ i ∈ entry_files (tab s kGcq) l)) as Hsame by (intros ->; split_and!; auto).
  unfold ack_reclaims in E. case_bool_decide; [apply mret_run in E as [_ ->]; auto|].
  apply commit_run in E. destruct o; [|auto]. destruct E as [Ht Hr].
  assert (forall c, c <> kGcq -> tab s' c = tab s c) as Et.
  { intros c Hc. rewrite Ht, on_cf_none; [done|]. apply list.Forall_fmap, list.Forall_true. intros x. by cbn. }
  assert (tab s' kGcq = apply_ops ((λ k, BDelete kGcq k) <$> (be64_key <$> l)) (tab s kGcq)) as EG.
  { rewrite Ht, on_cf_all; [by rewrite <- list_fmap_compose|]. by apply list.Forall_fmap, list.Forall_true. }
  assert (tab s' kGcq ⊆ tab s kGcq) as Hsub.
  { apply map_subseteq_spec. intros k v Hk. rewrite EG in Hk. by apply delete_ops_lookup in Hk as [? _]. }
  split_and!; [|done|].
  - eapply (minv_account s); try done; rewrite ?(Et kStats) by done; try apply Hi.
    + intros c Hc. apply Et. by destruct Hc as [->|[->|[->| ->]]].
    + eapply ids_ok_same; [|apply Hr|unfold cstat; by rewrite Et]. eapply ids_ok_weaken; [apply Hi|]. intros i. by apply seq_used_sub.
    + eapply ids_ok_same; [apply Hi|apply Hr|unfold cstat; by rewrite Et].
    + eapply ids_ok_same; [apply Hi|apply Hr|unfold cstat; by rewrite Et].
    + intros i ?. by left.
  - intros i (k & v & Hk & Hv). destruct (decide (k ∈ be64_key <$> l)) as [Hin|Hn].
    + right. apply list_elem_of_fmap in Hin as (q & -> & Hq). unfold entry_files. apply elem_of_union_list.
      exists (ref_ids (data_of_reclaim v)). split; [|done]. apply list_elem_of_fmap. exists q. by rewrite Hk.
    + left. exists k, v. split; [|done]. rewrite EG. by apply delete_ops_lookup.
Qed.

(** A change of the statistics that leaves the counters of live packs. *)
Lemma minv_stats s s' issued writers :
  minv s issued writers -> (forall c, c <> kStats -> tab s' c = tab s c) -> (forall c, range c s' = range c s) ->
  (forall c, tab s' kStats !! counter_key c = tab s kStats !! counter_key c) ->
  (forall p f, is_u64 p -> f = ch "b" \/ f = ch "r" -> ledger_recs (tab s kObjects) (tab s kParts) p = 0%Z /\ tab s' kStats !! pack_stat_key p f = None \/
     tab s' kStats !! pack_stat_key p f = tab s kStats !! pack_stat_key p f) ->
  (forall p, ledger_recs (tab s kObjects) (tab s kParts) p = 0%Z -> ledger_bytes (tab s kObjects) (tab s kParts) p = 0%Z) ->
  minv s' issued writers /\ keeps s writers s' writers.
Proof.
  intros Hi Et Hr Hc Hs Hz. split; [|by apply keeps_same; intros c [->|[->| ->]]; apply Et].
  eapply (minv_account s); try done; rewrite ?(Et kGcq) by done; try done; try apply Hi.
  - intros c Hcc. apply Et. by destruct Hcc as [->|[->|[->| ->]]].
  - intros p Hp. unfold stat. destruct (Hs p (ch "b") Hp ltac:(auto)) as [[Hl ->]|E].
    + by rewrite (Hz p Hl).
    + rewrite E. by apply (mi_bytes _ _ _ Hi).
  - intros p Hp. unfold stat. destruct (Hs p (ch "r") Hp ltac:(auto)) as [[Hl ->]|E].
    + by rewrite Hl.
    + rewrite E. by apply (mi_recs _ _ _ Hi).
  - eapply ids_ok_same; [apply Hi|apply Hr|unfold cstat, stat; by rewrite Hc].
  - eapply ids_ok_same; [apply Hi|apply Hr|unfold cstat, stat; by rewrite Hc].
  - eapply ids_ok_same; [apply Hi|apply Hr|unfold cstat, stat; by rewrite Hc].
  - intros i ?. by left.
Qed.

(** What the store says of a pack is what live records use of it. *)
Lemma pack_counted s issued writers p :
  minv s issued writers -> is_u64 p -> (stored_extents (tab s kObjects) (tab s kParts) < 2 ^ 63)%Z ->
  stat (tab s kStats) (pack_stat_key p (ch "r")) = ledger_recs (tab s kObjects) (tab s kParts) p.
Proof.
  intros Hi Hp Hlt. apply eqm64_small; [| |by apply (mi_recs _ _ _ Hi)].
  - unfold stat. destruct (_ !! _); [apply counter_range|lia].
  - pose proof (ledger_recs_range (tab s kObjects) (tab s kParts) p). lia.
Qed.

Lemma seal_pack_inv p size s o s' issued writers :
  minv s issued writers -> is_u64 p -> seal_pack p size s = (o, s') -> minv s' issued writers /\ keeps s writers s' writers.
Proof.
  intros Hi Hp E. unfold seal_pack in E.
  assert (exists known, (if bool_decide (known = true) then mret tt else enc ← lift (encode_counter_delta (i64 size)); commit [BPut kStats (pack_stat_key p (ch "s")) enc] : M unit) s = (o, s')
    \/ s' = s) as (known & [E'| ->]); [|clear E|by apply inv_refl].
  { apply ST_bind_run in E as [(known & s1 & Hk & E)|(e & Hk & ->)]; unfold seal_known in Hk.
    all: destruct (size =? 0)%Z; [apply get_raw_bind in Hk as [[-> _]|Hk]; [|apply mret_run in Hk as [Hk ->]]|apply mret_run in Hk as [Hk ->]].
    all: try (exists false; by right). all: exists known; by left. }
  case_bool_decide; [apply mret_run in E' as [-> ->]; by apply inv_refl|].
  rewrite encode_counter_eq, ST_bind_eq in E'. cbn [lift] in E'. apply commit_run in E'. destruct o; [|subst; by apply inv_refl].
  destruct E' as [Ht Hr]. assert (tab s' kStats = <[pack_stat_key p (ch "s") := le_bytes 8 (u64 (i64 size))]> (tab s kStats)) as Es.
  { rewrite Ht. by eval_batch. }
  eapply minv_stats; [done| |done| | |apply ledger_bytes_zero].
  - intros c Hc. rewrite Ht, on_cf_none; [done|by repeat constructor].
  - intros c. rewrite Es, lookup_insert_ne; [done|apply pack_stat_not_counter].
  - intros q f Hq Hf. right. rewrite Es, lookup_insert_ne; [done|]. intros [_ <-]%pack_stat_key_inj; [|done|done]. by destruct Hf.
Qed.

Lemma drop_pack_stat_inv p s o s' issued writers :
  minv s issued writers -> is_u64 p -> (stored_extents (tab s kObjects) (tab s kParts) < 2 ^ 63)%Z ->
  stat (tab s kStats) (pack_stat_key p (ch "r")) = 0%Z ->
  drop_pack_stat p s = (o, s') -> minv s' issued writers /\ keeps s writers s' writers.
Proof.
  intros Hi Hp Hlt Hz E. rewrite (pack_counted s issued writers p) in Hz by done. unfold drop_pack_stat in E.
  apply commit_run in E. destruct o; [|subst; by apply inv_refl]. destruct E as [Ht Hr].
  assert (tab s' kStats = apply_ops ((λ k, BDelete kStats k) <$> ((λ f, pack_stat_key p f) <$> [ch "b"; ch "r"; ch "s"])) (tab s kStats)) as Es.
  { rewrite Ht. by eval_batch. }
  assert (forall k, (forall f, k <> pack_stat_key p f) -> tab s' kStats !! k = tab s kStats !! k) as Hoth.
  { intros k Hk. apply option_eq. intros v. rewrite Es, delete_ops_lookup. split; [by intros [? _]|]. intros Hv. split; [done|].
    intros (f & -> & _)%list_elem_of_fmap. by apply (Hk f). }
  eapply minv_stats; [done| |done| | |apply ledger_bytes_zero].
  - intros c Hc. rewrite Ht, on_cf_none; [done|by repeat constructor].
  - intros c. apply Hoth. intros f Ef. symmetry in Ef. by apply pack_stat_not_counter in Ef.
  - intros q f Hq Hf. destruct (decide (q = p)) as [->|Hne].
    + left. split; [done|]. apply eq_None_not_Some. intros [v Hv]. rewrite Es, delete_ops_lookup in Hv. destruct Hv as [_ Hn]. apply Hn.
      apply list_elem_of_fmap. exists f. split; [done|]. destruct Hf as [->| ->]; set_solver.
    + right. apply Hoth. intros f' [? _]%pack_stat_key_inj; done.
Qed.

(** ** Allocation *)
Definition alloc_counter (kind : Extent.Kind) : Counter := match kind with Extent.kPack => CPack | _ => CChunk end.
Definition alloc_run (n : Z) (o : result Z) : gset Z := match o with Ok f => id_run f (clamp_run n) | Throw _ => ∅ end.
(** The ids an allocation adds, and those of them that are files of a writer. *)
Definition grown (kind : Extent.Kind) (n : Z) (o : result Z) (issued : Issued) : Issued :=
  match kind with
  | Extent.kPack => mkIssued (chunks issued) (packs issued ∪ alloc_run n o)
  | _ => mkIssued (chunks issued ∪ alloc_run n o) (packs issued)
  end.
Definition handed (kind : Extent.Kind) (n : Z) (o : result Z) : gset Z :=
  match kind with Extent.kPack => ∅ | _ => alloc_run n o end.
Definition taken_ids (kind : Extent.Kind) (issued : Issued) : gset Z := match kind with Extent.kPack => packs issued | _ => chunks issued end.

Lemma only_counter_account c s s' issued issued' writers writers' :
  minv s issued writers -> only_counter c s s' -> c <> CSeq -> ids_ok s' CChunk (λ i, i ∈ chunks issued') ->
  ids_ok s' CPack (λ i, i ∈ packs issued') -> chunks issued ⊆ chunks issued' -> writers' ⊆ chunks issued' ->
  (forall i, i ∈ writers' -> i ∈ writers \/ i ∉ chunks issued) -> minv s' issued' writers'.
Proof.
  intros Hi Ho Hc Hch Hpk H1 H2 H3. pose proof Ho as [O1 O2 O3].
  eapply (minv_account s); try done; rewrite ?(O1 kGcq) by done; try done.
  - intros cf Hcf. apply O1. by destruct Hcf as [->|[->|[->| ->]]].
  - intros p Hp. rewrite (stat_other s s' c) by done. by apply (mi_bytes _ _ _ Hi).
  - intros p Hp. rewrite (stat_other s s' c) by done. by apply (mi_recs _ _ _ Hi).
  - eapply ids_ok_same; [apply Hi|by apply O3|]. by apply (cstat_other s s' c).
Qed.

Lemma alloc_ids c n s o s' (used : gset Z) :
  ids_ok s c (λ i, i ∈ used) -> c <> CSeq -> room s c 1 -> alloc_id c n s = (o, s') ->
  only_counter c s s' /\ ids_ok s' c (λ i, i ∈ used ∪ alloc_run n o) /\ alloc_run n o ## used.
Proof.
  intros Hids Hc Hroom E. destruct (alloc_id_run c n s o s' _ 0 Hids ltac:(done) Hroom ltac:(lia) E) as (A1 & _ & A3). split; [done|].
  destruct o as [f|e]; cbn [alloc_run].
  - destruct A3 as (A3 & A4 & _). split; [|intros i Hin%elem_id_run; by apply A4].
    eapply ids_ok_weaken; [exact A3|]. cbn. intros i [Hin|Hin%elem_id_run]%elem_of_union; auto.
  - rewrite (right_id_L ∅ (∪)). split; [done|set_solver].
Qed.

Lemma alloc_file_run_inv kind n s o s' issued writers :
  minv s issued writers -> room s (alloc_counter kind) 1 -> alloc_file_run kind n s = (o, s') ->
  minv s' (grown kind n o issued) (writers ∪ handed kind n o) /\ alloc_run n o ## taken_ids kind issued /\
  tab s' kGcq = tab s kGcq /\ (forall i, live s' i <-> live s i).
Proof.
  intros Hi Hroom E. unfold alloc_file_run in E. fold (alloc_counter kind) in E.
  assert (ids_ok s (alloc_counter kind) (λ i, i ∈ taken_ids kind issued)) as Hids by (destruct kind; apply Hi).
  destruct (alloc_ids (alloc_counter kind) n s o s' _ Hids ltac:(by destruct kind) Hroom E) as (A1 & A2 & A3). pose proof A1 as [O1 _ O3].
  split_and!; [|done|by apply O1|intros i; unfold live; by rewrite !O1].
  assert (forall c' used, c' <> alloc_counter kind -> ids_ok s c' used -> ids_ok s' c' used) as Hother.
  { intros c' used Hc Hok. eapply ids_ok_same; [done|by apply O3|]. by apply (cstat_other s s' (alloc_counter kind)); [apply A1|]. }
  pose proof (mi_writers _ _ _ Hi) as Hw.
  destruct kind; cbn [grown handed taken_ids alloc_counter] in *.
  all: eapply (only_counter_account _ s _ issued _ writers _ Hi A1); cbn [chunks packs].
  all: first [done|by apply Hother; [|apply Hi]|clear -Hw A3; set_solver].
Qed.

(** ** Restart: the tables are as they were, the id ranges are gone *)
Definition reopened (s : Meta DB) : Meta DB := mkMeta (opt_sync s) (handle s) (mkRange 0 0) (mkRange 0 0) (mkRange 0 0).

Lemma reopened_ids s c used : ids_ok s c used -> ids_ok (reopened s) c used.
Proof.
  intros [R1 R2 R3 R4]. assert (range c (reopened s) = mkRange 0 0) as Er by (by destruct c). split; rewrite ?Er; cbn; [lia| | |auto].
  - change (cstat (reopened s) c) with (cstat s c). lia.
  - intros i Hu. change (cstat (reopened s) c) with (cstat s c). destruct (R3 i Hu). lia.
Qed.

Lemma reopened_inv s issued writers : minv s issued writers -> minv (reopened s) issued ∅.
Proof.
  intros Hi. eapply (minv_account s (reopened s)); try done; try apply Hi; try (apply reopened_ids, Hi); clear; set_solver.
Qed.

(** ** Buckets and the key/value facade *)
Lemma aside_inv {A} ops (a : A) s o s' issued writers :
  minv s issued writers -> Forall (λ x, op_cf x = kBuckets \/ op_cf x = kTc \/ op_cf x = kDefault) ops ->
  (commit ops ≫= λ _, mret a) s = (o, s') -> minv s' issued writers /\ keeps s writers s' writers.
Proof.
  intros Hi Hf E. apply commit_bind in E as [[-> _]|(s1 & Hap & E)]; [by apply inv_refl|].
  apply mret_run in E as [_ ->]. by eapply minv_aside.
Qed.

Lemma meta_create_bucket_inv b now s o s' issued writers :
  minv s issued writers -> create_bucket b now s = (o, s') -> minv s' issued writers /\ keeps s writers s' writers.
Proof.
  intros Hi E. pose proof (minv_stopped o s s' _ _ Hi) as Hstop. unfold create_bucket in E.
  apply get_raw_bind in E as [?|E]; [auto|]. apply lift_bind in E as [?|(? & _ & E)]; [auto|].
  apply lift_bind in E as [?|(enc & _ & E)]; [auto|]. apply commit_run in E. destruct o; [|subst; by apply inv_refl].
  eapply minv_aside; [done|done|]. by repeat constructor.
Qed.
Lemma meta_delete_bucket_inv b s o s' issued writers :
  minv s issued writers -> delete_bucket b s = (o, s') -> minv s' issued writers /\ keeps s writers s' writers.
Proof.
  intros Hi E. pose proof (minv_stopped o s s' _ _ Hi) as Hstop. unfold delete_bucket in E.
  apply require_bucket_bind in E as [?|[_ E]]; [auto|]. apply items_bind in E as [?|E]; [auto|].
  apply lift_bind in E as [?|(? & _ & E)]; [auto|]. apply items_bind in E as [?|E]; [auto|].
  apply lift_bind in E as [?|(? & _ & E)]; [auto|]. apply commit_run in E. destruct o; [|subst; by apply inv_refl].
  eapply minv_aside; [done|done|]. by repeat constructor.
Qed.

Lemma kv_stage_run puts s o s' :
  kv_stage sha256_hex puts s = (o, s') -> s' = s /\ forall r, o = Ok r ->
    r.1 = (λ p, BPut kTc (kp_key p) (kp_value p)) <$> puts /\ r.2 = (λ p, kv_etag sha256_hex (kp_value p)) <$> puts /\
    Forall (λ p, check_kv_condition (kp_cond p) (kv_etag sha256_hex <$> tab s kTc !! kp_key p) = Ok tt) puts.
Proof.
  revert o s'. induction puts as [|p puts IH]; intros o s' E.
  { apply mret_run in E as [-> ->]. split; [done|]. intros r [= <-]. by split_and!; [| |constructor]. }
  cbn [kv_stage] in E. apply get_raw_bind in E as [[-> [e ->]]|E]; [done|]. apply lift_bind in E as [[-> [e ->]]|([] & Hc & E)]; [done|].
  apply ST_bind_run in E as [(more & s1 & Hm & E)|(e & Hm & ->)]; destruct (IH _ _ Hm) as [-> Hr]; [|done].
  apply mret_run in E as [-> ->]. split; [done|]. intros r [= <-]. destruct (Hr more eq_refl) as (E1 & E2 & E3). cbn.
  rewrite E1, E2. by split_and!; [| |constructor].
Qed.
Lemma kv_put_batch_inv puts s o s' issued writers :
  minv s issued writers -> kv_put_batch sha256_hex puts s = (o, s') -> minv s' issued writers /\ keeps s writers s' writers.
Proof.
  intros Hi E. unfold kv_put_batch in E. apply ST_bind_run in E as [(r & s1 & Hst & E)|(e & Hst & ->)];
    apply kv_stage_run in Hst as [-> Hr]; [|by apply inv_refl]. destruct (Hr r eq_refl) as (E1 & _ & _). rewrite E1 in E.
  eapply aside_inv; [done| |exact E]. apply list.Forall_fmap, list.Forall_true. intros p. cbn. auto.
Qed.
Lemma kv_delete_inv key s o s' issued writers :
  minv s issued writers -> kv_delete key s = (o, s') -> minv s' issued writers /\ keeps s writers s' writers.
Proof.
  intros Hi E. unfold kv_delete in E. apply get_raw_bind in E as [[-> _]|E]; [by apply inv_refl|].
  case_bool_decide; [|apply mret_run in E as [_ ->]; by apply inv_refl].
  eapply aside_inv; [done| |exact E]. apply list.Forall_singleton. cbn. auto.
Qed.

(** * The system *)

(** The store, the files ever allocated, those a writer still holds, and those whose
    deletion is done with. *)
Record Sys := mkSys { meta : Meta DB; issued : Issued; writers : gset Z; retired : gset Z }.

(** One call of a client, or a restart; the guards are what callers guarantee: clock
    values fit, records are well formed and use files of their writer, completions
    passed [validate_part_order], compaction keeps the files of an object, a pack is
    written off when its record count reads zero; and the id spaces are not exhausted. *)
Inductive meta_step : Sys -> Sys -> Prop :=
| StPutObject b k rec cond now s ids w r o s' :
    ample s -> is_i64 now -> object_rec_ok rec -> ref_ids (or_data rec) ⊆ w ->
    put_object b k rec cond now s = (o, s') -> meta_step (mkSys s ids w r) (mkSys s' ids (left_over o (or_data rec) w) r)
| StDeleteObject b k now s ids w r o s' :
    ample s -> is_i64 now -> delete_object b k now s = (o, s') -> meta_step (mkSys s ids w r) (mkSys s' ids w r)
| StCreateUpload b k m id now s ids w r o s' :
    is_i64 now -> Forall is_u64 (part_sizes m) -> create_upload b k m id now s = (o, s') -> meta_step (mkSys s ids w r) (mkSys s' ids w r)
| StPutPart b k id p now s ids w r o s' :
    ample s -> is_i64 now -> part_rec_ok p -> is_u16 (pr_part_no p) -> ref_ids (pr_data p) ⊆ w ->
    put_part b k id p now s = (o, s') -> meta_step (mkSys s ids w r) (mkSys s' ids (left_over o (pr_data p) w) r)
| StComplete b k id parts now tp s ids w r o s' :
    ample s -> is_i64 now -> is_i64 (to_unix_ms tp) -> validate_part_order parts = Ok tt ->
    (upload_extents (tab s kParts) b k id < 2 ^ 32)%Z ->
    complete_upload md5_hex sha1 sha256 b k id parts now tp s = (o, s') -> meta_step (mkSys s ids w r) (mkSys s' ids w r)
| StAbort b k id now s ids w r o s' :
    ample s -> is_i64 now -> abort_upload b k id now s = (o, s') -> meta_step (mkSys s ids w r) (mkSys s' ids w r)
| StSwap b k expect from to s ids w r o s' :
    extents_ok to -> ref_ids from ⊆ ref_ids to -> ref_ids to ⊆ ref_ids from ∪ w ->
    swap_extents b k expect from to s = (o, s') ->
    meta_step (mkSys s ids w r) (mkSys s' ids (match o with Ok true => w ∖ ref_ids to | _ => w end) r)
| StSwapBatch reqs s ids w r o s' :
    swaps_ok reqs w -> NoDup (swap_key <$> reqs) -> swap_extents_batch reqs s = (o, s') ->
    meta_step (mkSys s ids w r) (mkSys s' ids (match o with Ok done => swaps_left reqs done w | Throw _ => w end) r)
| StAlloc kind n s ids w r o s' :
    room s (alloc_counter kind) 1 -> alloc_file_run kind n s = (o, s') ->
    meta_step (mkSys s ids w r) (mkSys s' (grown kind n o ids) (w ∪ handed kind n o) r)
| StDiscard files s ids w r :
    files ⊆ w -> meta_step (mkSys s ids w r) (mkSys s ids (w ∖ files) (r ∪ files))
| StAck l s ids w r o s' :
    ack_reclaims l s = (o, s') -> meta_step (mkSys s ids w r) (mkSys s' ids w (r ∪ entry_files (tab s kGcq) l))
| StSeal p size s ids w r o s' :
    is_u64 p -> seal_pack p size s = (o, s') -> meta_step (mkSys s ids w r) (mkSys s' ids w r)
| StDropStat p s ids w r o s' :
    is_u64 p -> (stored_extents (tab s kObjects) (tab s kParts) < 2 ^ 63)%Z -> stat (tab s kStats) (pack_stat_key p (ch "r")) = 0%Z ->
    drop_pack_stat p s = (o, s') -> meta_step (mkSys s ids w r) (mkSys s' ids w r)
| StCreateBucket b now s ids w r o s' :
    create_bucket b now s = (o, s') -> meta_step (mkSys s ids w r) (mkSys s' ids w r)
| StDeleteBucket b s ids w r o s' :
    delete_bucket b s = (o, s') -> meta_step (mkSys s ids w r) (mkSys s' ids w r)
| StKvPut puts s ids w r o s' :
    kv_put_batch sha256_hex puts s = (o, s') -> meta_step (mkSys s ids w r) (mkSys s' ids w r)
| StKvDelete key s ids w r o s' :
    kv_delete key s = (o, s') -> meta_step (mkSys s ids w r) (mkSys s' ids w r)
| StRestart s ids w r : meta_step (mkSys s ids w r) (mkSys (reopened s) ids ∅ (r ∪ w)).

(** A database with nothing in it. *)
Definition fresh (d : DB) : Prop := forall c, contents d c = ∅.
Definition start (sync : bool) (d : DB) : Sys :=
  mkSys (mkMeta sync (Some d) (mkRange 0 0) (mkRange 0 0) (mkRange 0 0)) (mkIssued ∅ ∅) ∅ ∅.
Definition reachable (x : Sys) : Prop := exists sync d, fresh d /\ rtc meta_step (start sync d) x.

Record sys_ok (x : Sys) : Prop := mkSysOk {
  so_inv : minv (meta x) (issued x) (writers x);
  so_tracked : forall i, i ∈ chunks (issued x) -> tracked (meta x) (writers x) i \/ i ∈ retired x;
  so_retired : forall i, i ∈ retired x -> i ∈ chunks (issued x) /\ i ∉ writers x /\ ~ live (meta x) i }.

(** A file no record and no writer will ever use again. *)
Definition dead (x : Sys) (i : Z) : Prop := i ∈ chunks (issued x) /\ i ∉ writers x /\ ~ live (meta x) i.

(** What every step does: the invariant is kept, the dead stay dead and the queue grows
    at its end. *)
Definition sound (x y : Sys) : Prop :=
  sys_ok y /\ (forall i, dead x i -> dead y i) /\ queue_grows (tab (meta x) kGcq) (tab (meta y) kGcq).

Lemma keeps_ok s ids w r s' w' :
  sys_ok (mkSys s ids w r) -> minv s' ids w' /\ keeps s w s' w' -> sound (mkSys s ids w r) (mkSys s' ids w' r).
Proof.
  intros [Hi Ht Hr] [Hi' (H1 & H2 & H3)]. cbn in *. unfold sound, dead. cbn. split; [split; cbn|split; [|done]]; [done| | |].
  - intros i Hin. destruct (Ht i Hin); [left; auto|by right].
  - intros i Hin. destruct (Hr i Hin) as (R1 & R2 & R3). specialize (H2 i). tauto.
  - intros i (R1 & R2 & R3). specialize (H2 i). tauto.
Qed.

Lemma alloc_ok kind n s ids w r o s' :
  sys_ok (mkSys s ids w r) -> room s (alloc_counter kind) 1 -> alloc_file_run kind n s = (o, s') ->
  sound (mkSys s ids w r) (mkSys s' (grown kind n o ids) (w ∪ handed kind n o) r).
Proof.
  intros [Hi Ht Hr] Hroom E. cbn in *. destruct (alloc_file_run_inv _ _ _ _ _ _ _ Hi Hroom E) as (H1 & H2 & H3 & H4).
  assert (forall i, i ∈ chunks ids -> i ∉ w -> i ∈ chunks (grown kind n o ids) /\ i ∉ w ∪ handed kind n o) as Hg
    by (clear -H2; intros i; destruct kind; cbn in *; set_solver).
  split; [split; cbn|split; [|cbn; rewrite H3; by left]; intros i (R1 & R2 & R3); unfold dead in *; cbn in *; rewrite H4; split_and!; [by apply Hg..|done]]; [done| |].
  - intros i Hin. unfold tracked. rewrite H3, H4. assert (i ∈ chunks ids \/ i ∈ handed kind n o) as [Hc|Hc] by (destruct kind; cbn in *; set_solver).
    + destruct (Ht i Hc) as [[?|?]|?]; [left; left; set_solver|by left; right|by right].
    + left. left. set_solver.
  - intros i Hin. destruct (Hr i Hin) as (R1 & R2 & R3). rewrite H4. split_and!; [by apply Hg..|done].
Qed.

Lemma ack_ok l s ids w r o s' :
  sys_ok (mkSys s ids w r) -> ack_reclaims l s = (o, s') ->
  sound (mkSys s ids w r) (mkSys s' ids w (r ∪ entry_files (tab s kGcq) l)).
Proof.
  intros [Hi Ht Hr] E. cbn in *. destruct (ack_reclaims_inv _ _ _ _ _ _ Hi E) as (H1 & H2 & H3).
  assert (forall i, live s' i <-> live s i) as Hl by (intros i; unfold live; by rewrite !H2).
  split; [split; cbn|split; [intros i; unfold dead; cbn; by rewrite Hl|by apply queue_shrinks, (ack_reclaims_sub l s o)]]; [done| |].
  - intros i Hin. unfold tracked. rewrite Hl, elem_of_union. destruct (Ht i Hin) as [[?|[?|Hq%H3]]|?]; tauto.
  - intros i [Hin|Hin]%elem_of_union; rewrite Hl; [by apply Hr|]. unfold entry_files in Hin.
    apply elem_of_union_list in Hin as (X & (q & -> & _)%list_elem_of_fmap & Hx). destruct (tab s kGcq !! be64_key q) as [v|] eqn:Ev; [|set_solver].
    apply (mi_queued _ _ _ Hi). by exists (be64_key q), v.
Qed.

Lemma discard_ok s ids w r files :
  sys_ok (mkSys s ids w r) -> files ⊆ w -> sound (mkSys s ids w r) (mkSys s ids (w ∖ files) (r ∪ files)).
Proof.
  intros [Hi Ht Hr] Hf. cbn in *. split; [split; cbn|split; [intros i; unfold dead; cbn; rewrite elem_of_difference; tauto|by left]].
  - eapply (minv_account s s); try done; try apply Hi; [|intros i ?; left; set_solver]. pose proof (mi_writers _ _ _ Hi). set_solver.
  - intros i Hin. unfold tracked in *. rewrite elem_of_union, elem_of_difference. destruct (decide (i ∈ files)); [auto|]. specialize (Ht i Hin). tauto.
  - intros i [Hin|Hin]%elem_of_union; [destruct (Hr i Hin); split_and!; set_solver|].
    pose proof (mi_writers _ _ _ Hi i (Hf i Hin)). split_and!; [done|set_solver|]. intros Hl. destruct (mi_held _ _ _ Hi i Hl). by apply Hf in Hin.
Qed.

Lemma restart_ok s ids w r : sys_ok (mkSys s ids w r) -> sound (mkSys s ids w r) (mkSys (reopened s) ids ∅ (r ∪ w)).
Proof.
  intros [Hx Hd]%(λ H, discard_ok s ids w r w H (reflexivity w)). replace (w ∖ w) with (∅ : gset Z) in Hx, Hd by (clear; set_solver).
  destruct Hx as [Hi Ht Hr]. cbn in *. split; [split; cbn; [by eapply reopened_inv|done|done]|]. split; [apply Hd|by left].
Qed.

Ltac by_keeps lem := eapply keeps_ok; [eassumption|]; match goal with E : _ = (_, _) |- _ => eapply lem; [..|exact E]; done end.

Lemma step_sound x y : sys_ok x -> meta_step x y -> sound x y.
Proof.
  intros Hx Hstep. pose proof (so_inv _ Hx) as Hi.
  destruct Hstep; cbn [meta issued writers] in Hi.
  - by_keeps put_object_inv.
  - by_keeps meta_delete_object_inv.
  - by_keeps create_upload_inv.
  - by_keeps put_part_inv.
  - by_keeps complete_upload_inv.
  - by_keeps abort_upload_inv.
  - by_keeps swap_extents_inv.
  - by_keeps swap_extents_batch_inv.
  - by eapply alloc_ok.
  - by eapply discard_ok.
  - by eapply ack_ok.
  - by_keeps seal_pack_inv.
  - by_keeps drop_pack_stat_inv.
  - by_keeps meta_create_bucket_inv.
  - by_keeps meta_delete_bucket_inv.
  - by_keeps kv_put_batch_inv.
  - by_keeps kv_delete_inv.
  - by apply restart_ok.
Qed.

Lemma start_ok sync d : fresh d -> (passed <= 0)%Z -> sys_ok (start sync d).
Proof.
  intros Hf Hp. assert (forall c, tab (meta (start sync d)) c = ∅) as Et by (intros c; apply Hf).
  assert (forall i, ~ held (holders ∅ ∅) i) as Hh.
  { intros i (o & dd & Ho & _). unfold holders in Ho. by rewrite !fmap_empty, (left_id_L ∅ (∪)), lookup_empty in Ho. }
  assert (forall c used, (forall i, ~ used i) -> ids_ok (meta (start sync d)) c used) as Hids.
  { intros c used Hu. split; [by destruct c|unfold cstat, stat; rewrite Et, lookup_empty; by destruct c| |left; by destruct c]. intros i Hi. by destruct (Hu i). }
  split; [|cbn; set_solver|cbn; set_solver].
  split; rewrite ?Et; try done; try (apply Hids; intros i; cbn; by apply not_elem_of_empty).
  - split; [intros k [v Hv]; by rewrite lookup_empty in Hv|done].
  - split; [intros k [v Hv]; by rewrite lookup_empty in Hv| |].
    + intros k v Hv. unfold holders in Hv. by rewrite !fmap_empty, (left_id_L ∅ (∪)), lookup_empty in Hv.
    + intros i o Hi. rewrite lookup_empty. split; [done|]. intros (dd & Hd & _). unfold holders in Hd.
      by rewrite !fmap_empty, (left_id_L ∅ (∪)), lookup_empty in Hd.
  - apply Hids. intros i [Hu [[v Hv]|Hlt]]; [by rewrite lookup_empty in Hv|unfold is_u64 in Hu; lia].
  - intros i Hi. by destruct (Hh i).
  - intros i (k & v & Hk & _). by rewrite lookup_empty in Hk.
Qed.

Lemma steps_sound x y : sys_ok x -> rtc meta_step x y -> sound x y.
Proof.
  intros Hx Hr. induction Hr as [x|x y z Hxy _ IH]; [split_and!; [done|done|by left]|]. destruct (step_sound x y Hx Hxy) as (Hy & Hd & Hg).
  destruct (IH Hy) as (Hz & Hd' & Hg'). split_and!; [done|auto|]. intros i v Hu [Hv|?]%(Hg' i v Hu); [by apply Hg|by right].
Qed.
Lemma reachable_bound x : reachable x -> (passed <= 0)%Z -> sys_ok x.
Proof. intros (sync & d & Hf & Hr) Hp. by apply (steps_sound (start sync d) x (start_ok sync d Hf Hp)). Qed.
End steps.

(** Once a number is in the queue, no number up to it is given to a new entry. *)
Lemma sys_ok_raise {DB : Type} {rocks : RocksDB DB} {law : RocksLaw DB} (bound : Passed) (x : Sys) q :
  sys_ok x -> is_u64 q -> is_Some (tab (meta x) kGcq !! be64_key q) -> sys_ok (bound := Z.max bound (q + 1)) x.
Proof.
  intros [[I1 I2 I3 I4 I5 I6 I7 I8 I9 I10 I11 I12 I13] Ht Hr] Hu Hq. split; [|done|done]. split; try done.
  destruct I8 as [R1 R2 R3 R4]. split; [done|done| |done]. intros i [Hi Hi']. change (@passed (Z.max bound (q + 1))) with (Z.max bound (q + 1)) in Hi'.
  destruct Hi' as [Hs|Hi']; [apply R3; split; [done|by left]|].
  destruct (Z.lt_ge_cases i bound) as [Hb|Hb]; [apply R3; split; [done|by right]|].
  destruct (R3 q ltac:(split; [done|by left])) as [Hc Hnr]. destruct (R4 eq_refl); unfold is_u64 in Hi; lia.
Qed.

(** Before anything is queued any number is free. *)
#[export] Instance from_zero : Passed := 0%Z.

Lemma reachable_ok {DB : Type} {rocks : RocksDB DB} {law : RocksLaw DB} md5_hex sha1 sha256 sha256_hex (x : Sys) :
  reachable md5_hex sha1 sha256 sha256_hex x -> sys_ok x.
Proof. intros Hx. by apply (reachable_bound _ _ _ _ x Hx). Qed.
