(* ===== verification/RocksTheorems.v ===== *)
(** What the RocksDB engine promises its clients: references and queue in every reachable
    state, fresh ids, atomic failure, and the agreement of its reads with its writes. *)

From S2P Require Import Prelude Bytes Backend Listing Multipart Codec CodecProofs CodecKeys MetaUtil.
From S2P Require Import RocksDb RocksMeta RocksLedger RocksProofs RocksInv RocksOps RocksParts RocksSteps.
From Stdlib Require Import ZArith Lia.
From stdpp Require Import base list gmap sets strings sorting relations.
Open Scope lights3_scope.

Create HintDb quiet discriminated.

Section atomicity.
Context {DB : Type} {rocks : RocksDB DB} {law : RocksLaw DB}.
Context (md5_hex sha1 sha256 sha256_hex : bytes -> bytes).
Abbreviation M := (ST (Meta DB) S3ErrorCode).
Implicit Types (s : Meta DB).

(** * Failure *)

(** A run that changes no table but the sequence counter, and one that does so when it
    throws. *)
Definition quiet {A} (m : M A) : Prop := forall s o s', m s = (o, s') -> only_counter CSeq s s'.
Definition atomic {A} (m : M A) : Prop := forall s e s', m s = (Throw e, s') -> only_counter CSeq s s'.

Lemma quiet_pure {A} (m : M A) : (forall s, (m s).2 = s) -> quiet m.
Proof. intros Hm s o s' E. specialize (Hm s). rewrite E in Hm. cbn in Hm. subst. apply only_counter_refl. Qed.
Lemma quiet_ret {A} (a : A) : quiet (mret a : M A).
Proof. by apply quiet_pure. Qed.
Lemma quiet_lift {A} (r : result A) : quiet (lift r : M A).
Proof. by apply quiet_pure. Qed.
Lemma quiet_throw {A} e : quiet (throw e : M A).
Proof. by apply quiet_pure. Qed.
Lemma quiet_get_raw c k : quiet (get_raw c k).
Proof. intros s o s' [-> _]%get_raw_run. apply only_counter_refl. Qed.
Lemma quiet_items c : quiet (items c).
Proof. intros s o s' [-> _]%items_run. apply only_counter_refl. Qed.
Lemma quiet_bind {A B} (m : M A) (f : A -> M B) : quiet m -> (forall a, quiet (f a)) -> quiet (m ≫= f).
Proof.
  intros Hm Hf s o s' [(a & s1 & H1%Hm & H2%Hf)|(e & H1%Hm & ->)]%ST_bind_run; [by eapply only_counter_trans|done].
Qed.
Lemma quiet_get : quiet (get_st : M _).
Proof. by apply quiet_pure. Qed.
Lemma quiet_range r : quiet (modify (set_range CSeq r) : M unit).
Proof. intros s o s' [-> ->]%modify_run. apply set_range_only. Qed.
Lemma reserve_only c sync d s o s' : write sync [BMerge kStats (counter_key c) d] s = (o, s') -> only_counter c s s'.
Proof.
  intros E%write_run. destruct o; [|subst; apply only_counter_refl]. destruct E as [Ht Hr]. split.
  - intros c' Hc. rewrite Ht, on_cf_none; [done|by repeat constructor].
  - intros k Hk. rewrite Ht. eval_batch. by destruct (counter_merge _ _); [rewrite lookup_insert_ne|].
  - intros c' _. apply Hr.
Qed.
Lemma quiet_reserve sync d : quiet (write sync [BMerge kStats (counter_key CSeq) d]).
Proof. intros s o s'. apply reserve_only. Qed.
(** An allocation that throws may have moved its own counter. *)
Lemma alloc_throws c n s e s' : alloc_id c n s = (Throw e, s') -> only_counter c s s'.
Proof.
  unfold alloc_id. rewrite ST_get_bind. intros [([] & s1 & _ & E)|(e' & E & _)]%ST_bind_run; [done|].
  destruct (_ <? _)%Z; [|done]. unfold reserve_segment in E. apply lift_bind in E as [[-> _]|(d & _ & E)]; [apply only_counter_refl|].
  apply ST_bind_run in E as [([] & s1 & Hw%reserve_only & E)|(e1 & Hw%reserve_only & _)]; [|done].
  apply get_raw_bind in E as [[-> _]|E]; [done|]. destruct (tab s1 kStats !! counter_key c); [|by injection E as _ <-].
  apply lift_bind in E as [[-> _]|(x & _ & E)]; done.
Qed.
Hint Resolve quiet_ret quiet_lift quiet_throw quiet_get_raw quiet_items quiet_bind quiet_get quiet_range quiet_reserve : quiet.

Lemma quiet_option {A B} (m : option A) (f : A -> M B) (g : M B) :
  (forall a, quiet (f a)) -> quiet g -> quiet (match m with Some a => f a | None => g end).
Proof. by destruct m. Qed.
Lemma quiet_if {B} (b : bool) (f g : M B) : quiet f -> quiet g -> quiet (if b then f else g).
Proof. by destruct b. Qed.
Hint Resolve quiet_option quiet_if : quiet.

Lemma quiet_alloc n : quiet (alloc_id CSeq n).
Proof. unfold alloc_id, reserve_segment. auto 12 with quiet. Qed.
Hint Resolve quiet_alloc : quiet.
Lemma quiet_enqueue fuel now reason es : quiet (enqueue_loop fuel now reason es).
Proof. revert es. induction fuel as [|fuel IH]; intros [|x es]; cbn [enqueue_loop]; auto 8 with quiet. Qed.
Hint Resolve quiet_enqueue : quiet.
Lemma quiet_drop now es reason ov : quiet (drop_data now es reason ov).
Proof. unfold drop_data, enqueue_reclaim_locked. auto 8 with quiet. Qed.
Hint Resolve quiet_drop : quiet.
Lemma quiet_run_all {A} (f : A -> M (list BatchOp)) l : (forall x, quiet (f x)) -> quiet (run_all f l).
Proof. intros Hf. induction l as [|x l IH]; cbn [run_all]; auto 8 with quiet. Qed.
Lemma quiet_bucket b : quiet (require_bucket_locked b).
Proof. unfold require_bucket_locked. auto with quiet. Qed.
Lemma quiet_upload b k id : quiet (require_upload b k id).
Proof. unfold require_upload. auto 8 with quiet. Qed.
Lemma quiet_scan b k id : quiet (scan_parts b k id).
Proof. unfold scan_parts. auto 8 with quiet. Qed.
Lemma quiet_old now old ov : quiet (drop_old now old ov).
Proof. unfold drop_old. auto with quiet. Qed.
Lemma quiet_drop_parts (b k id : bytes) now ps : quiet (drop_parts b k id now ps).
Proof. rewrite drop_parts_all. apply quiet_run_all. auto with quiet. Qed.
Lemma quiet_complete_parts (b k id okey : bytes) now sel l : quiet (complete_parts b k id okey now sel l).
Proof. rewrite complete_parts_all. apply quiet_run_all. intros [no p]. unfold complete_part. auto 8 with quiet. Qed.
Lemma quiet_stage_swap b k expect from to : quiet (stage_swap_locked b k expect from to).
Proof. unfold stage_swap_locked. auto 12 with quiet. Qed.
Hint Resolve quiet_bucket quiet_upload quiet_scan quiet_old quiet_drop_parts quiet_complete_parts quiet_stage_swap : quiet.
Lemma quiet_stage_swaps reqs : quiet (stage_swaps reqs).
Proof. induction reqs as [|r reqs IH]; cbn [stage_swaps]; auto 8 with quiet. Qed.
Lemma quiet_kv_stage puts : quiet (kv_stage sha256_hex puts).
Proof. induction puts as [|p puts IH]; cbn [kv_stage]; auto 8 with quiet. Qed.
Lemma quiet_seal_known k size : quiet (seal_known k size).
Proof. unfold seal_known. auto with quiet. Qed.
Hint Resolve quiet_stage_swaps quiet_kv_stage quiet_seal_known : quiet.

Lemma atomic_quiet {A} (m : M A) : quiet m -> atomic m.
Proof. intros Hm s e s'. apply Hm. Qed.
Lemma atomic_commit ops : atomic (commit ops).
Proof. intros s e s' ->%commit_run. apply only_counter_refl. Qed.
Lemma atomic_bind {A B} (m : M A) (f : A -> M B) : quiet m -> (forall a, atomic (f a)) -> atomic (m ≫= f).
Proof.
  intros Hm Hf s e s' [(a & s1 & H1%Hm & H2%Hf)|(e' & H1%Hm & _)]%ST_bind_run; [by eapply only_counter_trans|done].
Qed.
Lemma atomic_last {A B} (m : M A) (b : A -> B) : atomic m -> atomic (m ≫= λ a, mret (b a)).
Proof. intros Hm s e s' [(a & s1 & _ & [[=] _]%mret_run)|(e' & H1%Hm & _)]%ST_bind_run. done. Qed.
Lemma atomic_option {A B} (m : option A) (f : A -> M B) (g : M B) :
  (forall a, atomic (f a)) -> atomic g -> atomic (match m with Some a => f a | None => g end).
Proof. by destruct m. Qed.
Lemma atomic_if {B} (b : bool) (f g : M B) : atomic f -> atomic g -> atomic (if b then f else g).
Proof. by destruct b. Qed.

(** ** The operations that change the store *)
Inductive MetaOp :=
| OpCreateBucket (b : bytes) (now : Z) | OpDeleteBucket (b : bytes)
| OpPutObject (b k : bytes) (rec : ObjectRec) (cond : PutCondition) (now : Z) | OpDeleteObject (b k : bytes) (now : Z)
| OpCreateUpload (b k : bytes) (m : ObjectMeta) (id : bytes) (now : Z) | OpPutPart (b k id : bytes) (p : PartRec) (now : Z)
| OpComplete (b k id : bytes) (parts : list PartInfo) (now : Z) (tp : time_point) | OpAbort (b k id : bytes) (now : Z)
| OpSwap (b k : bytes) (expect : Z) (from to : DataRef) | OpSwapBatch (reqs : list SwapReq)
| OpAlloc (kind : Extent.Kind) (n : Z) | OpAck (l : list Z) | OpSeal (p size : Z) | OpDropStat (p : Z) | OpKvPut (puts : list KvPut) | OpKvDelete (key : bytes).

Definition void {A} (m : M A) : M unit := m ≫= λ _, mret tt.
Definition run_op (op : MetaOp) : M unit :=
  match op with
  | OpCreateBucket b now => create_bucket b now
  | OpDeleteBucket b => delete_bucket b
  | OpPutObject b k rec cond now => put_object b k rec cond now
  | OpDeleteObject b k now => void (delete_object b k now)
  | OpCreateUpload b k m id now => void (create_upload b k m id now)
  | OpPutPart b k id p now => put_part b k id p now
  | OpComplete b k id parts now tp => void (complete_upload md5_hex sha1 sha256 b k id parts now tp)
  | OpAbort b k id now => abort_upload b k id now
  | OpSwap b k expect from to => void (swap_extents b k expect from to)
  | OpSwapBatch reqs => void (swap_extents_batch reqs)
  | OpAlloc kind n => void (alloc_file_run kind n)
  | OpAck l => ack_reclaims l
  | OpSeal p size => seal_pack p size
  | OpDropStat p => drop_pack_stat p
  | OpKvPut puts => void (kv_put_batch sha256_hex puts)
  | OpKvDelete key => void (kv_delete key)
  end.

Hint Resolve atomic_commit atomic_last : quiet.
Ltac atomically := repeat first
  [ apply atomic_last | apply atomic_commit | apply atomic_quiet; solve [auto 12 with quiet]
  | apply atomic_if | apply atomic_option; [intros ?|] | apply atomic_bind; [solve [auto 12 with quiet]|intros ?] ].

Lemma alloc_op_throws kind n s e s' : void (alloc_file_run kind n) s = (Throw e, s') -> only_counter (alloc_counter kind) s s'.
Proof. intros [(a & s1 & _ & E)|(e' & E & _)]%ST_bind_run; [done|]. destruct kind; by apply alloc_throws in E. Qed.

(** The counter from which an operation takes numbers. *)
Definition op_counter (op : MetaOp) : Counter := match op with OpAlloc kind _ => alloc_counter kind | _ => CSeq end.

Lemma run_op_atomic op s e s' : run_op op s = (Throw e, s') -> only_counter (op_counter op) s s'.
Proof.
  destruct op; cbn [run_op op_counter]; [..|exact (λ E, alloc_op_throws _ _ _ _ _ E)|idtac|idtac|idtac|idtac|idtac];
    match goal with |- ?m s = _ -> _ => enough (atomic m) as Ha by apply Ha end; unfold void, create_bucket, delete_bucket, put_object, delete_object, create_upload, put_part, complete_upload,
    abort_upload, swap_extents, swap_extents_batch, ack_reclaims, seal_pack, drop_pack_stat, kv_put_batch, kv_delete; cbv zeta; atomically.
Qed.
End atomicity.

Section theorems.
Context {DB : Type} {rocks : RocksDB DB} {law : RocksLaw DB}.
Context (md5_hex sha1 sha256 sha256_hex : bytes -> bytes).
Abbreviation M := (ST (Meta DB) S3ErrorCode).
Abbreviation step := (meta_step md5_hex sha1 sha256 sha256_hex).
Abbreviation reach := (reachable md5_hex sha1 sha256 sha256_hex).
Implicit Types (s : Meta DB) (x y : Sys (DB := DB)).

Lemma reach_inv x : reach x -> minv (meta x) (issued x) (writers x).
Proof. intros Hx%reachable_ok. apply Hx. Qed.

(** ** References *)
Lemma chunk_referenced_run i s b s' issued writers :
  minv s issued writers -> is_u64 i -> chunk_referenced i s = (Ok b, s') -> s' = s /\ (b = true <-> live s i).
Proof.
  intros Hi Hu E. unfold chunk_referenced in E. apply get_raw_bind in E as [[_ [e [=]]]|E].
  apply mret_run in E as [[= ->] ->]. split; [done|]. rewrite bool_decide_eq_true. unfold live, held. split.
  - intros [o Ho]. apply (ri_owner _ _ (mi_refs _ _ _ Hi)) in Ho as (d & Hd & Hid); [|done]. by exists o, d.
  - intros (o & d & Hd & Hid). exists o. apply (ri_owner _ _ (mi_refs _ _ _ Hi)); [done|]. by exists d.
Qed.

Lemma parse_keys_spec (t : table) (l : list (bytes * bytes)) ids :
  be64_keys t -> (forall k v, (k, v) ∈ l -> t !! k = Some v) -> parse_keys l = Ok ids ->
  forall i, i ∈ ids <-> is_u64 i /\ exists v, (be64_key i, v) ∈ l.
Proof.
  intros Ht. revert ids. induction l as [|[k v] l IH]; intros ids Hl E i.
  { injection E as <-. set_solver. }
  cbn [parse_keys] in E. destruct (Ht k) as (j & Hj & ->); [exists v; apply Hl; left|]. rewrite parse_be64_key in E by done.
  cbn [mbind res_bind] in E. destruct (parse_keys l) as [rest|]; [|done]. injection E as <-.
  rewrite elem_of_cons, (IH rest ltac:(intros; apply Hl; by right) eq_refl i). setoid_rewrite elem_of_cons. split.
  - intros [->|(Hu & w & Hw)]; [split; [done|]; eauto|split; [done|]; eauto].
  - intros (Hu & w & [E%(f_equal fst)|Hw]); [left; by apply be64_key_inj|right; eauto].
Qed.

Lemma scan_refs_run s l s' issued writers :
  minv s issued writers -> scan_refs s = (Ok l, s') -> s' = s /\ forall i, i ∈ l <-> live s i.
Proof.
  intros Hi E. unfold scan_refs in E. apply items_bind in E as [[_ [e [=]]]|E]. apply lift_run in E as [E ->]. split; [done|]. symmetry in E.
  pose proof (mi_refs _ _ _ Hi) as HR. intros i.
  rewrite (parse_keys_spec (tab s kRefs) (map_items bytes_le (tab s kRefs)) l (ri_keys _ _ HR) (λ k v, proj1 (map_items_elem bytes_le _ k v)) E i).
  setoid_rewrite map_items_elem. split.
  - intros (Hu & o & Ho). apply (ri_owner _ _ HR) in Ho as (d & Hd & Hid); [|done]. by exists o, d.
  - intros (o & d & Hd & Hid). assert (is_u64 i) as Hu by (apply (ref_ids_u64 d); [by apply (ri_wf _ _ HR o)|done]).
    split; [done|]. exists o. apply (ri_owner _ _ HR); [done|]. by exists d.
Qed.

(** C14: In every reachable state of the store the reference table is exact: the recheck
    before a file is deleted answers yes for exactly the files that the record of an
    object or of a part uses, and the scan of the table lists exactly these files. *)
Theorem references_exact x (Hx : reach x) (i : Z) (Hi : is_u64 i) (b : bool) (l : list Z) s1 s2
    (E1 : chunk_referenced i (meta x) = (Ok b, s1)) (E2 : scan_refs (meta x) = (Ok l, s2)) :
  (b = true <-> live (meta x) i) /\ (forall j, j ∈ l <-> live (meta x) j) /\ s1 = meta x /\ s2 = meta x.
Proof.
  apply reach_inv in Hx. destruct (chunk_referenced_run _ _ _ _ _ _ Hx Hi E1) as [-> H1], (scan_refs_run _ _ _ _ _ Hx E2) as [-> H2].
  by split_and!.
Qed.

(** ** Reclaim *)
Lemma peek_loop_elem mx me (l : list (bytes * bytes)) c e out q r :
  peek_loop mx me c e l = Ok out -> (q, r) ∈ out -> exists k v, (k, v) ∈ l /\ parse_be64 k = Ok q /\ decode_reclaim v = Ok r.
Proof.
  revert c e out. induction l as [|[k v] l IH]; intros c e out E Hin; cbn [peek_loop] in E; [injection E as <-; set_solver|].
  destruct (mx <=? c)%Z; [injection E as <-; set_solver|]. destruct (parse_be64 k) as [q0|] eqn:Eq; [|done].
  destruct (decode_reclaim v) as [r0|] eqn:Er; [|done]. cbn [mbind res_bind] in E. destruct (_ <=? _)%Z.
  - injection E as <-. apply list_elem_of_singleton in Hin as [= -> ->]. exists k, v. set_solver.
  - destruct (peek_loop _ _ _ _ l) as [rest|] eqn:Ep; [|done]. injection E as <-. apply elem_of_cons in Hin as [[= -> ->]|Hin].
    + exists k, v. set_solver.
    + destruct (IH _ _ _ Ep Hin) as (k' & v' & H1 & H2 & H3). exists k', v'. set_solver.
Qed.

Lemma peek_reclaims_run mx mn me s l s' issued writers :
  minv s issued writers -> peek_reclaims mx mn me s = (Ok l, s') ->
  s' = s /\ forall q r i, (q, r) ∈ l -> i ∈ ref_ids (rc_extents r) -> queued (tab s kGcq) i.
Proof.
  intros Hi E. unfold peek_reclaims in E. apply items_bind in E as [[_ [e [=]]]|E]. apply lift_run in E as [E ->]. split; [done|]. symmetry in E.
  intros q r i Hin Hid. destruct (peek_loop_elem _ _ _ _ _ _ _ _ E Hin) as (k & v & Hk & _ & Hr).
  destruct (seek_from_split [] (be64_key mn) (map_items bytes_le (tab s kGcq))) as (sk & _ & Hl & _ & _).
  assert ((k, v) ∈ map_items bytes_le (tab s kGcq)) as Hk'%map_items_elem by (rewrite Hl; apply elem_of_app; by right).
  exists k, v. split; [done|]. unfold data_of_reclaim. by rewrite Hr.
Qed.

(** C11: Garbage collection is safe: a file that the queue offers for deletion is used by
    no record and held by no writer, the recheck against the reference table says so, and
    this stays so in every later state, whatever clients do and however often the process
    restarts: such a file can be deleted at any later time. *)
Theorem reclaim_safe x (Hx : reach x) (mx mn me : Z) (l : list (Z * Reclaim)) s'
    (E : peek_reclaims mx mn me (meta x) = (Ok l, s')) (q : Z) (r : Reclaim) (i : Z)
    (Hin : (q, r) ∈ l) (Hi : i ∈ ref_ids (rc_extents r)) :
  forall y, rtc step x y -> i ∉ writers y /\ ~ live (meta y) i /\
    forall b s1, is_u64 i -> chunk_referenced i (meta y) = (Ok b, s1) -> b = false.
Proof.
  apply reachable_ok in Hx. destruct (peek_reclaims_run _ _ _ _ _ _ _ _ (so_inv _ Hx) E) as [-> Hq].
  specialize (Hq q r i Hin Hi). intros y Hxy. destruct (steps_sound _ _ _ _ x y Hx Hxy) as (Hy & Hd & _).
  destruct (Hd i) as (_ & Hw & Hl); [by apply (mi_queued _ _ _ (so_inv _ Hx))|]. split_and!; [done|done|].
  intros b s1 Hu E1. destruct (chunk_referenced_run _ _ _ _ _ _ (so_inv _ Hy) Hu E1) as [_ Hb]. destruct b; [|done]. by destruct Hl; apply Hb.
Qed.

(** C15: No file is lost: in every reachable state each chunk file ever allocated is with a
    writer, used by a live record, queued for deletion, or retired by a write-off, a
    discard or a restart; and a retired file is never used again. *)
Theorem no_file_lost x (Hx : reach x) (i : Z) (Hi : i ∈ chunks (issued x)) :
  (i ∈ writers x \/ live (meta x) i \/ queued (tab (meta x) kGcq) i \/ i ∈ retired x) /\
  (i ∈ retired x -> forall y, rtc step x y -> i ∉ writers y /\ ~ live (meta y) i).
Proof.
  apply reachable_ok in Hx. pose proof Hx as [H1 H2 H3]. split.
  - destruct (H2 i Hi) as [[?|[?|?]]|?]; auto.
  - intros Hr y Hxy. destruct (steps_sound _ _ _ _ x y Hx Hxy) as (_ & Hd & _). destruct (Hd i (H3 i Hr)) as (_ & ? & ?). done.
Qed.

(** Ids are never issued twice: a run of file ids that the store hands out in any
    reachable state, after any number of restarts, contains no chunk id (pack id) handed
    out before; in particular no live or queued file. *)
Theorem ids_never_reissued x (Hx : reach x) (kind : Extent.Kind) (n f i : Z) s'
    (Hroom : room (meta x) (alloc_counter kind) 1) (E : alloc_file_run kind n (meta x) = (Ok f, s'))
    (Hi : (f <= i < f + clamp_run n)%Z) :
  i ∉ taken_ids kind (issued x) /\ (kind <> Extent.kPack -> ~ live (meta x) i /\ ~ queued (tab (meta x) kGcq) i).
Proof.
  apply reach_inv in Hx. destruct (alloc_file_run_inv _ _ _ _ _ _ _ Hx Hroom E) as (_ & Hd & _ & _).
  assert (i ∉ taken_ids kind (issued x)) as Hn by (intros Hin; by apply (Hd i); [apply elem_id_run|]).
  split; [done|]. intros Hk. replace (taken_ids kind (issued x)) with (chunks (issued x)) in Hn by (by destruct kind).
  split; [intros Hl; by apply Hn, (mi_held _ _ _ Hx)|intros Hq; by apply Hn, (mi_queued _ _ _ Hx)].
Qed.

(** C29: A failed operation is atomic: whichever of the engine's operations throws, the
    allocation of file ids included, for whatever reason (a failed check, a failed read,
    an unencodable record, a failed write), every table is as before, but for the one
    counter the operation takes numbers from: the chunk or pack counter for an
    allocation, the sequence counter of the reclaim queue for the others. *)
Theorem failed_operation_atomic (op : MetaOp) s (e : S3ErrorCode) s'
    (E : run_op md5_hex sha1 sha256 sha256_hex op s = (Throw e, s')) :
  (forall c, c <> kStats -> tab s' c = tab s c) /\
  (forall k, k <> counter_key (op_counter op) -> tab s' kStats !! k = tab s kStats !! k).
Proof. apply run_op_atomic in E as [H1 H2 _]. done. Qed.
End theorems.

(** * A run on the engine in memory: one bucket, two files, an object written twice *)
Abbreviation hash := (λ x : bytes, x).
Abbreviation demo_step := (meta_step (DB := mem_db) hash hash hash hash).

Lemma run_first {S E A} (m : ST S E A) (s : S) (r : res E A) : (m s).1 = r -> m s = (r, (m s).2).
Proof. intros <-. apply surjective_pairing. Qed.

Definition demo_rec (i : Z) : ObjectRec := mkObjectRec default_meta [Extent.mk Extent.kChunk i 0 4 0; Extent.mk Extent.kPack 7 0 4 0] 0 default_tier.
Lemma demo_rec_ok i : is_u64 i -> object_rec_ok (demo_rec i).
Proof. intros Hi. split_and!; try done. split; [|done]. repeat constructor; try done; apply Hi. Qed.

Definition demo0 : Sys := start true (mkMemDb []).
Definition demo1 : Sys := mkSys (create_bucket (bs "b") 0 (meta demo0)).2 (mkIssued ∅ ∅) ∅ ∅.
Definition demo_alloc := alloc_file_run (DB := mem_db) Extent.kChunk 2 (meta demo1).
Definition demo2 : Sys := mkSys demo_alloc.2 (grown Extent.kChunk 2 demo_alloc.1 (issued demo1)) (∅ ∪ handed Extent.kChunk 2 demo_alloc.1) ∅.
Definition demo_put (i : Z) (x : Sys) : Sys :=
  let r := put_object (bs "b") (bs "k") (demo_rec i) no_cond 5 (meta x) in
  mkSys r.2 (issued x) (left_over r.1 (or_data (demo_rec i)) (writers x)) (retired x).
Definition demo3 : Sys := demo_put 0 demo2.
Definition demo4 : Sys := demo_put 1 demo3.

Lemma demo_put_step i x :
  ample (meta x) -> is_u64 i -> i ∈ writers x -> demo_step x (demo_put i x).
Proof.
  intros Ham Hi Hw. destruct x as [s ids w r]. eapply (StPutObject hash hash hash hash (bs "b") (bs "k") (demo_rec i) no_cond 5); try done.
  - by apply demo_rec_ok.
  - unfold demo_rec. cbn [or_data]. rewrite !ref_ids_cons. cbn. set_solver.
  - apply surjective_pairing.
Qed.

Lemma demo2_reachable : reachable hash hash hash hash demo2.
Proof.
  exists true, (mkMemDb []). split; [by intros c|].
  eapply (rtc_l _ _ demo1); [by eapply StCreateBucket, surjective_pairing|].
  eapply rtc_once, (StAlloc hash hash hash hash Extent.kChunk 2); [vm_compute; reflexivity|apply surjective_pairing].
Qed.
Lemma demo_put_reachable i x :
  reachable hash hash hash hash x -> ample (meta x) -> is_u64 i -> i ∈ writers x -> reachable hash hash hash hash (demo_put i x).
Proof. intros (sync & d & Hf & Hr) ???. exists sync, d. split; [done|]. eapply rtc_r; [exact Hr|by apply demo_put_step]. Qed.
Lemma demo3_reachable : reachable hash hash hash hash demo3.
Proof.
  apply demo_put_reachable; [apply demo2_reachable|vm_compute; reflexivity|done|]. apply (bool_decide_unpack _). vm_compute. exact I.
Qed.
Lemma demo_reachable : reachable hash hash hash hash demo4.
Proof.
  apply demo_put_reachable; [apply demo3_reachable|vm_compute; reflexivity|done|]. apply (bool_decide_unpack _). vm_compute. exact I.
Qed.

Lemma references_exact_witness : live (meta demo4) 1.
Proof.
  destruct (references_exact hash hash hash hash demo4 demo_reachable 1 ltac:(done) true [1%Z] (chunk_referenced 1 (meta demo4)).2 (scan_refs (meta demo4)).2)
    as [H _]; [apply run_first; vm_compute; reflexivity|apply run_first; vm_compute; reflexivity|]. by apply H.
Defined.

Definition demo_queue : list (Z * Reclaim) := [(0%Z, mkReclaim (or_data (demo_rec 0)) 5 kOverwrite)].

Lemma reclaim_safe_witness : ~ live (meta demo4) 0.
Proof.
  apply (reclaim_safe hash hash hash hash demo4 demo_reachable 256 0 1000 demo_queue (peek_reclaims 256 0 1000 (meta demo4)).2 ltac:(apply run_first; vm_compute; reflexivity)
    0 (mkReclaim (or_data (demo_rec 0)) 5 kOverwrite) 0 ltac:(left) ltac:(apply (bool_decide_unpack _); vm_compute; exact I) demo4 (rtc_refl _ _)).
Defined.

Lemma no_file_lost_witness : (0 ∈ writers demo4 \/ live (meta demo4) 0 \/ queued (tab (meta demo4) kGcq) 0 \/ 0 ∈ retired demo4)%Z.
Proof.
  apply (no_file_lost hash hash hash hash demo4 demo_reachable 0). apply (bool_decide_unpack _). vm_compute. exact I.
Defined.

Lemma ids_never_reissued_witness : (2 ∉ chunks (issued demo4))%Z.
Proof.
  apply (ids_never_reissued hash hash hash hash demo4 demo_reachable Extent.kChunk 1 2 2 (alloc_file_run Extent.kChunk 1 (meta demo4)).2);
    [vm_compute; reflexivity|apply run_first; vm_compute; reflexivity|vm_compute; split; [done|reflexivity]].
Defined.

Lemma failed_operation_atomic_witness :
  let r := run_op hash hash hash hash (OpCreateBucket (bs "b") 9) (meta demo4) in
  r.1 = Throw BucketAlreadyOwnedByYou /\ tab r.2 kObjects = tab (meta demo4) kObjects.
Proof.
  split; [vm_compute; reflexivity|].
  apply (failed_operation_atomic hash hash hash hash (OpCreateBucket (bs "b") 9) (meta demo4) BucketAlreadyOwnedByYou); [apply run_first; vm_compute; reflexivity|done].
Defined.
