(* ===== verification/RocksFront.v ===== *)
(** What the operations of the RocksDB engine do to its tables of records: the first
    operations of the batch they commit, and nothing when they throw. *)

From S2P Require Import Prelude Bytes Backend Listing Multipart Codec CodecProofs CodecKeys MetaUtil.
From S2P Require Import RocksDb RocksMeta RocksLedger RocksProofs RocksInv RocksOps RocksParts RocksSteps RocksTheorems.
From Stdlib Require Import ZArith Lia.
From stdpp Require Import base list gmap sets strings sorting relations.
Open Scope lights3_scope.

(** The tables of records; the others hold the accounts of files. *)
Definition main_cf (c : Cf) : Prop := c = kBuckets \/ c = kObjects \/ c = kUploads \/ c = kParts.
Definition side_op (o : BatchOp) : Prop := op_cf o = kGcq \/ op_cf o = kRefs \/ op_cf o = kStats.
Lemma side_none c ops : main_cf c -> Forall side_op ops -> on_cf c ops = [].
Proof. intros Hc Ho. apply on_cf_none. eapply list.Forall_impl; [exact Ho|]. unfold main_cf, side_op in *. intros o H E. naive_solver congruence. Qed.

Create HintDb side discriminated.
Section store.
Context {DB : Type} {rocks : RocksDB DB} {rlaw : RocksLaw DB}.
Abbreviation E := (ST (Meta DB) S3ErrorCode).
Implicit Types (s : Meta DB).

(** * What the accounts leave alone *)
Definition same_main (s s' : Meta DB) : Prop := forall c, main_cf c -> tab s' c = tab s c.
#[local] Instance same_main_preorder : PreOrder same_main.
Proof. split; [done|]. intros a b c H1 H2 cf Hc. by rewrite H2, H1. Qed.
Lemma only_counter_main c s s' : only_counter c s s' -> same_main s s'.
Proof. intros H cf [->|[->|[->| ->]]]; by apply (oc_tab _ _ _ H). Qed.
Lemma applied_main front ops s s' c : applied (front ++ ops) s s' -> Forall side_op ops -> main_cf c -> tab s' c = apply_ops (on_cf c front) (tab s c).
Proof. intros [Ht _] Ho Hc. rewrite Ht, on_cf_app, (side_none c ops Hc Ho). by rewrite app_nil_r. Qed.

(** Runs that only stage operations on the accounts. *)
Definition sideways (m : E (list BatchOp)) : Prop := quiet m /\ forall s ops s', m s = (Ok ops, s') -> Forall side_op ops.
Lemma sideways_ret ops : Forall side_op ops -> sideways (mret ops).
Proof. intros Ho. split; [apply quiet_ret|]. by intros s o s' [= <- _]. Qed.
Lemma sideways_lift (r : result (list BatchOp)) : (forall ops, r = Ok ops -> Forall side_op ops) -> sideways (lift r).
Proof. intros Ho. split; [apply quiet_lift|]. intros s o s' [= -> _]. by apply Ho. Qed.
Lemma sideways_bind {A} (m : E A) f : quiet m -> (forall a, sideways (f a)) -> sideways (m ≫= f).
Proof. intros Hm Hf. split; [apply quiet_bind; [done|]; intros a; apply Hf|]. intros s o s' [(a & s1 & _ & H)|(e & _ & [=])]%ST_bind_run. by eapply Hf. Qed.
Lemma sideways_then (m : E (list BatchOp)) (f : list BatchOp -> E (list BatchOp)) : sideways m -> (forall ops, Forall side_op ops -> sideways (f ops)) -> (forall ops, quiet (f ops)) -> sideways (m ≫= f).
Proof.
  intros Hm Hf Hq. split; [apply quiet_bind; [apply Hm|done]|]. intros s o s' [(a & s1 & H1 & H)|(e & _ & [=])]%ST_bind_run. eapply Hf; [by eapply Hm|exact H].
Qed.
Lemma side_refs d add owner : Forall side_op (batch_refs d add owner).
Proof. unfold batch_refs. induction d as [|e d IH]; [constructor|]. cbn. destruct (is_pack e), add; cbn; try done; (constructor; [by right; left|done]). Qed.
Lemma side_packs l ops : pack_ops_all l = Ok ops -> Forall side_op ops.
Proof.
  revert ops. induction l as [|[id [b r]] l IH]; intros ops; [intros [= <-]; constructor|]. cbn [pack_ops_all]. destruct (pack_ops id b r) as [o|] eqn:Eo; [|done]. cbn [mbind res_bind].
  destruct (pack_ops_all l) as [rest|] eqn:Er; [|done]. intros [= <-]. apply list.Forall_app. split; [|by apply IH]. unfold pack_ops in Eo. rewrite !encode_counter_eq in Eo. injection Eo as <-. constructor; [by right; right|]. constructor; [by right; right|constructor].
Qed.
Lemma sideways_enqueue fuel now reason es : sideways (enqueue_loop fuel now reason es).
Proof.
  revert es. induction fuel as [|fuel IH]; intros es; [apply sideways_ret; constructor|]. destruct es as [|e es]; [apply sideways_ret; constructor|]. cbn [enqueue_loop].
  apply sideways_bind; [apply quiet_alloc|intros seq]. apply sideways_bind; [apply quiet_lift|intros enc]. apply sideways_then; [apply IH| |intros; apply quiet_ret].
  intros ops Ho. apply sideways_ret. constructor; [by left|done].
Qed.
Lemma sideways_drop now es reason ov : sideways (drop_data now es reason ov).
Proof.
  apply sideways_then; [apply sideways_enqueue| |intros; apply quiet_bind; [apply quiet_lift|intros; apply quiet_ret]]. intros q Hq. apply sideways_then; [apply sideways_lift, side_packs| |intros; apply quiet_ret].
  intros p Hp. apply sideways_ret. apply list.Forall_app. split; [done|]. apply list.Forall_app. split; [apply side_refs|done].
Qed.
Lemma sideways_old now old ov : sideways (drop_old now old ov).
Proof. destruct old; [apply sideways_drop|apply sideways_ret; constructor]. Qed.
Lemma sideways_run_all {A} (f : A -> E (list BatchOp)) l : (forall x, sideways (f x)) -> sideways (run_all f l).
Proof.
  intros Hf. induction l as [|x l IH]; [apply sideways_ret; constructor|]. cbn. apply sideways_then; [done| |].
  - intros ops Ho. apply sideways_then; [done| |intros; apply quiet_ret]. intros rest Hr. apply sideways_ret. by apply list.Forall_app.
  - intros ops. apply quiet_bind; [apply IH|intros; apply quiet_ret].
Qed.

(** * What the operations do to the records *)

(** The batch's front, as the tables of records show it. *)
Definition fronted (front : list BatchOp) (s s' : Meta DB) : Prop := forall c, main_cf c -> tab s' c = apply_ops (on_cf c front) (tab s c).
Definition unmoved {A} (o : result A) (s s' : Meta DB) : Prop := same_main s s' /\ exists e, o = Throw e.
Lemma stopped_unmoved {A} (o : result A) s s' : stopped o s s' -> unmoved o s s'.
Proof. intros [-> H]. by split. Qed.
(** Staging on the side, then the rest. *)
Lemma sideways_run {A} (m : E (list BatchOp)) (f : list BatchOp -> E A) s o s' :
  sideways m -> (m ≫= f) s = (o, s') -> unmoved o s s' \/ exists ops s1, Forall side_op ops /\ same_main s s1 /\ f ops s1 = (o, s').
Proof.
  intros [Hq Hs] [(a & s1 & H1 & H2)|(e & H1 & ->)]%ST_bind_run.
  - right. exists a, s1. split; [by eapply Hs|]. split; [by eapply only_counter_main, Hq|done].
  - left. split; [by eapply only_counter_main, Hq|by eexists].
Qed.
Lemma commit_front {A} front ops (f : unit -> E A) s s1 o s' :
  same_main s s1 -> Forall side_op ops -> (commit (front ++ ops) ≫= f) s1 = (o, s') ->
  unmoved o s s' \/ exists s2, fronted front s s2 /\ f tt s2 = (o, s').
Proof.
  intros Hm Ho [[-> He]|(s2 & Hap & H)]%commit_bind; [by left|]. right. exists s2. split; [|done]. intros c Hc. by rewrite (applied_main _ _ _ _ c Hap Ho Hc), Hm.
Qed.
Lemma commit_last front ops s s1 o s' :
  same_main s s1 -> Forall side_op ops -> commit (front ++ ops) s1 = (o, s') -> unmoved o s s' \/ (o = Ok tt /\ fronted front s s').
Proof.
  intros Hm Ho H%commit_run. destruct o as [[]|e]; [right|left; split; [by subst|by eexists]]. split; [done|]. intros c Hc. by rewrite (applied_main _ _ _ _ c H Ho Hc), Hm.
Qed.

Ltac halt := try (left; by apply stopped_unmoved).
Lemma put_effect b k rec cond now s o s' :
  put_object b k rec cond now s = (o, s') -> unmoved o s s' \/ (o = Ok tt /\ exists okey old enc,
    object_key b k = Ok okey /\ encode_object (set_version (next_version old) rec) = Ok enc /\ fronted [BPut kObjects okey enc] s s').
Proof.
  intros H. unfold put_object in H. apply require_bucket_bind in H as [?|[_ H]]; halt. apply lift_bind in H as [?|(okey & Hk & H)]; halt. apply get_raw_bind in H as [?|H]; halt.
  apply lift_bind in H as [?|(old & _ & H)]; halt. apply lift_bind in H as [?|(u & _ & H)]; halt. apply lift_bind in H as [?|(enc & Henc & H)]; halt. cbv zeta in H. apply lift_bind in H as [?|(pd & Hpd & H)]; halt.
  apply sideways_run in H as [?|(drops & s1 & Hd & Hm & H)]; [by left| |apply sideways_old]. apply (commit_last [BPut kObjects okey enc] _ s) in H as [?|[-> Hf]]; [by left| |done|].
  - right. split; [done|]. by exists okey, old, enc.
  - apply list.Forall_app. split; [apply side_refs|]. apply list.Forall_app. split; [by eapply side_packs|done].
Qed.
Lemma delete_effect b k now s o s' :
  delete_object b k now s = (o, s') -> same_main s s' \/ exists okey, object_key b k = Ok okey /\ fronted [BDelete kObjects okey] s s'.
Proof.
  intros H. unfold delete_object in H. apply require_bucket_bind in H as [[-> _]|[_ H]]; [by left|]. apply lift_bind in H as [[-> _]|(okey & Hk & H)]; [by left|]. apply get_raw_bind in H as [[-> _]|H]; [by left|].
  destruct (tab s kObjects !! okey) as [v|]; [|apply mret_run in H as [_ ->]; by left]. apply lift_bind in H as [[-> _]|(old & _ & H)]; [by left|].
  apply sideways_run in H as [[? _]|(drops & s1 & Hd & Hm & H)]; [by left| |apply sideways_drop]. apply (commit_front [BDelete kObjects okey] _ _ s) in H as [[? _]|(s2 & Hf & H)]; [by left| |done|done].
  apply mret_run in H as [_ ->]. right. by exists okey.
Qed.
Lemma put_part_effect b k id p now s o s' :
  put_part b k id p now s = (o, s') -> unmoved o s s' \/ (o = Ok tt /\ exists pkey enc,
    part_key b k id (pr_part_no p) = Ok pkey /\ encode_part p = Ok enc /\ fronted [BPut kParts pkey enc] s s').
Proof.
  intros H. unfold put_part in H. apply require_upload_bind in H as [?|(ukey & v & u & _ & _ & _ & _ & H)]; halt. apply lift_bind in H as [?|(pkey & Hk & H)]; halt. apply get_raw_bind in H as [?|H]; halt.
  apply lift_bind in H as [?|(old & _ & H)]; halt. apply lift_bind in H as [?|(enc & Henc & H)]; halt. cbv zeta in H. apply lift_bind in H as [?|(pd & Hpd & H)]; halt.
  apply sideways_run in H as [?|(drops & s1 & Hd & Hm & H)]; [by left| |destruct old; [apply sideways_drop|apply sideways_ret; constructor]].
  apply (commit_last [BPut kParts pkey enc] _ s) in H as [?|[-> Hf]]; [by left| |done|].
  - right. split; [done|]. by exists pkey, enc.
  - apply list.Forall_app. split; [apply side_refs|]. apply list.Forall_app. split; [by eapply side_packs|done].
Qed.
Lemma abort_effect b k id now s o s' :
  abort_upload b k id now s = (o, s') -> same_main s s' \/ exists ukey pfx,
    fronted [BDelete kUploads ukey; BDeleteRange kParts pfx (default pfx (bump_last_byte pfx))] s s'.
Proof.
  intros H. unfold abort_upload in H. apply require_upload_bind in H as [[-> _]|(ukey0 & v & u & _ & _ & _ & _ & H)]; [by left|]. apply lift_bind in H as [[-> _]|(ukey & _ & H)]; [by left|]. apply lift_bind in H as [[-> _]|(pfx & _ & H)]; [by left|].
  apply ST_bind_run in H as [(ps & s1 & Hs%quiet_scan%only_counter_main & H)|(e & Hs%quiet_scan%only_counter_main & _)]; [|by left].
  apply sideways_run in H as [[? _]|(drops & s2 & Hd & Hm & H)]; [left; by transitivity s1| |rewrite drop_parts_all; apply sideways_run_all; intros; apply sideways_drop].
  apply (commit_last [BDelete kUploads ukey; BDeleteRange kParts pfx (default pfx (bump_last_byte pfx))] _ s) in H as [[? _]|[_ Hf]]; [by left| |by transitivity s1|done]. right. by exists ukey, pfx.
Qed.

(** ** Completion *)
Lemma select_md5s (stored : gmap Z PartRec) parts a a' ps :
  select_parts_loop stored parts a = Ok a' -> Forall2 (λ n p, stored !! n = Some p) (pi_part_no <$> parts) ps -> as_md5s a' = as_md5s a ++ (pr_etag <$> ps).
Proof.
  revert a ps. induction parts as [|pi parts IH]; intros a ps H HF; [injection H as <-; apply Forall2_nil_inv_l in HF as ->; by rewrite app_nil_r|].
  cbn [fmap list_fmap] in HF. apply Forall2_cons_inv_l in HF as (p & ps' & Hp & HF & ->). cbn [select_parts_loop] in H. unfold select_part in H. rewrite Hp in H. destruct (negb _); [done|].
  cbn [mbind res_bind] in H. rewrite (IH _ _ H HF). cbn. by rewrite <- app_assoc.
Qed.
Lemma select_sizes (stored : gmap Z PartRec) parts a a' ps :
  select_parts_loop stored parts a = Ok a' -> Forall2 (λ n p, stored !! n = Some p) (pi_part_no <$> parts) ps ->
  osize (as_meta a') = fold_left (λ sum p, (sum +₆₄ pr_size p)%L3) ps (osize (as_meta a)).
Proof.
  revert a ps. induction parts as [|pi parts IH]; intros a ps H HF; [injection H as <-; apply Forall2_nil_inv_l in HF as ->; done|].
  cbn [fmap list_fmap] in HF. apply Forall2_cons_inv_l in HF as (p & ps' & Hp & HF & ->). cbn [select_parts_loop] in H. unfold select_part in H. rewrite Hp in H. destruct (negb _); [done|].
  cbn [mbind res_bind] in H. by rewrite (IH _ _ H HF).
Qed.
Lemma assemble_tag md5_hex sha1 sha256 meta parts (stored : gmap Z PartRec) tp rec sel ps :
  assemble_completed_object md5_hex sha1 sha256 meta parts stored ∅ tp = Ok (rec, sel) -> Forall2 (λ n p, stored !! n = Some p) (pi_part_no <$> parts) ps ->
  etag (or_meta rec) = combined_etag md5_hex (pr_etag <$> ps) /\ or_tier rec = default_tier /\ osize (or_meta rec) = fold_left (λ sum p, (sum +₆₄ pr_size p)%L3) ps (osize meta).
Proof.
  unfold assemble_completed_object. intros H HF. destruct (select_parts_loop stored parts _) as [a|] eqn:Es; [|done]. cbn [mbind res_bind] in H. pose proof (select_md5s _ _ _ _ ps Es HF) as Hm. pose proof (select_sizes _ _ _ _ ps Es HF) as Hz. cbn in Hm, Hz.
  unfold apply_composite_checksum in H. rewrite Hm in H. destruct (negb _); [by injection H as <- <-|]. destruct (composite_checksum _ _ _ _); by injection H as <- <-.
Qed.
(** A stored part as the scan reads it. *)
Definition part_read_at (P : table) (b k id : bytes) (p : PartRec) : Prop :=
  exists n pkey v, is_u16 n /\ part_key b k id n = Ok pkey /\ P !! pkey = Some v /\ decode_part n v = Ok p.
Lemma decode_parts_elem (l : list (bytes * bytes)) ps p :
  decode_parts l = Ok ps -> p ∈ ps -> exists key v n, (key, v) ∈ l /\ part_no_of_key key = Ok n /\ decode_part n v = Ok p.
Proof.
  revert ps. induction l as [|[key v] l IH]; intros ps H; [injection H as <-; by intros ?%not_elem_of_nil|]. cbn [decode_parts] in H.
  destruct (part_no_of_key key) as [n|] eqn:En; [|done]. cbn [mbind res_bind] in H. destruct (decode_part n v) as [q|] eqn:Eq; [|done]. cbn [mbind res_bind] in H.
  destruct (decode_parts l) as [rest|] eqn:Er; [|done]. injection H as <-. intros [->|Hin]%elem_of_cons; [exists key, v, n; split; [left|done]|].
  destruct (IH rest eq_refl Hin) as (key' & v' & n' & H1 & H2). exists key', v', n'. split; [by right|done].
Qed.
Lemma scan_reads (P : table) (b k id pfx : bytes) ps :
  parts_ok P -> parts_prefix b k id = Ok pfx -> decode_parts (scan_prefix pfx (map_items bytes_le P)) = Ok ps -> Forall (part_read_at P b k id) ps.
Proof.
  intros HP Hp Hd. apply list.Forall_forall. intros p Hin. destruct (decode_parts_elem _ _ _ Hd Hin) as (key & v & n & [Hv Hpre]%scan_prefix_elem & Hn & Hdec).
  destruct (parts_prefix_part b k id pfx P key v HP Hp Hv Hpre) as (no & Hno & Hk). exists no, key, v. repeat (split; [done|]). enough (n = no) as -> by done.
  pose proof Hk as (_ & _ & _ & Ek)%part_key_Ok. subst key. replace (b ++ [nul] ++ k ++ [nul] ++ id ++ [nul] ++ [zb (Z.shiftr no 8); zb no]) with ((b ++ [nul] ++ k ++ [nul] ++ id) ++ [nul] ++ [zb (Z.shiftr no 8); zb no]) in Hn by (by rewrite <- !app_assoc).
  rewrite part_no_of_part_key in Hn by done. by injection Hn as ->.
Qed.
Lemma sideways_complete_part (b k id okey : bytes) now sel np : sideways (complete_part b k id okey now sel np).
Proof.
  destruct np as [no p]. cbn. destruct (bool_decide _); [|apply sideways_drop]. apply sideways_then; [apply sideways_lift, side_packs| |intros; apply quiet_bind; [apply quiet_lift|intros; apply quiet_ret]].
  intros less Hl. apply sideways_then; [apply sideways_lift, side_packs| |intros; apply quiet_ret]. intros more Hm. apply sideways_ret. apply list.Forall_app. split; [apply side_refs|by apply list.Forall_app].
Qed.

Section complete.
Context (md5_hex sha1 sha256 : bytes -> bytes).
Lemma complete_effect b k id parts now tp s o s' :
  parts_ok (tab s kParts) -> uploads_ok (tab s kUploads) -> is_i64 (to_unix_ms tp) -> validate_part_order parts = Ok tt -> (upload_extents (tab s kParts) b k id < 2 ^ 32)%Z ->
  complete_upload md5_hex sha1 sha256 b k id parts now tp s = (o, s') -> unmoved o s s' \/ exists okey old rec enc ukey pfx ps,
    o = Ok (etag (or_meta rec)) /\ object_key b k = Ok okey /\ encode_object (set_version (next_version old) rec) = Ok enc /\ object_rec_ok rec /\
    Forall (part_read_at (tab s kParts) b k id) ps /\ or_data rec = concat (pr_data <$> ps) /\ etag (or_meta rec) = combined_etag md5_hex (pr_etag <$> ps) /\ or_tier rec = default_tier /\ osize (or_meta rec) = fold_left (λ sum p, (sum +₆₄ pr_size p)%L3) ps 0%Z /\
    fronted [BPut kObjects okey enc; BDelete kUploads ukey; BDeleteRange kParts pfx (default pfx (bump_last_byte pfx))] s s'.
Proof.
  intros HP HU Htp [Hne Hasc]%validate_part_order_Ok Hfew H. unfold complete_upload in H. apply require_upload_bind in H as [?|(ukey0 & uv & up & _ & _ & Huv & Hup & H)]; halt. apply require_bucket_bind in H as [?|[_ H]]; halt.
  apply ST_bind_run in H as [(ps0 & s0 & Hsc & H)|(e & Hs%quiet_scan%only_counter_main & ->)]; [|left; by split; [|eexists]]. unfold scan_parts in Hsc. apply lift_bind in Hsc as [[-> [? [=]]]|(pfx0 & Hpfx & Hsc)]. apply items_bind in Hsc as [[-> [? [=]]]|Hsc].
  apply lift_run in Hsc as [Hdec ->]. symmetry in Hdec. pose proof (scan_reads _ b k id pfx0 ps0 HP Hpfx Hdec) as Hreads. pose proof (scan_upload_parts b k id pfx0 _ ps0 HP Hpfx Hdec) as HL0. apply upload_parts_map in HL0.
  cbv zeta in H. set (stored := list_to_map ((λ p, (pr_part_no p, p)) <$> ps0) : gmap Z PartRec) in *. apply lift_bind in H as [?|([rec sel] & Has & H)]; halt. cbn [fst snd] in H.
  assert (exists ps, Forall2 (λ n p, stored !! n = Some p) (pi_part_no <$> parts) ps /\ or_data rec = concat (pr_data <$> ps) /\ object_rec_ok rec) as (ps & HF & Hd & Hok).
  { assert (Forall is_u64 (part_sizes (ur_meta up))) as Hps by (destruct (HU ukey0 uv Huv) as (r & R1 & R2 & R3); rewrite (upload_record_roundtrip k id uv r R1 R2 R3) in Hup; by injection Hup as <-).
    assert (map_Forall (λ _ p, part_rec_ok p) stored) as Hst by (intros n p Hn%(map_items_elem Z.le); by destruct (up_stored _ _ _ _ _ HL0 n p Hn) as (_ & _ & ? & _)).
    destruct (assemble_spec md5_hex sha1 sha256 (ur_meta up) parts stored tp rec sel Has Hne Hps Hst Htp) as (ps & A1 & A2 & _ & A3); [|by exists ps].
    pose proof Has as Has'. unfold assemble_completed_object in Has'. destruct (select_parts_loop stored parts _) as [a|] eqn:Es; [|done]. cbn [mbind res_bind] in Has'.
    destruct (apply_composite_checksum _ _ _ _ _). injection Has' as <- _. apply select_loop in Es as (ps & HF & -> & _). cbn. pose proof (selected_extents _ b k id stored _ ps HL0 (ascending_NoDup _ _ Hasc) HF). lia. }
  destruct (assemble_tag md5_hex sha1 sha256 _ _ _ _ _ _ ps Has HF) as (Htag & Htier & Hsize). assert (osize (ur_meta up) = 0%Z) as H0 by (destruct (HU ukey0 uv Huv) as (r & R1 & R2 & R3); rewrite (upload_record_roundtrip k id uv r R1 R2 R3) in Hup; by injection Hup as <-). rewrite H0 in Hsize.
  apply lift_bind in H as [?|(okey & Hk & H)]; halt. apply get_raw_bind in H as [?|H]; halt. apply lift_bind in H as [?|(old & _ & H)]; halt. apply lift_bind in H as [?|(enc & Henc & H)]; halt.
  apply lift_bind in H as [?|(ukey & _ & H)]; halt. apply lift_bind in H as [?|(pfx & _ & H)]; halt. rewrite complete_parts_all in H.
  apply sideways_run in H as [?|(moves & s1 & Hmv & Hm1 & H)]; [by left| |apply sideways_run_all; intros; apply sideways_complete_part].
  apply sideways_run in H as [[? ?]|(drops & s2 & Hdr & Hm2 & H)]; [left; split; [by transitivity s1|done]| |apply sideways_old].
  apply (commit_front [BPut kObjects okey enc; BDelete kUploads ukey; BDeleteRange kParts pfx (default pfx (bump_last_byte pfx))] (moves ++ drops) _ s) in H as [?|(s3 & Hf & H)]; [by left| |by transitivity s1|by apply list.Forall_app].
  apply mret_run in H as [-> ->]. right. exists okey, old, rec, enc, ukey, pfx, ps. repeat (split; [done|]). split; [|done].
  apply list.Forall_forall. intros p [i Hi]%list_elem_of_lookup. destruct (Forall2_lookup_r _ _ _ _ _ HF Hi) as (n & _ & Hn). rewrite list.Forall_forall in Hreads. apply Hreads.
  apply elem_of_list_to_map_2 in Hn. by apply list_elem_of_fmap in Hn as (q & [= _ ->] & Hq).
Qed.
End complete.

(** ** The other operations *)
Lemma create_bucket_effect b now s o s' : create_bucket b now s = (o, s') -> same_main s s' \/ exists enc, fronted [BPut kBuckets b enc] s s'.
Proof.
  intros H. unfold create_bucket in H. apply get_raw_bind in H as [[-> _]|H]; [by left|]. apply lift_bind in H as [[-> _]|(? & _ & H)]; [by left|]. apply lift_bind in H as [[-> _]|(enc & _ & H)]; [by left|].
  apply (commit_last [BPut kBuckets b enc] [] s) in H as [[? _]|[_ Hf]]; [by left|right; by exists enc|done|constructor].
Qed.
Lemma delete_bucket_effect b s o s' : delete_bucket b s = (o, s') -> same_main s s' \/ fronted [BDelete kBuckets b] s s'.
Proof.
  intros H. unfold delete_bucket in H. apply require_bucket_bind in H as [[-> _]|[_ H]]; [by left|]. apply items_bind in H as [[-> _]|H]; [by left|]. apply lift_bind in H as [[-> _]|(? & _ & H)]; [by left|]. apply items_bind in H as [[-> _]|H]; [by left|].
  apply lift_bind in H as [[-> _]|(? & _ & H)]; [by left|]. apply (commit_last [BDelete kBuckets b] [] s) in H as [[? _]|[_ Hf]]; [by left|by right|done|constructor].
Qed.
Lemma create_upload_effect b k m new_id now s o s' :
  create_upload b k m new_id now s = (o, s') -> same_main s s' \/ exists ukey enc, encode_upload (mkUploadRec new_id (set_okey k m) now) = Ok enc /\ fronted [BPut kUploads ukey enc] s s'.
Proof.
  intros H. unfold create_upload in H. apply require_bucket_bind in H as [[-> _]|[_ H]]; [by left|]. cbv zeta in H. apply lift_bind in H as [[-> _]|(ukey & _ & H)]; [by left|]. apply lift_bind in H as [[-> _]|(enc & Henc & H)]; [by left|].
  apply (commit_front [BPut kUploads ukey enc] [] _ s) in H as [[? _]|(s2 & Hf & H)]; [by left| |done|constructor]. apply mret_run in H as [_ ->]. right. by exists ukey, enc.
Qed.
Lemma write_side sync ops s o s' : write sync ops s = (o, s') -> Forall side_op ops -> same_main s s'.
Proof. intros H%write_run Ho. destruct o; [|by subst]. intros c Hc. by rewrite (applied_main [] ops s s' c H Ho Hc). Qed.
Lemma alloc_effect c n s o s' : alloc_id c n s = (o, s') -> same_main s s'.
Proof.
  assert (forall s o s', reserve_segment c s = (o, s') -> same_main s s') as Hres.
  { clear. intros s o s' H. unfold reserve_segment in H. apply lift_bind in H as [[-> _]|(d & _ & H)]; [done|].
    assert (Forall side_op [BMerge kStats (counter_key c) d]) as Ho by (constructor; [by right; right|constructor]).
    apply ST_bind_run in H as [(u & s1 & Hw & H)|(e & Hw & _)]; apply write_side in Hw; try done. etransitivity; [exact Hw|].
    apply get_raw_bind in H as [[-> _]|H]; [done|]. destruct (tab s1 kStats !! counter_key c); [|by injection H as _ <-]. apply lift_bind in H as [[-> _]|(z & _ & H)]; [done|].
    apply modify_run in H as [_ ->]. intros cf _. by rewrite tab_set. }
  unfold alloc_id. rewrite ST_get_bind. intros H. apply ST_bind_run in H as [(u & s1 & H1 & H)|(e & H1 & _)].
  - assert (same_main s s1) as Hm by (destruct (_ <? _)%Z; [by eapply Hres|by apply mret_run in H1 as [_ ->]]). etransitivity; [exact Hm|]. rewrite ST_get_bind in H.
    apply ST_bind_run in H as [(u2 & s2 & [_ ->]%modify_run & H)|(e & [[=] _]%modify_run & _)]. apply mret_run in H as [_ ->]. intros cf _. by rewrite tab_set.
  - destruct (_ <? _)%Z; [by eapply Hres|by apply mret_run in H1 as [_ ->]].
Qed.
Lemma seal_effect p n s o s' : seal_pack p n s = (o, s') -> same_main s s'.
Proof.
  intros H. unfold seal_pack in H. apply ST_bind_run in H as [(kn & s1 & Hk%quiet_seal_known%only_counter_main & H)|(e & Hk%quiet_seal_known%only_counter_main & _)]; [|done]. etransitivity; [exact Hk|].
  destruct (bool_decide _); [by apply mret_run in H as [_ ->]|]. apply lift_bind in H as [[-> _]|(enc & _ & H)]; [done|].
  apply (commit_last [] [BPut kStats (pack_stat_key p (ch "s")) enc] s1) in H as [[? _]|[_ Hf]]; [done|intros c Hc; by rewrite Hf|done|]. constructor; [by right; right|constructor].
Qed.
End store.
