(* ===== verification/RocksStats.v ===== *)
(** The pack statistics of the RocksDB engine: the scan that groups the counters of a
    pack returns, for every pack, what the counters hold. *)

From S2P Require Import Prelude Bytes Backend Codec CodecProofs CodecKeys MetaUtil.
From S2P Require Import RocksDb RocksMeta RocksLedger RocksProofs RocksInv RocksSteps RocksTheorems.
From Stdlib Require Import ZArith Lia.
From stdpp Require Import base list gmap sets strings sorting relations.
Open Scope lights3_scope.

(** * Keys of ten bytes are keys of packs *)
Lemma be_value_inj (a b : bytes) : length a = length b -> be_value a = be_value b -> a = b.
Proof.
  intros Hl E. destruct (bytes_lt_total a b) as [H|[->|H]]; [|done|]; unfold bytes_lt in H; rewrite be_value_order in H by done; lia.
Qed.
Lemma be64_key_value (l : bytes) : length l = 8 -> is_u64 (be_value l) /\ be64_key (be_value l) = l /\ parse_be64 l = Ok (be_value l).
Proof.
  intros Hl. assert (is_u64 (be_value l)) as Hu by (pose proof (be_value_range l) as H; rewrite Hl in H; exact H).
  assert (be64_key (be_value l) = l) as E by (apply be_value_inj; [by rewrite length_be64|by apply be64_value]).
  split_and!; [done|done|]. rewrite <- E at 1. by apply parse_be64_key.
Qed.

Lemma pack_key_of (k : bytes) :
  length k = 10 -> bs "p" `prefix_of` k ->
  exists id f, is_u64 id /\ k = pack_stat_key id f /\ parse_be64 (substr k 1 8) = Ok id /\ list.last k = Some f.
Proof.
  intros Hl [z ->]. change (bs "p" ++ z) with (ch "p" :: z) in *. cbn in Hl. injection Hl as Hl.
  assert (length (take 8 z) = 8) as H8 by (rewrite length_take; lia). destruct (be64_key_value (take 8 z) H8) as (Hu & Ek & Ep).
  assert (exists f, drop 8 z = [f]) as [f Ef].
  { assert (length (drop 8 z) = 1) as H1 by (rewrite length_drop; lia). destruct (drop 8 z) as [|f [|? ?]]; [done|by exists f|done]. }
  exists (be_value (take 8 z)), f. split_and!; [done| | |].
  - unfold pack_stat_key. rewrite Ek, <- Ef. change (bs "p") with [ch "p"]. cbn [app]. by rewrite take_drop.
  - rewrite <- Ep. done.
  - rewrite <- (take_drop 8 z), Ef. change (ch "p" :: take 8 z ++ [f]) with ((ch "p" :: take 8 z) ++ [f]). apply last_snoc.
Qed.
Lemma length_pack_key p f : length (pack_stat_key p f) = 10.
Proof. done. Qed.

Lemma pack_key_order p q f g : is_u64 p -> is_u64 q -> bytes_le (pack_stat_key p f) (pack_stat_key q g) -> (p <= q)%Z.
Proof.
  intros Hp Hq Hle. apply Z.nlt_ge. intros Hlt. apply (bytes_lt_not_le (pack_stat_key q g) (pack_stat_key p f)); [|done].
  unfold bytes_lt, pack_stat_key. rewrite bytes_ltb_app, be_value_order by done.
  apply Z.ltb_lt. unfold be_value. rewrite !fold_left_app. fold (be_value (be64_key q)) (be_value (be64_key p)). rewrite !be64_value by done.
  cbn. byte_ranges. lia.
Qed.

(** * One pack *)
Definition summary (t : table) (p : Z) : PackStat :=
  mkPackStat p (match t !! pack_stat_key p (ch "s") with Some v => u64 (counter_or_zero v) | None => 0%Z end)
    (stat t (pack_stat_key p (ch "b"))) (stat t (pack_stat_key p (ch "r"))) (bool_decide (is_Some (t !! pack_stat_key p (ch "s")))).

Lemma decode_counter_exact v c : decode_counter v = Ok c -> counter_or_zero v = c.
Proof.
  intros E. unfold counter_or_zero. rewrite E. assert (length v = 8) as ->; [|done].
  do 9 (destruct v as [|? v]; [done||(cbn; done)|]). exfalso. clear -E. unfold decode_counter, decoded in E. vm_compute in E. discriminate E.
Qed.

Lemma summary_ext (t t' : table) p : (forall f, t' !! pack_stat_key p f = t !! pack_stat_key p f) -> summary t' p = summary t p.
Proof. intros E. unfold summary, stat. by rewrite !E. Qed.
Lemma summary_none (t : table) p : (forall f, t !! pack_stat_key p f = None) -> summary t p = mkPackStat p 0 0 0 false.
Proof. intros E. unfold summary, stat. by rewrite !E. Qed.
Lemma summary_other (t : table) p q f v : is_u64 p -> is_u64 q -> p <> q -> summary (<[pack_stat_key q f := v]> t) p = summary t p.
Proof. intros Hp Hq Hne. apply summary_ext. intros g. rewrite lookup_insert_ne; [done|]. by intros [E _]%pack_stat_key_inj. Qed.

Lemma stat_field_summary (t : table) p f v cur :
  is_u64 p -> stat_field f v (summary t p) = Ok cur -> cur = summary (<[pack_stat_key p f := v]> t) p.
Proof.
  intros Hp. assert (forall g, g <> f -> <[pack_stat_key p f := v]> t !! pack_stat_key p g = t !! pack_stat_key p g) as Hne.
  { intros g Hg. rewrite lookup_insert_ne; [done|]. intros [_ E]%pack_stat_key_inj; done. }
  unfold stat_field. repeat case_bool_decide; subst; cbn [mbind res_bind].
  all: try (destruct (decode_counter v) as [c|] eqn:Ec; [|done]; apply decode_counter_exact in Ec; cbn [mbind res_bind]).
  all: unfold summary, stat; intros [= <-]; cbn [ps_pack_id file_size live_bytes live_recs sealed]; rewrite ?lookup_insert_eq, ?Ec; rewrite !Hne by done; try done.
  all: by rewrite bool_decide_eq_true_2.
Qed.

(** * The scan *)

(** [out], newest first, holds the packs with a key in [m]. *)
Record stats_ok (m : table) (out : list PackStat) : Prop := mkStatsOk {
  sk_summary : forall ps, ps ∈ out -> is_u64 (ps_pack_id ps) /\ ps = summary m (ps_pack_id ps);
  sk_order : StronglySorted Z.gt (ps_pack_id <$> out);
  sk_all : forall p f, is_u64 p -> is_Some (m !! pack_stat_key p f) -> p ∈ ps_pack_id <$> out }.

Lemma stats_skip m out k v : stats_ok m out -> length k <> 10 -> stats_ok (<[k:=v]> m) out.
Proof.
  intros [S1 S2 S3] Hk. assert (forall p f, <[k:=v]> m !! pack_stat_key p f = m !! pack_stat_key p f) as He.
  { intros p f. rewrite lookup_insert_ne; [done|]. intros ->. by apply Hk. }
  split; [|done|intros p f; rewrite He; apply S3]. intros ps Hin. destruct (S1 ps Hin) as [Hu E]. split; [done|].
  by rewrite (summary_ext m).
Qed.

Lemma stats_add m out id f v cur rest :
  stats_ok m out -> is_u64 id -> m !! pack_stat_key id f = None -> (forall ps, ps ∈ out -> ps_pack_id ps <= id)%Z ->
  (exists p, p ∈ out /\ ps_pack_id p = id /\ out = p :: rest) \/ (id ∉ ps_pack_id <$> out /\ rest = out) ->
  stat_field f v (summary m id) = Ok cur -> stats_ok (<[pack_stat_key id f := v]> m) (cur :: rest).
Proof.
  intros [S1 S2 S3] Hid Hnew Hmax Hcase Hcur. apply stat_field_summary in Hcur as ->; [|done]. set (m' := <[pack_stat_key id f := v]> m).
  assert (forall ps, ps ∈ rest -> ps ∈ out /\ (ps_pack_id ps < id)%Z) as Hrest.
  { intros ps Hin. destruct Hcase as [(p & _ & <- & ->)|[Hn ->]].
    - split; [by right|]. cbn in S2. apply StronglySorted_inv in S2 as [_ Hall]. rewrite list.Forall_forall in Hall.
      apply Z.gt_lt, Hall. by apply list_elem_of_fmap_2.
    - split; [done|]. specialize (Hmax ps Hin). assert (ps_pack_id ps <> id); [|lia]. intros E. apply Hn, list_elem_of_fmap. by exists ps. }
  split.
  - intros ps [->|Hin]%elem_of_cons; [done|]. destruct (Hrest ps Hin) as [Ho Hlt]. destruct (S1 ps Ho) as [Hu E]. split; [done|].
    rewrite E at 1. symmetry. apply summary_other; [done|done|]. lia.
  - cbn. constructor.
    + destruct Hcase as [(p & _ & _ & ->)|[_ ->]]; [|done]. cbn in S2. by apply StronglySorted_inv in S2 as [S2 _].
    + apply list.Forall_fmap, list.Forall_forall. intros ps Hin. cbn. destruct (Hrest ps Hin) as [_ Hlt]. lia.
  - intros p g Hp Hs. cbn. rewrite elem_of_cons. destruct (decide (p = id)) as [->|Hne]; [by left|right].
    assert (is_Some (m !! pack_stat_key p g)) as Hm.
    { unfold m' in Hs. rewrite lookup_insert_ne in Hs; [done|]. intros [E _]%pack_stat_key_inj; done. }
    specialize (S3 p g Hp Hm). destruct Hcase as [(p0 & _ & E0 & ->)|[_ ->]]; [|done]. cbn in S3. apply elem_of_cons in S3 as [->|]; [|done]. by rewrite E0 in Hne.
Qed.

Lemma stats_loop_spec l m out r :
  StronglySorted (λ a b, bytes_le a b /\ a <> b) l.*1 -> (forall k, k ∈ l.*1 -> m !! k = None /\ bs "p" `prefix_of` k) ->
  stats_ok m out -> (forall p f ps, is_u64 p -> pack_stat_key p f ∈ l.*1 -> ps ∈ out -> ps_pack_id ps <= p)%Z ->
  stats_loop l out = Ok r -> stats_ok (fold_left (λ t kv, <[kv.1:=kv.2]> t) l m) (reverse r).
Proof.
  revert m out. induction l as [|[k v] l IH]; intros m out Hs Hk Hok Hmax E.
  { injection E as <-. cbn. by rewrite reverse_involutive. }
  cbn in Hs. apply StronglySorted_inv in Hs as [Hs Hall]. rewrite list.Forall_forall in Hall. cbn [stats_loop] in E. cbn [fold_left fst snd].
  destruct (Hk k ltac:(cbn; left)) as [Hnew Hpre].
  assert (forall k', k' ∈ l.*1 -> <[k:=v]> m !! k' = None /\ bs "p" `prefix_of` k') as Hk'.
  { intros k' Hin. destruct (Hk k' ltac:(cbn; by right)) as [Hn Hp]. split; [|done]. rewrite lookup_insert_ne; [done|]. by destruct (Hall k' Hin). }
  destruct (Nat.eqb_spec (length k) 10) as [H10|H10]; cbn [negb] in E.
  2: { eapply IH; [done|done|by apply stats_skip| |exact E]. intros p f ps Hp Hin. apply (Hmax p f ps Hp). cbn. by right. }
  destruct (pack_key_of k H10 Hpre) as (id & f & Hid & -> & Hparse & Hlast). rewrite Hparse in E. cbn [mbind res_bind] in E.
  set (cd := match out with
             | [] => (mkPackStat id 0 0 0 false, [])
             | p :: out' => if (ps_pack_id p =? id)%Z then (p, out') else (mkPackStat id 0 0 0 false, out)
             end) in E.
  assert (cd.1 = summary m id /\ ((exists p, p ∈ out /\ ps_pack_id p = id /\ out = p :: cd.2) \/ (id ∉ ps_pack_id <$> out /\ cd.2 = out))) as [Ecur Hcase].
  { pose proof Hok as [S1 S2 S3]. assert (id ∉ ps_pack_id <$> out -> summary m id = mkPackStat id 0 0 0 false) as Hz.
    { intros Hn. apply summary_none. intros g. destruct (m !! pack_stat_key id g) eqn:Eg; [|done]. destruct Hn. apply (S3 id g); [done|by eexists]. }
    unfold cd. destruct out as [|p out]; [cbn; split; [symmetry; apply Hz, not_elem_of_nil|right; split; [apply not_elem_of_nil|done]]|].
    destruct (Z.eqb_spec (ps_pack_id p) id) as [<-|Hne]; cbn.
    - split; [by apply S1; left|left; exists p; split_and!; [left|done|done]].
    - assert (id ∉ ps_pack_id <$> p :: out) as Hn.
      { cbn. intros [?|Hin]%elem_of_cons; [done|]. cbn in S2. apply StronglySorted_inv in S2 as [_ Hgt]. rewrite list.Forall_forall in Hgt.
        specialize (Hgt id Hin). specialize (Hmax id f p Hid ltac:(cbn; left) ltac:(left)). lia. }
      split; [symmetry; by apply Hz|by right]. }
  destruct cd as [cur done] eqn:Ecd. cbn [fst snd] in Ecur, Hcase. subst cur. rewrite Hlast in E.
  destruct (stat_field f v (summary m id)) as [cur'|] eqn:Ef; [|done]. cbn [mbind res_bind] in E.
  eapply IH; [done|done| | |exact E].
  - eapply stats_add; try done. intros ps Hin. apply (Hmax id f ps Hid); [cbn; left|done].
  - intros p g ps Hp Hin [->|Hps]%elem_of_cons.
    + apply stat_field_summary in Ef as ->; [|done]. cbn. destruct (Hall _ Hin) as [Hle _]. by apply pack_key_order in Hle.
    + apply (Hmax p g ps Hp); [cbn; by right|]. destruct Hcase as [(? & _ & _ & ->)|[_ ->]]; [by right|done].
Qed.

Lemma fold_insert_lookup (l : list (bytes * bytes)) (m : table) k v :
  NoDup l.*1 -> (forall k, k ∈ l.*1 -> m !! k = None) -> fold_left (λ t kv, <[kv.1:=kv.2]> t) l m !! k = Some v <-> (k, v) ∈ l \/ m !! k = Some v.
Proof.
  revert m. induction l as [|[k0 v0] l IH]; intros m Hn Hm; cbn [fold_left fst snd]; [cbn; set_solver|].
  cbn in Hn. apply list.NoDup_cons in Hn as [Hk0 Hn]. rewrite IH; [|done|].
  - rewrite elem_of_cons, lookup_insert_Some. split; [naive_solver|]. intros [[[= -> ->]|?]|Hk]; [auto|auto|].
    right. right. split; [|done]. intros ->. rewrite (Hm k) in Hk by (cbn; left). done.
  - intros k' Hk'. rewrite lookup_insert_ne; [apply Hm; cbn; by right|]. intros ->. done.
Qed.

Lemma take_while_elem {A} (f : A -> bool) l x : x ∈ take_while f l -> x ∈ l.
Proof.
  induction l as [|y l IH]; [done|]. cbn [take_while]. destruct (f y); [|intros Hin; by apply not_elem_of_nil in Hin].
  intros [->|Hin]%elem_of_cons; [left|right; auto].
Qed.
Lemma take_while_sorted {A B} (R : relation A) (f : A * B -> bool) l : StronglySorted R l.*1 -> StronglySorted R (take_while f l).*1.
Proof.
  induction l as [|y l IH]; intros Hs; [done|]. cbn in Hs. apply StronglySorted_inv in Hs as [Hs Hall]. cbn [take_while].
  destruct (f y); [|constructor]. cbn. constructor; [by apply IH|]. rewrite list.Forall_forall in *.
  intros k (z & -> & Hin%take_while_elem)%list_elem_of_fmap. by apply Hall, list_elem_of_fmap_2.
Qed.

Section stats.
Context {DB : Type} {rocks : RocksDB DB} {law : RocksLaw DB}.
Context (md5_hex sha1 sha256 sha256_hex : bytes -> bytes).
Implicit Types (s : Meta DB) (x : Sys (DB := DB)).

Lemma pack_stats_run s l s' :
  pack_stats s = (Ok l, s') -> s' = s /\ NoDup (ps_pack_id <$> l) /\
  (forall ps, ps ∈ l -> is_u64 (ps_pack_id ps) /\ ps = summary (tab s kStats) (ps_pack_id ps)) /\
  (forall p f, is_u64 p -> is_Some (tab s kStats !! pack_stat_key p f) -> p ∈ ps_pack_id <$> l).
Proof.
  intros E. unfold pack_stats in E. apply items_bind in E as [[_ [e [=]]]|E]. apply lift_run in E as [E ->]. split; [done|]. symmetry in E.
  set (t := tab s kStats) in *. set (sc := scan_prefix (bs "p") (map_items bytes_le t)) in *.
  pose proof (scan_prefix_NoDup (bs "p") t) as Hn. fold sc in Hn.
  apply (stats_loop_spec sc ∅ [] l) in E; [| | |split; [intros ? H; by apply not_elem_of_nil in H|constructor|]|].
  - assert (forall p f, fold_left (λ t kv, <[kv.1:=kv.2]> t) sc (∅ : table) !! pack_stat_key p f = t !! pack_stat_key p f) as He.
    { intros p f. apply option_eq. intros v. rewrite fold_insert_lookup; [|done|intros; apply lookup_empty]. rewrite lookup_empty.
      unfold sc. rewrite scan_prefix_elem. split; [naive_solver|]. intros Hv. left. split; [done|]. by exists (be64_key p ++ [f]). }
    destruct E as [S1 S2 S3]. split_and!.
    + rewrite <- (reverse_Permutation (ps_pack_id <$> l)), <- fmap_reverse. clear -S2. induction S2 as [|y l0 Hs IH Hall]; constructor; [|done].
      rewrite list.Forall_forall in Hall. intros Hin%Hall. lia.
    + intros ps Hin. destruct (S1 ps ltac:(by apply elem_of_reverse)) as [Hu Eps]. split; [done|]. rewrite Eps at 1. by apply summary_ext.
    + intros p f Hp Hsome. rewrite <- (He p f) in Hsome. apply S3 in Hsome; [|done]. rewrite fmap_reverse in Hsome. by apply elem_of_reverse.
  - unfold sc, scan_prefix, it_seek. destruct (seek_from_split [] (bs "p") (map_items bytes_le t)) as (sk & _ & Hl & _ & _).
    pose proof (map_items_sorted bytes_le t) as Hs. rewrite Hl, fmap_app in Hs. apply StronglySorted_app_1_r in Hs.
    by apply take_while_sorted.
  - intros k ([? v] & -> & Hin)%list_elem_of_fmap. apply scan_prefix_elem in Hin as [_ Hp]. split; [apply lookup_empty|done].
  - intros p f Hp [v Hv]. by rewrite lookup_empty in Hv.
  - intros p f ps _ _ Hps. by apply not_elem_of_nil in Hps.
Qed.
(** An extent in pack [p], in the record of an object or of a part. *)
Definition uses_pack (O P : table) (p : Z) : Prop :=
  exists e, is_pack e = true /\ Extent.file_id e = p /\
    ((exists k v, O !! k = Some v /\ e ∈ data_of_object v) \/ (exists k v, P !! k = Some v /\ e ∈ data_of_part v)).

Lemma ledger_recs_uses (O P : table) p : ledger_recs O P p = 0%Z <-> ~ uses_pack O P p.
Proof.
  split.
  - intros [H1 H2]%ledger_recs_zero (e & He & Hp & [(k & v & Hk & Hin)|(k & v & Hk & Hin)]).
    + by apply (proj1 (pack_recs_zero _ _) (H1 k v Hk) e).
    + by apply (proj1 (pack_recs_zero _ _) (H2 k v Hk) e).
  - intros Hn. unfold ledger_recs. rewrite !ksum_zero; [done| |]; intros k v Hk; apply pack_recs_zero; intros e Hin He Hp; apply Hn.
    + exists e. split_and!; [done|done|]. right. eauto.
    + exists e. split_and!; [done|done|]. left. eauto.
Qed.

(** The pack ledger is exact: in every reachable state the statistics list each pack
    once; the record count of a pack is the number of records of live objects and parts
    that lie in it, and its byte count their bytes with record overhead; a pack in use is
    listed, and a pack reported empty is used by no object and no part, so its file can
    be deleted whole. *)
Theorem pack_stats_exact x (Hx : reachable md5_hex sha1 sha256 sha256_hex x)
    (Hlt : (stored_extents (tab (meta x) kObjects) (tab (meta x) kParts) < 2 ^ 63)%Z) (l : list PackStat) s'
    (E : pack_stats (meta x) = (Ok l, s')) :
  let O := tab (meta x) kObjects in let P := tab (meta x) kParts in
  NoDup (ps_pack_id <$> l) /\
  (forall ps, ps ∈ l -> live_recs ps = ledger_recs O P (ps_pack_id ps) /\ live_bytes ps ≡₆₄ ledger_bytes O P (ps_pack_id ps)) /\
  (forall ps, ps ∈ l -> live_recs ps = 0%Z <-> ~ uses_pack O P (ps_pack_id ps)) /\
  (forall p, is_u64 p -> uses_pack O P p -> p ∈ ps_pack_id <$> l).
Proof.
  cbv zeta. apply reach_inv in Hx. apply pack_stats_run in E as (_ & H1 & H2 & H3).
  assert (forall ps, ps ∈ l -> live_recs ps = ledger_recs (tab (meta x) kObjects) (tab (meta x) kParts) (ps_pack_id ps)) as Hr.
  { intros ps Hin. destruct (H2 ps Hin) as [Hu ->]. cbn [live_recs summary ps_pack_id]. by eapply pack_counted. }
  split_and!; [done| | |].
  - intros ps Hin. split; [by apply Hr|]. destruct (H2 ps Hin) as [Hu ->]. by apply (mi_bytes _ _ _ Hx).
  - intros ps Hin. rewrite (Hr ps Hin). apply ledger_recs_uses.
  - intros p Hp Hu. destruct (tab (meta x) kStats !! pack_stat_key p (ch "r")) eqn:Ek; [apply (H3 p (ch "r")); [done|by eexists]|].
    exfalso. apply (proj1 (ledger_recs_uses (tab (meta x) kObjects) (tab (meta x) kParts) p)); [|done].
    rewrite <- (pack_counted (meta x) _ _ p Hx Hp Hlt). unfold stat. by rewrite Ek.
Qed.
End stats.

Definition demo_stats : list PackStat := [mkPackStat 7 0 29 1 false].
Lemma pack_stats_exact_witness : ledger_recs (tab (meta demo4) kObjects) (tab (meta demo4) kParts) 7 = 1%Z.
Proof.
  destruct (pack_stats_exact hash hash hash hash demo4 demo_reachable ltac:(vm_compute; reflexivity)
    demo_stats (pack_stats (meta demo4)).2) as (_ & H & _); [apply run_first; vm_compute; reflexivity|].
  destruct (H (mkPackStat 7 0 29 1 false) ltac:(left)) as [H1 _]. symmetry. exact H1.
Defined.
