(* ===== verification/RocksListing.v ===== *)
(** Listing in the RocksDB engine: the loop that seeks past whole groups returns what
    the shared pagination of [Listing] returns on the bucket's keys. *)

From S2P Require Import Prelude Bytes Backend Listing Multipart Codec CodecProofs CodecKeys MetaUtil.
From S2P Require Import RocksDb RocksMeta RocksLedger RocksProofs RocksInv.
From Stdlib Require Import ZArith Lia.
From stdpp Require Import base list gmap sets strings sorting relations.

(** * Iterators over sorted entries *)
Lemma seek_from_drop before t l : (seek_from before t l).2 = drop_while (λ kv, bytes_ltb kv.1 t) l.
Proof. revert before. induction l as [|kv l IH]; intros before; cbn; [done|]. destruct (bytes_ltb kv.1 t); [apply IH|done]. Qed.
Lemma seek_all t l : l = reverse (it_seek t l).1 ++ (it_seek t l).2.
Proof.
  unfold it_seek. destruct (seek_from_split [] t l) as (sk & E1 & E2 & _ & _). by rewrite E1, app_nil_r, reverse_involutive.
Qed.

Lemma sorted_ext (a c : list bytes) : StronglySorted bytes_lt a -> StronglySorted bytes_lt c -> (forall x, x ∈ a <-> x ∈ c) -> a = c.
Proof.
  revert c. induction a as [|x a IH]; intros [|y c] Ha Hc He; [done|exfalso; by apply (not_elem_of_nil y), He; left|exfalso; by apply (not_elem_of_nil x), He; left|].
  inversion Ha as [|? ? Ha' Hxa]; inversion Hc as [|? ? Hc' Hyc]; subst. rewrite list.Forall_forall in Hxa, Hyc.
  assert (forall z, ~ (bytes_lt z z)) as Hirr by (intros z; apply irreflexivity; apply _).
  assert (x = y) as ->.
  { destruct (proj1 (elem_of_cons _ _ _) (proj1 (He x) ltac:(left))) as [|Hx]; [done|].
    destruct (proj1 (elem_of_cons _ _ _) (proj2 (He y) ltac:(left))) as [|Hy]; [done|].
    exfalso. apply (Hirr x). trans y; [by apply Hxa|by apply Hyc]. }
  f_equal. apply IH; [done|done|]. intros z. specialize (He z). rewrite !elem_of_cons in He. split; intros Hz.
  - destruct (proj1 He (or_intror Hz)) as [->|]; [by destruct (Hirr y); apply Hxa|done].
  - destruct (proj2 He (or_intror Hz)) as [->|]; [by destruct (Hirr y); apply Hyc|done].
Qed.

Section walk.
Context (opt : ListOptions) (q : bytes) (pre ents : list (bytes * bytes)) (fetch : bytes -> ObjectMeta).
Abbreviation base := (q ++ [nul]).
Definition up (e : bytes * bytes) : bytes * bytes := (base ++ e.1, e.2).
Abbreviation all := (pre ++ (up <$> ents)).
Context (Hpre : Forall (λ kv, bytes_lt kv.1 base) pre) (Hsorted : StronglySorted bytes_lt ents.*1).
Context (Hfetch : forall k v, (k, v) ∈ ents -> decode_object_meta k v = Ok (fetch k)).

Lemma up_ltb e t : bytes_ltb (up e).1 (base ++ t) = bytes_ltb e.1 t.
Proof. cbn. apply bytes_ltb_app. Qed.

Lemma drop_while_all {A} (p : A -> bool) a b : Forall (λ x, p x = true) a -> drop_while p (a ++ b) = drop_while p b.
Proof. induction 1 as [|x a Hx _ IH]; cbn; [done|]. by rewrite Hx. Qed.
Lemma drop_while_fmap {A B} (p : B -> bool) (f : A -> B) l : drop_while p (f <$> l) = f <$> drop_while (λ x, p (f x)) l.
Proof. induction l as [|x l IH]; cbn; [done|]. destruct (p (f x)); [apply IH|done]. Qed.
Lemma drop_while_ext {A} (p p' : A -> bool) l : (forall x, p x = p' x) -> drop_while p l = drop_while p' l.
Proof. intros E. induction l as [|x l IH]; cbn; [done|]. by rewrite E, IH. Qed.

(** A seek inside the bucket. *)
Lemma seek_up t : (it_seek (base ++ t) all).2 = up <$> drop_while (λ e, bytes_ltb e.1 t) ents.
Proof.
  unfold it_seek. rewrite seek_from_drop, drop_while_all.
  - rewrite drop_while_fmap. f_equal. apply drop_while_ext. intros e. apply up_ltb.
  - eapply list.Forall_impl; [exact Hpre|]. cbn. intros kv Hlt. change (bytes_lt kv.1 (base ++ t)). eapply bytes_lt_le_trans; [exact Hlt|].
    apply prefix_le. by exists t.
Qed.

(** The seek behind a group. *)
Lemma seek_group e1 e run e2 g target :
  ents = e1 ++ (e :: run) ++ e2 -> g `prefix_of` e.1 -> Forall (λ x, starts_with g x.1 = true) run ->
  (forall k, head e2.*1 = Some k -> starts_with g k = false) -> bump_last_byte (base ++ g) = Some target ->
  (it_seek target all).2 = up <$> e2 /\ (it_seek target all).1 = reverse (pre ++ (up <$> e1 ++ e :: run)).
Proof.
  intros E He Hrun Hh Hb.
  assert (all = (pre ++ (up <$> e1 ++ e :: run)) ++ (up <$> e2)) as Eall by (rewrite E, app_assoc, !fmap_app; by rewrite <- !app_assoc).
  rewrite E, !fmap_app in Hsorted. pose proof (proj1 (StronglySorted_app _ _ _) Hsorted) as (H1 & _ & Hs2).
  pose proof (proj1 (StronglySorted_app _ _ _) Hs2) as (H2 & _ & Hs3).
  assert (forall x, x ∈ e :: run -> bytes_lt (up x).1 target) as Hgrp.
  { intros x Hx. apply (bump_some _ _ _ Hb). cbn. apply prefix_app.
    apply elem_of_cons in Hx as [->|Hx]; [done|]. rewrite list.Forall_forall in Hrun. by apply starts_with_prefix, Hrun. }
  assert (forall x, x ∈ e2 -> bytes_lt e.1 x.1) as He2.
  { intros x Hx. apply H2; [|by apply (list_elem_of_fmap_2 fst)]. cbn. left. }
  assert ((it_seek target all).2 = up <$> e2) as Hsecond.
  { unfold it_seek. rewrite seek_from_drop, Eall. apply drop_while_app.
    - apply list.Forall_app. split.
      + eapply list.Forall_impl; [exact Hpre|]. intros kv Hlt. cbn. change (bytes_lt kv.1 target). trans base; [done|].
        eapply bytes_le_lt_trans; [|by apply (bump_some _ _ (base ++ g) Hb)]. apply prefix_le. by exists g.
      + apply list.Forall_fmap, list.Forall_forall. intros x [Hx|Hx]%elem_of_app; [|by apply Hgrp]. cbn. change (bytes_lt (up x).1 target).
        trans (up e).1; [|by apply Hgrp; left]. unfold bytes_lt. cbn [up fst]. rewrite bytes_ltb_app. apply H1; [by apply (list_elem_of_fmap_2 fst)|].
        cbn. left.
    - apply list.Forall_fmap, list.Forall_forall. intros x Hx. cbn. change (bytes_le target (up x).1).
      apply (bump_some _ _ _ Hb).
      + unfold bytes_lt. cbn. rewrite bytes_ltb_app. change (bytes_lt g x.1). eapply bytes_le_lt_trans; [by apply prefix_le|by apply He2].
      + intros Hp. cbn in Hp. apply prefix_app_inv in Hp. destruct e2 as [|h e2]; [by apply not_elem_of_nil in Hx|].
        specialize (Hh h.1 eq_refl). apply starts_with_false in Hh. apply Hh. apply elem_of_cons in Hx as [->|Hx]; [done|].
        apply (prefix_between g e.1 h.1 x.1); [done|done| |]; apply bytes_le_lt_eq; left; [apply He2; left|].
        apply StronglySorted_inv in Hs3 as [_ Hs3]. rewrite list.Forall_forall in Hs3. apply Hs3. by apply (list_elem_of_fmap_2 fst). }
  split; [done|]. pose proof (seek_all target all) as Hall. rewrite Hsecond, Eall in Hall at 1. apply app_inv_tail in Hall.
  by rewrite Hall, reverse_involutive.
Qed.

Lemma bump_base g : exists target, bump_last_byte (base ++ g) = Some target.
Proof.
  destruct (bump_last_byte (base ++ g)) as [t|] eqn:E; [by exists t|]. exfalso.
  apply fmap_None, bump_rev_None in E. rewrite list.Forall_forall in E. specialize (E nul). assert (bz nul = 255%Z) as H255; [|done].
  apply E. apply elem_of_reverse, elem_of_app. left. apply elem_of_app. right. left.
Qed.

Lemma walk fuel f e1 e2 count last last' out :
  ents = e1 ++ e2 -> length e2 < fuel -> length e2 <= f -> (e2 = [] \/ last = last') ->
  list_loop opt base all fuel (reverse (pre ++ (up <$> e1)), up <$> e2) count last out = Ok (listing_loop opt fetch f e2.*1 count last' out).
Proof.
  revert f e1 e2 count last last' out. induction fuel as [|fuel IH]; intros f e1 e2 count last last' out E Hf Hf' Hl; [lia|].
  destruct e2 as [|[k v] e2]; [by destruct f|]. destruct f as [|f]; [cbn in Hf'; lia|]. destruct Hl as [?|<-]; [done|].
  cbn [list_loop listing_loop fmap list_fmap fst snd]. change (up (k, v)) with (base ++ k, v) at 1. cbn [fst snd].
  rewrite drop_app_length. destruct (negb _); [done|]. destruct (max_keys opt <=? count)%Z; [done|].
  destruct (group_of (lo_prefix opt) (lo_delimiter opt) k) as [g|] eqn:Eg.
  - destruct (bump_base g) as [target Ht]. rewrite Ht. destruct (skip_group g k e2.*1) as [lst rest'] eqn:Es.
    pose proof (skip_group_spec g k e2.*1 lst rest' Es) as (mid & Emid & Hmid & Hlast & Hhead).
    apply fmap_app_inv in Emid as (run & e3 & -> & -> & ->).
    assert (g `prefix_of` k) as Hgk by (by destruct (group_of_spec _ _ _ _ Eg)).
    destruct (seek_group e1 (k, v) run e3 g target) as [S2 S1]; [by rewrite E|done|by apply list.Forall_fmap in Hmid|done|done|].
    assert (it_seek target all = (reverse (pre ++ (up <$> e1 ++ (k, v) :: run)), up <$> e3)) as -> by (rewrite <- S1, <- S2; apply surjective_pairing).
    cbn [length] in Hf, Hf'. rewrite length_app in Hf, Hf'. apply IH; [rewrite E; by rewrite <- app_assoc|lia|lia|].
    destruct e3 as [|h e3]; [by left|right]. unfold group_tail. cbn [snd fmap list_fmap].
    assert (exists kv t, reverse (pre ++ (up <$> e1 ++ (k, v) :: run)) = up kv :: t /\ kv.1 = lst) as (kv & t & -> & Hkv).
    { change (k :: run.*1) with (((k, v) :: run).*1) in Hlast. rewrite fmap_last in Hlast. apply fmap_Some in Hlast as (kv & Hkv & ->).
      apply last_Some in Hkv as [l' El]. rewrite El, app_assoc, fmap_app, app_assoc, reverse_app. cbn. by eexists kv, _. }
    cbn [it_prev snd up]. by rewrite drop_app_length.
  - rewrite (Hfetch k v) by (rewrite E; apply elem_of_app; right; left). cbn [mbind res_bind].
    cbn [length] in Hf, Hf'. cbn [it_next]. specialize (IH f (e1 ++ [(k, v)]) e2 (count + 1)%Z k k (push_object (fetch k) out)).
    rewrite fmap_app, app_assoc, reverse_app in IH. apply IH; [by rewrite <- app_assoc|lia|lia|by right].
Qed.
End walk.

(** * The entries of a bucket *)
Definition bucket_entries (O : table) (b : bytes) : list (bytes * bytes) :=
  (λ kv, (drop (length (b ++ [nul])) kv.1, kv.2)) <$> List.filter (λ kv, starts_with (b ++ [nul]) kv.1) (map_items bytes_le O).
Definition bucket_keys (O : table) (b : bytes) : list bytes := (bucket_entries O b).*1.

Lemma bucket_entries_elem (O : table) (b k v : bytes) : (k, v) ∈ bucket_entries O b <-> O !! ((b ++ [nul]) ++ k) = Some v.
Proof.
  unfold bucket_entries. rewrite list_elem_of_fmap. setoid_rewrite list_elem_of_In. setoid_rewrite List.filter_In. setoid_rewrite <- list_elem_of_In. split.
  - intros ([k' v'] & E & Hin%map_items_elem & Hp). cbn in E, Hp. injection E as -> ->. apply starts_with_prefix in Hp as [z ->].
    by rewrite drop_app_length.
  - intros Hk. exists ((b ++ [nul]) ++ k, v). cbn. rewrite drop_app_length. split_and!; [done|by apply map_items_elem|].
    apply starts_with_prefix. by exists k.
Qed.

Section split.
Context (b : bytes).
Abbreviation base := (b ++ [nul]).
Abbreviation srt := (StronglySorted (λ x y, bytes_le x y /\ x <> y)).

Lemma filter_keeps_none {A} (p : A -> bool) l : (forall x, x ∈ l -> p x = false) -> List.filter p l = [].
Proof. induction l as [|x l IH]; intros Hp; [done|]. cbn. rewrite (Hp x) by left. apply IH. intros; apply Hp; by right. Qed.

(** The bound of the iterator cuts the table behind the bucket. *)
Lemma bound_split (l : list (bytes * bytes)) :
  srt l.*1 ->
  List.filter (λ kv, bytes_ltb kv.1 (b ++ [Byte.x01])) l =
  List.filter (λ kv, bytes_ltb kv.1 base) l ++ List.filter (λ kv, starts_with base kv.1) l.
Proof.
  assert (forall k, bytes_ltb k (b ++ [Byte.x01]) = bytes_ltb k base || starts_with base k) as Hk.
  { intros k. pose proof (bump_range b k) as Hr. cbv zeta in Hr.
    rewrite bump_nul in Hr. cbn [default from_option] in Hr. assert (bytes_lt base (b ++ [Byte.x01])) as Hb by (unfold bytes_lt; by rewrite bytes_ltb_app).
    destruct (bytes_ltb k base) eqn:E1; cbn.
    - change (bytes_lt k (b ++ [Byte.x01])). by trans base.
    - destruct (starts_with base k) eqn:E2.
      + apply starts_with_prefix, Hr in E2. apply E2.
      + apply starts_with_false in E2. destruct (bytes_ltb k (b ++ [Byte.x01])) eqn:E3; [|done]. exfalso. apply E2, Hr. done. }
  induction l as [|[k v] l IH]; intros Hs; [done|]. apply StronglySorted_inv in Hs as [Hs Hall]. cbn [List.filter fst]. rewrite Hk, IH by done.
  rewrite list.Forall_forall in Hall. destruct (bytes_ltb k base) eqn:E1; cbn [orb].
  - assert (starts_with base k = false) as ->; [|done]. apply starts_with_false. intros Hp%prefix_le. by apply bytes_lt_not_le in Hp.
  - destruct (starts_with base k); [|done]. rewrite (filter_keeps_none (λ kv, bytes_ltb kv.1 base) l); [done|].
    intros kv Hin. destruct (Hall kv.1 ltac:(by apply (list_elem_of_fmap_2 fst))) as [Hle _]. change (bytes_le base kv.1). by trans k.
Qed.

Lemma filter_sorted (p : bytes * bytes -> bool) l : srt l.*1 -> srt (List.filter p l).*1.
Proof.
  induction l as [|kv l IH]; intros Hs; [done|]. apply StronglySorted_inv in Hs as [Hs Hall]. cbn. destruct (p kv); [|by apply IH]. cbn.
  constructor; [by apply IH|]. rewrite list.Forall_forall in *. intros k (kv' & -> & Hin)%list_elem_of_fmap. apply Hall.
  apply (list_elem_of_fmap_2 fst). apply list_elem_of_In, List.filter_In in Hin as [Hin _]. by apply list_elem_of_In.
Qed.
Lemma srt_strict l : srt l -> StronglySorted bytes_lt l.
Proof.
  induction 1 as [|x l Hs IH Hall]; constructor; [done|]. eapply list.Forall_impl; [exact Hall|]. intros y [Hle Hne].
  apply bytes_le_lt_eq in Hle as [|]; done.
Qed.
End split.

Lemma bucket_entries_up (O : table) (b : bytes) :
  up b <$> bucket_entries O b = List.filter (λ kv, starts_with (b ++ [nul]) kv.1) (map_items bytes_le O).
Proof.
  unfold bucket_entries. rewrite <- list_fmap_compose. transitivity (id <$> List.filter (λ kv, starts_with (b ++ [nul]) kv.1) (map_items bytes_le O)).
  - apply list_fmap_ext. intros i [k v] Hi. apply list_elem_of_lookup_2, list_elem_of_In, List.filter_In in Hi as [_ Hp]. cbn in *.
    apply starts_with_prefix in Hp as [z ->]. unfold up. cbn. by rewrite drop_app_length.
  - apply list_fmap_id.
Qed.

Lemma bucket_keys_sorted (O : table) (b : bytes) : StronglySorted bytes_lt (bucket_keys O b).
Proof.
  pose proof (filter_sorted (λ kv, starts_with (b ++ [nul]) kv.1) _ (map_items_sorted bytes_le O)) as Hs. rewrite <- bucket_entries_up in Hs.
  apply srt_strict in Hs. unfold bucket_keys. revert Hs. generalize (bucket_entries O b) as l. induction l as [|e l IH]; intros Hs; [constructor|].
  apply StronglySorted_inv in Hs as [Hs Hall]. cbn. constructor; [by apply IH|]. rewrite list.Forall_forall in *.
  intros k (e' & -> & Hin)%list_elem_of_fmap. specialize (Hall (up b e').1 ltac:(by apply (list_elem_of_fmap_2 fst), list_elem_of_fmap_2)).
  unfold bytes_lt in *. cbn in Hall. by rewrite bytes_ltb_app in Hall.
Qed.

(** ** Where the iterator starts *)
Lemma start_position opt b (pre ents : list (bytes * bytes)) :
  Forall (λ kv, bytes_lt kv.1 (b ++ [nul])) pre -> StronglySorted bytes_lt ents.*1 ->
  let all := pre ++ (up b <$> ents) in
  let it := it_seek ((b ++ [nul]) ++ bytes_max (lo_prefix opt) (start_after opt)) all in
  exists e1 e2, ents = e1 ++ e2 /\ e2.*1 = Listing.selected opt ents.*1 /\
    match it.2 with
    | (k, _) :: _ => if negb (empty_string (start_after opt)) && bool_decide (k = (b ++ [nul]) ++ start_after opt) then it_next it else it
    | [] => it
    end = (reverse (pre ++ (up b <$> e1)), up b <$> e2).
Proof.
  intros Hpre Hs all it. set (t := bytes_max (lo_prefix opt) (start_after opt)) in *.
  destruct (drop_while_suffix (λ e, bytes_ltb e.1 t) ents) as (e1 & E & _). set (e2 := drop_while (λ e, bytes_ltb e.1 t) ents) in *.
  assert (it.2 = up b <$> e2) as Hit2 by (by apply seek_up).
  assert (it = (reverse (pre ++ (up b <$> e1)), up b <$> e2)) as Hit.
  { pose proof (seek_all ((b ++ [nul]) ++ t) all) as Hall. fold it in Hall. rewrite Hit2 in Hall. unfold all in Hall. rewrite E, fmap_app, app_assoc in Hall.
    apply app_inv_tail in Hall. rewrite (surjective_pairing it), Hit2, Hall, reverse_involutive. done. }
  assert (e2.*1 = lower_bound ents.*1 t) as Elow by (unfold e2, lower_bound; symmetry; apply (drop_while_fmap (λ k, bytes_ltb k t) fst)).
  destruct (lower_bound_spec ents.*1 t Hs) as [Hs2 Hlow]. rewrite <- Elow in Hs2, Hlow. destruct (selected_spec opt ents.*1 Hs) as [Hs3 Hsel].
  assert (forall k, bytes_le t k <-> bytes_le (lo_prefix opt) k /\ bytes_le (start_after opt) k) as Hmax.
  { intros k. unfold t, bytes_max. destruct (bytes_ltb (lo_prefix opt) (start_after opt)) eqn:Elt.
    - split; [|by intros []]. intros Hk. split; [|done]. trans (start_after opt); [|done]. apply bytes_le_lt_eq. by left.
    - split; [|by intros []]. intros Hk. split; [done|]. by trans (lo_prefix opt). }
  rewrite Hit. cbn [snd].
  assert (start_after opt <> [] -> start_after opt ∉ e2.*1 -> e2.*1 = Listing.selected opt ents.*1) as Hdone.
  { intros Hne Hnin. apply sorted_ext; [done|done|]. intros k. rewrite Hsel. split.
    - intros Hin. pose proof (proj1 (Hlow k) Hin) as [Hk [Hp Hsa]%Hmax]. split_and!; [done|done|right]. apply bytes_le_lt_eq in Hsa as [|<-]; done.
    - intros (Hk & Hp & [?|Hsa]); [done|]. apply Hlow. split; [done|]. apply Hmax. split; [done|]. apply bytes_le_lt_eq. by left. }
  destruct (empty_string (start_after opt)) eqn:Esa; cbn [negb andb].
  - apply bool_decide_eq_true in Esa. exists e1, e2. split_and!; [done| |by destruct e2].
    apply sorted_ext; [done|done|]. intros k. rewrite Hsel, Hlow, Hmax, Esa. pose proof (bytes_le_nil k). naive_solver.
  - apply bool_decide_eq_false in Esa. destruct e2 as [|[k v] e2]; cbn [fmap list_fmap].
    + exists e1, []. split_and!; [done|apply Hdone; [done|apply not_elem_of_nil]|done].
    + change (up b (k, v)) with ((b ++ [nul]) ++ k, v) at 1. cbn [fst snd]. apply StronglySorted_inv in Hs2 as [Hs2 Hall]. rewrite list.Forall_forall in Hall.
      case_bool_decide as Hk; [apply app_inv_head in Hk as ->|].
      * exists (e1 ++ [(start_after opt, v)]), e2. split_and!; [by rewrite <- app_assoc| |].
        -- apply sorted_ext; [done|done|]. intros k. rewrite Hsel. split.
           ++ intros Hin. specialize (Hall k Hin). pose proof (proj1 (Hlow k) ltac:(cbn; by right)) as [Hk [Hp _]%Hmax]. auto.
           ++ intros (Hk & Hp & [?|Hsa]); [done|]. assert (k ∈ ((start_after opt, v) :: e2).*1) as Hin.
              { apply Hlow. split; [done|]. apply Hmax. split; [done|]. apply bytes_le_lt_eq. by left. }
              cbn in Hin. apply elem_of_cons in Hin as [->|]; [|done]. by destruct (irreflexivity bytes_lt (start_after opt)).
        -- cbn [it_next]. rewrite fmap_app, (app_assoc pre), (reverse_app (pre ++ (up b <$> e1))). reflexivity.
      * exists e1, ((k, v) :: e2). split_and!; [done| |done]. apply Hdone; [done|]. cbn. intros [E0|Hin]%elem_of_cons; [by apply Hk; rewrite E0|].
        specialize (Hall _ Hin). pose proof (proj1 (Hlow k) ltac:(cbn; left)) as [_ [_ Hsa]%Hmax]. by apply bytes_lt_not_le in Hall.
Qed.
