(* ===== verification/RocksReads.v ===== *)
(** Reading the RocksDB engine back: over an engine whose calls do not fail, what reads
    return after writes, what listings return, and what the pack statistics say. *)

From S2P Require Import Prelude Bytes Backend Listing Multipart Codec CodecProofs CodecKeys MetaUtil.
From S2P Require Import RocksDb RocksMeta RocksLedger RocksProofs RocksInv RocksOps RocksParts RocksSteps RocksTheorems RocksListing.
From Stdlib Require Import ZArith Lia.
From stdpp Require Import base list gmap sets strings sorting relations.
Open Scope lights3_scope.

Create HintDb opened discriminated.

Section opened.
Context {DB : Type} {rocks : RocksDB DB} {law : RocksLaw DB}.
Context (md5_hex sha1 sha256 sha256_hex : bytes -> bytes).
Abbreviation M := (ST (Meta DB) S3ErrorCode).
Implicit Types (s : Meta DB).

(** * No operation closes the store *)
Definition opens {A} (m : M A) : Prop := forall s o s', m s = (o, s') -> is_Some (handle s) -> is_Some (handle s').

Lemma opens_pure {A} (m : M A) : (forall s, (m s).2 = s) -> opens m.
Proof. intros Hm s o s' E. specialize (Hm s). rewrite E in Hm. cbn in Hm. by subst. Qed.
Lemma opens_ret {A} (a : A) : opens (mret a : M A).
Proof. by apply opens_pure. Qed.
Lemma opens_lift {A} (r : result A) : opens (lift r : M A).
Proof. by apply opens_pure. Qed.
Lemma opens_throw {A} e : opens (throw e : M A).
Proof. by apply opens_pure. Qed.
Lemma opens_get : opens (get_st : M _).
Proof. by apply opens_pure. Qed.
Lemma opens_get_raw c k : opens (get_raw c k).
Proof. by intros s o s' [-> _]%get_raw_run. Qed.
Lemma opens_items c : opens (items c).
Proof. by intros s o s' [-> _]%items_run. Qed.
Lemma opens_range c r : opens (modify (set_range c r) : M unit).
Proof. intros s o s' [_ ->]%modify_run. by destruct c. Qed.
Lemma opens_bind {A B} (m : M A) (f : A -> M B) : opens m -> (forall a, opens (f a)) -> opens (m ≫= f).
Proof. intros Hm Hf s o s' [(a & s1 & H1 & H2)|(e & H1 & ->)]%ST_bind_run Hs; [by eapply Hf, Hm|by eapply Hm]. Qed.
Lemma opens_write sync ops : opens (write sync ops).
Proof.
  intros s o s'. unfold write. intros [(d & s1 & [-> Ed]%db_run & E)|(e & [-> _]%db_run & ->)]%ST_bind_run; [|done].
  unfold status in E. destruct (db_write sync ops d); [rewrite ST_ret_bind in E; injection E as <- <-; by eexists|].
  rewrite ST_bind_eq in E. by injection E as <- <-.
Qed.
Lemma opens_commit ops : opens (commit ops).
Proof. unfold commit. intros s o s'. rewrite ST_get_bind. apply opens_write. Qed.
Lemma opens_option {A B} (m : option A) (f : A -> M B) (g : M B) :
  (forall a, opens (f a)) -> opens g -> opens (match m with Some a => f a | None => g end).
Proof. by destruct m. Qed.
Lemma opens_if {B} (b : bool) (f g : M B) : opens f -> opens g -> opens (if b then f else g).
Proof. by destruct b. Qed.
Hint Resolve opens_ret opens_lift opens_throw opens_get opens_get_raw opens_items opens_range opens_bind opens_write opens_commit
  opens_option opens_if : opened.

Lemma opens_alloc c n : opens (alloc_id c n).
Proof. unfold alloc_id, reserve_segment. auto 12 with opened. Qed.
Hint Resolve opens_alloc : opened.
Lemma opens_enqueue fuel now reason es : opens (enqueue_loop fuel now reason es).
Proof. revert es. induction fuel as [|fuel IH]; intros [|x es]; cbn [enqueue_loop]; auto 8 with opened. Qed.
Hint Resolve opens_enqueue : opened.
Lemma opens_drop now es reason ov : opens (drop_data now es reason ov).
Proof. unfold drop_data, enqueue_reclaim_locked. auto 8 with opened. Qed.
Hint Resolve opens_drop : opened.
Lemma opens_run_all {A} (f : A -> M (list BatchOp)) l : (forall x, opens (f x)) -> opens (run_all f l).
Proof. intros Hf. induction l as [|x l IH]; cbn [run_all]; auto 8 with opened. Qed.
Lemma opens_bucket b : opens (require_bucket_locked b).
Proof. unfold require_bucket_locked. auto with opened. Qed.
Lemma opens_upload b k id : opens (require_upload b k id).
Proof. unfold require_upload. auto 8 with opened. Qed.
Lemma opens_scan b k id : opens (scan_parts b k id).
Proof. unfold scan_parts. auto 8 with opened. Qed.
Lemma opens_old now old ov : opens (drop_old now old ov).
Proof. unfold drop_old. auto with opened. Qed.
Lemma opens_drop_parts (b k id : bytes) now ps : opens (drop_parts b k id now ps).
Proof. rewrite drop_parts_all. apply opens_run_all. auto with opened. Qed.
Lemma opens_complete_parts (b k id okey : bytes) now sel l : opens (complete_parts b k id okey now sel l).
Proof. rewrite complete_parts_all. apply opens_run_all. intros [no p]. unfold complete_part. auto 8 with opened. Qed.
Lemma opens_stage_swap b k expect from to : opens (stage_swap_locked b k expect from to).
Proof. unfold stage_swap_locked. auto 12 with opened. Qed.
Hint Resolve opens_bucket opens_upload opens_scan opens_old opens_drop_parts opens_complete_parts opens_stage_swap : opened.
Lemma opens_stage_swaps reqs : opens (stage_swaps reqs).
Proof. induction reqs as [|r reqs IH]; cbn [stage_swaps]; auto 8 with opened. Qed.
Lemma opens_kv_stage puts : opens (kv_stage sha256_hex puts).
Proof. induction puts as [|p puts IH]; cbn [kv_stage]; auto 8 with opened. Qed.
Lemma opens_seal_known k size : opens (seal_known k size).
Proof. unfold seal_known. auto with opened. Qed.
Hint Resolve opens_stage_swaps opens_kv_stage opens_seal_known : opened.

Ltac opening := repeat first [solve [auto 3 with opened]|apply opens_bind; [|intros ?]|apply opens_if|apply opens_option; [intros ?|]].

Lemma run_op_opens op : opens (run_op md5_hex sha1 sha256 sha256_hex op).
Proof.
  destruct op; cbn [run_op]; unfold void, create_bucket, delete_bucket, put_object, delete_object, create_upload, put_part, complete_upload,
    abort_upload, swap_extents, swap_extents_batch, ack_reclaims, seal_pack, drop_pack_stat, kv_put_batch, kv_delete; cbv zeta; opening.
Qed.

Lemma void_run {A} (m : M A) s o s' : m s = (o, s') -> exists o', void m s = (o', s').
Proof. intros E. unfold void. rewrite ST_bind_eq, E. by destruct o; eexists. Qed.

Lemma step_open x y : meta_step md5_hex sha1 sha256 sha256_hex x y -> is_Some (handle (meta x)) -> is_Some (handle (meta y)).
Proof.
  assert (forall op s o s', run_op md5_hex sha1 sha256 sha256_hex op s = (o, s') -> is_Some (handle s) -> is_Some (handle s')) as Hop by apply run_op_opens.
  assert (forall op s s', (exists o, run_op md5_hex sha1 sha256 sha256_hex op s = (o, s')) -> is_Some (handle s) -> is_Some (handle s')) as Hop' by (intros op s s' [o E]; by eapply Hop).
  destruct 1; cbn [meta]; try done.
  - apply (Hop' (OpPutObject b k rec cond now)). by eexists.
  - apply (Hop' (OpDeleteObject b k now)). by eapply void_run.
  - apply (Hop' (OpCreateUpload b k m id now)). by eapply void_run.
  - apply (Hop' (OpPutPart b k id p now)). by eexists.
  - apply (Hop' (OpComplete b k id parts now tp)). by eapply void_run.
  - apply (Hop' (OpAbort b k id now)). by eexists.
  - apply (Hop' (OpSwap b k expect from to)). by eapply void_run.
  - apply (Hop' (OpSwapBatch reqs)). by eapply void_run.
  - unfold alloc_file_run in *. eapply opens_alloc. by eassumption.
  - apply (Hop' (OpAck l)). by eexists.
  - apply (Hop' (OpSeal p size)). by eexists.
  - apply (Hop' (OpDropStat p)). by eexists.
  - apply (Hop' (OpCreateBucket b now)). by eexists.
  - apply (Hop' (OpDeleteBucket b)). by eexists.
  - apply (Hop' (OpKvPut puts)). by eapply void_run.
  - apply (Hop' (OpKvDelete key)). by eapply void_run.
Qed.

Lemma reachable_open x : reachable md5_hex sha1 sha256 sha256_hex x -> is_Some (handle (meta x)).
Proof.
  intros (sync & d & _ & Hr). assert (is_Some (handle (meta (start sync d)))) as Hs by (by eexists).
  induction Hr as [|x y z Hxy _ IH]; [done|]. apply IH. by eapply step_open.
Qed.
End opened.

Section reads.
Context {DB : Type} {rocks : RocksDB DB} {law : RocksLaw DB} {reliable : RocksReliable DB}.
Context (md5_hex sha1 sha256 sha256_hex : bytes -> bytes).
Abbreviation M := (ST (Meta DB) S3ErrorCode).
Abbreviation reach := (reachable md5_hex sha1 sha256 sha256_hex).
Implicit Types (s : Meta DB) (x y : Sys (DB := DB)).

Lemma get_raw_ok c k s : is_Some (handle s) -> get_raw c k s = (Ok (tab s c !! k), s).
Proof.
  intros [d Hd]. unfold get_raw, db. rewrite ST_bind_eq, Hd. destruct (get_reliable d c k) as [v Hv]. rewrite Hv. cbn.
  unfold tab. by rewrite Hd, (get_law d c k v Hv).
Qed.
Lemma items_ok c s : is_Some (handle s) -> items c s = (Ok (map_items bytes_le (tab s c)), s).
Proof.
  intros [d Hd]. unfold items, db. rewrite ST_bind_eq, Hd. destruct (items_reliable d c) as [l Hl]. rewrite Hl. cbn.
  unfold tab. by rewrite Hd, (items_law d c l Hl).
Qed.
Lemma get_object_ok b k okey s :
  is_Some (handle s) -> object_key b k = Ok okey -> get_object b k s = (opt_decode (decode_object k) (tab s kObjects !! okey), s).
Proof. intros Hs Hk. unfold get_object. rewrite Hk, ST_bind_eq. cbn [lift]. by rewrite ST_bind_eq, get_raw_ok. Qed.
Lemma head_object_ok b k okey s :
  is_Some (handle s) -> object_key b k = Ok okey -> head_object b k s = (opt_decode (decode_object_meta k) (tab s kObjects !! okey), s).
Proof. intros Hs Hk. unfold head_object. rewrite Hk, ST_bind_eq. cbn [lift]. by rewrite ST_bind_eq, get_raw_ok. Qed.

Lemma get_object_same b k s s' :
  is_Some (handle s) -> is_Some (handle s') -> (forall okey, object_key b k = Ok okey -> tab s' kObjects !! okey = tab s kObjects !! okey) ->
  (get_object b k s').1 = (get_object b k s).1.
Proof.
  intros Hs Hs' He. destruct (object_key b k) as [okey|e] eqn:Ek.
  - rewrite !(get_object_ok b k okey) by done. cbn. by rewrite He.
  - unfold get_object. rewrite Ek, !ST_bind_eq. done.
Qed.

(** The records of a committed batch. *)
Lemma committed_tab s s' front refs es db dr c :
  committed s s' front refs es db dr -> c <> kGcq -> c <> kRefs -> c <> kStats -> tab s' c = apply_ops (on_cf c front) (tab s c).
Proof.
  intros (s1 & ops & E & [O1 _ _] & _ & [Ht _] & [_ _ _ A4] & _) H1 H2 H3. by rewrite Ht, on_cf_app, A4, app_nil_r, O1.
Qed.

Lemma object_key_other b k b' k' okey : object_key b k = Ok okey -> (b', k') <> (b, k) -> forall okey', object_key b' k' = Ok okey' -> okey' <> okey.
Proof.
  intros (N1 & N2 & E1)%object_key_Ok Hne okey' (N3 & N4 & E2)%object_key_Ok ->. rewrite E1 in E2.
  apply cut_nul in E2 as [-> ->]; done.
Qed.

(** What is put is read back: in every reachable state, after a successful PUT of a
    record a GET of the key returns that record with the next version number, a HEAD its
    metadata, every other object reads as before, and the condition of the request held
    of the object that the GET before would have returned. *)
Theorem meta_put_then_get x (Hx : reach x) (b k : bytes) (rec : ObjectRec) (cond : PutCondition) (now : Z) s'
    (Ham : ample (meta x)) (Hnow : is_i64 now) (Hok : object_rec_ok rec) (Hw : ref_ids (or_data rec) ⊆ writers x)
    (E : put_object b k rec cond now (meta x) = (Ok tt, s')) :
  exists old, get_object b k (meta x) = (Ok old, meta x) /\ check_put_condition cond old = Ok tt /\
    let stored := persisted_object k (set_version (next_version old) rec) in
    get_object b k s' = (Ok (Some stored), s') /\ head_object b k s' = (Ok (Some (or_meta stored)), s') /\
    forall b' k', (b', k') <> (b, k) -> (get_object b' k' s').1 = (get_object b' k' (meta x)).1.
Proof.
  pose proof (reachable_open _ _ _ _ x Hx) as Ho. assert (is_Some (handle s')) as Ho'.
  { by apply (run_op_opens md5_hex sha1 sha256 sha256_hex (OpPutObject b k rec cond now) _ _ _ E). }
  apply reach_inv in Hx. destruct (put_object_run _ _ _ _ _ _ _ _ _ _ Hx Ham Hnow (proj1 (proj2 (proj2 (proj2 (proj2 (proj2 Hok))))) : wf_data _) E)
    as [[_ [e [=]]]|(_ & okey & old & enc & Hk & _ & Hold & Hc & Henc & Hcom)]. cbv zeta in Hcom.
  apply (committed_tab _ _ _ _ _ _ _ kObjects) in Hcom as Ht; [|done..]. cbn [on_cf base.filter list_filter op_cf] in Ht.
  rewrite decide_True in Ht by done. cbn [apply_ops fold_left apply_op] in Ht.
  pose proof (object_roundtrip k enc _ (set_version_ok _ _ (next_version_u64 old) Hok) Henc) as Hdec.
  exists old. split_and!; [by rewrite (get_object_ok b k okey), Hold|done|..]. cbv zeta. split_and!.
  - rewrite (get_object_ok b k okey), Ht, lookup_insert_eq by done. cbn [opt_decode]. by rewrite Hdec.
  - rewrite (head_object_ok b k okey), Ht, lookup_insert_eq by done. cbn [opt_decode]. by rewrite (decode_meta_skips _ _ _ Hdec).
  - intros b' k' Hne. apply get_object_same; [done|done|]. intros okey' Hk'. rewrite Ht, lookup_insert_ne; [done|].
    apply not_eq_sym. by apply (object_key_other b k b' k' okey).
Qed.

(** * Listing *)
Definition fetch_meta (O : table) (b k : bytes) : ObjectMeta :=
  match O !! ((b ++ [nul]) ++ k) with
  | Some v => match decode_object_meta k v with Ok m => m | Throw _ => default_meta end
  | None => default_meta
  end.

(** C22: Listing by seeking is listing: in every reachable state, for every prefix,
    delimiter, start key and page size, the loop that jumps over whole groups with the
    iterator returns exactly the page that the shared pagination returns on the sorted
    keys of the bucket, with the metadata of the stored objects. *)
Theorem seek_listing_agrees x (Hx : reach x) (b : bytes) (opt : ListOptions) (Hb : is_Some (tab (meta x) kBuckets !! b)) :
  list_objects b opt (meta x) =
    (Ok (apply_listing opt (fetch_meta (tab (meta x) kObjects) b) (bucket_keys (tab (meta x) kObjects) b)), meta x).
Proof.
  pose proof (reachable_open _ _ _ _ x Hx) as Ho. apply reach_inv in Hx. set (O := tab (meta x) kObjects).
  unfold list_objects. rewrite ST_bind_eq, get_raw_ok, bool_decide_eq_true_2 by done. cbn [negb throw_if].
  rewrite ST_bind_eq. cbn [lift]. unfold apply_listing. destruct (max_keys opt <=? 0)%Z; [done|]. cbv zeta.
  rewrite ST_bind_eq, items_ok by done. unfold lift. f_equal. fold O.
  rewrite (bound_split b (map_items bytes_le O) (map_items_sorted bytes_le O)). rewrite <- bucket_entries_up.
  set (pre := List.filter (λ kv, bytes_ltb kv.1 (b ++ [nul])) (map_items bytes_le O)).
  assert (Forall (λ kv, bytes_lt kv.1 (b ++ [nul])) pre) as Hpre.
  { apply list.Forall_forall. intros kv Hin. by apply list_elem_of_In, List.filter_In in Hin as [_ ?]. }
  pose proof (bucket_keys_sorted O b) as Hs. unfold bucket_keys in *.
  destruct (start_position opt b pre (bucket_entries O b) Hpre Hs) as (e1 & e2 & Ee & Esel & Eit). cbv zeta in Eit. rewrite Eit.
  rewrite <- Esel. apply (walk opt b pre (bucket_entries O b) (fetch_meta O b) Hpre Hs).
  - intros k v Hk%bucket_entries_elem. unfold fetch_meta. rewrite Hk. destruct (mi_objects _ _ _ Hx _ v Hk) as [_ Hv].
    destruct (object_value_read v k Hv) as (r & Hr & _). by rewrite (decode_meta_skips _ _ _ Hr).
  - done.
  - rewrite length_app, length_fmap, Ee, length_app. lia.
  - by rewrite length_fmap.
  - by right.
Qed.
(** * Completion *)

(** C21: A completed upload is its parts: after a successful completion a GET of the key
    returns a record whose extents are those of the listed parts in order, with the
    version that follows the old object's; the upload is gone, and no part of it is left
    in the store. *)
Theorem complete_then_get x (Hx : reach x) (b k id : bytes) (parts : list PartInfo) (now : Z) (tp : time_point) (tag : bytes) s'
    (Ham : ample (meta x)) (Hnow : is_i64 now) (Htp : is_i64 (to_unix_ms tp)) (Hpo : validate_part_order parts = Ok tt)
    (Hfew : (upload_extents (tab (meta x) kParts) b k id < 2 ^ 32)%Z)
    (E : complete_upload md5_hex sha1 sha256 b k id parts now tp (meta x) = (Ok tag, s')) :
  exists old rec ps, get_object b k (meta x) = (Ok old, meta x) /\
    Forall2 (λ pi p, pi_part_no pi = pr_part_no p /\ is_u16 (pr_part_no p) /\
               exists v, tab (meta x) kParts !! part_at b k id (pr_part_no p) = Some v /\ pr_data p = data_of_part v) parts ps /\
    get_object b k s' = (Ok (Some rec), s') /\ or_data rec = concat (pr_data <$> ps) /\
    version rec = next_version old /\ etag (or_meta rec) = tag /\
    list_parts b k id s' = (Throw NoSuchUpload, s') /\
    (forall n pkey, is_u16 n -> part_key b k id n = Ok pkey -> tab s' kParts !! pkey = None).
Proof.
  pose proof (reachable_open _ _ _ _ x Hx) as Ho. assert (is_Some (handle s')) as Ho'.
  { destruct (void_run _ _ _ _ E) as [o' E']. by apply (run_op_opens md5_hex sha1 sha256 sha256_hex (OpComplete b k id parts now tp) _ _ _ E'). }
  apply reach_inv in Hx.
  destruct (complete_upload_run _ _ _ _ _ _ _ _ _ _ _ _ _ _ Hx Ham Hnow Htp Hpo Hfew E) as
    [[_ [e [=]]]|(okey & old & rec & enc & ukey & pfx & stored & ps & Hc)]. cbv zeta in Hc.
  destruct Hc as ([= ->] & _ & Hk & Hp & Huk & Hold & Henc & Hok & HL & HF & Hd & Hcom).
  pose proof (committed_tab _ _ _ _ _ _ _ kObjects Hcom ltac:(done) ltac:(done) ltac:(done)) as HO.
  pose proof (committed_tab _ _ _ _ _ _ _ kUploads Hcom ltac:(done) ltac:(done) ltac:(done)) as HU.
  pose proof (committed_tab _ _ _ _ _ _ _ kParts Hcom ltac:(done) ltac:(done) ltac:(done)) as HP. clear Hcom.
  revert HO HU HP. eval_batch. intros HO HU HP. pose proof (parts_range _ b k id pfx _ HL Hp) as Hrg. cbn [apply_op] in Hrg. rewrite Hrg in HP.
  pose proof (object_roundtrip k enc _ (set_version_ok _ _ (next_version_u64 old) Hok) Henc) as Hdec.
  exists old, (persisted_object k (set_version (next_version old) rec)), ps. split_and!; try done.
  - by rewrite (get_object_ok b k okey), Hold.
  - apply Forall2_fmap_l in HF. eapply Forall2_impl; [exact HF|]. intros pi p Hst. apply (map_items_elem Z.le) in Hst.
    destruct (up_stored _ _ _ _ _ HL _ p Hst) as (Hno & _ & _ & Hpn & v & Hv & Hdv). rewrite Hpn. split_and!; [done|done|]. by exists v.
  - rewrite (get_object_ok b k okey), HO, lookup_insert_eq by done. cbn [opt_decode]. by rewrite Hdec.
  - unfold list_parts, require_upload. rewrite ST_bind_eq. destruct (negb _); [done|]. rewrite Huk, ST_bind_eq. cbn [lift].
    by rewrite ST_bind_eq, get_raw_ok, HU, lookup_delete_eq.
  - intros n pkey Hn Hpk. destruct (tab s' kParts !! pkey) as [v|] eqn:Ev; [|done]. exfalso. rewrite HP in Ev.
    apply map_lookup_filter_Some in Ev as [Ev Hnin]. cbn in Hnin. apply Hnin.
    destruct (up_all _ _ _ _ _ HL pfx pkey Hp ltac:(by eexists)) as (no & p & Hin & ->).
    + apply part_key_Ok in Hpk as (_ & _ & _ & ->). apply parts_prefix_Ok in Hp as (_ & _ & _ & ->).
      exists [zb (Z.shiftr n 8); zb n]. by rewrite <- !app_assoc.
    + apply list_elem_of_fmap. exists (part_at b k id no, pr_data p). split; [done|]. apply list_elem_of_fmap. by exists (no, p).
Qed.
End reads.

(** * Runs on the engine in memory *)
Definition demo_written := put_object (bs "b") (bs "k") (demo_rec 1) no_cond 5 (meta demo3).
Lemma meta_put_then_get_witness :
  exists v, (get_object (bs "b") (bs "k") demo_written.2).1 = Ok (Some (persisted_object (bs "k") (set_version v (demo_rec 1)))).
Proof.
  destruct (meta_put_then_get hash hash hash hash demo3 demo3_reachable (bs "b") (bs "k") (demo_rec 1) no_cond 5 demo_written.2) as (old & H1 & _ & H2 & _).
  - vm_compute. reflexivity.
  - done.
  - by apply demo_rec_ok.
  - apply (bool_decide_unpack _). vm_compute. exact I.
  - fold demo_written. rewrite (surjective_pairing demo_written) at 1. f_equal.
  - exists (next_version old). by rewrite H2.
Defined.

Lemma seek_listing_agrees_witness :
  (list_objects (bs "b") (mkListOptions (bs "k") [] 10 []) (meta demo4)).1 =
    Ok (apply_listing (mkListOptions (bs "k") [] 10 []) (fetch_meta (tab (meta demo4) kObjects) (bs "b")) (bucket_keys (tab (meta demo4) kObjects) (bs "b"))).
Proof.
  by rewrite (seek_listing_agrees hash hash hash hash demo4 demo_reachable (bs "b") (mkListOptions (bs "k") [] 10 [])
    ltac:(apply (bool_decide_unpack _); vm_compute; exact I)).
Defined.

(** An upload of one part. *)
Definition demo_id : bytes := repeat (ch "a") 32.
Definition demo_part : PartRec := mkPartRec 3 4 (bs "e") 5 [Extent.mk Extent.kChunk 0 0 4 0] [] [].
Definition demo_up : Sys := mkSys (create_upload (bs "b") (bs "u") default_meta demo_id 5 (meta demo2)).2 (issued demo2) (writers demo2) (retired demo2).
Definition demo_parted : Sys :=
  let r := put_part (bs "b") (bs "u") demo_id demo_part 5 (meta demo_up) in
  mkSys r.2 (issued demo_up) (left_over r.1 (pr_data demo_part) (writers demo_up)) (retired demo_up).

Lemma demo_parted_reachable : reachable hash hash hash hash demo_parted.
Proof.
  destruct demo2_reachable as (sync & d & Hf & Hr). exists sync, d. split; [done|]. eapply rtc_r; [eapply rtc_r; [exact Hr|]|].
  - eapply (StCreateUpload hash hash hash hash (bs "b") (bs "u") default_meta demo_id 5); [done|constructor|apply surjective_pairing].
  - eapply (StPutPart hash hash hash hash (bs "b") (bs "u") demo_id demo_part 5); try done.
    + split_and!; try done. split; [|done]. by repeat constructor.
    + apply (bool_decide_unpack _). vm_compute. exact I.
Qed.

Definition demo_complete := complete_upload hash hash hash (bs "b") (bs "u") demo_id [mkPartInfo 3 (bs "e") [] []] 5 0 (meta demo_parted).
Definition demo_tag : bytes := match demo_complete.1 with Ok t => t | Throw _ => [] end.

Lemma complete_then_get_witness : list_parts (bs "b") (bs "u") demo_id demo_complete.2 = (Throw NoSuchUpload, demo_complete.2).
Proof.
  destruct (complete_then_get hash hash hash hash demo_parted demo_parted_reachable (bs "b") (bs "u") demo_id [mkPartInfo 3 (bs "e") [] []] 5 0
    demo_tag demo_complete.2) as (old & rec & ps & _ & _ & _ & _ & _ & _ & H & _); [..|exact H].
  - vm_compute. reflexivity.
  - done.
  - done.
  - done.
  - vm_compute. reflexivity.
  - fold demo_complete. rewrite (surjective_pairing demo_complete) at 1. f_equal.
Defined.
