(* ===== verification/RocksLinks.v ===== *)
(** Referential integrity of the RocksDB engine: every object and upload belongs to a
    bucket of the store, every part to an upload. *)

From S2P Require Import Prelude Bytes Backend Listing Multipart Codec CodecProofs CodecKeys MetaUtil.
From S2P Require Import RocksDb RocksMeta RocksLedger RocksProofs RocksInv RocksOps RocksParts RocksSteps RocksTheorems RocksReads.
From Stdlib Require Import ZArith Lia.
From stdpp Require Import base list gmap sets strings sorting relations.
Open Scope lights3_scope.

(** * Links between tables *)
Record linked (B O U P : table) : Prop := mkLinked {
  li_objects : forall k, is_Some (O !! k) -> exists b o, object_key b o = Ok k /\ is_Some (B !! b);
  li_uploads : forall k, is_Some (U !! k) -> exists b o id, upload_key b o id = Ok k /\ is_Some (B !! b);
  li_parts : forall k, is_Some (P !! k) ->
    exists b o id n uk, is_u16 n /\ part_key b o id n = Ok k /\ upload_key b o id = Ok uk /\ is_Some (U !! uk) }.

(** The test of an empty range: nothing starts with the prefix. *)
Lemma any_with_prefix_spec (pfx : bytes) (t : table) :
  any_with_prefix pfx (map_items bytes_le t) = true <-> exists k, is_Some (t !! k) /\ pfx `prefix_of` k.
Proof.
  unfold any_with_prefix, it_seek. destruct (seek_from_split [] pfx (map_items bytes_le t)) as (sk & _ & Hl & Hsk & Hhd).
  pose proof (map_items_sorted bytes_le t) as Hs. rewrite Hl, fmap_app in Hs. apply StronglySorted_app_1_r in Hs.
  revert Hl Hhd Hs. generalize (seek_from [] pfx (map_items bytes_le t)).2 as l. intros l Hl Hhd Hs. split.
  - destruct l as [|[k v] l]; [done|]. intros Hp%starts_with_prefix. exists k. split; [|done]. exists v. apply (map_items_elem bytes_le).
    rewrite Hl. apply elem_of_app. right. left.
  - intros (k & [v Hv%(map_items_elem bytes_le)] & Hp). rewrite Hl in Hv. apply elem_of_app in Hv as [Hv|Hv].
    { rewrite list.Forall_forall in Hsk. specialize (Hsk _ Hv). cbn in Hsk. apply bytes_lt_not_le in Hsk. by apply prefix_le in Hp. }
    destruct l as [|[k0 v0] l]; [by apply not_elem_of_nil in Hv|]. apply starts_with_prefix. specialize (Hhd (k0, v0) l eq_refl). cbn in Hhd.
    apply elem_of_cons in Hv as [[= <- <-]|Hv]; [done|]. cbn in Hs. apply StronglySorted_inv in Hs as [_ Hall]. rewrite list.Forall_forall in Hall.
    destruct (Hall k ltac:(apply list_elem_of_fmap; by exists (k, v))) as [Hle _]. by apply (prefix_between pfx pfx k0 k).
Qed.

Lemma object_key_bucket b o k : object_key b o = Ok k -> (b ++ [nul]) `prefix_of` k.
Proof. intros (_ & _ & ->)%object_key_Ok. exists o. by rewrite <- app_assoc. Qed.
Lemma upload_key_bucket b o id k : upload_key b o id = Ok k -> (b ++ [nul]) `prefix_of` k.
Proof. intros (_ & _ & _ & ->)%upload_key_Ok. exists (o ++ [nul] ++ id). by rewrite <- !app_assoc. Qed.

(** ** Changes of one table *)
Lemma linked_objects (B O O' U P : table) :
  linked B O U P -> (forall k, is_Some (O' !! k) -> is_Some (O !! k) \/ exists b o, object_key b o = Ok k /\ is_Some (B !! b)) -> linked B O' U P.
Proof. intros [L1 L2 L3] Ho. split; [|done|done]. intros k [Hk|?]%Ho; [by apply L1|done]. Qed.

Lemma linked_bucket (B O U P : table) (b v : bytes) : linked B O U P -> linked (<[b:=v]> B) O U P.
Proof.
  intros [L1 L2 L3]. split; [| |done].
  - intros k (b' & o & Hk & Hb)%L1. exists b', o. split; [done|]. destruct (decide (b = b')) as [->|]; [rewrite lookup_insert_eq; by eexists|by rewrite lookup_insert_ne].
  - intros k (b' & o & id & Hk & Hb)%L2. exists b', o, id. split; [done|]. destruct (decide (b = b')) as [->|]; [rewrite lookup_insert_eq; by eexists|by rewrite lookup_insert_ne].
Qed.
Lemma linked_upload (B O U P : table) (b o id uk v : bytes) : linked B O U P -> upload_key b o id = Ok uk -> is_Some (B !! b) -> linked B O (<[uk:=v]> U) P.
Proof.
  intros [L1 L2 L3] Huk Hb. split; [done| |].
  - intros k [<-|Hk]%lookup_insert_is_Some'; [by exists b, o, id|by apply L2].
  - intros k (b' & o' & id' & n & uk' & Hn & Hk & Hu & Hs)%L3. exists b', o', id', n, uk'. split_and!; try done.
    apply lookup_insert_is_Some'. by right.
Qed.

(** An upload leaves with its parts. *)
Lemma linked_leave (B O U P : table) (b k id uk : bytes) L :
  linked B O U P -> upload_key b k id = Ok uk -> upload_parts P b k id L ->
  linked B O (delete uk U) (without (part_data b k id L).*1 P).
Proof.
  intros [L1 L2 L3] Huk HL. split; [done| |].
  - intros key [_ Hk]%lookup_delete_is_Some. by apply L2.
  - intros key [v [Hv Hn]%map_lookup_filter_Some]. cbn in Hn. destruct (L3 key ltac:(by eexists)) as (b' & k' & id' & n & uk' & Hu16 & Hk & Hu & Hs).
    exists b', k', id', n, uk'. split_and!; try done. apply lookup_delete_is_Some. split; [|done]. intros <-. apply Hn.
    apply upload_key_Ok in Huk as (N1 & N2 & N3 & E1). apply upload_key_Ok in Hu as (M1 & M2 & M3 & E2). rewrite E1 in E2.
    apply cut_nul in E2 as [-> E2]; [|done|done]. apply cut_nul in E2 as [-> ->]; [|done|done].
    assert (exists pfx, parts_prefix b' k' id' = Ok pfx) as [pfx Hp] by (eexists; by apply parts_prefix_Ok).
    destruct (up_all _ _ _ _ _ HL pfx key Hp ltac:(by eexists)) as (no & p & Hin & ->).
    + apply part_key_Ok in Hk as (_ & _ & _ & ->). apply parts_prefix_Ok in Hp as (_ & _ & _ & ->). exists [zb (Z.shiftr n 8); zb n]. by rewrite <- !app_assoc.
    + apply list_elem_of_fmap. exists (part_at b' k' id' no, pr_data p). split; [done|]. apply list_elem_of_fmap. by exists (no, p).
Qed.

Lemma swap_ops_shape (O : table) okey from to ops :
  swap_ops O okey from to ops -> Forall (λ z : BatchOp, (exists k v, z = BPut kObjects k v /\ is_Some (O !! k)) \/ op_cf z = kRefs \/ op_cf z = kStats) ops.
Proof.
  intros (v & enc & rest & b & k & r & -> & Hv & _ & _ & _ & _ & _ & Ha). constructor; [left; exists okey, enc; split; [done|by eexists]|].
  apply list.Forall_forall. intros x Hx. right. destruct Ha as [A1 _ _ A4].
  assert (forall c, x ∈ on_cf c rest <-> op_cf x = c) as Hin by (intros c; unfold on_cf; rewrite list_elem_of_filter; tauto).
  destruct (decide (op_cf x = kRefs)); [by left|]. destruct (decide (op_cf x = kStats)); [by right|]. exfalso.
  destruct (decide (op_cf x = kGcq)) as [Eg|]; [apply Hin in Eg; rewrite A1 in Eg; by apply not_elem_of_nil in Eg|].
  specialize (A4 (op_cf x) ltac:(done) ltac:(done) ltac:(done)). pose proof (proj2 (Hin (op_cf x)) eq_refl) as Hx'. rewrite A4 in Hx'. by apply not_elem_of_nil in Hx'.
Qed.

Section links.
Context {DB : Type} {rocks : RocksDB DB} {law : RocksLaw DB}.
Context (md5_hex sha1 sha256 sha256_hex : bytes -> bytes).
Abbreviation M := (ST (Meta DB) S3ErrorCode).
Abbreviation step := (meta_step md5_hex sha1 sha256 sha256_hex).
Abbreviation reach := (reachable md5_hex sha1 sha256 sha256_hex).
Implicit Types (s : Meta DB).

Definition links s : Prop := linked (tab s kBuckets) (tab s kObjects) (tab s kUploads) (tab s kParts).

Lemma links_same s s' :
  links s -> (forall c, c = kBuckets \/ c = kObjects \/ c = kUploads \/ c = kParts -> tab s' c = tab s c) -> links s'.
Proof. intros Hl E. unfold links. by rewrite !E by auto. Qed.
Lemma links_counter c s s' : links s -> only_counter c s s' -> links s'.
Proof. intros Hl [O1 _ _]. apply (links_same s); [done|]. intros cf Hcf. apply O1. by destruct Hcf as [->|[->|[->| ->]]]. Qed.

Lemma put_object_links b k rec cond now s o s' issued writers :
  minv s issued writers -> ample s -> is_i64 now -> object_rec_ok rec -> links s -> put_object b k rec cond now s = (o, s') -> links s'.
Proof.
  intros Hi Ham Hnow Hok Hl E. destruct (put_object_run _ _ _ _ _ _ _ _ _ _ Hi Ham Hnow (proj1 (proj2 (proj2 (proj2 (proj2 (proj2 Hok))))) : wf_data _) E)
    as [[[Ho _] _]|(_ & okey & old & enc & Hk & Hb & _ & _ & _ & Hc)]; [by eapply links_counter|]. cbv zeta in Hc.
  unfold links. rewrite !(committed_tab _ _ _ _ _ _ _ _ Hc) by done. eval_batch.
  eapply linked_objects; [done|]. intros k' [<-|Hk']%lookup_insert_is_Some'; [right; by exists b, k|by left].
Qed.

Lemma delete_object_links b k now s o s' issued writers :
  minv s issued writers -> ample s -> is_i64 now -> links s -> delete_object b k now s = (o, s') -> links s'.
Proof.
  intros Hi Ham Hnow Hl E. destruct (delete_object_run _ _ _ _ _ _ _ _ Hi Ham Hnow E)
    as [[[Ho _] _]|[(_ & -> & _)|(_ & okey & v & _ & _ & Hc)]]; [by eapply links_counter|done|]. cbv zeta in Hc.
  unfold links. rewrite !(committed_tab _ _ _ _ _ _ _ _ Hc) by done. eval_batch.
  eapply linked_objects; [done|]. intros k' [_ Hk']%lookup_delete_is_Some. by left.
Qed.

Lemma put_part_links b k id p now s o s' issued writers :
  minv s issued writers -> ample s -> is_i64 now -> part_rec_ok p -> is_u16 (pr_part_no p) -> links s -> put_part b k id p now s = (o, s') -> links s'.
Proof.
  intros Hi Ham Hnow Hok Hno Hl E. destruct (put_part_run _ _ _ _ _ _ _ _ _ _ Hi Ham Hnow (proj1 (proj2 (proj2 Hok)) : wf_data _) Hno E)
    as [[[Ho _] _]|(_ & pkey & enc & Hk & _ & (ukey & Huk & Hus) & Hc)]; [by eapply links_counter|]. cbv zeta in Hc.
  unfold links. rewrite !(committed_tab _ _ _ _ _ _ _ _ Hc) by done. eval_batch. destruct Hl as [L1 L2 L3]. split; [done|done|].
  intros k' [<-|Hk']%lookup_insert_is_Some'; [|by apply L3]. by exists b, k, id, (pr_part_no p), ukey.
Qed.

Lemma create_upload_links b k m id now s o s' : links s -> create_upload b k m id now s = (o, s') -> links s'.
Proof.
  intros Hl E. assert (stopped o s s' -> links s') as Hstop by (by intros [-> _]). unfold create_upload in E.
  apply require_bucket_bind in E as [?|[Hb E]]; [auto|]. cbv zeta in E. apply lift_bind in E as [?|(ukey & Hk & E)]; [auto|].
  apply lift_bind in E as [?|(enc & _ & E)]; [auto|]. apply commit_bind in E as [?|(s2 & [Ht _] & E)]; [auto|]. apply mret_run in E as [_ ->].
  unfold links. rewrite !Ht. eval_batch. by eapply linked_upload.
Qed.

Lemma complete_upload_links b k id parts now tp s o s' issued writers :
  minv s issued writers -> ample s -> is_i64 now -> is_i64 (to_unix_ms tp) -> validate_part_order parts = Ok tt ->
  (upload_extents (tab s kParts) b k id < 2 ^ 32)%Z -> links s ->
  complete_upload md5_hex sha1 sha256 b k id parts now tp s = (o, s') -> links s'.
Proof.
  intros Hi Ham Hnow Htp Hpo Hfew Hl E. destruct (complete_upload_run _ _ _ _ _ _ _ _ _ _ _ _ _ _ Hi Ham Hnow Htp Hpo Hfew E) as
    [[[Ho _] _]|(okey & old & rec & enc & ukey & pfx & stored & ps & Hc)]; [by eapply links_counter|]. cbv zeta in Hc.
  destruct Hc as (_ & Hb & Hk & Hp & Huk & _ & _ & _ & HL & _ & _ & Hc).
  unfold links. rewrite !(committed_tab _ _ _ _ _ _ _ _ Hc) by done. eval_batch.
  pose proof (parts_range _ b k id pfx _ HL Hp) as Hrg. cbn [apply_op] in Hrg. rewrite Hrg.
  eapply linked_objects; [by eapply linked_leave|]. intros k' [<-|Hk']%lookup_insert_is_Some'; [right; by exists b, k|by left].
Qed.

Lemma abort_upload_links b k id now s o s' issued writers :
  minv s issued writers -> ample s -> is_i64 now -> links s -> abort_upload b k id now s = (o, s') -> links s'.
Proof.
  intros Hi Ham Hnow Hl E. destruct (abort_upload_run _ _ _ _ _ _ _ _ _ Hi Ham Hnow E) as [[[Ho _] _]|(-> & ukey & pfx & L & Huk & Hp & HL & Hc)];
    [by eapply links_counter|]. cbv zeta in Hc. unfold links. rewrite !(committed_tab _ _ _ _ _ _ _ _ Hc) by done. eval_batch.
  pose proof (parts_range _ b k id pfx _ HL Hp) as Hrg. cbn [apply_op] in Hrg. rewrite Hrg. by eapply linked_leave.
Qed.

(** A batch whose record changes only replace objects that exist. *)
Lemma replace_links s s' ops :
  links s -> applied ops s s' ->
  Forall (λ z : BatchOp, (exists k v, z = BPut kObjects k v /\ is_Some (tab s kObjects !! k)) \/ op_cf z = kRefs \/ op_cf z = kStats) ops -> links s'.
Proof.
  intros Hl [Ht _] Hops. assert (forall c, c <> kObjects -> c <> kRefs -> c <> kStats -> tab s' c = tab s c) as Eo.
  { intros c ? ? ?. rewrite Ht, on_cf_none; [done|]. eapply list.Forall_impl; [exact Hops|]. cbn. intros x [(k & v & -> & _)|[E|E]]; [done|congruence|congruence]. }
  unfold links. rewrite (Eo kBuckets), (Eo kUploads), (Eo kParts) by done. eapply linked_objects; [exact Hl|]. intros k Hk. left. rewrite Ht in Hk. clear Ht Eo Hl.
  assert (forall t : table, (forall k, is_Some (t !! k) -> is_Some (tab s kObjects !! k)) ->
    is_Some (apply_ops (on_cf kObjects ops) t !! k) -> is_Some (tab s kObjects !! k)) as Hgen; [|by apply (Hgen (tab s kObjects)); auto].
  clear Hk. induction Hops as [|x ops Hx Hops IH]; intros t Hsub Hk; [by apply Hsub|]. rewrite on_cf_cons in Hk.
  destruct Hx as [(k0 & v & -> & Hs)|Hx]; [rewrite decide_True in Hk by done|rewrite decide_False in Hk by (destruct Hx; congruence); by apply (IH t)].
  rewrite apply_ops_cons in Hk. cbn [apply_op] in Hk. apply (IH (<[k0:=v]> t)); [|done]. intros k' [<-|?]%lookup_insert_is_Some'; [done|by apply Hsub].
Qed.

Lemma swap_extents_links b k expect from to s o s' issued writers :
  minv s issued writers -> extents_ok to -> links s -> swap_extents b k expect from to s = (o, s') -> links s'.
Proof.
  intros Hi Hto Hl E. unfold swap_extents in E.
  apply ST_bind_run in E as [(ops & s1 & Hst & E)|(e & Hst & ->)]; destruct (stage_swap_run _ _ _ _ _ _ _ _ _ _ Hi Hto Hst) as [-> Hops]; [|done].
  destruct ops as [ops|]; [|by apply mret_run in E as [_ ->]]. destruct Hops as (okey & _ & Hops).
  apply commit_bind in E as [[-> _]|(s2 & Hap & E)]; [done|]. apply mret_run in E as [_ ->].
  eapply replace_links; [done|done|]. by eapply swap_ops_shape.
Qed.

Lemma swap_batch_links reqs s o s' issued writers :
  minv s issued writers -> swaps_ok reqs writers -> links s -> swap_extents_batch reqs s = (o, s') -> links s'.
Proof.
  intros Hi Hok Hl E. unfold swap_extents_batch in E.
  assert (Forall (λ r, extents_ok (sr_to r)) reqs) as Hto.
  { clear -Hok. revert writers Hok. induction reqs as [|r reqs IH]; intros w; cbn; [constructor|]. intros (H1 & _ & _ & H3). constructor; eauto. }
  apply ST_bind_run in E as [(r & s1 & Hst & E)|(e & Hst & ->)]; destruct (stage_swaps_run _ _ _ _ _ _ Hi Hto Hst) as [-> Hr]; [|done].
  destruct (Hr r eq_refl) as (opss & E1 & _ & HF). destruct (existsb id _).
  - apply commit_bind in E as [[-> _]|(s2 & Hap & E)]; [done|]. apply mret_run in E as [_ ->]. eapply replace_links; [done|done|]. rewrite E1.
    clear -HF. induction HF as [|req o reqs opss Ho HF IH]; [constructor|]. cbn. apply list.Forall_app. split; [|done].
    destruct o as [ops|]; [|constructor]. destruct (Ho ops eq_refl) as (okey & _ & Hops). by eapply swap_ops_shape.
  - rewrite ST_ret_bind in E. by apply mret_run in E as [_ ->].
Qed.

Lemma create_bucket_links b now s o s' : links s -> create_bucket b now s = (o, s') -> links s'.
Proof.
  intros Hl E. assert (stopped o s s' -> links s') as Hstop by (by intros [-> _]). unfold create_bucket in E.
  apply get_raw_bind in E as [?|E]; [auto|]. apply lift_bind in E as [?|(? & _ & E)]; [auto|].
  apply lift_bind in E as [?|(enc & _ & E)]; [auto|]. apply commit_run in E. destruct o; [|by subst]. destruct E as [Ht _].
  unfold links. rewrite !Ht. eval_batch. by apply linked_bucket.
Qed.

Lemma delete_bucket_links b s o s' : links s -> delete_bucket b s = (o, s') -> links s'.
Proof.
  intros Hl E. assert (stopped o s s' -> links s') as Hstop by (by intros [-> _]). unfold delete_bucket in E.
  apply require_bucket_bind in E as [?|[_ E]]; [auto|]. apply items_bind in E as [?|E]; [auto|].
  apply lift_bind in E as [?|(? & H1%throw_if_Ok & E)]; [auto|]. apply items_bind in E as [?|E]; [auto|].
  apply lift_bind in E as [?|(? & H2%throw_if_Ok & E)]; [auto|]. apply commit_run in E. destruct o; [|by subst]. destruct E as [Ht _].
  unfold links. rewrite !Ht. eval_batch. destruct Hl as [L1 L2 L3]. split; [| |done].
  - intros k Hk. destruct (L1 k Hk) as (b' & o & Hk' & Hb). exists b', o. split; [done|]. apply lookup_delete_is_Some. split; [|done]. intros <-.
    rewrite (proj2 (any_with_prefix_spec _ _)) in H1; [done|]. exists k. split; [done|]. by eapply object_key_bucket.
  - intros k Hk. destruct (L2 k Hk) as (b' & o & id & Hk' & Hb). exists b', o, id. split; [done|]. apply lookup_delete_is_Some. split; [|done]. intros <-.
    rewrite (proj2 (any_with_prefix_spec _ _)) in H2; [done|]. exists k. split; [done|]. by eapply upload_key_bucket.
Qed.

(** Operations on the other tables. *)
Definition apart {A} (m : M A) : Prop :=
  forall s o s', m s = (o, s') -> forall c, c = kBuckets \/ c = kObjects \/ c = kUploads \/ c = kParts -> tab s' c = tab s c.
Lemma apart_commit ops : Forall (λ z : BatchOp, op_cf z = kGcq \/ op_cf z = kStats \/ op_cf z = kTc) ops -> apart (commit ops).
Proof.
  intros Hops s o s' E c Hc. apply commit_run in E. destruct o; [|by subst]. destruct E as [Ht _]. rewrite Ht, on_cf_none; [done|].
  eapply list.Forall_impl; [exact Hops|]. cbn. intros x Hx E. destruct Hc as [->|[->|[->| ->]]]; naive_solver congruence.
Qed.
Lemma apart_bind {A B} (m : M A) (f : A -> M B) : apart m -> (forall a, apart (f a)) -> apart (m ≫= f).
Proof.
  intros Hm Hf s o s' [(a & s1 & H1 & H2)|(e & H1 & ->)]%ST_bind_run c Hc; [rewrite (Hf a _ _ _ H2 c Hc); by eapply Hm|by eapply Hm].
Qed.
Lemma apart_quiet {A} (m : M A) : quiet m -> apart m.
Proof. intros Hm s o s' [O1 _ _]%Hm c Hc. apply O1. by destruct Hc as [->|[->|[->| ->]]]. Qed.
Lemma apart_links {A} (m : M A) s o s' : apart m -> m s = (o, s') -> links s -> links s'.
Proof. intros Hm E Hl. apply (links_same s); [done|]. by eapply Hm. Qed.
Hint Resolve quiet_ret quiet_lift quiet_get_raw quiet_bind quiet_if quiet_seal_known quiet_kv_stage : quiet.

Lemma ack_apart l : apart (ack_reclaims l).
Proof.
  unfold ack_reclaims. case_bool_decide; [apply apart_quiet, quiet_ret|]. apply apart_commit. apply list.Forall_fmap, list.Forall_true. cbn. auto.
Qed.
Lemma seal_apart p size : apart (seal_pack p size).
Proof.
  unfold seal_pack. apply apart_bind; [apply apart_quiet; auto with quiet|]. intros known. case_bool_decide; [apply apart_quiet, quiet_ret|].
  apply apart_bind; [apply apart_quiet, quiet_lift|]. intros enc. apply apart_commit. constructor; [cbn; auto|constructor].
Qed.
Lemma drop_stat_apart p : apart (drop_pack_stat p).
Proof. apply apart_commit. repeat (constructor; [cbn; auto|]). constructor. Qed.
Lemma kv_put_apart puts : apart (kv_put_batch sha256_hex puts).
Proof.
  intros s o s' E. unfold kv_put_batch in E. apply ST_bind_run in E as [(r & s1 & Hst & E)|(e & Hst & ->)]; apply kv_stage_run in Hst as [-> Hr]; [|done].
  destruct (Hr r eq_refl) as (E1 & _). revert E. apply apart_bind; [|intros; apply apart_quiet, quiet_ret]. rewrite E1. apply apart_commit.
  apply list.Forall_fmap, list.Forall_true. cbn. auto.
Qed.
Lemma kv_delete_apart key : apart (kv_delete key).
Proof.
  unfold kv_delete. apply apart_bind; [apply apart_quiet; auto with quiet|]. intros v. case_bool_decide; [|apply apart_quiet, quiet_ret].
  apply apart_bind; [|intros; apply apart_quiet, quiet_ret]. apply apart_commit. constructor; [cbn; auto|constructor].
Qed.

Lemma step_links x y : sys_ok x -> step x y -> links (meta x) -> links (meta y).
Proof.
  intros Hx Hstep Hl. pose proof (so_inv _ Hx) as Hi. destruct Hstep; cbn [meta issued writers] in *.
  - by eapply put_object_links.
  - by eapply delete_object_links.
  - by eapply create_upload_links.
  - by eapply put_part_links.
  - eapply complete_upload_links; [..|eassumption]; try done.
  - by eapply abort_upload_links.
  - by eapply swap_extents_links.
  - by eapply swap_batch_links.
  - match goal with E : alloc_file_run _ _ _ = _ |- _ => destruct (alloc_ids (alloc_counter kind) n s o s' (taken_ids kind ids)) as [Ho _];
      [destruct kind; apply Hi|by destruct kind|done|exact E|by eapply links_counter] end.
  - done.
  - by eapply apart_links; [apply ack_apart|..].
  - by eapply apart_links; [apply seal_apart|..].
  - by eapply apart_links; [apply drop_stat_apart|..].
  - by eapply create_bucket_links.
  - by eapply delete_bucket_links.
  - by eapply apart_links; [apply kv_put_apart|..].
  - by eapply apart_links; [apply kv_delete_apart|..].
  - done.
Qed.

Lemma reachable_links x : reach x -> links (meta x).
Proof.
  intros (sync & d & Hf & Hr). pose proof (start_ok sync d Hf (reflexivity 0%Z)) as Hs.
  assert (links (meta (start sync d))) as Hl.
  { unfold links. change (tab (meta (start sync d))) with (contents d). rewrite !Hf. split; intros k [v Hv]; by rewrite lookup_empty in Hv. }
  revert Hs Hl. induction Hr as [|x y z Hxy _ IH]; intros Hs Hl; [done|]. apply IH.
  - by apply (step_sound md5_hex sha1 sha256 sha256_hex x y).
  - by apply (step_links x y).
Qed.

(** C30: Records never dangle: in every reachable state each object and each upload
    belongs to a bucket of the store, and each part to an upload in progress; so deleting
    a bucket, completing and aborting leave no orphaned record behind. *)
Theorem records_linked x (Hx : reach x) :
  let t := tab (meta x) in
  (forall k, is_Some (t kObjects !! k) -> exists b o, object_key b o = Ok k /\ is_Some (t kBuckets !! b)) /\
  (forall k, is_Some (t kUploads !! k) -> exists b o id, upload_key b o id = Ok k /\ is_Some (t kBuckets !! b)) /\
  (forall k, is_Some (t kParts !! k) ->
     exists b o id n uk, is_u16 n /\ part_key b o id n = Ok k /\ upload_key b o id = Ok uk /\ is_Some (t kUploads !! uk)).
Proof. by destruct (reachable_links x Hx). Qed.

(** A bucket is deleted exactly when it is empty: over an engine whose calls do not
    fail, the request reports a missing bucket, reports a bucket that still has an object
    or an upload in progress, and otherwise removes the bucket and nothing else. *)
Theorem delete_bucket_exact {reliable : RocksReliable DB} x (Hx : reach x) (b : bytes) :
  let t := tab (meta x) in
  let used := (exists k, is_Some (t kObjects !! k) /\ (b ++ [nul]) `prefix_of` k) \/
              (exists k, is_Some (t kUploads !! k) /\ (b ++ [nul]) `prefix_of` k) in
  (t kBuckets !! b = None -> delete_bucket b (meta x) = (Throw NoSuchBucket, meta x)) /\
  (is_Some (t kBuckets !! b) -> used -> delete_bucket b (meta x) = (Throw BucketNotEmpty, meta x)) /\
  (is_Some (t kBuckets !! b) -> ~ used -> exists s', delete_bucket b (meta x) = (Ok tt, s') /\
     forall c, tab s' c = if decide (c = kBuckets) then delete b (t kBuckets) else t c).
Proof.
  pose proof (reachable_open _ _ _ _ x Hx) as Ho. clear Hx. cbv zeta. generalize dependent (meta x). intros s Ho. clear x.
  assert (delete_bucket b s = if decide (is_Some (tab s kBuckets !! b)) then
    if any_with_prefix (b ++ [nul]) (map_items bytes_le (tab s kObjects)) then (Throw BucketNotEmpty, s)
    else if any_with_prefix (b ++ [nul]) (map_items bytes_le (tab s kUploads)) then (Throw BucketNotEmpty, s)
    else commit [BDelete kBuckets b] s else (Throw NoSuchBucket, s)) as ->.
  { unfold delete_bucket, require_bucket_locked. rewrite !ST_bind_eq, get_raw_ok by done. case_decide as Hb.
    - rewrite bool_decide_eq_true_2 by done. cbn [negb throw_if lift]. rewrite ST_bind_eq, items_ok by done.
      destruct (any_with_prefix _ (map_items bytes_le (tab s kObjects))); rewrite ST_bind_eq; cbn [throw_if lift]; [done|].
      rewrite ST_bind_eq, items_ok by done. by destruct (any_with_prefix _ (map_items bytes_le (tab s kUploads))); rewrite ST_bind_eq.
    - by rewrite bool_decide_eq_false_2. }
  split_and!.
  - intros Hb. rewrite decide_False; [done|]. rewrite Hb. by intros [? [=]].
  - intros Hb Hu. rewrite decide_True by done. destruct Hu as [Hu%any_with_prefix_spec|Hu%any_with_prefix_spec]; rewrite Hu; [done|by destruct (any_with_prefix _ (map_items bytes_le (tab s kObjects)))].
  - intros Hb Hn. rewrite decide_True by done.
    destruct (any_with_prefix _ (map_items bytes_le (tab s kObjects))) eqn:E1; [destruct Hn; left; by apply any_with_prefix_spec|].
    destruct (any_with_prefix _ (map_items bytes_le (tab s kUploads))) eqn:E2; [destruct Hn; right; by apply any_with_prefix_spec|].
    destruct (commit [BDelete kBuckets b] s) as [o s'] eqn:Ec. exists s'. destruct o as [[]|e].
    + split; [done|]. intros c. apply commit_run in Ec as [Ht _]. rewrite Ht. cbn [on_cf base.filter list_filter op_cf]. by repeat case_decide; subst.
    + exfalso. destruct Ho as [d Hd]. unfold commit, write, db in Ec. rewrite ST_get_bind, ST_bind_eq, Hd in Ec.
      destruct (write_reliable d (opt_sync s) [BDelete kBuckets b]) as [d' Hd']. rewrite ST_bind_eq, Hd' in Ec. done.
Qed.
End links.

Lemma records_linked_witness : exists b o, object_key b o = Ok (bs "b" ++ [nul] ++ bs "k") /\ is_Some (tab (meta demo4) kBuckets !! b).
Proof.
  apply (proj1 (records_linked hash hash hash hash demo4 demo_reachable)). apply (bool_decide_unpack _). vm_compute. exact I.
Defined.

Lemma delete_bucket_exact_witness :
  delete_bucket (bs "b") (meta demo4) = (Throw BucketNotEmpty, meta demo4) /\ delete_bucket (bs "c") (meta demo4) = (Throw NoSuchBucket, meta demo4).
Proof.
  split.
  - apply (proj1 (proj2 (delete_bucket_exact hash hash hash hash demo4 demo_reachable (bs "b")))).
    + apply (bool_decide_unpack _). vm_compute. exact I.
    + left. exists (bs "b" ++ [nul] ++ bs "k"). split; [apply (bool_decide_unpack _); vm_compute; exact I|]. by exists (bs "k").
  - apply (proj1 (delete_bucket_exact hash hash hash hash demo4 demo_reachable (bs "c"))). vm_compute. reflexivity.
Defined.
