(* ===== verification/FsPack.v ===== *)
(** The pack file of the file data plane ([build_pack_header] and the scan of
    [FsDataStore::rewrite_pack] in [src/src/storage/duostore/fs_data_store.cc]): records
    one after the other, each with a header that lets a sequential scan find it.

    The file is a byte string, a record is delivered with the extent that reads it. A
    scan calls the migration once per batch; here it returns the batches. *)

From S2P Require Import Prelude Bytes Checksum Backend Codec CodecProofs.
From Stdlib Require Import ZArith Lia.
From stdpp Require Import base list strings.
Import Crc.
Open Scope lights3_scope.

(** * Format *)
Definition kPackMagic : bytes := bs "LP3R".
Definition kPackHeaderFixed : Z := 22.

Definition build_pack_header (owner : bytes) (payload_len crc : Z) : result bytes :=
  let header_len := (kPackHeaderFixed + blen owner)%Z in
  if (0xffff <? blen owner)%Z || (0xffff <? header_len)%Z then Throw InternalError
  else Ok (kPackMagic ++ [zb 1; zb 0] ++ le_bytes 2 header_len ++ le_bytes 8 payload_len ++ le_bytes 4 crc ++ le_bytes 2 (blen owner) ++ owner).

(** [get_le] of the bytes from [p] on. *)
Definition get_le (file : bytes) (p n : nat) : Z := le_loop 0 0 (substr file p n).

Record PackScanRecord := mkScanRec { pk_owner : bytes; pk_from : Extent.t; pk_payload : bytes }.

(** What the standard library throws when a vector cannot have the size asked for. *)
Inductive ScanErr := LengthError | ScanFuel.
Definition kVectorMax : Z := 2 ^ 63 - 1.

Definition kMigrateBatchRecs : Z := 64.
Definition kMigrateBatchBytes : Z := 4194304.

(** Records parsed, records found corrupt, and the batches handed to the migration. *)
Record ScanOut := mkScanOut { so_scanned : Z; so_corrupt : Z; so_batches : list (list PackScanRecord) }.

(** The end of a scan: the batch in hand is flushed. *)
Definition scan_end (corrupt : Z) (batch : list PackScanRecord) : ScanOut :=
  mkScanOut 0 corrupt (if bool_decide (batch = []) then [] else [batch]).
Definition add_scanned (o : ScanOut) : ScanOut := mkScanOut (so_scanned o + 1) (so_corrupt o) (so_batches o).
Definition scan_corrupt (o : ScanOut) : ScanOut := mkScanOut (so_scanned o) (so_corrupt o + 1) (so_batches o).
Definition add_batch (b : list PackScanRecord) (o : ScanOut) : ScanOut := mkScanOut (so_scanned o) (so_corrupt o) (b :: so_batches o).

(** What the scan finds at an offset: the end of what it can read, with the records it
    counts as corrupt; a record whose payload does not match its checksum; a record. *)
Inductive PackFound := FEnd (corrupt : Z) | FBad (next : Z) | FRec (r : PackScanRecord) (next : Z) | FFault.

(** One turn of the loop of the scan, up to what becomes of the record. The sums are of
    [uint64_t]. *)
Definition scan_at (pack_id : Z) (file : bytes) (off : Z) : PackFound :=
  if negb ((off +₆₄ kPackHeaderFixed) <=? blen file)%Z then FEnd 0
  else
    let o := Z.to_nat off in
    if (length (substr file o 22) <? 22) then FEnd 0
    else if negb (bool_decide (substr file o 4 = kPackMagic)) || negb (get_le file (o + 4) 1 =? 1)%Z then FEnd 1
    else
      let header_len := get_le file (o + 6) 2 in
      let payload_len := get_le file (o + 8) 8 in
      let crc := get_le file (o + 16) 4 in
      let owner_len := get_le file (o + 20) 2 in
      if negb (header_len =? kPackHeaderFixed + owner_len)%Z then FEnd 1
      else if (blen file <? (off +₆₄ header_len) +₆₄ payload_len)%Z then FEnd 0
      else
        let owner := substr file (o + 22) (Z.to_nat owner_len) in
        if (blen owner <? owner_len)%Z then FEnd 0
        else if (kVectorMax <? payload_len)%Z then FFault
        else
          let payload := substr file (o + Z.to_nat header_len) (Z.to_nat payload_len) in
          if (blen payload <? payload_len)%Z then FEnd 0
          else
            let next := ((off +₆₄ header_len) +₆₄ payload_len)%L3 in
            if negb (crc32c_of payload =? crc)%Z then FBad next
            else FRec (mkScanRec owner (Extent.mk Extent.kPack pack_id (off +₆₄ header_len)%L3 payload_len crc) payload) next.

Definition batch_full (batch : list PackScanRecord) (batch_bytes : Z) : bool :=
  (kMigrateBatchRecs <=? Z.of_nat (length batch))%Z || (kMigrateBatchBytes <=? batch_bytes)%Z.

(** The loop of the scan at offset [off]. *)
Fixpoint scan_pack (fuel : nat) (pack_id : Z) (file : bytes) (off : Z) (batch : list PackScanRecord) (batch_bytes : Z) : res ScanErr ScanOut :=
  match fuel with
  | 0 => Throw ScanFuel
  | S f =>
      match scan_at pack_id file off with
      | FEnd corrupt => Ok (scan_end corrupt batch)
      | FFault => Throw LengthError
      | FBad next => scan_corrupt <$> scan_pack f pack_id file next batch batch_bytes
      | FRec r next =>
          let batch' := batch ++ [r] in
          let bytes' := (batch_bytes + Extent.length (pk_from r))%Z in
          if batch_full batch' bytes' then add_scanned ∘ add_batch batch' <$> scan_pack f pack_id file next [] 0
          else add_scanned <$> scan_pack f pack_id file next batch' bytes'
      end
  end.

(** The whole file: one record is at least a header long. *)
Definition rewrite_scan (pack_id : Z) (file : bytes) : res ScanErr ScanOut := scan_pack (S (length file)) pack_id file 0 [] 0.

(** ** Check on a small file *)
Definition pack_record (owner payload : bytes) : bytes :=
  match build_pack_header owner (blen payload) (crc32c_of payload) with Ok h => h ++ payload | Throw _ => [] end.
Example scan_two :
  match rewrite_scan 7 (pack_record (bs "a") (bs "hello") ++ pack_record (bs "b") (bs "xyz") ++ take 24 (pack_record (bs "c") (bs "torn"))) with
  | Ok o => (so_scanned o, so_corrupt o, (λ r, (pk_owner r, Extent.offset (pk_from r), pk_payload r)) <$> concat (so_batches o))
  | Throw _ => (0%Z, 9%Z, []) end = (2%Z, 0%Z, [(bs "a", 23%Z, bs "hello"); (bs "b", 51%Z, bs "xyz")]).
Proof. vm_compute. reflexivity. Qed.

(** * The scan is exact *)

(** A record as it lies in the file: the bytes of the payload may have changed since its
    checksum was taken. *)
Record Stored := mkStored { sd_owner : bytes; sd_crc : Z; sd_bytes : bytes }.
Definition header_of (r : Stored) : bytes :=
  kPackMagic ++ [zb 1; zb 0] ++ le_bytes 2 (kPackHeaderFixed + blen (sd_owner r)) ++ le_bytes 8 (blen (sd_bytes r)) ++
  le_bytes 4 (sd_crc r) ++ le_bytes 2 (blen (sd_owner r)) ++ sd_owner r.
Definition record_bytes (r : Stored) : bytes := header_of r ++ sd_bytes r.
Definition stored_ok (r : Stored) : Prop := (kPackHeaderFixed + blen (sd_owner r) <= 0xffff)%Z /\ is_u32 (sd_crc r).
Definition intact (r : Stored) : Prop := crc32c_of (sd_bytes r) = sd_crc r.
#[global] Instance intact_dec r : Decision (intact r).
Proof. unfold intact. apply _. Defined.

Lemma build_header owner payload_len crc h :
  build_pack_header owner payload_len crc = Ok h ->
  h = kPackMagic ++ [zb 1; zb 0] ++ le_bytes 2 (kPackHeaderFixed + blen owner) ++ le_bytes 8 payload_len ++ le_bytes 4 crc ++ le_bytes 2 (blen owner) ++ owner /\
  (kPackHeaderFixed + blen owner <= 0xffff)%Z.
Proof.
  unfold build_pack_header. destruct (Z.ltb_spec 0xffff (blen owner)); [done|]. destruct (Z.ltb_spec 0xffff (kPackHeaderFixed + blen owner)); [done|].
  cbn [orb]. intros [= <-]. split; [done|lia].
Qed.

Lemma blen_cat a b : blen (a ++ b) = (blen a + blen b)%Z.
Proof. unfold blen. rewrite length_app. lia. Qed.
Lemma blen_nat (a : bytes) : Z.to_nat (blen a) = length a.
Proof. unfold blen. lia. Qed.
Lemma length_header r : blen (header_of r) = (kPackHeaderFixed + blen (sd_owner r))%Z.
Proof. unfold header_of. rewrite !blen_cat. unfold blen. rewrite !length_le_bytes. cbn. unfold kPackHeaderFixed. lia. Qed.

Lemma substr_pre (pre x : bytes) i n : substr (pre ++ x) (length pre + i) n = substr x i n.
Proof. unfold substr. by rewrite drop_app_add. Qed.
Lemma substr_at (a b c : bytes) n : length b = n -> substr (a ++ b ++ c) (length a) n = b.
Proof. intros <-. unfold substr. by rewrite drop_app_length, take_app_length. Qed.
(** The field between the fields [l1] and [l2]. *)
Lemma substr_field (l1 : list bytes) (b : bytes) (l2 : list bytes) i n :
  length (concat l1) = i -> length b = n -> substr (concat (l1 ++ b :: l2)) i n = b.
Proof. intros <- Hn. rewrite concat_app. by apply substr_at. Qed.

Section scan.
Context (pack_id : Z).

(** What a scan delivers of the records from offset [off] on. *)
Fixpoint delivered (off : Z) (rs : list Stored) : list PackScanRecord :=
  match rs with
  | [] => []
  | r :: rs' =>
      (if decide (intact r) then [mkScanRec (sd_owner r) (Extent.mk Extent.kPack pack_id (off + blen (header_of r)) (blen (sd_bytes r)) (sd_crc r)) (sd_bytes r)] else [])
      ++ delivered (off + blen (record_bytes r)) rs'
  end.

(** The header of a record reads back. *)
Lemma header_fields pre r rest (file := pre ++ record_bytes r ++ rest) (o := length pre) :
  stored_ok r -> (blen file < 2 ^ 62)%Z ->
  length (substr file o 22) = 22 /\ substr file o 4 = kPackMagic /\ get_le file (o + 4) 1 = 1%Z /\
  get_le file (o + 6) 2 = (kPackHeaderFixed + blen (sd_owner r))%Z /\ get_le file (o + 8) 8 = blen (sd_bytes r) /\ get_le file (o + 16) 4 = sd_crc r /\
  get_le file (o + 20) 2 = blen (sd_owner r).
Proof.
  intros [Ho Hc] Hl. unfold kPackHeaderFixed in *. set (n := blen (sd_owner r)) in *. set (m := blen (sd_bytes r)).
  assert (0 <= n)%Z by (unfold n, blen; lia). assert (0 <= m < 2 ^ 62)%Z.
  { unfold m, file, record_bytes in *. rewrite !blen_cat in Hl. unfold blen in *. lia. }
  set (tl := sd_bytes r ++ rest).
  assert (file = pre ++ concat [kPackMagic; [zb 1]; [zb 0]; le_bytes 2 (22 + n); le_bytes 8 m; le_bytes 4 (sd_crc r); le_bytes 2 n; sd_owner r; tl]) as ->.
  { unfold file, record_bytes, header_of. cbn [concat]. rewrite <- !app_assoc, app_nil_r. done. }
  unfold get_le, o. rewrite !substr_pre. rewrite <- (Nat.add_0_r (length pre)), !substr_pre.
  assert (forall w v, (0 <= v < 2 ^ (8 * Z.of_nat w))%Z -> le_loop 0 0 (le_bytes w v) = v) as Hle.
  { intros w v Hv. rewrite le_loop_bytes. by apply Z.mod_small. }
  split; [|split; [|split; [|split; [|split; [|split]]]]].
  - unfold substr. rewrite drop_0, length_take. cbn [concat]. rewrite !length_app, !length_le_bytes. cbn [length kPackMagic bs]. vm_compute (length _). lia.
  - apply (substr_field [] kPackMagic); reflexivity.
  - etransitivity; [apply (f_equal (le_loop 0 0)); exact (substr_field [kPackMagic] [zb 1] _ _ _ eq_refl eq_refl)|]. reflexivity.
  - etransitivity; [apply (f_equal (le_loop 0 0)); exact (substr_field [kPackMagic; [zb 1]; [zb 0]] (le_bytes 2 (22 + n)) _ _ _ eq_refl eq_refl)|]. apply Hle. lia.
  - etransitivity; [apply (f_equal (le_loop 0 0)); exact (substr_field [kPackMagic; [zb 1]; [zb 0]; le_bytes 2 (22 + n)] (le_bytes 8 m) _ _ _ eq_refl eq_refl)|]. apply Hle. lia.
  - etransitivity; [apply (f_equal (le_loop 0 0)); exact (substr_field [kPackMagic; [zb 1]; [zb 0]; le_bytes 2 (22 + n); le_bytes 8 m] (le_bytes 4 (sd_crc r)) _ _ _ eq_refl eq_refl)|]. apply Hle. unfold is_u32 in Hc. lia.
  - etransitivity; [apply (f_equal (le_loop 0 0)); exact (substr_field [kPackMagic; [zb 1]; [zb 0]; le_bytes 2 (22 + n); le_bytes 8 m; le_bytes 4 (sd_crc r)] (le_bytes 2 n) _ _ _ eq_refl eq_refl)|]. apply Hle. lia.
Qed.

Definition scan_rec (off : Z) (r : Stored) : PackScanRecord :=
  mkScanRec (sd_owner r) (Extent.mk Extent.kPack pack_id (off + blen (header_of r)) (blen (sd_bytes r)) (sd_crc r)) (sd_bytes r).

(** One turn of the loop at a record. *)
Lemma scan_record pre r rest (file := pre ++ record_bytes r ++ rest) (next := (blen pre + blen (record_bytes r))%Z) :
  stored_ok r -> (blen file < 2 ^ 62)%Z ->
  scan_at pack_id file (blen pre) = if decide (intact r) then FRec (scan_rec (blen pre) r) next else FBad next.
Proof.
  intros Hok Hl. destruct (header_fields pre r rest Hok Hl) as (F1 & F2 & F3 & F4 & F5 & F6 & F7). fold file in F1, F2, F3, F4, F5, F6, F7.
  pose proof (length_header r) as Hh. assert (blen file = blen pre + (blen (header_of r) + blen (sd_bytes r)) + blen rest)%Z as Hf.
  { unfold file, record_bytes. rewrite !blen_cat. lia. }
  assert (0 <= blen pre /\ 0 <= blen rest /\ 0 <= blen (sd_bytes r) /\ 0 <= blen (sd_owner r))%Z as (P1 & P2 & P3 & P4) by (unfold blen; lia).
  unfold kPackHeaderFixed in Hh.
  unfold scan_at. rewrite blen_nat, F1, F2, F3, F4, F5, F6, F7. unfold kPackHeaderFixed. rewrite !u64_small by (unfold is_u64; lia).
  replace (blen pre + 22 <=? blen file)%Z with true by (symmetry; apply Z.leb_le; lia). cbn [negb Nat.ltb Nat.leb].
  rewrite bool_decide_true by done. cbn [negb orb Z.eqb]. rewrite Z.eqb_refl. cbn [negb]. rewrite <- Hh, !(u64_small (blen pre + blen (header_of r))) by (unfold is_u64; lia).
  rewrite !u64_small by (unfold is_u64; lia). replace (blen file <? blen pre + blen (header_of r) + blen (sd_bytes r))%Z with false by (symmetry; apply Z.ltb_ge; lia).
  rewrite !blen_nat.
  assert (substr file (length pre + 22) (length (sd_owner r)) = sd_owner r) as ->.
  { unfold file, record_bytes. rewrite substr_pre. unfold header_of. rewrite <- !app_assoc, <- (app_nil_r rest).
    exact (substr_field [kPackMagic; [zb 1; zb 0]; le_bytes 2 _; le_bytes 8 _; le_bytes 4 _; le_bytes 2 _] (sd_owner r) [sd_bytes r; rest] 22 _ eq_refl eq_refl). }
  assert (substr file (length pre + length (header_of r)) (length (sd_bytes r)) = sd_bytes r) as ->.
  { unfold file, record_bytes. rewrite substr_pre, <- app_assoc. by apply substr_at. }
  rewrite !Z.ltb_irrefl. replace (kVectorMax <? blen (sd_bytes r))%Z with false by (symmetry; apply Z.ltb_ge; unfold kVectorMax; lia).
  replace (blen pre + blen (header_of r) + blen (sd_bytes r))%Z with next by (unfold next, record_bytes; rewrite blen_cat; lia).
  case_decide as Hi; unfold intact in Hi; [rewrite Hi, Z.eqb_refl; cbn [negb]|rewrite (proj2 (Z.eqb_neq _ _) Hi); cbn [negb]]; reflexivity.
Qed.

Lemma substr_cut (x : bytes) k i n : i + n <= k -> substr (take k x) i n = substr x i n.
Proof. intros Hk. unfold substr. rewrite skipn_firstn_comm, take_take. f_equal. lia. Qed.

(** A record cut short ends the scan, without a complaint. *)
Lemma scan_torn pre r k (file := pre ++ take k (record_bytes r)) :
  stored_ok r -> (blen pre + blen (record_bytes r) < 2 ^ 62)%Z -> k < length (record_bytes r) ->
  scan_at pack_id file (blen pre) = FEnd 0.
Proof.
  intros Hok Hl Hk. assert (length file = length pre + k) as Hlen by (unfold file; rewrite length_app, length_take; lia).
  assert (blen file = blen pre + Z.of_nat k)%Z as Hb by (unfold blen; lia). assert (0 <= blen pre)%Z by (unfold blen; lia).
  assert (Z.of_nat k < blen (record_bytes r))%Z as Hk' by (unfold blen; lia).
  unfold scan_at, kPackHeaderFixed. rewrite u64_small by (unfold is_u64; lia). destruct (Z.leb_spec (blen pre + 22) (blen file)) as [H22|]; [|done]. cbn [negb].
  assert (forall i n, i + n <= k -> substr file (length pre + i) n = substr (pre ++ record_bytes r ++ []) (length pre + i) n) as Hs.
  { intros i n Hi. unfold file. rewrite app_nil_r, !substr_pre. by apply substr_cut. }
  assert (blen (pre ++ record_bytes r ++ []) < 2 ^ 62)%Z as Hl' by (rewrite app_nil_r, blen_cat; lia).
  destruct (header_fields pre r [] Hok Hl') as (F1 & F2 & F3 & F4 & F5 & F6 & F7). unfold get_le in *. rewrite <- (Nat.add_0_r (length pre)) in F1. rewrite <- (Nat.add_0_r (length pre)) in F2.
  rewrite <- !Hs in F1, F2, F3, F4, F5, F6, F7 by lia. rewrite Nat.add_0_r in F1, F2.
  rewrite blen_nat, F1, F2, F3, F4, F5, F6, F7. cbn [Nat.ltb Nat.leb]. rewrite bool_decide_true by done. cbn [negb orb Z.eqb]. unfold kPackHeaderFixed. rewrite Z.eqb_refl. cbn [negb].
  pose proof (length_header r) as Hh. unfold kPackHeaderFixed in Hh. unfold record_bytes in Hl, Hk'. rewrite blen_cat in Hl, Hk'.
  assert (0 <= blen (sd_bytes r) /\ 0 <= blen (sd_owner r))%Z as [P3 P4] by (unfold blen; lia).
  rewrite !u64_small by (rewrite ?u64_small; unfold is_u64; lia). replace (blen file <? blen pre + (22 + blen (sd_owner r)) + blen (sd_bytes r))%Z with true by (symmetry; apply Z.ltb_lt; lia).
  done.
Qed.

Definition bad (rs : list Stored) : Z := Z.of_nat (length (base.filter (λ r, ~ intact r) rs)).
Definition batch_ok (b : list PackScanRecord) : Prop := b <> [] /\ (Z.of_nat (length b) <= kMigrateBatchRecs)%Z.

Lemma scan_spec rs torn k f pre batch bb :
  Forall stored_ok rs -> stored_ok torn -> k < length (record_bytes torn) ->
  (blen (pre ++ concat (record_bytes <$> rs)) + blen (record_bytes torn) < 2 ^ 62)%Z -> length rs < f ->
  (Z.of_nat (length batch) < kMigrateBatchRecs)%Z ->
  exists o, scan_pack f pack_id (pre ++ concat (record_bytes <$> rs) ++ take k (record_bytes torn)) (blen pre) batch bb = Ok o /\
    concat (so_batches o) = batch ++ delivered (blen pre) rs /\ so_scanned o = Z.of_nat (length (delivered (blen pre) rs)) /\
    so_corrupt o = bad rs /\ Forall batch_ok (so_batches o).
Proof.
  intros Hrs Ht Hk. revert f pre batch bb. induction Hrs as [|r rs Hr Hrs IH]; intros f pre batch bb Hl Hf Hb; (destruct f as [|f]; [cbn in Hf; lia|]).
  - cbn [fmap list_fmap concat] in *. rewrite app_nil_r in Hl. cbn [app scan_pack]. rewrite (scan_torn pre torn k Ht Hl Hk). eexists. split; [done|].
    unfold scan_end. cbn [so_batches so_scanned so_corrupt delivered]. rewrite app_nil_r. case_bool_decide as Hn; cbn; [by subst|].
    rewrite app_nil_r. split_and!; [done|done|done|]. constructor; [|done]. split; [done|lia].
  - rewrite fmap_cons, concat_cons in *. set (rest := concat (record_bytes <$> rs) ++ take k (record_bytes torn)).
    replace (pre ++ (record_bytes r ++ concat (record_bytes <$> rs)) ++ take k (record_bytes torn)) with (pre ++ record_bytes r ++ rest) by (unfold rest; by rewrite <- !app_assoc).
    assert (blen (pre ++ record_bytes r ++ rest) < 2 ^ 62)%Z as Hlt.
    { unfold rest. rewrite !blen_cat in *. unfold blen in *. rewrite length_take. lia. }
    cbn [scan_pack]. rewrite (scan_record pre r rest Hr Hlt).
    assert (forall b' c', (Z.of_nat (length b') < kMigrateBatchRecs)%Z -> exists o, scan_pack f pack_id (pre ++ record_bytes r ++ rest) (blen pre + blen (record_bytes r)) b' c' = Ok o /\
      concat (so_batches o) = b' ++ delivered (blen pre + blen (record_bytes r)) rs /\ so_scanned o = Z.of_nat (length (delivered (blen pre + blen (record_bytes r)) rs)) /\
      so_corrupt o = bad rs /\ Forall batch_ok (so_batches o)) as IH'.
    { intros b' c' Hb'. rewrite <- (blen_cat pre (record_bytes r)), (app_assoc pre (record_bytes r)). unfold rest. apply IH; [by rewrite <- app_assoc|cbn in Hf; lia|done]. }
    cbn [delivered]. unfold bad. rewrite filter_cons. destruct (decide (intact r)) as [Hi|Hi].
    + rewrite (decide_False (P := ~ intact r)) by tauto. set (rec := scan_rec (blen pre) r).
      change (mkScanRec _ _ _) with rec. cbv zeta. change (Extent.length (pk_from rec)) with (blen (sd_bytes r)). unfold batch_full. destruct (_ || _) eqn:Eb.
      * destruct (IH' [] 0%Z ltac:(done)) as (o & -> & H1 & H2 & H3 & H4). eexists. split; [reflexivity|]. cbn [add_scanned add_batch scan_corrupt compose so_batches so_scanned so_corrupt concat]. rewrite H1, H2, H3.
        split; [by rewrite <- !app_assoc|]. split; [rewrite length_app; cbn [length]; lia|]. split; [done|]. constructor; [|done]. split; [by destruct batch|]. rewrite length_app. cbn [length]. unfold kMigrateBatchRecs in *. lia.
      * apply orb_false_iff in Eb as [Eb _]. apply Z.leb_gt in Eb.
        destruct (IH' (batch ++ [rec]) (bb + blen (sd_bytes r))%Z Eb) as (o & -> & H1 & H2 & H3 & H4). eexists. split; [reflexivity|]. cbn [add_scanned add_batch scan_corrupt compose so_batches so_scanned so_corrupt concat]. rewrite H1, H2, H3.
        split; [by rewrite <- !app_assoc|]. split; [rewrite length_app; cbn [length]; lia|]. by split.
    + rewrite (decide_True (P := ~ intact r)) by done. destruct (IH' batch bb Hb) as (o & -> & H1 & H2 & H3 & H4). eexists. split; [reflexivity|].
      cbn [add_scanned add_batch scan_corrupt compose so_batches so_scanned so_corrupt concat]. rewrite H1, H2, H3. unfold bad. cbn [length app]. split; [done|]. split; [done|]. split; [lia|done].
Qed.

(** C24: The scan of a pack is exact: of a file of records, the last of them possibly cut short
    by a crash, it delivers exactly the records whose payload still has its checksum, in
    order, each with its owner, its payload and an extent that reads that payload; it
    counts the others as corrupt, and the cut record not at all. Every batch is non-empty
    and within the limit. *)
Theorem pack_scan_exact (rs : list Stored) (torn : Stored) (k : nat)
    (Hrs : Forall stored_ok rs) (Ht : stored_ok torn) (Hk : k < length (record_bytes torn))
    (Hl : (blen (concat (record_bytes <$> rs)) + blen (record_bytes torn) < 2 ^ 62)%Z) :
  exists o, rewrite_scan pack_id (concat (record_bytes <$> rs) ++ take k (record_bytes torn)) = Ok o /\
    concat (so_batches o) = delivered 0 rs /\ so_scanned o = Z.of_nat (length (delivered 0 rs)) /\ so_corrupt o = bad rs /\
    Forall batch_ok (so_batches o).
Proof.
  destruct (scan_spec rs torn k (S (length (concat (record_bytes <$> rs) ++ take k (record_bytes torn)))) [] [] 0 Hrs Ht Hk) as (o & E & H); [done| |done|by exists o].
  rewrite length_app. clear. induction rs as [|r rs IH]; [cbn; lia|]. rewrite fmap_cons, concat_cons, length_app. cbn [length].
  assert (22 <= length (record_bytes r)); [|lia]. unfold record_bytes. rewrite length_app. pose proof (length_header r) as H. unfold blen, kPackHeaderFixed in H. lia.
Qed.

(** The extent of a delivered record reads its payload. *)
Lemma delivered_reads rs pre : forall x, x ∈ delivered (blen pre) rs ->
  pk_payload x = substr (pre ++ concat (record_bytes <$> rs)) (Z.to_nat (Extent.offset (pk_from x))) (Z.to_nat (Extent.length (pk_from x))) /\
  crc32c_of (pk_payload x) = Extent.crc32c (pk_from x).
Proof.
  revert pre. induction rs as [|r rs IH]; intros pre x Hx; cbn [delivered] in Hx; [by apply not_elem_of_nil in Hx|]. rewrite fmap_cons, concat_cons, app_assoc.
  apply elem_of_app in Hx as [Hx|Hx]; [|rewrite <- blen_cat in Hx; by apply IH]. case_decide as Hi; [|by apply not_elem_of_nil in Hx].
  apply list_elem_of_singleton in Hx as ->. cbn [pk_payload pk_from Extent.offset Extent.length Extent.crc32c]. split; [|done].
  replace (Z.to_nat (blen pre + blen (header_of r))) with (length pre + length (header_of r)) by (unfold blen; lia). rewrite blen_nat, <- app_assoc, substr_pre.
  unfold record_bytes. rewrite <- app_assoc. symmetry. by apply substr_at.
Qed.
End scan.

Definition demo_stored : list Stored :=
  [mkStored (bs "a") (crc32c_of (bs "hello")) (bs "hello"); mkStored (bs "b") 0 (bs "xyz"); mkStored (bs "c") (crc32c_of (bs "ok")) (bs "ok")].
Lemma pack_scan_exact_witness : exists o,
  rewrite_scan 7 (concat (record_bytes <$> demo_stored) ++ take 30 (record_bytes (mkStored (bs "d") 0 (bs "never finished")))) = Ok o /\ so_corrupt o = 1%Z.
Proof.
  destruct (pack_scan_exact 7 demo_stored (mkStored (bs "d") 0 (bs "never finished")) 30) as (o & E & _ & _ & H & _).
  - repeat constructor; vm_compute; intuition discriminate.
  - split; vm_compute; intuition discriminate.
  - apply Nat.ltb_lt. vm_compute. reflexivity.
  - apply Z.ltb_lt. vm_compute. reflexivity.
  - exists o. split; [exact E|]. rewrite H. vm_compute. reflexivity.
Defined.

(** * Two defects *)

(** A header whose length field is damaged can make the sum of offset and lengths wrap:
    the scan then fails with an exception, instead of ending at a torn or corrupt record. *)
Lemma scan_length_overflow :
  rewrite_scan 7 (kPackMagic ++ [zb 1; zb 0] ++ le_bytes 2 22 ++ le_bytes 8 (2 ^ 64 - 22) ++ le_bytes 4 0 ++ le_bytes 2 0) = Throw LengthError.
Proof. vm_compute. reflexivity. Qed.

(** The rest of a longer append that failed, behind a shorter one that was then written
    over it, is counted as a corrupt record. *)
Definition overwritten_tail : bytes :=
  let long := pack_record (bs "a") (bs "a payload that was not finished") in let short := pack_record (bs "b") (bs "x") in
  short ++ drop (length short) (take 50 long).
Lemma scan_stale_tail : match rewrite_scan 7 overwritten_tail with Ok o => so_corrupt o = 1%Z | Throw _ => False end.
Proof. vm_compute. reflexivity. Qed.
