(* ===== verification/DuoWorld.v ===== *)
(** DuoStore's shared state as the garbage collector sees it: the pin table and the
    registry of operations in flight ([PinTable], [InFlightClock] in
    [src/src/storage/duostore/duostore_backend.cc]), and the data plane as an interface
    ([IDataStore] in [src/src/storage/duostore/data_store.h]). *)

From S2P Require Import Prelude Bytes Backend Codec MetaUtil RocksDb RocksMeta.
From Stdlib Require Import ZArith Lia.
From stdpp Require Import base list gmap sets relations sorting.
Open Scope lights3_scope.

(** * Pins

    The table is sharded by id; a pin touches one id, so the shards are one map here. *)
Record PinTable := mkPins { chunk_refs : gmap Z Z; pack_refs : gmap Z Z }.
Record Handle := mkHandle { h_is_pack : bool; h_file_id : Z }.

Definition pin_refs (is_pack : bool) (t : PinTable) : gmap Z Z := if is_pack then pack_refs t else chunk_refs t.
Definition set_pin_refs (is_pack : bool) (m : gmap Z Z) (t : PinTable) : PinTable :=
  if is_pack then mkPins (chunk_refs t) m else mkPins m (pack_refs t).

Definition pin_key (is_pack : bool) (id : Z) (t : PinTable) : PinTable :=
  set_pin_refs is_pack (<[id := (default 0 (pin_refs is_pack t !! id) + 1)%Z]> (pin_refs is_pack t)) t.
Definition unpin_key (is_pack : bool) (id : Z) (t : PinTable) : PinTable :=
  match pin_refs is_pack t !! id with
  | None => t
  | Some n => set_pin_refs is_pack (if (n - 1 <=? 0)%Z then delete id (pin_refs is_pack t)
                                    else <[id := (n - 1)%Z]> (pin_refs is_pack t)) t
  end.
Definition pinned_key (is_pack : bool) (id : Z) (t : PinTable) : bool := bool_decide (is_Some (pin_refs is_pack t !! id)).

Definition handle_of (e : Extent.t) : Handle := mkHandle (is_pack e) (Extent.file_id e).
Definition pin (es : DataRef) (t : PinTable) : list Handle * PinTable :=
  (handle_of <$> es, fold_left (λ t e, pin_key (is_pack e) (Extent.file_id e) t) es t).
Definition unpin (hs : list Handle) (t : PinTable) : PinTable :=
  fold_left (λ t h, unpin_key (h_is_pack h) (h_file_id h) t) hs t.
Definition pin_id (id : Z) (t : PinTable) : PinTable := pin_key false id t.
Definition unpin_id (id : Z) (t : PinTable) : PinTable := unpin_key false id t.
Definition any_pinned (es : DataRef) (t : PinTable) : bool := existsb (λ e, pinned_key (is_pack e) (Extent.file_id e) t) es.
Definition pinned_chunk (id : Z) (t : PinTable) : bool := pinned_key false id t.
Definition pinned_pack (id : Z) (t : PinTable) : bool := pinned_key true id t.

(** * Operations in flight

    [begin] reads the clock before it takes the lock: the reading is an argument. *)
Record InFlight := mkInFlight { next_ticket : Z; active : gmap Z Z }.
Definition flight_begin (now : Z) (c : InFlight) : Z * InFlight :=
  (next_ticket c, mkInFlight (next_ticket c + 1) (<[next_ticket c := now]> (active c))).
Definition flight_end (ticket : Z) (c : InFlight) : InFlight := mkInFlight (next_ticket c) (delete ticket (active c)).
Definition oldest_or (fallback : Z) (c : InFlight) : Z :=
  match map_items Z.le (active c) with [] => fallback | (_, t) :: _ => t end.

(** * The data plane *)
Record GcRewrite := mkRewrite { scanned : Z; migrated : Z; corrupt : Z; rw_file_size : Z }.

(** The metadata store, the state of the data plane and the pins. *)
Record World (DB D : Type) := mkWorld { w_meta : Meta DB; w_data : D; w_pins : PinTable }.
Arguments mkWorld {DB D} _ _ _.
Arguments w_meta {DB D} _.
Arguments w_data {DB D} _.
Arguments w_pins {DB D} _.

(** The calls the collector makes. Sealing and rewriting call back into the metadata
    store and the pins. *)
Class DataStore (DB D : Type) := {
  ds_remove : DataRef -> D -> result unit * D;
  ds_remove_pack : Z -> D -> result unit * D;
  ds_stat_pack : Z -> D -> Z;
  ds_pack_write_locked : Z -> D -> bool;
  ds_scan_chunks : D -> result (list (Z * Z * Z));
  ds_scan_packs : D -> result (list (Z * Z * Z));
  ds_seal_aged_packs : Z -> World DB D -> result Z * World DB D;
  ds_rewrite_pack : Z -> World DB D -> result GcRewrite * World DB D }.

Definition on_meta {DB D A} (m : ST (Meta DB) S3ErrorCode A) (w : World DB D) : result A * World DB D :=
  let '(r, s) := m (w_meta w) in (r, mkWorld s (w_data w) (w_pins w)).
Definition on_data {DB D A} (m : D -> result A * D) (w : World DB D) : result A * World DB D :=
  let '(r, d) := m (w_data w) in (r, mkWorld (w_meta w) d (w_pins w)).

(** * Counting pins *)

(** A pin table that counts: an entry is a positive number. *)
Definition pin_count (p : bool) (id : Z) (t : PinTable) : Z := default 0%Z (pin_refs p t !! id).
Definition pins_ok (t : PinTable) : Prop := forall p id n, pin_refs p t !! id = Some n -> (0 < n)%Z.

Lemma pin_refs_set p q m t : pin_refs p (set_pin_refs q m t) = if bool_decide (p = q) then m else pin_refs p t.
Proof. by destruct p, q. Qed.

Lemma pin_count_pin p q id i t :
  pin_count p i (pin_key q id t) = (pin_count p i t + if bool_decide (p = q /\ i = id) then 1 else 0)%Z.
Proof.
  unfold pin_count, pin_key. rewrite pin_refs_set. destruct (decide (p = q)) as [->|Hpq].
  - rewrite bool_decide_true by done. destruct (decide (i = id)) as [->|Hi].
    + rewrite lookup_insert_eq, (bool_decide_true (q = q /\ id = id)) by done. done.
    + rewrite lookup_insert_ne, (bool_decide_false (q = q /\ i = id)) by naive_solver. lia.
  - rewrite bool_decide_false, (bool_decide_false (p = q /\ i = id)) by naive_solver. lia.
Qed.
Lemma pin_count_unpin p q id i t :
  pins_ok t -> pin_count p i (unpin_key q id t) = (pin_count p i t - if bool_decide (p = q /\ i = id /\ (0 < pin_count q id t)%Z) then 1 else 0)%Z.
Proof.
  intros Hok. unfold unpin_key. destruct (pin_refs q t !! id) as [n|] eqn:En.
  2: { rewrite bool_decide_false; [lia|]. unfold pin_count. rewrite En. cbn. lia. }
  pose proof (Hok q id n En) as Hn. unfold pin_count. rewrite pin_refs_set, En. cbn [default from_option].
  destruct (decide (p = q)) as [->|Hpq].
  2: { rewrite bool_decide_false, bool_decide_false by naive_solver. lia. }
  rewrite bool_decide_true by done. destruct (decide (i = id)) as [->|Hi].
  - rewrite (bool_decide_true (q = q /\ id = id /\ _)) by done. rewrite En. cbn.
    destruct (Z.leb_spec (n - 1) 0); [rewrite lookup_delete_eq; cbn; lia|by rewrite lookup_insert_eq].
  - rewrite bool_decide_false by naive_solver. destruct (n - 1 <=? 0)%Z; [rewrite lookup_delete_ne by done|rewrite lookup_insert_ne by done]; lia.
Qed.

Lemma pins_ok_pin p id t : pins_ok t -> pins_ok (pin_key p id t).
Proof.
  intros Hok q i n. unfold pin_key. rewrite pin_refs_set. case_bool_decide; [subst q|by apply Hok].
  intros [[<- <-]|[_ Hi]]%lookup_insert_Some; [|by apply (Hok p i)].
  destruct (pin_refs p t !! id) as [m|] eqn:Em; cbn; [specialize (Hok p id m Em)|]; lia.
Qed.
Lemma pins_ok_unpin p id t : pins_ok t -> pins_ok (unpin_key p id t).
Proof.
  intros Hok q i n. unfold unpin_key. destruct (pin_refs p t !! id) as [m|] eqn:Em; [|by apply Hok].
  rewrite pin_refs_set. case_bool_decide; [subst q|by apply Hok].
  destruct (Z.leb_spec (m - 1) 0); [intros [_ Hi]%lookup_delete_Some; by apply (Hok p i)|].
  intros [[<- <-]|[_ Hi]]%lookup_insert_Some; [lia|by apply (Hok p i)].
Qed.

Lemma pinned_count p id t : pins_ok t -> pinned_key p id t = true <-> (0 < pin_count p id t)%Z.
Proof.
  intros Hok. unfold pinned_key, pin_count. rewrite bool_decide_eq_true. split.
  - intros [n Hn]. rewrite Hn. cbn. by apply (Hok p id).
  - destruct (pin_refs p t !! id); cbn; [by eexists|lia].
Qed.

(** ** Readers and writers that pin

    The handle lists taken out and not yet given back, beside the table. *)
Inductive pin_step : PinTable * list (list Handle) -> PinTable * list (list Handle) -> Prop :=
| PinTake es t out : pin_step (t, out) ((pin es t).2, (pin es t).1 :: out)
| PinOne id t out : pin_step (t, out) (pin_id id t, [mkHandle false id] :: out)
| PinGive hs t out1 out2 : pin_step (t, out1 ++ hs :: out2) (unpin hs t, out1 ++ out2).

Definition holds (p : bool) (id : Z) (hs : list Handle) : Z :=
  Z.of_nat (length (base.filter (λ h, h_is_pack h = p /\ h_file_id h = id) hs)).

Lemma holds_nil p id : holds p id [] = 0%Z.
Proof. done. Qed.
Lemma holds_cons p id h hs :
  holds p id (h :: hs) = ((if bool_decide (p = h_is_pack h /\ id = h_file_id h) then 1 else 0) + holds p id hs)%Z.
Proof. unfold holds. rewrite filter_cons. repeat case_decide; case_bool_decide; cbn [length]; try lia; naive_solver. Qed.
Lemma holds_app p id a b : holds p id (a ++ b) = (holds p id a + holds p id b)%Z.
Proof. unfold holds. rewrite filter_app, length_app. lia. Qed.
Lemma holds_nonneg p id hs : (0 <= holds p id hs)%Z.
Proof. unfold holds. lia. Qed.
#[local] Hint Rewrite holds_nil holds_cons holds_app : holds.

Lemma pin_all p id es t :
  pins_ok t -> pins_ok (pin es t).2 /\ pin_count p id (pin es t).2 = (pin_count p id t + holds p id (pin es t).1)%Z.
Proof.
  unfold pin. cbn [fst snd]. revert t. induction es as [|e es IH]; intros t Hok; cbn [fold_left fmap list_fmap]; [rewrite holds_nil; split; [done|lia]|].
  destruct (IH (pin_key (is_pack e) (Extent.file_id e) t) (pins_ok_pin _ _ _ Hok)) as [H1 H2]. split; [done|].
  rewrite H2, pin_count_pin, holds_cons. cbn. lia.
Qed.

Lemma unpin_all p id hs t :
  pins_ok t -> (forall q i, holds q i hs <= pin_count q i t)%Z ->
  pins_ok (unpin hs t) /\ pin_count p id (unpin hs t) = (pin_count p id t - holds p id hs)%Z.
Proof.
  unfold unpin. revert t. induction hs as [|h hs IH]; intros t Hok Hle; cbn [fold_left]; [rewrite holds_nil; split; [done|lia]|].
  assert (forall q i, pin_count q i (unpin_key (h_is_pack h) (h_file_id h) t) =
    pin_count q i t - if bool_decide (q = h_is_pack h /\ i = h_file_id h) then 1 else 0)%Z as Hc.
  { intros q i. rewrite pin_count_unpin by done. f_equal. specialize (Hle (h_is_pack h) (h_file_id h)). rewrite holds_cons in Hle.
    pose proof (holds_nonneg (h_is_pack h) (h_file_id h) hs). rewrite bool_decide_true in Hle by done.
    destruct (decide (q = h_is_pack h /\ i = h_file_id h)) as [[-> ->]|Hn]; [rewrite !bool_decide_true by (split_and!; done || lia)|rewrite !bool_decide_false by tauto]; done. }
  destruct (IH (unpin_key (h_is_pack h) (h_file_id h) t)) as [H1 H2]; [by apply pins_ok_unpin| |].
  - intros q i. specialize (Hle q i). rewrite holds_cons in Hle. rewrite Hc. lia.
  - split; [done|]. rewrite H2, Hc, holds_cons. lia.
Qed.

Definition pins_of (x : PinTable * list (list Handle)) : Prop :=
  pins_ok x.1 /\ forall p id, pin_count p id x.1 = holds p id (concat x.2).

Lemma pin_step_of x y : pin_step x y -> pins_of x -> pins_of y.
Proof.
  intros [es t out|i t out|hs t out1 out2] [Hok Hc]; cbn [fst snd] in *.
  - split; [by apply (pin_all true 0)|]. intros p id. cbn [fst snd concat]. destruct (pin_all p id es t Hok) as [_ ->]. rewrite holds_app, Hc. lia.
  - split; [by apply pins_ok_pin|]. intros p id. cbn [fst snd concat]. unfold pin_id. rewrite pin_count_pin, holds_app, holds_cons, holds_nil, Hc. cbn. lia.
  - assert (forall q j, holds q j hs <= pin_count q j t)%Z as Hle.
    { intros q j. rewrite Hc. change (hs :: out2) with ([hs] ++ out2). rewrite !concat_app, !holds_app. cbn. rewrite app_nil_r.
      pose proof (holds_nonneg q j (concat out1)). pose proof (holds_nonneg q j (concat out2)). lia. }
    split; [by apply (unpin_all true 0)|]. intros p id. cbn [fst snd]. destruct (unpin_all p id hs t Hok Hle) as [_ ->].
    rewrite Hc. change (hs :: out2) with ([hs] ++ out2). rewrite !concat_app, !holds_app. cbn. rewrite app_nil_r. lia.
Qed.

(** The pin table is exact: whatever readers and writers take and give back, in whatever
    order, a file reads as pinned exactly while some of them holds it. *)
Theorem pins_exact x (Hx : rtc pin_step (mkPins ∅ ∅, []) x) (p : bool) (id : Z) :
  pinned_key p id x.1 = true <-> exists hs, hs ∈ x.2 /\ mkHandle p id ∈ hs.
Proof.
  assert (pins_of x) as [Hok Hc].
  { assert (pins_of (mkPins ∅ ∅, [])) as H0.
    { split; [by intros [] i n Hn; cbn in Hn; rewrite lookup_empty in Hn|]. intros [] i; unfold pin_count; cbn; by rewrite lookup_empty. }
    revert H0. induction Hx as [x|x y z Hs _ IH]; [done|]. intros Hx. apply IH. by eapply pin_step_of. }
  rewrite pinned_count, Hc by done. unfold holds. split.
  - destruct (base.filter _ (concat x.2)) as [|h l] eqn:E; cbn; [lia|]. intros _.
    assert (h ∈ base.filter (λ h, h_is_pack h = p /\ h_file_id h = id) (concat x.2)) as Hh by (rewrite E; left).
    apply list_elem_of_filter in Hh as [[<- <-] Hh]. apply list_elem_of_In, in_concat in Hh as (hs & Hhs & Hin).
    exists hs. split; [by apply list_elem_of_In|]. apply list_elem_of_In. by destruct h.
  - intros (hs & Hhs & Hin). assert (mkHandle p id ∈ base.filter (λ h, h_is_pack h = p /\ h_file_id h = id) (concat x.2)) as Hh.
    { apply list_elem_of_filter. split; [done|]. apply list_elem_of_In, in_concat. exists hs. split; by apply list_elem_of_In. }
    destruct (base.filter _ (concat x.2)); [by apply not_elem_of_nil in Hh|]. cbn. lia.
Qed.

(** ** The oldest operation in flight

    The clock, the readings taken by operations that have not registered yet, the
    registry, and when each ticket was registered. *)
Record Flights := mkFlights { fl_now : Z; fl_read : list Z; fl_reg : InFlight; fl_at : gmap Z Z }.
Inductive flight_step : Flights -> Flights -> Prop :=
| FlTick now' now rd reg at_ : (now <= now')%Z -> flight_step (mkFlights now rd reg at_) (mkFlights now' rd reg at_)
| FlRead now rd reg at_ : flight_step (mkFlights now rd reg at_) (mkFlights now (now :: rd) reg at_)
| FlBegin t rd1 rd2 now reg at_ :
    flight_step (mkFlights now (rd1 ++ t :: rd2) reg at_)
                (mkFlights now (rd1 ++ rd2) (flight_begin t reg).2 (<[(flight_begin t reg).1 := now]> at_))
| FlEnd k now rd reg at_ : flight_step (mkFlights now rd reg at_) (mkFlights now rd (flight_end k reg) at_).

Record flights_ok (x : Flights) : Prop := mkFlightsOk {
  fo_read : Forall (λ t, t <= fl_now x)%Z (fl_read x);
  fo_at : forall k, is_Some (active (fl_reg x) !! k) -> is_Some (fl_at x !! k);
  fo_start : forall k t a, active (fl_reg x) !! k = Some t -> fl_at x !! k = Some a -> (t <= a)%Z;
  fo_next : forall k a, fl_at x !! k = Some a -> (k < next_ticket (fl_reg x))%Z /\ (a <= fl_now x)%Z;
  fo_mono : forall k1 k2 a1 a2, (k1 <= k2)%Z -> fl_at x !! k1 = Some a1 -> fl_at x !! k2 = Some a2 -> (a1 <= a2)%Z }.

Lemma flight_step_ok x y : flight_step x y -> flights_ok x -> flights_ok y.
Proof.
  intros [n' n rd reg at_ Hle|n rd reg at_|t rd1 rd2 n reg at_|k n rd reg at_] [H1 H2 H3 H4 H5]; cbn in *.
  - split; cbn; try done; [eapply list.Forall_impl; [exact H1|]; cbn; lia|]. intros k a Ha. specialize (H4 k a Ha). lia.
  - split; cbn; try done. constructor; [lia|done].
  - apply list.Forall_app in H1 as [Ha [Ht Hb]%list.Forall_cons].
    assert (forall k a, at_ !! k = Some a -> (k < next_ticket reg)%Z /\ k <> next_ticket reg /\ (a <= n)%Z) as Hn
      by (intros k a Hk; destruct (H4 k a Hk); lia).
    split; cbn.
    + by apply list.Forall_app.
    + intros k. rewrite !lookup_insert_is_Some'. intros [?|?]; auto.
    + intros k t' a. rewrite !lookup_insert_Some. intros [[<- <-]|[Hne Hk]] [[Hk' <-]|[Hne' Hk']]; [done|done|done|by eapply H3].
    + intros k a. rewrite lookup_insert_Some. intros [[<- <-]|[Hne Hk]]; [lia|]. destruct (Hn k a Hk). lia.
    + intros k1 k2 a1 a2 Hle. rewrite !lookup_insert_Some. intros [[<- <-]|[Hne Hk]] [[Hk' <-]|[Hne' Hk']]; [done| | |by eapply H5].
      * destruct (Hn k2 a2 Hk'). lia.
      * by destruct (Hn k1 a1 Hk) as (_ & _ & ?).
  - split; cbn; try done.
    + intros i [v [_ Hv]%lookup_delete_Some]. by apply H2.
    + intros i t a [_ Hv]%lookup_delete_Some. by apply H3.
Qed.

(** The published floor is sound: while an operation is in flight, the floor is not later
    than the moment the operation registered, which precedes everything it reads. *)
Theorem flight_floor_sound x (Hx : rtc flight_step (mkFlights 0 [] (mkInFlight 1 ∅) ∅) x) (k a fallback : Z)
    (Hk : is_Some (active (fl_reg x) !! k)) (Ha : fl_at x !! k = Some a) :
  (oldest_or fallback (fl_reg x) <= a)%Z.
Proof.
  assert (flights_ok x) as [H1 H2 H3 H4 H5].
  { assert (flights_ok (mkFlights 0 [] (mkInFlight 1 ∅) ∅)) as H0.
    { split; cbn; [done|by intros i [v Hv]|done..]. }
    revert H0. clear Hk Ha. induction Hx as [x|x y z Hs _ IH]; [done|]. intros Hx. apply IH. by eapply flight_step_ok. }
  destruct Hk as [t Ht]. unfold oldest_or. pose proof (map_items_sorted Z.le (active (fl_reg x))) as Hs.
  apply (map_items_elem Z.le) in Ht as Hin. destruct (map_items Z.le (active (fl_reg x))) as [|[k0 t0] l] eqn:E; [by apply not_elem_of_nil in Hin|].
  assert (active (fl_reg x) !! k0 = Some t0) as H0 by (apply (map_items_elem Z.le); rewrite E; left).
  destruct (H2 k0 ltac:(by eexists)) as [a0 Ha0]. specialize (H3 k0 t0 a0 H0 Ha0).
  assert (k0 <= k)%Z as Hle.
  { apply elem_of_cons in Hin as [[= -> ->]|Hin]; [done|]. cbn in Hs. apply StronglySorted_inv in Hs as [_ Hall].
    rewrite list.Forall_forall in Hall. by destruct (Hall k ltac:(apply list_elem_of_fmap; by exists (k, t))). }
  specialize (H5 k0 k a0 a Hle Ha0 Ha). lia.
Qed.

(** The floor need not be the least start: an operation that read the clock first may
    register last. *)
Lemma oldest_not_least :
  exists x, rtc flight_step (mkFlights 0 [] (mkInFlight 1 ∅) ∅) x /\ active (fl_reg x) !! 2%Z = Some 0%Z /\ oldest_or 9 (fl_reg x) = 1%Z.
Proof.
  eexists (mkFlights 1 [] (mkInFlight 3 (<[2%Z := 0%Z]> (<[1%Z := 1%Z]> ∅))) (<[2%Z := 1%Z]> (<[1%Z := 1%Z]> ∅))). split_and!; [|done|by vm_compute].
  eapply rtc_l; [apply FlRead|]. eapply rtc_l; [by apply (FlTick 1)|]. eapply rtc_l; [apply FlRead|].
  eapply rtc_l; [apply (FlBegin 1 [])|]. eapply rtc_l; [apply (FlBegin 0 [])|]. apply rtc_refl.
Qed.

Definition two_readers : PinTable * list (list Handle) :=
  let e := Extent.mk Extent.kChunk 4 0 8 0 in let t1 := (pin [e] (mkPins ∅ ∅)).2 in
  (unpin (handle_of <$> [e]) (pin [e] t1).2, [handle_of <$> [e]]).
Lemma pins_exact_witness : pinned_key false 4 two_readers.1 = true.
Proof.
  apply (pins_exact two_readers).
  - eapply rtc_l; [apply (PinTake [Extent.mk Extent.kChunk 4 0 8 0])|]. eapply rtc_l; [apply (PinTake [Extent.mk Extent.kChunk 4 0 8 0])|].
    eapply rtc_l; [apply (PinGive _ _ [])|]. apply rtc_refl.
  - exists [mkHandle false 4]. split; left.
Defined.

Definition one_flight : Flights := mkFlights 3 [] (flight_begin 3 (mkInFlight 1 ∅)).2 (<[1%Z := 3%Z]> ∅).
Lemma flight_floor_sound_witness : (oldest_or 9 (fl_reg one_flight) <= 3)%Z.
Proof.
  apply (flight_floor_sound one_flight) with (k := 1%Z).
  - eapply rtc_l; [by apply (FlTick 3)|]. eapply rtc_l; [apply FlRead|]. eapply rtc_l; [apply (FlBegin 3 [])|]. apply rtc_refl.
  - vm_compute. by eexists.
  - reflexivity.
Defined.
