(* ===== verification/FsData.v ===== *)
(** The file data plane of DuoStore ([FsDataStore], [ChunkWriter] and [FsPackedWriter] in
    [src/src/storage/duostore/fs_data_store.cc]), on its blocking path (no io_uring).

    The disk is a map from file ids to contents. Each system call takes one turn of the
    oracle [sys]: [None] is an error, [Some w] a call that moves [S w] bytes, or all that
    was asked for. An exception leaves the state as it is at that point. The allocator and
    the sealing callback are those of the metadata store and belong to its state [M]; the
    pins are those of the backend. Sizes stay below 2^63, as file sizes do, and are not
    reduced. *)

From S2P Require Import Prelude Bytes Checksum Backend Codec MetaUtil RocksMeta FsPack DuoWorld.
From Stdlib Require Import ZArith Lia.
From stdpp Require Import base list gmap sets strings.
Import Crc.
Open Scope lights3_scope.

Record FsDataOptions := mkFsOptions {
  chunk_size : Z; verify_chunk_crc : bool; pack_threshold : Z; pack_max_size : Z; pack_max_age_sec : Z }.

(** An active pack: [fd], its lock, the id, the append offset and when it was opened. *)
Record ActivePack := mkSlot { sl_fd : bool; sl_locked : bool; sl_id : Z; sl_size : Z; sl_opened : Z }.
Definition no_slot : ActivePack := mkSlot false false 0 0 0.

Record Disk := mkDisk { d_chunks : gmap Z bytes; d_packs : gmap Z bytes }.

Record Fs (M : Type) := mkFs {
  disk : Disk; dirs : gset (bool * Z); slots : list ActivePack; pack_rr : Z; seal_retry : list (Z * Z);
  hooked : M; fs_pins : PinTable; ticks : nat }.
Arguments mkFs {M} _ _ _ _ _ _ _ _.
Arguments disk {M} _.
Arguments dirs {M} _.
Arguments slots {M} _.
Arguments pack_rr {M} _.
Arguments seal_retry {M} _.
Arguments hooked {M} _.
Arguments fs_pins {M} _.
Arguments ticks {M} _.

(** The callbacks into the metadata store. *)
Class FsHooks (M : Type) := {
  alloc_ : Extent.Kind -> Z -> M -> result Z * M;
  seal_ : Z -> Z -> M -> result unit * M }.

Definition shard_of (id : Z) : Z := Z.land (Z.shiftr id 8) 0xff.

(** [pwrite] of [data] at offset [off]: a gap reads as zeros. *)
Definition overwrite (off : nat) (data file : bytes) : bytes :=
  take off (file ++ repeat (zb 0) (off - length file)) ++ data ++ drop (off + length data) file.

Section setters.
Context {M : Type}.
Definition set_disk (d : Disk) (s : Fs M) : Fs M := mkFs d (dirs s) (slots s) (pack_rr s) (seal_retry s) (hooked s) (fs_pins s) (ticks s).
Definition set_dirs (x : gset (bool * Z)) (s : Fs M) : Fs M := mkFs (disk s) x (slots s) (pack_rr s) (seal_retry s) (hooked s) (fs_pins s) (ticks s).
Definition set_slots (x : list ActivePack) (s : Fs M) : Fs M := mkFs (disk s) (dirs s) x (pack_rr s) (seal_retry s) (hooked s) (fs_pins s) (ticks s).
Definition set_rr (x : Z) (s : Fs M) : Fs M := mkFs (disk s) (dirs s) (slots s) x (seal_retry s) (hooked s) (fs_pins s) (ticks s).
Definition set_retry (x : list (Z * Z)) (s : Fs M) : Fs M := mkFs (disk s) (dirs s) (slots s) (pack_rr s) x (hooked s) (fs_pins s) (ticks s).
Definition set_hooked (m : M) (s : Fs M) : Fs M := mkFs (disk s) (dirs s) (slots s) (pack_rr s) (seal_retry s) m (fs_pins s) (ticks s).
Definition set_pins (p : PinTable) (s : Fs M) : Fs M := mkFs (disk s) (dirs s) (slots s) (pack_rr s) (seal_retry s) (hooked s) p (ticks s).
Definition turn (s : Fs M) : Fs M := mkFs (disk s) (dirs s) (slots s) (pack_rr s) (seal_retry s) (hooked s) (fs_pins s) (S (ticks s)).

Definition set_chunks (c : gmap Z bytes) (s : Fs M) : Fs M := set_disk (mkDisk c (d_packs (disk s))) s.
Definition set_packs (p : gmap Z bytes) (s : Fs M) : Fs M := set_disk (mkDisk (d_chunks (disk s)) p) s.
End setters.

(** * Writers *)
Record ChunkWriter := mkCw {
  extents : DataRef; pinned : list Z; touched : list Z; cw_fd : bool; cur_id : Z; cur_len : Z; cur_crc : Z;
  run_next : Z; run_limit : Z; run_len : Z; finished : bool }.
Definition new_writer : ChunkWriter := mkCw [] [] [] false 0 0 0 0 0 0 false.

Definition set_run_len (n : Z) (w : ChunkWriter) : ChunkWriter :=
  mkCw (extents w) (pinned w) (touched w) (cw_fd w) (cur_id w) (cur_len w) (cur_crc w) (run_next w) (run_limit w) n (finished w).
Definition set_run (a b : Z) (w : ChunkWriter) : ChunkWriter :=
  mkCw (extents w) (pinned w) (touched w) (cw_fd w) (cur_id w) (cur_len w) (cur_crc w) a b (run_len w) (finished w).
Definition take_id (w : ChunkWriter) : ChunkWriter :=
  mkCw (extents w) (pinned w) (touched w) (cw_fd w) (run_next w) (cur_len w) (cur_crc w) (run_next w + 1) (run_limit w) (run_len w) (finished w).
Definition add_pinned (w : ChunkWriter) : ChunkWriter :=
  mkCw (extents w) (pinned w ++ [cur_id w]) (touched w) (cw_fd w) (cur_id w) (cur_len w) (cur_crc w) (run_next w) (run_limit w) (run_len w) (finished w).
Definition opened_chunk (w : ChunkWriter) : ChunkWriter :=
  mkCw (extents w) (pinned w) (shard_of (cur_id w) :: touched w) true (cur_id w) 0 0 (run_next w) (run_limit w) (run_len w) (finished w).
Definition advanced (b : bytes) (w : ChunkWriter) : ChunkWriter :=
  mkCw (extents w) (pinned w) (touched w) (cw_fd w) (cur_id w) (cur_len w + blen b) (crc32c_update (cur_crc w) b) (run_next w) (run_limit w) (run_len w) (finished w).
Definition sealed_chunk (w : ChunkWriter) : ChunkWriter :=
  mkCw (extents w ++ [Extent.mk Extent.kChunk (cur_id w) 0 (cur_len w) (cur_crc w)]) (pinned w) (touched w) false
    (cur_id w) (cur_len w) (cur_crc w) (run_next w) (run_limit w) (run_len w) (finished w).
Definition done_writer (w : ChunkWriter) : ChunkWriter :=
  mkCw [] (pinned w) (touched w) (cw_fd w) (cur_id w) (cur_len w) (cur_crc w) (run_next w) (run_limit w) (run_len w) true.

Record FsPackedWriter := mkPw { pw_owner : bytes; pw_buf : bytes; pw_spill : option ChunkWriter }.
Inductive DataWriter := WChunk (w : ChunkWriter) | WPacked (w : FsPackedWriter).

Record PackAppendItem := mkItem { it_owner : bytes; it_payload : bytes }.

Section store.
Context {M : Type} {hooks : FsHooks M}.
Context (opt : FsDataOptions) (sys : nat -> option nat) (clock : nat -> Z) (busy : nat -> nat -> bool) (foreign : Z -> bool).
Abbreviation F := (ST (Fs M) S3ErrorCode).

Definition fs_modify (f : Fs M -> Fs M) : F unit := λ s, (Ok tt, f s).
Definition syscall : F (option nat) := λ s, (Ok (sys (ticks s)), turn s).
(** A call that fails is thrown ([throw_errno]). *)
Definition must : F unit := r ← syscall; match r with Some _ => mret tt | None => throw InternalError end.
Definition steady_now : F Z := λ s, (Ok (clock (ticks s)), turn s).
Definition hook {A} (f : M -> result A * M) : F A := λ s, let '(r, m) := f (hooked s) in (r, set_hooked m s).

(** [subdir_fd]: the directory is made and opened once. *)
Definition subdir_fd (is_pack : bool) (shard : Z) : F unit :=
  s ← get_st;
  if bool_decide ((is_pack, shard) ∈ dirs s) then mret tt
  else _ ← must; _ ← must; fs_modify (λ s', set_dirs ({[(is_pack, shard)]} ∪ dirs s') s').

(** * Chunks *)

(** [open] with [O_CREAT | O_EXCL]. *)
Definition create_chunk (id : Z) : F unit :=
  _ ← must;
  s ← get_st;
  if bool_decide (is_Some (d_chunks (disk s) !! id)) then throw InternalError
  else fs_modify (λ s', set_chunks (<[id := []]> (d_chunks (disk s'))) s').
(** A best-effort [unlink]. *)
Definition unlink_chunk (id : Z) : F unit :=
  r ← syscall; match r with Some _ => fs_modify (λ s, set_chunks (delete id (d_chunks (disk s))) s) | None => mret tt end.

(** [write_full]: each call moves at least one byte, so as many turns as bytes do. *)
Fixpoint write_loop (fuel : nat) (id : Z) (data : bytes) : F unit :=
  match fuel, data with
  | S f, _ :: _ =>
      r ← syscall;
      match r with
      | None => throw InternalError
      | Some w =>
          let k := Nat.min (length data) (S w) in
          _ ← fs_modify (λ s, set_chunks (alter (λ c, c ++ take k data) id (d_chunks (disk s))) s);
          write_loop f id (drop k data)
      end
  | _, _ => mret tt
  end.
Definition write_full (id : Z) (data : bytes) : F unit := write_loop (length data) id data.

(** ** The writer: its own state is beside the store's *)
Abbreviation C := (ST (Fs M * ChunkWriter) S3ErrorCode).
Definition on_fs {A} (m : F A) : C A := λ x, let '(r, s) := m x.1 in (r, (s, x.2)).
Definition get_w : C ChunkWriter := λ x, (Ok x.2, x).
Definition set_w (f : ChunkWriter -> ChunkWriter) : C unit := λ x, (Ok tt, (x.1, f x.2)).

Definition next_run (n : Z) : Z := if (n =? 0)%Z then 1 else Z.min (n * 2) kMaxIdRun.
Definition refill_run : C unit :=
  w ← get_w;
  if (run_next w =? run_limit w)%Z then
    _ ← set_w (set_run_len (next_run (run_len w)));
    first ← on_fs (hook (alloc_ Extent.kChunk (next_run (run_len w))));
    set_w (set_run first (first + next_run (run_len w)))
  else mret tt.
Definition open_next_chunk : C unit :=
  _ ← refill_run;
  _ ← set_w take_id;
  w ← get_w;
  _ ← on_fs (fs_modify (λ s, set_pins (pin_id (cur_id w) (fs_pins s)) s));
  _ ← set_w add_pinned;
  _ ← on_fs (subdir_fd false (shard_of (cur_id w)));
  _ ← on_fs (create_chunk (cur_id w));
  set_w opened_chunk.
Definition seal_chunk : C unit := _ ← on_fs must; set_w sealed_chunk.

(** One turn of the loop of [write]: what fits into the current chunk; the bytes taken. *)
Definition write_turn (buf : bytes) : C nat :=
  w0 ← get_w;
  _ ← (if cw_fd w0 then mret tt else open_next_chunk);
  w ← get_w;
  let n := Z.to_nat (Z.min (chunk_size opt - cur_len w) (blen buf)) in
  _ ← on_fs (write_full (cur_id w) (take n buf));
  _ ← set_w (advanced (take n buf));
  w' ← get_w;
  _ ← (if (cur_len w' =? chunk_size opt)%Z then seal_chunk else mret tt);
  mret n.
Fixpoint chunk_write_loop (fuel : nat) (buf : bytes) : C unit :=
  match fuel, buf with
  | S f, _ :: _ => n ← write_turn buf; chunk_write_loop f (drop n buf)
  | _, _ => mret tt
  end.
Definition chunk_write (buf : bytes) : C unit := chunk_write_loop (length buf) buf.

Fixpoint sync_dirs (l : list Z) : F unit :=
  match l with [] => mret tt | _ :: l' => _ ← must; sync_dirs l' end.
Definition chunk_finish : C DataRef :=
  w0 ← get_w;
  _ ← (if cw_fd w0 then seal_chunk else mret tt);
  w ← get_w;
  _ ← on_fs (sync_dirs (base.filter (λ s, s ∈ touched w) (seqZ 0 256)));
  _ ← set_w done_writer;
  mret (extents w).

(** The destructor. *)
Fixpoint unlink_all (l : DataRef) : F unit :=
  match l with [] => mret tt | e :: l' => _ ← unlink_chunk (Extent.file_id e); unlink_all l' end.
Definition chunk_discard (w : ChunkWriter) : F unit :=
  if finished w then mret tt
  else
    _ ← (if cw_fd w then unlink_chunk (cur_id w) else mret tt);
    _ ← unlink_all (extents w);
    fs_modify (λ s, set_pins (fold_left (λ t id, unpin_id id t) (pinned w) (fs_pins s)) s).

(** * Packs *)
Definition get_slot (k : nat) : F ActivePack := λ s, (Ok (default no_slot (slots s !! k)), s).
Definition set_slot (k : nat) (sl : ActivePack) : F unit := fs_modify (λ s, set_slots (<[k := sl]> (slots s)) s).

(** The first free slot from the cursor on, else the one at the cursor. *)
Fixpoint free_slot (t : nat) (start n i : nat) : option nat :=
  match i with
  | 0 => None
  | S i' => let k := (start + (n - i)) mod n in if busy t k then free_slot t start n i' else Some k
  end.
Definition acquire_slot : F nat := λ s,
  let n := length (slots s) in
  let start := (Z.to_nat (pack_rr s) mod n)%nat in
  (Ok (default start (free_slot (ticks s) start n n)), turn (set_rr ((pack_rr s + 1) mod 2 ^ 32) s)).

Definition slot_aged (sl : ActivePack) : F bool :=
  if (pack_max_age_sec opt <=? 0)%Z then mret false
  else now ← steady_now; mret (pack_max_age_sec opt * 1000000000 <=? now - sl_opened sl)%Z.
Definition sync_slot (dirty : bool) : F unit := if dirty then must else mret tt.
Definition close_slot_locked (k : nat) : F unit :=
  sl ← get_slot k;
  _ ← set_slot k (mkSlot false false (sl_id sl) 0 (sl_opened sl));
  fs_modify (λ s, set_retry (seal_retry s ++ [(sl_id sl, sl_size sl)]) s).

Definition create_pack (id : Z) : F unit :=
  _ ← must;
  s ← get_st;
  if bool_decide (is_Some (d_packs (disk s) !! id)) then throw InternalError
  else fs_modify (λ s', set_packs (<[id := []]> (d_packs (disk s'))) s').
Definition open_pack (k : nat) : F unit :=
  id ← hook (alloc_ Extent.kPack 1);
  sl ← get_slot k;
  _ ← set_slot k (mkSlot false false id (sl_size sl) (sl_opened sl));
  _ ← subdir_fd true (shard_of id);
  _ ← create_pack id;
  _ ← set_slot k (mkSlot true false id (sl_size sl) (sl_opened sl));
  locked ← syscall;
  now ← steady_now;
  _ ← set_slot k (mkSlot true (match locked with Some _ => true | None => false end) id 0 now);
  must.

Fixpoint pwrite_loop (fuel : nat) (id : Z) (base : Z) (rec : bytes) : F unit :=
  match fuel, rec with
  | S f, _ :: _ =>
      r ← syscall;
      match r with
      | None => throw InternalError
      | Some w =>
          let n := Nat.min (length rec) (S w) in
          _ ← fs_modify (λ s, set_packs (alter (overwrite (Z.to_nat base) (take n rec)) id (d_packs (disk s))) s);
          pwrite_loop f id (base + Z.of_nat n) (drop n rec)
      end
  | _, _ => mret tt
  end.

(** The pack is full, or has been open for too long. *)
Definition must_rotate (sl : ActivePack) (rec_size : Z) : F bool :=
  if negb (sl_fd sl && (0 <? sl_size sl)%Z) then mret false
  else if (pack_max_size opt <? sl_size sl + rec_size)%Z then mret true else slot_aged sl.

(** Rotate if need be, and have a pack open. *)
Definition ready_slot (k : nat) (dirty : bool) (rec_size : Z) : F unit :=
  sl0 ← get_slot k;
  rotate ← must_rotate sl0 rec_size;
  _ ← (if bool_decide (rotate = true) then _ ← sync_slot dirty; close_slot_locked k else mret tt);
  sl1 ← get_slot k;
  if sl_fd sl1 then mret tt else open_pack k.

Definition append_item (k : nat) (dirty : bool) (item : PackAppendItem) : F Extent.t :=
  let crc := crc32c_of (it_payload item) in
  header ← lift (build_pack_header (it_owner item) (blen (it_payload item)) crc);
  let rec := header ++ it_payload item in
  _ ← ready_slot k dirty (blen rec);
  sl ← get_slot k;
  _ ← pwrite_loop (length rec) (sl_id sl) (sl_size sl) rec;
  _ ← set_slot k (mkSlot (sl_fd sl) (sl_locked sl) (sl_id sl) (sl_size sl + blen rec) (sl_opened sl));
  mret (Extent.mk Extent.kPack (sl_id sl) (sl_size sl + blen header) (blen (it_payload item)) crc).

(** After an item the slot has unsynced bytes. *)
Fixpoint append_items (k : nat) (dirty : bool) (items : list PackAppendItem) : F DataRef :=
  match items with
  | [] => _ ← sync_slot dirty; mret []
  | item :: items' => e ← append_item k dirty item; rest ← append_items k true items'; mret (e :: rest)
  end.

(** ** Seals not yet recorded *)
Fixpoint seal_each (todo : list (Z * Z)) : F (option (S3ErrorCode * list (Z * Z))) :=
  match todo with
  | [] => mret None
  | (id, size) :: todo' => λ s,
      match hook (seal_ id size) s with
      | (Ok _, s') => seal_each todo' s'
      | (Throw e, s') => (Ok (Some (e, todo)), s')
      end
  end.
Definition flush_seals (rethrow : bool) : F unit :=
  s ← get_st;
  _ ← fs_modify (set_retry []);
  r ← seal_each (seal_retry s);
  match r with
  | None => mret tt
  | Some (e, undone) => _ ← fs_modify (λ s', set_retry (seal_retry s' ++ undone) s'); if rethrow then throw e else mret tt
  end.

Definition append_pack_records (items : list PackAppendItem) : F DataRef :=
  if bool_decide (items = []) then mret []
  else
    k ← acquire_slot;
    out ← append_items k false items;
    _ ← flush_seals false;
    mret out.

(** * The packed writer *)
Abbreviation P := (ST (Fs M * FsPackedWriter) S3ErrorCode).
Definition on_spill {A} (m : C A) (c : ChunkWriter) : P A := λ x,
  let '(r, (s, c')) := m (x.1, c) in (r, (s, mkPw (pw_owner x.2) (pw_buf x.2) (Some c'))).
Definition in_fs {A} (m : F A) : P A := λ x, let '(r, s) := m x.1 in (r, (s, x.2)).
Definition get_p : P FsPackedWriter := λ x, (Ok x.2, x).
Definition set_buf (b : bytes) : P unit := λ x, (Ok tt, (x.1, mkPw (pw_owner x.2) b (pw_spill x.2))).

Definition packed_write (buf : bytes) : P unit :=
  p ← get_p;
  match pw_spill p with
  | Some c => on_spill (chunk_write buf) c
  | None =>
      if (blen (pw_buf p) + blen buf <=? pack_threshold opt)%Z then set_buf (pw_buf p ++ buf)
      else
        _ ← on_spill (chunk_write (pw_buf p)) new_writer;
        _ ← set_buf [];
        p' ← get_p;
        match pw_spill p' with Some c => on_spill (chunk_write buf) c | None => mret tt end
  end.
Definition packed_finish : P DataRef :=
  p ← get_p;
  match pw_spill p with
  | Some c => on_spill chunk_finish c
  | None => if bool_decide (pw_buf p = []) then mret [] else in_fs (append_pack_records [mkItem (pw_owner p) (pw_buf p)])
  end.
Definition packed_discard (p : FsPackedWriter) : F unit := match pw_spill p with Some c => chunk_discard c | None => mret tt end.

(** * Any writer *)
Definition open_writer (content_length : option Z) (owner : bytes) : DataWriter :=
  if (pack_threshold opt =? 0)%Z || match content_length with Some n => (pack_threshold opt <? n)%Z | None => false end
  then WChunk new_writer else WPacked (mkPw owner [] None).

Abbreviation W := (ST (Fs M * DataWriter) S3ErrorCode).
Definition run_writer {A} (c : C A) (p : P A) : W A := λ x,
  match x.2 with
  | WChunk w => let '(r, (s, w')) := c (x.1, w) in (r, (s, WChunk w'))
  | WPacked w => let '(r, (s, w')) := p (x.1, w) in (r, (s, WPacked w'))
  end.
Definition writer_write (buf : bytes) : W unit := run_writer (chunk_write buf) (packed_write buf).
Definition writer_finish : W DataRef := run_writer chunk_finish packed_finish.
Definition writer_discard (w : DataWriter) : F unit := match w with WChunk c => chunk_discard c | WPacked p => packed_discard p end.

(** A session: the blocks of a body, then [finish]; the destructor runs either way. *)
Fixpoint write_blocks (l : list bytes) : W unit := match l with [] => mret tt | b :: l' => _ ← writer_write b; write_blocks l' end.
Definition session (content_length : option Z) (owner : bytes) (blocks : list bytes) : F DataRef := λ s,
  let '(r, (s', w)) := (_ ← write_blocks blocks; writer_finish) (s, open_writer content_length owner) in
  (r, (writer_discard w s').2).

(** [write_batch]: what fits goes into a pack together, the rest one by one. *)
Definition via_pack (i : PackAppendItem) : bool :=
  (0 <? pack_threshold opt)%Z && negb (bool_decide (it_payload i = [])) && (blen (it_payload i) <=? pack_threshold opt)%Z.
Fixpoint merge_batch (items : list PackAppendItem) (exts : DataRef) : F (list DataRef) :=
  match items with
  | [] => mret []
  | i :: items' =>
      if via_pack i then rest ← merge_batch items' (drop 1 exts); mret (take 1 exts :: rest)
      else r ← session (Some (blen (it_payload i))) (it_owner i) [it_payload i];
           rest ← merge_batch items' exts; mret (r :: rest)
  end.
Definition write_batch (items : list PackAppendItem) : F (list DataRef) :=
  let pk := base.filter (λ i, via_pack i = true) items in
  exts ← (if bool_decide (pk = []) then mret [] else append_pack_records pk);
  merge_batch items exts.

(** * Sealing, removal, closing *)
Fixpoint close_aged (max_age now : Z) (n : nat) (k : nat) : F Z :=
  match n with
  | 0 => mret 0%Z
  | S n' =>
      s ← get_st;
      sl ← get_slot k;
      if busy (ticks s) k || negb (sl_fd sl) || (sl_size sl =? 0)%Z || (now - sl_opened sl <? max_age)%Z
      then close_aged max_age now n' (S k)
      else _ ← close_slot_locked k; c ← close_aged max_age now n' (S k); mret (c + 1)%Z
  end.
Definition seal_aged_packs (max_age_ms : Z) : F Z :=
  if (max_age_ms <=? 0)%Z then mret 0%Z
  else
    now ← steady_now;
    s ← get_st;
    c ← close_aged (max_age_ms * 1000000) now (length (slots s)) 0;
    _ ← flush_seals false;
    mret c.

Fixpoint remove (es : DataRef) : F unit :=
  match es with
  | [] => mret tt
  | e :: es' =>
      if bool_decide (Extent.kind e = Extent.kChunk) then
        _ ← must; _ ← fs_modify (λ s, set_chunks (delete (Extent.file_id e) (d_chunks (disk s))) s); remove es'
      else remove es'
  end.
Definition remove_pack (p : Z) : F unit := _ ← must; fs_modify (λ s, set_packs (delete p (d_packs (disk s))) s).
Definition stat_pack (p : Z) (s : Fs M) : Z := match d_packs (disk s) !! p with Some f => blen f | None => 0 end.
(** The lock is another open file's: an active pack of this store or of another process. *)
Definition pack_write_locked (p : Z) (s : Fs M) : bool :=
  bool_decide (is_Some (d_packs (disk s) !! p)) &&
  (foreign p || existsb (λ sl, sl_fd sl && sl_locked sl && (sl_id sl =? p)%Z) (slots s)).

Fixpoint close_slots (n : nat) (k : nat) : F unit :=
  match n with
  | 0 => mret tt
  | S n' => sl ← get_slot k; _ ← (if sl_fd sl then close_slot_locked k else mret tt); close_slots n' (S k)
  end.
Definition fs_close : F unit :=
  s ← get_st;
  _ ← close_slots (length (slots s)) 0;
  flush_seals true.
End store.
