(* ===== verification/DuoGc.v ===== *)
(** The garbage collector of DuoStore ([DuoStoreBackend::run_gc_once] in
    [src/src/storage/duostore/duostore_backend.cc]): definitions only.

    A round runs while clients keep changing the store. Its calls into the metadata
    store, the data plane, the pins and the clock are the points of interleaving: before
    call number [n] the environment turns the world [w] into [w'] where [env n w = Some w'],
    or kills the process where [env n w = None]; a clock reading is [clock n]. Metrics and log lines are left out, and so is the persistent
    copy of the quarantine ledger. *)

From S2P Require Import Prelude Bytes Backend Listing Codec MetaUtil RocksDb RocksMeta DuoWorld.
From Stdlib Require Import ZArith Lia.
From stdpp Require Import base list gmap sets sorting.
Open Scope lights3_scope.

(** * Data *)
Definition kGcBatch : Z := 256.
Definition kGcBatchExtents : Z := 32768.
Definition kQuarantineStrikes : Z := 3.

(** The settings a round reads. The liveness test compares [double]s: it is an argument. *)
Record GcConfig := mkGcConfig {
  gc_grace_sec : Z; mpu_ttl_sec : Z; pack_max_age_sec : Z; gc_compact_max_packs : Z; gc_compact_max_bytes : Z;
  over_ratio : Z -> Z -> bool }.

Record DuoGcStats := mkGcStats {
  reclaims_acked : Z; files_removed : Z; skipped_grace : Z; skipped_pinned : Z; skipped_leased : Z; packs_removed : Z;
  uploads_expired : Z; packs_sealed_aged : Z; packs_compacted : Z; packs_compact_deferred : Z; records_migrated : Z;
  records_corrupt : Z; packs_quarantined : Z }.
Definition no_stats : DuoGcStats := mkGcStats 0 0 0 0 0 0 0 0 0 0 0 0 0.

Record GcqSkips := mkSkips { sk_any : bool; lo_seq : Z; retry_at_ms : Z }.
Definition no_skips : GcqSkips := mkSkips false 0 0.
Record CompactBlocked := mkBlocked { cb_live_recs : Z; cb_retry_at_ms : Z; strikes : Z }.
Record DuoQuarantineEntry := mkQuarantine {
  q_pack_id : Z; q_live_recs : Z; corrupt_records : Z; quarantined_ms : Z; purged : bool }.

(** What the collector remembers between rounds. *)
Record GcMem := mkGcMem {
  gcq_skips : GcqSkips; gcq_hi : Z; pack_empty_since : gmap Z Z; compact_blocked : gmap Z CompactBlocked;
  quarantined : gmap Z DuoQuarantineEntry }.
Definition fresh_mem : GcMem := mkGcMem no_skips 0 ∅ ∅ ∅.

Record CompactCand := mkCand { cc_pack_id : Z; cc_file_size : Z; reclaimable : Z }.

(** An exception, the end of the process, or a loop that ran out of fuel. *)
Inductive GcErr := GcThrow (e : S3ErrorCode) | Killed | OutOfFuel.

Record GcState (DB D : Type) := mkGc { world : World DB D; mem : GcMem; st : DuoGcStats; tick : nat }.
Arguments mkGc {DB D} _ _ _ _.
Arguments world {DB D} _.
Arguments mem {DB D} _.
Arguments st {DB D} _.
Arguments tick {DB D} _.

(** ** Updates of the statistics *)
Definition add_acked (n : Z) (s : DuoGcStats) : DuoGcStats :=
  mkGcStats (reclaims_acked s + n) (files_removed s) (skipped_grace s) (skipped_pinned s) (skipped_leased s) (packs_removed s)
    (uploads_expired s) (packs_sealed_aged s) (packs_compacted s) (packs_compact_deferred s) (records_migrated s) (records_corrupt s) (packs_quarantined s).
Definition add_removed (n : Z) (s : DuoGcStats) : DuoGcStats :=
  mkGcStats (reclaims_acked s) (files_removed s + n) (skipped_grace s) (skipped_pinned s) (skipped_leased s) (packs_removed s)
    (uploads_expired s) (packs_sealed_aged s) (packs_compacted s) (packs_compact_deferred s) (records_migrated s) (records_corrupt s) (packs_quarantined s).
Definition add_skipped (g p l : Z) (s : DuoGcStats) : DuoGcStats :=
  mkGcStats (reclaims_acked s) (files_removed s) (skipped_grace s + g) (skipped_pinned s + p) (skipped_leased s + l) (packs_removed s)
    (uploads_expired s) (packs_sealed_aged s) (packs_compacted s) (packs_compact_deferred s) (records_migrated s) (records_corrupt s) (packs_quarantined s).
Definition add_packs_removed (s : DuoGcStats) : DuoGcStats :=
  mkGcStats (reclaims_acked s) (files_removed s) (skipped_grace s) (skipped_pinned s) (skipped_leased s) (packs_removed s + 1)
    (uploads_expired s) (packs_sealed_aged s) (packs_compacted s) (packs_compact_deferred s) (records_migrated s) (records_corrupt s) (packs_quarantined s).
Definition add_expired (s : DuoGcStats) : DuoGcStats :=
  mkGcStats (reclaims_acked s) (files_removed s) (skipped_grace s) (skipped_pinned s) (skipped_leased s) (packs_removed s)
    (uploads_expired s + 1) (packs_sealed_aged s) (packs_compacted s) (packs_compact_deferred s) (records_migrated s) (records_corrupt s) (packs_quarantined s).
Definition set_sealed_aged (n : Z) (s : DuoGcStats) : DuoGcStats :=
  mkGcStats (reclaims_acked s) (files_removed s) (skipped_grace s) (skipped_pinned s) (skipped_leased s) (packs_removed s)
    (uploads_expired s) n (packs_compacted s) (packs_compact_deferred s) (records_migrated s) (records_corrupt s) (packs_quarantined s).
Definition add_compacted (m c : Z) (s : DuoGcStats) : DuoGcStats :=
  mkGcStats (reclaims_acked s) (files_removed s) (skipped_grace s) (skipped_pinned s) (skipped_leased s) (packs_removed s)
    (uploads_expired s) (packs_sealed_aged s) (packs_compacted s + 1) (packs_compact_deferred s) (records_migrated s + m) (records_corrupt s + c) (packs_quarantined s).
Definition set_deferred (n : Z) (s : DuoGcStats) : DuoGcStats :=
  mkGcStats (reclaims_acked s) (files_removed s) (skipped_grace s) (skipped_pinned s) (skipped_leased s) (packs_removed s)
    (uploads_expired s) (packs_sealed_aged s) (packs_compacted s) n (records_migrated s) (records_corrupt s) (packs_quarantined s).
Definition add_quarantined (s : DuoGcStats) : DuoGcStats :=
  mkGcStats (reclaims_acked s) (files_removed s) (skipped_grace s) (skipped_pinned s) (skipped_leased s) (packs_removed s)
    (uploads_expired s) (packs_sealed_aged s) (packs_compacted s) (packs_compact_deferred s) (records_migrated s) (records_corrupt s) (packs_quarantined s + 1).

(** ** Updates of the memory *)
Definition set_skips (k : GcqSkips) (m : GcMem) : GcMem := mkGcMem k (gcq_hi m) (pack_empty_since m) (compact_blocked m) (quarantined m).
Definition set_hi (h : Z) (m : GcMem) : GcMem := mkGcMem (gcq_skips m) h (pack_empty_since m) (compact_blocked m) (quarantined m).
Definition set_empty_since (x : gmap Z Z) (m : GcMem) : GcMem := mkGcMem (gcq_skips m) (gcq_hi m) x (compact_blocked m) (quarantined m).
Definition set_blocked (x : gmap Z CompactBlocked) (m : GcMem) : GcMem := mkGcMem (gcq_skips m) (gcq_hi m) (pack_empty_since m) x (quarantined m).
Definition set_quarantined (x : gmap Z DuoQuarantineEntry) (m : GcMem) : GcMem :=
  mkGcMem (gcq_skips m) (gcq_hi m) (pack_empty_since m) (compact_blocked m) x.

(** [note_skip]: the least number and the least retry time so far. *)
Definition note_skip (seq retry_at : Z) (k : GcqSkips) : GcqSkips :=
  mkSkips true (if negb (sk_any k) || (seq <? lo_seq k)%Z then seq else lo_seq k)
    (if negb (sk_any k) || (retry_at <? retry_at_ms k)%Z then retry_at else retry_at_ms k).

(** The order of the candidates. *)
Definition cand_lt (a b : CompactCand) : bool :=
  if negb (bool_decide ((cc_file_size a =? 0)%Z = (cc_file_size b =? 0)%Z)) then (cc_file_size b =? 0)%Z
  else if negb (reclaimable a =? reclaimable b)%Z then (reclaimable b <? reclaimable a)%Z
  else (cc_pack_id a <? cc_pack_id b)%Z.
Definition cand_le (a b : CompactCand) : Prop := cand_lt b a = false.
#[global] Instance cand_le_dec a b : Decision (cand_le a b).
Proof. unfold cand_le. apply _. Defined.
Definition sort_cands (l : list CompactCand) : list CompactCand := merge_sort cand_le l.

(** Files of an entry that are deleted one by one. *)
Definition chunk_extents (es : DataRef) : Z := Z.of_nat (length (base.filter (λ e, is_pack e = false) es)).

Section gc.
Context {DB D : Type} {rocks : RocksDB DB} {data : DataStore DB D}.
Context (cfg : GcConfig) (env : nat -> World DB D -> option (World DB D)) (clock : nat -> Z).
Abbreviation G := (ST (GcState DB D) GcErr).

(** * The monad of a round *)
Definition call {A} (m : World DB D -> result A * World DB D) : G A := λ g,
  match env (tick g) (world g) with
  | None => (Throw Killed, g)
  | Some w0 =>
      let '(r, w) := m w0 in
      (match r with Ok a => Ok a | Throw e => Throw (GcThrow e) end, mkGc w (mem g) (st g) (S (tick g)))
  end.
Definition meta_call {A} (m : ST (Meta DB) S3ErrorCode A) : G A := call (on_meta m).
Definition data_call {A} (m : D -> result A * D) : G A := call (on_data m).
Definition look {A} (f : World DB D -> A) : G A := call (λ w, (Ok (f w), w)).
Definition now_ms : G Z := λ g, (Ok (clock (tick g)), mkGc (world g) (mem g) (st g) (S (tick g))).
Definition bump (f : DuoGcStats -> DuoGcStats) : G unit := λ g, (Ok tt, mkGc (world g) (mem g) (f (st g)) (tick g)).
Definition get_mem : G GcMem := λ g, (Ok (mem g), g).
Definition set_mem (f : GcMem -> GcMem) : G unit := λ g, (Ok tt, mkGc (world g) (f (mem g)) (st g) (tick g)).

(** [try { m } catch (const std::exception&) {}] *)
Definition attempt {A} (m : G A) : G (option A) := λ g,
  match m g with
  | (Ok a, g') => (Ok (Some a), g')
  | (Throw (GcThrow _), g') => (Ok None, g')
  | (Throw e, g') => (Throw e, g')
  end.

Definition grace_ms : Z := gc_grace_sec cfg * 1000.

(** * 1. Expired uploads *)
Fixpoint expire_each (now ttl : Z) (b : bytes) (l : list UploadInfo) : G unit :=
  match l with
  | [] => mret tt
  | u :: l' =>
      _ ← (if (now - to_unix_ms (ui_initiated u) <? ttl)%Z then mret tt
           else t ← now_ms;
                r ← attempt (meta_call (abort_upload b (ui_key u) (ui_upload_id u) t));
                match r with Some _ => bump add_expired | None => mret tt end);
      expire_each now ttl b l'
  end.
Fixpoint expire_buckets (now ttl : Z) (l : list BucketInfo) : G unit :=
  match l with
  | [] => mret tt
  | bk :: l' =>
      r ← attempt (meta_call (list_uploads (bucket_name bk) [] [] 0 []));
      _ ← match r with Some ups => expire_each now ttl (bucket_name bk) ups | None => mret tt end;
      expire_buckets now ttl l'
  end.
Definition expire_uploads : G unit :=
  let ttl := (mpu_ttl_sec cfg * 1000)%Z in
  if (0 <? ttl)%Z then
    now ← now_ms;
    _ ← attempt (l ← meta_call list_buckets; expire_buckets now ttl l);
    mret tt
  else mret tt.

(** * 2. The reclaim queue *)
Section queue.
Context (lease_floor : option Z).

(** One entry: the skips so far and the numbers settled, or a skip noted. *)
Definition reclaim_one (batch_now : Z) (seq : Z) (rc : Reclaim) (acc : GcqSkips * list Z) : G (GcqSkips * list Z) :=
  let '(skips, acked) := acc in
  if (batch_now - rc_enqueue_ms rc <? grace_ms)%Z then
    _ ← bump (add_skipped 1 0 0); mret (note_skip seq (rc_enqueue_ms rc + grace_ms) skips, acked)
  else if match lease_floor with Some f => (f <=? rc_enqueue_ms rc)%Z | None => false end then
    _ ← bump (add_skipped 0 0 1); mret (note_skip seq batch_now skips, acked)
  else
    pinned ← look (λ w, any_pinned (rc_extents rc) (w_pins w));
    if bool_decide (pinned = true) then _ ← bump (add_skipped 0 1 0); mret (note_skip seq batch_now skips, acked)
    else
      r ← attempt (data_call (ds_remove (rc_extents rc)));
      match r with
      | None => mret (note_skip seq batch_now skips, acked)
      | Some _ => _ ← bump (add_removed (chunk_extents (rc_extents rc))); mret (skips, acked ++ [seq])
      end.

Fixpoint reclaim_batch (batch_now : Z) (l : list (Z * Reclaim)) (acc : GcqSkips * list Z) : G (GcqSkips * list Z) :=
  match l with
  | [] => mret acc
  | (seq, rc) :: l' => acc' ← reclaim_one batch_now seq rc acc; reclaim_batch batch_now l' acc'
  end.

Definition next_of (l : list (Z * Reclaim)) (next_seq : Z) : Z :=
  match last l with Some (q, _) => u64 (q + 1) | None => next_seq end.

Fixpoint reclaim_loop (fuel : nat) (next_seq : Z) (skips : GcqSkips) : G (Z * GcqSkips) :=
  match fuel with
  | 0 => throw OutOfFuel
  | S f =>
      batch ← meta_call (peek_reclaims kGcBatch next_seq kGcBatchExtents);
      if bool_decide (batch = []) then mret (next_seq, skips)
      else
        batch_now ← now_ms;
        acc ← reclaim_batch batch_now batch (skips, []);
        _ ← (if bool_decide (acc.2 = []) then mret tt
             else _ ← meta_call (ack_reclaims acc.2); bump (add_acked (Z.of_nat (length acc.2))));
        reclaim_loop f (next_of batch next_seq) acc.1
  end.

(** Where the scan starts, and whether it covers what earlier rounds skipped. *)
Definition scan_start (round_now : Z) (m : GcMem) : Z :=
  if sk_any (gcq_skips m) then
    if (round_now <? retry_at_ms (gcq_skips m))%Z then gcq_hi m else lo_seq (gcq_skips m)
  else 0.
Definition full_scan (round_now : Z) (m : GcMem) : bool :=
  negb (sk_any (gcq_skips m)) || (scan_start round_now m =? lo_seq (gcq_skips m))%Z.

Definition merge_skips (full : bool) (skips old : GcqSkips) : GcqSkips :=
  if full then skips
  else if sk_any skips then mkSkips (sk_any old) (Z.min (lo_seq old) (lo_seq skips)) (Z.min (retry_at_ms old) (retry_at_ms skips))
  else old.

Definition consume_queue (fuel : nat) : G unit :=
  round_now ← now_ms;
  m ← get_mem;
  r ← reclaim_loop fuel (scan_start round_now m) no_skips;
  set_mem (λ m', set_skips (merge_skips (full_scan round_now m) r.2 (gcq_skips m')) (set_hi (Z.max (gcq_hi m') r.1) m')).
End queue.

(** * 2.5 Active packs that aged *)
Definition seal_aged : G unit :=
  if (0 <? pack_max_age_sec cfg)%Z then
    r ← attempt (call (ds_seal_aged_packs (pack_max_age_sec cfg * 1000)));
    match r with Some n => bump (set_sealed_aged n) | None => mret tt end
  else mret tt.

(** * 3. Compaction *)

(** A crash left the size of a sealed pack unknown: ask the data plane. *)
Definition backfill_size (ps : PackStat) : G Z :=
  if (file_size ps =? 0)%Z then
    sz ← look (λ w, ds_stat_pack (ps_pack_id ps) (w_data w));
    if (0 <? sz)%Z then _ ← meta_call (seal_pack (ps_pack_id ps) sz); mret sz else mret 0%Z
  else mret (file_size ps).

(** A pack in quarantine stays there until its account moves. *)
Definition in_quarantine (ps : PackStat) : G bool :=
  m ← get_mem;
  match quarantined m !! ps_pack_id ps with
  | None => mret false
  | Some q =>
      if negb (purged q) && negb (live_recs ps =? q_live_recs q)%Z
      then _ ← set_mem (set_quarantined (delete (ps_pack_id ps) (quarantined m))); mret false
      else mret true
  end.
Definition cooling (compact_now : Z) (ps : PackStat) (m : GcMem) : bool :=
  match compact_blocked m !! ps_pack_id ps with
  | Some b => (cb_live_recs b =? live_recs ps)%Z && (compact_now <? cb_retry_at_ms b)%Z
  | None => false
  end.

Definition candidate (compact_now : Z) (ps : PackStat) : G (option CompactCand) :=
  if negb (sealed ps) || (live_recs ps <=? 0)%Z then mret None
  else
    size ← backfill_size ps;
    let gain := if (0 <? size)%Z then (i64 size - live_bytes ps)%Z else 0%Z in
    if (0 <? size)%Z && ((gain <=? 0)%Z || over_ratio cfg (live_bytes ps) size) then mret None
    else
      parked ← in_quarantine ps;
      if bool_decide (parked = true) then mret None
      else
        m ← get_mem;
        if cooling compact_now ps m then mret None
        else mret (Some (mkCand (ps_pack_id ps) size gain)).

Fixpoint candidates (compact_now : Z) (l : list PackStat) : G (list CompactCand) :=
  match l with
  | [] => mret []
  | ps :: l' =>
      c ← candidate compact_now ps;
      rest ← candidates compact_now l';
      mret (match c with Some c => c :: rest | None => rest end)
  end.

(** The budget of a round, and the packs rewritten: what a scan of each found. *)
Record Rewrites := mkRewrites { rewritten : list Z; rw_by_pack : gmap Z (Z * Z); scanned_bytes : Z }.

Definition over_budget (ci : nat) (bytes_done : Z) : bool :=
  ((0 <? gc_compact_max_packs cfg)%Z && (gc_compact_max_packs cfg <=? Z.of_nat ci)%Z) ||
  ((0 <? gc_compact_max_bytes cfg)%Z && (0 <? ci)%nat && (gc_compact_max_bytes cfg <=? bytes_done)%Z).

Definition rewrite_one (cd : CompactCand) (acc : Rewrites) : G Rewrites :=
  r ← attempt (call (ds_rewrite_pack (cc_pack_id cd)));
  match r with
  | None => mret acc
  | Some rw =>
      _ ← bump (add_compacted (migrated rw) (corrupt rw));
      _ ← (if (cc_file_size cd =? 0)%Z && (0 <? rw_file_size rw)%Z
           then _ ← attempt (meta_call (seal_pack (cc_pack_id cd) (rw_file_size rw))); mret tt else mret tt);
      mret (mkRewrites (rewritten acc ++ [cc_pack_id cd]) (<[cc_pack_id cd := (migrated rw, corrupt rw)]> (rw_by_pack acc))
              (scanned_bytes acc + (if (0 <? cc_file_size cd)%Z then cc_file_size cd else rw_file_size rw))%Z)
  end.
Fixpoint rewrite_packs (ci : nat) (l : list CompactCand) (acc : Rewrites) : G Rewrites :=
  match l with
  | [] => mret acc
  | cd :: l' =>
      if over_budget ci (scanned_bytes acc) then _ ← bump (set_deferred (Z.of_nat (length l))); mret acc
      else acc' ← rewrite_one cd acc; rewrite_packs (S ci) l' acc'
  end.

Definition compact : G Rewrites :=
  compact_now ← now_ms;
  stats ← meta_call pack_stats;
  cands ← candidates compact_now stats;
  rewrite_packs 0 (sort_cands cands) (mkRewrites [] ∅ 0).

(** * 4. Empty packs *)
Section packs.
Context (lease_floor : option Z).

Definition too_recent (pack_now since : Z) : bool :=
  (pack_now - since <? grace_ms)%Z || match lease_floor with Some f => (f <=? since)%Z | None => false end.

(** The unlink comes before the account is dropped. *)
Definition remove_empty (pack_now : Z) (ps : PackStat) : G unit :=
  let p := ps_pack_id ps in
  if negb (sealed ps) || negb (live_recs ps =? 0)%Z then set_mem (λ m, set_empty_since (delete p (pack_empty_since m)) m)
  else
    m ← get_mem;
    let since := default pack_now (pack_empty_since m !! p) in
    _ ← set_mem (set_empty_since (<[p := since]> (pack_empty_since m)));
    if too_recent pack_now since then mret tt
    else
      pinned ← look (λ w, pinned_pack p (w_pins w));
      if bool_decide (pinned = true) then mret tt
      else
        _ ← attempt (_ ← data_call (ds_remove_pack p);
                     _ ← meta_call (drop_pack_stat p);
                     _ ← set_mem (λ m, set_empty_since (delete p (pack_empty_since m)) m);
                     _ ← bump add_packs_removed;
                     set_mem (λ m, set_quarantined (delete p (quarantined m)) m));
        mret tt.
Fixpoint remove_empties (pack_now : Z) (l : list PackStat) : G unit :=
  match l with [] => mret tt | ps :: l' => _ ← remove_empty pack_now ps; remove_empties pack_now l' end.

(** The account of a pack that was rewritten. *)
Definition live_of (pid : Z) (stats : list PackStat) : Z :=
  match List.find (λ ps, (ps_pack_id ps =? pid)%Z) stats with Some ps => live_recs ps | None => 0 end.
Definition new_strikes (live : Z) (found : Z * Z) (prev : option CompactBlocked) : Z :=
  if (0 <? found.2)%Z && (found.1 =? 0)%Z then
    match prev with Some b => if (cb_live_recs b =? live)%Z then (strikes b + 1)%Z else 1%Z | None => 1%Z end
  else 0%Z.
Definition settle_rewrite (pack_now : Z) (stats : list PackStat) (by_pack : gmap Z (Z * Z)) (pid : Z) : G unit :=
  m ← get_mem;
  let live := live_of pid stats in
  if (0 <? live)%Z then
    let found := default (0, 0)%Z (by_pack !! pid) in
    let s := new_strikes live found (compact_blocked m !! pid) in
    if (kQuarantineStrikes <=? s)%Z then
      _ ← set_mem (λ m, set_blocked (delete pid (compact_blocked m))
            (set_quarantined (<[pid := mkQuarantine pid live found.2 pack_now false]> (quarantined m)) m));
      bump add_quarantined
    else set_mem (λ m, set_blocked (<[pid := mkBlocked live (pack_now + grace_ms) s]> (compact_blocked m)) m)
  else set_mem (λ m, set_blocked (delete pid (compact_blocked m)) m).
Fixpoint settle_rewrites (pack_now : Z) (stats : list PackStat) (by_pack : gmap Z (Z * Z)) (l : list Z) : G unit :=
  match l with [] => mret tt | p :: l' => _ ← settle_rewrite pack_now stats by_pack p; settle_rewrites pack_now stats by_pack l' end.

Definition prune (known : gset Z) (m : GcMem) : GcMem :=
  set_empty_since (base.filter (λ kv, kv.1 ∈ known) (pack_empty_since m))
    (set_blocked (base.filter (λ kv, kv.1 ∈ known) (compact_blocked m)) m).

Definition delete_packs (rw : Rewrites) : G unit :=
  pack_now ← now_ms;
  stats ← meta_call pack_stats;
  _ ← remove_empties pack_now stats;
  _ ← settle_rewrites pack_now stats (rw_by_pack rw) (rewritten rw);
  set_mem (prune (list_to_set (ps_pack_id <$> stats))).
End packs.

(** * The round

    [lease_floor] is what the engine's read leases give, none for a local engine. *)
Definition run_gc_once (fuel : nat) (lease_floor : option Z) : G unit :=
  _ ← expire_uploads;
  _ ← consume_queue lease_floor fuel;
  _ ← seal_aged;
  rw ← compact;
  delete_packs lease_floor rw.
End gc.
