(* ===== verification/DuoQueue.v ===== *)
(** What the collector reads of the reclaim queue, and the frame of its proofs: a round as
    a run beside the steps of the store. *)

From S2P Require Import Prelude Bytes Backend Listing Multipart Codec CodecProofs CodecKeys MetaUtil.
From S2P Require Import RocksDb RocksMeta RocksLedger RocksProofs RocksInv RocksOps RocksParts RocksSteps RocksTheorems RocksStats DuoWorld DuoGc.
From Stdlib Require Import ZArith Lia.
From stdpp Require Import base list gmap sets sorting relations.
Open Scope lights3_scope.

(** * Reading the queue *)
Lemma peek_loop_prefix mx me (l : list (bytes * bytes)) c e out :
  peek_loop mx me c e l = Ok out ->
  exists l1 l2, l = l1 ++ l2 /\ Forall2 (λ kv qr, parse_be64 kv.1 = Ok qr.1 /\ decode_reclaim kv.2 = Ok qr.2) l1 out /\
    (out = [] -> l = [] \/ (mx <= c)%Z).
Proof.
  revert c e out. induction l as [|[k v] l IH]; intros c e out E; cbn [peek_loop] in E.
  { injection E as <-. exists [], []. split_and!; [done|constructor|auto]. }
  destruct (Z.leb_spec mx c); [injection E as <-; exists [], ((k, v) :: l); split_and!; [done|constructor|auto]|].
  destruct (parse_be64 k) as [q0|] eqn:Eq; [|done]. destruct (decode_reclaim v) as [r0|] eqn:Er; [|done]. cbn [mbind res_bind] in E.
  destruct (_ <=? _)%Z; [injection E as <-; exists [(k, v)], l; split_and!; [done|by repeat constructor|done]|].
  destruct (peek_loop _ _ _ _ l) as [rest|] eqn:Ep; [|done]. injection E as <-. destruct (IH _ _ _ Ep) as (l1 & l2 & -> & HF & _).
  exists ((k, v) :: l1), l2. split_and!; [done|by constructor|done].
Qed.

(** An entry of the queue: its number and its record. *)
Definition entry_at (G : table) (q : Z) (r : Reclaim) : Prop :=
  is_u64 q /\ exists v, G !! be64_key q = Some v /\ decode_reclaim v = Ok r.

Lemma entry_fun (G : table) q r r' : entry_at G q r -> entry_at G q r' -> r = r'.
Proof. intros (_ & v & Hv & Hr) (_ & v' & Hv' & Hr'). congruence. Qed.
Lemma entry_files_queued (G : table) q r i : entry_at G q r -> i ∈ ref_ids (rc_extents r) -> queued G i.
Proof. intros (_ & v & Hv & Hr) Hi. exists (be64_key q), v. split; [done|]. unfold data_of_reclaim. by rewrite Hr. Qed.

(** What a peek returns: the entries from a number on, in order, without a gap. *)
Record peeked (G : table) (mn : Z) (l : list (Z * Reclaim)) : Prop := mkPeeked {
  pk_entry : forall q r, (q, r) ∈ l -> entry_at G q r /\ (mn <= q)%Z;
  pk_sorted : StronglySorted Z.lt l.*1;
  pk_all : forall q r, entry_at G q r -> (mn <= q)%Z -> (q, r) ∈ l \/ exists q' r', last l = Some (q', r') /\ (q' < q)%Z }.

Lemma sorted_last {A} (R : A -> A -> Prop) l1 l2 x : StronglySorted R (l1 ++ l2) -> last l1 = Some x -> forall y, y ∈ l2 -> R x y.
Proof.
  intros Hs Hl y Hy. apply last_Some in Hl as [l' ->]. rewrite <- app_assoc in Hs. apply StronglySorted_app_1_r in Hs.
  apply StronglySorted_inv in Hs as [_ Hall]. rewrite list.Forall_forall in Hall. by apply Hall.
Qed.

Section peek.
Context {DB : Type} {rocks : RocksDB DB} {law : RocksLaw DB} {bound : Passed}.

Lemma peek_spec mx mn me s o s' issued writers :
  minv s issued writers -> is_u64 mn -> (0 < mx)%Z -> peek_reclaims mx mn me s = (o, s') ->
  s' = s /\ forall l, o = Ok l -> peeked (tab s kGcq) mn l.
Proof.
  intros Hi Hmn Hmx E. unfold peek_reclaims in E. apply items_bind in E as [[-> [e ->]]|E]; [done|].
  apply lift_run in E as [-> ->]. split; [done|]. intros l E. set (G := tab s kGcq) in *.
  destruct (seek_from_split [] (be64_key mn) (map_items bytes_le G)) as (sk & _ & Hl & Hsk & Hhd). unfold it_seek in E.
  pose proof (map_items_sorted bytes_le G) as Hs. rewrite Hl, fmap_app in Hs.
  pose proof (StronglySorted_app_1_r _ _ _ Hs) as Hs2. set (tl := (seek_from [] (be64_key mn) (map_items bytes_le G)).2) in *.
  assert (forall k v, (k, v) ∈ tl -> exists q, is_u64 q /\ k = be64_key q /\ G !! k = Some v /\ (mn <= q)%Z) as Htl.
  { intros k v Hin. assert (G !! k = Some v) as HG by (apply (map_items_elem bytes_le); rewrite Hl; apply elem_of_app; by right).
    destruct (proj1 (mi_queue _ _ _ Hi) k) as (q & Hq & ->); [by exists v|]. exists q. split_and!; try done.
    destruct tl as [|[k0 v0] tl'] eqn:Et; [by apply not_elem_of_nil in Hin|]. specialize (Hhd (k0, v0) tl' eq_refl). cbn in Hhd.
    assert (bytes_le (be64_key mn) (be64_key q)) as Hle.
    { apply elem_of_cons in Hin as [[= -> ->]|Hin]; [done|]. trans k0; [done|]. cbn in Hs2. apply StronglySorted_inv in Hs2 as [_ Hall].
      rewrite list.Forall_forall in Hall. apply Hall, list_elem_of_fmap. by exists (be64_key q, v). }
    apply Z.nlt_ge. intros Hlt%(be64_key_lt q mn); [|done|done]. by apply bytes_lt_not_le in Hlt. }
  destruct (peek_loop_prefix _ _ _ _ _ _ E) as (l1 & l2 & Etl & HF & Hnil). clear E.
  assert (forall k v q r, (k, v) ∈ l1 -> parse_be64 k = Ok q -> decode_reclaim v = Ok r -> entry_at G q r /\ (mn <= q)%Z /\ k = be64_key q) as Hpair.
  { intros k v q r Hin Hq Hr. destruct (Htl k v) as (q' & Hq' & -> & HG & Hle); [rewrite Etl; apply elem_of_app; by left|].
    rewrite parse_be64_key in Hq by done. injection Hq as <-. split_and!; [|done|done]. split; [done|]. by exists v. }
  split.
  - intros q r Hin. apply list_elem_of_lookup in Hin as [i Hi']. destruct (Forall2_lookup_r _ _ _ _ _ HF Hi') as ([k v] & Hkv & Hq & Hr).
    cbn in *. apply list_elem_of_lookup_2 in Hkv. by destruct (Hpair k v q r Hkv Hq Hr) as (? & ? & _).
  - rewrite Etl, fmap_app in Hs2. assert (StronglySorted (λ a b, bytes_le a b /\ a <> b) l1.*1) as Hs3.
    { clear -Hs2. induction l1 as [|a l1 IH]; [constructor|]. cbn in *. apply StronglySorted_inv in Hs2 as [H1 H2]. constructor; [by apply IH|].
      by apply list.Forall_app in H2 as [? _]. }
    clear -HF Hs3 Hpair. induction HF as [|[k v] [q r] l1 l [Hq Hr] HF IH]; [constructor|]. cbn in *. apply StronglySorted_inv in Hs3 as [H1 H2].
    constructor; [apply IH; [intros; eapply Hpair; [by right|done..]|done]|]. apply list.Forall_forall. intros q' Hin.
    apply list_elem_of_fmap in Hin as ([q2 r2] & -> & Hin). apply list_elem_of_lookup in Hin as [i Hi'].
    destruct (Forall2_lookup_r _ _ _ _ _ HF Hi') as ([k2 v2] & Hkv & Hq2 & Hr2). cbn in *. apply list_elem_of_lookup_2 in Hkv.
    destruct (Hpair k v q r ltac:(left) Hq Hr) as ([Hu _] & _ & ->). destruct (Hpair k2 v2 q2 r2 ltac:(by right) Hq2 Hr2) as ([Hu2 _] & _ & ->).
    rewrite list.Forall_forall in H2. destruct (H2 (be64_key q2)) as [Hle Hne]; [apply list_elem_of_fmap; by exists (be64_key q2, v2)|].
    apply (be64_key_lt q q2); [done|done|]. apply bytes_le_lt_eq in Hle as [?|?]; [done|]. done.
  - intros q r (Hu & v & Hv & Hr) Hle. assert ((be64_key q, v) ∈ tl) as Hin.
    { apply (map_items_elem bytes_le) in Hv. rewrite Hl in Hv. apply elem_of_app in Hv as [Hv|Hv]; [|done]. rewrite list.Forall_forall in Hsk.
      specialize (Hsk _ Hv). cbn in Hsk. apply be64_key_lt in Hsk; [lia|done|done]. }
    rewrite Etl in Hin. apply elem_of_app in Hin as [Hin|Hin].
    + left. apply list_elem_of_lookup in Hin as [i Hi']. destruct (Forall2_lookup_l _ _ _ _ _ HF Hi') as ([q' r'] & Hqr & Hq' & Hr'). cbn [fst snd] in Hq', Hr'.
      rewrite parse_be64_key in Hq' by done. injection Hq' as <-. assert (r' = r) as -> by congruence. by eapply list_elem_of_lookup_2.
    + right. destruct (last l) as [[q' r']|] eqn:El.
      * exists q', r'. split; [done|]. assert (exists k' v', last l1 = Some (k', v') /\ parse_be64 k' = Ok q' /\ decode_reclaim v' = Ok r') as (k' & v' & El1 & Hq' & Hr').
        { rewrite last_lookup in El. rewrite <- (Forall2_length _ _ _ HF) in El. destruct (Forall2_lookup_r _ _ _ _ _ HF El) as ([k' v'] & Hkv & H1 & H2).
          exists k', v'. by rewrite last_lookup. }
        assert ((k', v') ∈ l1) as Hin' by (rewrite last_lookup in El1; by eapply list_elem_of_lookup_2).
        destruct (Hpair k' v' q' r' Hin' Hq' Hr') as ([Hu' _] & _ & ->). rewrite Etl, fmap_app in Hs2.
        destruct (sorted_last _ _ _ (be64_key q') Hs2 ltac:(rewrite fmap_last; by rewrite El1) (be64_key q)) as [Hle' Hne];
          [apply list_elem_of_fmap; by exists (be64_key q, v)|]. apply (be64_key_lt q' q); [done|done|].
        apply bytes_le_lt_eq in Hle' as [?|?]; [done|]. done.
      * exfalso. apply last_None in El. subst l. destruct (Hnil eq_refl) as [Htl0|?]; [|lia]. rewrite Htl0 in Etl. destruct l1, l2; try done. by apply not_elem_of_nil in Hin.
Qed.
End peek.
