(* ===== verification/DuoHoare.v ===== *)
(** Reasoning about a garbage collection round that runs beside the clients of the store:
    what the data plane and the environment guarantee, and triples over the ghost state
    of the metadata store. *)

From S2P Require Import Prelude Bytes Backend Listing Multipart Codec CodecProofs CodecKeys MetaUtil.
From S2P Require Import RocksDb RocksMeta RocksLedger RocksProofs RocksInv RocksOps RocksParts RocksSteps RocksTheorems RocksStats.
From S2P Require Import DuoWorld DuoGc DuoQueue.
From Stdlib Require Import ZArith Lia.
From stdpp Require Import base list gmap sets strings sorting relations.
Open Scope lights3_scope.

(** The chunk files and pack files on the data plane. *)
Class DataFiles (D : Type) := { chunk_files : D -> gset Z; pack_files : D -> gset Z }.

(** A removal removes nothing else and creates nothing. *)
Class RemovalLaw {DB : Type} (D : Type) {data : DataStore DB D} {files : DataFiles D} : Prop := {
  remove_law es d r d' : ds_remove es d = (r, d') ->
    pack_files d' = pack_files d /\ chunk_files d' ⊆ chunk_files d /\ forall i, i ∈ chunk_files d -> i ∈ chunk_files d' \/ i ∈ ref_ids es;
  remove_pack_law p d r d' : ds_remove_pack p d = (r, d') ->
    chunk_files d' = chunk_files d /\ pack_files d' ⊆ pack_files d /\ forall q, q ∈ pack_files d -> q ∈ pack_files d' \/ q = p }.

(** What ties the ghost state of the store to the world. *)
Class Ghost (DB D : Type) := ghost : Sys (DB := DB) -> World DB D -> Prop.

Section triples.
Context {DB D : Type} {rocks : RocksDB DB} {law : RocksLaw DB} {tied : Ghost DB D}.
Context (md5_hex sha1 sha256 sha256_hex : bytes -> bytes).
Abbreviation step := (meta_step md5_hex sha1 sha256 sha256_hex).
Abbreviation reach := (reachable md5_hex sha1 sha256 sha256_hex).
Abbreviation used_packs s := (uses_pack (tab s kObjects) (tab s kParts)).

(** The id spaces are far from exhausted. *)
Definition spacious (s : Meta DB) : Prop :=
  (forall c, cstat s c < 2 ^ 62)%Z /\ (stored_extents (tab s kObjects) (tab s kParts) < 2 ^ 40)%Z.

(** A sealed pack that no record uses. *)
Definition vacant (s : Meta DB) (p : Z) : Prop :=
  is_u64 p /\ is_Some (tab s kStats !! pack_stat_key p (ch "s")) /\ ~ used_packs s p.

Lemma reach_steps x y : reach x -> rtc step x y -> reach y.
Proof. intros (sync & d & Hf & Hr) Hxy. exists sync, d. split; [done|]. by trans x. Qed.

(** What the steps of others respect, beside the rules of the store. *)
Context (respects : Sys (DB := DB) -> Sys (DB := DB) -> Prop).

(** What the other threads do between two calls, unless the process ends: steps of clients
    of the store that keep the tie and respect the premise. *)
Definition env_ok (env : nat -> World DB D -> option (World DB D)) : Prop :=
  forall n w x w', reach x -> ghost x w -> env n w = Some w' ->
    exists y, rtc step x y /\ ghost y w' /\ spacious (meta y) /\ respects x y.

(** * Triples

    From a ghost state of the world that satisfies [P], a run takes steps of the store
    to a ghost state of the new world that satisfies [Q]; both may speak of the
    collector's memory and of the number of calls so far. *)
Abbreviation G := (ST (GcState DB D) GcErr).
Abbreviation assertion := (Sys -> GcMem -> nat -> Prop).
Definition triple {A} (P : assertion) (m : G A) (Q : res GcErr A -> assertion) : Prop :=
  forall x g o g', reach x -> ghost x (world g) -> P x (mem g) (tick g) -> m g = (o, g') ->
    exists y, rtc step x y /\ ghost y (world g') /\ Q o y (mem g') (tick g').

Lemma triple_weaken {A} (P P' : assertion) (m : G A) Q Q' :
  triple P m Q -> (forall x c n, P' x c n -> P x c n) -> (forall o x c n, Q o x c n -> Q' o x c n) -> triple P' m Q'.
Proof. intros Ht HP HQ x g o g' Hx Hs Hp E. destruct (Ht x g o g' Hx Hs (HP _ _ _ Hp) E) as (y & H1 & H2 & H3). exists y. auto. Qed.

Lemma triple_bind {A B} P (m : G A) R (f : A -> G B) Q :
  triple P m R -> (forall a, triple (R (Ok a)) (f a) Q) -> (forall e x c n, R (Throw e) x c n -> Q (Throw e) x c n) -> triple P (m ≫= f) Q.
Proof.
  intros Hm Hf He x g o g' Hx Hs Hp E. apply ST_bind_run in E as [(a & g1 & E1 & E2)|(e & E1 & ->)].
  - destruct (Hm _ _ _ _ Hx Hs Hp E1) as (y & Hxy & Hy & Hr). destruct (Hf a y g1 o g' (reach_steps _ _ Hx Hxy) Hy Hr E2) as (z & Hyz & Hz & Hq).
    exists z. split_and!; [by trans y|done|done].
  - destruct (Hm _ _ _ _ Hx Hs Hp E1) as (y & Hxy & Hy & Hr). exists y. auto.
Qed.
Lemma triple_ret {A} (P : assertion) (Q : res GcErr A -> assertion) (a : A) :
  (forall x c n, P x c n -> Q (Ok a) x c n) -> triple P (mret a : G A) Q.
Proof. intros HQ x g o g' Hx Hs Hp [= <- <-]. exists x. split_and!; [apply rtc_refl|done|by apply HQ]. Qed.
Lemma triple_throw {A} (P : assertion) (Q : res GcErr A -> assertion) e :
  (forall x c n, P x c n -> Q (Throw e) x c n) -> triple P (throw e : G A) Q.
Proof. intros HQ x g o g' Hx Hs Hp [= <- <-]. exists x. split_and!; [apply rtc_refl|done|by apply HQ]. Qed.

(** Between calls only local state changes. *)
Lemma triple_bump (P : assertion) f : triple P (bump f) (λ _, P).
Proof. intros x g o g' Hx Hs Hp [= <- <-]. exists x. by split_and!; [apply rtc_refl|..]. Qed.
Lemma triple_get_mem P : triple P get_mem (λ o x c n, o = Ok c /\ P x c n).
Proof. intros x g o g' Hx Hs Hp [= <- <-]. exists x. by split_and!; [apply rtc_refl|..]. Qed.
Lemma triple_set_mem (P : assertion) f : triple (λ x c n, P x (f c) n) (set_mem f) (λ _, P).
Proof. intros x g o g' Hx Hs Hp [= <- <-]. exists x. by split_and!; [apply rtc_refl|..]. Qed.
Lemma triple_now clock (P : assertion) :
  triple P (now_ms clock) (λ o x c n', exists n, n' = S n /\ o = Ok (clock n) /\ P x c n).
Proof. intros x g o g' Hx Hs Hp [= <- <-]. exists x. split_and!; [apply rtc_refl|done|by exists (tick g)]. Qed.

Lemma triple_attempt {A} P (m : G A) Q :
  triple P m Q ->
  triple P (attempt m) (λ o x c n, match o with
    | Ok (Some a) => Q (Ok a) x c n
    | Ok None => exists e, Q (Throw (GcThrow e)) x c n
    | Throw e => Q (Throw e) x c n end).
Proof.
  intros Hm x g o g' Hx Hs Hp E. unfold attempt in E. destruct (m g) as [[a|[e| |]] g1] eqn:Em; injection E as <- <-;
    destruct (Hm _ _ _ _ Hx Hs Hp Em) as (y & Hxy & Hy & Hq); exists y; (split_and!; [done|done|]); eauto.
Qed.

Context (env : nat -> World DB D -> option (World DB D)) (Henv : env_ok env).

(** Facts that the steps of others cannot undo. *)
Definition steady (P : Sys -> Prop) : Prop :=
  forall x y, reach x -> rtc step x y -> respects x y -> P x -> P y.
Lemma steady_and P Q : steady P -> steady Q -> steady (λ x, P x /\ Q x).
Proof. intros HP HQ x y ??? [??]. split; eauto. Qed.
Lemma steady_dead (is_ : gset Z) : steady (λ x, forall i, i ∈ is_ -> dead x i).
Proof.
  intros x y Hx Hxy _ Hd i Hi. apply reachable_ok in Hx. destruct (steps_sound _ _ _ _ x y Hx Hxy) as (_ & H & _). by apply H, Hd.
Qed.

Definition as_gc {A} (r : result A) : res GcErr A := match r with Ok a => Ok a | Throw e => Throw (GcThrow e) end.

Lemma triple_call {A} (m : World DB D -> result A * World DB D) (P : assertion) (Q : res GcErr A -> assertion) :
  (forall c n, steady (λ x, P x c n)) ->
  (forall x c n w r w', reach x -> ghost x w -> spacious (meta x) -> P x c n -> m w = (r, w') ->
     exists y, rtc step x y /\ ghost y w' /\ Q (as_gc r) y c (S n)) ->
  (forall x c n, P x c n -> Q (Throw Killed) x c n) ->
  triple P (call env m) Q.
Proof.
  intros HP Hm HK x g o g' Hx Hs Hp E. unfold call in E. destruct (env (tick g) (world g)) as [w0|] eqn:Ee.
  2: { injection E as <- <-. exists x. split_and!; [apply rtc_refl|done|by apply HK]. }
  destruct (Henv (tick g) (world g) x w0 Hx Hs Ee) as (y & Hxy & Hy & Hsp & Hv).
  destruct (m w0) as [r w] eqn:Em. injection E as <- <-.
  destruct (Hm y _ (tick g) _ r w (reach_steps _ _ Hx Hxy) Hy Hsp (HP _ _ x y Hx Hxy Hv Hp) Em) as (z & Hyz & Hz & Hq).
  exists z. split_and!; [by trans y|done|]. by destruct r.
Qed.

Definition timeless (P : assertion) : Prop := (forall c n, steady (λ x, P x c n)) /\ forall x c n, P x c n -> P x c (S n).
(** ** Facts that a run keeps *)
Abbreviation stable P m := (triple P m (λ _, P)).
Lemma stable_bind {A B} P (m : G A) (f : A -> G B) : stable P m -> (forall a, stable P (f a)) -> stable P (m ≫= f).
Proof. intros Hm Hf. by eapply triple_bind. Qed.
Lemma stable_ret {A} P (a : A) : stable P (mret a : G A).
Proof. by apply triple_ret. Qed.
Lemma triple_pure {A} P (phi : Prop) (m : G A) Q : (forall x c n, P x c n -> phi) -> (phi -> triple P m Q) -> triple P m Q.
Proof. intros Hphi Ht x g o g' Hx Hs Hp E. exact (Ht (Hphi _ _ _ Hp) x g o g' Hx Hs Hp E). Qed.
Lemma stable_attempt {A} P (m : G A) : stable P m -> stable P (attempt m).
Proof. intros Hm. eapply triple_weaken; [by apply triple_attempt|done|]. by intros [[]|] x c n; [|intros [_ ?]|]. Qed.
Lemma stable_get P : stable P get_mem.
Proof. eapply triple_weaken; [apply triple_get_mem|done|]. by intros o x c n [_ ?]. Qed.
Lemma stable_set (P : assertion) f : (forall x c n, P x c n -> P x (f c) n) -> stable P (set_mem f).
Proof. intros Hf. eapply triple_weaken; [apply triple_set_mem|exact Hf|done]. Qed.
Lemma now_then {A} clock P (f : Z -> G A) Q : timeless P -> (forall n, triple P (f (clock n)) Q) -> triple P (now_ms clock ≫= f) Q.
Proof.
  intros [_ HT] Hf. eapply triple_bind; [apply triple_now| |by intros e x c n (k & -> & [=] & _)].
  intros a x g o g' Hx Hs (k & Ek & [= ->] & Hp) E. eapply (Hf k x g); [done|done| |done]. rewrite Ek. by apply HT.
Qed.
Lemma stable_now {A} clock P (f : Z -> G A) : timeless P -> (forall n, stable P (f (clock n))) -> stable P (now_ms clock ≫= f).
Proof. apply now_then. Qed.
Lemma stable_then {A B} P (m : G A) (f : A -> G B) Q :
  stable P m -> (forall a, triple P (f a) Q) -> (forall e x c n, P x c n -> Q (Throw e) x c n) -> triple P (m ≫= f) Q.
Proof. intros Hm Hf He. by eapply triple_bind. Qed.

Lemma know_then {A B} P (m : G A) (phi : A -> Prop) (f : A -> G B) Q :
  stable P m -> (forall g a g', m g = (Ok a, g') -> phi a) -> (forall a, phi a -> triple P (f a) Q) ->
  (forall e x c n, P x c n -> Q (Throw e) x c n) -> triple P (m ≫= f) Q.
Proof.
  intros Hm Hphi Hf He x g o g' Hx Hs Hp E. apply ST_bind_run in E as [(a & g1 & E1 & E2)|(e & E1 & ->)];
    destruct (Hm _ _ _ _ Hx Hs Hp E1) as (y & Hxy & Hy & Hr).
  - destruct (Hf a (Hphi _ _ _ E1) y g1 o g' (reach_steps _ _ Hx Hxy) Hy Hr E2) as (z & Hyz & Hz & Hq). exists z. split_and!; [by trans y|done|done].
  - exists y. auto.
Qed.

End triples.

Section frame.
Context {DB D : Type} {rocks : RocksDB DB} {law : RocksLaw DB} {data : DataStore DB D} {files : DataFiles D}.
Context (md5_hex sha1 sha256 sha256_hex : bytes -> bytes).
Abbreviation step := (meta_step md5_hex sha1 sha256 sha256_hex).
Abbreviation reach := (reachable md5_hex sha1 sha256 sha256_hex).
Abbreviation used_packs s := (uses_pack (tab s kObjects) (tab s kParts)).

(** * Files that must be there *)
Definition on_disk (s : Meta DB) (d : D) : Prop :=
  (forall i, live s i -> i ∈ chunk_files d) /\ (forall p, used_packs s p -> p ∈ pack_files d).
Definition seen (x : Sys) (w : World DB D) : Prop := meta x = w_meta w /\ on_disk (meta x) (w_data w).

#[export] Instance seen_ghost : Ghost DB D := seen.

(** The packs that have been empty for the grace period: the premise of that period is
    that no record goes into them any more. *)
Context (old : Z -> Prop).
Definition settles (x y : Sys (DB := DB)) : Prop := forall p, old p -> vacant (meta x) p -> vacant (meta y) p.
Abbreviation assertion := (Sys (DB := DB) -> GcMem -> nat -> Prop).
Abbreviation triple := (triple md5_hex sha1 sha256 sha256_hex).
Abbreviation steady := (steady md5_hex sha1 sha256 sha256_hex settles).
Abbreviation timeless := (timeless md5_hex sha1 sha256 sha256_hex settles).

(** A change of the world that is a run of steps of the store, keeps the files of live
    records and puts nothing into a vacant pack of that kind. *)
Definition moves (w w' : World DB D) : Prop :=
  forall x, reach x -> seen x w -> spacious (meta x) ->
    exists y, rtc step x y /\ seen y w' /\ settles x y.

(** What sealing and rewriting promise: they are changes of the above kind. *)
Class DataLaw : Prop := {
  data_removal :: RemovalLaw D;
  seal_law n w r w' : ds_seal_aged_packs n w = (r, w') -> moves w w';
  rewrite_law p w r w' : ds_rewrite_pack p w = (r, w') -> moves w w' }.

(** ** Consequences *)
Lemma spacious_room s c k : spacious s -> (k <= 2 ^ 49)%Z -> room s c k.
Proof. intros [Hc _] Hk. unfold room, kIdSegment. specialize (Hc c). lia. Qed.
Lemma spacious_ample s : spacious s -> ample s.
Proof. intros Hs. apply spacious_room; [done|]. destruct Hs as [_ Hs]. unfold stored_extents in *. lia. Qed.
Lemma spacious_stored s : spacious s -> (stored_extents (tab s kObjects) (tab s kParts) < 2 ^ 63)%Z.
Proof. intros [_ Hs]. lia. Qed.

(** A step whose writers stay brings no file to life. *)
Lemma same_writers_live s s' issued w :
  minv s' issued w -> keeps s w s' w -> forall i, live s' i -> live s i.
Proof. intros Hi (_ & Hk & _) i Hl. destruct (Hk i (or_introl Hl)) as [?|Hw]; [done|]. by destruct (mi_held _ _ _ Hi i Hl). Qed.

Lemma on_disk_mono s s' d :
  on_disk s d -> (forall i, live s' i -> live s i) -> (forall p, used_packs s' p -> used_packs s p) -> on_disk s' d.
Proof. intros [H1 H2] Hl Hp. split; auto. Qed.

Lemma uses_pack_mono (O P P' : table) p : P' ⊆ P -> uses_pack O P' p -> uses_pack O P p.
Proof.
  intros Hs (e & H1 & H2 & [H3|(k & v & Hv & Hin)]); exists e; (split_and!; [done|done|]); [by left|].
  right. exists k, v. split; [by eapply lookup_weaken|done].
Qed.

Context (env : nat -> World DB D -> option (World DB D)) (Henv : env_ok md5_hex sha1 sha256 sha256_hex settles env).

(** ** Calls into the metadata store *)

(** One call that is a step of the store and leaves its writers. *)
Definition quiet_step {A} (m : ST (Meta DB) S3ErrorCode A) (P : Sys -> Prop) (Q : res GcErr A -> Sys -> Prop) : Prop :=
  forall x o s', reach x -> spacious (meta x) -> P x -> m (meta x) = (o, s') ->
    exists r', let y := mkSys s' (issued x) (writers x) r' in
      rtc step x y /\ Q (as_gc o) y /\ (forall i, live s' i -> live (meta x) i) /\ (forall p, used_packs s' p -> used_packs (meta x) p).

Lemma triple_meta {A} (m : ST (Meta DB) S3ErrorCode A) P Q :
  (forall c n, steady (λ x, P x c n)) -> (forall c n, quiet_step m (λ x, P x c n) (λ o x, Q o x c (S n))) ->
  (forall x c n, P x c n -> Q (Throw Killed) x c n) -> triple P (meta_call env m) Q.
Proof.
  intros HP Hm HK. eapply triple_call; [exact Henv|done| |done]. intros x c n w r w' Hx [Em Hd] Hsp Hp E. unfold on_meta in E. rewrite <- Em in E.
  destruct (m (meta x)) as [o s'] eqn:Eo. injection E as <- <-. destruct (Hm c n x o s' Hx Hsp Hp Eo) as (r' & Hxy & Hq & Hl & Hu).
  eexists. split_and!; [exact Hxy|split; [done|]|exact Hq]. by eapply on_disk_mono.
Qed.

(** A call that only reads. *)
Lemma read_step {A} (m : ST (Meta DB) S3ErrorCode A) (P : Sys -> Prop) Q :
  (forall x o s', reach x -> spacious (meta x) -> P x -> m (meta x) = (o, s') -> s' = meta x /\ Q (as_gc o) x) -> quiet_step m P Q.
Proof.
  intros Hm x o s' Hx Hsp Hp E. destruct (Hm x o s' Hx Hsp Hp E) as [-> Hq]. exists (retired x). destruct x as [s ids w r]; cbn in *.
  split_and!; [apply rtc_refl|done|done|done].
Qed.

(** One that also leaves the seals of packs where they are. *)
Definition calm {A} (m : ST (Meta DB) S3ErrorCode A) : Prop :=
  forall x o s', reach x -> spacious (meta x) -> m (meta x) = (o, s') ->
    exists r', rtc step x (mkSys s' (issued x) (writers x) r') /\ (forall i, live s' i -> live (meta x) i) /\
      (forall p, used_packs s' p -> used_packs (meta x) p) /\
      (forall p, is_Some (tab (meta x) kStats !! pack_stat_key p (ch "s")) -> is_Some (tab s' kStats !! pack_stat_key p (ch "s"))).
Abbreviation stable P m := (triple P m (λ _, P)).

Lemma stable_calm {A} (m : ST (Meta DB) S3ErrorCode A) P : timeless P -> calm m -> stable P (meta_call env m).
Proof.
  intros [HP HT] Hm. apply triple_meta; [done| |done]. intros c n x o s' Hx Hsp Hp E. destruct (Hm x o s' Hx Hsp E) as (r' & Hxy & Hl & Hu & Hs).
  exists r'. split_and!; [done| |done|done]. apply HT. eapply HP; [exact Hx|exact Hxy| |done].
  intros p _ (H1 & H2 & H3). cbn [meta]. split_and!; [done|by apply Hs|]. by intros ?%Hu.
Qed.

(** A call that only reads is calm. *)
Lemma read_calm {A} (m : ST (Meta DB) S3ErrorCode A) :
  (forall s o s', m s = (o, s') -> s' = s) -> calm m.
Proof. intros Hm [s ids w r] o s' Hx Hsp ->%Hm. exists r. split_and!; [apply rtc_refl|done|done|done]. Qed.

Lemma ack_calm l : calm (ack_reclaims l).
Proof.
  intros [s ids w r] o s' Hx Hsp E. cbn [meta issued writers retired] in *. exists (r ∪ entry_files (tab s kGcq) l).
  pose proof (so_inv _ (reachable_ok _ _ _ _ _ Hx)) as Hi. cbn in Hi.
  destruct (ack_reclaims_inv _ _ _ _ _ _ Hi E) as (H1 & H2 & _).
  split_and!; [apply rtc_once; by eapply StAck|unfold live; by rewrite !H2|by rewrite !H2|by rewrite !H2].
Qed.

Lemma seal_tables p size s o s' :
  seal_pack p size s = (o, s') -> (forall c, c <> kStats -> tab s' c = tab s c) /\
  (tab s' kStats = tab s kStats \/ exists v, tab s' kStats = <[pack_stat_key p (ch "s") := v]> (tab s kStats)).
Proof.
  intros E. unfold seal_pack in E. apply ST_bind_run in E as [(known & s1 & Hk & E)|(e & Hk & ->)]; unfold seal_known in Hk.
  all: destruct (size =? 0)%Z; [apply get_raw_bind in Hk as [[-> _]|Hk]; [|apply mret_run in Hk as [Hk ->]]|apply mret_run in Hk as [Hk ->]]; try (split; [done|by left]).
  all: case_bool_decide; [apply mret_run in E as [-> ->]; split; [done|by left]|]; rewrite encode_counter_eq, ST_bind_eq in E; cbn [lift] in E; apply commit_run in E.
  all: destruct o; [|subst; split; [done|by left]]; destruct E as [Ht _]; split; [|right; eexists; rewrite Ht; by eval_batch].
  all: intros c Hc; rewrite Ht, on_cf_none; [done|by repeat constructor].
Qed.

Lemma seal_calm p size : is_u64 p -> calm (seal_pack p size).
Proof.
  intros Hp [s ids w r] o s' Hx Hsp E. cbn [meta issued writers retired] in *. exists r.
  destruct (seal_tables _ _ _ _ _ E) as [Ht Hs].
  split_and!; [apply rtc_once; by eapply StSeal|unfold live; by rewrite !Ht|by rewrite !Ht|].
  intros q Hq. destruct Hs as [-> |[v ->]]; [done|]. apply lookup_insert_is_Some'. by right.
Qed.

Lemma abort_calm (b k id : bytes) t : is_i64 t -> calm (abort_upload b k id t).
Proof.
  intros Ht [s ids w r] o s' Hx Hsp E. cbn [meta issued writers retired] in *. exists r.
  pose proof (so_inv _ (reachable_ok _ _ _ _ _ Hx)) as Hi. cbn in Hi. pose proof (spacious_ample _ Hsp) as Ham.
  destruct (abort_upload_inv _ _ _ _ _ _ _ _ _ Hi Ham Ht E) as [Hi' Hk].
  split_and!; [apply rtc_once; by eapply StAbort|by eapply same_writers_live| |].
  all: destruct (abort_upload_run _ _ _ _ _ _ _ _ _ Hi Ham Ht E) as [[[Ho _] _]|(_ & ukey & pfx & L & Huk & Hp & HL & Hc)].
  - intros p. by rewrite !(oc_tab _ _ _ Ho).
  - cbv zeta in Hc. destruct Hc as (s1 & ops & En & O1 & _ & Hap & Hac & _). destruct Hap as [Hta _].
    assert (tab s' kObjects = tab s kObjects /\ tab s' kParts = without (part_data b k id L).*1 (tab s kParts)) as [-> ->].
    { rewrite !Hta, !on_cf_app, !(ac_other _ _ _ _ _ Hac), !app_nil_r by done. rewrite !(oc_tab _ _ _ O1) by done. eval_batch.
      split; [done|]. rewrite <- (parts_range _ b k id pfx L HL Hp). done. }
    intros p. apply uses_pack_mono, map_filter_subseteq.
  - intros p. by rewrite (oc_stats _ _ _ Ho) by apply pack_stat_not_counter.
  - cbv zeta in Hc. destruct Hc as (s1 & ops & En & O1 & _ & Hap & Hac & _). destruct Hap as [Hta _].
    intros p. rewrite Hta, on_cf_app. rewrite (on_cf_none kStats); [|by repeat constructor]. cbn [app].
    rewrite (sd_other _ _ _ (ac_stats _ _ _ _ _ Hac)), (oc_stats _ _ _ O1); [done|apply pack_stat_not_counter|].
    intros q f Hq%(f_equal last). unfold pack_stat_key in Hq. rewrite !app_assoc, !last_snoc in Hq. by injection Hq as <-.
Qed.

Lemma drop_tables p s o s' :
  drop_pack_stat p s = (o, s') -> (forall c, c <> kStats -> tab s' c = tab s c) /\
  (forall q f, q <> p -> is_u64 p -> is_u64 q -> tab s' kStats !! pack_stat_key q f = tab s kStats !! pack_stat_key q f).
Proof.
  intros E. unfold drop_pack_stat in E. apply commit_run in E. destruct o; [|by subst]. destruct E as [Ht _]. split.
  - intros c Hc. rewrite Ht, on_cf_none; [done|by repeat constructor].
  - intros q f Hne Hp Hq. rewrite Ht. cbn [fmap list_fmap]. eval_batch. rewrite !lookup_delete_ne; [done|..]; intros [? _]%pack_stat_key_inj; done.
Qed.

(** A vacant pack may be written off, and the other vacant packs stay so. *)
Lemma drop_step p (V : Z -> Prop) :
  is_u64 p -> ~ V p ->
  quiet_step (drop_pack_stat p) (λ x, vacant (meta x) p /\ forall q, V q -> vacant (meta x) q) (λ _ x, forall q, V q -> vacant (meta x) q).
Proof.
  intros Hp HV [s ids w r] o s' Hx Hsp [(_ & Hsl & Hu) HVq] E. cbn [meta issued writers retired] in *. exists r. cbv zeta.
  pose proof (so_inv _ (reachable_ok _ _ _ _ _ Hx)) as Hi. cbn in Hi. destruct (drop_tables _ _ _ _ E) as [Ht Hs].
  split_and!; [apply rtc_once; eapply StDropStat; try done| |unfold live; by rewrite !Ht|by rewrite !Ht].
  - by apply spacious_stored.
  - rewrite (pack_counted s ids w p) by (done || by apply spacious_stored). by apply ledger_recs_uses.
  - intros q Hq. destruct (HVq q Hq) as (H1 & H2 & H3). cbn [meta]. split_and!; [done| |by rewrite !Ht].
    rewrite Hs; [done|by intros ->|done|done].
Qed.

(** ** Calls into the data plane *)
Context {dlaw : DataLaw}.

Lemma stable_remove es P :
  timeless P -> (forall x c n, P x c n -> forall i, i ∈ ref_ids es -> ~ live (meta x) i) -> stable P (data_call env (ds_remove es)).
Proof.
  intros [HP HT] Hd. eapply triple_call; [exact Henv|done| |done]. intros x c n w r w' Hx [Em [H1 H2]] Hsp Hp E. unfold on_data in E.
  destruct (ds_remove es (w_data w)) as [r0 d] eqn:Ed. injection E as <- <-. destruct (remove_law _ _ _ _ Ed) as (L1 & _ & L2).
  exists x. split_and!; [apply rtc_refl| |by apply HT]. split; [done|]. split; cbn [w_data].
  - intros i Hl. destruct (L2 i (H1 i Hl)) as [?|Hin]; [done|]. by destruct (Hd _ _ _ Hp i Hin).
  - intros p Hu. rewrite L1. auto.
Qed.

Lemma stable_remove_pack p P :
  timeless P -> (forall x c n, P x c n -> ~ used_packs (meta x) p) -> stable P (data_call env (ds_remove_pack p)).
Proof.
  intros [HP HT] Hd. eapply triple_call; [exact Henv|done| |done]. intros x c n w r w' Hx [Em [H1 H2]] Hsp Hp E. unfold on_data in E.
  destruct (ds_remove_pack p (w_data w)) as [r0 d] eqn:Ed. injection E as <- <-. destruct (remove_pack_law _ _ _ _ Ed) as (L1 & _ & L2).
  exists x. split_and!; [apply rtc_refl| |by apply HT]. split; [done|]. split; cbn [w_data].
  - intros i Hl. rewrite L1. auto.
  - intros q Hu. destruct (L2 q (H2 q Hu)) as [?| ->]; [done|]. by destruct (Hd _ _ _ Hp).
Qed.

Lemma stable_moves {A} (m : World DB D -> result A * World DB D) P :
  timeless P -> (forall w r w', m w = (r, w') -> moves w w') -> stable P (call env m).
Proof.
  intros [HP HT] Hm. eapply triple_call; [exact Henv|done| |done]. intros x c n w r w' Hx Hs Hsp Hp E.
  destruct (Hm _ _ _ E x Hx Hs Hsp) as (y & Hxy & Hy & Hv). exists y. split_and!; [done|done|]. apply HT. by eapply HP.
Qed.

Lemma stable_look {A} (f : World DB D -> A) P : timeless P -> stable P (look env f).
Proof.
  intros [HP HT]. eapply triple_call; [exact Henv|done| |done]. intros x c n w r w' Hx Hs Hsp Hp [= <- <-]. exists x. split_and!; [apply rtc_refl|done|by apply HT].
Qed.
End frame.
Arguments DataLaw DB D {_ _ _ _} _ _ _ _ _.
