(* ===== verification/DuoSafety.v ===== *)
(** A round of the garbage collector deletes no file that a live record uses, whatever
    clients do meanwhile. *)

From S2P Require Import Prelude Bytes Backend Listing Multipart Codec CodecProofs CodecKeys MetaUtil.
From S2P Require Import RocksDb RocksMeta RocksLedger RocksProofs RocksInv RocksOps RocksParts RocksSteps RocksTheorems RocksStats.
From S2P Require Import DuoWorld DuoGc DuoQueue DuoHoare.
From Stdlib Require Import ZArith Lia.
From stdpp Require Import base list gmap sets strings sorting relations.
Open Scope lights3_scope.

(** What a scan of the queue reads is in the queue. *)
Lemma peek_entries {DB} {rocks : RocksDB DB} {law : RocksLaw DB} {bound : Passed} mx mn me s o s' issued writers :
  minv s issued writers -> peek_reclaims mx mn me s = (o, s') ->
  s' = s /\ forall l q r, o = Ok l -> (q, r) ∈ l -> entry_at (tab s kGcq) q r.
Proof.
  intros Hi E. unfold peek_reclaims in E. apply items_bind in E as [[-> [e ->]]|E]; [done|].
  apply lift_run in E as [-> ->]. split; [done|]. intros l q r E Hin. unfold it_seek in E.
  destruct (seek_from_split [] (be64_key mn) (map_items bytes_le (tab s kGcq))) as (sk & _ & Hl & _ & _).
  destruct (peek_loop_prefix _ _ _ _ _ _ E) as (l1 & l2 & Etl & HF & _). apply list_elem_of_lookup in Hin as [i Hq].
  destruct (Forall2_lookup_r _ _ _ _ _ HF Hq) as ([k v] & Hkv & Hk & Hv). cbn [fst snd] in *. apply list_elem_of_lookup_2 in Hkv.
  assert (tab s kGcq !! k = Some v) as HG.
  { apply (map_items_elem bytes_le). rewrite Hl. apply elem_of_app. right. rewrite Etl. apply elem_of_app. by left. }
  destruct (proj1 (mi_queue _ _ _ Hi) k) as (q' & Hq' & ->); [by exists v|]. rewrite parse_be64_key in Hk by done. injection Hk as <-.
  split; [done|]. by exists v.
Qed.

Section reads.
Context {DB : Type} {rocks : RocksDB DB} {law : RocksLaw DB}.
Implicit Types s : Meta DB.
Lemma list_buckets_reads s o s' : list_buckets s = (o, s') -> s' = s.
Proof. intros [[-> _]|E]%items_bind; [done|]. by apply lift_run in E as [_ ->]. Qed.
Lemma list_uploads_reads b km im lim pre s o s' : list_uploads b km im lim pre s = (o, s') -> s' = s.
Proof. intros [[-> _]|[_ [[-> _]|E]%items_bind]]%require_bucket_bind; [done..|]. by apply lift_run in E as [_ ->]. Qed.
End reads.

Section safety.
Context {DB D : Type} {rocks : RocksDB DB} {law : RocksLaw DB} {data : DataStore DB D} {files : DataFiles D}.
Context (md5_hex sha1 sha256 sha256_hex : bytes -> bytes) (old : Z -> Prop).
Abbreviation step := (meta_step md5_hex sha1 sha256 sha256_hex).
Abbreviation reach := (reachable md5_hex sha1 sha256 sha256_hex).
Abbreviation used_packs s := (uses_pack (tab s kObjects) (tab s kParts)).
Abbreviation G := (ST (GcState DB D) GcErr).
Abbreviation assertion := (Sys (DB := DB) -> GcMem -> nat -> Prop).
Abbreviation triple := (triple md5_hex sha1 sha256 sha256_hex).
Abbreviation stable P m := (triple P m (λ _, P)).
Abbreviation timeless := (timeless md5_hex sha1 sha256 sha256_hex (settles old)).
Context {dlaw : DataLaw DB D md5_hex sha1 sha256 sha256_hex old}.
Context (env : nat -> World DB D -> option (World DB D)) (Henv : env_ok md5_hex sha1 sha256 sha256_hex (settles old) env).
Context (clock : nat -> Z) (Hclock : forall n, is_i64 (clock n)) (cfg : GcConfig).

(** * 1. Expired uploads, sealing and rewriting *)
Section common.
Context (P : assertion) (HP : timeless P).

Lemma stable_reads {A} (m : ST (Meta DB) S3ErrorCode A) : (forall s o s', m s = (o, s') -> s' = s) -> stable P (meta_call env m).
Proof. intros Hm. eapply stable_calm; [exact Henv|done|by apply read_calm]. Qed.

Lemma stable_expire_each now ttl b l : stable P (expire_each env clock now ttl b l).
Proof.
  induction l as [|u l IH]; [by apply stable_ret|]. cbn [expire_each]. apply stable_bind; [|done].
  destruct (_ <? ttl)%Z; [apply stable_ret|]. eapply stable_now; [done|]. intros n. apply stable_bind.
  - apply stable_attempt. eapply stable_calm; [exact Henv|done|]. by apply abort_calm.
  - intros [[]|]; [apply triple_bump|apply stable_ret].
Qed.
Lemma stable_expire : stable P (expire_uploads cfg env clock).
Proof.
  unfold expire_uploads. cbv zeta. destruct (0 <? _)%Z; [|apply stable_ret]. eapply stable_now; [done|]. intros n.
  apply stable_bind; [|intros; apply stable_ret]. apply stable_attempt, stable_bind; [apply stable_reads, list_buckets_reads|].
  intros l. induction l as [|b l IH]; [by apply stable_ret|]. cbn [expire_buckets]. apply stable_bind; [apply stable_attempt, stable_reads, list_uploads_reads|].
  intros r. apply stable_bind; [|done]. destruct r; [apply stable_expire_each|apply stable_ret].
Qed.
Lemma stable_seal_aged : stable P (seal_aged cfg env).
Proof.
  unfold seal_aged. destruct (0 <? _)%Z; [|apply stable_ret]. apply stable_bind.
  - apply stable_attempt. eapply stable_moves; [exact Henv|done|]. intros. by eapply seal_law.
  - intros [n|]; [apply triple_bump|apply stable_ret].
Qed.

(** * 2. The reclaim queue *)
Lemma stable_reclaim_one floor now q rc acc :
  (forall x c n, P x c n -> forall i, i ∈ ref_ids (rc_extents rc) -> dead x i) -> stable P (reclaim_one cfg env floor now q rc acc).
Proof.
  intros Hd. unfold reclaim_one. destruct acc as [skips acked].
  destruct (_ <? _)%Z; [apply stable_bind; intros; [apply triple_bump|apply stable_ret]|].
  destruct (match floor with Some _ => _ | None => _ end); [apply stable_bind; intros; [apply triple_bump|apply stable_ret]|].
  apply stable_bind; [eapply stable_look; [exact Henv|done]|]. intros pin. case_bool_decide; [apply stable_bind; intros; [apply triple_bump|apply stable_ret]|].
  apply stable_bind; [apply stable_attempt; eapply stable_remove; [exact Henv|done|done|]|].
  - intros x c n Hp i Hi. by destruct (Hd x c n Hp i Hi) as (_ & _ & ?).
  - intros [[]|]; [apply stable_bind; intros; [apply triple_bump|apply stable_ret]|apply stable_ret].
Qed.
Lemma stable_reclaim_batch floor now l acc :
  (forall x c n, P x c n -> forall q rc, (q, rc) ∈ l -> forall i, i ∈ ref_ids (rc_extents rc) -> dead x i) ->
  stable P (reclaim_batch cfg env floor now l acc).
Proof.
  revert acc. induction l as [|[q rc] l IH]; intros acc Hd; [apply stable_ret|]. cbn [reclaim_batch]. apply stable_bind.
  - apply stable_reclaim_one. intros x c n Hp. apply (Hd x c n Hp q). left.
  - intros acc'. apply IH. intros x c n Hp q' rc' Hin. apply (Hd x c n Hp q'). by right.
Qed.
End common.

(** A file of a queued entry is dead, and stays so. *)
Lemma entry_dead x q rc i : reach x -> entry_at (tab (meta x) kGcq) q rc -> i ∈ ref_ids (rc_extents rc) -> dead x i.
Proof.
  intros Hx He Hi. apply reachable_ok, so_inv in Hx. pose proof (mi_queued _ _ _ Hx i (entry_files_queued _ _ _ _ He Hi)) as Hq.
  by destruct Hq as (? & ? & ?).
Qed.

Lemma timeless_dead P (is_ : gset Z) : timeless P -> timeless (λ x c n, P x c n /\ forall i, i ∈ is_ -> dead x i).
Proof. intros [HP HT]. split; [intros c n; by apply steady_and, steady_dead|]. naive_solver. Qed.

Definition batch_ids (l : list (Z * Reclaim)) : gset Z := ⋃ ((λ e, ref_ids (rc_extents e.2)) <$> l).
Lemma batch_ids_elem l q rc i : (q, rc) ∈ l -> i ∈ ref_ids (rc_extents rc) -> i ∈ batch_ids l.
Proof. intros Hin Hi. apply elem_of_union_list. eexists. split; [|exact Hi]. apply list_elem_of_fmap. by exists (q, rc). Qed.

Lemma stable_reclaim_loop P floor fuel next skips : timeless P -> stable P (reclaim_loop cfg env clock floor fuel next skips).
Proof.
  intros HP. revert next skips. induction fuel as [|f IH]; intros next skips; [by apply triple_throw|]. cbn [reclaim_loop].
  eapply (triple_bind _ _ _ _ _ _ (λ o x c n, P x c n /\ forall l, o = Ok l -> forall i, i ∈ batch_ids l -> dead x i)); [| |naive_solver].
  - eapply triple_meta; [exact Henv|apply HP| |done]. intros c n. apply read_step. intros x o s' Hx Hsp Hp E.
    destruct (peek_entries _ _ _ _ _ _ _ _ (so_inv _ (reachable_ok _ _ _ _ _ Hx)) E) as [-> He]. split_and!; [done|by apply HP|].
    intros l El i Hi. destruct o; [injection El as ->|done]. apply elem_of_union_list in Hi as (X & ([q rc] & -> & Hin)%list_elem_of_fmap & Hi).
    by eapply entry_dead; [done|eapply He|].
  - intros l. apply (triple_weaken _ _ _ _ (λ x c n, P x c n /\ forall i, i ∈ batch_ids l -> dead x i) _ _ (λ _, P)); [|naive_solver|done].
    case_bool_decide; [apply triple_ret; naive_solver|]. pose proof (timeless_dead P (batch_ids l) HP) as HP'.
    eapply now_then; [done|]. intros n. apply stable_then; [|intros acc|naive_solver].
    { apply stable_reclaim_batch; [done|]. intros x c k [_ Hd] q rc Hin i Hi. by apply Hd, (batch_ids_elem l q rc). }
    apply stable_then; [|intros []|naive_solver].
    { case_bool_decide; [apply stable_ret|]. apply stable_bind; intros; [eapply stable_calm; [exact Henv|done|apply ack_calm]|apply triple_bump]. }
    eapply triple_weaken; [apply IH|naive_solver|done].
Qed.

Lemma stable_consume P floor fuel :
  timeless P -> (forall x c k h n, P x c n -> P x (set_skips k (set_hi h c)) n) ->
  stable P (consume_queue cfg env clock floor fuel).
Proof.
  intros HP HM. unfold consume_queue. eapply stable_now; [done|]. intros n. apply stable_bind; [apply stable_get|]. intros m.
  apply stable_bind; [by apply stable_reclaim_loop|]. intros r. apply stable_set. intros x c k. apply HM.
Qed.

(** * 3. Compaction *)
Lemma pack_stats_reads (s : Meta DB) o s' : pack_stats s = (o, s') -> s' = s.
Proof. intros [[-> _]|E]%items_bind; [done|]. by apply lift_run in E as [_ ->]. Qed.
Lemma pack_stats_ids (g : GcState DB D) l g' : meta_call env pack_stats g = (Ok l, g') -> Forall (λ ps, is_u64 (ps_pack_id ps)) l.
Proof.
  unfold meta_call, call, on_meta. destruct (env _ _) as [w0|]; [|by intros [=]]. destruct (pack_stats _) as [[l'|] s'] eqn:E; [|by intros [=]]. intros [= <- _].
  apply (pack_stats_run md5_hex sha1 sha256 sha256_hex) in E as (_ & _ & H & _). apply list.Forall_forall. intros ps Hps. by apply H.
Qed.
Lemma candidate_id now ps (g : GcState DB D) c g' : candidate cfg env now ps g = (Ok (Some c), g') -> cc_pack_id c = ps_pack_id ps.
Proof.
  unfold candidate. destruct (_ || _); [by intros [=]|]. intros [(sz & g1 & _ & E)|(e & _ & [=])]%ST_bind_run. cbv zeta in E.
  destruct (_ && _); [by inversion E|]. apply ST_bind_run in E as [(pk & g2 & _ & E)|(e & _ & [=])].
  case_bool_decide; [by inversion E|]. apply ST_bind_run in E as [(m & g3 & _ & E)|(e & _ & [=])].
  destruct (cooling _ _ _); [by inversion E|]. by injection E as <- _.
Qed.
Lemma candidates_ids now l (g : GcState DB D) cs g' :
  candidates cfg env now l g = (Ok cs, g') -> forall c, c ∈ cs -> exists ps, ps ∈ l /\ cc_pack_id c = ps_pack_id ps.
Proof.
  revert g cs g'. induction l as [|ps l IH]; intros g cs g' E c Hc; cbn [candidates] in E.
  { injection E as <- _. by apply not_elem_of_nil in Hc. }
  apply ST_bind_run in E as [(co & g1 & E1 & E)|(e & _ & [=])]. apply ST_bind_run in E as [(rest & g2 & E2 & E)|(e & _ & [=])].
  injection E as <- _. destruct co as [c0|]; [apply elem_of_cons in Hc as [->|Hc]; [exists ps; split; [left|by eapply candidate_id]|]|];
    destruct (IH _ _ _ E2 c Hc) as (ps' & ? & ?); exists ps'; (split; [by right|done]).
Qed.

Section compact.
Context (P : assertion) (HP : timeless P).
Context (HM : forall x c qs n, P x c n -> P x (set_quarantined qs c) n).

Lemma stable_seal p size : is_u64 p -> stable P (meta_call env (seal_pack p size)).
Proof. intros Hp. eapply stable_calm; [exact Henv|done|by apply seal_calm]. Qed.

Lemma stable_candidate now ps : is_u64 (ps_pack_id ps) -> stable P (candidate cfg env now ps).
Proof.
  intros Hu. unfold candidate. destruct (_ || _); [apply stable_ret|]. apply stable_bind.
  { unfold backfill_size. destruct (_ =? _)%Z; [|apply stable_ret]. apply stable_bind; [eapply stable_look; [exact Henv|done]|].
    intros sz. destruct (0 <? sz)%Z; [|apply stable_ret]. apply stable_bind; [by apply stable_seal|intros; apply stable_ret]. }
  intros size. cbv zeta. destruct (_ && _); [apply stable_ret|]. apply stable_bind.
  { unfold in_quarantine. apply stable_bind; [apply stable_get|]. intros m. destruct (_ !! _) as [q|]; [|apply stable_ret].
    destruct (_ && _); [|apply stable_ret]. apply stable_bind; [|intros; apply stable_ret]. apply stable_set. intros x c n. apply HM. }
  intros parked. case_bool_decide; [apply stable_ret|]. apply stable_bind; [apply stable_get|]. intros m. destruct (cooling _ _ _); apply stable_ret.
Qed.
Lemma stable_candidates now l : Forall (λ ps, is_u64 (ps_pack_id ps)) l -> stable P (candidates cfg env now l).
Proof.
  induction 1 as [|ps l Hps Hl IH]; [apply stable_ret|]. cbn [candidates]. apply stable_bind; [by apply stable_candidate|]. intros co.
  apply stable_bind; [done|]. intros rest. apply stable_ret.
Qed.

Lemma stable_rewrite_packs ci l acc : Forall (λ c, is_u64 (cc_pack_id c)) l -> stable P (rewrite_packs cfg env ci l acc).
Proof.
  intros Hl. revert ci acc. induction Hl as [|c l Hc Hl IH]; intros ci acc; [apply stable_ret|]. cbn [rewrite_packs].
  destruct (over_budget _ _ _); [apply stable_bind; intros; [apply triple_bump|apply stable_ret]|]. apply stable_bind; [|done].
  unfold rewrite_one. apply stable_bind; [apply stable_attempt; eapply stable_moves; [exact Henv|done|]; intros; by eapply rewrite_law|].
  intros [rw|]; [|apply stable_ret]. apply stable_bind; [apply triple_bump|]. intros []. apply stable_bind; [|intros; apply stable_ret].
  destruct (_ && _); [|apply stable_ret]. apply stable_bind; [by apply stable_attempt, stable_seal|intros; apply stable_ret].
Qed.

Lemma stable_compact : stable P (compact cfg env clock).
Proof.
  unfold compact. eapply stable_now; [done|]. intros n. eapply know_then; [apply stable_reads; [done|apply pack_stats_reads]|apply pack_stats_ids| |done].
  intros l Hl. cbn beta in Hl. eapply (know_then _ _ _ _ _ _ (λ cs, forall c, c ∈ cs -> exists ps, ps ∈ l /\ cc_pack_id c = ps_pack_id ps)); [by apply stable_candidates|apply candidates_ids| |done]. intros cs Hcs.
  apply stable_rewrite_packs. unfold sort_cands. rewrite merge_sort_Permutation. apply list.Forall_forall. intros c (ps & Hps & ->)%Hcs.
  rewrite list.Forall_forall in Hl. by apply Hl.
Qed.
End compact.

(** * 4. Empty packs *)
Section packs.
(** A further fact [F] that steps of the store keep and that does not depend on what the
    collector remembers about packs. *)
Context (F : assertion) (HF : forall c n x y, reach x -> rtc step x y -> F x c n -> F y c n) (HT : forall x c n, F x c n -> F x c (S n)).
Context (HFM : forall x c c' n, gcq_skips c' = gcq_skips c -> gcq_hi c' = gcq_hi c -> F x c n -> F x c' n).
Context (e0 : gmap Z Z) (Hgrace : (0 < gc_grace_sec cfg)%Z).
Context (Hold : forall p since n, e0 !! p = Some since -> (grace_ms cfg <= clock n - since)%Z -> old p).

(** The packs in [V] are vacant, and the memory of those in [L] is that of the start. *)
Definition still (V : Z -> Prop) (L : list Z) : assertion := λ x c n,
  (F x c n /\ forall p, V p -> old p /\ vacant (meta x) p) /\ forall p, p ∈ L -> pack_empty_since c !! p = e0 !! p.
Lemma still_timeless V L : timeless (still V L).
Proof.
  split; [|intros x c n [[? ?] ?]; split; [split; [by apply HT|done]|done]]. intros c n x y Hx Hxy Hv [[H0 H1] H2].
  split; [split; [by eapply HF|]|done]. intros p [Ho Hp]%H1. auto.
Qed.
Lemma still_frame V L x c n : still V L x c n -> F x c n.
Proof. by intros [[? _] _]. Qed.
Lemma still_mono V V' L L' x c n : (forall p, V' p -> V p) -> L' ⊆ L -> still V L x c n -> still V' L' x c n.
Proof. intros HV HL [[H0 H1] H2]. split; [split|]; auto. Qed.

(** The packs of a list that a round may delete. *)
Definition empties (l : list PackStat) (p : Z) : Prop :=
  old p /\ exists ps, ps ∈ l /\ ps_pack_id ps = p /\ sealed ps = true /\ live_recs ps = 0%Z.

Lemma set_since (V : Z -> Prop) (L : list Z) (f : gmap Z Z -> gmap Z Z) p (u : GcMem -> GcMem) :
  p ∉ L -> (forall m q, q <> p -> f m !! q = m !! q) ->
  (forall c, pack_empty_since (u c) = f (pack_empty_since c) /\ gcq_skips (u c) = gcq_skips c /\ gcq_hi (u c) = gcq_hi c) ->
  stable (still V L) (set_mem u).
Proof. intros Hp Hf Hu. apply stable_set. intros x c n [[H0 H1] H2]. destruct (Hu c) as (U1 & U2 & U3). split; [split; [by apply (HFM x c)|done]|]. intros q Hq. rewrite U1, Hf; [auto|]. by intros ->. Qed.

Lemma remove_vacant p V L :
  is_u64 p -> ~ V p -> p ∉ L ->
  triple (still (λ q, V q \/ q = p) L)
    (_ ← data_call env (ds_remove_pack p);
     _ ← meta_call env (drop_pack_stat p);
     _ ← set_mem (λ m, set_empty_since (delete p (pack_empty_since m)) m);
     _ ← bump add_packs_removed;
     set_mem (λ m, set_quarantined (delete p (quarantined m)) m)) (λ _, still V L).
Proof.
  intros Hp HV HL. eapply stable_then.
  - eapply stable_remove_pack; [exact Henv|done|apply still_timeless|]. intros x c n [[_ H1] _]. by destruct (H1 p ltac:(by right)) as [_ (_ & _ & ?)].
  - intros []. eapply (triple_bind _ _ _ _ _ _ (λ _, still V L)).
    + eapply triple_meta; [exact Henv|apply still_timeless| |by intros x c n; apply still_mono; [auto|]]. intros c n x o s' Hx Hsp [[H0 H1] H2] E.
      destruct (drop_step md5_hex sha1 sha256 sha256_hex p V Hp HV x o s' Hx Hsp) as (r' & Hr & Hq & Hl & Hu); [|done|].
      { split; [by apply H1; right|]. intros q Hq. by apply H1; left. }
      exists r'. split_and!; [done| |done|done]. split; [split; [by apply HT; eapply HF|]|done]. intros q Hq'. split; [by apply H1; left|by apply Hq].
    + intros []. apply stable_bind; [apply (set_since V L (delete p) p); [done| |done]; intros m q Hq; by rewrite lookup_delete_ne|].
      intros []. apply stable_bind; [apply triple_bump|]. intros []. apply stable_set. intros x c n [[? ?] ?]. split; [split; [by apply (HFM x c)|done]|done].
    + done.
  - intros e x c n. apply still_mono; [auto|done].
Qed.

Lemma empties_cons ps l p : empties l p -> empties (ps :: l) p.
Proof. intros (Ho & ps' & ? & ?). split; [done|]. exists ps'. split; [by right|done]. Qed.

Lemma remove_empty_spec floor k ps l :
  is_u64 (ps_pack_id ps) -> ps_pack_id ps ∉ ps_pack_id <$> l ->
  triple (still (empties (ps :: l)) (ps_pack_id <$> ps :: l)) (remove_empty cfg env floor (clock k) ps) (λ _, still (empties l) (ps_pack_id <$> l)).
Proof.
  intros Hu Hn. set (p := ps_pack_id ps) in *.
  assert (forall x c n, still (empties (ps :: l)) (p :: (ps_pack_id <$> l)) x c n -> still (empties l) (ps_pack_id <$> l) x c n) as Hmono.
  { intros x c n. apply still_mono; [apply empties_cons|]. by apply list_subseteq_cons. }
  unfold remove_empty. cbv zeta. fold p. destruct (negb (sealed ps) || negb (live_recs ps =? 0)%Z) eqn:Es.
  { eapply triple_weaken; [apply (set_since (empties l) (ps_pack_id <$> l) (delete p) p)|apply Hmono|]; [done| |done|done].
    intros m q Hq. by rewrite lookup_delete_ne. }
  apply orb_false_iff in Es as [Es1%negb_false_iff Es2%negb_false_iff]. apply Z.eqb_eq in Es2.
  eapply triple_bind; [apply triple_get_mem| |intros e x c n [[=] _]]. intros m.
  apply (triple_pure _ _ _ _ _ (pack_empty_since m !! p = e0 !! p)); [intros x c n [[= ->] [_ H]]; apply H; left|]. intros Em.
  apply (triple_bind _ _ _ _ _ _ (λ _, still (empties (ps :: l)) (ps_pack_id <$> l))); [| |by intros e x c n; apply still_mono; [apply empties_cons|]].
  { eapply triple_weaken; [apply (triple_set_mem _ _ _ _ (still (empties (ps :: l)) (ps_pack_id <$> l)))| |done]. intros x c n [[= ->] [[H0 H1] H2]]. split; [split; [by apply (HFM x c)|done]|]. intros q Hq. cbn [pack_empty_since set_empty_since].
    rewrite lookup_insert_ne by (by intros ->). apply H2. by right. }
  intros []. destruct (too_recent _ _ _ _) eqn:Er; [apply triple_ret; intros x c n; by apply still_mono; [apply empties_cons|]|].
  apply orb_false_iff in Er as [Er%Z.ltb_ge _]. assert (empties (ps :: l) p) as He.
  { split; [|exists ps; split_and!; [left|done|done|done]]. rewrite Em in Er. destruct (e0 !! p) as [since|] eqn:Ep; cbn in Er; [by eapply (Hold p since k)|].
    unfold grace_ms in Er. lia. }
  assert (~ empties l p) as Hne by (intros (_ & ps' & Hin & Hp' & _); apply Hn; rewrite <- Hp'; by apply list_elem_of_fmap_2).
  apply stable_then; [eapply stable_look; [exact Henv|apply still_timeless]|intros pin|by intros e x c n; apply still_mono; [apply empties_cons|]].
  case_bool_decide; [apply triple_ret; intros x c n; by apply still_mono; [apply empties_cons|]|].
  eapply (triple_bind _ _ _ _ _ _ (λ _, still (empties l) (ps_pack_id <$> l))); [|intros; by apply triple_ret|done].
  eapply triple_weaken; [apply triple_attempt, (remove_vacant p (empties l) (ps_pack_id <$> l) Hu Hne Hn)| |by intros [[]|] x c n; [|intros [_ ?]|]].
  intros x c n. apply still_mono; [|done]. intros q [Hq| ->]; [by apply empties_cons|done].
Qed.

Lemma remove_empties_spec floor k l :
  Forall (λ ps, is_u64 (ps_pack_id ps)) l -> NoDup (ps_pack_id <$> l) ->
  triple (still (empties l) (ps_pack_id <$> l)) (remove_empties cfg env floor (clock k) l) (λ _, F).
Proof.
  induction 1 as [|ps l Hps Hl IH]; intros Hn; [by apply triple_ret, still_frame|]. cbn [remove_empties].
  cbn [fmap list_fmap] in Hn. apply NoDup_cons in Hn as [Hn1 Hn2].
  eapply triple_bind; [by apply remove_empty_spec|intros []; by apply IH|intros e; apply still_frame].
Qed.

Lemma delete_packs_spec floor rw :
  triple (λ x c n, F x c n /\ pack_empty_since c = e0) (delete_packs cfg env clock floor rw) (λ _, F).
Proof.
  assert (timeless (λ x c n, F x c n /\ pack_empty_since c = e0)) as HP.
  { split; [intros c n x y Hx Hxy _ [? ?]; split; [by eapply HF|done]|]. intros x c n [? ?]. auto. }
  unfold delete_packs. eapply now_then; [done|]. intros k.
  eapply (triple_bind _ _ _ _ _ _ (λ o x c n, F x c n /\ forall l, o = Ok l -> NoDup (ps_pack_id <$> l) /\ Forall (λ ps, is_u64 (ps_pack_id ps)) l /\ still (empties l) (ps_pack_id <$> l) x c n)); [| |by intros e x c n [? _]].
  - eapply triple_meta; [exact Henv|apply HP| |by intros x c n [? _]]. intros c n. apply read_step. intros x o s' Hx Hsp [H0 He] E.
    pose proof (pack_stats_reads _ _ _ E) as ->. split_and!; [done|by apply HT|]. intros l El. destruct o as [l'|]; [injection El as ->|done].
    apply (pack_stats_run md5_hex sha1 sha256 sha256_hex) in E as (_ & H1 & H2 & _). split_and!; [done|apply list.Forall_forall; intros ps Hps; by apply H2|].
    split; [split; [by apply HT|]|by intros; rewrite He]. intros p (Ho & ps & Hin & <- & Hsl & Hz). split; [done|]. destruct (H2 ps Hin) as [Hu Eps]. rewrite Eps in Hsl, Hz.
    cbn in Hsl, Hz. apply bool_decide_eq_true in Hsl. split_and!; [done|done|]. apply ledger_recs_uses.
    rewrite <- (pack_counted (meta x) (issued x) (writers x)); [done|apply (so_inv _ (reachable_ok _ _ _ _ _ Hx))|done|by apply spacious_stored].
  - intros l. apply (triple_pure _ _ _ _ _ (NoDup (ps_pack_id <$> l) /\ Forall (λ ps, is_u64 (ps_pack_id ps)) l)); [intros x c n [_ H]; by destruct (H l eq_refl) as (? & ? & _)|].
    intros [Hn Hu]. eapply triple_bind; [eapply triple_weaken; [by apply (remove_empties_spec floor k l)| |done]| |done].
    { intros x c n [_ H]. by destruct (H l eq_refl) as (_ & _ & ?). }
    intros []. apply stable_bind; [|intros []; apply stable_set; intros x c n; by apply HFM].
    generalize (rewritten rw). induction l0 as [|p l0 IH]; [by apply stable_ret|]. cbn [settle_rewrites]. apply stable_bind; [|done].
    unfold settle_rewrite. apply stable_bind; [apply stable_get|]. intros m. cbv zeta. destruct (0 <? _)%Z; [|apply stable_set; intros x c n; by apply HFM].
    destruct (_ <=? _)%Z; [|apply stable_set; intros x c n; by apply HFM]. apply stable_bind; [apply stable_set; intros x c n; by apply HFM|]. intros []. apply triple_bump.
Qed.
End packs.

(** C13: The collector is safe: a round of the collector leaves on disk the chunk files of
    every live record and every pack that holds a live record, at whatever point it fails
    or the process is killed. Between its calls clients may do anything that keeps the
    rules of the metadata store and the live files on disk and puts no record into a pack
    found sealed and empty for the grace period ([settles old]); that period is positive,
    and sealing and rewriting obey [DataLaw]. What the round deletes was on the queue of
    files no record uses, or was a sealed pack found empty in an earlier round, at least
    the grace period ago. *)
Theorem gc_keeps_live_files fuel floor x g o g' (Hx : reach x) (Hs : seen x (world g)) (Hgrace : (0 < gc_grace_sec cfg)%Z)
    (Hold : forall p since n, pack_empty_since (mem g) !! p = Some since -> (grace_ms cfg <= clock n - since)%Z -> old p)
    (E : run_gc_once cfg env clock fuel floor g = (o, g')) :
  exists y, rtc step x y /\ seen y (world g').
Proof.
  set (P := (λ (_ : Sys (DB := DB)) c (_ : nat), pack_empty_since c = pack_empty_since (mem g)) : assertion).
  assert (timeless P) as HP by (split; [by intros c n y z _ _ _ ?|done]).
  assert (triple P (run_gc_once cfg env clock fuel floor) (λ _ _ _ _, True)) as Ht.
  { unfold run_gc_once. apply stable_then; [by apply stable_expire|intros []|done]. apply stable_then; [by apply stable_consume|intros []|done].
    apply stable_then; [by apply stable_seal_aged|intros []|done]. apply stable_then; [by apply stable_compact|intros rw|done].
    eapply triple_weaken; [apply (delete_packs_spec (λ _ _ _, True)); [done..|exact Hgrace|exact Hold]|done|done]. }
  destruct (Ht x g o g' Hx Hs eq_refl E) as (y & ? & ? & _). by exists y.
Qed.
End safety.
