(* ===== verification/DuoLive.v ===== *)
(** The collector finishes its work: the watermark it keeps between rounds hides no entry
    of the queue that has come due, a completed round takes off the queue every entry that
    had, and a round ends. *)

From S2P Require Import Prelude Bytes Backend Listing Multipart Codec CodecProofs CodecKeys MetaUtil.
From S2P Require Import RocksDb RocksMeta RocksLedger RocksProofs RocksInv RocksOps RocksParts RocksSteps RocksTheorems RocksStats.
From S2P Require Import DuoWorld DuoGc DuoQueue DuoHoare DuoSafety.
From Stdlib Require Import ZArith Lia.
From stdpp Require Import base list gmap sets strings sorting relations.
Open Scope lights3_scope.

(** * The bound on new numbers *)
Section bounds.
Context {DB : Type} {rocks : RocksDB DB} {law : RocksLaw DB}.

Lemma sys_ok_lower (b b' : Z) (x : Sys (DB := DB)) : (b' <= b)%Z -> sys_ok (bound := b) x -> sys_ok (bound := b') x.
Proof.
  intros Hb [[I1 I2 I3 I4 I5 I6 I7 I8 I9 I10 I11 I12 I13] Ht Hr]. split; [|done|done]. split; try done.
  destruct I8 as [R1 R2 R3 R4]. split; [done|done| |done]. intros i [Hi Hs]. apply R3. split; [done|].
  destruct Hs as [?|Hs]; [by left|right]. change (i < b)%Z. change (i < b')%Z in Hs. lia.
Qed.
Lemma sys_ok_max (b b' : Z) (x : Sys (DB := DB)) : sys_ok (bound := b) x -> sys_ok (bound := b') x -> sys_ok (bound := Z.max b b') x.
Proof. intros H1 H2. destruct (Z.max_spec b b') as [[_ ->]|[_ ->]]; done. Qed.

(** A number in the queue is below the counter it came from. *)
Lemma entry_small (b : Z) (x : Sys (DB := DB)) q r : sys_ok (bound := b) x -> spacious (meta x) -> entry_at (tab (meta x) kGcq) q r -> (0 <= q < 2 ^ 62)%Z.
Proof.
  intros Hx [Hc _] (Hu & v & Hv & _). destruct (io_used _ _ _ (mi_seq _ _ _ (so_inv _ Hx)) q) as [Hq _]; [split; [done|left; by exists v]|].
  specialize (Hc CSeq). lia.
Qed.

Context (md5_hex sha1 sha256 sha256_hex : bytes -> bytes).
Lemma entry_back (b : Z) (x y : Sys) q r :
  sys_ok (bound := b) x -> rtc (meta_step md5_hex sha1 sha256 sha256_hex) x y -> entry_at (tab (meta y) kGcq) q r -> (q < b)%Z ->
  entry_at (tab (meta x) kGcq) q r.
Proof.
  intros Hx Hxy (Hu & v & Hv & Hr) Hq. destruct (steps_sound (bound := b) _ _ _ _ x y Hx Hxy) as (_ & _ & Hg). split; [done|].
  destruct (Hg q v Hu Hv) as [?|Hb]; [by exists v|]. change (b <= q)%Z in Hb. lia.
Qed.
Lemma sys_ok_steps (b : Z) (x y : Sys) :
  sys_ok (bound := b) x -> rtc (meta_step md5_hex sha1 sha256 sha256_hex) x y -> sys_ok (bound := b) y.
Proof. intros Hx Hxy. by apply (steps_sound (bound := b) _ _ _ _ x y Hx Hxy). Qed.
End bounds.

Lemma ack_gone {DB} {rocks : RocksDB DB} {law : RocksLaw DB} l (s s' : Meta DB) :
  ack_reclaims l s = (Ok tt, s') -> forall q r, q ∈ l -> entry_at (tab s' kGcq) q r -> False.
Proof.
  intros E q r Hq (Hu & v & Hv & _). unfold ack_reclaims in E. case_bool_decide; [by subst; apply not_elem_of_nil in Hq|].
  apply commit_run in E. destruct E as [Ht _]. rewrite Ht, on_cf_all in Hv by (by apply list.Forall_fmap, list.Forall_true).
  rewrite (list_fmap_compose be64_key (λ k, BDelete kGcq k)) in Hv. apply delete_ops_lookup in Hv as [_ Hv]. apply Hv, list_elem_of_fmap. by exists q.
Qed.

Section live.
Context {DB D : Type} {rocks : RocksDB DB} {law : RocksLaw DB} {data : DataStore DB D} {files : DataFiles D}.
Context (md5_hex sha1 sha256 sha256_hex : bytes -> bytes) (old : Z -> Prop).
Abbreviation step := (meta_step md5_hex sha1 sha256 sha256_hex).
Abbreviation reach := (reachable md5_hex sha1 sha256 sha256_hex).
Abbreviation G := (ST (GcState DB D) GcErr).
Abbreviation assertion := (Sys (DB := DB) -> GcMem -> nat -> Prop).
Abbreviation triple := (triple md5_hex sha1 sha256 sha256_hex).
Abbreviation stable P m := (triple P m (λ _, P)).
Abbreviation timeless := (timeless md5_hex sha1 sha256 sha256_hex (settles old)).
Abbreviation queue x := (tab (meta x) kGcq).
Context {dlaw : DataLaw DB D md5_hex sha1 sha256 sha256_hex old}.
Context (env : nat -> World DB D -> option (World DB D)) (Henv : env_ok md5_hex sha1 sha256 sha256_hex (settles old) env).
Context (clock : nat -> Z) (Hclock : forall n, is_i64 (clock n)) (Hmono : forall n, (clock n <= clock (S n))%Z).
Context (cfg : GcConfig) (floor : option Z).

(** * Skips *)

(** An entry that was skipped is at or above the mark, and due no earlier than the time
    noted for the retry, or that time has come. *)
Definition covered (k : GcqSkips) (t q : Z) (r : Reclaim) : Prop :=
  sk_any k = true /\ (lo_seq k <= q)%Z /\ ((retry_at_ms k <= rc_enqueue_ms r + grace_ms cfg)%Z \/ (retry_at_ms k <= t)%Z).

Lemma covered_later k t t' q r : (t <= t')%Z -> covered k t q r -> covered k t' q r.
Proof. intros Ht (H1 & H2 & [H3|H3]); (split_and!; [done|done|]); [by left|right; lia]. Qed.
Lemma covered_note k t q r q' t' : covered k t q r -> covered (note_skip q' t' k) t q r.
Proof.
  intros (H1 & H2 & H3). unfold note_skip, covered. rewrite H1. cbn.
  split_and!; [done|destruct (Z.ltb_spec q' (lo_seq k)); lia|destruct (Z.ltb_spec t' (retry_at_ms k)); lia].
Qed.
Lemma note_covers k t q r t' : (t' = rc_enqueue_ms r + grace_ms cfg \/ t' <= t)%Z -> covered (note_skip q t' k) t q r.
Proof.
  intros Ht. unfold note_skip, covered. cbn. split_and!; [done| |]; destruct (sk_any k); cbn; [|lia| |lia].
  - destruct (Z.ltb_spec q (lo_seq k)); lia.
  - destruct (Z.ltb_spec t' (retry_at_ms k)); lia.
Qed.
Lemma note_lo k q t : lo_seq (note_skip q t k) = q \/ (sk_any k = true /\ lo_seq (note_skip q t k) = lo_seq k).
Proof. unfold note_skip. cbn. destruct (sk_any k); cbn; [|by left]. destruct (q <? lo_seq k)%Z; auto. Qed.

(** Due since [T], out of reach of readers and removable. *)
Context (T : Z).
Definition due (r : Reclaim) : Prop :=
  (rc_enqueue_ms r + grace_ms cfg <= T)%Z /\ (forall f, floor = Some f -> (rc_enqueue_ms r < f)%Z) /\
  (forall n w w', env n w = Some w' -> any_pinned (rc_extents r) (w_pins w') = false) /\
  (forall d : D, (ds_remove (rc_extents r) d).1 = Ok tt).

Lemma reclaim_one_run now q rc k a (g : GcState DB D) acc g' :
  (T <= now)%Z -> reclaim_one cfg env floor now q rc (k, a) g = (Ok acc, g') ->
  acc = (k, a ++ [q]) \/ exists t', acc = (note_skip q t' k, a) /\ (t' = rc_enqueue_ms rc + grace_ms cfg \/ t' = now)%Z /\ ~ due rc.
Proof.
  intros HT E. unfold reclaim_one in E. destruct (Z.ltb_spec (now - rc_enqueue_ms rc) (grace_ms cfg)) as [Hl|Hl].
  { injection E as <- _. right. eexists. split_and!; [done|by left|]. intros (? & _). lia. }
  destruct (match floor with Some f => _ | None => false end) eqn:Ef.
  { injection E as <- _. right. eexists. split_and!; [done|by right|]. intros (_ & H & _). destruct floor as [f|]; [|done].
    apply Z.leb_le in Ef. specialize (H f eq_refl). lia. }
  apply ST_bind_run in E as [(pin & g1 & Ep & E)|(e & _ & [=])]. unfold look, call in Ep.
  destruct (env (tick g) (world g)) as [w|] eqn:Ee; [|done]. injection Ep as <- <-. case_bool_decide as Hp.
  { injection E as <- _. right. eexists. split_and!; [done|by right|]. intros (_ & _ & H & _). by rewrite (H _ _ _ Ee) in Hp. }
  apply ST_bind_run in E as [(rm & g2 & Er & E)|(e & _ & [=])]. unfold attempt, data_call, call, on_data in Er. cbn [tick world] in Er.
  destruct (env (S (tick g)) w) as [w2|] eqn:Ee2; [|done]. destruct (ds_remove (rc_extents rc) (w_data w2)) as [rr d2] eqn:Ed.
  destruct rr as [[]|er]; injection Er as <- <-; injection E as <- _; [by left|]. right. eexists. split_and!; [done|by right|].
  intros (_ & _ & _ & H). specialize (H (w_data w2)). by rewrite Ed in H.
Qed.

(** What a pass over a batch leaves: an entry is settled, or noted and was not due. *)
Record batch_done (now : Z) (l : list (Z * Reclaim)) (k : GcqSkips) (a : list Z) (k' : GcqSkips) (a' : list Z) : Prop := mkBatchDone {
  bd_covered : forall q r t, covered k t q r -> covered k' t q r;
  bd_acked : a ⊆ a';
  bd_each : forall q r, (q, r) ∈ l -> q ∈ a' \/ (~ due r /\ covered k' now q r);
  bd_lo : sk_any k' = true -> (sk_any k = true /\ lo_seq k' = lo_seq k) \/ lo_seq k' ∈ l.*1 }.

Lemma reclaim_batch_run now l k a (g : GcState DB D) k' a' g' :
  (T <= now)%Z -> reclaim_batch cfg env floor now l (k, a) g = (Ok (k', a'), g') -> batch_done now l k a k' a'.
Proof.
  intros HT. revert k a g. induction l as [|[q rc] l IH]; intros k a g E; cbn [reclaim_batch] in E.
  { injection E as <- <- _. split; try done; [intros q r H; by apply not_elem_of_nil in H|by left]. }
  apply ST_bind_run in E as [(acc & g1 & E1 & E)|(e & _ & [=])].
  apply reclaim_one_run in E1 as [->|(t' & -> & Ht' & Hnd)]; [| |done]; destruct (IH _ _ _ E) as [H1 H2 H3 H4]; split.
  - done.
  - set_solver.
  - intros q' r' [[= -> ->]|Hin]%elem_of_cons; [left; set_solver|auto].
  - intros Ha. destruct (H4 Ha) as [?|?]; [by left|right; by right].
  - intros q' r' t Hc. by apply H1, covered_note.
  - done.
  - intros q' r' [[= -> ->]|Hin]%elem_of_cons; [|auto]. right. split; [done|]. apply H1, note_covers. destruct Ht'; [by left|right; lia].
  - intros Ha. destruct (H4 Ha) as [[_ ->]|?]; [|right; by right]. destruct (note_lo k q t') as [->|[? ->]]; [right; left|by left].
Qed.

(** * The scan of the queue *)
Lemma clock_mono n m : n <= m -> (clock n <= clock m)%Z.
Proof. induction 1 as [|m Hm IH]; [lia|]. specialize (Hmono m). lia. Qed.

(** Facts that every step of the store keeps. *)
Definition hardy (P : assertion) : Prop :=
  (forall c n x y, reach x -> rtc step x y -> P x c n -> P y c n) /\ (forall x c n, P x c n -> P x c (S n)).
Lemma hardy_timeless P : hardy P -> timeless P.
Proof. intros [HP HT]. split; [|done]. intros c n x y Hx Hxy _. by apply HP. Qed.
Lemma hardy_and P Q : hardy P -> hardy Q -> hardy (λ x c n, P x c n /\ Q x c n).
Proof. intros [P1 P2] [Q1 Q2]. split; [intros c n x y Hx Hxy [??]|intros x c n [??]]; split; eauto. Qed.

(** No new entry below [b]; those from [lo] to [hi] are as [phi] says, at the time. *)
Definition within (b lo hi : Z) (phi : Z -> Z -> Reclaim -> Prop) : assertion := λ x c n,
  (hi <= b)%Z /\ sys_ok (bound := b) x /\ forall q r, entry_at (queue x) q r -> (lo <= q < hi)%Z -> phi (clock n) q r.
Lemma within_hardy b lo hi phi : (forall t t' q r, (t <= t')%Z -> phi t q r -> phi t' q r) -> hardy (within b lo hi phi).
Proof.
  intros Hphi. split.
  - intros c n x y Hx Hxy (H1 & H2 & H3). split_and!; [done|by eapply sys_ok_steps|]. intros q r He Hq. apply H3; [|done].
    eapply entry_back; [done|done|done|lia].
  - intros x c n (H1 & H2 & H3). split_and!; [done|done|]. intros q r He Hq. eapply Hphi; [apply Hmono|by apply H3].
Qed.

(** Where the scan goes on after a batch. *)
Lemma peek_next (b' : Z) next x l :
  sys_ok (bound := b') x -> spacious (meta x) -> is_u64 next -> peeked (queue x) next l ->
  is_u64 (next_of l next) /\ (next <= next_of l next)%Z /\ (forall q, q ∈ l.*1 -> (next <= q < next_of l next)%Z) /\
  (next_of l next = next \/ exists q r, next_of l next = (q + 1)%Z /\ entry_at (queue x) q r /\ (next <= q)%Z).
Proof.
  intros Hok Hsp Hu [Hent Hsort Hall]. unfold next_of. destruct (last l) as [[q' r']|] eqn:El.
  - assert ((q', r') ∈ l) as Hin by (rewrite last_lookup in El; by eapply list_elem_of_lookup_2). destruct (Hent q' r' Hin) as [He Hge].
    pose proof (entry_small _ _ _ _ Hok Hsp He) as Hlt. rewrite u64_small by (unfold is_u64; lia).
    split; [unfold is_u64; lia|split; [lia|split; [|right; by exists q', r']]].
    intros q Hq. apply list_elem_of_fmap in Hq as ([q2 r2] & -> & Hq2). cbn [fst]. destruct (Hent q2 r2 Hq2) as [_ ?]. split; [done|].
    apply last_Some in El as [l' ->]. rewrite fmap_app in Hsort. cbn in Hsort. apply elem_of_app in Hq2 as [Hq2|Hq2].
    + assert (q2 ∈ l'.*1) as Hq3 by (apply list_elem_of_fmap; by exists (q2, r2)).
      pose proof (StronglySorted_app_1_elem_of Z.lt l'.*1 [q'] q2 q' Hsort Hq3 ltac:(by left)). lia.
    + apply list_elem_of_singleton in Hq2 as [= -> ->]. lia.
  - apply last_None in El as ->. split; [done|split; [lia|split; [by intros q Hq%not_elem_of_nil|by left]]].
Qed.

Section scan.
Context (F : assertion) (HF : hardy F) (start b : Z).

(** Scanned so far: from [start] to [next], with the skips [k]. *)
Definition scanned (next : Z) (k : GcqSkips) : assertion := λ x c n,
  within (Z.max b next) start next (λ t q r, ~ due r /\ covered k t q r) x c n /\
  (T <= clock n)%Z /\ is_u64 next /\ (start <= next)%Z /\ (sk_any k = true -> (start <= lo_seq k < next)%Z).
Lemma scanned_hardy next k : hardy (scanned next k).
Proof.
  apply hardy_and; [apply within_hardy; intros t t' q r Ht [? ?]; split; [done|by eapply covered_later]|].
  split; [done|]. intros x c n (? & ?). split; [specialize (Hmono n); lia|done].
Qed.

(** A batch read at [next]: all the entries up to its last. *)
Definition batched (l : list (Z * Reclaim)) (next next' : Z) : assertion := λ x c n,
  within (Z.max b next') next next' (λ _ q r, (q, r) ∈ l) x c n /\ forall i, i ∈ batch_ids l -> dead x i.
Lemma batched_hardy l next next' : hardy (batched l next next').
Proof.
  apply hardy_and; [by apply within_hardy|]. split; [|done]. intros c n x y Hx Hxy H i Hi.
  apply reachable_ok in Hx. destruct (steps_sound _ _ _ _ x y Hx Hxy) as (_ & Hd & _). by apply Hd, H.
Qed.

Lemma peek_batched next x l c n :
  reach x -> spacious (meta x) -> is_u64 next -> sys_ok (bound := Z.max b next) x -> peeked (queue x) next l ->
  batched l next (next_of l next) x c n.
Proof.
  intros Hx Hsp Hu Hok Hpk. destruct (peek_next _ next x l Hok Hsp Hu Hpk) as (_ & Hle & _ & Hraise). pose proof Hpk as [Hent _ Hall]. split.
  - split; [lia|split].
    + destruct Hraise as [-> |(q & r & -> & He & Hq)]; [done|]. eapply (sys_ok_lower (Z.max (Z.max b next) (q + 1))); [lia|].
      apply sys_ok_raise; [done|by destruct He|]. destruct He as (_ & v & Hv & _). by exists v.
    + intros q r Hq2 Hr. destruct (Hall q r Hq2 ltac:(lia)) as [?|(q3 & r3 & El & ?)]; [done|]. exfalso. unfold next_of in Hr. rewrite El in Hr.
      assert ((q3, r3) ∈ l) as Hin by (rewrite last_lookup in El; by eapply list_elem_of_lookup_2).
      pose proof (entry_small _ _ _ _ Hok Hsp (proj1 (Hent q3 r3 Hin))). rewrite u64_small in Hr by (unfold is_u64; lia). lia.
  - intros i Hi. apply elem_of_union_list in Hi as (X & ([q rc] & -> & Hin)%list_elem_of_fmap & Hi). destruct (Hent q rc Hin) as [He _].
    by eapply entry_dead.
Qed.

(** Nothing is left from [nx] on, but for what was added since. *)
Definition drained (nx : Z) : assertion := within (Z.max b nx) nx (Z.max b nx) (λ _ _ _, False).
Lemma peek_drained next x c n : sys_ok (bound := Z.max b next) x -> peeked (queue x) next [] -> drained next x c n.
Proof. intros Hok [_ _ Hall]. split_and!; [lia|done|]. intros q r He Hq. destruct (Hall q r He ltac:(lia)) as [H|(? & ? & [=] & _)]. by apply not_elem_of_nil in H. Qed.

Definition known (l : list (Z * Reclaim)) (next : Z) : Prop :=
  is_u64 (next_of l next) /\ (next <= next_of l next)%Z /\ forall q, q ∈ l.*1 -> (next <= q < next_of l next)%Z.

Lemma peek_triple next k :
  triple (λ x c n, F x c n /\ scanned next k x c n) (meta_call env (peek_reclaims kGcBatch next kGcBatchExtents))
    (λ o x c n, F x c n /\ forall l, o = Ok l -> scanned next k x c n /\ batched l next (next_of l next) x c n /\ known l next /\ (l = [] -> drained next x c n)).
Proof.
  pose proof (hardy_and _ _ HF (scanned_hardy next k)) as HH. eapply triple_meta; [exact Henv|apply (hardy_timeless _ HH)| |by intros x c n [? _]].
  intros c n. apply read_step. intros x o s' Hx Hsp [H0 Hs] E. pose proof Hs as ((_ & Hok & _) & _ & Hu & _).
  assert (0 < kGcBatch)%Z as Hb by done. destruct (peek_spec (bound := Z.max b next) _ _ _ _ _ _ _ _ (so_inv _ Hok) Hu Hb E) as [-> Hpk]. split_and!; [done|by apply HF|].
  intros l El. destruct o as [l'|]; [injection El as ->|done]. specialize (Hpk l eq_refl). pose proof (peek_batched next x l c (S n) Hx Hsp Hu Hok Hpk) as B1. destruct (peek_next _ next x l Hok Hsp Hu Hpk) as (B2 & B3 & B4 & _).
  split_and!; [by apply scanned_hardy|done|done|]. intros ->. by apply peek_drained.
Qed.

(** After the batch is settled, the scan has passed it. *)
Lemma advance l next k k' a now x c n :
  known l next -> batch_done now l k [] k' a -> (now <= clock n)%Z -> scanned next k x c n -> batched l next (next_of l next) x c n ->
  (forall q r, q ∈ a -> entry_at (queue x) q r -> False) -> scanned (next_of l next) k' x c n.
Proof.
  intros (K1 & K2 & K3) [D1 _ D3 D4] Hn ((W1 & W2 & W3) & HTn & Hu & Hs & Hlo) [(B1 & B2 & B3) _] Ha.
  split; [split; [done|split; [done|]]|split; [done|split; [done|split; [lia|]]]].
  - intros q r He Hq. destruct (Z.lt_ge_cases q next) as [Hlt|Hge].
    + destruct (W3 q r He ltac:(lia)) as [? ?]. split; [done|]. by apply D1.
    + destruct (D3 q r (B3 q r He ltac:(lia))) as [Hin|[? ?]]; [by destruct (Ha q r Hin He)|]. split; [done|]. by eapply covered_later; [exact Hn|].
  - intros Hany. destruct (D4 Hany) as [[Hk ->]|Hin]; [specialize (Hlo Hk); lia|]. specialize (K3 _ Hin). lia.
Qed.

Lemma ack_triple a P :
  hardy P -> triple P (_ ← meta_call env (ack_reclaims a); bump (add_acked (Z.of_nat (length a))))
    (λ o x c n, P x c n /\ (o = Ok tt -> forall q r, q ∈ a -> entry_at (queue x) q r -> False)).
Proof.
  intros HP. apply (triple_bind _ _ _ _ _ _ (λ o x c n, P x c n /\ (o = Ok tt -> forall q r, q ∈ a -> entry_at (queue x) q r -> False))); [| |by intros e x c n [? _]].
  - eapply triple_meta; [exact Henv|apply (hardy_timeless _ HP)| |by intros x c n ?; split].
    intros c n x o s' Hx Hsp Hp E. destruct (ack_calm md5_hex sha1 sha256 sha256_hex a x o s' Hx Hsp E) as (r' & H1 & H2 & H3 & _).
    exists r'. refine (conj H1 (conj _ (conj H2 H3))).
    split; [by apply HP; eapply HP|]. intros Ho. destruct o as [[]|]; [|done]. by apply (ack_gone a (meta x) s').
  - intros []. eapply triple_weaken; [apply triple_bump|intros x c n H; exact H|]. intros o x c n [H1 H2]. split; [done|]. intros _. by apply H2.
Qed.

Lemma loop_spec fuel next k :
  triple (λ x c n, F x c n /\ scanned next k x c n) (reclaim_loop cfg env clock floor fuel next k)
    (λ o x c n, F x c n /\ forall nx k', o = Ok (nx, k') -> scanned nx k' x c n /\ drained nx x c n).
Proof.
  revert next k. induction fuel as [|f IH]; intros next k; [by apply triple_throw; intros x c n [? _]|]. cbn [reclaim_loop].
  eapply triple_bind; [apply peek_triple| |by intros e x c n [? _]]. intros l.
  apply (triple_pure _ _ _ _ _ (known l next)); [intros x c n [_ H]; by destruct (H l eq_refl) as (_ & _ & ? & _)|]. intros Hkn.
  case_bool_decide as El.
  { apply triple_ret. intros x c n [H0 H]. destruct (H l eq_refl) as (H1 & _ & _ & H3). split; [done|]. intros ? ? [= <- <-]. auto. }
  set (R := λ x c n, F x c n /\ (scanned next k x c n /\ batched l next (next_of l next) x c n)).
  assert (hardy R) as HR by (apply hardy_and; [done|]; apply hardy_and; [apply scanned_hardy|apply batched_hardy]).
  eapply triple_weaken; [|intros x c n [H0 H]; destruct (H l eq_refl) as (H1 & H2 & _ & _); exact (conj H0 (conj H1 H2))|intros o x c n H; exact H].
  change (λ x c n, F x c n /\ (scanned next k x c n /\ batched l next (next_of l next) x c n)) with R. clear El.
  eapply triple_bind; [apply triple_now| |by intros e x c n (? & _ & [=] & _)]. intros now.
  set (R' := λ x c n, R x c n /\ (now <= clock n)%Z).
  assert (hardy R') as HR' by (apply hardy_and; [done|]; split; [done|]; intros x c n ?; specialize (Hmono n); lia).
  apply (triple_pure _ _ _ _ _ (T <= now)%Z); [by intros x c n (n0 & -> & [= ->] & (_ & (_ & ? & _) & _))|]. intros HT.
  apply (triple_weaken _ _ _ _ R' _ _ (λ o x c n, F x c n /\ forall nx k', o = Ok (nx, k') -> scanned nx k' x c n /\ drained nx x c n));
    [|intros x c n (n0 & -> & [= ->] & Hr); split; [by apply HR|apply Hmono]|done].
  eapply (know_then _ _ _ _ _ _ (λ acc, batch_done now l k [] acc.1 acc.2)); [| | |by intros e x c n [[? _] _]].
  { apply (stable_reclaim_batch _ _ _ _ old); [exact Henv|by apply hardy_timeless|]. intros x c n [(_ & _ & [_ Hd]) _] q rc Hin i Hi. by apply Hd, (batch_ids_elem l q rc). }
  { intros g [k' a'] g' E. by eapply reclaim_batch_run. }
  intros [k' a]. cbn [fst snd]. intros Hbd.
  eapply (triple_bind _ _ _ _ _ _ (λ o x c n, R' x c n /\ (o = Ok tt -> forall q r, q ∈ a -> entry_at (queue x) q r -> False))); [| |by intros e x c n [[[? _] _] _]].
  { case_bool_decide as Ea; [subst a; apply triple_ret; intros x c n ?; split; [done|]; intros _ q r Hq; by apply not_elem_of_nil in Hq|]. by apply ack_triple. }
  intros []. eapply triple_weaken; [apply IH| |done]. intros x c n [[(H0 & H1 & H2) H3] H4]. split; [done|]. eapply advance; eauto.
Qed.
End scan.

(** * The watermark *)

(** What the memory of the queue is worth at time [t]: numbers below the high mark are not
    given to new entries, and the entries below it are covered by the skips noted, if any
    are; without a note the next scan starts at the head. *)
Definition watermark (t : Z) (x : Sys (DB := DB)) (c : GcMem) : Prop :=
  is_u64 (gcq_hi c) /\ sys_ok (bound := gcq_hi c) x /\
  (sk_any (gcq_skips c) = true -> (0 <= lo_seq (gcq_skips c) <= gcq_hi c)%Z /\
     forall q r, entry_at (queue x) q r -> (q < gcq_hi c)%Z -> covered (gcq_skips c) t q r).

Lemma watermark_later t t' x c : (t <= t')%Z -> watermark t x c -> watermark t' x c.
Proof.
  intros Ht (H1 & H2 & H3). split; [done|split; [done|]]. intros Ha. destruct (H3 Ha) as [H4 H5]. split; [done|]. intros q r He Hq.
  by eapply covered_later; [exact Ht|apply H5].
Qed.
Lemma watermark_steps t x y c : rtc step x y -> watermark t x c -> watermark t y c.
Proof.
  intros Hxy (H1 & H2 & H3). split; [done|split; [by eapply sys_ok_steps|]]. intros Ha. destruct (H3 Ha) as [H4 H5]. split; [done|].
  intros q r He Hq. apply H5; [|done]. by eapply entry_back.
Qed.

Lemma scan_start_cases t c x :
  watermark t x c ->
  let s := scan_start t c in let k := gcq_skips c in
  is_u64 s /\ (s <= gcq_hi c)%Z /\
  ((full_scan t c = true /\ forall q r, entry_at (queue x) q r -> (s <= q)%Z) \/
   (full_scan t c = false /\ sk_any k = true /\ s = gcq_hi c /\ (t < retry_at_ms k)%Z)).
Proof.
  intros (H1 & _ & H3). cbv zeta. unfold full_scan, scan_start. destruct (sk_any (gcq_skips c)) eqn:Ha; cbn [negb orb].
  2: { unfold is_u64 in *. split; [lia|split; [lia|]]. left. split; [done|]. intros q r ([? _] & _). lia. }
  destruct (H3 eq_refl) as [Hlo Hc]. assert (forall q r, entry_at (queue x) q r -> (lo_seq (gcq_skips c) <= q)%Z) as Hall.
  { intros q r He. destruct (Z.lt_ge_cases q (gcq_hi c)) as [Hq|Hq]; [by destruct (Hc q r He Hq) as (_ & ? & _)|lia]. }
  destruct (Z.ltb_spec t (retry_at_ms (gcq_skips c))); unfold is_u64 in *.
  - split; [lia|split; [lia|]]. destruct (Z.eqb_spec (gcq_hi c) (lo_seq (gcq_skips c))) as [He|]; [left|by right]. split; [done|]. intros q r Hq%Hall. lia.
  - split; [lia|split; [lia|]]. left. rewrite Z.eqb_refl. done.
Qed.

Lemma covered_min k old_k t q r :
  sk_any old_k = true -> covered old_k t q r \/ covered k t q r ->
  covered (mkSkips (sk_any old_k) (Z.min (lo_seq old_k) (lo_seq k)) (Z.min (retry_at_ms old_k) (retry_at_ms k))) t q r.
Proof. intros Ha [(_ & H1 & H2)|(_ & H1 & H2)]; (split; [done|split; cbn; lia]). Qed.

(** The mark after a scan, and what the scan reclaimed. *)
Lemma scan_settles t0 x c n nx k' b0 :
  (T <= t0 <= clock n)%Z -> watermark t0 x c -> scanned (scan_start t0 c) (Z.max (gcq_hi c) b0) nx k' x c n -> drained (Z.max (gcq_hi c) b0) nx x c n ->
  watermark (clock n) x (set_skips (merge_skips (full_scan t0 c) k' (gcq_skips c)) (set_hi (Z.max (gcq_hi c) nx) c)) /\
  forall q r, entry_at (queue x) q r -> (q < b0)%Z -> ~ due r.
Proof.
  intros Ht Hw ((_ & Hok & Hwin) & _ & Hu & Hst & Hlo) (_ & _ & Hdr). destruct (scan_start_cases t0 c x Hw) as (Hs1 & Hs2 & Hs3). cbv zeta in *.
  pose proof Hw as (H1 & H2 & H3). set (s := scan_start t0 c) in *. set (k := gcq_skips c) in *.
  assert (forall q r, entry_at (queue x) q r -> (q < Z.max (Z.max (gcq_hi c) b0) nx)%Z -> (q < nx)%Z) as Hnx.
  { intros q r He Hq. destruct (Z.lt_ge_cases q nx); [done|]. destruct (Hdr q r He). lia. }
  split.
  - split; [cbn; unfold is_u64 in *; lia|]. split; [eapply sys_ok_lower; [|exact Hok]; cbn; lia|].
    cbn [gcq_skips set_skips set_hi gcq_hi]. unfold merge_skips. destruct Hs3 as [[-> Hall]|(-> & Hk & Es & Hr)].
    + intros Ha. split; [specialize (Hlo Ha); unfold is_u64 in *; lia|]. intros q r He Hq. apply (Hwin q r He). split; [by eapply Hall|]. eapply Hnx; [done|lia].
    + assert (forall q r, entry_at (queue x) q r -> (q < Z.max (gcq_hi c) nx)%Z -> covered k (clock n) q r \/ covered k' (clock n) q r) as Hcov.
      { intros q r He Hq. destruct (Z.lt_ge_cases q (gcq_hi c)) as [Hlt|Hge].
        - left. eapply covered_later; [apply Ht|]. by apply H3.
        - right. apply (Hwin q r He). split; [lia|]. eapply Hnx; [done|lia]. }
      destruct (H3 Hk) as [Hlo3 _]. destruct (sk_any k') eqn:Hk'; intros _.
      * specialize (Hlo eq_refl). split; [cbn; unfold is_u64 in *; lia|]. intros q r He Hq. apply covered_min; [done|auto].
      * split; [lia|]. intros q r He Hq. destruct (Hcov q r He Hq) as [?|(Hf & _)]; [done|congruence].
  - intros q r He Hq Hdue. assert (q < nx)%Z as Hqn by (eapply Hnx; [done|lia]).
    destruct Hs3 as [[_ Hall]|(_ & Hk & Es & Hr)]; [destruct (Hwin q r He) as [Hnd _]; [split; [by eapply Hall|done]|done]|].
    destruct (Z.lt_ge_cases q (gcq_hi c)) as [Hlt|Hge]; [|destruct (Hwin q r He) as [Hnd _]; [lia|done]].
    destruct (H3 Hk) as [_ Hc]. destruct (Hc q r He Hlt) as (_ & _ & Hret). destruct Hdue as [Hd _]. fold k in Hret. lia.
Qed.

Lemma consume_spec fuel b0 e0 :
  triple (λ x c n, watermark (clock n) x c /\ sys_ok (bound := b0) x /\ (T <= clock n)%Z /\ pack_empty_since c = e0) (consume_queue cfg env clock floor fuel)
    (λ o x c n, watermark (clock n) x c /\ (o = Ok tt -> pack_empty_since c = e0 /\ sys_ok (bound := b0) x /\ forall q r, entry_at (queue x) q r -> (q < b0)%Z -> ~ due r)).
Proof.
  unfold consume_queue. eapply triple_bind; [apply triple_now| |by intros e x c n (? & _ & [=] & _)]. intros t0.
  eapply triple_bind; [apply triple_get_mem| |by intros e x c n [[=] _]]. intros c0.
  set (F := λ (x : Sys (DB := DB)) (c : GcMem) (n : nat), (c = c0 /\ pack_empty_since c0 = e0 /\ (T <= t0 <= clock n)%Z) /\ watermark t0 x c0 /\ sys_ok (bound := b0) x).
  assert (hardy F) as HF.
  { split; [intros c n x y Hx Hxy (? & ? & ?); split; [done|split; [by eapply watermark_steps|by eapply sys_ok_steps]]|].
    intros x c n ((? & ? & ?) & ?). split; [split; [done|split; [done|specialize (Hmono n); lia]]|done]. }
  eapply triple_bind.
  - eapply triple_weaken; [apply (loop_spec F HF (scan_start t0 c0) (Z.max (gcq_hi c0) b0) fuel (scan_start t0 c0) no_skips)| |intros o x c n H; exact H].
    intros x c n ([= <-] & n0 & -> & [= ->] & Hw & Hb & HT & He). destruct (scan_start_cases _ _ x Hw) as (Hs1 & Hs2 & _). pose proof Hw as (_ & Hok & _).
    specialize (Hmono n0). split; [split; [split; [done|split; [done|lia]]|split; [done|done]]|]. split; [split; [lia|split; [|lia]]|split; [lia|split; [done|split; [lia|done]]]].
    eapply sys_ok_lower; [|apply (sys_ok_max _ _ _ Hok Hb)]. lia.
  - intros [nx k']. eapply triple_weaken; [apply (triple_set_mem _ _ _ _ (λ x c n, watermark (clock n) x c /\ pack_empty_since c = e0 /\ sys_ok (bound := b0) x /\ forall q r, entry_at (queue x) q r -> (q < b0)%Z -> ~ due r))| |].
    + intros x c n [[(-> & He & HT) [Hw Hb]] H]. destruct (H nx k' eq_refl) as [Hsc Hdr]. cbn [fst snd].
      destruct (scan_settles t0 x c0 n nx k' b0 HT Hw Hsc Hdr) as [Hw' Hdue]. by split.
    + intros o x c n (? & ? & ? & ?). by split.
  - intros e x c n [[(-> & He & HT) [Hw Hb]] _]. split; [|done]. eapply watermark_later; [|exact Hw]. lia.
Qed.

Lemma round_spec fuel b0 e0 :
  (0 < gc_grace_sec cfg)%Z -> (forall p since n, e0 !! p = Some since -> (grace_ms cfg <= clock n - since)%Z -> old p) ->
  triple (λ x c n, watermark (clock n) x c /\ sys_ok (bound := b0) x /\ (T <= clock n)%Z /\ pack_empty_since c = e0)
    (run_gc_once cfg env clock fuel floor)
    (λ o x c n, watermark (clock n) x c /\ (o = Ok tt -> forall q r, entry_at (queue x) q r -> (q < b0)%Z -> ~ due r)).
Proof.
  intros Hg Hold. unfold run_gc_once. apply stable_then; [apply (stable_expire _ _ _ _ old); [exact Henv|exact Hclock|]| |by intros e x c n [? _]].
  { split; [intros c n x y Hx Hxy _ (? & ? & ?); split; [by eapply watermark_steps|split; [by eapply sys_ok_steps|done]]|].
    intros x c n (? & ? & ? & ?). specialize (Hmono n). split; [by eapply watermark_later|split; [done|split; [lia|done]]]. }
  intros []. eapply triple_bind; [apply (consume_spec fuel b0 e0)| |by intros e x c n [? _]].
  intros []. set (F := λ (x : Sys (DB := DB)) c n, watermark (clock n) x c /\ sys_ok (bound := b0) x /\ forall q r, entry_at (queue x) q r -> (q < b0)%Z -> ~ due r).
  assert (hardy F) as HF.
  { split.
    - intros c n x y Hx Hxy (? & Hb & Hd). split; [by eapply watermark_steps|split; [by eapply sys_ok_steps|]]. intros q r He Hq. apply (Hd q r); [|done]. by eapply entry_back.
    - intros x c n (? & ? & ?). specialize (Hmono n). split; [by eapply watermark_later|done]. }
  eapply (triple_weaken _ _ _ _ (λ x c n, F x c n /\ pack_empty_since c = e0) _ _ (λ _, F)); [|intros x c n [? H]; destruct (H eq_refl) as (? & ? & ?); split; [split; [done|split; [done|done]]|done]|by intros o x c n (? & _ & ?); split].
  assert (timeless (λ x c n, F x c n /\ pack_empty_since c = e0)) as HP.
  { apply hardy_timeless, hardy_and; [done|]. by split. }
  apply stable_then; [by apply (stable_seal_aged _ _ _ _ old)| |by intros e x c n [? _]]. intros [].
  apply stable_then; [by apply (stable_compact _ _ _ _ old)| |by intros e x c n [? _]]. intros rw.
  apply (delete_packs_spec _ _ _ _ old); [exact Henv|apply HF|apply HF| |done|done].
  intros x c c' n E1 E2 (Hw & Hb & Hd). split; [|done]. unfold watermark in *. by rewrite E1, E2.
Qed.
End live.

(** * Rounds without end of fuel *)
Section fuel.
Context {DB D : Type} {rocks : RocksDB DB} {data : DataStore DB D}.
Context (env : nat -> World DB D -> option (World DB D)) (clock : nat -> Z) (cfg : GcConfig).
Abbreviation G := (ST (GcState DB D) GcErr).

Definition fuelled {A} (m : G A) : Prop := forall g, (m g).1 <> Throw OutOfFuel.
Lemma fuelled_bind {A B} (m : G A) (f : A -> G B) : fuelled m -> (forall a, fuelled (f a)) -> fuelled (m ≫= f).
Proof.
  intros Hm Hf g E. destruct ((m ≫= f) g) as [o g'] eqn:Eb. cbn in E. subst o. apply ST_bind_run in Eb as [(a & g1 & _ & E2)|(e & E1 & [= <-])].
  - apply (Hf a g1). by rewrite E2.
  - apply (Hm g). by rewrite E1.
Qed.
Lemma fuelled_ret {A} (a : A) : fuelled (mret a).
Proof. done. Qed.
Lemma fuelled_call {A} (m : World DB D -> result A * World DB D) : fuelled (call env m).
Proof. intros g. unfold call. destruct (env _ _); [|done]. destruct (m w) as [[] ?]; done. Qed.
Lemma fuelled_attempt {A} (m : G A) : fuelled m -> fuelled (attempt m).
Proof. intros Hm g. specialize (Hm g). unfold attempt. destruct (m g) as [[|[| |]] g']; done. Qed.
Lemma fuelled_bump f : fuelled (bump (DB := DB) (D := D) f).
Proof. done. Qed.
Lemma fuelled_get : fuelled (get_mem (DB := DB) (D := D)).
Proof. done. Qed.
Lemma fuelled_set f : fuelled (set_mem (DB := DB) (D := D) f).
Proof. done. Qed.
Lemma fuelled_now : fuelled (now_ms (DB := DB) (D := D) clock).
Proof. done. Qed.
#[local] Hint Resolve fuelled_ret fuelled_call fuelled_bump fuelled_get fuelled_set fuelled_now : gc_fuel.
Ltac fuelled := repeat (cbv zeta; first
  [ progress intros | solve [eauto with gc_fuel] | apply fuelled_attempt | apply fuelled_bind
  | progress unfold meta_call, data_call, look
  | match goal with |- fuelled (if ?b then _ else _) => destruct b end
  | match goal with |- fuelled (match ?x with _ => _ end) => destruct x end ]).

Lemma expire_fuelled : fuelled (expire_uploads cfg env clock).
Proof.
  assert (forall now ttl b l, fuelled (expire_each env clock now ttl b l)) as He by (intros now ttl b l; induction l; cbn [expire_each]; fuelled).
  assert (forall now ttl l, fuelled (expire_buckets env clock now ttl l)) as Hb by (intros now ttl l; induction l; cbn [expire_buckets]; fuelled).
  unfold expire_uploads. fuelled.
Qed.
Lemma batch_fuelled floor now l acc : fuelled (reclaim_batch cfg env floor now l acc).
Proof. revert acc. induction l as [|[q rc] l IH]; intros acc; cbn [reclaim_batch]; [done|]. apply fuelled_bind; [|done]. unfold reclaim_one. fuelled. Qed.
Lemma compact_fuelled : fuelled (compact cfg env clock).
Proof.
  assert (forall now l, fuelled (candidates cfg env now l)) as Hc.
  { intros now l. induction l; cbn [candidates]; fuelled; unfold candidate, backfill_size, in_quarantine; fuelled. }
  assert (forall l ci acc, fuelled (rewrite_packs cfg env ci l acc)) as Hr.
  { intros l. induction l; intros ci acc; cbn [rewrite_packs]; fuelled; unfold rewrite_one; fuelled. }
  unfold compact. fuelled.
Qed.
Lemma delete_packs_fuelled floor rw : fuelled (delete_packs cfg env clock floor rw).
Proof.
  assert (forall now l, fuelled (remove_empties cfg env floor now l)) as Hr by (intros now l; induction l; cbn [remove_empties]; fuelled; unfold remove_empty; fuelled).
  assert (forall now stats by_pack l, fuelled (settle_rewrites cfg (DB := DB) (D := D) now stats by_pack l)) as Hs
    by (intros now stats by_pack l; induction l; cbn [settle_rewrites]; fuelled; unfold settle_rewrite; fuelled).
  unfold delete_packs. fuelled.
Qed.
End fuel.

(** * Histories of a collector *)
Section history.
Context {DB D : Type} {rocks : RocksDB DB} {law : RocksLaw DB} {data : DataStore DB D} {files : DataFiles D}.
Context (md5_hex sha1 sha256 sha256_hex : bytes -> bytes) (old : Z -> Prop).
Abbreviation step := (meta_step md5_hex sha1 sha256 sha256_hex).
Abbreviation reach := (reachable md5_hex sha1 sha256 sha256_hex).
Abbreviation queue_of w := (tab (w_meta w) kGcq).
Context {dlaw : DataLaw DB D md5_hex sha1 sha256 sha256_hex old}.
Context (env : nat -> World DB D -> option (World DB D)) (Henv : env_ok md5_hex sha1 sha256 sha256_hex (settles old) env).
Context (clock : nat -> Z) (Hclock : forall n, is_i64 (clock n)) (Hmono : forall n, (clock n <= clock (S n))%Z).
Context (cfg : GcConfig).

(** The packs first seen empty a grace period ago are those the premise is about. *)
Definition ripe (m : GcMem) : Prop :=
  forall p since n, pack_empty_since m !! p = Some since -> (grace_ms cfg <= clock n - since)%Z -> old p.

(** A collector since the process started: rounds, completed or not, and the work of
    clients between them. *)
Inductive history : GcState DB D -> Prop :=
| HStart x w n : reach x -> seen x w -> history (mkGc w fresh_mem no_stats n)
| HClients g w n :
    history g -> (forall x, reach x -> seen x (world g) -> exists y, rtc step x y /\ seen y w) -> tick g <= n ->
    history (mkGc w (mem g) no_stats n)
| HRound g fuel floor o g' : history g -> ripe (mem g) -> run_gc_once cfg env clock fuel floor g = (o, g') -> history g'.

Context (Hgrace : (0 < gc_grace_sec cfg)%Z).

Lemma history_marked g : history g -> exists x, reach x /\ seen x (world g) /\ watermark cfg (clock (tick g)) x (mem g).
Proof.
  induction 1 as [x w n Hx Hs|g w n _ (x & Hx & Hs & Hw) Hc Hn|g fuel floor o g' _ (x & Hx & Hs & Hw) Hr E].
  - exists x. split; [done|split; [done|]]. split; [done|split; [by apply reachable_ok in Hx|done]].
  - destruct (Hc x Hx Hs) as (y & Hxy & Hy). exists y. split; [by eapply reach_steps|split; [done|]]. cbn [mem tick].
    eapply watermark_later; [by apply clock_mono|]. by eapply watermark_steps.
  - destruct (round_spec md5_hex sha1 sha256 sha256_hex old env Henv clock Hclock Hmono cfg floor (clock (tick g)) fuel 0%Z (pack_empty_since (mem g)) Hgrace Hr
      x g o g' Hx Hs) as (y & Hxy & Hy & Hw' & _); [|done|].
    + split; [done|split; [by apply reachable_ok in Hx|split; [lia|done]]].
    + exists y. split; [by eapply reach_steps|split; [done|done]].
Qed.

(** The watermark loses nothing: after any history of rounds, completed or cut short, an
    entry of the queue whose grace period has passed is at or above the number at which
    the next round starts its scan, whether that is a full scan or an incremental one. *)
Lemma watermark_sound g (Hg : history g) q r (He : entry_at (queue_of (world g)) q r) now :
  (clock (tick g) <= now)%Z -> (rc_enqueue_ms r + grace_ms cfg <= now)%Z -> (scan_start now (mem g) <= q)%Z.
Proof.
  intros Hn Hd. destruct (history_marked g Hg) as (x & _ & [Em _] & _ & _ & Hc). rewrite <- Em in He. unfold scan_start.
  pose proof He as ([? _] & _). destruct (sk_any (gcq_skips (mem g))) eqn:Ea; [|lia]. destruct (Hc eq_refl) as [Hlo Hall].
  destruct (Z.lt_ge_cases q (gcq_hi (mem g))) as [Hq|Hq]; [|destruct (_ <? _)%Z; lia].
  destruct (Hall q r He Hq) as (_ & ? & ?). destruct (Z.ltb_spec now (retry_at_ms (gcq_skips (mem g)))); lia.
Qed.

(** A round that completes has taken off the queue every entry that was on it when the
    round started, past its grace period, with no pin and no lease holding it and its
    files removable. *)
Lemma round_settles g (Hg : history g) (Hr : ripe (mem g)) fuel floor g' (E : run_gc_once cfg env clock fuel floor g = (Ok tt, g'))
    q r (He : entry_at (queue_of (world g)) q r) (Hd : due env cfg floor (clock (tick g)) r) :
  queue_of (world g') !! be64_key q = None.
Proof.
  destruct (history_marked g Hg) as (x & Hx & Hs & Hw). pose proof Hs as [Em _].
  assert (sys_ok (bound := (q + 1)%Z) x) as Hb.
  { destruct He as (Hu & v & Hv & _). rewrite <- Em in Hv. pose proof (reachable_ok _ _ _ _ _ Hx) as Hok.
    pose proof (sys_ok_raise _ x q Hok Hu ltac:(by exists v)) as H. eapply sys_ok_lower; [|exact H]. lia. }
  destruct (round_spec md5_hex sha1 sha256 sha256_hex old env Henv clock Hclock Hmono cfg floor (clock (tick g)) fuel (q + 1)%Z (pack_empty_since (mem g)) Hgrace Hr
    x g (Ok tt) g' Hx Hs) as (y & Hxy & Hy & _ & Hy'); [split; [done|split; [done|split; [lia|done]]]|done|].
  destruct Hy as [Em' _]. rewrite <- Em'. destruct (tab (meta y) kGcq !! be64_key q) as [v|] eqn:Ev; [exfalso|done].
  pose proof He as (Hu & v0 & Hv0 & Hd0). rewrite <- Em in Hv0, He.
  destruct (steps_sound (bound := (q + 1)%Z) _ _ _ _ x y Hb Hxy) as (_ & _ & Hgr). destruct (Hgr q v Hu Ev) as [Hv|Hle].
  - apply (Hy' eq_refl q r); [|lia|done]. split; [done|]. exists v. split; [done|]. by rewrite Hv in Hv0; injection Hv0 as ->.
  - change (q + 1 <= q)%Z in Hle. lia.
Qed.

(** ** The scan of the queue ends *)
Lemma fuelled_then {A B} P (m : ST (GcState DB D) GcErr A) (f : A -> ST (GcState DB D) GcErr B) :
  triple md5_hex sha1 sha256 sha256_hex P m (λ _, P) -> fuelled m ->
  (forall a, triple md5_hex sha1 sha256 sha256_hex P (f a) (λ o _ _ _, o <> Throw OutOfFuel)) ->
  triple md5_hex sha1 sha256 sha256_hex P (m ≫= f) (λ o _ _ _, o <> Throw OutOfFuel).
Proof.
  intros Hm Hg Hf x g o g' Hx Hs Hp E. apply ST_bind_run in E as [(a & g1 & E1 & E2)|(e & E1 & ->)];
    destruct (Hm _ _ _ _ Hx Hs Hp E1) as (y & Hxy & Hy & Hr).
  - destruct (Hf a y g1 o g' (reach_steps _ _ _ _ _ _ Hx Hxy) Hy Hr E2) as (z & Hyz & Hz & Hq). exists z. split; [by trans y|done].
  - exists y. split; [done|split; [done|]]. intros [= ->]. apply (Hg g). by rewrite E1.
Qed.

Lemma loop_ends floor fuel next k :
  (2 ^ 62 < next + Z.of_nat fuel)%Z -> fuel <> 0 ->
  triple md5_hex sha1 sha256 sha256_hex (λ x c n, is_u64 next) (reclaim_loop cfg env clock floor fuel next k) (λ o _ _ _, o <> Throw OutOfFuel).
Proof.
  revert next k. induction fuel as [|f IH]; intros next k Hf Hnz; [done|]. cbn [reclaim_loop].
  eapply (triple_bind _ _ _ _ _ _ (λ o x c n, o <> Throw OutOfFuel /\ forall l, o = Ok l -> (forall i, i ∈ batch_ids l -> dead x i) /\
    is_u64 (next_of l next) /\ (l <> [] -> next < next_of l next <= 2 ^ 62)%Z)); [| |intros e x c n [H _] [= ->]; by apply H].
  - eapply triple_meta; [exact Henv|by intros c n x y _ _ _ ?| |by intros x c n _]. intros c n. apply read_step. intros x o s' Hx Hsp Hu E.
    pose proof (reachable_ok _ _ _ _ _ Hx) as Hok. assert (0 < kGcBatch)%Z as Hb by done.
    destruct (peek_spec _ _ _ _ _ _ _ _ (so_inv _ Hok) Hu Hb E) as [-> Hpk]. split; [done|]. split; [by destruct o|]. intros l El.
    destruct o as [l'|]; [injection El as ->|done]. specialize (Hpk l eq_refl).
    destruct (peek_next _ next x l Hok Hsp Hu Hpk) as (H1 & _ & H3 & H4). destruct Hpk as [Hent _ _]. split; [|split; [done|intros Hl; split]].
    + intros i Hi. apply elem_of_union_list in Hi as (X & ([q rc] & -> & Hin)%list_elem_of_fmap & Hi). destruct (Hent q rc Hin) as [He _]. by eapply entry_dead.
    + destruct l as [|[q r] l]; [done|]. specialize (H3 q ltac:(left)). lia.
    + destruct H4 as [H4|(q & r & -> & He & _)]; [|pose proof (entry_small _ _ _ _ Hok Hsp He); lia].
      destruct l as [|[q r] l]; [done|]. specialize (H3 q ltac:(left)). lia.
  - intros l. apply (triple_pure _ _ _ _ _ (is_u64 (next_of l next) /\ (l <> [] -> next < next_of l next <= 2 ^ 62)%Z)); [intros x c n [_ H]; by destruct (H l eq_refl)|].
    intros [Hu Hn]. case_bool_decide as El; [by apply triple_ret|]. specialize (Hn El).
    set (P := λ (x : Sys (DB := DB)) (c : GcMem) (n : nat), forall i, i ∈ batch_ids l -> dead x i).
    assert (timeless md5_hex sha1 sha256 sha256_hex (settles old) P) as HP by (split; [intros c n; apply steady_dead|done]).
    eapply (triple_weaken _ _ _ _ P); [|intros x c n [_ H]; by destruct (H l eq_refl)|intros o x c n H; exact H].
    apply (now_then _ _ _ _ (settles old)); [done|]. intros n. apply fuelled_then; [|apply batch_fuelled|].
    { apply (stable_reclaim_batch _ _ _ _ old); [exact Henv|done|]. intros x c k' Hd q rc Hin i Hi. by apply Hd, (batch_ids_elem l q rc). }
    intros acc. apply fuelled_then.
    { case_bool_decide; [apply stable_ret|]. apply stable_bind; intros; [eapply stable_calm; [exact Henv|done|apply ack_calm]|apply triple_bump]. }
    { case_bool_decide; [done|]. apply fuelled_bind; [apply fuelled_call|done]. }
    intros []. eapply triple_weaken; [apply IH|done|done]; lia.
Qed.

Definition marks_ok (c : GcMem) : Prop := is_u64 (gcq_hi c) /\ (sk_any (gcq_skips c) = true -> is_u64 (lo_seq (gcq_skips c))).
Lemma marks_timeless : timeless md5_hex sha1 sha256 sha256_hex (settles old) (λ _ c _, marks_ok c).
Proof. split; [by intros c n x y _ _ _ ?|done]. Qed.

Lemma consume_ends floor fuel :
  (2 ^ 62 < Z.of_nat fuel)%Z ->
  triple md5_hex sha1 sha256 sha256_hex (λ _ c _, marks_ok c) (consume_queue cfg env clock floor fuel) (λ o _ _ _, o <> Throw OutOfFuel).
Proof.
  intros Hf. unfold consume_queue. apply (now_then _ _ _ _ (settles old)); [apply marks_timeless|]. intros n.
  eapply triple_bind; [apply triple_get_mem| |by intros e y c k [[=] _]]. intros m.
  apply (triple_pure _ _ _ _ _ (is_u64 (scan_start (clock n) m))).
  { intros y c k [[= <-] [H1 H2]]. unfold scan_start. destruct (sk_any _); [|done]. destruct (_ <? _)%Z; auto. }
  intros Hu. eapply triple_bind; [eapply triple_weaken; [apply loop_ends|done|intros o0 y c k H; exact H]| |intros e y c k H [= ->]; by apply H].
  - destruct Hu. lia.
  - intros ->. lia.
  - intros r0 y g0 o0 g1 _ Hy _ [= <- <-]. exists y. split; [apply rtc_refl|done].
Qed.

(** C34: A round ends: with one unit of fuel for each number the queue can hold, the loop over
    the queue comes to its end, however fast clients add to it meanwhile. *)
Theorem gc_round_ends g (Hg : history g) fuel floor (Hf : (2 ^ 62 < Z.of_nat fuel)%Z) :
  (run_gc_once cfg env clock fuel floor g).1 <> Throw OutOfFuel.
Proof.
  destruct (history_marked g Hg) as (x & Hx & Hs & Hw). destruct (run_gc_once cfg env clock fuel floor g) as [o g'] eqn:E. cbn [fst]. intros ->.
  assert (marks_ok (mem g)) as Hm.
  { destruct Hw as (Hu & _ & Hl). split; [done|]. intros [? _]%Hl. unfold is_u64 in *. lia. }
  apply ST_bind_run in E as [([] & g1 & E1 & E)|(e & E1 & [= <-])]; [|apply (expire_fuelled env clock cfg g); by rewrite E1].
  destruct (stable_expire _ _ _ _ old env Henv clock Hclock cfg _ marks_timeless x g _ g1 Hx Hs Hm E1) as (y & Hxy & Hy & Hm1).
  apply ST_bind_run in E as [([] & g2 & E2 & E)|(e & E2 & [= <-])].
  - revert E. match goal with |- ?m g2 = _ -> _ => assert (fuelled m) as Hfu end; [|intros E; apply (Hfu g2); by rewrite E].
    apply fuelled_bind; [|intros []; apply fuelled_bind; [apply compact_fuelled|intros rw; apply delete_packs_fuelled]].
    unfold seal_aged. destruct (0 <? _)%Z; [|done]. apply fuelled_bind; [apply fuelled_attempt, fuelled_call|]. by intros [].
  - by destruct (consume_ends floor fuel Hf y g1 _ g' (reach_steps _ _ _ _ _ _ Hx Hxy) Hy Hm1 E2) as (z & _ & _ & []).
Qed.
End history.
