(* ===== verification/DuoReclaim.v ===== *)
(** What the collector takes off the queue it has removed from the disk: predicates of the
    world that a round keeps, and the theorem that a completed round has reclaimed every
    entry that was due. *)

From S2P Require Import Prelude Bytes Backend Listing Multipart Codec CodecProofs CodecKeys MetaUtil.
From S2P Require Import RocksDb RocksMeta RocksLedger RocksProofs RocksInv RocksOps RocksParts RocksSteps RocksTheorems RocksFront RocksStats.
From S2P Require Import DuoWorld DuoGc DuoQueue DuoHoare DuoSafety DuoLive.
From Stdlib Require Import ZArith Lia.
From stdpp Require Import base list gmap sets strings sorting relations.
Open Scope lights3_scope.

(** * What the operations of the store leave on the queue *)
Section queue.
Context {DB : Type} {rocks : RocksDB DB} {law : RocksLaw DB}.
Implicit Types s : Meta DB.
Abbreviation E := (ST (Meta DB) S3ErrorCode).

Definition has_key (k : bytes) (s : Meta DB) : Prop := is_Some (tab s kGcq !! k).

Lemma peek_entry mx mn me s o s' :
  peek_reclaims mx mn me s = (o, s') -> s' = s /\ forall l q r, o = Ok l -> (q, r) ∈ l -> entry_at (tab s kGcq) q r.
Proof.
  intros E. unfold peek_reclaims in E. apply items_bind in E as [[-> [e ->]]|E]; [done|].
  apply lift_run in E as [-> ->]. split; [done|]. intros l q r E Hin. unfold it_seek in E.
  destruct (seek_from_split [] (be64_key mn) (map_items bytes_le (tab s kGcq))) as (sk & _ & Hl & _ & _).
  destruct (peek_loop_prefix _ _ _ _ _ _ E) as (l1 & l2 & Etl & HF & _). apply list_elem_of_lookup in Hin as [i Hq].
  destruct (Forall2_lookup_r _ _ _ _ _ HF Hq) as ([k v] & Hkv & Hk & Hv). cbn [fst snd] in *. apply list_elem_of_lookup_2 in Hkv.
  assert (tab s kGcq !! k = Some v) as HG.
  { apply (map_items_elem bytes_le). rewrite Hl. apply elem_of_app. right. rewrite Etl. apply elem_of_app. by left. }
  assert (length k = 8) as H8 by (unfold parse_be64 in Hk; by destruct (Nat.eqb_spec (length k) 8)).
  destruct (be64_key_value k H8) as (Hu & Ek & Ep). rewrite Ep in Hk. injection Hk as <-. split; [done|]. exists v. by rewrite Ek.
Qed.

(** Staged operations that only add to the queue. *)
Definition add_op (o : BatchOp) : Prop := op_cf o = kGcq -> exists k v, o = BPut kGcq k v.
Lemma add_ops (k : bytes) (ops : list BatchOp) (T : table) : Forall add_op ops -> is_Some (T !! k) -> is_Some (apply_ops (on_cf kGcq ops) T !! k).
Proof.
  intros Ho. revert T. induction Ho as [|o ops Hop _ IH]; intros T HT; [done|]. change (o :: ops) with ([o] ++ ops). rewrite on_cf_app.
  unfold on_cf at 1. rewrite filter_cons. case_decide as Hc; cbn [filter list_filter app]; [|by apply IH].
  destruct (Hop Hc) as (k' & v & ->). rewrite apply_ops_cons. apply IH. cbn. apply lookup_insert_is_Some'. by right.
Qed.
Lemma side_add (ops : list BatchOp) : Forall (λ o, op_cf o <> kGcq) ops -> Forall add_op ops.
Proof. intros H. eapply list.Forall_impl; [exact H|]. intros o Ho ?. done. Qed.

Lemma pack_ops_elsewhere l ops : pack_ops_all l = Ok ops -> Forall (λ o, op_cf o <> kGcq) ops.
Proof.
  revert ops. induction l as [|[id [b r]] l IH]; intros ops; [intros [= <-]; constructor|]. cbn [pack_ops_all].
  destruct (pack_ops id b r) as [o|] eqn:Eo; [|done]. cbn [mbind res_bind]. destruct (pack_ops_all l) as [rest|]; [|done].
  intros [= <-]. apply list.Forall_app. split; [|by apply IH]. unfold pack_ops in Eo. rewrite !encode_counter_eq in Eo. injection Eo as <-.
  by repeat constructor.
Qed.

Definition adding (m : E (list BatchOp)) : Prop := quiet m /\ forall s ops s', m s = (Ok ops, s') -> Forall add_op ops.
Lemma adding_enqueue fuel now reason es : adding (enqueue_loop fuel now reason es).
Proof.
  split; [apply quiet_enqueue|]. revert es. induction fuel as [|f IH]; intros es s ops s' H; [by injection H as <- _; constructor|].
  destruct es as [|e es]; [by injection H as <- _; constructor|]. cbn [enqueue_loop] in H.
  apply ST_bind_run in H as [(seq & s1 & _ & H)|(? & _ & [=])]. apply ST_bind_run in H as [(enc & s2 & _ & H)|(? & _ & [=])].
  apply ST_bind_run in H as [(rest & s3 & Hr & H)|(? & _ & [=])]. injection H as <- _. constructor; [intros _; eauto|by eapply IH].
Qed.
Lemma adding_drop now es reason ov : adding (drop_data now es reason ov).
Proof.
  split; [apply quiet_drop|]. intros s ops s' H. unfold drop_data in H.
  apply ST_bind_run in H as [(q & s1 & Hq & H)|(? & _ & [=])]. apply ST_bind_run in H as [(p & s2 & [Hp _]%lift_run & H)|(? & _ & [=])].
  injection H as <- _. apply list.Forall_app. split; [by eapply adding_enqueue|]. apply list.Forall_app. split; apply side_add.
  - clear Hq Hp. unfold batch_refs. induction es as [|e es IH]; [constructor|]. cbn [flat_map]. destruct (is_pack e); [exact IH|]. constructor; [discriminate|exact IH].
  - symmetry in Hp. by eapply pack_ops_elsewhere.
Qed.

Lemma still_drop_parts b k id now l : quiet (drop_parts b k id now l : E _).
Proof. rewrite drop_parts_all. apply quiet_run_all. intros. apply quiet_drop. Qed.
Lemma adding_parts b k id now l s ops s' : drop_parts b k id now l s = (Ok ops, s') -> Forall add_op ops.
Proof.
  revert s ops s'. induction l as [|p l IH]; intros s ops s' H; cbn [drop_parts] in H; [by injection H as <- _; constructor|].
  apply ST_bind_run in H as [(o & s1 & Ho & H)|(? & _ & [=])]. apply ST_bind_run in H as [(rest & s2 & Hr & H)|(? & _ & [=])].
  injection H as <- _. apply list.Forall_app. split; [by eapply adding_drop|by eapply IH].
Qed.

Lemma abort_keeps b k id now s o s' key : abort_upload b k id now s = (o, s') -> has_key key s -> has_key key s'.
Proof.
  intros H Hk. unfold abort_upload in H.
  apply require_upload_bind in H as [[-> _]|(ukey0 & v & u & _ & _ & _ & _ & H)]; [done|].
  apply lift_bind in H as [[-> _]|(ukey & _ & H)]; [done|]. apply lift_bind in H as [[-> _]|(pfx & _ & H)]; [done|].
  assert (forall s1 s2, only_counter CSeq s1 s2 -> has_key key s1 -> has_key key s2) as Hq.
  { intros s1 s2 Ho. unfold has_key. by rewrite (oc_tab _ _ _ Ho). }
  apply ST_bind_run in H as [(ps & s1 & Hs%quiet_scan & H)|(e & Hs%quiet_scan & _)]; [|by eapply Hq].
  apply (Hq _ _ Hs) in Hk. clear Hs s. apply ST_bind_run in H as [(drops & s2 & Hd & H)|(e & Hd%still_drop_parts & _)]; [|by eapply Hq].
  pose proof (Hq _ _ (still_drop_parts _ _ _ _ _ _ _ _ Hd) Hk) as Hk2. apply commit_run in H. destruct o; [|by subst].
  destruct H as [Ht _]. unfold has_key. rewrite Ht. apply add_ops; [|done].
  repeat (constructor; [by intros [=]|]). by eapply adding_parts.
Qed.
End queue.

(** * Predicates of the world that a run keeps *)
Section keeps.
Context {DB D : Type} {rocks : RocksDB DB} {law : RocksLaw DB} {data : DataStore DB D}.
Context (env : nat -> World DB D -> option (World DB D)) (clock : nat -> Z) (cfg : GcConfig).
Abbreviation G := (ST (GcState DB D) GcErr).
Context (K : World DB D -> Prop) (Henv : forall n w w', env n w = Some w' -> K w -> K w').

Definition holds_over {A} (m : G A) : Prop := forall g o g', K (world g) -> m g = (o, g') -> K (world g').
Lemma over_bind {A B} (m : G A) (f : A -> G B) : holds_over m -> (forall a, holds_over (f a)) -> holds_over (m ≫= f).
Proof. intros Hm Hf g o g' HK [(a & g1 & E1 & E2)|(e & E1 & ->)]%ST_bind_run; [eapply Hf; [by eapply Hm|done]|by eapply Hm]. Qed.
Lemma over_attempt {A} (m : G A) : holds_over m -> holds_over (attempt m).
Proof. intros Hm g o g' HK E. unfold attempt in E. destruct (m g) as [[a|[e| |]] g1] eqn:Em; injection E as _ <-; by eapply Hm. Qed.
Lemma over_ret {A} (a : A) : holds_over (mret a : G A).
Proof. by intros g o g' HK [= _ <-]. Qed.
Lemma over_bump f : holds_over (bump f).
Proof. by intros g o g' HK [= _ <-]. Qed.
Lemma over_get : holds_over get_mem.
Proof. by intros g o g' HK [= _ <-]. Qed.
Lemma over_set f : holds_over (set_mem f).
Proof. by intros g o g' HK [= _ <-]. Qed.
Lemma over_now : holds_over (now_ms clock).
Proof. by intros g o g' HK [= _ <-]. Qed.
Lemma over_call {A} (m : World DB D -> result A * World DB D) : (forall w, K w -> K (m w).2) -> holds_over (call env m).
Proof.
  intros Hm g o g' HK E. unfold call in E. destruct (env (tick g) (world g)) as [w|] eqn:Ee; [|by injection E as _ <-].
  specialize (Hm w (Henv _ _ _ Ee HK)). destruct (m w) as [r w'] eqn:Em. injection E as _ <-. exact Hm.
Qed.
Lemma over_look {A} (f : World DB D -> A) : holds_over (look env f).
Proof. by apply over_call. Qed.
Lemma over_meta {A} (m : ST (Meta DB) S3ErrorCode A) :
  (forall w o s', K w -> m (w_meta w) = (o, s') -> K (mkWorld s' (w_data w) (w_pins w))) -> holds_over (meta_call env m).
Proof. intros Hm. apply over_call. intros w HK. unfold on_meta. destruct (m (w_meta w)) as [o s'] eqn:E. by eapply Hm. Qed.
Lemma over_data {A} (m : D -> result A * D) :
  (forall w o d', K w -> m (w_data w) = (o, d') -> K (mkWorld (w_meta w) d' (w_pins w))) -> holds_over (data_call env m).
Proof. intros Hm. apply over_call. intros w HK. unfold on_data. destruct (m (w_data w)) as [o s'] eqn:E. by eapply Hm. Qed.
Lemma over_read {A} (m : ST (Meta DB) S3ErrorCode A) : (forall s o s', m s = (o, s') -> s' = s) -> holds_over (meta_call env m).
Proof. intros Hm. apply over_meta. intros [s d t] o s' HK ->%Hm. exact HK. Qed.
End keeps.
Create HintDb gc_over.
#[export] Hint Resolve over_ret over_bump over_get over_set over_now over_look : gc_over.
Ltac over := repeat (cbv zeta; first
  [ progress intros | solve [eauto with gc_over] | apply over_attempt | apply over_bind
  | match goal with |- holds_over _ (if ?b then _ else _) => destruct b end
  | match goal with |- holds_over _ (match ?x with _ => _ end) => destruct x end ]).

(** * An entry and its files *)

(** A removal that succeeds has removed the files it was given; sealing and rewriting
    packs make no chunk file and take nothing off the queue. *)
Class ReclaimLaw (DB D : Type) {rocks : RocksDB DB} {law : RocksLaw DB} {data : DataStore DB D} {files : DataFiles D} : Prop := {
  remove_done es d d' : ds_remove es d = (Ok tt, d') -> forall i, i ∈ ref_ids es -> i ∉ chunk_files d';
  seal_leaves n w r w' : ds_seal_aged_packs n w = (r, w') ->
    chunk_files (w_data w') ⊆ chunk_files (w_data w) /\ forall (k v : bytes), tab (w_meta w) kGcq !! k = Some v -> tab (w_meta w') kGcq !! k = Some v;
  rewrite_leaves p w r w' : ds_rewrite_pack p w = (r, w') ->
    chunk_files (w_data w') ⊆ chunk_files (w_data w) /\ forall (k v : bytes), tab (w_meta w) kGcq !! k = Some v -> tab (w_meta w') kGcq !! k = Some v }.

Section entry.
Context {DB D : Type} {rocks : RocksDB DB} {law : RocksLaw DB} {data : DataStore DB D} {files : DataFiles D}.
Context {removal : RemovalLaw D} {rlaw : ReclaimLaw DB D}.
Context (env : nat -> World DB D -> option (World DB D)) (clock : nat -> Z) (cfg : GcConfig).
Abbreviation G := (ST (GcState DB D) GcErr).
Context (q : Z) (v : bytes) (r : Reclaim) (Hdec : decode_reclaim v = Ok r).

Definition queued_as (w : World DB D) : Prop := tab (w_meta w) kGcq !! be64_key q = Some v.
Definition gone (w : World DB D) : Prop := forall i, i ∈ ref_ids (rc_extents r) -> i ∉ chunk_files (w_data w).

(** Others neither acknowledge the entry nor bring its files back. *)
Definition left_to_gc : Prop := forall n w w', env n w = Some w' ->
  (forall v', tab (w_meta w) kGcq !! be64_key q = Some v' -> tab (w_meta w') kGcq !! be64_key q = Some v') /\ (gone w -> gone w').
Context (Hleft : left_to_gc).

Definition handled (w : World DB D) : Prop := queued_as w \/ gone w.
Lemma env_gone n w w' : env n w = Some w' -> gone w -> gone w'.
Proof. intros E. by apply (Hleft _ _ _ E). Qed.
Lemma env_handled n w w' : env n w = Some w' -> handled w -> handled w'.
Proof. intros E [Hq|Hg]; [left|right]; by apply (Hleft _ _ _ E). Qed.
Lemma env_has n w w' : env n w = Some w' -> has_key (be64_key q) (w_meta w) -> has_key (be64_key q) (w_meta w').
Proof. intros E [v' Hv]. exists v'. by apply (Hleft _ _ _ E). Qed.

(** ** The first phase leaves the entry *)
Lemma expire_has : holds_over (λ w, has_key (be64_key q) (w_meta w)) (expire_uploads cfg env clock).
Proof.
  assert (forall b k id t, holds_over (λ w, has_key (be64_key q) (w_meta w)) (meta_call env (abort_upload b k id t))) as Ha.
  { intros. apply over_meta; [apply env_has|]. cbn. intros w o s' Hk E. by eapply abort_keeps. }
  assert (forall b km im lim pre, holds_over (λ w, has_key (be64_key q) (w_meta w)) (meta_call env (list_uploads b km im lim pre))) as Hl.
  { intros. apply over_read; [apply env_has|apply list_uploads_reads]. }
  assert (holds_over (λ w, has_key (be64_key q) (w_meta w)) (meta_call env list_buckets)) as Hb.
  { apply over_read; [apply env_has|apply list_buckets_reads]. }
  assert (forall now ttl b l, holds_over (λ w, has_key (be64_key q) (w_meta w)) (expire_each env clock now ttl b l)) as He
    by (intros now ttl b l; induction l; cbn [expire_each]; over).
  assert (forall now ttl l, holds_over (λ w, has_key (be64_key q) (w_meta w)) (expire_buckets env clock now ttl l)) as Hbs
    by (intros now ttl l; induction l; cbn [expire_buckets]; over).
  unfold expire_uploads. over.
Qed.

(** ** The scan of the queue removes before it acknowledges *)
Lemma remove_gone es w o d' : gone w -> ds_remove es (w_data w) = (o, d') -> gone (mkWorld (w_meta w) d' (w_pins w)).
Proof. intros Hg E i Hi. destruct (remove_law _ _ _ _ E) as (_ & Hs & _). cbn. specialize (Hg i Hi). set_solver. Qed.

Lemma reclaim_one_gone floor now seq rc k a (g : GcState DB D) o g' :
  (seq = q -> rc = r) -> handled (world g) -> (q ∈ a -> gone (world g)) ->
  reclaim_one cfg env floor now seq rc (k, a) g = (o, g') ->
  handled (world g') /\ forall k' a', o = Ok (k', a') -> q ∈ a' -> gone (world g').
Proof.
  intros Hrc Hh Ha E. unfold reclaim_one in E. destruct (_ <? _)%Z; [injection E as <- <-; by split; [|intros ? ? [= _ <-]]|].
  destruct (match floor with Some f => _ | None => _ end); [injection E as <- <-; by split; [|intros ? ? [= _ <-]]|].
  apply ST_bind_run in E as [(pin & g1 & Ep & E)|(e & Ep & ->)].
  2: { split; [|done]. by eapply over_look; [apply env_handled|exact Hh|exact Ep]. }
  assert (handled (world g1)) as Hh1 by (by eapply over_look; [apply env_handled|exact Hh|exact Ep]).
  assert (q ∈ a -> gone (world g1)) as Ha1 by (intros ?%Ha; by eapply over_look; [apply env_gone| |exact Ep]).
  case_bool_decide; [injection E as <- <-; by split; [|intros ? ? [= _ <-]]|]. clear Ep Hh Ha.
  unfold attempt, data_call, call, on_data in E. rewrite ST_bind_eq in E.
  destruct (env (tick g1) (world g1)) as [w|] eqn:Ee; [|injection E as <- <-; by split].
  pose proof (env_handled _ _ _ Ee Hh1) as Hw. assert (q ∈ a -> gone w) as Haw by (intros ?%Ha1; by eapply env_gone).
  destruct (ds_remove (rc_extents rc) (w_data w)) as [res d'] eqn:Er. pose proof (λ H, remove_gone _ _ _ _ H Er) as Hgd.
  assert (handled (mkWorld (w_meta w) d' (w_pins w))) as Hw' by (destruct Hw as [?|?%Hgd]; [by left|by right]).
  destruct res as [[]|e]; injection E as <- <-; (split; [done|]); intros k' a' [= _ <-]; [|auto].
  intros [?|Hs]%elem_of_app; [auto|]. apply list_elem_of_singleton in Hs as ->. rewrite (Hrc eq_refl) in Er.
  intros i Hi. by eapply remove_done.
Qed.

Lemma reclaim_batch_gone floor now l : forall k a (g : GcState DB D) o g',
  (forall rc, (q, rc) ∈ l -> rc = r) -> handled (world g) -> (q ∈ a -> gone (world g)) ->
  reclaim_batch cfg env floor now l (k, a) g = (o, g') ->
  handled (world g') /\ forall k' a', o = Ok (k', a') -> q ∈ a' -> gone (world g').
Proof.
  induction l as [|[seq rc] l IH]; intros k a g o g' Hl Hh Ha E; cbn [reclaim_batch] in E; [injection E as <- <-; by split; [|intros ? ? [= _ <-]]|].
  apply ST_bind_run in E as [([k1 a1] & g1 & E1 & E)|(e & E1 & ->)];
    (apply reclaim_one_gone in E1 as [Hh1 Ha1]; [|intros ->; apply Hl; left|done|done]); [|done].
  eapply IH; [|exact Hh1|by eapply Ha1|exact E]. intros rc' Hin. apply Hl. by right.
Qed.

(** An acknowledgement of other entries leaves this one. *)
Lemma ack_handled a w o s' :
  handled w -> (q ∈ a -> gone w) -> Forall is_u64 a -> is_u64 q -> ack_reclaims a (w_meta w) = (o, s') -> handled (mkWorld s' (w_data w) (w_pins w)).
Proof.
  intros Hh Ha Hu Hq E. destruct (decide (q ∈ a)) as [Hin|Hn]; [right; exact (Ha Hin)|]. destruct Hh as [Hv|Hg]; [left|right; exact Hg].
  unfold queued_as in *. cbn [w_meta]. unfold ack_reclaims in E. case_bool_decide; [by injection E as _ <-|]. apply commit_run in E.
  destruct o; [|by subst]. destruct E as [Ht _]. rewrite Ht, on_cf_all by (by apply list.Forall_fmap, list.Forall_true).
  rewrite (list_fmap_compose be64_key (λ k, BDelete kGcq k)). apply delete_ops_lookup. split; [done|].
  intros (q' & Hk & Hin)%list_elem_of_fmap. apply be64_key_inj in Hk as <-; [done|done|]. rewrite list.Forall_forall in Hu. by apply Hu.
Qed.

Lemma reclaim_one_acked floor now seq rc k a (g : GcState DB D) k' a' g' :
  reclaim_one cfg env floor now seq rc (k, a) g = (Ok (k', a'), g') -> a' = a \/ a' = a ++ [seq].
Proof.
  intros E. unfold reclaim_one in E. destruct (_ <? _)%Z; [injection E as _ <- _; by left|].
  destruct (match floor with Some f => _ | None => _ end); [injection E as _ <- _; by left|].
  apply ST_bind_run in E as [(pin & g1 & _ & E)|(e & _ & [=])]. case_bool_decide; [injection E as _ <- _; by left|].
  apply ST_bind_run in E as [([x|] & g2 & _ & E)|(e & _ & [=])]; injection E as _ <- _; auto.
Qed.
Lemma reclaim_batch_acked floor now l : forall k a (g : GcState DB D) k' a' g',
  reclaim_batch cfg env floor now l (k, a) g = (Ok (k', a'), g') -> forall s, s ∈ a' -> s ∈ a \/ s ∈ l.*1.
Proof.
  induction l as [|[seq rc] l IH]; intros k a g k' a' g' E s Hs; cbn [reclaim_batch] in E; [injection E as _ <- _; by left|].
  apply ST_bind_run in E as [([k1 a1] & g1 & E1 & E)|(e & _ & [=])].
  destruct (IH _ _ _ _ _ _ E s Hs) as [Hin|?]; [|right; by right].
  destruct (reclaim_one_acked _ _ _ _ _ _ _ _ _ _ E1) as [-> | ->]; [by left|]. apply elem_of_app in Hin as [?|Hin]; [by left|].
  apply list_elem_of_singleton in Hin as ->. right. left.
Qed.

Lemma peek_handled mx mn me (g : GcState DB D) o g' :
  handled (world g) -> meta_call env (peek_reclaims mx mn me) g = (o, g') ->
  handled (world g') /\ forall l, o = Ok l ->
    (gone (world g') \/ forall rc, (q, rc) ∈ l -> rc = r) /\ forall s rc, (s, rc) ∈ l -> is_u64 s.
Proof.
  intros Hh E. unfold meta_call, call, on_meta in E. destruct (env (tick g) (world g)) as [w|] eqn:Ee; [|injection E as <- <-; by split].
  pose proof (env_handled _ _ _ Ee Hh) as Hw. destruct (peek_reclaims mx mn me (w_meta w)) as [r0 s'] eqn:Ep.
  destruct (peek_entry _ _ _ _ _ _ Ep) as [-> Hent]. injection E as <- <-. cbn [world].
  replace (mkWorld (w_meta w) (w_data w) (w_pins w)) with w by (by destruct w). split; [done|]. intros l El. destruct r0 as [l0|]; [injection El as ->|done].
  split; [|intros s rc Hin; by destruct (Hent l s rc eq_refl Hin)]. destruct Hw as [Hq|Hg]; [right|by left].
  intros rc Hin. destruct (Hent l q rc eq_refl Hin) as (_ & v' & Hv' & Hd). unfold queued_as in Hq. rewrite Hq in Hv'. injection Hv' as <-. congruence.
Qed.

Lemma batch_over_gone floor now l acc : holds_over gone (reclaim_batch cfg env floor now l acc).
Proof.
  assert (forall es, holds_over gone (data_call env (ds_remove es))) as Hr.
  { intros es. apply over_data; [apply env_gone|]. intros w o d' Hg E. by eapply remove_gone. }
  revert acc. induction l as [|[seq rc] l IH]; intros acc; cbn [reclaim_batch]; [apply over_ret|]. apply over_bind; [|done].
  unfold reclaim_one. pose proof (λ A f, @over_look DB D env gone env_gone A f) as Hk. over.
Qed.
Lemma meta_over_gone {A} (m : ST (Meta DB) S3ErrorCode A) : holds_over gone (meta_call env m).
Proof. apply over_meta; [apply env_gone|done]. Qed.
Lemma loop_over_gone floor fuel next k : holds_over gone (reclaim_loop cfg env clock floor fuel next k).
Proof.
  revert next k. induction fuel as [|f IH]; intros next k; cbn [reclaim_loop]; [by intros g o g' HK [= _ <-]|].
  pose proof (λ A m, @meta_over_gone A m) as Hm. pose proof (batch_over_gone floor) as Hb. over.
Qed.

Lemma ack_over a : Forall is_u64 a -> is_u64 q ->
  holds_over (λ w, handled w /\ (q ∈ a -> gone w)) (if bool_decide (a = []) then mret tt
    else _ ← meta_call env (ack_reclaims a); bump (add_acked (Z.of_nat (length a)))).
Proof.
  intros Ha Hq. case_bool_decide; [apply over_ret|]. apply over_bind; [|intros; apply over_bump]. apply over_meta.
  - intros n w w' E [Hh Hg]. split; [by eapply env_handled|]. intros ?%Hg. by eapply env_gone.
  - intros w o s' [Hh Hg] E. split; [by eapply ack_handled|exact Hg].
Qed.

Lemma loop_handled floor fuel : is_u64 q -> forall next k, holds_over handled (reclaim_loop cfg env clock floor fuel next k).
Proof.
  intros Hq. induction fuel as [|f IH]; intros next k g o g' Hh E; cbn [reclaim_loop] in E; [by injection E as _ <-|].
  apply ST_bind_run in E as [(l & g1 & E1 & E)|(e & E1 & ->)]; destruct (peek_handled _ _ _ _ _ _ Hh E1) as [Hh1 Hl]; [|done].
  destruct (Hl l eq_refl) as [[Hg|Hrc] Hu]; clear Hl.
  { match type of E with ?m g1 = _ => assert (holds_over gone m) as Hov; [|right; by eapply Hov] end.
    clear -Hdec Hleft removal rlaw. pose proof (λ A m, @meta_over_gone A m) as Hm. pose proof (batch_over_gone floor) as Hb. pose proof (loop_over_gone floor f) as Hlo. over. }
  case_bool_decide; [by injection E as _ <-|]. apply ST_bind_run in E as [(now & g2 & [= _ <-] & E)|(e & [=] & _)].
  apply ST_bind_run in E as [([k' a] & g3 & E3 & E)|(e & E3 & ->)];
    (pose proof E3 as Hb; apply reclaim_batch_gone in Hb as [Hh3 Ha]; [|exact Hrc|exact Hh1|by intros ?%not_elem_of_nil]); [|done].
  pose proof (reclaim_batch_acked _ _ _ _ _ _ _ _ _ E3) as Hac.
  assert (Forall is_u64 a) as Hau.
  { apply list.Forall_forall. intros s Hs. destruct (Hac s Hs) as [Hin|Hin]; [by apply not_elem_of_nil in Hin|].
    apply list_elem_of_fmap in Hin as ([s' rc] & -> & Hin). by eapply Hu. }
  assert (holds_over (λ w, handled w /\ (q ∈ a -> gone w)) (if bool_decide (a = []) then mret tt
    else _ ← meta_call env (ack_reclaims a); bump (add_acked (Z.of_nat (length a))))) as Hack by (by apply ack_over).
  apply ST_bind_run in E as [([] & g4 & E4 & E)|(e & E4 & ->)]; cbn [snd] in E4;
    destruct (Hack g3 _ _ (conj Hh3 (Ha k' a eq_refl)) E4) as [Hh4 _]; [|done].
  eapply IH; [exact Hh4|exact E].
Qed.

Lemma consume_handled floor fuel : is_u64 q -> holds_over handled (consume_queue cfg env clock floor fuel).
Proof. intros Hq. pose proof (loop_handled floor fuel Hq) as Hl. unfold consume_queue. over. Qed.

(** ** The rest of the round *)
Lemma meta_handled {A} (m : ST (Meta DB) S3ErrorCode A) :
  (forall s o s', m s = (o, s') -> tab s' kGcq = tab s kGcq) -> holds_over handled (meta_call env m).
Proof.
  intros Hm. apply over_meta; [apply env_handled|]. intros w o s' [Hq|Hg] E; [left|right; exact Hg]. unfold queued_as in *. cbn [w_meta]. by rewrite (Hm _ _ _ E).
Qed.
Lemma pack_stats_handled : holds_over handled (meta_call env pack_stats).
Proof. apply meta_handled. by intros s o s' ->%pack_stats_reads. Qed.
Lemma seal_handled p size : holds_over handled (meta_call env (seal_pack p size)).
Proof. apply meta_handled. intros s o s' E. by apply (seal_tables _ _ _ _ _ E). Qed.
Lemma drop_handled p : holds_over handled (meta_call env (drop_pack_stat p)).
Proof. apply meta_handled. intros s o s' E. by apply (drop_tables _ _ _ _ E). Qed.
Lemma call_handled {A} (m : World DB D -> result A * World DB D) :
  (forall w o w', m w = (o, w') -> chunk_files (w_data w') ⊆ chunk_files (w_data w) /\
     forall (k v' : bytes), tab (w_meta w) kGcq !! k = Some v' -> tab (w_meta w') kGcq !! k = Some v') -> holds_over handled (call env m).
Proof.
  intros Hm. apply over_call; [apply env_handled|]. intros w Hh. destruct (m w) as [o w'] eqn:E. cbn. destruct (Hm _ _ _ E) as [H1 H2].
  destruct Hh as [Hq|Hg]; [left; by apply H2|right]. intros i Hi. specialize (Hg i Hi). set_solver.
Qed.
Lemma remove_pack_handled p : holds_over handled (data_call env (ds_remove_pack p)).
Proof.
  apply over_data; [apply env_handled|]. intros w o d' [Hq|Hg] E; [by left|right]. intros i Hi. cbn.
  destruct (remove_pack_law _ _ _ _ E) as (-> & _). by apply Hg.
Qed.
Lemma look_handled {A} (f : World DB D -> A) : holds_over handled (look env f).
Proof. apply over_look, env_handled. Qed.
Lemma seal_aged_handled : holds_over handled (seal_aged cfg env).
Proof. unfold seal_aged. assert (forall n, holds_over handled (call env (ds_seal_aged_packs n))) as H by (intros n; apply call_handled; intros w o w'; apply seal_leaves). over. Qed.
#[local] Hint Resolve pack_stats_handled seal_handled drop_handled remove_pack_handled : gc_over.
Lemma compact_handled : holds_over handled (compact cfg env clock).
Proof.
  pose proof (@look_handled Z) as Hlk.
  assert (forall p, holds_over handled (call env (ds_rewrite_pack p))) as Hr by (intros p; apply call_handled; intros w o w'; apply rewrite_leaves).
  assert (forall now l, holds_over handled (candidates cfg env now l)) as Hc.
  { intros now l. induction l; cbn [candidates]; over; unfold candidate, backfill_size, in_quarantine; over. }
  assert (forall l ci acc, holds_over handled (rewrite_packs cfg env ci l acc)) as Hw.
  { intros l. induction l; intros ci acc; cbn [rewrite_packs]; over; unfold rewrite_one; over. }
  unfold compact. over.
Qed.
Lemma delete_packs_handled floor rw : holds_over handled (delete_packs cfg env clock floor rw).
Proof.
  pose proof (@look_handled bool) as Hlk.
  assert (forall now l, holds_over handled (remove_empties cfg env floor now l)) as Hr
    by (intros now l; induction l; cbn [remove_empties]; over; unfold remove_empty; over).
  assert (forall now stats by_pack l, holds_over handled (settle_rewrites cfg (DB := DB) (D := D) now stats by_pack l)) as Hs
    by (intros now stats by_pack l; induction l; cbn [settle_rewrites]; over; unfold settle_rewrite; over).
  unfold delete_packs. over.
Qed.
End entry.

(** * A round reclaims what is due *)
Section round.
Context {DB D : Type} {rocks : RocksDB DB} {law : RocksLaw DB} {data : DataStore DB D} {files : DataFiles D}.
Context (md5_hex sha1 sha256 sha256_hex : bytes -> bytes) (old : Z -> Prop).
Context {dlaw : DataLaw DB D md5_hex sha1 sha256 sha256_hex old} {rlaw : ReclaimLaw DB D}.
Context (env : nat -> World DB D -> option (World DB D)) (Henv : env_ok md5_hex sha1 sha256 sha256_hex (settles old) env).
Context (clock : nat -> Z) (Hclock : forall n, is_i64 (clock n)) (Hmono : forall n, (clock n <= clock (S n))%Z).
Context (cfg : GcConfig) (Hgrace : (0 < gc_grace_sec cfg)%Z).
Abbreviation queue_of w := (tab (w_meta w) kGcq).
Existing Instance data_removal.

(** The upload phase leaves an entry of the queue as it is. *)
Lemma expire_queued q v x g o g' :
  is_u64 q -> reachable md5_hex sha1 sha256 sha256_hex x -> seen x (world g) -> queue_of (world g) !! be64_key q = Some v ->
  (forall n w w', env n w = Some w' -> forall v', queue_of w !! be64_key q = Some v' -> queue_of w' !! be64_key q = Some v') ->
  expire_uploads cfg env clock g = (o, g') -> queue_of (world g') !! be64_key q = Some v.
Proof.
  intros Hu Hx Hs Hv Hl E. pose proof Hs as [Em _].
  assert (sys_ok (bound := (q + 1)%Z) x) as Hb.
  { pose proof (sys_ok_raise _ x q (reachable_ok _ _ _ _ _ Hx) Hu) as H. eapply sys_ok_lower; [|apply H]; [lia|]. rewrite Em. by exists v. }
  assert (has_key (be64_key q) (w_meta (world g'))) as [v' Hv'].
  { eapply (expire_has env clock cfg q (mkReclaim [] 0 kOverwrite)); [|by exists v|exact E]. intros n w w' Ew. split; [by apply (Hl n)|]. intros _ i Hi. by apply not_elem_of_empty in Hi. }
  destruct (stable_expire _ _ _ _ old env Henv clock Hclock cfg (λ _ _ _, True) ltac:(by split) x g o g' Hx Hs I E) as (y & Hxy & [Em' _] & _).
  destruct (steps_sound (bound := (q + 1)%Z) _ _ _ _ x y Hb Hxy) as (_ & _ & Hgr). rewrite <- Em' in Hv'. destruct (Hgr q v' Hu Hv') as [Ho|Hle].
  - rewrite Em, Hv in Ho. injection Ho as <-. by rewrite <- Em'.
  - change (q + 1 <= q)%Z in Hle. lia.
Qed.

End round.
