(* ===== verification/DuoOrphan.v ===== *)
(** The orphan scan of DuoStore ([DuoStoreBackend::run_orphan_scan_once] in
    [src/src/storage/duostore/duostore_backend.cc]): files on disk that no record and no
    account knows are deleted, records and accounts without a file are counted.

    The scan runs in the monad of a collector round; its statistics are a value. The
    engine's write lease is the argument [write_floor]. *)

From S2P Require Import Prelude Bytes Backend Listing Multipart Codec CodecProofs CodecKeys MetaUtil.
From S2P Require Import RocksDb RocksMeta RocksLedger RocksProofs RocksInv RocksOps RocksParts RocksSteps RocksTheorems RocksStats.
From S2P Require Import DuoWorld DuoGc DuoQueue DuoHoare DuoSafety.
From Stdlib Require Import ZArith Lia.
From stdpp Require Import base list gmap sets strings sorting relations.
Open Scope lights3_scope.

(** * Statistics *)
Record DuoOrphanStats := mkOrphanStats {
  chunks_scanned : Z; orphans_removed : Z; os_skipped_grace : Z; os_skipped_pinned : Z; refs_missing : Z; packs_scanned : Z;
  orphan_packs_removed : Z; packs_skipped_active : Z; pack_stats_missing : Z; chunk_bytes : Z; os_pack_bytes : Z;
  skipped_gcq : Z; os_skipped_leased : Z }.
Definition no_orphans : DuoOrphanStats := mkOrphanStats 0 0 0 0 0 0 0 0 0 0 0 0 0.

Definition saw_chunk (size : Z) (s : DuoOrphanStats) : DuoOrphanStats :=
  mkOrphanStats (chunks_scanned s + 1) (orphans_removed s) (os_skipped_grace s) (os_skipped_pinned s) (refs_missing s) (packs_scanned s)
    (orphan_packs_removed s) (packs_skipped_active s) (pack_stats_missing s) (chunk_bytes s + size) (os_pack_bytes s) (skipped_gcq s) (os_skipped_leased s).
Definition skipped (q g l p : Z) (s : DuoOrphanStats) : DuoOrphanStats :=
  mkOrphanStats (chunks_scanned s) (orphans_removed s) (os_skipped_grace s + g) (os_skipped_pinned s + p) (refs_missing s) (packs_scanned s)
    (orphan_packs_removed s) (packs_skipped_active s) (pack_stats_missing s) (chunk_bytes s) (os_pack_bytes s) (skipped_gcq s + q) (os_skipped_leased s + l).
Definition removed_chunk (s : DuoOrphanStats) : DuoOrphanStats :=
  mkOrphanStats (chunks_scanned s) (orphans_removed s + 1) (os_skipped_grace s) (os_skipped_pinned s) (refs_missing s) (packs_scanned s)
    (orphan_packs_removed s) (packs_skipped_active s) (pack_stats_missing s) (chunk_bytes s) (os_pack_bytes s) (skipped_gcq s) (os_skipped_leased s).
Definition missed (r p : Z) (s : DuoOrphanStats) : DuoOrphanStats :=
  mkOrphanStats (chunks_scanned s) (orphans_removed s) (os_skipped_grace s) (os_skipped_pinned s) (refs_missing s + r) (packs_scanned s)
    (orphan_packs_removed s) (packs_skipped_active s) (pack_stats_missing s + p) (chunk_bytes s) (os_pack_bytes s) (skipped_gcq s) (os_skipped_leased s).
Definition saw_pack (size active gone : Z) (s : DuoOrphanStats) : DuoOrphanStats :=
  mkOrphanStats (chunks_scanned s) (orphans_removed s) (os_skipped_grace s) (os_skipped_pinned s) (refs_missing s) (packs_scanned s)
    (orphan_packs_removed s + gone) (packs_skipped_active s + active) (pack_stats_missing s) (chunk_bytes s) (os_pack_bytes s + size) (skipped_gcq s) (os_skipped_leased s).
Definition count_pack (s : DuoOrphanStats) : DuoOrphanStats :=
  mkOrphanStats (chunks_scanned s) (orphans_removed s) (os_skipped_grace s) (os_skipped_pinned s) (refs_missing s) (packs_scanned s + 1)
    (orphan_packs_removed s) (packs_skipped_active s) (pack_stats_missing s) (chunk_bytes s) (os_pack_bytes s) (skipped_gcq s) (os_skipped_leased s).

(** * Sorted snapshots *)

(** [std::unique] on a list: of a run of equal elements the first is kept. *)
Fixpoint unique (l : list Z) : list Z :=
  match l with
  | a :: (b :: _) as r => if (a =? b)%Z then unique r else a :: unique r
  | _ => l
  end.
Definition sorted_ids (l : list Z) : list Z := merge_sort Z.le l.

(** [std::lower_bound]: the first position whose element is not less. *)
Fixpoint lower_bound (l : list Z) (x : Z) : nat :=
  match l with [] => 0 | y :: l' => if (y <? x)%Z then S (lower_bound l' x) else 0 end.
Definition find_id (l : list Z) (x : Z) : option nat :=
  let i := lower_bound l x in if bool_decide (l !! i = Some x) then Some i else None.
Definition unseen (marks : list bool) : Z := Z.of_nat (length (base.filter (λ b, b = false) marks)).

Definition clamp (x lo hi : Z) : Z := if (x <? lo)%Z then lo else if (hi <? x)%Z then hi else x.
(** The floor below the oldest write of a peer. *)
Definition write_floor_of (grace : Z) (oldest_write_ms : option Z) : option Z :=
  (λ m, m - clamp grace 1000 60000)%Z <$> oldest_write_ms.

Section orphan.
Context {DB D : Type} {rocks : RocksDB DB} {data : DataStore DB D}.
Context (cfg : GcConfig) (env : nat -> World DB D -> option (World DB D)) (clock : nat -> Z).
Context (data_kind : Extent.Kind) (write_floor : option Z).
Abbreviation G := (ST (GcState DB D) GcErr).

(** * The reclaim queue *)
Definition entry_chunks (l : list (Z * Reclaim)) : gset Z :=
  ⋃ ((λ e, list_to_set (Extent.file_id <$> base.filter (λ x, is_pack x = false) (rc_extents e.2))) <$> l).
Fixpoint pending_loop (fuel : nat) (seq : Z) (acc : gset Z) : G (gset Z) :=
  match fuel with
  | 0 => throw OutOfFuel
  | S f =>
      batch ← meta_call env (peek_reclaims kGcBatch seq kGcBatchExtents);
      if bool_decide (batch = []) then mret acc else pending_loop f (next_of batch seq) (acc ∪ entry_chunks batch)
  end.

(** * Chunks *)
Record Found := mkFound { fd_stats : DuoOrphanStats; fd_seen : list bool; fd_orphans : list Z }.

Definition classify_chunk (refs : list Z) (gcq_pending : gset Z) (now : Z) (e : Z * Z * Z) (f : Found) : G Found :=
  let '(id, mtime_ms, size) := e in
  let s := saw_chunk size (fd_stats f) in
  match find_id refs id with
  | Some i => mret (mkFound s (<[i := true]> (fd_seen f)) (fd_orphans f))
  | None =>
      if bool_decide (id ∈ gcq_pending) then mret (mkFound (skipped 1 0 0 0 s) (fd_seen f) (fd_orphans f))
      else if (now - mtime_ms <? grace_ms cfg)%Z then mret (mkFound (skipped 0 1 0 0 s) (fd_seen f) (fd_orphans f))
      else if match write_floor with Some w => (w <=? mtime_ms)%Z | None => false end then mret (mkFound (skipped 0 0 1 0 s) (fd_seen f) (fd_orphans f))
      else
        pinned ← look env (λ w, pinned_chunk id (w_pins w));
        if bool_decide (pinned = true) then mret (mkFound (skipped 0 0 0 1 s) (fd_seen f) (fd_orphans f))
        else mret (mkFound s (fd_seen f) (fd_orphans f ++ [id]))
  end.
Fixpoint classify_chunks (refs : list Z) (gcq_pending : gset Z) (now : Z) (l : list (Z * Z * Z)) (f : Found) : G Found :=
  match l with [] => mret f | e :: l' => f' ← classify_chunk refs gcq_pending now e f; classify_chunks refs gcq_pending now l' f' end.

Definition orphan_extent (id : Z) : Extent.t :=
  Extent.mk (match data_kind with Extent.kRados => Extent.kRados | _ => Extent.kChunk end) id 0 0 0.
(** A reference may have been committed since the snapshot: each file is looked up again. *)
Definition remove_orphan (id : Z) (s : DuoOrphanStats) : G DuoOrphanStats :=
  referenced ← meta_call env (chunk_referenced id);
  if bool_decide (referenced = true) then mret s
  else r ← attempt (data_call env (ds_remove [orphan_extent id]));
       mret (match r with Some _ => removed_chunk s | None => s end).
Fixpoint remove_orphans (l : list Z) (s : DuoOrphanStats) : G DuoOrphanStats :=
  match l with [] => mret s | id :: l' => s' ← remove_orphan id s; remove_orphans l' s' end.

Definition scan_chunks (fuel : nat) : G (DuoOrphanStats * Z) :=
  refs0 ← meta_call env scan_refs;
  let refs := unique (sorted_ids refs0) in
  gcq_pending ← pending_loop fuel 0 ∅;
  now ← now_ms clock;
  l ← call env (λ w, (ds_scan_chunks (w_data w), w));
  f ← classify_chunks refs gcq_pending now l (mkFound no_orphans (repeat false (length refs)) []);
  s ← remove_orphans (fd_orphans f) (fd_stats f);
  mret (missed (unseen (fd_seen f)) 0 s, now).

(** * Packs *)
Definition classify_pack (known : list Z) (now : Z) (e : Z * Z * Z) (f : Found) : G Found :=
  let '(id, mtime_ms, size) := e in
  let s := count_pack (saw_pack size 0 0 (fd_stats f)) in
  match find_id known id with
  | Some i => mret (mkFound s (<[i := true]> (fd_seen f)) (fd_orphans f))
  | None =>
      if (now - mtime_ms <? grace_ms cfg)%Z then mret (mkFound (saw_pack 0 1 0 s) (fd_seen f) (fd_orphans f))
      else
        pinned ← look env (λ w, pinned_pack id (w_pins w));
        if bool_decide (pinned = true) then mret (mkFound (saw_pack 0 1 0 s) (fd_seen f) (fd_orphans f))
        else mret (mkFound s (fd_seen f) (fd_orphans f ++ [id]))
  end.
Fixpoint classify_packs (known : list Z) (now : Z) (l : list (Z * Z * Z)) (f : Found) : G Found :=
  match l with [] => mret f | e :: l' => f' ← classify_pack known now e f; classify_packs known now l' f' end.

Definition remove_orphan_pack (id : Z) (s : DuoOrphanStats) : G DuoOrphanStats :=
  locked ← look env (λ w, ds_pack_write_locked id (w_data w));
  if bool_decide (locked = true) then mret (saw_pack 0 1 0 s)
  else r ← attempt (data_call env (ds_remove_pack id));
       mret (match r with Some _ => saw_pack 0 0 1 s | None => s end).
Fixpoint remove_orphan_packs (l : list Z) (s : DuoOrphanStats) : G DuoOrphanStats :=
  match l with [] => mret s | id :: l' => s' ← remove_orphan_pack id s; remove_orphan_packs l' s' end.

Definition scan_packs (now : Z) (s : DuoOrphanStats) : G DuoOrphanStats :=
  stats ← meta_call env pack_stats;
  let known := sorted_ids (ps_pack_id <$> stats) in
  l ← call env (λ w, (ds_scan_packs (w_data w), w));
  f ← classify_packs known now l (mkFound s (repeat false (length known)) []);
  s' ← remove_orphan_packs (fd_orphans f) (fd_stats f);
  mret (missed 0 (unseen (fd_seen f)) s').

Definition run_orphan_scan_once (fuel : nat) : G DuoOrphanStats :=
  r ← scan_chunks fuel;
  scan_packs r.2 r.1.
End orphan.

(** * Sorted search *)
Lemma lower_bound_sorted l x : Sorted Z.le l -> x ∈ l -> l !! lower_bound l x = Some x.
Proof.
  intros Hs%Sorted_StronglySorted; [|intros a b c; lia]. induction Hs as [|y l Hs IH Hall]; intros Hx; [by apply not_elem_of_nil in Hx|]. cbn.
  rewrite list.Forall_forall in Hall. apply elem_of_cons in Hx as [->|Hx]; [by rewrite Z.ltb_irrefl|].
  destruct (Z.ltb_spec y x); [by apply IH|]. cbn. f_equal. specialize (Hall x Hx). lia.
Qed.
Lemma find_id_None l x : find_id (sorted_ids l) x = None -> x ∉ l.
Proof.
  unfold find_id. case_bool_decide as H; [done|]. intros _ Hx. apply H, lower_bound_sorted; [apply Sorted_merge_sort; intros a b; lia|].
  unfold sorted_ids. by rewrite merge_sort_Permutation.
Qed.

(** * Files no writer holds *)
Section writers.
Context {DB : Type} {rocks : RocksDB DB} {law : RocksLaw DB}.
Context (md5_hex sha1 sha256 sha256_hex : bytes -> bytes).
Abbreviation step := (meta_step md5_hex sha1 sha256 sha256_hex).
Abbreviation reach := (reachable md5_hex sha1 sha256 sha256_hex).

Definition unheld (x : Sys (DB := DB)) (i : Z) : Prop := i ∈ chunks (issued x) /\ i ∉ writers x.

Lemma swaps_left_sub reqs l (w : gset Z) : swaps_left reqs l w ⊆ w.
Proof. revert l w. induction reqs as [|r reqs IH]; intros [|[] l] w; cbn; try done; rewrite IH; set_solver. Qed.
Lemma step_unheld x y i : sys_ok x -> step x y -> unheld x i -> unheld y i.
Proof.
  intros Hx Hs [H1 H2]. destruct Hs; unfold unheld in *; cbn [issued writers chunks] in *; try done.
  - destruct o; set_solver.
  - destruct o; set_solver.
  - destruct o as [[]|]; set_solver.
  - destruct o as [l|]; [|done]. pose proof (swaps_left_sub reqs l w). set_solver.
  - match goal with Ha : alloc_file_run _ _ _ = _, Hr : room _ _ _ |- _ => destruct (alloc_file_run_inv _ _ _ _ _ _ _ (so_inv _ Hx) Hr Ha) as (_ & Hd & _ & _) end.
    clear -H1 H2 Hd. destruct kind; cbn in *; set_solver.
  - set_solver.
Qed.
Lemma steps_unheld x y i : sys_ok x -> rtc step x y -> unheld x i -> unheld y i.
Proof.
  intros Hx Hs. induction Hs as [x|x y z Hxy _ IH]; [done|]. intros Hi. apply IH; [by apply (step_sound _ _ _ _ x y Hx Hxy)|by eapply step_unheld].
Qed.
Lemma steps_issued x y : rtc step x y -> chunks (issued x) ⊆ chunks (issued y).
Proof.
  induction 1 as [x|x y z Hxy _ IH]; [done|]. etrans; [|exact IH]. clear -Hxy. destruct Hxy; cbn; try done. destruct kind; cbn; set_solver.
Qed.
End writers.

(** * Safety *)
Section safety.
Context {DB D : Type} {rocks : RocksDB DB} {law : RocksLaw DB} {data : DataStore DB D} {files : DataFiles D} {removal : RemovalLaw D}.
Context (md5_hex sha1 sha256 sha256_hex : bytes -> bytes).
Abbreviation step := (meta_step md5_hex sha1 sha256 sha256_hex).
Abbreviation reach := (reachable md5_hex sha1 sha256 sha256_hex).
Abbreviation used_packs s := (uses_pack (tab s kObjects) (tab s kParts)).
Context (cfg : GcConfig) (clock : nat -> Z) (data_kind : Extent.Kind) (write_floor : option Z).

(** The chunk phase asks nothing of the steps of others beyond the rules of the store. *)
Definition anything (x y : Sys (DB := DB)) : Prop := True.

(** Packs that the scan lists with an append time older than the grace period. *)
Context (aged : Z -> Prop).
(** What an enumeration lists is there, and the removal of a pack leaves the write locks
    of the others. *)
Class ListingLaw : Prop := {
  scan_chunks_law d l id mtime size : ds_scan_chunks d = Ok l -> (id, mtime, size) ∈ l -> id ∈ chunk_files d;
  scan_packs_law d l id mtime size : ds_scan_packs d = Ok l -> (id, mtime, size) ∈ l -> id ∈ pack_files d;
  aged_law d l id mtime size n : ds_scan_packs d = Ok l -> (id, mtime, size) ∈ l -> (grace_ms cfg <= clock n - mtime)%Z -> aged id;
  lock_law p d r d' q : ds_remove_pack p d = (r, d') -> q <> p -> ds_pack_write_locked q d' = ds_pack_write_locked q d }.
Context {listing : ListingLaw}.

(** ** What writers of packs respect while the scan runs *)
Definition in_use (p : Z) (w : World DB D) : Prop := used_packs (w_meta w) p.
Definition write_locked (p : Z) (w : World DB D) : Prop := ds_pack_write_locked p (w_data w) = true.
Definition write_pinned (p : Z) (w : World DB D) : Prop := pinned_pack p (w_pins w) = true.

(** A record in the pack is under a pin or the lock. *)
Definition sheltered (p : Z) (w : World DB D) : Prop := in_use p w -> write_pinned p w \/ write_locked p w.
(** The pack is locked, or nobody has written to it. *)
Definition locked_or_free (p : Z) (w : World DB D) : Prop := write_locked p w \/ (~ in_use p w /\ ~ write_pinned p w).
Definition abandoned (p : Z) (w : World DB D) : Prop := ~ write_locked p w /\ ~ write_pinned p w /\ ~ in_use p w.

(** A record enters an aged pack under a pin or the write lock of the pack, and neither is
    given up before the scan ends; an unused, unpinned pack gets a pin or a record only
    under its write lock, again not given up before the scan ends; a pack without lock,
    pin and record is never written again. *)
Record pack_protocol (w w' : World DB D) : Prop := mkPackProtocol {
  pp_commit : forall p, aged p -> sheltered p w -> sheltered p w';
  pp_append : forall p, locked_or_free p w -> locked_or_free p w';
  pp_abandoned : forall p, abandoned p w -> abandoned p w' }.

(** Writers pin the files they write, files on disk were allocated, and the files [F0] of
    writers that go on stay. *)
Context (F0 : gset Z).
Definition guarded (x : Sys (DB := DB)) (w : World DB D) : Prop :=
  (forall i, i ∈ writers x -> pinned_chunk i (w_pins w) = true) /\ chunk_files (w_data w) ⊆ chunks (issued x) /\
  (forall i, i ∈ F0 -> i ∈ writers x -> i ∈ chunk_files (w_data w)) /\ (forall p, p ∈ pack_files (w_data w) -> is_u64 p).
#[local] Instance watched : Ghost DB D | 0 := λ x w, seen x w /\ guarded x w.
Context (env : nat -> World DB D -> option (World DB D)) (Henv : env_ok (tied := watched) md5_hex sha1 sha256 sha256_hex anything env).
Context (Hproto : forall n w w', env n w = Some w' -> pack_protocol w w').

Abbreviation G := (ST (GcState DB D) GcErr).
Abbreviation assertion := (Sys (DB := DB) -> GcMem -> nat -> Prop).
Abbreviation triple := (triple (tied := watched) md5_hex sha1 sha256 sha256_hex).
Abbreviation stable P m := (triple P m (λ _, P)).
Abbreviation timeless := (timeless (DB := DB) md5_hex sha1 sha256 sha256_hex anything).

Lemma triple_read {A} (m : ST (Meta DB) S3ErrorCode A) (P : assertion) (Q : res GcErr A -> assertion) :
  (forall c n, steady md5_hex sha1 sha256 sha256_hex anything (λ x, P x c n)) ->
  (forall x c n o s', reach x -> spacious (meta x) -> P x c n -> m (meta x) = (o, s') -> s' = meta x /\ Q (as_gc o) x c (S n)) ->
  (forall x c n, P x c n -> Q (Throw Killed) x c n) -> triple P (meta_call env m) Q.
Proof.
  intros HP Hm HK. eapply triple_call; [exact Henv|done| |done]. intros x c n w r w' Hx [Hs Hg] Hsp Hp E. unfold on_meta in E.
  pose proof Hs as [Em _]. rewrite <- Em in E. destruct (m (meta x)) as [o s'] eqn:Eo. injection E as <- <-. destruct (Hm x c n o s' Hx Hsp Hp Eo) as [-> Hq].
  exists x. split; [apply rtc_refl|]. split; [|done]. rewrite Em. destruct w as [s d pins]. cbn in *. done.
Qed.

(** ** Chunks *)
Definition chunk_state (orphans listed : list Z) : assertion := λ x _ _,
  (forall i, i ∈ orphans -> unheld x i) /\ (forall i, i ∈ listed -> i ∈ chunks (issued x)).
Lemma chunk_state_timeless o l : timeless (chunk_state o l).
Proof.
  split; [|done]. intros c n x y Hx Hxy _ [H1 H2]. apply reachable_ok in Hx. split.
  - intros i Hi. by eapply steps_unheld; [| |apply H1].
  - intros i Hi%H2. by apply (steps_issued _ _ _ _ x y Hxy).
Qed.

Lemma classify_chunk_spec refs pending now id mtime size f listed :
  triple (chunk_state (fd_orphans f) (id :: listed)) (classify_chunk cfg env write_floor refs pending now (id, mtime, size) f)
    (λ o x c n, forall f', o = Ok f' -> chunk_state (fd_orphans f') listed x c n).
Proof.
  assert (forall g : Found, fd_orphans g = fd_orphans f ->
    triple (chunk_state (fd_orphans f) (id :: listed)) (mret g : G Found) (λ o x c n, forall f', o = Ok f' -> chunk_state (fd_orphans f') listed x c n)) as Hret.
  { intros g Eg. apply triple_ret. intros x c n [H1 H2] f' [= <-]. rewrite Eg. split; [done|]. intros i Hi. apply H2. by right. }
  unfold classify_chunk. cbv zeta. destruct (find_id refs id); [by apply Hret|]. case_bool_decide; [by apply Hret|]. destruct (_ <? _)%Z; [by apply Hret|].
  destruct (match write_floor with Some _ => _ | None => _ end); [by apply Hret|].
  eapply (triple_bind _ _ _ _ _ _ (λ o x c n, chunk_state (fd_orphans f) (id :: listed) x c n /\ (o = Ok false -> unheld x id))); [| |done].
  - eapply triple_call; [exact Henv|apply chunk_state_timeless| |done]. intros x c n w r w' Hx [Hs Hg] Hsp Hp [= <- <-]. exists x.
    split; [apply rtc_refl|]. split; [done|]. split; [done|]. intros [= Hpin]. split; [apply Hp; by left|]. intros Hw. destruct Hg as [Hg _].
    by rewrite (Hg id Hw) in Hpin.
  - intros pin. case_bool_decide as Hp.
    + eapply triple_weaken; [by apply Hret|by intros x c n [? _]|done].
    + apply triple_ret. intros x c n [[H1 H2] Hu] f' [= <-]. destruct pin; [done|]. cbn [fd_orphans]. split.
      * intros i [Hi|Hi]%elem_of_app; [by apply H1|]. apply list_elem_of_singleton in Hi as ->. by apply Hu.
      * intros i Hi. apply H2. by right.
Qed.

Lemma classify_chunks_spec refs pending now l f :
  triple (chunk_state (fd_orphans f) l.*1.*1) (classify_chunks cfg env write_floor refs pending now l f)
    (λ o x c n, forall f', o = Ok f' -> chunk_state (fd_orphans f') [] x c n).
Proof.
  revert f. induction l as [|[[id mtime] size] l IH]; intros f; cbn [classify_chunks].
  - apply triple_ret. by intros x c n H f' [= <-].
  - rewrite !fmap_cons. cbn [fst]. eapply triple_bind; [apply (classify_chunk_spec refs pending now id mtime size f l.*1.*1)| |done].
    intros f1. eapply triple_weaken; [apply IH| |done]. intros x c n H. exact (H f1 eq_refl).
Qed.

Lemma remove_orphan_spec id l s :
  triple (chunk_state (id :: l) []) (remove_orphan env data_kind id s) (λ _, chunk_state l []).
Proof.
  assert (forall x c n, chunk_state (id :: l) [] x c n -> chunk_state l [] x c n) as Hm.
  { intros x c n [H1 H2]. split; [|done]. intros i Hi. apply H1. by right. }
  unfold remove_orphan. eapply (triple_bind _ _ _ _ _ _ (λ o x c n, chunk_state (id :: l) [] x c n /\ (o = Ok false -> dead x id))); [| |by intros e x c n [? _]; apply Hm].
  - apply triple_read; [apply chunk_state_timeless| |done]. intros x c n o s' Hx Hsp Hp E. pose proof (reachable_ok _ _ _ _ _ Hx) as Hok.
    destruct Hp as [H1 H2]. destruct (H1 id ltac:(left)) as [Hi Hw]. assert (is_u64 id) as Hu.
    { destruct (io_used _ _ _ (mi_chunk _ _ _ (so_inv _ Hok)) id Hi) as [? _]. destruct Hsp as [Hc _]. specialize (Hc CChunk). unfold is_u64. lia. }
    assert (s' = meta x /\ forall b, o = Ok b -> (b = true <-> live (meta x) id)) as [-> Hb].
    { destruct o as [b|e]; [by destruct (chunk_referenced_run _ _ _ _ _ _ (so_inv _ Hok) Hu E) as [-> ?]; split; [|intros ? [= <-]]|].
      split; [|done]. unfold chunk_referenced in E. apply get_raw_bind in E as [[-> _]|E]; [done|]. by apply mret_run in E as [_ ->]. }
    split; [done|]. split; [done|]. intros Ho. destruct o as [b|]; [injection Ho as ->|done]. split; [done|]. split; [done|]. by intros ?%(Hb false eq_refl).
  - intros b. case_bool_decide as Hb; [apply triple_ret; intros x c n [? _]; by apply Hm|].
    assert (b = false) as -> by (by destruct b). set (P := λ x c n, chunk_state (id :: l) [] x c n /\ dead x id).
    assert (timeless P) as HP.
    { destruct (chunk_state_timeless (id :: l) []) as [T1 T2]. split; [|intros x c n [? ?]; split; [by apply T2|done]].
      intros c n x y Hx Hxy Hr [H1 H2]. split; [by eapply T1|]. pose proof (steps_sound _ _ _ _ x y (reachable_ok _ _ _ _ _ Hx) Hxy) as (_ & Hd & _). by apply Hd. }
    eapply (triple_weaken _ _ _ _ P _ _ (λ _, chunk_state l [])); [|intros x c n [? Hd]; split; [done|by apply Hd]|done].
    apply stable_then; [|intros r; apply triple_ret; intros x c n [? _]; by apply Hm|intros e x c n [? _]; by apply Hm].
    apply stable_attempt. eapply triple_call; [exact Henv|apply HP| |done]. intros x c n w r w' Hx [[Em [D1 D2]] (G1 & G2 & G3 & G4)] Hsp Hp E.
    unfold on_data in E. destruct (ds_remove _ (w_data w)) as [r0 d] eqn:Ed. injection E as <- <-. destruct (remove_law _ _ _ _ Ed) as (L1 & L2 & L3).
    assert (forall i, i ∈ ref_ids [orphan_extent data_kind id] -> i = id) as Hid by (unfold orphan_extent; destruct data_kind; cbn; set_solver).
    destruct Hp as [Hp (I1 & I2 & I3)]. exists x. split; [apply rtc_refl|]. split; [|by split]. split; [split; [done|split]|split; [|split; [|split]]]; cbn [w_data w_pins].
    + intros i Hl. destruct (L3 i (D1 i Hl)) as [?| ->%Hid]; done.
    + intros p Hu. rewrite L1. auto.
    + done.
    + set_solver.
    + intros i Hi Hw. destruct (L3 i (G3 i Hi Hw)) as [?| ->%Hid]; done.
    + by rewrite L1.
Qed.
Lemma remove_orphans_spec l s : triple (chunk_state l []) (remove_orphans env data_kind l s) (λ _ _ _ _, True).
Proof.
  revert s. induction l as [|id l IH]; intros s; cbn [remove_orphans]; [by apply triple_ret|].
  eapply triple_bind; [apply remove_orphan_spec|intros s'; apply IH|done].
Qed.

Lemma stable_true_call {A} (m : World DB D -> result A * World DB D) :
  (forall w r w', m w = (r, w') -> w' = w) -> triple (λ _ _ _, True) (call env m) (λ _ _ _ _, True).
Proof.
  intros Hm. eapply triple_call; [exact Henv|done| |done]. intros x c n w r w' Hx Hs Hsp _ ->%Hm. exists x. split; [apply rtc_refl|done].
Qed.
Lemma stable_true_read {A} (m : ST (Meta DB) S3ErrorCode A) :
  (forall s o s', m s = (o, s') -> s' = s) -> triple (λ _ _ _, True) (meta_call env m) (λ _ _ _ _, True).
Proof. intros Hm. apply triple_read; [done| |done]. intros x c n o s' _ _ _ E. by rewrite (Hm _ _ _ E). Qed.

Lemma peek_reads mx mn me (s : Meta DB) o s' : peek_reclaims mx mn me s = (o, s') -> s' = s.
Proof. intros [[-> _]|E]%items_bind; [done|]. by apply lift_run in E as [_ ->]. Qed.
Lemma scan_refs_reads (s : Meta DB) o s' : scan_refs s = (o, s') -> s' = s.
Proof. intros [[-> _]|E]%items_bind; [done|]. by apply lift_run in E as [_ ->]. Qed.

Lemma scan_chunks_spec fuel :
  triple (λ _ _ _, True) (scan_chunks cfg env clock data_kind write_floor fuel) (λ o _ _ _, forall s now, o = Ok (s, now) -> exists n, now = clock n).
Proof.
  unfold scan_chunks. eapply triple_bind; [apply (stable_true_read _ scan_refs_reads)| |done]. intros refs. cbv zeta.
  eapply (triple_bind _ _ _ _ _ _ (λ _ _ _ _, True)); [| |done].
  { generalize 0%Z (∅ : gset Z). induction fuel as [|f IH]; intros seq acc; [by apply triple_throw|]. cbn [pending_loop].
    eapply triple_bind; [apply (stable_true_read _ (peek_reads _ _ _))| |done]. intros l. case_bool_decide; [by apply triple_ret|apply IH]. }
  intros pending. eapply triple_bind; [apply triple_now| |by intros e x c n (? & _ & [=] & _)]. intros now.
  apply (triple_pure _ _ _ _ _ (exists n, now = clock n)); [intros x c n (k & _ & [= ->] & _); by exists k|]. intros Hnow.
  eapply (triple_bind _ _ _ _ _ _ (λ o x c n, forall l, o = Ok l -> chunk_state [] l.*1.*1 x c n)); [| |done].
  { eapply (triple_weaken _ _ _ _ (λ _ _ _, True) _ _ (λ o x c n, forall l, o = Ok l -> chunk_state [] l.*1.*1 x c n)); [|done|done].
    eapply triple_call; [exact Henv|done| |done]. intros x c n w r w' Hx [Hs Hg] Hsp _ [= <- <-]. exists x. split; [apply rtc_refl|]. split; [done|].
    intros l El. destruct (ds_scan_chunks (w_data w)) as [l'|] eqn:Esc; [injection El as ->|done]. split; [by intros i Hi%not_elem_of_nil|].
    intros i Hi. destruct Hg as (_ & Hg & _). apply Hg. apply list_elem_of_fmap in Hi as ([i' m] & -> & Hi). apply list_elem_of_fmap in Hi as ([[i2 m2] s2] & [= -> ->] & Hi).
    by eapply scan_chunks_law. }
  intros l. eapply triple_bind; [eapply triple_weaken; [apply (classify_chunks_spec _ pending now l (mkFound no_orphans (repeat false (length (unique (sorted_ids refs)))) []))|intros x c n H; exact (H l eq_refl)|intros o x c n H; exact H]| |done].
  intros f. eapply triple_bind; [eapply triple_weaken; [apply (remove_orphans_spec (fd_orphans f))|intros x c n H; exact (H f eq_refl)|intros o x c n H; exact H]| |done].
  intros st. apply triple_ret. intros x c n _ s0 now0 [= _ <-]. done.
Qed.

(** ** Packs *)

(** Triples over predicates of the world. *)
Definition wtriple {A} (P : World DB D -> Prop) (m : G A) (Q : res GcErr A -> World DB D -> Prop) : Prop :=
  forall x g o g', reach x -> watched x (world g) -> P (world g) -> m g = (o, g') ->
    exists y, rtc step x y /\ watched y (world g') /\ Q o (world g').
Lemma wtriple_bind {A B} P (m : G A) R (f : A -> G B) Q :
  wtriple P m R -> (forall a, wtriple (R (Ok a)) (f a) Q) -> (forall e w, R (Throw e) w -> Q (Throw e) w) -> wtriple P (m ≫= f) Q.
Proof.
  intros Hm Hf He x g o g' Hx Hs Hp E. apply ST_bind_run in E as [(a & g1 & E1 & E2)|(e & E1 & ->)];
    destruct (Hm _ _ _ _ Hx Hs Hp E1) as (y & Hxy & Hy & Hr).
  - destruct (Hf a y g1 o g' (reach_steps _ _ _ _ _ _ Hx Hxy) Hy Hr E2) as (z & Hyz & Hz & Hq). exists z. split_and!; [by trans y|done|done].
  - exists y. auto.
Qed.
Lemma wtriple_ret {A} (P : World DB D -> Prop) (Q : res GcErr A -> World DB D -> Prop) (a : A) :
  (forall w, P w -> Q (Ok a) w) -> wtriple P (mret a : G A) Q.
Proof. intros HQ x g o g' Hx Hs Hp [= <- <-]. exists x. split_and!; [apply rtc_refl|done|by apply HQ]. Qed.
Lemma wtriple_weaken {A} (P P' : World DB D -> Prop) (m : G A) Q Q' :
  wtriple P m Q -> (forall w, P' w -> P w) -> (forall o w, Q o w -> Q' o w) -> wtriple P' m Q'.
Proof. intros Ht HP HQ x g o g' Hx Hs Hp E. destruct (Ht x g o g' Hx Hs (HP _ Hp) E) as (y & H1 & H2 & H3). exists y. auto. Qed.
Lemma wtriple_pure {A} P (phi : Prop) (m : G A) Q : (forall w, P w -> phi) -> (phi -> wtriple P m Q) -> wtriple P m Q.
Proof. intros Hphi Ht x g o g' Hx Hs Hp E. exact (Ht (Hphi _ Hp) x g o g' Hx Hs Hp E). Qed.

Lemma wtriple_attempt {A} P (m : G A) (Q : World DB D -> Prop) : wtriple P m (λ _, Q) -> wtriple P (attempt m) (λ _, Q).
Proof.
  intros Hm x g o g' Hx Hs Hp E. unfold attempt in E. destruct (m g) as [o1 g1] eqn:E1.
  destruct (Hm _ _ _ _ Hx Hs Hp E1) as (y & H1 & H2 & H3). exists y. destruct o1 as [|[| |]]; by injection E as _ <-.
Qed.

(** Predicates the writers of packs keep. *)
Definition kept_by_env (P : World DB D -> Prop) : Prop := forall n w w', env n w = Some w' -> P w -> P w'.
Lemma wtriple_call {A} (m : World DB D -> result A * World DB D) P Q :
  kept_by_env P ->
  (forall x w r w', reach x -> watched x w -> spacious (meta x) -> P w -> m w = (r, w') ->
     exists y, rtc step x y /\ watched y w' /\ Q (as_gc r) w') ->
  (forall w, P w -> Q (Throw Killed) w) -> wtriple P (call env m) Q.
Proof.
  intros HP Hm HK x g o g' Hx Hs Hp E. unfold call in E. destruct (env (tick g) (world g)) as [w0|] eqn:Ee.
  2: { injection E as <- <-. exists x. split_and!; [apply rtc_refl|done|by apply HK]. }
  destruct (Henv (tick g) (world g) x w0 Hx Hs Ee) as (y & Hxy & Hy & Hsp & _).
  destruct (m w0) as [r w] eqn:Em. injection E as <- <-.
  destruct (Hm y w0 r w (reach_steps _ _ _ _ _ _ Hx Hxy) Hy Hsp (HP _ _ _ Ee Hp) Em) as (z & Hyz & Hz & Hq).
  exists z. split_and!; [by trans y|done|]. by destruct r.
Qed.
Lemma wtriple_look {A} (f : World DB D -> A) P : kept_by_env P -> wtriple P (look env f) (λ o w, P w /\ forall a, o = Ok a -> a = f w).
Proof.
  intros HP. apply wtriple_call; [done| |by intros w ?; split]. intros x w r w' _ Hs _ Hp [= <- <-]. exists x. split_and!; [apply rtc_refl|done|done|by intros a [= <-]].
Qed.

(** Unknown aged packs are sheltered; those found orphaned are locked or free. *)
Definition suspects (known orphans : list Z) (w : World DB D) : Prop :=
  (forall p, is_u64 p -> p ∉ known -> aged p -> sheltered p w) /\ forall p, p ∈ orphans -> locked_or_free p w.
Lemma suspects_kept known orphans : kept_by_env (suspects known orphans).
Proof.
  intros n w w' E [H1 H2]. destruct (Hproto _ _ _ E) as [P1 P2 _]. split; [intros p ? ? ?; apply P1; [done|by apply H1]|].
  intros p Hp. by apply P2, H2.
Qed.

(** The pin gate: an unpinned suspect is locked or free. *)
Lemma unpinned_suspect p w : sheltered p w -> ~ write_pinned p w -> locked_or_free p w.
Proof.
  unfold sheltered, locked_or_free, write_locked. intros H Hp. destruct (ds_pack_write_locked p (w_data w)) eqn:El; [by left|right].
  split; [|done]. intros Hu. destruct (H Hu) as [?|?]; done.
Qed.

Lemma classify_pack_spec known now id mtime size f :
  is_u64 id -> ((grace_ms cfg <= now - mtime)%Z -> aged id) ->
  wtriple (suspects known (fd_orphans f)) (classify_pack cfg env (sorted_ids known) now (id, mtime, size) f)
    (λ o w, forall f', o = Ok f' -> suspects known (fd_orphans f') w).
Proof.
  intros Hu Hold. unfold classify_pack. cbv zeta. destruct (find_id (sorted_ids known) id) eqn:Ef; [by apply wtriple_ret; intros w Hs f' [= <-]|].
  apply find_id_None in Ef. destruct (Z.ltb_spec (now - mtime) (grace_ms cfg)); [by apply wtriple_ret; intros w Hs f' [= <-]|].
  eapply wtriple_bind; [apply wtriple_look, suspects_kept| |done]. intros pin. case_bool_decide as Hp; apply wtriple_ret; intros w [Hs Hpin] f' [= <-]; [done|].
  cbn [fd_orphans]. destruct Hs as [H1 H2]. split; [done|]. intros p [Hin|Hin]%elem_of_app; [by apply H2|]. apply list_elem_of_singleton in Hin as ->.
  apply unpinned_suspect; [apply H1; auto|]. unfold write_pinned. by rewrite <- (Hpin pin eq_refl).
Qed.
Lemma classify_packs_spec known now l f :
  (forall id mtime size, (id, mtime, size) ∈ l -> is_u64 id /\ ((grace_ms cfg <= now - mtime)%Z -> aged id)) ->
  wtriple (suspects known (fd_orphans f)) (classify_packs cfg env (sorted_ids known) now l f)
    (λ o w, forall f', o = Ok f' -> suspects known (fd_orphans f') w).
Proof.
  revert f. induction l as [|[[id mtime] size] l IH]; intros f Hl; cbn [classify_packs]; [by apply wtriple_ret; intros w Hs f' [= <-]|].
  destruct (Hl id mtime size ltac:(left)) as [Hu Ha]. eapply wtriple_bind; [by apply classify_pack_spec| |done]. intros f1.
  eapply wtriple_weaken; [apply (IH f1); intros; eapply Hl; by right|intros w H; exact (H f1 eq_refl)|done].
Qed.

(** The lock gate: an unlocked orphan is abandoned, and stays so until it is removed. *)
Lemma remove_orphan_pack_spec known id l s :
  wtriple (suspects known (id :: l)) (remove_orphan_pack env id s) (λ _, suspects known l).
Proof.
  assert (forall w, suspects known (id :: l) w -> suspects known l w) as Hm.
  { intros w [H1 H2]. split; [done|]. intros p Hp. apply H2. by right. }
  unfold remove_orphan_pack. eapply wtriple_bind; [apply wtriple_look, suspects_kept| |by intros e w [? _]; apply Hm]. intros locked.
  case_bool_decide as Hl; [apply wtriple_ret; intros w [? _]; by apply Hm|].
  eapply (wtriple_weaken (λ w, suspects known l w /\ abandoned id w) _ _ (λ _, suspects known l)); [|intros w [Hs Hlk]|done].
  2: { split; [by apply Hm|]. destruct Hs as [_ Hs]. destruct (Hs id ltac:(left)) as [Hx|[? ?]]; unfold abandoned, write_locked in *; rewrite <- (Hlk locked eq_refl) in *; done. }
  eapply (wtriple_bind _ _ (λ _, suspects known l)); [|intros r; by apply wtriple_ret|done].
  apply wtriple_attempt, wtriple_call.
  - intros n w w' E [H1 H2]. split; [by eapply suspects_kept|by eapply pp_abandoned; [eapply Hproto|]].
  - intros x w r w' Hx [[Em [D1 D2]] (G1 & G2 & G3 & G4)] Hsp [[S1 S2] (A1 & A2 & A3)] E.
    unfold on_data in E. destruct (ds_remove_pack id (w_data w)) as [r0 d] eqn:Ed. injection E as <- <-. destruct (remove_pack_law _ _ _ _ Ed) as (L1 & L2 & L3).
    exists x. split; [apply rtc_refl|]. split; [split; [split; [done|split]|split; [|split; [|split]]]|split]; cbn [w_data w_pins].
    + by rewrite L1.
    + intros p Hup. destruct (L3 p (D2 p Hup)) as [?| ->]; [done|]. destruct A3. unfold in_use. by rewrite <- Em.
    + done.
    + by rewrite L1.
    + by rewrite L1.
    + intros p Hp'. apply G4. by apply L2.
    + intros p Hpu Hpk Hpa. destruct (decide (p = id)) as [->|Hne]; [by intros ?%A3|]. specialize (S1 p Hpu Hpk Hpa).
      unfold sheltered, write_locked in *. cbn [w_data w_pins w_meta]. by rewrite (lock_law _ _ _ _ _ Ed Hne).
    + intros p Hp. destruct (decide (p = id)) as [->|Hne]; [by right|]. specialize (S2 p Hp).
      unfold locked_or_free, write_locked in *. cbn [w_data w_pins w_meta]. by rewrite (lock_law _ _ _ _ _ Ed Hne).
  - by intros w [? _].
Qed.
Lemma remove_orphan_packs_spec known l s : wtriple (suspects known l) (remove_orphan_packs env l s) (λ _ _, True).
Proof.
  revert s. induction l as [|id l IH]; intros s; cbn [remove_orphan_packs]; [by apply wtriple_ret|].
  eapply wtriple_bind; [apply remove_orphan_pack_spec|intros s'; apply IH|done].
Qed.

Lemma pack_stats_known x l s' :
  reach x -> spacious (meta x) -> pack_stats (meta x) = (Ok l, s') -> forall p, is_u64 p -> p ∉ ps_pack_id <$> l -> ~ used_packs (meta x) p.
Proof.
  intros Hx Hsp E p Hp Hn. apply (pack_stats_run md5_hex sha1 sha256 sha256_hex) in E as (_ & _ & _ & H3). apply ledger_recs_uses.
  rewrite <- (pack_counted (meta x) (issued x) (writers x)); [|apply (so_inv _ (reachable_ok _ _ _ _ _ Hx))|done|by apply spacious_stored].
  unfold stat. destruct (tab (meta x) kStats !! pack_stat_key p (ch "r")) eqn:Ek; [|done]. destruct Hn. apply (H3 p (ch "r")); [done|by eexists].
Qed.

Lemma scan_packs_spec k s : wtriple (λ _, True) (scan_packs cfg env (clock k) s) (λ _ _, True).
Proof.
  unfold scan_packs. eapply (wtriple_bind _ _ (λ o w, forall l, o = Ok l -> suspects (ps_pack_id <$> l) [] w)); [| |done].
  { apply wtriple_call; [done| |done]. intros x w r w' Hx Hs Hsp _ E. unfold on_meta in E. pose proof Hs as [[Em _] _]. rewrite <- Em in E.
    destruct (pack_stats (meta x)) as [o s'] eqn:Ep. injection E as <- <-. pose proof (pack_stats_reads _ _ _ Ep) as ->.
    rewrite Em. replace (mkWorld (w_meta w) (w_data w) (w_pins w)) with w by (by destruct w). exists x. split; [apply rtc_refl|]. split; [done|].
    intros l El. destruct o as [l'|]; [injection El as ->|done]. split; [|by intros p ?%not_elem_of_nil]. intros p Hu Hn _ Huse. exfalso.
    eapply pack_stats_known; [exact Hx|exact Hsp|exact Ep|exact Hu|exact Hn|]. by rewrite Em. }
  intros stats. cbv zeta. set (known := ps_pack_id <$> stats).
  eapply (wtriple_weaken (suspects known [])); [|intros w H; exact (H stats eq_refl)|intros o w H; exact H].
  eapply (wtriple_bind _ _ (λ o w, suspects known [] w /\ forall l, o = Ok l ->
    (forall id mtime size, (id, mtime, size) ∈ l -> is_u64 id /\ ((grace_ms cfg <= clock k - mtime)%Z -> aged id)))); [| |done].
  { apply wtriple_call; [apply suspects_kept| |by intros w ?; split]. intros x w r w' Hx [Hs Hg] Hsp Hp [= <- <-]. exists x. split; [apply rtc_refl|].
    split; [done|]. split; [done|]. intros l El id mtime size Hin. destruct (ds_scan_packs (w_data w)) as [l'|] eqn:Esc; [injection El as ->|done].
    destruct Hg as (_ & _ & _ & Hg). split; [by eapply Hg, scan_packs_law|by eapply aged_law]. }
  intros l. apply (wtriple_pure _ (forall id mtime size, (id, mtime, size) ∈ l -> is_u64 id /\ ((grace_ms cfg <= clock k - mtime)%Z -> aged id)));
    [intros w [_ H]; exact (H l eq_refl)|]. intros Hl.
  eapply wtriple_bind; [eapply wtriple_weaken; [by apply (classify_packs_spec known (clock k) l (mkFound s (repeat false (length (sorted_ids known))) []))|by intros w [? _]|intros o w H; exact H]| |done].
  intros f. eapply wtriple_bind; [eapply wtriple_weaken; [apply (remove_orphan_packs_spec known (fd_orphans f))|intros w H; exact (H f eq_refl)|intros o w H; exact H]| |done].
  intros s'. by apply wtriple_ret.
Qed.

End safety.
