(* ===== verification/DuoDemo.v ===== *)
(** A collector at work: a data plane of two sets of files that seals pack 7 and rewrites
    into a new pack file, clients that do nothing, and
    the store of the demonstration run, whose queue holds one overwritten chunk. *)

From S2P Require Import Prelude Bytes Backend Listing Multipart Codec CodecProofs CodecKeys MetaUtil.
From S2P Require Import RocksDb RocksMeta RocksLedger RocksProofs RocksInv RocksOps RocksParts RocksSteps RocksTheorems RocksStats.
From S2P Require Import DuoWorld DuoGc DuoQueue DuoHoare DuoSafety DuoLive DuoReclaim DuoOrphan.
From Stdlib Require Import ZArith Lia.
From stdpp Require Import base list gmap sets strings sorting relations.
Open Scope lights3_scope.

Record SetFiles := mkSetFiles { set_chunks : gset Z; set_packs : gset Z }.
Abbreviation W := (World mem_db SetFiles).

#[local] Instance set_store : DataStore mem_db SetFiles := {
  ds_remove es d := (Ok tt, mkSetFiles (set_chunks d ∖ ref_ids es) (set_packs d));
  ds_remove_pack p d := (Ok tt, mkSetFiles (set_chunks d) (set_packs d ∖ {[p]}));
  ds_stat_pack _ _ := 0%Z;
  ds_pack_write_locked _ _ := false;
  ds_scan_chunks d := Ok ((λ i, (i, 0, 0)%Z) <$> elements (set_chunks d));
  ds_scan_packs d := Ok ((λ i, (i, 0, 0)%Z) <$> elements (set_packs d));
  ds_seal_aged_packs n w := let '(r, s) := seal_pack 7 n (w_meta w) in (match r with Ok _ => Ok 1%Z | Throw e => Throw e end, mkWorld s (w_data w) (w_pins w));
  ds_rewrite_pack p w := (Ok (mkRewrite 0 0 0 0), mkWorld (w_meta w) (mkSetFiles (set_chunks (w_data w)) ({[(p + 1)%Z]} ∪ set_packs (w_data w))) (w_pins w)) }.
#[local] Instance set_files : DataFiles SetFiles := { chunk_files := set_chunks; pack_files := set_packs }.

Lemma moves_more old (w : W) d : set_chunks (w_data w) ⊆ set_chunks d -> set_packs (w_data w) ⊆ set_packs d ->
  moves hash hash hash hash old w (mkWorld (w_meta w) d (w_pins w)).
Proof.
  intros H1 H2 x Hx [Em [D1 D2]] _. exists x. split; [apply rtc_refl|]. split; [|by intros p]. split; [done|]. split.
  - intros i Hi. by apply H1, D1.
  - intros p Hp. by apply H2, D2.
Qed.
Lemma moves_seal old (w : W) n : moves hash hash hash hash old w (ds_seal_aged_packs n w).2.
Proof.
  intros x Hx [Em Hd] Hsp. cbn [ds_seal_aged_packs set_store]. destruct (seal_pack 7 n (w_meta w)) as [r s] eqn:E. cbn [snd]. rewrite <- Em in E.
  destruct (seal_calm hash hash hash hash 7 n ltac:(done) x r s Hx Hsp E) as (r' & Hxy & Hl & Hu & Hs).
  eexists. split; [exact Hxy|]. split; [split; [done|by eapply on_disk_mono]|].
  intros p _ (H1 & H2 & H3). cbn [meta]. split_and!; [done|by apply Hs|]. by intros ?%Hu.
Qed.
#[local] Instance set_removal : RemovalLaw SetFiles.
Proof.
  split.
  - intros es d r d' [= <- <-]. split; [done|split; [set_solver|]]. intros i Hi. cbn. destruct (decide (i ∈ ref_ids es)); [by right|left; set_solver].
  - intros p d r d' [= <- <-]. split; [done|split; [set_solver|]]. intros q Hq. cbn. destruct (decide (q = p)); [by right|left; set_solver].
Qed.
#[local] Instance set_law old : DataLaw mem_db SetFiles hash hash hash hash old.
Proof.
  split; [apply _| |].
  - intros n w r w' E. pose proof (moves_seal old w n) as H. by rewrite E in H.
  - intros p w r w' [= <- <-]. apply moves_more; cbn; set_solver.
Qed.
#[local] Instance set_reclaim : ReclaimLaw mem_db SetFiles.
Proof.
  split.
  - intros es d d' [= <-] i Hi. cbn. set_solver.
  - intros n w r w' E. cbn [ds_seal_aged_packs set_store] in E. destruct (seal_pack 7 n (w_meta w)) as [r0 s] eqn:Es. injection E as _ <-. cbn.
    split; [done|]. intros k v. by rewrite (proj1 (seal_tables _ _ _ _ _ Es)).
  - intros p w r w' [= _ <-]. by split.
Qed.

(** The clients do nothing; the run stops where the id spaces come near their end. *)
Definition spaciousb (s : Meta mem_db) : bool :=
  forallb (λ c, cstat s c <? 2 ^ 62)%Z [CChunk; CPack; CSeq] && (stored_extents (tab s kObjects) (tab s kParts) <? 2 ^ 40)%Z.
Definition idle (n : nat) (w : W) : option W := if spaciousb (w_meta w) then Some (mkWorld (w_meta w) (w_data w) (mkPins ∅ ∅)) else None.
Lemma idle_ok old : env_ok hash hash hash hash (settles old) idle.
Proof.
  intros n w x w' Hx Hs. unfold idle. destruct (spaciousb (w_meta w)) eqn:Eb; [|done]. intros [= <-]. exists x. split; [apply rtc_refl|]. split; [done|].
  split; [|by intros p]. unfold spaciousb in Eb. apply andb_true_iff in Eb as [Ec Ee]. destruct Hs as [-> _]. split.
  - intros c. assert (In c [CChunk; CPack; CSeq]) as Hin by (destruct c; cbn; auto). apply (proj1 (forallb_forall _ _) Ec) in Hin. by apply Z.ltb_lt in Hin.
  - by apply Z.ltb_lt in Ee.
Qed.

Definition late (n : nat) : Z := 5000.
Definition demo_cfg : GcConfig := mkGcConfig 1 0 0 0 0 (λ _ _, true).
Definition demo_gc : GcState mem_db SetFiles :=
  mkGc (mkWorld (meta demo4) (mkSetFiles {[0%Z; 1%Z]} {[7%Z]}) (mkPins ∅ ∅)) fresh_mem no_stats 0.
Definition demo_round := run_gc_once demo_cfg idle late 3 None demo_gc.
Definition never (p : Z) : Prop := False.

(** The records of the demonstration lie in pack 7. *)
Lemma packs_are_seven (x : Sys (DB := mem_db)) p :
  forallb (λ kv, forallb (λ e, negb (is_pack e) || (Extent.file_id e =? 7)%Z) (data_of_object kv.2)) (map_to_list (tab (meta x) kObjects)) = true ->
  map_to_list (tab (meta x) kParts) = [] ->
  uses_pack (tab (meta x) kObjects) (tab (meta x) kParts) p -> p ∈ ({[7%Z]} : gset Z).
Proof.
  intros Ho Em (e & He & <- & [(k & v & Hk & Hin)|(k & v & Hk & Hin)]); apply elem_of_map_to_list in Hk.
  - apply list_elem_of_In in Hk, Hin. pose proof (proj1 (forallb_forall _ _) Ho (k, v) Hk) as Hv. pose proof (proj1 (forallb_forall _ _) Hv e Hin) as He7. cbn beta in He7.
    rewrite He in He7. apply Z.eqb_eq in He7 as ->. by apply elem_of_singleton.
  - rewrite Em in Hk. destruct (not_elem_of_nil _ Hk).
Qed.
Lemma demo_seen : seen demo4 (world demo_gc).
Proof.
  split; [done|]. split.
  - intros i Hi. pose proof (mi_held _ _ _ (so_inv _ (reachable_ok _ _ _ _ _ demo_reachable)) i Hi) as [Hc _].
    assert (chunks (issued demo4) = {[0%Z; 1%Z]}) as Ec by (vm_compute; reflexivity). rewrite Ec in Hc. exact Hc.
  - intros p. apply (packs_are_seven demo4); vm_compute; reflexivity.
Qed.

Lemma fresh_ripe clock cfg (g : GcState mem_db SetFiles) : mem g = fresh_mem -> ripe never clock cfg (mem g).
Proof. intros ->. intros p since n Hp. cbn in Hp. by rewrite lookup_empty in Hp. Qed.

Lemma gc_keeps_live_files_witness : exists y, rtc demo_step demo4 y /\ seen y (world demo_round.2).
Proof.
  apply (gc_keeps_live_files hash hash hash hash never idle (idle_ok never) late (λ _, ltac:(done)) demo_cfg 3 None demo4 demo_gc demo_round.1 demo_round.2).
  - exact demo_reachable.
  - exact demo_seen.
  - reflexivity.
  - apply (fresh_ripe late demo_cfg demo_gc eq_refl).
  - apply surjective_pairing.
Defined.

(** ** The one entry of the queue, in time and too early *)
Definition demo_entry : Reclaim := mkReclaim (or_data (demo_rec 0)) 5 kOverwrite.
Definition entry_bytes : bytes := default [] (tab (meta demo4) kGcq !! be64_key 0).
Lemma demo_entry_at : entry_at (tab (meta demo4) kGcq) 0 demo_entry.
Proof. split; [done|]. exists entry_bytes. split; vm_compute; reflexivity. Qed.

Definition early (n : nat) : Z := 10.
Definition demo_early := run_gc_once demo_cfg idle early 3 None demo_gc.
Lemma demo_history clock : history hash hash hash hash never idle clock demo_cfg demo_gc.
Proof. apply (HStart _ _ _ _ _ _ _ _ demo4); [exact demo_reachable|exact demo_seen]. Qed.


Definition plenty : nat := Z.to_nat (2 ^ 62 + 1).
Lemma plenty_large : (2 ^ 62 < Z.of_nat plenty)%Z.
Proof. unfold plenty. rewrite Z2Nat.id by lia. lia. Qed.
Lemma gc_round_ends_witness : (run_gc_once demo_cfg idle late plenty None demo_gc).1 <> Throw OutOfFuel.
Proof.
  apply (gc_round_ends hash hash hash hash never idle (idle_ok never) late (λ _, ltac:(done)) (λ _, ltac:(done)) demo_cfg eq_refl demo_gc (demo_history late)).
  exact plenty_large.
Defined.

(** ** The orphan scan, with a file left by a writer that died *)
Definition frozen (n : nat) (w : W) : option W := if spaciousb (w_meta w) then Some w else None.
Definition always (p : Z) : Prop := True.
Lemma spaciousb_ok s : spaciousb s = true -> spacious s.
Proof.
  intros [Ec Ee]%andb_true_iff. split; [|by apply Z.ltb_lt in Ee]. intros c. assert (In c [CChunk; CPack; CSeq]) as Hin by (destruct c; cbn; auto).
  apply (proj1 (forallb_forall _ _) Ec) in Hin. by apply Z.ltb_lt in Hin.
Qed.
Lemma frozen_ok F0 : env_ok (tied := watched F0) hash hash hash hash anything frozen.
Proof.
  intros n w x w' Hx Hs. unfold frozen. destruct (spaciousb (w_meta w)) eqn:Eb; [|done]. intros [= <-]. exists x. split; [apply rtc_refl|]. split; [done|].
  split; [|done]. destruct Hs as [[-> _] _]. by apply spaciousb_ok.
Qed.
Lemma frozen_protocol n (w w' : W) : frozen n w = Some w' -> pack_protocol always w w'.
Proof. unfold frozen. destruct (spaciousb (w_meta w)); [|done]. by intros [= <-]. Qed.
#[local] Instance set_listing : ListingLaw demo_cfg late always.
Proof.
  split; [| |done|done].
  - intros d l id m z [= <-] (i & [= -> _ _] & Hi)%list_elem_of_fmap. by apply elem_of_elements in Hi.
  - intros d l id m z [= <-] (i & [= -> _ _] & Hi)%list_elem_of_fmap. by apply elem_of_elements in Hi.
Qed.

Definition demo_crash : Sys := mkSys (reopened (meta demo3)) (issued demo3) ∅ (retired demo3 ∪ writers demo3).
Lemma demo_crash_reachable : reachable hash hash hash hash demo_crash.
Proof.
  destruct demo3_reachable as (sync & d & Hf & Hr). exists sync, d. split; [done|]. eapply rtc_r; [exact Hr|].
  exact (StRestart hash hash hash hash (meta demo3) (issued demo3) (writers demo3) (retired demo3)).
Qed.
Definition demo_orphans : GcState mem_db SetFiles := mkGc (mkWorld (meta demo_crash) (mkSetFiles {[0%Z; 1%Z]} {[7%Z]}) (mkPins ∅ ∅)) fresh_mem no_stats 0.
Lemma demo_crash_seen : seen demo_crash (world demo_orphans).
Proof.
  split; [done|]. split.
  - intros i Hi. pose proof (mi_held _ _ _ (so_inv _ (reachable_ok _ _ _ _ _ demo_crash_reachable)) i Hi) as [Hc _].
    assert (chunks (issued demo_crash) = {[0%Z; 1%Z]}) as Ec by (vm_compute; reflexivity). rewrite Ec in Hc. exact Hc.
  - intros p. apply (packs_are_seven demo_crash); vm_compute; reflexivity.
Qed.

Definition demo_scan := run_orphan_scan_once demo_cfg frozen late Extent.kChunk None 3 demo_orphans.
Lemma demo_scan_removes : (orphans_removed <$> match demo_scan.1 with Ok s => Some s | Throw _ => None end) = Some 1%Z /\ set_chunks (w_data (world demo_scan.2)) = {[0%Z]}.
Proof. split; vm_compute; reflexivity. Qed.
