(* ===== verification/RateLimiter.v ===== *)
(** The per-client rate limiter ([src/src/s3/ratelimit.h], [ratelimit.cc]).

    [tokens] is a [double] in the source; here a bucket holds exact nano-tokens, so that
    [dt * rps] (with [dt] in nanoseconds) needs no rounding. A [Token] carries an
    [Entry*]: entries have an identity of their own, so that an entry erased and
    re-created under the same key is a different entry, and a token outliving its entry
    would be visible. *)

From S2P Require Import Prelude Bytes.
From Stdlib Require Import ZArith Lia.
From stdpp Require Import base list gmap sets strings.

(** * Data *)
Record Limits := mkLimits { rps : Z; burst : Z; max_inflight : Z }.
Definition any_limit (l : Limits) : bool := (0 <? rps l)%Z || (0 <? max_inflight l)%Z.

Record Entry := mkEntry { eid : nat; tokens : Z; last : Z; inflight : Z }.

(** What a [Token] points to: the key is kept only to name the entry. *)
Record Handle := mkHandle { h_key : bytes; h_eid : nat }.
#[global] Instance handle_eq : EqDecision Handle.
Proof. solve_decision. Defined.

(** The limiter and the handles of the tokens still alive. *)
Record State := mkState {
  table : gmap bytes Entry; lru : list bytes; next_eid : nat; live : list Handle }.

Definition one : Z := 1000000000.

(** The constructor's normalisation. *)
Definition make_limits (l : Limits) : Limits :=
  mkLimits (rps l) (if (burst l <=? 0)%Z then rps l else burst l) (max_inflight l).
Definition make_max_tracked (n : Z) : Z := Z.max 1 n.

Definition init_state : State := mkState ∅ [] 0 [].

(** * Operations *)
Definition set_table (t : gmap bytes Entry) (s : State) : State := mkState t (lru s) (next_eid s) (live s).

(** [lru_.erase(it)]: a key is in the list once. *)
Definition lru_erase (k : bytes) (l : list bytes) : list bytes := base.filter (λ x, x <> k) l.

(** The inner scan of [evict_locked], from the back of the list: the least recently used
    key with nothing in flight. *)
Definition idle (t : gmap bytes Entry) (k : bytes) : bool :=
  match t !! k with Some e => (inflight e =? 0)%Z | None => false end.
Definition find_victim (s : State) : option bytes := List.find (idle (table s)) (reverse (lru s)).

(** [evict_locked]: every round but the last removes a key, so the length of the list is
    fuel enough. *)
Fixpoint evict_loop (max_tracked : Z) (fuel : nat) (s : State) : State :=
  match fuel with
  | O => s
  | S f =>
      if (max_tracked <=? Z.of_nat (size (table s)))%Z && negb (bool_decide (lru s = [])) then
        match find_victim s with
        | Some k => evict_loop max_tracked f
                      (mkState (delete k (table s)) (lru_erase k (lru s)) (next_eid s) (live s))
        | None => s
        end
      else s
  end.
Definition evict_locked (max_tracked : Z) (s : State) : State := evict_loop max_tracked (S (length (lru s))) s.

(** The refill and the two tests of the source's admission on the entry it found: the entry to leave
    behind and whether the request is admitted. *)
Definition refill (l : Limits) (now : Z) (e : Entry) : Entry :=
  let dt := (now - last e)%Z in
  if (0 <? dt)%Z then mkEntry (eid e) (Z.min (burst l * one) (tokens e + dt * rps l)) now (inflight e) else e.

Definition entry_admit (l : Limits) (now : Z) (e : Entry) : bool * Entry :=
  let e1 := if (0 <? rps l)%Z then refill l now e else e in
  if (0 <? rps l)%Z && (tokens e1 <? one)%Z then (false, e1)
  else if (0 <? max_inflight l)%Z && (max_inflight l <=? inflight e1)%Z then (false, e1)
  else (true, mkEntry (eid e1) (if (0 <? rps l)%Z then tokens e1 - one else tokens e1)%Z (last e1) (inflight e1 + 1)%Z).

(** Locate or create the entry of a key. *)
Definition locate (l : Limits) (max_tracked : Z) (key : bytes) (now : Z) (s : State) : Entry * State :=
  match table s !! key with
  | Some e => (e, mkState (table s) (key :: lru_erase key (lru s)) (next_eid s) (live s))
  | None =>
      let s1 := if (max_tracked <=? Z.of_nat (size (table s)))%Z then evict_locked max_tracked s else s in
      let e := mkEntry (next_eid s1) (burst l * one) now 0 in
      (e, mkState (<[key := e]> (table s1)) (key :: lru s1) (S (next_eid s1)) (live s1))
  end.

(** Outcome of the source's admission: a token (accounted or not), or [nullopt]. *)
Inductive outcome := Granted (h : option Handle) | Rejected.

Definition limiter_admit (l : Limits) (max_tracked : Z) (key : bytes) (now : Z) (s : State) : outcome * State :=
  if negb (any_limit l) || bool_decide (key = []) then (Granted None, s)
  else
    let '(e, s1) := locate l max_tracked key now s in
    let '(ok, e') := entry_admit l now e in
    let s2 := set_table (<[key := e']> (table s1)) s1 in
    if ok then (Granted (Some (mkHandle key (eid e'))),
                mkState (table s2) (lru s2) (next_eid s2) (mkHandle key (eid e') :: live s2))
    else (Rejected, s2).

(** [Token::reset]: decrement the entry the token points to. It is only reached while the
    token is alive; [None] is a dangling pointer. *)
Fixpoint drop_one (h : Handle) (l : list Handle) : list Handle :=
  match l with [] => [] | x :: l' => if decide (x = h) then l' else x :: drop_one h l' end.

Definition token_reset (h : Handle) (s : State) : option State :=
  match table s !! h_key h with
  | Some e =>
      if (eid e =? h_eid h)%nat
      then Some (mkState (<[h_key h := mkEntry (eid e) (tokens e) (last e) (inflight e - 1)]> (table s)) (lru s)
                   (next_eid s) (drop_one h (live s)))
      else None
  | None => None
  end.

Definition tracked (s : State) : nat := size (table s).

(** * Runs *)
Section steps.
Context (l : Limits) (max_tracked : Z).
Inductive step : State -> State -> Prop :=
| step_admit s key now : step s (limiter_admit l max_tracked key now s).2
| step_reset s h s' : h ∈ live s -> token_reset h s = Some s' -> step s s'.
Definition reachable : State -> Prop := rtc step init_state.
End steps.

(** * Invariant *)
Definition live_of (h : Handle) (s : State) : Z := Z.of_nat (length (base.filter (λ x, x = h) (live s))).

Record inv (l : Limits) (s : State) : Prop := mkInv {
  inv_lru : NoDup (lru s);
  inv_dom : forall k, k ∈ lru s <-> is_Some (table s !! k);
  inv_fresh : map_Forall (λ _ e, eid e < next_eid s) (table s);
  inv_inflight : map_Forall (λ k e, inflight e = live_of (mkHandle k (eid e)) s) (table s);
  inv_live : forall h, h ∈ live s -> exists e, table s !! h_key h = Some e /\ eid e = h_eid h;
  inv_cap : (0 < max_inflight l)%Z -> map_Forall (λ _ e, (inflight e <= max_inflight l)%Z) (table s);
  inv_tokens : (0 < rps l)%Z -> map_Forall (λ _ e, (0 <= tokens e <= burst l * one)%Z) (table s) }.

(** Limits as the constructor leaves them. *)
Definition limits_ok (l : Limits) : Prop := (0 < rps l -> 1 <= burst l)%Z.

Lemma make_limits_ok l : limits_ok (make_limits l).
Proof. unfold limits_ok, make_limits. cbn. case_if; lia. Qed.

(** * Preservation *)
Lemma lru_erase_elem k x l : x ∈ lru_erase k l <-> x <> k /\ x ∈ l.
Proof. unfold lru_erase. by rewrite list_elem_of_filter. Qed.
Lemma lru_erase_NoDup k l : NoDup l -> NoDup (lru_erase k l).
Proof. apply NoDup_filter. Qed.

Lemma live_of_pos h s : h ∈ live s -> (0 < live_of h s)%Z.
Proof.
  intros Hh. unfold live_of. destruct (base.filter (λ x, x = h) (live s)) as [|x r] eqn:E; [|cbn; lia].
  assert (h ∈ base.filter (λ x, x = h) (live s)) as Hin by (by apply list_elem_of_filter). rewrite E in Hin.
  by apply elem_of_nil in Hin.
Qed.

Section proofs.
Context (l : Limits) (max_tracked : Z).
Context (Hl : limits_ok l).

Lemma limiter_init_inv : inv l init_state.
Proof. split; cbn; try apply map_Forall_empty; try (intros; apply map_Forall_empty); try set_solver; [constructor|]. intros k. rewrite lookup_empty. split; [set_solver|by intros [? ?]]. Qed.

(** Dropping an idle key. *)
Lemma drop_idle_inv s k :
  inv l s -> idle (table s) k = true ->
  inv l (mkState (delete k (table s)) (lru_erase k (lru s)) (next_eid s) (live s)).
Proof.
  intros [H1 H2 H3 H4 H5 H6 H7] Hi. unfold idle in Hi. destruct (table s !! k) as [e|] eqn:Ek; [|done].
  apply Z.eqb_eq in Hi. split; cbn.
  - by apply lru_erase_NoDup.
  - intros x. rewrite lru_erase_elem, H2. destruct (decide (x = k)) as [->|Hne].
    + rewrite lookup_delete_eq. split; [naive_solver|by intros [? ?]].
    + rewrite lookup_delete_ne by done. naive_solver.
  - by apply map_Forall_delete.
  - by apply map_Forall_delete.
  - intros h Hh. destruct (H5 h Hh) as (e' & He' & Hid). destruct (decide (h_key h = k)) as [<-|Hne].
    + exfalso. rewrite Ek in He'. injection He' as <-. pose proof (H4 _ _ Ek) as Hc. cbn in Hc.
      replace (mkHandle (h_key h) (eid e)) with h in Hc by (destruct h; cbn in *; by subst).
      pose proof (live_of_pos h s Hh). lia.
    + exists e'. by rewrite lookup_delete_ne.
  - intros ?. apply map_Forall_delete. auto.
  - intros ?. apply map_Forall_delete. auto.
Qed.

Lemma evict_loop_inv f : forall s, inv l s -> inv l (evict_loop max_tracked f s) /\
  table (evict_loop max_tracked f s) ⊆ table s.
Proof.
  induction f as [|f IH]; intros s Hi; cbn [evict_loop]; [done|]. case_if; [|done].
  destruct (find_victim s) as [k|] eqn:Ev; [|done]. apply List.find_some in Ev as [_ Hk].
  destruct (IH _ (drop_idle_inv _ _ Hi Hk)) as [Hi' Hs]. split; [done|]. etrans; [exact Hs|]. apply delete_subseteq.
Qed.

(** Writing back an entry of a tracked key. *)
Lemma update_inv s k e e' :
  inv l s -> table s !! k = Some e -> eid e' = eid e -> inflight e' = inflight e ->
  ((0 < rps l)%Z -> (0 <= tokens e' <= burst l * one)%Z) ->
  inv l (set_table (<[k := e']> (table s)) s).
Proof.
  intros [H1 H2 H3 H4 H5 H6 H7] Hk He Hf Ht. split; cbn.
  - done.
  - intros x. rewrite H2. destruct (decide (x = k)) as [->|]; [|by rewrite lookup_insert_ne].
    rewrite lookup_insert_eq, Hk. split; by eexists.
  - apply map_Forall_insert_2; [|done]. rewrite He. by eapply (H3 k).
  - apply map_Forall_insert_2; [|done]. rewrite He, Hf. by apply H4.
  - intros h Hh. destruct (H5 h Hh) as (x & Hx & Hid). destruct (decide (h_key h = k)) as [<-|].
    + exists e'. rewrite lookup_insert_eq. split; [done|]. congruence.
    + exists x. by rewrite lookup_insert_ne.
  - intros Hc. apply map_Forall_insert_2; [|auto]. rewrite Hf. by eapply (H6 Hc k).
  - intros Hr. apply map_Forall_insert_2; [auto|auto].
Qed.

Lemma locate_inv key now s e s1 :
  inv l s -> locate l max_tracked key now s = (e, s1) -> inv l s1 /\ table s1 !! key = Some e.
Proof.
  intros Hi. unfold locate. destruct (table s !! key) as [e0|] eqn:Ek.
  - intros [= <- <-]. destruct Hi as [H1 H2 H3 H4 H5 H6 H7]. split; [|done]. split; cbn; try done.
    + constructor; [rewrite lru_erase_elem; naive_solver|by apply lru_erase_NoDup].
    + intros k. rewrite elem_of_cons, lru_erase_elem, H2. destruct (decide (k = key)) as [->|]; naive_solver.
  - set (s0 := if (max_tracked <=? Z.of_nat (size (table s)))%Z then evict_locked max_tracked s else s).
    assert (inv l s0 /\ table s0 ⊆ table s) as [[H1 H2 H3 H4 H5 H6 H7] Hs0].
    { unfold s0. case_if; [by apply evict_loop_inv|done]. }
    assert (table s0 !! key = None) as Hn.
    { destruct (table s0 !! key) eqn:E; [|done]. eapply lookup_weaken in E; [|exact Hs0]. congruence. }
    clearbody s0. intros [= <- <-]. cbn. split; [|by rewrite lookup_insert_eq]. split; cbn.
    + constructor; [|done]. rewrite H2, Hn. by intros [? ?].
    + intros k. rewrite elem_of_cons, H2. destruct (decide (k = key)) as [->|].
      * rewrite lookup_insert_eq. naive_solver.
      * rewrite lookup_insert_ne by done. naive_solver.
    + apply map_Forall_insert_2; [cbn; lia|]. eapply map_Forall_impl; [exact H3|]. cbn. lia.
    + apply map_Forall_insert_2; [|done]. cbn. unfold live_of. cbn.
      destruct (base.filter _ (live s0)) as [|x r] eqn:E; [done|]. exfalso.
      assert (x ∈ base.filter (λ x, x = mkHandle key (next_eid s0)) (live s0)) as [-> Hx]%list_elem_of_filter
        by (rewrite E; by left).
      destruct (H5 _ Hx) as (e' & He' & _). cbn in He'. congruence.
    + intros h Hh. destruct (H5 h Hh) as (x & Hx & Hid). exists x. split; [|done].
      rewrite lookup_insert_ne; [done|]. intros E. rewrite <- E in Hx. congruence.
    + intros Hc. apply map_Forall_insert_2; [cbn; lia|auto].
    + intros Hr. apply map_Forall_insert_2; [|auto]. cbn. unfold limits_ok, one in *. lia.
Qed.

(** The entry after the tests. *)
Lemma entry_admit_spec now e b e' :
  entry_admit l now e = (b, e') ->
  ((0 < rps l)%Z -> (0 <= tokens e <= burst l * one)%Z) ->
  eid e' = eid e /\ inflight e' = (inflight e + if b then 1 else 0)%Z /\
  ((0 < rps l)%Z -> (0 <= tokens e' <= burst l * one)%Z) /\
  (b = true -> (0 < max_inflight l)%Z -> (inflight e < max_inflight l)%Z).
Proof.
  unfold entry_admit, refill, one. intros H Ht.
  destruct (Z.ltb_spec 0 (rps l)); [specialize (Ht H0); destruct (Z.ltb_spec 0 (now - last e))|]; cbn in H;
    repeat match type of H with context [if ?c then _ else _] => destruct c eqn:? end; injection H as <- <-; cbn in *;
    bool_prop; split_and!; lia || (intros; nia) || idtac.
Qed.

Lemma admit_inv key now s : inv l s -> inv l (limiter_admit l max_tracked key now s).2.
Proof.
  intros Hi. unfold limiter_admit. case_if; [done|].
  destruct (locate l max_tracked key now s) as [e s1] eqn:El. apply locate_inv in El as [Hi1 Hk]; [|done].
  destruct (entry_admit l now e) as [ok e'] eqn:Ee.
  apply entry_admit_spec in Ee as (He & Hf & Ht & Hc); [|intros Hr; by eapply (inv_tokens _ _ Hi1 Hr key)].
  destruct ok; [|cbn; eapply update_inv; eauto; lia]. cbn. rewrite He. clear Hi. destruct Hi1 as [H1 H2 H3 H4 H5 H6 H7].
  split; cbn.
  - done.
  - intros x. rewrite H2. destruct (decide (x = key)) as [->|]; [|by rewrite lookup_insert_ne].
    rewrite lookup_insert_eq, Hk. split; by eexists.
  - apply map_Forall_insert_2; [|done]. rewrite He. by eapply (H3 key).
  - intros x y Hxy. unfold live_of. cbn [live]. destruct (decide (x = key)) as [->|Hne].
    + rewrite lookup_insert_eq in Hxy. injection Hxy as <-. rewrite He, Hf, filter_cons_True by done.
      cbn [length]. pose proof (H4 _ _ Hk) as Hl4. cbn in Hl4. unfold live_of in Hl4. lia.
    + rewrite lookup_insert_ne in Hxy by done. rewrite filter_cons_False by congruence. by apply H4.
  - intros h [->|Hh]%elem_of_cons.
    + exists e'. cbn. by rewrite lookup_insert_eq.
    + destruct (H5 h Hh) as (x & Hx & Hid). destruct (decide (h_key h = key)) as [<-|].
      * exists e'. rewrite lookup_insert_eq. split; [done|]. congruence.
      * exists x. by rewrite lookup_insert_ne.
  - intros Hm. apply map_Forall_insert_2; [|auto]. specialize (Hc eq_refl Hm). lia.
  - intros Hr. apply map_Forall_insert_2; auto.
Qed.

Lemma drop_one_count h x ls :
  h ∈ ls -> length (base.filter (λ y, y = x) ls)
          = length (base.filter (λ y, y = x) (drop_one h ls)) + (if decide (x = h) then 1 else 0).
Proof.
  induction ls as [|y ls IH]; [set_solver|]. intros Hh. cbn [drop_one].
  destruct (decide (y = h)) as [->|Hne].
  - destruct (decide (x = h)) as [->|]; [rewrite filter_cons_True by done; cbn; lia|].
    rewrite filter_cons_False by congruence. lia.
  - assert (h ∈ ls) as Hin by set_solver. specialize (IH Hin).
    destruct (decide (y = x)) as [->|]; [rewrite !filter_cons_True by done; cbn [length]; lia|].
    by rewrite !filter_cons_False.
Qed.
Lemma drop_one_elem h x ls : x ∈ drop_one h ls -> x ∈ ls.
Proof. induction ls as [|y ls IH]; cbn; [done|]. case_decide; set_solver. Qed.

(** A live token's entry is there: releasing it never follows a dangling pointer. *)
Lemma reset_defined s h : inv l s -> h ∈ live s -> is_Some (token_reset h s).
Proof.
  intros Hi Hh. destruct (inv_live _ _ Hi h Hh) as (e & He & Hid). unfold token_reset. rewrite He, Hid, Nat.eqb_refl.
  by eexists.
Qed.

Lemma reset_inv s h s' : inv l s -> h ∈ live s -> token_reset h s = Some s' -> inv l s'.
Proof.
  intros [H1 H2 H3 H4 H5 H6 H7] Hh. unfold token_reset. destruct (table s !! h_key h) as [e|] eqn:Ek; [|done].
  destruct (Nat.eqb_spec (eid e) (h_eid h)) as [Hid|]; [|done]. intros [= <-]. split; cbn.
  - done.
  - intros x. rewrite H2. destruct (decide (x = h_key h)) as [->|]; [|by rewrite lookup_insert_ne].
    rewrite lookup_insert_eq, Ek. split; by eexists.
  - apply map_Forall_insert_2; [|done]. cbn. by eapply (H3 (h_key h)).
  - intros x y Hxy. unfold live_of. cbn [live]. destruct (decide (x = h_key h)) as [->|Hne].
    + rewrite lookup_insert_eq in Hxy. injection Hxy as <-. cbn. pose proof (H4 _ _ Ek) as Hl4. cbn in Hl4.
      unfold live_of in Hl4. rewrite (drop_one_count h) in Hl4 by done.
      rewrite decide_True in Hl4 by (destruct h; cbn in *; by subst). lia.
    + rewrite lookup_insert_ne in Hxy by done. rewrite (H4 _ _ Hxy). unfold live_of.
      rewrite (drop_one_count h _ (live s)) by done. rewrite decide_False by (intros <-; by apply Hne). lia.
  - intros x Hx%drop_one_elem. destruct (H5 x Hx) as (y & Hy & Hyid). destruct (decide (h_key x = h_key h)) as [E|].
    + eexists. rewrite E, lookup_insert_eq. split; [done|]. cbn. rewrite E in Hy. congruence.
    + exists y. by rewrite lookup_insert_ne.
  - intros Hm. apply map_Forall_insert_2; [|auto]. cbn. pose proof (H6 Hm _ _ Ek). cbn in *. lia.
  - intros Hr. apply map_Forall_insert_2; [|auto]. cbn. by eapply (H7 Hr (h_key h)).
Qed.
End proofs.

Lemma filter_ext_elem {A} (P Q : A -> Prop) `{!forall x, Decision (P x), !forall x, Decision (Q x)} (ls : list A) :
  (forall x, x ∈ ls -> P x <-> Q x) -> base.filter P ls = base.filter Q ls.
Proof.
  induction ls as [|x ls IH]; intros Hx; [done|]. rewrite !filter_cons, IH by (intros; apply Hx; by right).
  pose proof (Hx x (list_elem_of_here _ _)). repeat case_decide; naive_solver.
Qed.

Lemma reachable_inv l m s : limits_ok l -> reachable l m s -> inv l s.
Proof.
  intros Hl Hr. refine (rtc_ind_r (λ s, inv l s) _ _ _ s Hr); [by apply limiter_init_inv|]. clear s Hr.
  intros s s' _ [x key now|x h x' Hh Hx] Hi; [by apply admit_inv|by eapply reset_inv].
Qed.

Definition demo_limits : Limits := make_limits (mkLimits 2 0 1).
Definition demo_run (evs : list (string * Z)) : State :=
  fold_left (λ s e, (limiter_admit demo_limits 4 (bs e.1) e.2 s).2) evs init_state.

(** * Theorems *)

(** No use after free and no leaked slot: in every reachable state each entry's
    in-flight counter equals the number of live tokens that point to it, the LRU list
    and the table hold the same keys, and every live token still points to an existing
    entry, so releasing it is defined. *)
Theorem limiter_tokens_valid (l : Limits) (max_tracked : Z) (s : State) (Hl : limits_ok l)
    (Hr : reachable l max_tracked s) : inv l s /\ (forall h, h ∈ live s -> is_Some (token_reset h s)).
Proof. pose proof (reachable_inv _ _ _ Hl Hr) as Hi. split; [done|]. intros h Hh. by eapply reset_defined. Qed.
Lemma limiter_tokens_valid_witness : inv demo_limits (demo_run [("a", 0%Z); ("b", 1%Z)]).
Proof.
  apply (limiter_tokens_valid demo_limits 4); [apply make_limits_ok|].
  eapply rtc_r; [|apply (step_admit demo_limits 4 (demo_run [("a", 0%Z)]) (bs "b") 1)].
  eapply rtc_r; [apply rtc_refl|]. apply (step_admit demo_limits 4 init_state (bs "a") 0).
Defined.

(** C35: The concurrency cap: with a cap configured, the tokens alive for one client
    never exceed it, under any sequence of admissions, releases and evictions. *)
Theorem limiter_concurrency_cap (l : Limits) (max_tracked : Z) (s : State) (key : bytes) (Hl : limits_ok l)
    (Hr : reachable l max_tracked s) (Hcap : (0 < max_inflight l)%Z) :
  (Z.of_nat (length (base.filter (λ h, h_key h = key) (live s))) <= max_inflight l)%Z.
Proof.
  pose proof (reachable_inv _ _ _ Hl Hr) as Hi. destruct (table s !! key) as [e|] eqn:Ek.
  - pose proof (inv_cap _ _ Hi Hcap _ _ Ek) as Hc. pose proof (inv_inflight _ _ Hi _ _ Ek) as Hf. cbn in Hc, Hf.
    rewrite Hf in Hc. unfold live_of in Hc.
    rewrite (filter_ext_elem _ (λ h, h = mkHandle key (eid e))); [done|].
    intros h Hh. destruct (inv_live _ _ Hi h Hh) as (e' & He' & Hid). split; [|by intros ->].
    intros <-. rewrite Ek in He'. injection He' as <-. destruct h. cbn in *. by subst.
  - destruct (base.filter _ (live s)) as [|h hs] eqn:E; [cbn; lia|]. exfalso.
    assert (h ∈ base.filter (λ h, h_key h = key) (live s)) as [<- Hh]%list_elem_of_filter by (rewrite E; by left).
    destruct (inv_live _ _ Hi h Hh) as (e' & He' & _). congruence.
Qed.
Lemma limiter_concurrency_cap_witness :
  (Z.of_nat (length (base.filter (λ h, h_key h = bs "a") (live (demo_run [("a", 0%Z); ("a", 1%Z)])))) <= 1)%Z.
Proof.
  apply (limiter_concurrency_cap demo_limits 4); [apply make_limits_ok| |cbn; lia].
  eapply rtc_r; [|apply (step_admit demo_limits 4 (demo_run [("a", 0%Z)]) (bs "a") 1)].
  eapply rtc_r; [apply rtc_refl|]. apply (step_admit demo_limits 4 init_state (bs "a") 0).
Defined.

(** ** Sustained rate *)

(** What happens to one tracked entry: requests at some times, and releases. *)
Inductive event := EAdmit (now : Z) | ERelease.
Definition entry_event (l : Limits) (ev : event) (e : Entry) : bool * Entry :=
  match ev with
  | EAdmit now => entry_admit l now e
  | ERelease => (false, mkEntry (eid e) (tokens e) (last e) (inflight e - 1))
  end.
Fixpoint entry_run (l : Limits) (evs : list event) (e : Entry) : Z * Entry :=
  match evs with
  | [] => (0%Z, e)
  | ev :: evs' =>
      let '(b, e1) := entry_event l ev e in
      let '(n, e2) := entry_run l evs' e1 in ((if b then 1 else 0) + n, e2)%Z
  end.

(** One event spends at most what was there plus what time earned. *)
Lemma entry_event_potential l ev e b e' :
  (0 < rps l)%Z -> entry_event l ev e = (b, e') ->
  (last e <= last e' /\ tokens e' + (if b then one else 0) <= tokens e + rps l * (last e' - last e))%Z.
Proof.
  intros Hr. destruct ev as [now|]; cbn [entry_event]; [|intros [= <- <-]; cbn; lia].
  unfold entry_admit, refill. destruct (Z.ltb_spec 0 (rps l)); [|lia]. cbn [andb].
  destruct (Z.ltb_spec 0 (now - last e)); intros Hx;
    repeat match type of Hx with context [if ?c then _ else _] => destruct c eqn:? end; injection Hx as <- <-; cbn; lia.
Qed.

(** The sustained-rate bound: over any sequence of requests and releases of a
    tracked client, in any order of times, the admitted requests number at most the
    bucket's content at the start plus [rps] per second of elapsed time, hence at most
    [burst + rps * elapsed]. *)
Theorem limiter_rate_bound (l : Limits) (evs : list event) (e e' : Entry) (n : Z) (Hr : (0 < rps l)%Z)
    (Ht : (0 <= tokens e <= burst l * one)%Z) (Hrun : entry_run l evs e = (n, e')) :
  (last e <= last e' /\ n * one <= burst l * one + rps l * (last e' - last e))%Z.
Proof.
  cut (last e <= last e' /\ tokens e' + n * one <= tokens e + rps l * (last e' - last e) /\ 0 <= tokens e')%Z; [lia|].
  destruct Ht as [Ht Hb].
  revert e Ht Hb n Hrun. induction evs as [|ev evs IH]; intros e Ht Hb n Hrun; cbn [entry_run] in Hrun.
  - injection Hrun as <- <-. lia.
  - destruct (entry_event l ev e) as [b e1] eqn:Ee. destruct (entry_run l evs e1) as [n1 e2] eqn:Er.
    injection Hrun as <- <-. pose proof (entry_event_potential _ _ _ _ _ Hr Ee) as [Hl1 Hp].
    assert (0 <= tokens e1 <= burst l * one)%Z as [H0 H1].
    { destruct ev as [now|]; cbn [entry_event] in Ee; [|injection Ee as <- <-; cbn; lia].
      apply entry_admit_spec in Ee as (_ & _ & H1 & _); auto. }
    specialize (IH e1 H0 H1 n1 Er). destruct b; lia.
Qed.
Lemma limiter_rate_bound_witness :
  exists n e', entry_run demo_limits [EAdmit 5; ERelease; EAdmit 6; EAdmit 7] (mkEntry 0 (2 * one) 5 0) = (n, e') /\
    (n * one <= 2 * one + 2 * (last e' - 5))%Z.
Proof.
  eexists _, _. split; [vm_compute; reflexivity|].
  apply (limiter_rate_bound demo_limits [EAdmit 5; ERelease; EAdmit 6; EAdmit 7] (mkEntry 0 (2 * one) 5 0)).
  - reflexivity.
  - split; vm_compute; discriminate.
  - vm_compute. reflexivity.
Defined.

(** ** Table bound *)
Lemma evict_loop_bound l m f : forall s,
  inv l s -> length (lru s) < f ->
  let s' := evict_loop m f s in
  (Z.of_nat (size (table s')) < m)%Z \/ map_Forall (λ _ e, inflight e <> 0%Z) (table s').
Proof.
  induction f as [|f IH]; intros s Hi Hf; [lia|]. cbn [evict_loop].
  destruct (Z.leb_spec m (Z.of_nat (size (table s)))); [|by left]. cbn [andb].
  assert (find_victim s = None -> map_Forall (λ _ e, inflight e <> 0%Z) (table s)) as Hnone.
  { intros Hv k e Hk Hz. assert (k ∈ lru s) as Hin by (apply (inv_dom _ _ Hi); by eexists).
    apply elem_of_reverse, list_elem_of_In in Hin. pose proof (List.find_none _ _ Hv k Hin) as Hx.
    unfold idle in Hx. rewrite Hk, Hz in Hx. done. }
  case_bool_decide as Hnil; cbn [negb].
  - right. apply Hnone. unfold find_victim. by rewrite Hnil.
  - destruct (find_victim s) as [k|] eqn:Ev; [|right; by apply Hnone].
    apply List.find_some in Ev as [Hk Hidle]. apply list_elem_of_In, elem_of_reverse in Hk.
    apply IH; [by apply drop_idle_inv|]. cbn.
    assert (length (lru_erase k (lru s)) < length (lru s)); [|lia].
    rewrite reverse_involutive in Hk. eapply length_filter_lt; [exact Hk|]. by intros Hne.
Qed.

Lemma locate_new_bound l m key now s e s1 :
  inv l s -> table s !! key = None -> locate l m key now s = (e, s1) ->
  (Z.of_nat (size (table s1)) <= m)%Z \/ (forall k x, k <> key -> table s1 !! k = Some x -> inflight x <> 0%Z).
Proof.
  intros Hi Hn. unfold locate. rewrite Hn.
  set (s0 := if (m <=? Z.of_nat (size (table s)))%Z then evict_locked m s else s).
  assert ((Z.of_nat (size (table s0)) < m)%Z \/ map_Forall (λ _ e, inflight e <> 0%Z) (table s0)) as Hb.
  { unfold s0. destruct (Z.leb_spec m (Z.of_nat (size (table s)))); [|by left].
    eapply evict_loop_bound; [exact Hi|lia]. }
  clearbody s0. intros [= <- <-]. cbn. destruct Hb as [Hb|Hb].
  - left. rewrite map_size_insert. destruct (table s0 !! key); cbn; lia.
  - right. intros k x Hk. rewrite lookup_insert_ne by done. apply Hb.
Qed.

(** The table is bounded: admitting a client that is not tracked yet leaves either
    at most [max_tracked] clients, or a table in which every other client has a request
    in flight; so a scan of random sources with nothing in flight cannot grow it. *)
Theorem limiter_table_bound (l : Limits) (max_tracked : Z) (key : bytes) (now : Z) (s : State) (Hl : limits_ok l)
    (Hr : reachable l max_tracked s) (Hnew : table s !! key = None) (Hany : any_limit l = true) (Hkey : key <> []) :
  let s' := (limiter_admit l max_tracked key now s).2 in
  (Z.of_nat (tracked s') <= max_tracked)%Z \/
  (forall k e, k <> key -> table s' !! k = Some e -> inflight e <> 0%Z).
Proof.
  pose proof (reachable_inv _ _ _ Hl Hr) as Hi. unfold tracked, limiter_admit. rewrite Hany, bool_decide_eq_false_2 by done. cbn.
  destruct (locate l max_tracked key now s) as [e s1] eqn:El. pose proof (locate_inv _ _ Hl _ _ _ _ _ Hi El) as [Hi1 Hk].
  destruct (entry_admit l now e) as [ok e'].
  assert (forall x, size (<[key := x]> (table s1)) = size (table s1)) as Hsz.
  { intros x. apply map_size_insert_Some. by eexists. }
  destruct (locate_new_bound _ _ _ _ _ _ _ Hi Hnew El) as [Hb|Hb]; destruct ok; cbn; rewrite ?Hsz; auto;
    right; intros k x Hkk; rewrite lookup_insert_ne by done; by apply Hb.
Qed.
Lemma limiter_table_bound_witness :
  (Z.of_nat (tracked (limiter_admit demo_limits 4 (bs "b") 3 (demo_run [("a", 0%Z)])).2) <= 4)%Z \/
  (forall k e, k <> bs "b" -> table (limiter_admit demo_limits 4 (bs "b") 3 (demo_run [("a", 0%Z)])).2 !! k = Some e ->
     inflight e <> 0%Z).
Proof.
  apply (limiter_table_bound demo_limits 4 (bs "b") 3 (demo_run [("a", 0%Z)])).
  - apply make_limits_ok.
  - eapply rtc_r; [apply rtc_refl|]. apply (step_admit demo_limits 4 init_state (bs "a") 0).
  - vm_compute. reflexivity.
  - reflexivity.
  - discriminate.
Defined.
