(* ===== verification/Semaphore.v ===== *)
(** The asynchronous semaphore ([src/src/core/semaphore.h]).

    Every region that runs under [m_], and every [claimed.exchange] outside it, is one
    atomic step; a coroutine that suspends is a waiter identity. [held] counts the
    permits in existence (in the hands of running coroutines or travelling to a resumed
    one); [granted] and [cancelled] record how each waiter was resumed. *)

From S2P Require Import Prelude.
From Stdlib Require Import ZArith Lia.
From stdpp Require Import base list gmap sets.

(** * State *)
Record Sem := mkSem {
  permits : Z; capacity : Z; closed : bool;
  waiters : list nat;            (* front first *)
  claimed : gset nat;            (* waiters whose [claimed] flag is set *)
  pending : gset nat;            (* registered for cancellation, not yet at the lock *)
  closing : list nat;            (* taken by [close], still to be woken *)
  next : nat;
  held : Z; granted : list nat; cancelled : gset nat }.

Definition sem_init (n : Z) : Sem := mkSem n n false [] ∅ ∅ [] 0 0 [] ∅.

(** Outcome of an acquire attempt: a permit at once, [OperationCancelled] at once, or suspended. *)
Inductive acq := AGot | AFail | AWait.

(** * Operations *)

(** A permit goes to the caller. *)
Definition take_permit (s : Sem) : Sem :=
  mkSem (permits s - 1) (capacity s) (closed s) (waiters s) (claimed s) (pending s) (closing s) (next s)
    (held s + 1) (granted s) (cancelled s).

(** Path without a cancellation token. *)
Definition acquire_plain (s : Sem) : acq * Sem :=
  if closed s then (AFail, s)
  else if (0 <? permits s)%Z then (AGot, take_permit s)
  else (AWait, mkSem (permits s) (capacity s) (closed s) (waiters s ++ [next s]) (claimed s) (pending s) (closing s)
                 (S (next s)) (held s) (granted s) (cancelled s)).

(** Cancellable path: the callback is registered before the lock is taken. *)
Definition acquire_register (s : Sem) : nat * Sem :=
  (next s, mkSem (permits s) (capacity s) (closed s) (waiters s) (claimed s) ({[next s]} ∪ pending s) (closing s)
             (S (next s)) (held s) (granted s) (cancelled s)).

(** [w->claimed.exchange(true)] by a party that resumes it with [OperationCancelled]. *)
Definition claim_cancel (w : nat) (s : Sem) : Sem :=
  if bool_decide (w ∈ claimed s) then s
  else mkSem (permits s) (capacity s) (closed s) (waiters s) ({[w]} ∪ claimed s) (pending s) (closing s) (next s)
         (held s) (granted s) ({[w]} ∪ cancelled s).

(** Successful claim by a party that hands a permit to it. *)
Definition claim_grant (w : nat) (s : Sem) : Sem :=
  mkSem (permits s) (capacity s) (closed s) (waiters s) ({[w]} ∪ claimed s) (pending s) (closing s) (next s)
    (held s) (granted s ++ [w]) (cancelled s).

(** The locked section of the cancellable path. *)
Definition acquire_token (w : nat) (pre_cancelled : bool) (s0 : Sem) : acq * Sem :=
  let s := mkSem (permits s0) (capacity s0) (closed s0) (waiters s0) (claimed s0) (pending s0 ∖ {[w]}) (closing s0)
             (next s0) (held s0) (granted s0) (cancelled s0) in
  if closed s || pre_cancelled then
    if bool_decide (w ∈ claimed s) then (AWait, s) else (AFail, claim_cancel w s)
  else if (0 <? permits s)%Z then
    if bool_decide (w ∈ claimed s) then (AWait, s) else (AGot, take_permit (claim_grant w s))
  else (AWait, mkSem (permits s) (capacity s) (closed s) (waiters s ++ [w]) (claimed s) (pending s) (closing s) (next s)
                 (held s) (granted s) (cancelled s)).

(** Pop waiters from the front until one is not claimed yet. *)
Fixpoint pop_unclaimed (cl : gset nat) (q : list nat) : option nat * list nat :=
  match q with
  | [] => (None, [])
  | w :: q' => if bool_decide (w ∈ cl) then pop_unclaimed cl q' else (Some w, q')
  end.

Definition set_waiters (q : list nat) (s : Sem) : Sem :=
  mkSem (permits s) (capacity s) (closed s) q (claimed s) (pending s) (closing s) (next s) (held s) (granted s) (cancelled s).
Definition add_permits (n : Z) (s : Sem) : Sem :=
  mkSem (permits s + n) (capacity s) (closed s) (waiters s) (claimed s) (pending s) (closing s) (next s) (held s)
    (granted s) (cancelled s).
Definition add_held (n : Z) (s : Sem) : Sem :=
  mkSem (permits s) (capacity s) (closed s) (waiters s) (claimed s) (pending s) (closing s) (next s) (held s + n)
    (granted s) (cancelled s).

(** A permit comes back: to the next real waiter, else to the count. *)
Definition release_one (s : Sem) : Sem :=
  match pop_unclaimed (claimed s) (waiters s) with
  | (Some w, q) => claim_grant w (set_waiters q s)
  | (None, q) => add_held (-1) (add_permits 1 (set_waiters q s))
  end.

Definition try_acquire (s : Sem) : bool * Sem :=
  if closed s || (permits s <=? 0)%Z then (false, s) else (true, take_permit s).

(** One iteration of the growth loop of [set_capacity]. *)
Definition grow_one (s : Sem) : Sem :=
  match pop_unclaimed (claimed s) (waiters s) with
  | (Some w, q) => add_held 1 (claim_grant w (set_waiters q s))
  | (None, q) => add_permits 1 (set_waiters q s)
  end.
Definition set_capacity (n : Z) (s0 : Sem) : Sem :=
  let delta := (n - capacity s0)%Z in
  let s := mkSem (permits s0) n (closed s0) (waiters s0) (claimed s0) (pending s0) (closing s0) (next s0) (held s0)
             (granted s0) (cancelled s0) in
  if (delta <=? 0)%Z then add_permits delta s else Nat.iter (Z.to_nat delta) grow_one s.

(** [close]: the locked part, then one [wake_cancelled] per waiter taken. *)
Definition close_begin (s : Sem) : Sem :=
  mkSem (permits s) (capacity s) true [] (claimed s) (pending s) (closing s ++ waiters s) (next s) (held s)
    (granted s) (cancelled s).
Definition close_wake (s : Sem) : Sem :=
  match closing s with
  | [] => s
  | w :: ws => claim_cancel w (mkSem (permits s) (capacity s) (closed s) (waiters s) (claimed s) (pending s) ws (next s)
                 (held s) (granted s) (cancelled s))
  end.

(** The locked part of [cancel_waiter]. *)
Definition cancel_unlink (w : nat) (s : Sem) : Sem := set_waiters (base.filter (λ x, x <> w) (waiters s)) s.

Definition drained (s : Sem) : bool := (capacity s <=? permits s)%Z.

(** * Runs *)
Inductive op :=
| OAcquire | ORegister | OToken (w : nat) (pre : bool) | OTry | ORelease | OCancelClaim (w : nat)
| OCancelUnlink (w : nat) | OClose | OWake | OSetCapacity (n : Z).

Inductive step : Sem -> op -> Sem -> Prop :=
| step_acquire s : step s OAcquire (acquire_plain s).2
| step_register s : step s ORegister (acquire_register s).2
| step_token s w pre : w ∈ pending s -> step s (OToken w pre) (acquire_token w pre s).2
| step_try s : step s OTry (try_acquire s).2
(** a permit exists to be released *)
| step_release s : (0 < held s)%Z -> step s ORelease (release_one s)
(** callbacks exist only for registered waiters *)
| step_cancel_claim s w : w < next s -> step s (OCancelClaim w) (claim_cancel w s)
| step_cancel_unlink s w : w ∈ claimed s -> step s (OCancelUnlink w) (cancel_unlink w s)
| step_close s : step s OClose (close_begin s)
| step_wake s : step s OWake (close_wake s)
| step_set_capacity s n : step s (OSetCapacity n) (set_capacity n s).

Inductive reaches (n : Z) : list op -> Sem -> Prop :=
| reach_init : reaches n [] (sem_init n)
| reach_step tr s o s' : reaches n tr s -> step s o s' -> reaches n (tr ++ [o]) s'.

(** * Invariant *)
Record inv (s : Sem) : Prop := mkInv {
  inv_count : (held s + permits s = capacity s)%Z;
  inv_held : (0 <= held s)%Z;
  inv_wakeup : (0 < permits s)%Z -> waiters s = [];
  inv_granted : NoDup (granted s);
  inv_granted_claimed : forall w, w ∈ granted s -> w ∈ claimed s;
  inv_cancelled_claimed : cancelled s ⊆ claimed s;
  inv_disjoint : forall w, w ∈ granted s -> w ∉ cancelled s }.

Lemma pop_unclaimed_Some cl q w q' :
  pop_unclaimed cl q = (Some w, q') -> exists skipped, q = skipped ++ w :: q' /\ (forall x, x ∈ skipped -> x ∈ cl) /\ w ∉ cl.
Proof.
  induction q as [|x q IH]; cbn; [done|]. case_bool_decide as Hx.
  - intros (sk & -> & H1 & H2)%IH. exists (x :: sk). split; [done|]. split; [|done]. set_solver.
  - intros [= <- <-]. exists []. split; [done|]. split; [set_solver|done].
Qed.
Lemma pop_unclaimed_None cl q q' :
  pop_unclaimed cl q = (None, q') -> q' = [] /\ (forall x, x ∈ q -> x ∈ cl).
Proof.
  induction q as [|x q IH]; cbn; [intros [= <-]; split; [done|set_solver]|]. case_bool_decide as Hx; [|done].
  intros [-> H]%IH. split; [done|]. set_solver.
Qed.

Lemma claim_cancel_inv w s : inv s -> inv (claim_cancel w s).
Proof.
  intros [H1 H2 H3 H4 H5 H6 H7]. unfold claim_cancel. case_bool_decide as Hw; [done|]. split; cbn; try done; set_solver.
Qed.

(** Handing a permit to an unclaimed waiter. *)
Lemma claim_grant_inv w s q :
  inv s -> w ∉ claimed s -> (0 < permits s -> q = [])%Z ->
  inv (claim_grant w (set_waiters q s)).
Proof.
  intros [H1 H2 H3 H4 H5 H6 H7] Hw Hq. split; cbn; try done; try set_solver.
  apply NoDup_app. split; [done|]. split; [set_solver|]. apply NoDup_singleton.
Qed.

Lemma take_permit_inv s : inv s -> (0 < permits s)%Z -> inv (take_permit s).
Proof. intros [H1 H2 H3 H4 H5 H6 H7] Hp. split; cbn; try done; try lia. intros Hp'. apply H3. lia. Qed.

(** A queued waiter exists only while no permit is available. *)
Lemma popped_permits s w q : inv s -> pop_unclaimed (claimed s) (waiters s) = (Some w, q) -> (permits s <= 0)%Z.
Proof.
  intros Hi (sk & Hq & _ & Hw)%pop_unclaimed_Some. destruct (Z.lt_ge_cases 0 (permits s)) as [Hp|]; [|lia].
  exfalso. rewrite (inv_wakeup _ Hi Hp) in Hq. by destruct sk.
Qed.

Lemma release_one_inv s : inv s -> (0 < held s)%Z -> inv (release_one s).
Proof.
  intros Hi Hh. unfold release_one. destruct (pop_unclaimed (claimed s) (waiters s)) as [[w|] q] eqn:E.
  - pose proof (popped_permits _ _ _ Hi E). apply pop_unclaimed_Some in E as (sk & _ & _ & Hw).
    apply claim_grant_inv; [done|done|lia].
  - apply pop_unclaimed_None in E as [-> _]. destruct Hi as [H1 H2 H3 H4 H5 H6 H7].
    split; cbn; done || lia.
Qed.

(** Growing by one, against the capacity reached so far. *)
Definition with_capacity (c : Z) (s : Sem) : Sem :=
  mkSem (permits s) c (closed s) (waiters s) (claimed s) (pending s) (closing s) (next s) (held s) (granted s) (cancelled s).

Lemma grow_one_inv c s : inv (with_capacity c s) -> inv (with_capacity (c + 1) (grow_one s)).
Proof.
  intros Hi. unfold grow_one. destruct (pop_unclaimed (claimed s) (waiters s)) as [[w|] q] eqn:E.
  - pose proof (popped_permits _ _ _ Hi E) as Hp. cbn in Hp. apply pop_unclaimed_Some in E as (sk & _ & _ & Hw).
    pose proof (claim_grant_inv w _ q Hi Hw ltac:(cbn; lia)) as [H1 H2 H3 H4 H5 H6 H7]. cbn in *.
    split; cbn; try done; lia.
  - apply pop_unclaimed_None in E as [-> _]. destruct Hi as [H1 H2 H3 H4 H5 H6 H7]. cbn in *.
    split; cbn; done || lia.
Qed.

Lemma capacity_grow_one s : capacity (grow_one s) = capacity s.
Proof. unfold grow_one. by destruct (pop_unclaimed (claimed s) (waiters s)) as [[w|] q]. Qed.

Lemma grow_iter_inv k c s :
  inv (with_capacity c s) -> inv (with_capacity (c + Z.of_nat k) (Nat.iter k grow_one s)) /\
  capacity (Nat.iter k grow_one s) = capacity s.
Proof.
  intros Hi. induction k as [|k [IH Hc]]; cbn [Nat.iter]; [by rewrite Z.add_0_r|]. split.
  - replace (c + Z.of_nat (S k))%Z with (c + Z.of_nat k + 1)%Z by lia. by apply grow_one_inv.
  - change (capacity (grow_one (Nat.iter k grow_one s)) = capacity s). by rewrite capacity_grow_one.
Qed.

Lemma set_capacity_inv n s : inv s -> inv (set_capacity n s).
Proof.
  intros Hi. unfold set_capacity. destruct (Z.leb_spec (n - capacity s) 0).
  - destruct Hi as [H1 H2 H3 H4 H5 H6 H7]. split; cbn; try done; try lia. intros Hp. apply H3. lia.
  - set (s' := mkSem _ _ _ _ _ _ _ _ _ _ _).
    destruct (grow_iter_inv (Z.to_nat (n - capacity s)) (capacity s) s') as [Hk Hc].
    { by destruct s. }
    rewrite Z2Nat.id in Hk by lia. replace (capacity s + (n - capacity s))%Z with (capacity s') in Hk by (cbn; lia).
    rewrite <- Hc in Hk. by destruct (Nat.iter _ _ _).
Qed.

Lemma acquire_token_inv w pre s : inv s -> inv (acquire_token w pre s).2.
Proof.
  intros Hi. unfold acquire_token. set (s' := mkSem _ _ _ _ _ _ _ _ _ _ _).
  assert (inv s') as Hi' by (by destruct Hi). clearbody s'. case_if.
  - case_bool_decide; [done|]. by apply claim_cancel_inv.
  - destruct (Z.ltb_spec 0 (permits s')) as [Hp|Hp].
    + case_bool_decide as Hw; [done|]. apply take_permit_inv; [|done].
      pose proof (claim_grant_inv w s' (waiters s') Hi' Hw (inv_wakeup _ Hi')) as Hg. by destruct s'.
    + destruct Hi' as [H1 H2 H3 H4 H5 H6 H7]. split; cbn; try done. lia.
Qed.

Lemma step_inv s o s' : step s o s' -> inv s -> inv s'.
Proof.
  destruct 1 as [s|s|s w pre Hw|s|s Hh|s w Hw|s w Hw|s|s|s n]; intros Hi.
  - unfold acquire_plain. case_if; [done|]. destruct (Z.ltb_spec 0 (permits s)); [by apply take_permit_inv|].
    destruct Hi as [H1 H2 H3 H4 H5 H6 H7]. split; cbn; try done. lia.
  - by destruct Hi.
  - by apply acquire_token_inv.
  - unfold try_acquire. case_if; [done|]. apply take_permit_inv; [done|]. bool_prop. lia.
  - by apply release_one_inv.
  - by apply claim_cancel_inv.
  - destruct Hi as [H1 H2 H3 H4 H5 H6 H7]. split; cbn; try done. intros Hp. by rewrite H3.
  - destruct Hi as [H1 H2 H3 H4 H5 H6 H7]. split; cbn; done.
  - unfold close_wake. destruct (closing s) as [|w ws]; [done|]. apply claim_cancel_inv. by destruct Hi.
  - by apply set_capacity_inv.
Qed.

Lemma reaches_inv n tr s : (0 <= n)%Z -> reaches n tr s -> inv s.
Proof.
  intros Hn. induction 1 as [|tr s o s' Hr IH Hs]; [|by eapply step_inv].
  split; cbn; try done; try lia; try set_solver. constructor.
Qed.

(** A run with one permit: two requests, the second queued, then one release. *)
Definition demo_waiting : Sem := (acquire_plain (acquire_plain (sem_init 1)).2).2.
Lemma demo_reaches : reaches 1 [OAcquire; OAcquire; ORelease] (release_one demo_waiting).
Proof.
  change [OAcquire; OAcquire; ORelease] with ((([] ++ [OAcquire]) ++ [OAcquire]) ++ [ORelease]).
  eapply reach_step; [eapply reach_step; [eapply reach_step; [apply reach_init|apply step_acquire]|apply step_acquire]|].
  apply step_release. vm_compute. reflexivity.
Qed.

Definition no_resize (o : op) : bool := match o with OSetCapacity _ => false | _ => true end.

Lemma release_permits s : (permits s <= permits (release_one s))%Z /\ capacity (release_one s) = capacity s.
Proof. unfold release_one. destruct (pop_unclaimed (claimed s) (waiters s)) as [[w|] q]; cbn; split; done || lia. Qed.
Lemma claim_cancel_permits w s : permits (claim_cancel w s) = permits s /\ capacity (claim_cancel w s) = capacity s.
Proof. unfold claim_cancel. by case_bool_decide. Qed.

Lemma step_permits s o s' : step s o s' -> no_resize o = true -> (0 <= permits s)%Z ->
  (0 <= permits s')%Z /\ capacity s' = capacity s.
Proof.
  destruct 1 as [s|s|s w pre Hw|s|s Hh|s w Hw|s w Hw|s|s|s n]; intros Hno Hp; try done.
  - unfold acquire_plain. case_if; [done|]. destruct (Z.ltb_spec 0 (permits s)); cbn; split; done || lia.
  - unfold acquire_token. cbn [closed permits claimed]. case_if.
    + case_bool_decide; [done|]. cbn [snd]. match goal with |- context [claim_cancel w ?x] =>
        destruct (claim_cancel_permits w x) as [-> ->] end. done.
    + destruct (Z.ltb_spec 0 (permits s)); [|done]. case_bool_decide; [done|]. cbn. split; [lia|done].
  - unfold try_acquire. case_if; [done|]. bool_prop. cbn. split; [lia|done].
  - pose proof (release_permits s). lia.
  - pose proof (claim_cancel_permits w s). lia.
  - unfold close_wake. destruct (closing s) as [|w ws]; [done|].
    match goal with |- context [claim_cancel w ?x] => destruct (claim_cancel_permits w x) as [-> ->] end. done.
Qed.

(** * Theorems *)

(** Conservation of permits: at every moment the permits handed out and the permits
    available add up to the capacity, so the drain condition [permits >= capacity]
    holds exactly when no permit is outstanding. *)
Theorem semaphore_conservation (n : Z) (tr : list op) (s : Sem) (Hn : (0 <= n)%Z) (Hr : reaches n tr s) :
  (held s + permits s = capacity s /\ 0 <= held s)%Z /\ (drained s = true <-> held s = 0%Z).
Proof.
  pose proof (reaches_inv _ _ _ Hn Hr) as [H1 H2 _ _ _ _ _]. split; [done|]. unfold drained. rewrite Z.leb_le. lia.
Qed.

Lemma semaphore_conservation_witness :
  (held (release_one demo_waiting) + permits (release_one demo_waiting) = capacity (release_one demo_waiting))%Z.
Proof. apply (semaphore_conservation 1 [OAcquire; OAcquire; ORelease]); [lia|apply demo_reaches]. Defined.

(** The limit holds: as long as the capacity is not resized, at most [n] permits are
    ever out at the same time. *)
Theorem semaphore_limit (n : Z) (tr : list op) (s : Sem) (Hn : (0 <= n)%Z) (Hr : reaches n tr s)
    (Hno : forallb no_resize tr = true) : (held s <= n)%Z.
Proof.
  pose proof (reaches_inv _ _ _ Hn Hr) as [H1 _ _ _ _ _ _].
  cut ((0 <= permits s)%Z /\ capacity s = n); [lia|]. clear H1.
  induction Hr as [|tr s o s' Hr IH Hs]; [done|]. rewrite forallb_app in Hno. cbn in Hno.
  apply andb_true_iff in Hno as [Hno Ho]. rewrite andb_true_r in Ho. destruct (IH Hno) as [Hp Hc].
  destruct (step_permits _ _ _ Hs Ho Hp) as [? Hc']. split; [done|]. by rewrite Hc'.
Qed.
Lemma semaphore_limit_witness : (held (release_one demo_waiting) <= 1)%Z.
Proof. apply (semaphore_limit 1 [OAcquire; OAcquire; ORelease]); [lia|apply demo_reaches|reflexivity]. Defined.

(** C33: No lost wake-up: whenever a permit is available the wait queue is empty, so no
    request sleeps beside a free permit, under any interleaving of releases, resizes,
    cancellations and acquires. *)
Theorem semaphore_no_lost_wakeup (n : Z) (tr : list op) (s : Sem) (Hn : (0 <= n)%Z) (Hr : reaches n tr s)
    (Hp : (0 < permits s)%Z) : waiters s = [].
Proof. by apply (inv_wakeup _ (reaches_inv _ _ _ Hn Hr)). Qed.
Lemma semaphore_no_lost_wakeup_witness : waiters (release_one (release_one demo_waiting)) = [].
Proof.
  apply (semaphore_no_lost_wakeup 1 ([OAcquire; OAcquire; ORelease] ++ [ORelease])).
  - lia.
  - eapply reach_step; [apply demo_reaches|]. apply step_release. vm_compute. reflexivity.
  - vm_compute. reflexivity.
Defined.

(** A waiter is resumed at most once: no waiter receives two permits, and none
    receives a permit and a cancellation, however release, close, resize and cancel race. *)
Theorem semaphore_resume_once (n : Z) (tr : list op) (s : Sem) (Hn : (0 <= n)%Z) (Hr : reaches n tr s) :
  NoDup (granted s) /\ (forall w, w ∈ granted s -> w ∉ cancelled s).
Proof. pose proof (reaches_inv _ _ _ Hn Hr) as [_ _ _ H4 _ _ H7]. done. Qed.

Lemma semaphore_resume_once_witness : NoDup (granted (release_one demo_waiting)).
Proof. apply (semaphore_resume_once 1 [OAcquire; OAcquire; ORelease]); [lia|apply demo_reaches]. Defined.

(** FIFO: when a released permit goes to a waiter, everyone queued ahead of it had
    already been claimed. *)
Theorem semaphore_fifo (s : Sem) (w : nat) (ahead behind : list nat)
    (Hq : waiters s = ahead ++ w :: behind) (Hnd : NoDup (waiters s))
    (Hg : granted (release_one s) = granted s ++ [w]) : forall x, x ∈ ahead -> x ∈ claimed s.
Proof.
  unfold release_one in Hg. destruct (pop_unclaimed (claimed s) (waiters s)) as [[v|] r] eqn:E; cbn in Hg.
  - apply app_inj_2 in Hg as [_ [= ->]]; [|done]. apply pop_unclaimed_Some in E as (sk & E & Hsk & Hw).
    assert (ahead = sk) as ->; [|done]. rewrite Hq in E, Hnd. revert Hnd E. clear. revert sk.
    induction ahead as [|a ahead IH]; intros [|b sk] Hnd E; cbn in *; [done| | |].
    + injection E as -> E. apply list.NoDup_cons in Hnd as [Hx _]. exfalso. apply Hx. rewrite E. set_solver.
    + injection E as -> E. apply list.NoDup_cons in Hnd as [Hx _]. exfalso. apply Hx. set_solver.
    + injection E as -> E. f_equal. apply IH; [|done]. by apply list.NoDup_cons in Hnd as [_ ?].
  - exfalso. apply (f_equal length) in Hg. rewrite length_app in Hg. cbn in Hg. lia.
Qed.

Lemma semaphore_fifo_witness : forall x, x ∈ [0] -> x ∈ claimed (claim_cancel 0 (acquire_plain demo_waiting).2).
Proof.
  apply (semaphore_fifo (claim_cancel 0 (acquire_plain demo_waiting).2) 1 [0] []).
  - vm_compute. reflexivity.
  - change (NoDup [0; 1]). repeat constructor; set_solver.
  - vm_compute. reflexivity.
Defined.

(** Shrinking does not drain while requests queue: with more permits out than the
    capacity allows and an unclaimed waiter queued, a release admits that waiter and
    leaves the number of permits out unchanged. *)
Theorem semaphore_shrink_keeps_overload (s : Sem) (w : nat) (Hover : (capacity s < held s)%Z)
    (Hw : w ∈ waiters s) (Hc : w ∉ claimed s) :
  held (release_one s) = held s /\ length (granted (release_one s)) = S (length (granted s)).
Proof.
  unfold release_one. destruct (pop_unclaimed (claimed s) (waiters s)) as [[v|] r] eqn:E.
  - cbn. rewrite length_app. cbn. split; [done|lia].
  - apply pop_unclaimed_None in E as [_ H]. set_solver.
Qed.
Lemma semaphore_shrink_keeps_overload_witness :
  held (release_one (set_capacity 0 demo_waiting)) = held (set_capacity 0 demo_waiting).
Proof.
  apply (semaphore_shrink_keeps_overload (set_capacity 0 demo_waiting) 0).
  - vm_compute. reflexivity.
  - change (0 ∈ [0]). set_solver.
  - change (0 ∉ (∅ : gset nat)). set_solver.
Defined.
