(* ===== verification/MetaCache.v ===== *)
(** The sharded object-metadata cache ([src/src/storage/meta_cache.h]) and its
    consistency protocol: a fill carries the generation of its shard taken at the miss,
    every write invalidates after its commit point.

    A region under a shard's mutex is one atomic step. [std::hash] and the clock are
    parameters; generations are unbounded here (the source's 64-bit counter would have to
    wrap around between a miss and its fill to differ). Metric counters are left out,
    the statistics of a shard are kept. *)

From S2P Require Import Prelude Bytes.
From Stdlib Require Import ZArith Lia.
From stdpp Require Import base list gmap sets strings relations.

Section cache.
Context {V : Type}.

(** * State *)
Record MetaCacheOptions := mkOptions { max_entries : Z; ttl : Z; opt_shards : Z }.

Record Node := mkNode { value : V; node_expires : Z }.
Record Shard := mkShard {
  smap : gmap bytes Node; slru : list bytes; gen : Z;
  hits : Z; misses : Z; invalidations : Z; stale : Z; fills_dropped : Z }.
Record Token := mkToken { tok_shard : nat; tok_gen : Z }.
Record Cache := mkCache { copt : MetaCacheOptions; per_shard : Z; shards : list Shard; entries : Z }.

Definition empty_shard : Shard := mkShard ∅ [] 0 0 0 0 0 0.

(** The constructor. *)
Definition make_cache (o : MetaCacheOptions) : Cache :=
  let n0 := if (opt_shards o =? 0)%Z then 1%Z else opt_shards o in
  let n := if (0 <? max_entries o)%Z && (max_entries o <? n0)%Z then max_entries o else n0 in
  let per := (max_entries o / n)%Z in
  mkCache (mkOptions (max_entries o) (ttl o) n)
    (if (0 <? max_entries o)%Z && (per =? 0)%Z then 1%Z else per)
    (replicate (Z.to_nat n) empty_shard) 0.

Definition enabled (c : Cache) : bool := (0 <? max_entries (copt c))%Z.

Definition ckey (bucket key : bytes) : bytes := bucket ++ [Byte.x00] ++ key.

Context (hash : bytes -> nat).
Definition shard_of (c : Cache) (k : bytes) : nat := hash k mod length (shards c).

Definition expired (o : MetaCacheOptions) (now : Z) (n : Node) : bool :=
  (0 <? ttl o)%Z && (node_expires n <=? now)%Z.

(** * Operations on a locked shard *)

(** [s.lru.erase(it->second.lru)]: a key is in the list once. *)
Definition lru_remove (k : bytes) (l : list bytes) : list bytes := base.filter (λ x, x <> k) l.

Definition erase_locked (k : bytes) (s : Shard) : Shard :=
  mkShard (delete k (smap s)) (lru_remove k (slru s)) (gen s) (hits s) (misses s) (invalidations s) (stale s)
    (fills_dropped s).

Definition count_miss (s : Shard) : Shard :=
  mkShard (smap s) (slru s) (gen s) (hits s) (misses s + 1) (invalidations s) (stale s) (fills_dropped s).

(** The body of [lookup]: the value on a hit; else the shard after the drop, whose
    generation goes into the token. *)
Definition lookup_shard (o : MetaCacheOptions) (now : Z) (valid : option (V -> bool)) (k : bytes) (s : Shard)
    : option V * Shard :=
  match smap s !! k with
  | Some n =>
      if negb (expired o now n) then
        if match valid with None => true | Some p => p (value n) end then
          (Some (value n),
           mkShard (smap s) (k :: lru_remove k (slru s)) (gen s) (hits s + 1) (misses s) (invalidations s) (stale s)
             (fills_dropped s))
        else
          let s1 := mkShard (smap s) (slru s) (gen s + 1) (hits s) (misses s) (invalidations s) (stale s + 1)
                      (fills_dropped s) in
          (None, count_miss (erase_locked k s1))
      else (None, count_miss (erase_locked k s))
  | None => (None, count_miss s)
  end.

(** [while (s.map.size() >= per_shard_ && !s.lru.empty()) erase(s.lru.back())]; each
    round drops the back of the list. *)
Fixpoint evict_back (per : Z) (fuel : nat) (s : Shard) : Shard :=
  match fuel with
  | O => s
  | S f =>
      if (per <=? Z.of_nat (size (smap s)))%Z then
        match list.last (slru s) with Some k => evict_back per f (erase_locked k s) | None => s end
      else s
  end.

Definition insert_shard (o : MetaCacheOptions) (per : Z) (now : Z) (gen_tok : Z) (k : bytes) (v : V) (s : Shard) : Shard :=
  if negb (gen_tok =? gen s)%Z then
    mkShard (smap s) (slru s) (gen s) (hits s) (misses s) (invalidations s) (stale s) (fills_dropped s + 1)
  else
    let s1 := if bool_decide (is_Some (smap s !! k)) then erase_locked k s else s in
    let s2 := evict_back per (S (length (slru s1))) s1 in
    mkShard (<[k := mkNode v (if (0 <? ttl o)%Z then now + ttl o else 2 ^ 63 - 1)]> (smap s2)) (k :: slru s2) (gen s2) (hits s2)
      (misses s2) (invalidations s2) (stale s2) (fills_dropped s2).

Definition invalidate_shard (k : bytes) (s : Shard) : Shard :=
  let s1 := mkShard (smap s) (slru s) (gen s + 1) (hits s) (misses s) (invalidations s + 1) (stale s) (fills_dropped s) in
  if bool_decide (is_Some (smap s !! k)) then erase_locked k s1 else s1.

Definition clear_shard (s : Shard) : Shard :=
  mkShard ∅ [] (gen s + 1) (hits s) (misses s) (invalidations s + Z.of_nat (size (smap s))) (stale s) (fills_dropped s).

(** * Operations of the cache *)

(** Run [f] on shard [i]; [entries_] follows the size of its map. *)
Definition on_shard (i : nat) (f : Shard -> Shard) (c : Cache) : Cache :=
  match shards c !! i with
  | Some s => mkCache (copt c) (per_shard c) (<[i := f s]> (shards c))
                (entries c + Z.of_nat (size (smap (f s))) - Z.of_nat (size (smap s)))
  | None => c
  end.

Definition lookup_value (c : Cache) (now : Z) (valid : option (V -> bool)) (k : bytes) : option V :=
  if enabled c then
    match shards c !! shard_of c k with Some s => (lookup_shard (copt c) now valid k s).1 | None => None end
  else None.
Definition lookup_state (now : Z) (valid : option (V -> bool)) (k : bytes) (c : Cache) : Cache :=
  if enabled c then on_shard (shard_of c k) (λ s, (lookup_shard (copt c) now valid k s).2) c else c.

Definition token_for (c : Cache) (k : bytes) : Token :=
  if enabled c then
    match shards c !! shard_of c k with Some s => mkToken (shard_of c k) (gen s) | None => mkToken 0 0 end
  else mkToken 0 0.

Definition insert (tok : Token) (now : Z) (k : bytes) (v : V) (c : Cache) : Cache :=
  if negb (enabled c) then c
  else if (tok_shard tok =? shard_of c k)%nat
  then on_shard (shard_of c k) (insert_shard (copt c) (per_shard c) now (tok_gen tok) k v) c
  else on_shard (shard_of c k) (λ s, mkShard (smap s) (slru s) (gen s) (hits s) (misses s) (invalidations s)
                                       (stale s) (fills_dropped s + 1)) c.

Definition invalidate (k : bytes) (c : Cache) : Cache :=
  if enabled c then on_shard (shard_of c k) (invalidate_shard k) c else c.

(** One iteration of [clear]'s loop. *)
Definition clear_one (i : nat) (c : Cache) : Cache := if enabled c then on_shard i clear_shard c else c.
Definition clear (c : Cache) : Cache := fold_left (λ c i, clear_one i c) (seq 0 (length (shards c))) c.

(** * Well-formedness *)
Record shard_wf (per : Z) (s : Shard) : Prop := mkShardWf {
  sw_nodup : NoDup (slru s);
  sw_dom : forall k, k ∈ slru s <-> is_Some (smap s !! k);
  sw_size : (Z.of_nat (size (smap s)) <= per)%Z }.

Definition total_size (l : list Shard) : Z := foldr (λ s n, Z.of_nat (size (smap s)) + n)%Z 0%Z l.
Record cache_wf (c : Cache) : Prop := mkCacheWf {
  cw_shards : Forall (shard_wf (per_shard c)) (shards c);
  cw_nonempty : shards c <> [];
  cw_entries : entries c = total_size (shards c) }.

Lemma lru_remove_elem k x l : x ∈ lru_remove k l <-> x <> k /\ x ∈ l.
Proof. unfold lru_remove. by rewrite list_elem_of_filter. Qed.

(** Consistency of the list with the map, without the size bound. *)
Definition linked (s : Shard) : Prop := NoDup (slru s) /\ forall k, k ∈ slru s <-> is_Some (smap s !! k).

Lemma erase_linked k s : linked s -> linked (erase_locked k s).
Proof.
  intros [H1 H2]. split; cbn; [by apply NoDup_filter|]. intros x. rewrite lru_remove_elem, H2.
  destruct (decide (x = k)) as [->|]; [rewrite lookup_delete_eq; split; [naive_solver|by intros [? ?]]|].
  rewrite lookup_delete_ne by done. naive_solver.
Qed.

Lemma erase_size k s : (Z.of_nat (size (smap (erase_locked k s))) <= Z.of_nat (size (smap s)))%Z.
Proof. cbn. rewrite map_size_delete. destruct (smap s !! k); cbn; lia. Qed.

Lemma linked_length s : linked s -> length (slru s) = size (smap s).
Proof.
  intros [H1 H2]. rewrite <- (size_dom (D := gset bytes)).
  rewrite <- (size_list_to_set (C := gset bytes)) by done. f_equal. apply set_eq. intros k.
  rewrite elem_of_list_to_set, H2, elem_of_dom. done.
Qed.

Lemma evict_back_spec per f : forall s, linked s -> length (slru s) < f -> (0 < per)%Z ->
  linked (evict_back per f s) /\ (Z.of_nat (size (smap (evict_back per f s))) < per)%Z /\
  smap (evict_back per f s) ⊆ smap s /\ gen (evict_back per f s) = gen s.
Proof.
  induction f as [|f IH]; intros s Hl Hf Hp; [lia|]. cbn [evict_back].
  destruct (Z.leb_spec per (Z.of_nat (size (smap s)))); [|done].
  pose proof (linked_length s Hl) as Hlen. destruct (list.last (slru s)) as [k|] eqn:Ek.
  - assert (k ∈ slru s) as Hk by (apply last_Some in Ek as [l' ->]; set_solver).
    assert (length (lru_remove k (slru s)) < length (slru s)) as Hlt
      by (eapply length_filter_lt; [exact Hk|by intros ?]).
    destruct (IH (erase_locked k s)) as (H1 & H2 & H3 & H4); [by apply erase_linked|cbn; lia|done|].
    split_and!; try done. etrans; [exact H3|]. apply delete_subseteq.
  - apply last_None in Ek. rewrite Ek in Hlen. cbn in Hlen. lia.
Qed.

(** ** Every operation keeps a shard well-formed *)
Lemma linked_wf per s : linked s -> (Z.of_nat (size (smap s)) <= per)%Z -> shard_wf per s.
Proof. intros [H1 H2] H3. by split. Qed.
Lemma wf_linked per s : shard_wf per s -> linked s.
Proof. intros [H1 H2 _]. by split. Qed.

Lemma lookup_shard_wf o per now valid k s : shard_wf per s -> shard_wf per (lookup_shard o now valid k s).2.
Proof.
  intros Hs. pose proof Hs as [H1 H2 H3]. pose proof (wf_linked _ _ Hs) as Hl.
  unfold lookup_shard. destruct (smap s !! k) as [n|] eqn:Ek; [|by split].
  pose proof (erase_linked k s Hl) as [E1 E2]. pose proof (erase_size k s) as E3. cbn in E1, E2, E3.
  case_if; [case_if|]; split; cbn; try done; try lia.
  - constructor; [rewrite lru_remove_elem; naive_solver|by apply NoDup_filter].
  - intros x. rewrite elem_of_cons, lru_remove_elem, H2. destruct (decide (x = k)) as [->|]; naive_solver.
Qed.

Lemma insert_shard_wf o per now g k v s : (0 < per)%Z -> shard_wf per s -> shard_wf per (insert_shard o per now g k v s).
Proof.
  intros Hp Hs. pose proof (wf_linked _ _ Hs) as Hl. unfold insert_shard. case_if; [by destruct Hs|].
  set (s1 := if bool_decide (is_Some (smap s !! k)) then erase_locked k s else s).
  assert (linked s1 /\ smap s1 !! k = None) as [Hl1 Hk].
  { unfold s1. case_bool_decide as Hd; [split; [by apply erase_linked|cbn; apply lookup_delete_eq]|].
    split; [done|]. by apply eq_None_not_Some. }
  clearbody s1. destruct (evict_back_spec per (S (length (slru s1))) s1 Hl1) as ([L1 L2] & L3 & L4 & _); [lia|done|].
  set (s2 := evict_back _ _ s1) in *. clearbody s2.
  assert (smap s2 !! k = None) as Hk2.
  { destruct (smap s2 !! k) eqn:E; [|done]. eapply lookup_weaken in E; [|exact L4]. congruence. }
  split; cbn.
  - constructor; [|done]. rewrite L2, Hk2. by intros [? ?].
  - intros x. rewrite elem_of_cons, L2. destruct (decide (x = k)) as [->|].
    + rewrite lookup_insert_eq. naive_solver.
    + rewrite lookup_insert_ne by done. naive_solver.
  - rewrite map_size_insert_None by done. lia.
Qed.

Lemma invalidate_shard_wf per k s : shard_wf per s -> shard_wf per (invalidate_shard k s).
Proof.
  intros Hs. pose proof (erase_linked k s (wf_linked _ _ Hs)) as [E1 E2]. pose proof (erase_size k s) as E3.
  pose proof Hs as [H1 H2 H3]. unfold invalidate_shard. case_bool_decide; split; cbn in *; try done. lia.
Qed.

Lemma clear_shard_wf per s : (0 < per)%Z -> shard_wf per (clear_shard s).
Proof.
  intros Hp. split; cbn; [constructor| |rewrite map_size_empty; lia].
  intros k. rewrite lookup_empty. split; [set_solver|by intros [? ?]].
Qed.

Lemma total_size_insert l : forall i s s', l !! i = Some s ->
  total_size (<[i := s']> l) = (total_size l + Z.of_nat (size (smap s')) - Z.of_nat (size (smap s)))%Z.
Proof.
  induction l as [|x l IH]; intros [|i] s s' H; try done.
  - injection H as ->. cbn. lia.
  - change (<[S i := s']> (x :: l)) with (x :: <[i := s']> l). cbn [total_size foldr].
    change (foldr _ 0%Z ?l) with (total_size l). rewrite (IH i s s') by done. lia.
Qed.

Lemma on_shard_wf i f c :
  cache_wf c -> (forall s, shard_wf (per_shard c) s -> shard_wf (per_shard c) (f s)) -> cache_wf (on_shard i f c).
Proof.
  intros [H1 H2 H3] Hf. unfold on_shard. destruct (shards c !! i) as [s|] eqn:E; [|done]. split; cbn.
  - apply list.Forall_insert; [done|]. apply Hf. by eapply list.Forall_lookup_1.
  - intros Hn. apply H2. apply (f_equal length) in Hn. rewrite length_insert in Hn. by destruct (shards c).
  - rewrite (total_size_insert _ _ s) by done. lia.
Qed.

Definition sized (c : Cache) : Prop := if enabled c then (0 < per_shard c)%Z else per_shard c = 0%Z.

Lemma make_cache_wf o : (0 <= max_entries o)%Z -> (0 <= opt_shards o)%Z ->
  cache_wf (make_cache o) /\ sized (make_cache o).
Proof.
  intros Hm Ho. unfold make_cache.
  set (n0 := if (opt_shards o =? 0)%Z then 1%Z else opt_shards o). assert (1 <= n0)%Z by (unfold n0; case_if; lia).
  set (n := if (0 <? max_entries o)%Z && (max_entries o <? n0)%Z then max_entries o else n0).
  assert (1 <= n)%Z as Hn by (unfold n; case_if; bool_prop; lia). clearbody n.
  assert (0 <= max_entries o / n)%Z by (apply Z.div_pos; lia). split.
  - split; cbn.
    + apply list.Forall_replicate. apply linked_wf; [|cbn; rewrite map_size_empty; case_if; lia].
      split; [constructor|]. intros k. cbn. rewrite lookup_empty. split; [set_solver|by intros [? ?]].
    + destruct (Z.to_nat n) eqn:E; [lia|done].
    + generalize (Z.to_nat n) as m. induction m as [|m IH]; [done|]. cbn. rewrite map_size_empty. lia.
  - unfold sized, enabled. cbn. destruct (Z.ltb_spec 0 (max_entries o)); cbn.
    + destruct (Z.eqb_spec (max_entries o / n) 0); lia.
    + replace (max_entries o) with 0%Z by lia. by apply Z.div_0_l; lia.
Qed.
End cache.

Arguments Cache : clear implicits.
Arguments Shard : clear implicits.

(** * The cache beside its source of truth *)
Section protocol.
Context {V : Type} (hash : bytes -> nat).

(** Readers that missed hold a token; having read the truth they hold a fill. Writers
    that committed have an invalidation to run. [sys_lookup] hands out a token on a hit
    too, and tokens and fills may be used again and again: the theorems hold for these
    interleavings as well. *)
Record Sys := mkSys {
  cache : Cache V; truth : gmap bytes V;
  readers : list (bytes * Token); fills : list (bytes * Token * V); pend : list bytes }.

Inductive sys_step : Sys -> Sys -> Prop :=
| sys_lookup s now valid k :
    sys_step s (mkSys (lookup_state hash now valid k (cache s)) (truth s)
      ((k, token_for hash (lookup_state hash now valid k (cache s)) k) :: readers s) (fills s) (pend s))
| sys_token s k :
    sys_step s (mkSys (cache s) (truth s) ((k, token_for hash (cache s) k) :: readers s) (fills s) (pend s))
| sys_load s k tok v :
    (k, tok) ∈ readers s -> truth s !! k = Some v ->
    sys_step s (mkSys (cache s) (truth s) (readers s) ((k, tok, v) :: fills s) (pend s))
| sys_fill s k tok v now :
    (k, tok, v) ∈ fills s ->
    sys_step s (mkSys (insert hash tok now k v (cache s)) (truth s) (readers s) (fills s) (pend s))
| sys_commit s k v :
    sys_step s (mkSys (cache s) (partial_alter (λ _, v) k (truth s)) (readers s) (fills s) (k :: pend s))
| sys_invalidate s k l1 l2 :
    pend s = l1 ++ k :: l2 ->
    sys_step s (mkSys (invalidate hash k (cache s)) (truth s) (readers s) (fills s) (l1 ++ l2))
| sys_clear s i :
    sys_step s (mkSys (clear_one i (cache s)) (truth s) (readers s) (fills s) (pend s)).

Definition sys_init (o : MetaCacheOptions) (t : gmap bytes V) : Sys := mkSys (make_cache o) t [] [] [].
Definition sys_reachable (o : MetaCacheOptions) (t : gmap bytes V) : Sys -> Prop := rtc sys_step (sys_init o t).

(** A record is current, or its writer has yet to invalidate it. *)
Definition current (s : Sys) (k : bytes) (v : V) : Prop := truth s !! k = Some v \/ k ∈ pend s.

(** The shard a key maps to. *)
Definition kshard (c : Cache V) (k : bytes) : option (Shard V) := shards c !! shard_of hash c k.

Record sys_inv (s : Sys) : Prop := mkSysInv {
  si_wf : cache_wf (cache s); si_sized : sized (cache s);
  si_cached : forall k sh n, kshard (cache s) k = Some sh -> smap sh !! k = Some n -> current s k (value n);
  si_readers : forall k tok sh, (k, tok) ∈ readers s -> kshard (cache s) k = Some sh -> enabled (cache s) = true ->
    (tok_gen tok <= gen sh)%Z;
  si_fills : forall k tok v sh, (k, tok, v) ∈ fills s -> kshard (cache s) k = Some sh -> enabled (cache s) = true ->
    (tok_gen tok <= gen sh)%Z /\ (tok_gen tok = gen sh -> current s k v) }.

(** What an operation may do to the shards: keys only disappear or are kept, apart from
    the one inserted; generations never go down. *)
Definition on_key (c : Cache V) (f : Shard V -> Shard V) (i : nat) (k : bytes) (sh' : Shard V) : Prop :=
  exists sh, kshard c k = Some sh /\ sh' = if decide (shard_of hash c k = i) then f sh else sh.

Lemma on_shard_kshard i f c k sh' : kshard (on_shard i f c) k = Some sh' -> on_key c f i k sh'.
Proof.
  unfold kshard, on_key, on_shard. destruct (shards c !! i) as [s|] eqn:E; cbn.
  - unfold shard_of at 1. cbn [shards]. rewrite length_insert. fold (shard_of hash c k).
    destruct (decide (shard_of hash c k = i)) as [Hi|Hne].
    + rewrite Hi, list_lookup_insert_eq by (by eapply lookup_lt_Some). intros [= <-]. exists s.
      split; [by rewrite <- E, <- Hi|done].
    + rewrite list_lookup_insert_ne by done. intros H. exists sh'. split; [exact H|done].
  - intros H. exists sh'. split; [done|]. case_decide as Hd; [|done]. unfold kshard, shard_of in *. congruence.
Qed.

Lemma on_shard_opts i f (c : Cache V) :
  copt (on_shard i f c) = copt c /\ per_shard (on_shard i f c) = per_shard c /\ enabled (on_shard i f c) = enabled c.
Proof. unfold on_shard, enabled. by destruct (shards c !! i). Qed.

(** A shard operation that only drops entries and never lowers the generation. *)
Definition shrinks (f : Shard V -> Shard V) : Prop :=
  forall s, smap (f s) ⊆ smap s /\ (gen s <= gen (f s))%Z.

Lemma lookup_shrinks o now valid k : shrinks (λ s : Shard V, (lookup_shard o now valid k s).2).
Proof.
  intros s. unfold lookup_shard. destruct (smap s !! k); [|done].
  case_if; [case_if; [done|]|]; cbn; split; try apply delete_subseteq; lia.
Qed.
Lemma invalidate_shrinks k : shrinks (@invalidate_shard V k).
Proof. intros s. unfold invalidate_shard. case_bool_decide; cbn; split; try apply delete_subseteq; done || lia. Qed.
Lemma clear_shrinks : shrinks (@clear_shard V).
Proof. intros s. cbn. split; [apply map_empty_subseteq|lia]. Qed.

(** Shrinking one shard keeps the invariant, the pending set and the truth being equal. *)
Lemma shrink_inv s i f :
  sys_inv s -> (forall sh, shard_wf (per_shard (cache s)) sh -> shard_wf (per_shard (cache s)) (f sh)) -> shrinks f ->
  sys_inv (mkSys (on_shard i f (cache s)) (truth s) (readers s) (fills s) (pend s)).
Proof.
  intros [H1 H2 H3 H4 H5] Hwf Hf. destruct (on_shard_opts i f (cache s)) as (E1 & E2 & E3). split; cbn.
  - by apply on_shard_wf.
  - unfold sized. rewrite E3, E2. done.
  - intros k sh n (sh0 & Hsh & ->)%on_shard_kshard Hn. apply (H3 k sh0 n Hsh). case_decide; [|done].
    by eapply lookup_weaken; [|apply Hf].
  - intros k tok sh Hin (sh0 & Hsh & ->)%on_shard_kshard He. rewrite E3 in He. specialize (H4 _ _ _ Hin Hsh He).
    case_decide; [|done]. etrans; [exact H4|]. apply Hf.
  - intros k tok v sh Hin (sh0 & Hsh & ->)%on_shard_kshard He. rewrite E3 in He. specialize (H5 _ _ _ _ Hin Hsh He) as [H5 H6].
    case_decide; [|done]. destruct (Hf sh0) as [_ Hg]. split; [lia|]. intros Ht. apply H6. lia.
Qed.

Lemma disabled_empty c k sh : cache_wf c -> sized c -> enabled c = false -> kshard c k = Some sh -> smap sh = ∅.
Proof.
  intros [H1 _ _] Hs He Hk. unfold sized in Hs. rewrite He in Hs.
  eapply list.Forall_lookup_1 in H1; [|exact Hk]. destruct H1 as [_ _ Hz]. apply map_size_empty_inv. lia.
Qed.

(** The entry an insert adds, and what it keeps. *)
Lemma insert_shard_map o per now g k v (s : Shard V) :
  (0 < per)%Z -> linked s ->
  gen (insert_shard o per now g k v s) = gen s /\
  forall k' n, smap (insert_shard o per now g k v s) !! k' = Some n ->
    smap s !! k' = Some n \/ (k' = k /\ value n = v /\ g = gen s).
Proof.
  intros Hp Hl. unfold insert_shard. destruct (Z.eqb_spec g (gen s)) as [Hg|]; cbn [negb]; [|by split; auto].
  set (s1 := if bool_decide (is_Some (smap s !! k)) then erase_locked k s else s).
  assert (linked s1 /\ smap s1 ⊆ smap s /\ gen s1 = gen s) as (Hl1 & Hs1 & Hg1).
  { unfold s1. case_bool_decide; [|done]. split; [by apply erase_linked|]. split; [apply delete_subseteq|done]. }
  clearbody s1. destruct (evict_back_spec hash per (S (length (slru s1))) s1 Hl1) as (_ & _ & L4 & L5); [lia|done|].
  set (s2 := evict_back _ _ s1) in *. clearbody s2. cbn. split; [congruence|]. intros k' n. destruct (decide (k' = k)) as [->|].
  - rewrite lookup_insert_eq. intros [= <-]. by right.
  - rewrite lookup_insert_ne by done. intros H. left. eapply lookup_weaken; [|exact Hs1]. by eapply lookup_weaken.
Qed.

Lemma fill_inv s k tok v now :
  sys_inv s -> (k, tok, v) ∈ fills s ->
  sys_inv (mkSys (insert hash tok now k v (cache s)) (truth s) (readers s) (fills s) (pend s)).
Proof.
  intros Hi Hin. unfold insert. destruct (enabled (cache s)) eqn:He; cbn [negb]; [|by destruct s, Hi].
  case_if; [|apply shrink_inv; [done|by intros sh []|by intros sh; split; [done|cbn; lia]]].
  pose proof Hi as [H1 H2 H3 H4 H5]. pose proof H2 as Hper. unfold sized in Hper. rewrite He in Hper.
  match goal with |- context [on_shard ?i ?f (cache s)] => destruct (on_shard_opts i f (cache s)) as (E1 & E2 & E3) end.
  assert (forall k' sh, kshard (cache s) k' = Some sh -> linked sh) as Hlk.
  { intros k' sh Hsh. eapply wf_linked. by eapply (list.Forall_lookup_1 _ _ _ _ (cw_shards _ H1)). }
  split; cbn.
  - apply on_shard_wf; [done|]. intros sh. by apply insert_shard_wf.
  - unfold sized. by rewrite E2, E3, He.
  - intros k' sh n (sh0 & Hsh & ->)%on_shard_kshard Hn. case_decide as Hd; [|by eapply H3].
    destruct (insert_shard_map (copt (cache s)) (per_shard (cache s)) now (tok_gen tok) k v sh0 Hper (Hlk _ _ Hsh)) as [_ Hm].
    apply Hm in Hn as [Hn|(-> & -> & Hg)]; [by eapply H3|]. by apply (H5 _ _ _ _ Hin Hsh He).
  - intros k' t' sh Hr (sh0 & Hsh & ->)%on_shard_kshard _. specialize (H4 _ _ _ Hr Hsh He). case_decide; [|done].
    by rewrite (proj1 (insert_shard_map _ _ now _ k v sh0 Hper (Hlk _ _ Hsh))).
  - intros k' t' v' sh Hf (sh0 & Hsh & ->)%on_shard_kshard _. specialize (H5 _ _ _ _ Hf Hsh He). case_decide; [|done].
    by rewrite (proj1 (insert_shard_map _ _ now _ k v sh0 Hper (Hlk _ _ Hsh))).
Qed.

Lemma invalidate_inv s k l1 l2 :
  sys_inv s -> pend s = l1 ++ k :: l2 ->
  sys_inv (mkSys (invalidate hash k (cache s)) (truth s) (readers s) (fills s) (l1 ++ l2)).
Proof.
  intros Hi Hp.
  assert (forall k' v, k' <> k -> current s k' v -> truth s !! k' = Some v \/ k' ∈ l1 ++ l2) as Hcur.
  { intros k' v Hne [Ht|Hin]; [by left|]. right. rewrite Hp in Hin. set_solver. }
  unfold invalidate. destruct (enabled (cache s)) eqn:He; pose proof Hi as [H1 H2 H3 H4 H5].
  - destruct (on_shard_opts (shard_of hash (cache s) k) (invalidate_shard k) (cache s)) as (E1 & E2 & E3).
    assert (forall sh : Shard V, gen (invalidate_shard k sh) = (gen sh + 1)%Z) as Hgen.
    { intros sh. unfold invalidate_shard. by case_bool_decide. }
    split; cbn.
    + apply on_shard_wf; [done|]. intros sh. by apply invalidate_shard_wf.
    + unfold sized. rewrite E2, E3, He. unfold sized in H2. by rewrite He in H2.
    + intros k' sh n (sh0 & Hsh & ->)%on_shard_kshard Hn.
      assert (k' <> k /\ smap sh0 !! k' = Some n) as [Hne Hn0]; [|unfold current; cbn; by eapply Hcur, H3].
      case_decide as Hd; [|split; [congruence|done]]. unfold invalidate_shard in Hn. case_bool_decide as Hk; cbn in Hn.
      * by apply lookup_delete_Some in Hn as [? ?].
      * split; [|done]. intros ->. apply Hk. by eexists.
    + intros k' tok sh Hr (sh0 & Hsh & ->)%on_shard_kshard _. specialize (H4 _ _ _ Hr Hsh He). case_decide; [|done].
      rewrite Hgen. lia.
    + intros k' tok v sh Hf (sh0 & Hsh & ->)%on_shard_kshard _. specialize (H5 _ _ _ _ Hf Hsh He) as [H5 H6].
      case_decide as Hd; [rewrite Hgen; split; [lia|intros; lia]|]. split; [done|]. intros Ht.
      unfold current. cbn. apply Hcur; [congruence|auto].
  - split; cbn; try done.
    + intros k' sh n Hsh Hn. rewrite (disabled_empty _ _ _ H1 H2 He Hsh), lookup_empty in Hn. done.
    + intros. congruence.
Qed.

Lemma readers_inv s k :
  sys_inv s -> sys_inv (mkSys (cache s) (truth s) ((k, token_for hash (cache s) k) :: readers s) (fills s) (pend s)).
Proof.
  intros [H1 H2 H3 H4 H5]. split; cbn; try done. intros k' tok sh [[= -> ->]|Hin]%elem_of_cons Hsh He; [|by eapply H4].
  unfold token_for. rewrite He. unfold kshard in Hsh. rewrite Hsh. cbn. lia.
Qed.

Lemma sys_step_inv s s' : sys_step s s' -> sys_inv s -> sys_inv s'.
Proof.
  destruct 1 as [s now valid k|s k|s k tok v Hr Ht|s k tok v now Hf|s k v|s k l1 l2 Hp|s i]; intros Hi.
  - apply (readers_inv (mkSys (lookup_state hash now valid k (cache s)) (truth s) (readers s) (fills s) (pend s))).
    unfold lookup_state. case_if; [|by destruct s, Hi].
    apply shrink_inv; [done|intros sh; by apply lookup_shard_wf|apply lookup_shrinks].
  - by apply readers_inv.
  - destruct Hi as [H1 H2 H3 H4 H5]. split; cbn; try done.
    intros k' tok' v' sh [[= -> -> ->]|Hin]%elem_of_cons Hsh He; [|by eapply H5].
    split; [by eapply H4|]. intros _. by left.
  - by apply fill_inv.
  - destruct Hi as [H1 H2 H3 H4 H5].
    assert (forall k' v', current s k' v' -> partial_alter (λ _, v) k (truth s) !! k' = Some v' \/ k' ∈ k :: pend s) as Hc.
    { intros k' v' Hcur. destruct (decide (k' = k)) as [->|Hne]; [right; by left|].
      rewrite lookup_partial_alter_ne by done. destruct Hcur; [by left|right; by right]. }
    split; cbn; try done.
    + intros k' sh n Hsh Hn. eapply Hc, H3; done.
    + intros k' tok v' sh Hin Hsh He. specialize (H5 _ _ _ _ Hin Hsh He) as [? H6]. split; [done|]. intros Ht.
      by apply Hc, H6.
  - by apply invalidate_inv.
  - unfold clear_one. destruct (enabled (cache s)) eqn:He; [|by destruct s, Hi]. apply shrink_inv; [done| |apply clear_shrinks].
    intros sh _. apply clear_shard_wf. pose proof (si_sized _ Hi) as Hs. unfold sized in Hs. by rewrite He in Hs.
Qed.

Lemma sys_reachable_inv o t s :
  (0 <= max_entries o)%Z -> (0 <= opt_shards o)%Z -> sys_reachable o t s -> sys_inv s.
Proof.
  intros Hm Ho Hr. refine (rtc_ind_r (λ s, sys_inv s) _ _ _ s Hr); [|intros x y _ Hs Hx; by eapply sys_step_inv].
  destruct (make_cache_wf (V := V) o Hm Ho) as [Hw Hz]. split; cbn; try done; [|set_solver|set_solver].
  intros k sh n Hsh Hn. unfold kshard, make_cache in Hsh. cbn in Hsh. apply lookup_replicate in Hsh as [-> _].
  cbn in Hn. by rewrite lookup_empty in Hn.
Qed.
(** The per-shard budget and the number of shards never change. *)
Definition shape (c : Cache V) : Z * nat := (per_shard c, length (shards c)).
Lemma on_shard_shape i f c : shape (on_shard i f c) = shape c.
Proof. unfold shape, on_shard. destruct (shards c !! i); [|done]. cbn. by rewrite length_insert. Qed.

Lemma sys_step_shape s s' : sys_step s s' -> shape (cache s') = shape (cache s).
Proof.
  destruct 1; cbn; try done; unfold lookup_state, insert, invalidate, clear_one;
    repeat case_if; by rewrite ?on_shard_shape.
Qed.

Lemma budget o t s :
  (0 <= max_entries o)%Z -> (0 <= opt_shards o)%Z -> sys_reachable o t s ->
  (per_shard (cache s) * Z.of_nat (length (shards (cache s))) <= max_entries o)%Z.
Proof.
  intros Hm Ho Hr. assert (shape (cache s) = shape (make_cache (V := V) o)) as Hs.
  { refine (rtc_ind_r (λ s, shape (cache s) = shape (make_cache o)) _ _ _ s Hr); [done|].
    intros x y _ Hxy Hx. by rewrite (sys_step_shape _ _ Hxy). }
  unfold shape in Hs. injection Hs as -> ->. unfold make_cache. cbn. rewrite length_replicate.
  set (n0 := if (opt_shards o =? 0)%Z then 1%Z else opt_shards o). assert (1 <= n0)%Z by (unfold n0; case_if; lia).
  set (n := if (0 <? max_entries o)%Z && (max_entries o <? n0)%Z then max_entries o else n0).
  assert (1 <= n /\ (0 < max_entries o -> n <= max_entries o))%Z as [Hn Hle] by (unfold n; case_if; bool_prop; lia).
  clearbody n. rewrite Z2Nat.id by lia. pose proof (Z.mul_div_le (max_entries o) n ltac:(lia)).
  destruct (Z.ltb_spec 0 (max_entries o)); cbn; [|lia].
  destruct (Z.eqb_spec (max_entries o / n) 0) as [E|]; [|lia].
  specialize (Hle H1). pose proof (Z.div_str_pos (max_entries o) n ltac:(lia)). lia.
Qed.
End protocol.

(** * Theorems *)
Lemma lookup_value_cached {V} (hash : bytes -> nat) (c : Cache V) now valid k v :
  lookup_value hash c now valid k = Some v ->
  exists sh n, kshard hash c k = Some sh /\ smap sh !! k = Some n /\ value n = v.
Proof.
  unfold lookup_value, kshard. case_if; [|done]. destruct (shards c !! shard_of hash c k) as [sh|]; [|done].
  unfold lookup_shard. destruct (smap sh !! k) as [n|] eqn:En; [|done].
  repeat (case_if; [|done]). intros [= <-]. eauto.
Qed.

(** C27: No stale hit: in every interleaving of lookups, fills, writes, invalidations
    and clears, a hit on a key whose writers have all invalidated returns the record
    that is in the store now; in particular a fill that raced with a write is refused. *)
Theorem cache_hit_current {V} (hash : bytes -> nat) (o : MetaCacheOptions) (t : gmap bytes V) (s : Sys)
    (k : bytes) (now : Z) (valid : option (V -> bool)) (v : V)
    (Hm : (0 <= max_entries o)%Z) (Ho : (0 <= opt_shards o)%Z) (Hr : sys_reachable hash o t s)
    (Hquiet : k ∉ pend s) (Hhit : lookup_value hash (cache s) now valid k = Some v) : truth s !! k = Some v.
Proof.
  apply lookup_value_cached in Hhit as (sh & n & Hsh & Hn & <-).
  by destruct (si_cached _ _ (sys_reachable_inv hash o t s Hm Ho Hr) k sh n Hsh Hn).
Qed.

Definition demo_hash (k : bytes) : nat := length k.
Definition demo_opts : MetaCacheOptions := mkOptions 4 0 2.
Definition demo_key : bytes := ckey (bs "b") (bs "k").
(** A reader missed, read the store and filled. *)
Definition demo_sys : Sys :=
  let c1 := lookup_state demo_hash 0 None demo_key (make_cache demo_opts) in
  let tok := token_for demo_hash c1 demo_key in
  mkSys (insert demo_hash tok 0 demo_key 7%Z c1) {[demo_key := 7%Z]} [(demo_key, tok)] [(demo_key, tok, 7%Z)] [].
Lemma demo_sys_reachable : sys_reachable demo_hash demo_opts {[demo_key := 7%Z]} demo_sys.
Proof.
  eapply rtc_l; [apply (sys_lookup _ _ 0 None demo_key)|].
  eapply rtc_l; [eapply (sys_load _ _ demo_key _ 7%Z); [by left|reflexivity]|].
  eapply rtc_l; [eapply (sys_fill _ _ demo_key _ 7%Z 0); by left|]. apply rtc_refl.
Qed.
Lemma cache_hit_current_witness :
  lookup_value demo_hash (cache demo_sys) 1 None demo_key = Some 7%Z /\ truth demo_sys !! demo_key = Some 7%Z.
Proof.
  split; [vm_compute; reflexivity|].
  apply (cache_hit_current demo_hash demo_opts {[demo_key := 7%Z]} demo_sys demo_key 1 None 7%Z).
  - cbn. lia.
  - cbn. lia.
  - apply demo_sys_reachable.
  - cbn. set_solver.
  - vm_compute. reflexivity.
Defined.

Lemma total_size_bound {V} per (l : list (Shard V)) :
  Forall (shard_wf per) l -> (total_size l <= per * Z.of_nat (length l))%Z.
Proof. induction 1 as [|sh l [_ _ H] _ IH]; cbn [total_size foldr length]; [lia|]. unfold total_size in IH. lia. Qed.

(** The memory budget: in every reachable state the number of cached records equals
    the counter the cache reports and stays within [max_entries]. *)
Theorem cache_within_budget {V} (hash : bytes -> nat) (o : MetaCacheOptions) (t : gmap bytes V) (s : Sys)
    (Hm : (0 <= max_entries o)%Z) (Ho : (0 <= opt_shards o)%Z) (Hr : sys_reachable hash o t s) :
  entries (cache s) = total_size (shards (cache s)) /\ (entries (cache s) <= max_entries o)%Z.
Proof.
  pose proof (sys_reachable_inv hash o t s Hm Ho Hr) as [[H1 H2 H3] _ _ _ _]. split; [done|].
  rewrite H3. etrans; [by apply total_size_bound|]. by apply (budget hash o t s).
Qed.
Lemma cache_within_budget_witness : (entries (cache demo_sys) <= 4)%Z.
Proof.
  apply (cache_within_budget demo_hash demo_opts {[demo_key := 7%Z]} demo_sys); [cbn; lia|cbn; lia|apply demo_sys_reachable].
Defined.
