(* ===== verification/BucketRouter.v ===== *)
(** Bucket routing ([src/src/storage/bucket_router.cc], [bucket_router.h]).

    libc's [fnmatch] is a parameter, as is the type of backend instances (compared by
    identity). [std::runtime_error] is split into the reasons the code gives. *)

From S2P Require Import Prelude Bytes.
From Stdlib Require Import ZArith Lia.
From stdpp Require Import base list gmap sets strings.

Inductive RouteError :=
| EmptyPattern | BadLiteral | UnclosedClass | UnknownBackend | AfterCatchAll | DuplicateRule
| DefaultChanged | DefaultMissing.

Abbreviation cres := (res RouteError).

Section router.
Context {B : Type} `{EqDecision B} (fnmatch : bytes -> bytes -> bool).

(** * Configuration and state *)
Record BucketRule := mkBucketRule { rule_match : bytes; rule_backend : bytes }.
Record BucketsConfig := mkBucketsConfig { cfg_default : bytes; cfg_rules : list BucketRule }.

Abbreviation BackendMap := (gmap bytes B).
Record Rule := mkRule { glob : bytes; negate : bool; backend : B; backend_label : bytes }.
Record Table := mkTable { rules : list Rule; backends : BackendMap }.
Record Router := mkRouter { default_backend : B; default_name : bytes; table : Table }.

(** * Validation *)
Definition literal_ok (c : byte) : bool :=
  is_lower c || is_digit c || bool_decide (c = ch "-") || bool_decide (c = ch ".").

Fixpoint glob_loop (in_class : bool) (p : bytes) : cres unit :=
  match p with
  | [] => throw_if in_class UnclosedClass
  | c :: p' =>
      if in_class then glob_loop (negb (bool_decide (c = ch "]"))) p'
      else if bool_decide (c = ch "[") then
        match p' with
        | c2 :: p'' => if bool_decide (c2 = ch "]") then glob_loop true p'' else glob_loop true p'
        | [] => Throw UnclosedClass
        end
      else if bool_decide (c = ch "*") || bool_decide (c = ch "?") || bool_decide (c = ch "\") then glob_loop false p'
      else if literal_ok c then glob_loop false p' else Throw BadLiteral
  end.
Definition validate_glob (pattern : bytes) : cres unit :=
  if bool_decide (pattern = []) then Throw EmptyPattern else glob_loop false pattern.

Definition glob_match (g bucket : bytes) : bool := fnmatch (c_str g) (c_str (take 63 bucket)).

(** * Compilation *)

(** "!pattern" and its glob. *)
Definition rule_negate (r : BucketRule) : bool :=
  match rule_match r with c :: _ => bool_decide (c = ch "!") | [] => false end.
Definition rule_glob (r : BucketRule) : bytes := if rule_negate r then drop 1 (rule_match r) else rule_match r.

Definition meta_char (c : byte) : bool :=
  bool_decide (c = ch "*") || bool_decide (c = ch "?") || bool_decide (c = ch "[").
Definition is_catch_all (neg : bool) (g : bytes) : bool :=
  (negb neg && (bool_decide (g = bs "*") || bool_decide (g = bs "**")))
  || (neg && negb (existsb meta_char g) && negb (existsb (λ c, bool_decide (c = ch "\")) g)).

Fixpoint compile_loop (bm : BackendMap) (saw_catch_all : bool) (done_rules : list Rule) (rs : list BucketRule)
    : cres (list Rule) :=
  match rs with
  | [] => Ok done_rules
  | r :: rs' =>
      let neg := rule_negate r in
      let g := rule_glob r in
      _ ← validate_glob g;
      _ ← throw_if saw_catch_all AfterCatchAll;
      _ ← throw_if (existsb (λ p, bool_decide (glob p = g) && Bool.eqb (negate p) neg) done_rules) DuplicateRule;
      match bm !! rule_backend r with
      | None => Throw UnknownBackend
      | Some b => compile_loop bm (saw_catch_all || is_catch_all neg g) (done_rules ++ [mkRule g neg b (rule_backend r)]) rs'
      end
  end.
Definition compile (cfg : BucketsConfig) (bm : BackendMap) : cres Table :=
  rs ← compile_loop bm false [] (cfg_rules cfg); Ok (mkTable rs bm).

(** * Operations *)
Definition build (cfg : BucketsConfig) (bm : BackendMap) : cres Router :=
  match bm !! cfg_default cfg with
  | None => Throw UnknownBackend
  | Some b => t ← compile cfg bm; Ok (mkRouter b (cfg_default cfg) t)
  end.

(** Both [update]s: the new table, or an exception before anything is stored. *)
Definition update_rules (cfg : BucketsConfig) : ST Router RouteError unit := λ r,
  if negb (bool_decide (cfg_default cfg = default_name r)) then (Throw DefaultChanged, r)
  else match compile cfg (backends (table r)) with
       | Ok t => (Ok tt, mkRouter (default_backend r) (default_name r) t)
       | Throw e => (Throw e, r)
       end.

Definition update_all (cfg : BucketsConfig) (bm : BackendMap) : ST Router RouteError unit := λ r,
  if negb (bool_decide (cfg_default cfg = default_name r)) then (Throw DefaultChanged, r)
  else match bm !! cfg_default cfg with
       | Some b =>
           if bool_decide (b = default_backend r) then
             match compile cfg bm with
             | Ok t => (Ok tt, mkRouter (default_backend r) (default_name r) t)
             | Throw e => (Throw e, r)
             end
           else (Throw DefaultMissing, r)
       | None => (Throw DefaultMissing, r)
       end.

Definition rule_hits (bucket : bytes) (r : Rule) : bool := negb (Bool.eqb (glob_match (glob r) bucket) (negate r)).
Definition backend_name (r : Router) (bucket : bytes) : bytes :=
  match List.find (rule_hits bucket) (rules (table r)) with Some x => backend_label x | None => default_name r end.
Definition resolve (r : Router) (bucket : bytes) : B :=
  match List.find (rule_hits bucket) (rules (table r)) with Some x => backend x | None => default_backend r end.

(** * Specification *)

(** Routing read off the configuration: the first rule that applies, else the default. *)
Definition config_route (cfg : BucketsConfig) (bucket : bytes) : bytes :=
  match List.find (λ r, negb (Bool.eqb (glob_match (rule_glob r) bucket) (rule_negate r))) (cfg_rules cfg) with
  | Some r => rule_backend r
  | None => cfg_default cfg
  end.

Definition compiled (bm : BackendMap) (r : BucketRule) (x : Rule) : Prop :=
  glob x = rule_glob r /\ negate x = rule_negate r /\ backend_label x = rule_backend r /\
  bm !! rule_backend r = Some (backend x) /\ validate_glob (glob x) = Ok tt.

Lemma compile_loop_spec bm rs : forall sc ds out,
  compile_loop bm sc ds rs = Ok out ->
  exists new, out = ds ++ new /\ Forall2 (compiled bm) rs new /\ (sc = true -> new = []).
Proof.
  induction rs as [|r rs IH]; intros sc ds out H; cbn [compile_loop] in H.
  - injection H as <-. exists []. split; [by rewrite app_nil_r|]. by split; [constructor|].
  - inv_res. destruct v, v0, v1. destruct (bm !! rule_backend r) as [b|] eqn:Eb; [|done].
    apply IH in H as (new & -> & Hf & _). eexists. split; [by rewrite <- app_assoc|]. split; [by constructor|].
    intros ->. done.
Qed.

(** Rules kept by a compiled table: pairwise different, and nothing after a catch-all. *)
Definition same_rule (x y : Rule) : Prop := glob x = glob y /\ negate x = negate y.
Definition rules_ok (l : list Rule) : Prop :=
  forall i j x y, l !! i = Some x -> l !! j = Some y -> i < j ->
    ~ same_rule x y /\ is_catch_all (negate x) (glob x) = false.

Lemma compile_loop_ok bm rs : forall sc ds out,
  rules_ok ds -> (sc = false -> Forall (λ x, is_catch_all (negate x) (glob x) = false) ds) ->
  compile_loop bm sc ds rs = Ok out -> rules_ok out.
Proof.
  induction rs as [|r rs IH]; intros sc ds out Hd Hsc H; cbn [compile_loop] in H; [by injection H as <-|].
  inv_res. destruct v, v0, v1. destruct (bm !! rule_backend r) as [b|] eqn:Eb; [|done].
  destruct sc; [done|]. specialize (Hsc eq_refl). eapply IH; [| |exact H].
  - intros i j x y Hx Hy Hij.
    assert (i < length ds) as Hi.
    { apply lookup_lt_Some in Hy. rewrite length_app in Hy. cbn in Hy. lia. }
    rewrite lookup_app_l in Hx by done. split; [|by eapply list.Forall_lookup_1 in Hsc].
    destruct (decide (j < length ds)) as [Hj|Hj].
    + rewrite lookup_app_l in Hy by done. by eapply Hd.
    + rewrite lookup_app_r in Hy by lia. destruct (j - length ds) as [|m]; [|by destruct m]. injection Hy as <-.
      intros [E1 E2]. cbn in E1, E2.
      apply not_true_iff_false in Hm1. apply Hm1, existsb_exists. exists x.
      split; [by eapply list_elem_of_In, list_elem_of_lookup_2|].
      rewrite E1, E2, bool_decide_eq_true_2 by done. by rewrite Bool.eqb_reflx.
  - cbn [orb]. intros Hc. apply list.Forall_app. split; [done|]. by repeat constructor.
Qed.

(** * Invariant of a router in service *)
Record router_ok (r : Router) : Prop := mkRouterOk {
  ro_default : backends (table r) !! default_name r = Some (default_backend r);
  ro_rules : Forall (λ x, backends (table r) !! backend_label x = Some (backend x)) (rules (table r));
  ro_distinct : rules_ok (rules (table r)) }.

Lemma compile_ok cfg bm t :
  compile cfg bm = Ok t ->
  backends t = bm /\ Forall2 (compiled bm) (cfg_rules cfg) (rules t) /\ rules_ok (rules t) /\
  Forall (λ x, bm !! backend_label x = Some (backend x)) (rules t).
Proof.
  unfold compile. intros H. inv_res. subst t. cbn. split; [done|].
  pose proof (compile_loop_spec _ _ _ _ _ Hm) as (new & -> & Hf & _). cbn. split; [done|]. split.
  - eapply compile_loop_ok; [| |exact Hm]; [by intros i j x y|constructor].
  - clear Hm. induction Hf as [|r x rs xs (_ & _ & El & Hb & _) _ IH]; constructor; [|done].
    by rewrite El.
Qed.

Lemma build_ok cfg bm r : build cfg bm = Ok r -> router_ok r.
Proof.
  unfold build. destruct (bm !! cfg_default cfg) as [b|] eqn:Eb; [|done]. intros H. inv_res. subst r.
  apply compile_ok in Hm as (E & Hf & Hd & Hr). rewrite <- E in Hr. by split; cbn; [rewrite E| |].
Qed.
Lemma update_rules_ok cfg r : router_ok r -> router_ok (update_rules cfg r).2.
Proof.
  intros Hr. unfold update_rules. case_if; [done|]. destruct (compile cfg _) as [t|e] eqn:Ec; [|done].
  apply compile_ok in Ec as (E & Hf & Hd & Hb). rewrite <- E in Hb. split; cbn; [rewrite E; apply Hr|done|done].
Qed.
Lemma update_all_ok cfg bm r : router_ok r -> router_ok (update_all cfg bm r).2.
Proof.
  intros Hr. unfold update_all. case_if; [done|]. bool_prop.
  destruct (bm !! cfg_default cfg) as [b|] eqn:Eb; [|done]. case_bool_decide as Hd0; [|done].
  destruct (compile cfg bm) as [t|e] eqn:Ec; [|done].
  apply compile_ok in Ec as (E & Hf & Hd & Hb). rewrite <- E in Hb. split; cbn; [|done|done].
  rewrite E. congruence.
Qed.

(** Reconfigurations, failed ones included. *)
Inductive router_step : Router -> Router -> Prop :=
| rstep_rules r cfg : router_step r (update_rules cfg r).2
| rstep_all r cfg bm : router_step r (update_all cfg bm r).2.

Lemma router_steps_ok r r' : router_ok r -> rtc router_step r r' -> router_ok r'.
Proof. intros Hr. induction 1 as [|x y z Hs _ IH]; [done|]. apply IH. destruct Hs; [by apply update_rules_ok|by apply update_all_ok]. Qed.

Lemma find_compiled bm rs xs (P : BucketRule -> bool) (Q : Rule -> bool) :
  Forall2 (compiled bm) rs xs -> (forall r x, compiled bm r x -> P r = Q x) ->
  match List.find P rs, List.find Q xs with
  | Some r, Some x => compiled bm r x
  | None, None => True
  | _, _ => False
  end.
Proof.
  intros Hf Hpq. induction Hf as [|r x rs xs Hc Hf IH]; [done|]. cbn. rewrite (Hpq _ _ Hc). by destruct (Q x).
Qed.
End router.

(** * Theorems *)

(** A router always resolves to a live backend of its own table: after any sequence
    of accepted and rejected reconfigurations, the instance [resolve] returns is the one
    the current backend set holds under the name [backend_name] reports. *)
Theorem router_resolve_named {B} `{EqDecision B} (fnmatch : bytes -> bytes -> bool) (cfg : BucketsConfig)
    (bm : gmap bytes B) (r0 r : Router) (bucket : bytes)
    (Hb : build cfg bm = Ok r0) (Hs : rtc router_step r0 r) :
  backends (table r) !! backend_name fnmatch r bucket = Some (resolve fnmatch r bucket).
Proof.
  pose proof (router_steps_ok _ _ (build_ok _ _ _ Hb) Hs) as [Hd Hr _]. unfold backend_name, resolve.
  destruct (List.find (rule_hits fnmatch bucket) (rules (table r))) as [x|] eqn:E; [|done].
  apply List.find_some in E as [Hin _]. rewrite list.Forall_forall in Hr. apply Hr. by apply list_elem_of_In.
Qed.

(** Routing is the configuration's: a freshly built router sends every bucket to the
    backend of the first configured rule that applies to it, else to the default. *)
Theorem router_implements_config {B} `{EqDecision B} (fnmatch : bytes -> bytes -> bool) (cfg : BucketsConfig)
    (bm : gmap bytes B) (r : Router) (bucket : bytes) (Hb : build cfg bm = Ok r) :
  backend_name fnmatch r bucket = config_route fnmatch cfg bucket.
Proof.
  unfold build in Hb. destruct (bm !! cfg_default cfg) as [b|]; [|done]. inv_res. subst r.
  apply compile_ok in Hm as (_ & Hf & _ & _). unfold backend_name, config_route, rule_hits. cbn [table default_name].
  pose proof (find_compiled bm _ _ (λ r, negb (Bool.eqb (glob_match fnmatch (rule_glob r) bucket) (rule_negate r)))
    (λ x, negb (Bool.eqb (glob_match fnmatch (glob x) bucket) (negate x))) Hf) as Hfc.
  assert (forall r x, compiled bm r x ->
    negb (Bool.eqb (glob_match fnmatch (rule_glob r) bucket) (rule_negate r))
    = negb (Bool.eqb (glob_match fnmatch (glob x) bucket) (negate x))) as Hpq by (by intros r x (-> & -> & _)).
  specialize (Hfc Hpq). do 2 destruct (List.find _ _); try done. by destruct Hfc as (_ & _ & -> & _).
Qed.

(** Reconfiguration is all or nothing and never moves the default backend: a
    rejected update leaves the router exactly as it was; an accepted one keeps the
    default's name and instance. *)
Theorem router_update_atomic {B} `{EqDecision B} (cfg : BucketsConfig) (bm : gmap bytes B) (r : Router) :
  (forall e r', update_rules cfg r = (Throw e, r') \/ update_all cfg bm r = (Throw e, r') -> r' = r) /\
  default_name (update_rules cfg r).2 = default_name r /\ default_backend (update_rules cfg r).2 = default_backend r /\
  default_name (update_all cfg bm r).2 = default_name r /\ default_backend (update_all cfg bm r).2 = default_backend r.
Proof.
  unfold update_rules, update_all.
  destruct (bool_decide (cfg_default cfg = default_name r)); cbn [negb]; [|split_and!; [naive_solver|done..]].
  destruct (compile cfg (backends (table r))); (destruct (bm !! cfg_default cfg);
    [case_bool_decide; [destruct (compile cfg bm)|]|]); split_and!; cbn; naive_solver.
Qed.

(** No dead rule is accepted: in a router in service no two rules are the same and
    no rule follows a catch-all. *)
Theorem router_no_dead_rules {B} `{EqDecision B} (cfg : BucketsConfig) (bm : gmap bytes B) (r0 r : Router)
    (Hb : build cfg bm = Ok r0) (Hs : rtc router_step r0 r) : rules_ok (rules (table r)).
Proof. by destruct (router_steps_ok _ _ (build_ok _ _ _ Hb) Hs). Qed.

(** A reachable rule is rejected: "!name" counts as a catch-all, although it does
    not apply to the bucket [name] itself, so the pair "!logs" then "logs" is refused as
    unreachable while the second rule is the one that applies to the bucket "logs". *)
Theorem router_rejects_reachable_rule {B} `{EqDecision B} (fnmatch : bytes -> bytes -> bool) (b1 b2 : B)
    (Hlit : fnmatch (bs "logs") (bs "logs") = true) :
  let cfg := mkBucketsConfig (bs "x") [mkBucketRule (bs "!logs") (bs "x"); mkBucketRule (bs "logs") (bs "y")] in
  build cfg (<[bs "x" := b1]> {[bs "y" := b2]}) = Throw AfterCatchAll /\ config_route fnmatch cfg (bs "logs") = bs "y".
Proof. 
  split; [vm_compute; reflexivity|]. unfold config_route. cbn [cfg_rules List.find].
  change (glob_match fnmatch (rule_glob (mkBucketRule (bs "!logs") (bs "x"))) (bs "logs")) with (fnmatch (bs "logs") (bs "logs")).
  change (glob_match fnmatch (rule_glob (mkBucketRule (bs "logs") (bs "y"))) (bs "logs")) with (fnmatch (bs "logs") (bs "logs")).
  by rewrite Hlit.
Qed.

(** * Witnesses *)
Definition demo_config : BucketsConfig :=
  mkBucketsConfig (bs "main") [mkBucketRule (bs "logs-*") (bs "cold"); mkBucketRule (bs "!tmp*") (bs "main")].
Definition demo_backends : gmap bytes nat := <[bs "cold" := 1]> {[bs "main" := 0]}.
(** A matcher for patterns that end in a star, and literals. *)
Definition demo_fnmatch (p s : bytes) : bool :=
  if ends_with (bs "*") p then starts_with (take (length p - 1) p) s else bool_decide (p = s).
Lemma demo_build : exists r, build demo_config demo_backends = Ok r.
Proof. eexists. vm_compute. reflexivity. Qed.

Lemma router_resolve_named_witness :
  exists r, build demo_config demo_backends = Ok r /\
    backends (table r) !! backend_name demo_fnmatch r (bs "logs-1") = Some (resolve demo_fnmatch r (bs "logs-1")).
Proof.
  destruct demo_build as [r Hr]. exists r. split; [exact Hr|].
  apply (router_resolve_named demo_fnmatch demo_config demo_backends r r (bs "logs-1") Hr). apply rtc_refl.
Defined.
Lemma router_implements_config_witness :
  exists r, build demo_config demo_backends = Ok r /\ backend_name demo_fnmatch r (bs "logs-1") = bs "cold".
Proof.
  destruct demo_build as [r Hr]. exists r. split; [exact Hr|].
  rewrite (router_implements_config demo_fnmatch demo_config demo_backends r (bs "logs-1") Hr). vm_compute. reflexivity.
Defined.
Lemma router_no_dead_rules_witness : exists r, build demo_config demo_backends = Ok r /\ rules_ok (rules (table r)).
Proof.
  destruct demo_build as [r Hr]. exists r. split; [exact Hr|].
  apply (router_no_dead_rules demo_config demo_backends r r Hr). apply rtc_refl.
Defined.
Lemma router_rejects_reachable_rule_witness :
  config_route demo_fnmatch
    (mkBucketsConfig (bs "x") [mkBucketRule (bs "!logs") (bs "x"); mkBucketRule (bs "logs") (bs "y")]) (bs "logs") = bs "y".
Proof. apply (router_rejects_reachable_rule demo_fnmatch 1 2). vm_compute. reflexivity. Defined.
