(* ===== verification/Policy.v ===== *)
(** Per-credential policies and the policy of a vended session
    ([src/src/s3/auth/policy.h]; the functions are in
    [src/src/s3/auth/credential_store.cc]). [fnmatch(.., FNM_PATHNAME)] is a parameter. *)

From S2P Require Import Prelude Bytes Backend.
From Stdlib Require Import ZArith Lia.
From stdpp Require Import base list sets strings.

(** * Data *)
Inductive Action := Read | Write | Delete.
#[global] Instance action_eq : EqDecision Action.
Proof. solve_decision. Defined.

Record CredentialPolicy := mkPolicy {
  pol_buckets : list bytes; pol_prefixes : list bytes; pol_readonly : bool; pol_actions : list Action }.

Definition action_name (a : Action) : bytes :=
  match a with Read => bs "read" | Write => bs "write" | Delete => bs "delete" end.

Definition action_from_name (s : bytes) : option Action :=
  if bool_decide (s = bs "read") then Some Read
  else if bool_decide (s = bs "write") then Some Write
  else if bool_decide (s = bs "delete") then Some Delete
  else None.

Section policy.
Context (fnmatch : bytes -> bytes -> bool).

(** * Checks *)
Definition allows_action (p : CredentialPolicy) (a : Action) : bool :=
  if bool_decide (pol_actions p = []) then negb (pol_readonly p) || bool_decide (a = Read)
  else existsb (λ x, bool_decide (x = a)) (pol_actions p).

Definition allows_bucket (p : CredentialPolicy) (bucket : bytes) : bool :=
  if bool_decide (pol_buckets p = []) || bool_decide (bucket = []) then true
  else existsb (λ g, fnmatch (c_str g) (c_str bucket)) (pol_buckets p).

Definition allows_key (p : CredentialPolicy) (key : bytes) : bool :=
  if bool_decide (pol_prefixes p = []) then true
  else existsb (λ pre, starts_with pre key) (pol_prefixes p).

Definition allows (p : CredentialPolicy) (bucket key : bytes) (a : Action) : bool :=
  if negb (allows_action p a) then false
  else if negb (allows_bucket p bucket) then false
  else if bool_decide (pol_prefixes p = []) || bool_decide (key = []) then true
  else allows_key p key.

Definition prefix_may_contain (p : CredentialPolicy) (group_prefix : bytes) : bool :=
  if bool_decide (pol_prefixes p = []) then true
  else existsb (λ pre, let n := Nat.min (length pre) (length group_prefix) in
                       bool_decide (take n pre = take n group_prefix)) (pol_prefixes p).

(** * Narrowing *)

(** One allowlist: the parent's when nothing is asked, else the entries the parent
    admits, of which there must be some. *)
Definition narrow_list (parent asked : list bytes) (admits : bytes -> bool) : result (list bytes) :=
  if bool_decide (asked = []) then Ok parent
  else
    let kept := base.filter (λ x, admits x = true) asked in
    if bool_decide (kept = []) then Throw AccessDenied else Ok kept.

Definition narrow_policy (parent : option CredentialPolicy) (narrow : CredentialPolicy) : result CredentialPolicy :=
  match parent with
  | None => Ok narrow
  | Some p =>
      bks ← narrow_list (pol_buckets p) (pol_buckets narrow) (allows_bucket p);
      pres ← narrow_list (pol_prefixes p) (pol_prefixes narrow) (allows_key p);
      let acts := base.filter (λ a, allows_action p a && allows_action narrow a = true) [Read; Write; Delete] in
      if bool_decide (acts = []) then Throw AccessDenied
      else Ok (mkPolicy bks pres (pol_readonly p || pol_readonly narrow) acts)
  end.

(** The policy [mint_session] gives a session. *)
Definition session_policy (parent narrow : option CredentialPolicy) : result (option CredentialPolicy) :=
  match narrow with
  | None => Ok parent
  | Some n => p ← narrow_policy parent n; Ok (Some p)
  end.

(** An absent policy allows everything. *)
Definition allowed (p : option CredentialPolicy) (bucket key : bytes) (a : Action) : bool :=
  match p with None => true | Some p => allows p bucket key a end.

(** * Facts *)
Lemma existsb_true {A} (f : A -> bool) l : existsb f l = true <-> exists x, x ∈ l /\ f x = true.
Proof using Type. clear fnmatch. rewrite existsb_exists. by setoid_rewrite list_elem_of_In. Qed.

Lemma allows_true p b k a :
  allows p b k a = true <-> allows_action p a = true /\ allows_bucket p b = true /\ (k = [] \/ allows_key p k = true).
Proof.
  unfold allows, allows_key. destruct (allows_action p a), (allows_bucket p b); cbn; repeat case_bool_decide; naive_solver.
Qed.

Lemma allows_key_spec p k :
  allows_key p k = true <-> pol_prefixes p = [] \/ exists pre, pre ∈ pol_prefixes p /\ pre `prefix_of` k.
Proof using Type.
  clear fnmatch.
  unfold allows_key. case_bool_decide as E; [naive_solver|].
  rewrite existsb_true. setoid_rewrite starts_with_prefix. naive_solver.
Qed.

Lemma narrow_list_Ok parent asked admits l :
  narrow_list parent asked admits = Ok l ->
  (asked = [] /\ l = parent) \/ (asked <> [] /\ l <> [] /\ forall x, x ∈ l -> x ∈ asked /\ admits x = true).
Proof using Type.
  clear fnmatch.
  unfold narrow_list. case_bool_decide as E; [naive_solver|]. cbn. case_bool_decide as E2; [done|].
  intros [= <-]. right. split_and!; [done|done|]. intros x [??]%list_elem_of_filter. done.
Qed.

(** The literal patterns: nothing in them is special to [fnmatch]. *)
Definition literal (g : bytes) : bool := forallb (λ c, negb (bool_decide (c ∈ bs "*?[\"))) g.

(** What is used of [fnmatch]: a pattern without special characters matches itself only. *)
Definition fnmatch_literal : Prop := forall g s, literal g = true -> fnmatch g s = true -> s = g.

Lemma literal_c_str g : literal g = true -> literal (c_str g) = true.
Proof.
  unfold literal. induction g as [|c g IH]; cbn [forallb c_str]; [done|]. intros [H1 H2]%andb_prop.
  destruct (bool_decide (c = Byte.x00)); cbn [forallb]; [done|]. apply andb_true_intro. auto.
Qed.

Lemma c_str_idem s : c_str (c_str s) = c_str s.
Proof. induction s as [|c s IH]; cbn; [done|]. case_bool_decide; cbn; [done|]. rewrite bool_decide_eq_false_2 by done. by f_equal. Qed.

Lemma narrow_buckets p n l b :
  fnmatch_literal -> forallb literal (pol_buckets n) = true -> [] ∉ pol_buckets n ->
  narrow_list (pol_buckets p) (pol_buckets n) (allows_bucket p) = Ok l ->
  allows_bucket (mkPolicy l [] false []) b = true -> allows_bucket p b = true /\ allows_bucket n b = true.
Proof.
  intros Hf Hl Hne [[E ->]|(E & E2 & Hk)]%narrow_list_Ok H.
  - unfold allows_bucket in *. cbn in *. by rewrite E.
  - unfold allows_bucket in H at 1. cbn in H. rewrite (bool_decide_eq_false_2 (l = [])) in H by done. cbn in H.
    unfold allows_bucket. case_bool_decide as Eb; [by rewrite !orb_true_r|].
    apply existsb_true in H as (g & Hg & Hm). destruct (Hk g Hg) as [Hn Hp].
    rewrite forallb_forall in Hl. setoid_rewrite <- list_elem_of_In in Hl.
    pose proof (Hf _ _ (literal_c_str g (Hl g Hn)) Hm) as Eq. rewrite Eq. rewrite !orb_false_r. split.
    + unfold allows_bucket in Hp. rewrite (bool_decide_eq_false_2 (g = [])), orb_false_r in Hp by naive_solver. done.
    + rewrite bool_decide_eq_false_2 by done. apply existsb_true. exists g. rewrite Eq in Hm. done.
Qed.

Lemma narrow_keys p n l k :
  narrow_list (pol_prefixes p) (pol_prefixes n) (allows_key p) = Ok l ->
  allows_key (mkPolicy [] l false []) k = true -> allows_key p k = true /\ allows_key n k = true.
Proof using Type.
  clear fnmatch.
  intros [[E ->]|(E & E2 & Hk)]%narrow_list_Ok; rewrite !allows_key_spec; cbn; [naive_solver|].
  intros [?|(pre & Hin & Hpre)]; [done|]. destruct (Hk pre Hin) as [Hn [?|(q & Hq & Hqp)]%allows_key_spec]; [naive_solver|].
  split; [|naive_solver]. right. exists q. split; [done|]. by transitivity pre.
Qed.

Lemma narrow_actions p n bks pres ro acts a :
  acts = base.filter (λ a, allows_action p a && allows_action n a = true) [Read; Write; Delete] -> acts <> [] ->
  allows_action (mkPolicy bks pres ro acts) a = true -> allows_action p a = true /\ allows_action n a = true.
Proof using Type.
  clear fnmatch.
  intros -> Hne. unfold allows_action at 1. cbn [pol_actions]. rewrite bool_decide_eq_false_2 by done.
  rewrite existsb_true. intros (x & [Hx _]%list_elem_of_filter & ->%bool_decide_eq_true). by apply andb_prop in Hx.
Qed.
End policy.

(** C26: A session never exceeds its parent: whatever the policy minted for a session
    allows, the parent's policy allows, and so does the narrowing asked for, provided the
    buckets asked for are non-empty names without glob characters. *)
Theorem session_within_parent (fnmatch : bytes -> bytes -> bool) parent n out bucket key a :
  fnmatch_literal fnmatch ->
  forallb literal (pol_buckets n) = true -> [] ∉ pol_buckets n ->
  session_policy fnmatch parent (Some n) = Ok out ->
  allowed fnmatch out bucket key a = true ->
  allowed fnmatch parent bucket key a = true /\ allows fnmatch n bucket key a = true.
Proof.
  intros Hf Hl Hne H Ha. unfold session_policy in H. apply bind_Ok in H as (q & H & [= <-]).
  destruct parent as [p|]; cbn [narrow_policy] in H; [|by injection H as <-].
  apply bind_Ok in H as (bks & Hb & H). apply bind_Ok in H as (pres & Hp & H). 
  set (acts := base.filter _ _) in H. assert (acts = base.filter _ _) as Eacts by reflexivity. clearbody acts.
  cbv zeta in H. case_bool_decide as E; [done|]. injection H as <-. cbn [allowed] in Ha |- *. rewrite !allows_true in *. destruct Ha as (H1 & H2 & H3).
  destruct (narrow_actions p n _ _ _ _ a Eacts E H1), (narrow_buckets fnmatch p n bks bucket Hf Hl Hne Hb H2).
  assert (key = [] \/ (allows_key p key = true /\ allows_key n key = true)) as Hk
    by (destruct H3 as [?|H3]; [by left|right; exact (narrow_keys p n pres key Hp H3)]).
  naive_solver.
Qed.

(** A matcher with "*" and "?" only, enough to evaluate policies. *)
Fixpoint demo_fnmatch (p s : bytes) : bool :=
  match p with
  | [] => bool_decide (s = [])
  | c :: p' =>
      if bool_decide (c = ch "*") then
        (fix star (s : bytes) : bool :=
           demo_fnmatch p' s || match s with [] => false | _ :: s' => star s' end) s
      else match s with
           | [] => false
           | x :: s' => (bool_decide (c = ch "?") || bool_decide (c = x)) && demo_fnmatch p' s'
           end
  end.

Lemma demo_fnmatch_literal : fnmatch_literal demo_fnmatch.
Proof.
  intros g. unfold literal. induction g as [|c g IH]; intros s; cbn [forallb demo_fnmatch].
  - intros _ H. by apply bool_decide_eq_true in H.
  - intros [H1%negb_true_iff%bool_decide_eq_false H2]%andb_prop.
    rewrite (bool_decide_eq_false_2 (c = ch "*")), (bool_decide_eq_false_2 (c = ch "?"))
      by (intros ->; apply H1; set_solver).
    destruct s as [|x s]; [done|]. cbn. intros [->%bool_decide_eq_true H]%andb_prop. f_equal. eauto.
Qed.

Definition demo_parent : CredentialPolicy := mkPolicy [bs "team-?"; bs "logs"] [bs "a/"] false [Read; Write].
Definition demo_narrow : CredentialPolicy := mkPolicy [bs "team-1"] [bs "a/b/"] true [].

Lemma session_within_parent_witness :
  exists out, session_policy demo_fnmatch (Some demo_parent) (Some demo_narrow) = Ok out /\
    allowed demo_fnmatch out (bs "team-1") (bs "a/b/c") Read = true /\
    allowed demo_fnmatch (Some demo_parent) (bs "team-1") (bs "a/b/c") Read = true.
Proof.
  assert (exists out, session_policy demo_fnmatch (Some demo_parent) (Some demo_narrow) = Ok out /\
    allowed demo_fnmatch out (bs "team-1") (bs "a/b/c") Read = true) as (out & H & Ha)
    by (eexists; split; vm_compute; reflexivity).
  exists out. split; [done|]. split; [done|].
  apply (session_within_parent demo_fnmatch (Some demo_parent) demo_narrow out (bs "team-1") (bs "a/b/c") Read);
    [apply demo_fnmatch_literal|reflexivity|set_solver|done|done].
Defined.

(** Narrowing by a glob can widen: with a matcher for which "?" stands for one
    character and "*" for any string, a parent limited to "team-?" mints a session for
    "team-*", which reaches buckets the parent cannot. *)
Theorem narrow_glob_widens :
  exists parent narrow out bucket,
    session_policy demo_fnmatch (Some parent) (Some narrow) = Ok (Some out) /\
    allows demo_fnmatch out bucket (bs "k") Read = true /\ allows demo_fnmatch parent bucket (bs "k") Read = false.
Proof.
  exists (mkPolicy [bs "team-?"] [] false []), (mkPolicy [bs "team-*"] [] false []),
    (mkPolicy [bs "team-*"] [] false [Read; Write; Delete]), (bs "team-secret").
  split_and!; vm_compute; reflexivity.
Qed.

(** Listings filtered by a policy are exact: a key is shown exactly when some
    allowlisted prefix starts it, and a common prefix is shown exactly when some key below
    it is allowed. *)
Theorem policy_listing_filter_exact p g :
  (forall k, allows_key p k = true <-> pol_prefixes p = [] \/ exists pre, pre ∈ pol_prefixes p /\ pre `prefix_of` k) /\
  (prefix_may_contain p g = true <-> exists k, g `prefix_of` k /\ allows_key p k = true).
Proof.
  split; [apply allows_key_spec|]. unfold prefix_may_contain. setoid_rewrite allows_key_spec.
  case_bool_decide as E; [by split; [exists g; auto|]|]. rewrite existsb_true. cbv zeta. split.
  - intros (pre & Hin & H%bool_decide_eq_true).
    destruct (decide (length pre <= length g)) as [Hle|Hle].
    + rewrite Nat.min_l, (take_ge pre) in H by lia. exists g. split; [done|]. right. exists pre. split; [done|].
      rewrite H. apply prefix_take.
    + rewrite Nat.min_r, (take_ge g) in H by lia. exists pre. split; [rewrite <- H; apply prefix_take|]. eauto.
  - intros (k & [t ->] & [?|(pre & Hin & [u Hu])]); [done|]. exists pre. split; [done|].
    apply bool_decide_eq_true. rewrite <- (take_app_le g t (Nat.min _ _)) by lia. rewrite Hu, take_app_le by lia. done.
Qed.
