(* ===== verification/Headers.v ===== *)
(** HTTP header table and byte-count parsing ([src/src/http/model.h]). *)

From S2P Require Import Prelude Bytes.
From Stdlib Require Import ZArith Lia.
From stdpp Require Import base list sets strings.

(** * Data *)

(** [items_], [tags_] (in lockstep) and the 256-bit set [present_] as its four words. *)
Record HeaderMap := mkHeaders { hitems : list (bytes * bytes); htags : list Z; present : list Z }.
Definition no_present : list Z := [0; 0; 0; 0]%Z.
Definition no_headers : HeaderMap := mkHeaders [] [] no_present.

(** * Case folding and tags *)
Definition lower_char (c : byte) : byte := if is_upper c then zb (bz c - bz (ch "A") + bz (ch "a")) else c.

Fixpoint ieq_loop (a b : bytes) : bool :=
  match a, b with
  | x :: a', y :: b' => if bool_decide (lower_char x = lower_char y) then ieq_loop a' b' else false
  | _, _ => true
  end.
Definition ieq (a b : bytes) : bool := if (length a =? length b)%nat then ieq_loop a b else false.

(** The first and last character, the length: 64-bit times 157 against 32-bit terms,
    cut to eight bits. *)
Definition tag (key : bytes) : Z :=
  match head key, list.last key with
  | Some a, Some b =>
      let f := bz (lower_char a) in
      let l := bz (lower_char b) in
      u8 (Z.lxor (Z.lxor (u64 (Z.of_nat (length key) * 0x9D)) (u32 (f * 0x35))) (u32 (Z.shiftl l 3)))
  | _, _ => 0%Z
  end.

(** [present_[t >> 6] |= 1 << (t & 63)] and the test of that bit. *)
Definition word_of (t : Z) : nat := Z.to_nat (Z.shiftr t 6).
Definition mark (p : list Z) (t : Z) : list Z :=
  alter (λ w, Z.lor w (Z.shiftl 1 (Z.land t 63))) (word_of t) p.
Definition maybe (m : HeaderMap) (t : Z) : bool :=
  negb (Z.land (Z.shiftr (default 0%Z (present m !! word_of t)) (Z.land t 63)) 1 =? 0)%Z.

(** * Operations *)
Definition entries (m : HeaderMap) : list (Z * (bytes * bytes)) := zip (htags m) (hitems m).
Definition hit (t : Z) (key : bytes) (e : Z * (bytes * bytes)) : bool := (e.1 =? t)%Z && ieq e.2.1 key.

Definition add (key value : bytes) (m : HeaderMap) : HeaderMap :=
  let t := tag key in
  mkHeaders (hitems m ++ [(key, value)]) (htags m ++ [t]) (mark (present m) t).

(** The scan shared by the lookups; it is skipped when the tag is not present. *)
Definition scan {A} (m : HeaderMap) (key : bytes) (missing : A) (f : (Z * (bytes * bytes) -> bool) -> A) : A :=
  let t := tag key in
  if negb (maybe m t) then missing else f (hit t key).

Definition hfind (m : HeaderMap) (key : bytes) : option bytes :=
  scan m key None (λ h, (λ e, e.2.2) <$> List.find h (entries m)).
Definition has (m : HeaderMap) (key : bytes) : bool := match hfind m key with Some _ => true | None => false end.
Definition get_all (m : HeaderMap) (key : bytes) : list bytes :=
  scan m key [] (λ h, (λ e, e.2.2) <$> List.filter h (entries m)).
Definition hcount (m : HeaderMap) (key : bytes) : nat :=
  scan m key 0 (λ h, length (List.filter h (entries m))).

(** [*find_mut(key) = value]: the first match is assigned in place. *)
Fixpoint assign_first (h : Z * (bytes * bytes) -> bool) (value : bytes) (l : list (Z * (bytes * bytes)))
    : list (bytes * bytes) :=
  match l with
  | [] => []
  | e :: l' => if h e then (e.2.1, value) :: l'.*2 else e.2 :: assign_first h value l'
  end.
Definition set_header (key value : bytes) (m : HeaderMap) : HeaderMap :=
  if has m key then mkHeaders (assign_first (hit (tag key) key) value (entries m)) (htags m) (present m)
  else add key value m.

(** The compaction keeps what does not match, in order; the tag set is rebuilt. *)
Definition remove (key : bytes) (m : HeaderMap) : nat * HeaderMap :=
  scan m key (0, m) (λ h,
    let kept := List.filter (λ e, negb (h e)) (entries m) in
    let removed := length (hitems m) - length kept in
    (removed, mkHeaders (kept.*2) (kept.*1)
                (if (removed =? 0)%nat then present m else fold_left mark (kept.*1) no_present))).

(** A comma-separated list header contains a token. *)
Definition ows (c : byte) : bool := bool_decide (c = ch " ") || bool_decide (c = Byte.x09).
Fixpoint strip_front (s : bytes) : bytes :=
  match s with c :: s' => if ows c then strip_front s' else s | [] => [] end.
Definition strip_ows (s : bytes) : bytes := reverse (strip_front (reverse (strip_front s))).
Definition value_has_token (token v : bytes) : bool :=
  existsb (λ t, ieq (strip_ows t) token) (split_on (ch ",") v).
Definition has_token (m : HeaderMap) (key token : bytes) : bool :=
  scan m key false (λ h, existsb (λ e, h e && value_has_token token e.2.2) (entries m)).

(** [parse_content_length]: [None] is the rejection. *)
Fixpoint content_length_loop (v : Z) (s : bytes) : option Z :=
  match s with
  | [] => Some v
  | c :: s' =>
      if negb (is_digit c) then None
      else if ((2 ^ 64 - 1 - digit_val c) / 10 <? v)%Z then None
      else content_length_loop (u64 (v * 10 + digit_val c)) s'
  end.
Definition parse_content_length (s : bytes) : option Z :=
  if bool_decide (s = []) then None else content_length_loop 0 s.

(** * The invariant *)
Definition bit (p : list Z) (t : Z) : bool := Z.testbit (default 0%Z (p !! word_of t)) (Z.land t 63).

Record headers_wf (m : HeaderMap) : Prop := {
  wf_tags : htags m = (λ kv, tag kv.1) <$> hitems m;
  wf_words : length (present m) = 4;
  wf_present : forall t, (0 <= t < 256)%Z -> bit (present m) t = bool_decide (t ∈ htags m) }.

Lemma land63 t : Z.land t 63 = (t mod 64)%Z.
Proof. change 63%Z with (Z.ones 6). rewrite Z.land_ones by lia. done. Qed.

Lemma word_of_div t : word_of t = Z.to_nat (t / 64).
Proof. unfold word_of. rewrite Z.shiftr_div_pow2 by lia. done. Qed.

Lemma maybe_bit m t : maybe m t = bit (present m) t.
Proof.
  unfold maybe, bit. set (w := default 0%Z _). rewrite land63. pose proof (Z.mod_pos_bound t 64 ltac:(lia)).
  change 1%Z with (Z.ones 1). rewrite Z.land_ones by lia.
  rewrite <- (Z.add_0_l (t mod 64)) at 2. rewrite <- Z.shiftr_spec, Z.bit0_odd by lia.
  rewrite Zmod_odd. destruct (Z.odd _); reflexivity.
Qed.

Lemma bit_mark p t t' :
  length p = 4 -> (0 <= t < 256)%Z -> (0 <= t' < 256)%Z -> bit (mark p t) t' = bool_decide (t' = t) || bit p t'.
Proof.
  intros Hp Ht Ht'. unfold bit, mark. rewrite !land63, !word_of_div.
  pose proof (Z.mod_pos_bound t 64 ltac:(lia)). pose proof (Z.mod_pos_bound t' 64 ltac:(lia)).
  pose proof (Z.div_mod t 64 ltac:(lia)) as Dt. pose proof (Z.div_mod t' 64 ltac:(lia)) as Dt'.
  destruct (lookup_lt_is_Some_2 p (Z.to_nat (t / 64))) as [w Hw]; [lia|].
  destruct (decide (t' / 64 = t / 64)%Z) as [E|E].
  - rewrite E, list_lookup_alter_eq, Hw. cbn. rewrite Z.lor_spec, orb_comm, Z.shiftl_1_l, Z.pow2_bits_eqb by lia.
    f_equal. case_bool_decide as Hd; [subst; lia|]. apply Z.eqb_neq. lia.
  - rewrite list_lookup_alter_ne, bool_decide_eq_false_2 by (congruence || lia). done.
Qed.

Lemma length_mark p t : length (mark p t) = length p.
Proof. apply length_alter. Qed.

Lemma length_marks l p : length (fold_left mark l p) = length p.
Proof. revert p. induction l as [|t l IH]; intros p; cbn; [done|]. rewrite IH. apply length_mark. Qed.

Lemma bit_marks l p t' :
  length p = 4 -> Forall (λ t, 0 <= t < 256)%Z l -> (0 <= t' < 256)%Z ->
  bit (fold_left mark l p) t' = bool_decide (t' ∈ l) || bit p t'.
Proof.
  revert p. induction l as [|t l IH]; intros p Hp Hl Ht'; cbn [fold_left].
  { rewrite bool_decide_eq_false_2 by apply not_elem_of_nil. done. }
  apply list.Forall_cons in Hl as [Ht Hl].
  rewrite IH, bit_mark by (done || rewrite length_mark; done).
  rewrite orb_assoc. f_equal. rewrite orb_comm, <- bool_decide_or. apply bool_decide_ext. by rewrite elem_of_cons.
Qed.

Lemma tag_range k : (0 <= tag k < 256)%Z.
Proof. unfold tag. destruct (head k), (list.last k); try lia. unfold u8. apply Z.mod_pos_bound. lia. Qed.

(** * Case folding *)
Lemma ieq_spec a b : ieq a b = bool_decide (lower_char <$> a = lower_char <$> b).
Proof.
  unfold ieq. destruct (Nat.eqb_spec (length a) (length b)) as [E|E].
  - revert b E. induction a as [|x a IH]; intros [|y b] [=]; cbn; [done|]. case_bool_decide as Hd.
    + rewrite IH by done. apply bool_decide_ext. split; [by intros ->; rewrite Hd|congruence].
    + symmetry. apply bool_decide_eq_false_2. congruence.
  - symmetry. apply bool_decide_eq_false_2. intros H%(f_equal length). rewrite !length_fmap in H. done.
Qed.

(** Names equal up to case have the same tag: the filter never hides a match. *)
Lemma tag_ieq a b : ieq a b = true -> tag a = tag b.
Proof.
  rewrite ieq_spec. intros H%bool_decide_eq_true. unfold tag.
  pose proof (f_equal length H) as Hl. rewrite !length_fmap in Hl.
  pose proof (f_equal head H) as Hh. pose proof (f_equal list.last H) as Ht. rewrite !fmap_last in Ht.
  destruct a as [|x a], b as [|y b]; try done. injection Hh as Hh. rewrite Hl. cbn [head].
  destruct (list.last (x :: a)), (list.last (y :: b)); try discriminate; [|done].
  injection Ht as Ht. cbv zeta. by rewrite Hh, Ht.
Qed.

(** * What the filtered scans compute *)
Definition named (key : bytes) (kv : bytes * bytes) : bool := ieq kv.1 key.

Lemma entries_eq m : headers_wf m -> entries m = (λ kv, (tag kv.1, kv)) <$> hitems m.
Proof. intros Hw. unfold entries. rewrite (wf_tags m Hw). induction (hitems m) as [|kv l IH]; cbn; [done|]. by f_equal. Qed.

Lemma hit_named key kv : hit (tag key) key (tag kv.1, kv) = named key kv.
Proof.
  unfold hit, named. cbn. destruct (ieq kv.1 key) eqn:E; [|apply andb_false_r].
  rewrite (tag_ieq _ _ E), Z.eqb_refl. done.
Qed.

Lemma scan_absent m key :
  headers_wf m -> maybe m (tag key) = false -> Forall (λ kv, named key kv = false) (hitems m).
Proof.
  intros Hw. rewrite maybe_bit, (wf_present m Hw) by apply tag_range. intros Hn%bool_decide_eq_false.
  apply list.Forall_forall. intros kv Hin. destruct (named key kv) eqn:E; [|done]. destruct Hn.
  rewrite (wf_tags m Hw). apply list_elem_of_fmap. exists kv. split; [|done]. symmetry. by apply tag_ieq.
Qed.

Lemma filter_named key l :
  List.filter (hit (tag key) key) ((λ kv, (tag kv.1, kv)) <$> l) = (λ kv, (tag kv.1, kv)) <$> List.filter (named key) l.
Proof. induction l as [|kv l IH]; cbn; [done|]. rewrite hit_named. destruct (named key kv); cbn; by rewrite IH. Qed.

Lemma filter_none {A} (p : A -> bool) l : Forall (λ x, p x = false) l -> List.filter p l = [].
Proof. induction 1 as [|x l Hx _ IH]; cbn; [done|]. by rewrite Hx. Qed.

Lemma find_none {A} (p : A -> bool) l : Forall (λ x, p x = false) l -> List.find p l = None.
Proof. induction 1 as [|x l Hx _ IH]; cbn; [done|]. by rewrite Hx. Qed.

Lemma hfind_eq m key : headers_wf m -> hfind m key = snd <$> List.find (named key) (hitems m).
Proof.
  intros Hw. unfold hfind, scan. destruct (maybe m (tag key)) eqn:Em; cbn.
  - rewrite (entries_eq m Hw). induction (hitems m) as [|kv l IH]; cbn; [done|].
    rewrite hit_named. by destruct (named key kv).
  - by rewrite (find_none _ _ (scan_absent m key Hw Em)).
Qed.

Lemma get_all_eq m key : headers_wf m -> get_all m key = (List.filter (named key) (hitems m)).*2.
Proof.
  intros Hw. unfold get_all, scan. destruct (maybe m (tag key)) eqn:Em; cbn.
  - rewrite (entries_eq m Hw), filter_named, <- list_fmap_compose. done.
  - by rewrite (filter_none _ _ (scan_absent m key Hw Em)).
Qed.

Lemma hcount_eq m key : headers_wf m -> hcount m key = length (get_all m key).
Proof.
  intros Hw. rewrite get_all_eq by done. unfold hcount, scan. destruct (maybe m (tag key)) eqn:Em; cbn.
  - rewrite (entries_eq m Hw), filter_named, !length_fmap. done.
  - by rewrite (filter_none _ _ (scan_absent m key Hw Em)).
Qed.

Lemma has_token_eq m key token :
  headers_wf m -> has_token m key token = existsb (value_has_token token) (get_all m key).
Proof.
  intros Hw. rewrite get_all_eq by done. unfold has_token, scan. destruct (maybe m (tag key)) eqn:Em; cbn.
  - rewrite (entries_eq m Hw). induction (hitems m) as [|kv l IH]; cbn; [done|].
    rewrite hit_named. destruct (named key kv); cbn; by rewrite IH.
  - by rewrite (filter_none _ _ (scan_absent m key Hw Em)).
Qed.

(** * The invariant is kept *)
Lemma no_headers_wf : headers_wf no_headers.
Proof.
  split; [done|done|]. intros t Ht. cbn [htags no_headers].
  rewrite bool_decide_eq_false_2 by apply not_elem_of_nil. unfold bit. cbn [present no_headers].
  assert (default 0%Z (no_present !! word_of t) = 0%Z) as ->; [|apply Z.testbit_0_l].
  destruct (word_of t) as [|[|[|[|n]]]]; reflexivity.
Qed.

Lemma add_wf k v m : headers_wf m -> headers_wf (add k v m).
Proof.
  intros Hw. split; cbn.
  - by rewrite fmap_app, <- (wf_tags m Hw).
  - rewrite length_mark. apply Hw.
  - intros t Ht. rewrite bit_mark, (wf_present m Hw) by (done || apply Hw || apply tag_range).
    rewrite <- bool_decide_or. apply bool_decide_ext. rewrite elem_of_app, list_elem_of_singleton. naive_solver.
Qed.

(** Assignment to the first header of a name. *)
Fixpoint update_first (key value : bytes) (l : list (bytes * bytes)) : list (bytes * bytes) :=
  match l with
  | [] => []
  | kv :: l' => if named key kv then (kv.1, value) :: l' else kv :: update_first key value l'
  end.

Lemma assign_first_eq m key value :
  headers_wf m -> assign_first (hit (tag key) key) value (entries m) = update_first key value (hitems m).
Proof.
  intros Hw. rewrite (entries_eq m Hw). induction (hitems m) as [|kv l IH]; cbn; [done|].
  rewrite hit_named. destruct (named key kv); [|by rewrite IH]. f_equal.
  rewrite <- list_fmap_compose. apply list_fmap_id.
Qed.

Lemma update_first_keys key value l : (update_first key value l).*1 = l.*1.
Proof. induction l as [|kv l IH]; cbn; [done|]. destruct (named key kv); cbn; [done|]. by rewrite IH. Qed.

Lemma tags_of_keys (l : list (bytes * bytes)) : (λ kv, tag kv.1) <$> l = tag <$> l.*1.
Proof. by rewrite <- list_fmap_compose. Qed.

Lemma set_header_items key value m :
  headers_wf m ->
  hitems (set_header key value m) =
    if has m key then update_first key value (hitems m) else hitems m ++ [(key, value)].
Proof. intros Hw. unfold set_header. destruct (has m key); cbn; [|done]. by apply assign_first_eq. Qed.

Lemma set_header_wf key value m : headers_wf m -> headers_wf (set_header key value m).
Proof.
  intros Hw. unfold set_header. destruct (has m key); [|by apply add_wf].
  split; cbn; [|apply Hw|apply Hw]. rewrite assign_first_eq, (wf_tags m Hw) by done.
  by rewrite !tags_of_keys, update_first_keys.
Qed.

Lemma remove_eq key m :
  headers_wf m ->
  hitems (remove key m).2 = List.filter (λ kv, negb (named key kv)) (hitems m) /\
  (remove key m).1 = length (List.filter (named key) (hitems m)) /\ headers_wf (remove key m).2.
Proof.
  intros Hw. unfold remove, scan. destruct (maybe m (tag key)) eqn:Em; cbn [negb].
  2:{ pose proof (scan_absent m key Hw Em) as Hn. rewrite (filter_none (named key)) by done. split_and!; [|done|done]. cbn.
      clear Hw Em. induction Hn as [|x l Hx _ IH]; cbn; [done|]. by rewrite Hx, <- IH at 1. }
  rewrite (entries_eq m Hw).
  assert (List.filter (λ e, negb (hit (tag key) key e)) ((λ kv, (tag kv.1, kv)) <$> hitems m) =
          (λ kv, (tag kv.1, kv)) <$> List.filter (λ kv, negb (named key kv)) (hitems m)) as ->.
  { induction (hitems m) as [|kv l IH]; cbn; [done|]. rewrite hit_named. destruct (named key kv); cbn; by rewrite IH. }
  set (kept := List.filter _ (hitems m)). cbv zeta. cbn [fst snd hitems].
  assert (((λ kv, (tag kv.1, kv)) <$> kept).*2 = kept) as -> by (rewrite <- list_fmap_compose; apply list_fmap_id).
  rewrite !length_fmap.
  assert (length (hitems m) = length kept + length (List.filter (named key) (hitems m))) as Hlen.
  { unfold kept. clear. induction (hitems m) as [|kv l IH]; cbn; [done|]. destruct (named key kv); cbn; lia. }
  split; [done|]. split; [lia|]. split; cbn [htags hitems present].
  - by rewrite <- list_fmap_compose.
  - case_match; [apply Hw|]. by rewrite length_marks.
  - rewrite <- list_fmap_compose. intros t Ht. case_match eqn:E.
    + apply Nat.eqb_eq in E. rewrite (wf_present m Hw), (wf_tags m Hw) by done.
      assert (kept = hitems m) as ->; [|done]. unfold kept. clear -Hlen E. unfold kept in Hlen, E.
      assert (List.filter (named key) (hitems m) = []) as Hf by (apply nil_length_inv; lia).
      clear -Hf. induction (hitems m) as [|kv l IH]; cbn in *; [done|]. destruct (named key kv); [done|]. cbn. by rewrite IH.
    + rewrite bit_marks; [|done| |done].
      * assert (bit no_present t = false) as ->; [|by rewrite orb_false_r].
        pose proof (wf_present _ no_headers_wf t Ht) as H0. cbn in H0. rewrite H0. apply bool_decide_eq_false_2, not_elem_of_nil.
      * apply list.Forall_forall. intros x (y & -> & _)%list_elem_of_fmap. apply tag_range.
Qed.

(** * Runs *)
Inductive header_op := HAdd (k v : bytes) | HSet (k v : bytes) | HRemove (k : bytes).
Definition header_exec (o : header_op) (m : HeaderMap) : HeaderMap :=
  match o with HAdd k v => add k v m | HSet k v => set_header k v m | HRemove k => (remove k m).2 end.
Definition headers_after (ops : list header_op) : HeaderMap := fold_left (λ m o, header_exec o m) ops no_headers.

Lemma headers_after_wf ops : headers_wf (headers_after ops).
Proof.
  unfold headers_after. generalize no_headers_wf. generalize no_headers.
  induction ops as [|o ops IH]; intros m Hw; cbn; [done|]. apply IH.
  destruct o; cbn; [by apply add_wf|by apply set_header_wf|by apply remove_eq].
Qed.

Lemma named_fold k k' kv : ieq k k' = true -> named k kv = named k' kv.
Proof. unfold named. rewrite !ieq_spec. intros H%bool_decide_eq_true. by rewrite H. Qed.

Lemma named_clash k k' kv : ieq k k' = false -> named k kv = true -> named k' kv = false.
Proof.
  unfold named. rewrite !ieq_spec. rewrite !bool_decide_eq_false, bool_decide_eq_true. congruence.
Qed.

Lemma find_update_first k k' v l :
  snd <$> List.find (named k') (update_first k v l) =
    if ieq k k' then (λ _, v) <$> List.find (named k) l else snd <$> List.find (named k') l.
Proof.
  induction l as [|kv l IH]; cbn; [by case_match|]. destruct (named k kv) eqn:E; cbn.
  - change (named k' (kv.1, v)) with (named k' kv). destruct (ieq k k') eqn:Ek.
    + rewrite <- (named_fold k k' kv Ek), E. done.
    + rewrite (named_clash k k' kv Ek E). done.
  - destruct (ieq k k') eqn:Ek.
    + rewrite <- (named_fold k k' kv Ek), E. done.
    + destruct (named k' kv); [done|]. done.
Qed.

Lemma find_app_last k k' v l :
  snd <$> List.find (named k') (l ++ [(k, v)]) =
    match List.find (named k') l with Some kv => Some kv.2 | None => if ieq k k' then Some v else None end.
Proof.
  induction l as [|kv l IH]; cbn; [unfold named; cbn; by destruct (ieq k k')|]. by destruct (named k' kv).
Qed.

Lemma find_filter_other k k' l :
  List.find (named k') (List.filter (λ kv, negb (named k kv)) l) = if ieq k k' then None else List.find (named k') l.
Proof.
  induction l as [|kv l IH]; cbn; [by case_match|]. destruct (named k kv) eqn:E; cbn.
  - rewrite IH. destruct (ieq k k') eqn:Ek; [done|]. by rewrite (named_clash k k' kv Ek E).
  - rewrite IH. destruct (ieq k k') eqn:Ek; [|done]. by rewrite <- (named_fold k k' kv Ek), E.
Qed.

Lemma hfind_set m k k' v :
  headers_wf m -> hfind (set_header k v m) k' = if ieq k k' then Some v else hfind m k'.
Proof.
  intros Hw. rewrite !hfind_eq, set_header_items by (done || by apply set_header_wf).
  assert (has m k = bool_decide (is_Some (List.find (named k) (hitems m)))) as ->.
  { unfold has. rewrite hfind_eq by done. by destruct (List.find _ _). }
  destruct (List.find (named k) (hitems m)) as [kv|] eqn:Ef; cbn.
  - rewrite find_update_first, Ef. done.
  - rewrite find_app_last.
    destruct (ieq k k') eqn:Ek; [|by destruct (List.find (named k') _)].
    assert (List.find (named k') (hitems m) = None) as ->; [|done].
    rewrite <- Ef. clear -Ek. induction (hitems m) as [|kv l IH]; cbn; [done|]. rewrite (named_fold k k' kv Ek). by rewrite IH.
Qed.

(** C36: The tag-filtered header table is a case-insensitive table: after any sequence of
    add, set and remove, every lookup returns what a plain scan of the names up to case
    returns, set and remove change exactly the named header, and remove reports how many
    it took. *)
Theorem header_table_exact ops key key' value token :
  let m := headers_after ops in
  hfind m key = snd <$> List.find (λ kv, ieq kv.1 key) (hitems m) /\
  get_all m key = (List.filter (λ kv, ieq kv.1 key) (hitems m)).*2 /\
  hcount m key = length (get_all m key) /\
  has_token m key token = existsb (value_has_token token) (get_all m key) /\
  hfind (set_header key value m) key' = (if ieq key key' then Some value else hfind m key') /\
  hfind (remove key m).2 key' = (if ieq key key' then None else hfind m key') /\
  (remove key m).1 = hcount m key.
Proof.
  intros m. pose proof (headers_after_wf ops : headers_wf m) as Hw. clearbody m.
  destruct (remove_eq key m Hw) as (Hr & Hn & Hw').
  split_and!; [by apply hfind_eq|by apply get_all_eq|by apply hcount_eq|by apply has_token_eq|by apply hfind_set| |].
  - rewrite !hfind_eq, Hr, find_filter_other by done. by destruct (ieq key key').
  - by rewrite Hn, hcount_eq, get_all_eq, length_fmap.
Qed.

(** * Byte counts *)
Lemma dec_value_ge v s : forallb is_digit s = true -> (0 <= v)%Z -> (v <= dec_value v s)%Z.
Proof.
  revert v. induction s as [|c s IH]; intros v Hd Hv; cbn [dec_value]; [lia|]. cbn in Hd. apply andb_prop in Hd as [Hc Hd].
  unfold is_digit, in_range in Hc. change (bz (ch "0")) with 48%Z in Hc. change (bz (ch "9")) with 57%Z in Hc.
  unfold digit_val in *. transitivity (v * 10 + (bz c - 48))%Z; [lia|]. apply IH; [done|lia].
Qed.

Lemma content_length_loop_spec v s :
  (0 <= v < 2 ^ 64)%Z ->
  content_length_loop v s = if forallb is_digit s && (dec_value v s <? 2 ^ 64)%Z then Some (dec_value v s) else None.
Proof.
  revert v. induction s as [|c s IH]; intros v Hv; cbn [content_length_loop forallb dec_value].
  { assert ((v <? 2 ^ 64)%Z = true) as -> by lia. done. }
  destruct (is_digit c) eqn:Hc; [|done]. cbn [negb andb].
  pose proof Hc as Hc'. unfold is_digit, in_range in Hc'. change (bz (ch "0")) with 48%Z in Hc'. change (bz (ch "9")) with 57%Z in Hc'.
  assert (0 <= digit_val c < 10)%Z as Hdv by (unfold digit_val; lia).
  pose proof (Z.div_mod (2 ^ 64 - 1 - digit_val c) 10 ltac:(lia)) as Hdm.
  pose proof (Z.mod_pos_bound (2 ^ 64 - 1 - digit_val c) 10 ltac:(lia)) as Hm.
  destruct (Z.ltb_spec ((2 ^ 64 - 1 - digit_val c) / 10) v) as [Hlt|Hle].
  - destruct (forallb is_digit s) eqn:Hs; [|done]. cbn.
    pose proof (dec_value_ge (v * 10 + digit_val c) s Hs ltac:(lia)). destruct (Z.ltb_spec (dec_value (v * 10 + digit_val c) s) (2 ^ 64)); [lia|done].
  - rewrite (u64_small (v * 10 + digit_val c)) by (unfold is_u64; lia). apply IH. lia.
Qed.

(** A byte-count header is read strictly: the parser accepts exactly the non-empty
    digit strings whose value fits 64 bits, and returns that value. *)
Theorem content_length_strict s n :
  parse_content_length s = Some n <->
  s <> [] /\ forallb is_digit s = true /\ dec_value 0 s = n /\ (n < 2 ^ 64)%Z.
Proof.
  unfold parse_content_length. case_bool_decide; [naive_solver|]. rewrite content_length_loop_spec by lia.
  destruct (forallb is_digit s) eqn:Hs; cbn; [|naive_solver].
  destruct (Z.ltb_spec (dec_value 0 s) (2 ^ 64)); naive_solver lia.
Qed.
