(* ===== verification/BodyReader.v ===== *)
(** The pull-model body readers ([src/src/http/model.h], [BodyReader]) as an interface:
    the operations, the law a reader obeys while it serves a given content, and what
    reading to EOF returns. A decorator is proved once against the law, whatever reader
    it wraps; [StringBodyReader] and the snapshot reader of the in-memory backend
    discharge it. *)

From S2P Require Import Prelude Bytes Backend MemoryBackend.
From Stdlib Require Import ZArith Lia.
From stdpp Require Import base list strings.

(** An exception, or the model's own fuel (never the answer where the law holds). *)
Inductive read_error := S3Err (c : S3ErrorCode) | OutOfFuel.

(** [read] takes the size of the caller's buffer and returns the bytes put into it; none
    is EOF. *)
Class BodyReader (R : Type) := {
  br_read : nat -> R -> res read_error bytes * R;
  br_length : R -> option Z }.

(** [serves r d]: [r] has exactly the bytes [d] left to deliver. *)
Class ReaderLaw (R : Type) `{BodyReader R} := {
  serves : R -> bytes -> Prop;
  read_serves r d n :
    serves r d -> 0 < n ->
    exists c d' r', br_read n r = (Ok c, r') /\ d = c ++ d' /\ length c <= n /\ (c = [] -> d = []) /\ serves r' d';
  length_stable r d n : serves r d -> br_length (br_read n r).2 = br_length r }.

(** * Reading to EOF

    With the given buffer sizes: the bytes delivered, and how it ended. *)
Fixpoint read_all {R} `{BodyReader R} (bufs : list nat) (r : R) : bytes * res read_error unit :=
  match bufs with
  | [] => ([], Throw OutOfFuel)
  | n :: bufs' =>
      match br_read n r with
      | (Throw e, _) => ([], Throw e)
      | (Ok [], _) => ([], Ok tt)
      | (Ok c, r') => let '(d, o) := read_all bufs' r' in (c ++ d, o)
      end
  end.

Section law.
Context {R : Type} `{ReaderLaw R}.

(** A buffer more than the bytes left is enough to reach EOF. *)
Lemma read_all_serves bufs r d :
  serves r d -> Forall (λ n, 0 < n) bufs -> length d < length bufs -> read_all bufs r = (d, Ok tt).
Proof.
  revert r d. induction bufs as [|n bufs IH]; intros r d Hs Hb Hl; [cbn in Hl; lia|].
  apply list.Forall_cons in Hb as [Hn Hb]. cbn [read_all length] in *.
  destruct (read_serves r d n Hs Hn) as (c & d' & r' & -> & -> & _ & Hc & Hs').
  destruct c as [|x c]; [by rewrite Hc|].
  rewrite (IH r' d' Hs' Hb); [done|]. rewrite length_app in Hl. cbn in Hl. lia.
Qed.
End law.

(** * [StringBodyReader] *)
Record StringBodyReader := mkString { sdata : bytes; spos : nat }.
#[export] Instance string_reader : BodyReader StringBodyReader := {
  br_read n r :=
    let k := Nat.min n (length (sdata r) - spos r) in
    (Ok (substr (sdata r) (spos r) k), mkString (sdata r) (spos r + k));
  br_length r := Some (Z.of_nat (length (sdata r))) }.

#[export] Program Instance string_law : ReaderLaw StringBodyReader := {
  serves r d := spos r <= length (sdata r) /\ d = drop (spos r) (sdata r) }.
Next Obligation.
  intros r d n [Hp ->] Hn. cbn. set (k := Nat.min n _). eexists _, (drop k (drop (spos r) (sdata r))), _.
  split; [reflexivity|]. unfold substr. cbn. rewrite drop_drop, length_take, length_drop.
  split_and!; [by rewrite <- drop_drop, take_drop|lia| |lia|done].
  intros Hc%(f_equal length). rewrite length_take, length_drop in Hc. cbn in Hc. apply nil_length_inv. rewrite length_drop. lia.
Qed.
Next Obligation. done. Qed.

(** * The snapshot reader of a GET *)
#[export] Instance blob_reader : BodyReader BlobReader := {
  br_read n r := let '(c, r') := blob_read n r in (Ok c, r');
  br_length r := Some (Z.of_nat (len r)) }.

#[export] Program Instance blob_law : ReaderLaw BlobReader := {
  serves r d := pos r <= len r /\ off r + len r <= length (blob r) /\ d = substr (blob r) (off r + pos r) (len r - pos r) }.
Next Obligation.
  intros r d n (Hp & Hl & ->) Hn. cbn. set (k := Nat.min n _).
  eexists _, (substr (blob r) (off r + (pos r + k)) (len r - (pos r + k))), _. split; [reflexivity|]. cbn.
  unfold substr. rewrite !length_take, !length_drop. split_and!; [|lia| |lia|lia|done].
  - rewrite Nat.add_assoc, <- (drop_drop _ _ (off r + pos r)), take_take_drop. f_equal. lia.
  - intros Hc%(f_equal length). rewrite length_take, length_drop in Hc. cbn in Hc. apply nil_length_inv. rewrite length_take, length_drop. lia.
Qed.
Next Obligation. intros r d n _. cbn. done. Qed.
