(* ===== verification/FsRead.v ===== *)
(** Reading what the file data plane holds ([ExtentChainReader] and
    [FsDataStore::open_reader] in [src/src/storage/duostore/fs_data_store.cc], on the
    blocking path): the extents of an object as one body.

    The reader opens its files as it goes. [rd_view t] is the disk at system call [t], so
    that other work may go on meanwhile. An open descriptor is the content it was opened
    with: a chunk never changes once it is sealed, nor a record once it is returned. *)

From S2P Require Import Prelude Bytes Checksum Backend Codec CodecProofs FsPack DuoWorld FsData BodyReader.
From Stdlib Require Import ZArith Lia.
From stdpp Require Import base list gmap sets strings.
Import Crc.
Open Scope lights3_scope.

Record ExtentChainReader := mkReader {
  rd_opt : FsDataOptions; rd_sys : nat -> option nat; rd_view : nat -> Disk; rd_tick : nat;
  rd_extents : DataRef; idx : nat; cur_off : Z; remaining : Z; rd_total : Z;
  rd_fd : option bytes; crc_active : bool; crc_acc : Z; pack_buf : option bytes }.

(** The file an extent points into. *)
Definition file_of (d : Disk) (e : Extent.t) : option bytes :=
  match Extent.kind e with Extent.kChunk => d_chunks d !! Extent.file_id e | _ => d_packs d !! Extent.file_id e end.

Definition rd_turn (r : ExtentChainReader) : ExtentChainReader :=
  mkReader (rd_opt r) (rd_sys r) (rd_view r) (S (rd_tick r)) (rd_extents r) (idx r) (cur_off r) (remaining r) (rd_total r) (rd_fd r) (crc_active r) (crc_acc r) (pack_buf r).
Definition rd_opened (f : bytes) (active : bool) (r : ExtentChainReader) : ExtentChainReader :=
  mkReader (rd_opt r) (rd_sys r) (rd_view r) (rd_tick r) (rd_extents r) (idx r) (cur_off r) (remaining r) (rd_total r) (Some f) active 0 (pack_buf r).
Definition rd_loaded (b : bytes) (r : ExtentChainReader) : ExtentChainReader :=
  mkReader (rd_opt r) (rd_sys r) (rd_view r) (rd_tick r) (rd_extents r) (idx r) (cur_off r) (remaining r) (rd_total r) (rd_fd r) (crc_active r) (crc_acc r) (Some b).
Definition rd_moved (n crc : Z) (r : ExtentChainReader) : ExtentChainReader :=
  mkReader (rd_opt r) (rd_sys r) (rd_view r) (rd_tick r) (rd_extents r) (idx r) (cur_off r + n) (remaining r - n) (rd_total r) (rd_fd r) (crc_active r) crc (pack_buf r).
Definition advance_extent (r : ExtentChainReader) : ExtentChainReader :=
  mkReader (rd_opt r) (rd_sys r) (rd_view r) (rd_tick r) (rd_extents r) (S (idx r)) 0 (remaining r) (rd_total r) None (crc_active r) (crc_acc r) None.

Abbreviation R := (ST ExtentChainReader read_error).
Definition rd_modify (f : ExtentChainReader -> ExtentChainReader) : R unit := λ r, (Ok tt, f r).
Definition failed {A} : R A := throw (S3Err InternalError).
Definition rd_call : R nat := λ r, match rd_sys r (rd_tick r) with Some w => (Ok w, rd_turn r) | None => (Throw (S3Err InternalError), rd_turn r) end.

Definition open_extent (e : Extent.t) : R bytes :=
  r ← get_st;
  let d := rd_view r (rd_tick r) in
  _ ← rd_call;
  match file_of d e with Some f => mret f | None => failed end.

(** [pread] of at most [want] bytes. *)
Definition pread (f : bytes) (off : Z) (want : nat) : R bytes :=
  w ← rd_call; mret (substr f (Z.to_nat off) (Nat.min want (S w))).

(** The whole record: a call returns a byte at least, or the record is cut short. *)
Fixpoint load_pack (fuel : nat) (f : bytes) (e : Extent.t) (got : bytes) : R bytes :=
  match fuel with
  | 0 => mret got
  | S fuel' =>
      if (Extent.length e <=? blen got)%Z then mret got
      else
        b ← pread f (Extent.offset e + blen got) (Z.to_nat (Extent.length e - blen got));
        if bool_decide (b = []) then failed else load_pack fuel' f e (got ++ b)
  end.

(** The record in memory: on first touch it is read whole and its checksum checked. *)
Definition fetch_pack (e : Extent.t) : R bytes :=
  r ← get_st;
  match pack_buf r with
  | Some b => mret b
  | None =>
      f ← open_extent e;
      b ← load_pack (Z.to_nat (Extent.length e)) f e [];
      if negb (crc32c_of b =? Extent.crc32c e)%Z then failed else _ ← rd_modify (rd_loaded b); mret b
  end.
Definition read_pack (e : Extent.t) (n : nat) : R bytes :=
  r ← get_st;
  buf ← fetch_pack e;
  let k := Z.to_nat (Z.min (Z.of_nat n) (Z.min (Extent.length e - cur_off r) (remaining r))) in
  _ ← rd_modify (λ r', rd_moved (Z.of_nat k) (crc_acc r') r');
  _ ← rd_modify (λ r', if (cur_off r' =? Extent.length e)%Z then advance_extent r' else r');
  mret (substr buf (Z.to_nat (cur_off r)) k).

Definition open_chunk (e : Extent.t) : R bytes :=
  r ← get_st;
  match rd_fd r with
  | Some f => mret f
  | None =>
      f ← open_extent e;
      _ ← rd_modify (λ r', rd_opened f (verify_chunk_crc (rd_opt r') && (cur_off r' =? 0)%Z && (Extent.length e <=? remaining r')%Z) r');
      mret f
  end.
Definition read_chunk (e : Extent.t) (n : nat) : R bytes :=
  f ← open_chunk e;
  r ← get_st;
  let want := Z.to_nat (Z.min (Z.of_nat n) (Z.min (Extent.length e - cur_off r) (remaining r))) in
  b ← pread f (Extent.offset e + cur_off r) want;
  if bool_decide (b = []) then failed
  else
    let crc := if crc_active r then crc32c_update (crc_acc r) b else crc_acc r in
    _ ← rd_modify (rd_moved (blen b) crc);
    if (cur_off r + blen b =? Extent.length e)%Z then
      if crc_active r && negb (crc =? Extent.crc32c e)%Z then failed else _ ← rd_modify advance_extent; mret b
    else mret b.

(** A position past the last extent is out of the vector's bounds; it has no bytes left. *)
Definition chain_read (n : nat) : R bytes :=
  r ← get_st;
  if (remaining r =? 0)%Z || (n =? 0) then mret []
  else
    match rd_extents r !! idx r with
    | None => failed
    | Some e => if bool_decide (Extent.kind e = Extent.kPack) then read_pack e n else read_chunk e n
    end.

#[export] Instance chain_reader : BodyReader ExtentChainReader := { br_read := chain_read; br_length r := Some (rd_total r) }.

(** The extent the range starts in, and where. *)
Fixpoint skip_extents (es : DataRef) (off : Z) : nat * Z :=
  match es with
  | [] => (0, off)
  | e :: es' => if (Extent.length e <=? off)%Z then let '(i, o) := skip_extents es' (off - Extent.length e) in (S i, o) else (0, off)
  end.
Definition open_reader (opt : FsDataOptions) (sys : nat -> option nat) (view : nat -> Disk) (ref : DataRef) (first last : Z) : result ExtentChainReader :=
  if (last <? first)%Z || (data_total ref <=? last)%Z then Throw InternalError
  else
    let '(i, o) := skip_extents ref first in
    Ok (mkReader opt sys view 0 ref i o (last - first + 1) (last - first + 1) None false 0 None).

(** * What a disk holds *)

(** The bytes of an extent are on the disk, with their length and checksum. *)
Definition in_file (f : bytes) (e : Extent.t) (b : bytes) : Prop :=
  (0 <= Extent.offset e)%Z /\ (0 < Extent.length e)%Z /\ blen b = Extent.length e /\ crc32c_of b = Extent.crc32c e /\
  substr f (Z.to_nat (Extent.offset e)) (length b) = b.
Definition has_extent (d : Disk) (e : Extent.t) (b : bytes) : Prop := exists f, file_of d e = Some f /\ in_file f e b.

Lemma in_file_part f e b (i n : nat) :
  in_file f e b -> i + n <= length b -> substr f (Z.to_nat (Extent.offset e + Z.of_nat i)) n = substr b i n.
Proof.
  intros (Ho & _ & _ & _ & Hs) Hi. rewrite Z2Nat.inj_add, Nat2Z.id by lia. rewrite <- Hs. unfold substr.
  rewrite skipn_firstn_comm, take_take, drop_drop. f_equal. lia.
Qed.
Lemma length_substr (b : bytes) i n : i + n <= length b -> length (substr b i n) = n.
Proof. intros. unfold substr. rewrite length_take, length_drop. lia. Qed.

(** A piece of the current extent, and what is left after it. *)
Lemma split_range (b rest : bytes) (off k rem : nat) :
  off + k <= length b -> k <= rem -> take rem (drop off (b ++ rest)) = substr b off k ++ take (rem - k) (drop (off + k) (b ++ rest)).
Proof.
  intros Hk Hr. unfold substr. rewrite <- (take_drop k (take rem (drop off (b ++ rest)))), take_take, Nat.min_l by lia.
  rewrite skipn_firstn_comm, drop_drop. f_equal. rewrite drop_app_le by lia. rewrite take_app_le; [done|]. rewrite length_drop. lia.
Qed.

Section reading.
Context (bs : list bytes).

Definition held (r : ExtentChainReader) : Prop :=
  (forall t, is_Some (rd_sys r t)) /\ forall t, Forall2 (has_extent (rd_view r t)) (rd_extents r) bs.
(** The state of the current extent: an open chunk, its checksum so far, a loaded record. *)
Definition at_extent (r : ExtentChainReader) : Prop :=
  (forall f, rd_fd r = Some f -> exists e b, rd_extents r !! idx r = Some e /\ bs !! idx r = Some b /\ in_file f e b /\ Extent.kind e <> Extent.kPack /\
     (crc_active r = true -> crc_acc r = crc32c_of (take (Z.to_nat (cur_off r)) b))) /\
  (forall pb, pack_buf r = Some pb -> bs !! idx r = Some pb).
Definition in_range (r : ExtentChainReader) : Prop :=
  (0 <= cur_off r)%Z /\ (0 <= remaining r)%Z /\
  (Z.to_nat (cur_off r) + Z.to_nat (remaining r) <= length (concat (drop (idx r) bs))) /\
  ((0 < remaining r)%Z -> exists b, bs !! idx r = Some b /\ Z.to_nat (cur_off r) < length b).
Definition left_of (r : ExtentChainReader) : bytes := substr (concat (drop (idx r) bs)) (Z.to_nat (cur_off r)) (Z.to_nat (remaining r)).

Lemma reader_held r i b : held r -> bs !! i = Some b -> exists e, rd_extents r !! i = Some e /\ forall t, has_extent (rd_view r t) e b.
Proof.
  intros [_ H] Hb. destruct (Forall2_lookup_r _ _ _ _ _ (H 0) Hb) as (e & He & _). exists e. split; [done|]. intros t.
  destruct (Forall2_lookup_r _ _ _ _ _ (H t) Hb) as (e' & He' & Hh). rewrite He in He'. by injection He' as <-.
Qed.
Lemma concat_at i b : bs !! i = Some b -> concat (drop i bs) = b ++ concat (drop (S i) bs).
Proof. intros H. by rewrite (drop_S _ _ _ H). Qed.

Lemma rd_call_ok r : held r -> exists w, rd_call r = (Ok w, rd_turn r).
Proof. intros [Hs _]. unfold rd_call. destruct (Hs (rd_tick r)) as [w ->]. by exists w. Qed.
Lemma open_ok r e b : held r -> has_extent (rd_view r (rd_tick r)) e b -> exists f, in_file f e b /\ open_extent e r = (Ok f, rd_turn r).
Proof.
  intros Hh (f & Hf & Hi). exists f. split; [done|]. unfold open_extent. rewrite ST_get_bind, ST_bind_eq. destruct (rd_call_ok r Hh) as [w ->].
  rewrite Hf. done.
Qed.
Lemma pread_ok r f off want : held r -> exists k, 0 < k /\ pread f off want r = (Ok (substr f (Z.to_nat off) (Nat.min want k)), rd_turn r).
Proof. intros Hh. unfold pread. rewrite ST_bind_eq. destruct (rd_call_ok r Hh) as [w ->]. exists (S w). split; [lia|done]. Qed.

(** A record is read whole, whatever the sizes of the single reads. *)
Lemma load_ok f e b fuel r got :
  held r -> in_file f e b -> got = take (length got) b -> length b <= fuel + length got ->
  exists r', load_pack fuel f e got r = (Ok b, r') /\ exists t, r' = Nat.iter t rd_turn r.
Proof.
  intros Hh Hi. revert r got Hh. induction fuel as [|fuel IH]; intros r got Hh Hg Hf; cbn [load_pack].
  - exists r. split; [|by exists 0]. rewrite Hg, take_ge by lia. done.
  - pose proof Hi as (_ & Hl & Hb & _). assert (length got <= length b) as Hgl by (rewrite Hg, length_take; lia).
    destruct (Z.leb_spec (Extent.length e) (blen got)) as [Hle|Hlt].
    + exists r. split; [|by exists 0]. rewrite Hg, take_ge by (unfold blen in *; lia). done.
    + rewrite ST_bind_eq. set (want := Z.to_nat (Extent.length e - blen got)).
      destruct (pread_ok r f (Extent.offset e + blen got) want Hh) as (k & Hk & ->).
      assert (want = length b - length got) as Hw by (unfold want, blen in *; lia). rewrite Hw. change (blen got) with (Z.of_nat (length got)).
      rewrite (in_file_part f e b (length got)) by (done || lia). set (k' := Nat.min _ k).
      assert (0 < k') by (unfold k', blen in *; lia). rewrite bool_decide_false by (intros E%(f_equal length); rewrite length_substr in E; cbn in E; lia).
      destruct (IH (rd_turn r) (got ++ substr b (length got) k')) as (r' & E & t & Ht).
      * destruct Hh. by split.
      * rewrite length_app, length_substr by lia. rewrite Hg at 1. unfold substr. by rewrite take_take_drop.
      * rewrite length_app, length_substr by lia. lia.
      * exists r'. split; [done|]. exists (S t). rewrite Ht. by rewrite <- Nat.iter_succ_r.
Qed.

Lemma held_iter t r : held r -> held (Nat.iter t rd_turn r).
Proof. intros [H1 H2]. induction t as [|t [IH1 IH2]]; [by split|]. split; cbn; [exact IH1|exact IH2]. Qed.

Definition serving (r : ExtentChainReader) : Prop := held r /\ in_range r /\ at_extent r.

(** The reader after [k] bytes of the extent with bytes [b]. *)
Definition lands (r : ExtentChainReader) (b : bytes) (k : nat) (r' : ExtentChainReader) : Prop :=
  held r' /\ rd_total r' = rd_total r /\ remaining r' = (remaining r - Z.of_nat k)%Z /\
  if Z.to_nat (cur_off r) + k =? length b
  then idx r' = S (idx r) /\ cur_off r' = 0%Z /\ rd_fd r' = None /\ pack_buf r' = None
  else idx r' = idx r /\ cur_off r' = (cur_off r + Z.of_nat k)%Z /\ at_extent r'.

Lemma lands_serving r b k r' :
  serving r -> bs !! idx r = Some b -> Z.to_nat (cur_off r) + k <= length b -> k <= Z.to_nat (remaining r) -> lands r b k r' ->
  serving r' /\ left_of r = substr b (Z.to_nat (cur_off r)) k ++ left_of r'.
Proof.
  intros (Hh & (R1 & R2 & R3 & R4) & Ha) Hb Hk Hr (Hh' & _ & Er & Hc). unfold serving, in_range, left_of. rewrite (concat_at _ _ Hb) in *.
  set (off := Z.to_nat (cur_off r)) in *. set (rem := Z.to_nat (remaining r)) in *. assert (Z.to_nat (remaining r') = rem - k) as Hrem by (unfold rem in *; lia).
  unfold substr at 1. rewrite (split_range b _ off k rem) by lia. rewrite length_app in R3.
  destruct (Nat.eqb_spec (off + k) (length b)) as [Ee|Ene]; destruct Hc as (Ei & Eo & Hx); rewrite Ei, Eo, Hrem.
  - destruct Hx as [Ef Ep]. split; [|by rewrite drop_app_ge, Ee, Nat.sub_diag by lia]. split; [done|]. split.
    + split; [lia|]. split; [unfold rem in *; lia|]. split; [cbn [Z.to_nat]; unfold rem in *; lia|]. intros Hpos.
      destruct (drop (S (idx r)) bs) as [|b' l] eqn:Ed; [cbn in R3; unfold rem in *; lia|]. exists b'.
      assert (bs !! S (idx r) = Some b') as Hb' by (rewrite <- (Nat.add_0_r (S (idx r))), <- lookup_drop, Ed; done). split; [done|].
      destruct (reader_held r _ _ Hh Hb') as (e & _ & He). destruct (He 0) as (f & _ & _ & H1 & H2 & _). unfold blen in H2. lia.
    + split; [rewrite Ef; done|rewrite Ep; done].
  - rewrite Z2Nat.inj_add, Nat2Z.id by lia. fold off. rewrite <- (concat_at _ _ Hb). split; [|done]. split; [done|]. split; [|done].
    rewrite (concat_at _ _ Hb), length_app. split; [lia|]. split; [unfold rem in *; lia|]. split; [lia|]. intros _. exists b. split; [done|]. unfold off in *. lia.
Qed.

(** How many bytes a call is to deliver: at least one. *)
Lemma piece r e b n (k := Z.to_nat (Z.min (Z.of_nat n) (Z.min (Extent.length e - cur_off r) (remaining r)))) :
  in_range r -> (0 < remaining r)%Z -> bs !! idx r = Some b -> blen b = Extent.length e -> 0 < n ->
  0 < k /\ k <= n /\ Z.to_nat (cur_off r) + k <= length b /\ k <= Z.to_nat (remaining r).
Proof.
  intros (R1 & R2 & _ & R4) Hr Hb Hl Hn. destruct (R4 Hr) as (b' & Hb' & Hlt). rewrite Hb in Hb'. injection Hb' as <-.
  unfold k, blen in *. split; [|split; [|split]]; lia.
Qed.

(** The fields a system call leaves. *)
Definition same_place (r r' : ExtentChainReader) : Prop :=
  idx r' = idx r /\ cur_off r' = cur_off r /\ remaining r' = remaining r /\ rd_total r' = rd_total r /\ rd_extents r' = rd_extents r /\ rd_fd r' = rd_fd r /\
  crc_active r' = crc_active r /\ crc_acc r' = crc_acc r.
Lemma same_place_iter t r : same_place r (Nat.iter t rd_turn r) /\ pack_buf (Nat.iter t rd_turn r) = pack_buf r.
Proof. induction t as [|t [IH1 IH2]]; [done|]. by split. Qed.

Lemma fetch_ok r e b :
  serving r -> bs !! idx r = Some b -> has_extent (rd_view r (rd_tick r)) e b ->
  exists r', fetch_pack e r = (Ok b, r') /\ held r' /\ pack_buf r' = Some b /\ same_place r r'.
Proof.
  intros (Hh & _ & Ha) Hb Hx. unfold fetch_pack. rewrite ST_get_bind. destruct (pack_buf r) as [pb|] eqn:Epb.
  - pose proof (proj2 Ha pb Epb) as Hpb. rewrite Hb in Hpb. injection Hpb as <-. exists r. done.
  - destruct (open_ok r e b Hh Hx) as (f & Hf & Eo). rewrite ST_bind_eq, Eo, ST_bind_eq. pose proof Hf as (_ & _ & Hl & Hcrc & _).
    destruct (load_ok f e b (Z.to_nat (Extent.length e)) (rd_turn r) []) as (r1 & El & t & Ht); [by destruct Hh|done|done|unfold blen in Hl; cbn; lia|].
    rewrite El, Hcrc, Z.eqb_refl. cbn [negb]. eexists. split; [reflexivity|]. subst r1. pose proof (held_iter t (rd_turn r) Hh) as [H1 H2].
    split; [by split|]. split; [done|]. exact (proj1 (same_place_iter t (rd_turn r))).
Qed.

Lemma read_pack_ok r e b n :
  serving r -> (0 < remaining r)%Z -> bs !! idx r = Some b -> rd_extents r !! idx r = Some e -> (forall t, has_extent (rd_view r t) e b) ->
  Extent.kind e = Extent.kPack -> 0 < n ->
  exists k r', read_pack e n r = (Ok (substr b (Z.to_nat (cur_off r)) k), r') /\ (0 < k <= n) /\ Z.to_nat (cur_off r) + k <= length b /\ k <= Z.to_nat (remaining r) /\ lands r b k r'.
Proof.
  intros Hs Hpos Hb He Hx Hkind Hn. pose proof Hs as (Hh & Hr & Ha). destruct (Hx (rd_tick r)) as (f0 & _ & (_ & _ & Hl & _)).
  destruct (piece r e b n Hr Hpos Hb Hl Hn) as (K1 & K2 & K3 & K4). set (k := Z.to_nat _) in *.
  destruct (fetch_ok r e b Hs Hb (Hx _)) as (r1 & E1 & Hh1 & Ep & Ei & Eo & Er & Et & Ee & Ef & Ec & Ea).
  exists k. unfold read_pack. rewrite ST_get_bind. fold k.
  rewrite ST_bind_eq, E1. cbn -[substr]. eexists. split; [reflexivity|]. split; [lia|]. split; [done|]. split; [done|].
  unfold lands. pose proof Hr as (R1 & R2 & _). unfold blen in Hl. change (cur_off (rd_moved (Z.of_nat k) (crc_acc r1) r1)) with (cur_off r1 + Z.of_nat k)%Z. rewrite Eo.
  destruct (Z.eqb_spec (cur_off r + Z.of_nat k) (Extent.length e)); destruct (Nat.eqb_spec (Z.to_nat (cur_off r) + k) (length b)); try lia; cbn; rewrite Et, Er, Ei.
  - by destruct Hh1.
  - split; [by destruct Hh1|]. split; [done|]. split; [done|]. split; [done|]. split; [lia|]. split; cbn.
    + rewrite Ef. intros f Hf. destruct (proj1 Ha f Hf) as (e' & b' & He' & _ & _ & Hk & _). rewrite He in He'. injection He' as <-. done.
    + rewrite Ep, Ei. intros pb [= <-]. done.
Qed.
Lemma open_chunk_ok r e b :
  serving r -> bs !! idx r = Some b -> rd_extents r !! idx r = Some e -> has_extent (rd_view r (rd_tick r)) e b -> Extent.kind e <> Extent.kPack ->
  exists f r', open_chunk e r = (Ok f, r') /\ held r' /\ in_file f e b /\ rd_fd r' = Some f /\ idx r' = idx r /\ cur_off r' = cur_off r /\ remaining r' = remaining r /\
    rd_total r' = rd_total r /\ rd_extents r' = rd_extents r /\ pack_buf r' = pack_buf r /\ (crc_active r' = true -> crc_acc r' = crc32c_of (take (Z.to_nat (cur_off r)) b)).
Proof.
  intros (Hh & _ & Ha) Hb He Hx Hkind. unfold open_chunk. rewrite ST_get_bind. destruct (rd_fd r) as [f|] eqn:Ef.
  - destruct (proj1 Ha f Ef) as (e' & b' & He' & Hb' & Hi & _ & Hc). rewrite He in He'. injection He' as <-. rewrite Hb in Hb'. injection Hb' as <-. exists f, r. done.
  - destruct (open_ok r e b Hh Hx) as (f & Hf & Eo). rewrite ST_bind_eq, Eo. exists f. eexists. split; [reflexivity|]. cbn.
    split; [by destruct Hh|]. repeat (split; [done|]). intros [[_ H0]%andb_true_iff _]%andb_true_iff. apply Z.eqb_eq in H0. rewrite H0. reflexivity.
Qed.

Lemma read_chunk_ok r e b n :
  serving r -> (0 < remaining r)%Z -> bs !! idx r = Some b -> rd_extents r !! idx r = Some e -> (forall t, has_extent (rd_view r t) e b) ->
  Extent.kind e <> Extent.kPack -> 0 < n ->
  exists k r', read_chunk e n r = (Ok (substr b (Z.to_nat (cur_off r)) k), r') /\ (0 < k <= n) /\ Z.to_nat (cur_off r) + k <= length b /\ k <= Z.to_nat (remaining r) /\ lands r b k r'.
Proof.
  intros Hs Hpos Hb He Hx Hkind Hn. pose proof Hs as (Hh & Hr & Ha). destruct (open_chunk_ok r e b Hs Hb He (Hx _) Hkind) as (f & r1 & E1 & Hh1 & Hi & Ef & Ei & Eo & Er & Et & Ee & Ep & Hc).
  pose proof Hi as (_ & _ & Hl & Hcrc & _). destruct (piece r e b n Hr Hpos Hb Hl Hn) as (K1 & K2 & K3 & K4). unfold read_chunk. rewrite ST_bind_eq, E1, ST_get_bind, Eo, Er.
  set (want := Z.to_nat (Z.min _ _)) in *. rewrite ST_bind_eq. destruct (pread_ok r1 f (Extent.offset e + cur_off r) want Hh1) as (k0 & Hk0 & ->).
  pose proof Hr as (R1 & R2 & _). set (k := Nat.min want k0) in *. replace (Extent.offset e + cur_off r)%Z with (Extent.offset e + Z.of_nat (Z.to_nat (cur_off r)))%Z by lia.
  rewrite (in_file_part f e b) by (done || lia). set (off := Z.to_nat (cur_off r)) in *. assert (length (substr b off k) = k) as Hlen by (apply length_substr; lia).
  rewrite bool_decide_false by (intros E%(f_equal length); rewrite Hlen in E; cbn in E; lia). unfold blen in Hl |- *. rewrite Hlen.
  set (crc := if crc_active r1 then _ else _).
  assert (crc_active r1 = true -> crc = crc32c_of (take (off + k) b)) as Hcrc'.
  { intros Hact. unfold crc. rewrite Hact, (Hc Hact). unfold crc32c_of, crc32c_update. rewrite <- table_crc_app. f_equal. unfold substr. apply take_take_drop. }
  exists k. rewrite ST_bind_eq. cbn [rd_modify]. destruct (Z.eqb_spec (cur_off r + Z.of_nat k) (Extent.length e)) as [Eq|Ne].
  - assert (crc_active r1 && negb (crc =? Extent.crc32c e)%Z = false) as ->.
    { destruct (crc_active r1) eqn:Eact; [|done]. rewrite (Hcrc' eq_refl), take_ge, Hcrc, Z.eqb_refl by (unfold off; lia). done. }
    eexists. split; [reflexivity|]. split; [lia|]. split; [lia|]. split; [lia|]. unfold lands. fold off.
    destruct (Nat.eqb_spec (off + k) (length b)); [|unfold off in *; lia]. cbn. rewrite Er, Et, Ei. by destruct Hh1.
  - eexists. split; [reflexivity|]. split; [lia|]. split; [lia|]. split; [lia|]. unfold lands. fold off.
    destruct (Nat.eqb_spec (off + k) (length b)); [unfold off in *; lia|]. cbn. rewrite Er, Et, Ei, Eo. split; [by destruct Hh1|]. repeat (split; [done|]). split; cbn.
    + rewrite Ef, Ei, Ee, Eo. intros f' [= <-]. exists e, b. repeat (split; [done|]). replace (Z.to_nat (cur_off r + Z.of_nat k)) with (off + k) by (unfold off; lia). done.
    + rewrite Ep, Ei. exact (proj2 Ha).
Qed.
(** One read: a non-empty piece, or the end. *)
Lemma chain_read_ok r n :
  serving r -> 0 < n ->
  exists c r', chain_read n r = (Ok c, r') /\ serving r' /\ left_of r = c ++ left_of r' /\ length c <= n /\ (c = [] -> left_of r = []) /\ rd_total r' = rd_total r.
Proof.
  intros Hs Hn. pose proof Hs as (Hh & Hr & Ha). pose proof Hr as (R1 & R2 & R3 & R4). unfold chain_read. rewrite ST_get_bind.
  destruct (Z.eqb_spec (remaining r) 0) as [E0|Hne]; cbn [orb].
  - exists [], r. repeat (split; [done || (cbn; lia)|]). split; [|done]. intros _. unfold left_of. rewrite E0. done.
  - destruct (Nat.eqb_spec n 0); [lia|]. destruct (R4 ltac:(lia)) as (b & Hb & Hlt). destruct (reader_held r _ _ Hh Hb) as (e & He & Hx). rewrite He.
    assert (exists k r', (if bool_decide (Extent.kind e = Extent.kPack) then read_pack e n else read_chunk e n) r = (Ok (substr b (Z.to_nat (cur_off r)) k), r') /\
      (0 < k <= n) /\ Z.to_nat (cur_off r) + k <= length b /\ k <= Z.to_nat (remaining r) /\ lands r b k r') as (k & r' & E & K1 & K2 & K3 & Hla).
    { case_bool_decide as Hk; [apply read_pack_ok|apply read_chunk_ok]; (done || lia). }
    destruct (lands_serving r b k r' Hs Hb K2 K3 Hla) as [Hs' El]. assert (length (substr b (Z.to_nat (cur_off r)) k) = k) as Hlen by (by apply length_substr).
    eexists _, r'. split; [exact E|]. split; [done|]. split; [done|]. split; [lia|]. split; [|by destruct Hla as (_ & ? & _)].
    intros Hn0%(f_equal length). rewrite Hlen in Hn0. cbn in Hn0. lia.
Qed.
End reading.

(** * The law of a body reader *)
#[export] Program Instance chain_law : ReaderLaw ExtentChainReader := { serves r d := exists bs, serving bs r /\ d = left_of bs r }.
Next Obligation.
  intros r d n (bs & Hs & ->) Hn. destruct (chain_read_ok bs r n Hs Hn) as (c & r' & E & Hs' & El & Hc & He & _).
  exists c, (left_of bs r'), r'. repeat (split; [done|]). by exists bs.
Qed.
Next Obligation.
  intros r d n (bs & Hs & ->). cbn. destruct n as [|n]; [unfold chain_read; by rewrite ST_get_bind, orb_true_r|].
  destruct (chain_read_ok bs r (S n) Hs ltac:(lia)) as (c & r' & -> & _ & _ & _ & _ & Et). cbn. by rewrite Et.
Qed.

(** * A range of an object *)

(** The disk holds the bytes [d] under the extents [ref]. *)
Definition has_ref (dk : Disk) (ref : DataRef) (d : bytes) : Prop := exists bs, Forall2 (has_extent dk) ref bs /\ d = concat bs.

Lemma extents_total dk ref bs : Forall2 (has_extent dk) ref bs -> (blen (concat bs) < 2 ^ 64)%Z -> data_total ref = blen (concat bs).
Proof.
  intros H Hl. unfold data_total. enough (forall z, 0 <= z -> z + blen (concat bs) < 2 ^ 64 -> fold_left (λ sum e, (sum +₆₄ Extent.length e)%L3) ref z = z + blen (concat bs))%Z as Hg.
  { rewrite (Hg 0%Z); lia. }
  clear Hl. induction H as [|e b ref bs (f & _ & _ & Hp & Hb & _) _ IH]; intros z Hz Hlt; cbn [fold_left concat]; [unfold blen; cbn; lia|].
  cbn [concat] in Hlt. rewrite blen_cat in *. rewrite u64_small by (unfold is_u64; unfold blen in *; lia). rewrite IH; lia.
Qed.

Lemma skip_spec dk ref bs off : Forall2 (has_extent dk) ref bs -> (0 <= off < blen (concat bs))%Z ->
  exists i o, skip_extents ref off = (i, o) /\ (0 <= o)%Z /\ drop (Z.to_nat off) (concat bs) = drop (Z.to_nat o) (concat (drop i bs)) /\
    exists b, bs !! i = Some b /\ Z.to_nat o < length b.
Proof.
  intros H. revert off. induction H as [|e b ref bs (f & _ & _ & Hp & Hb & _) _ IH]; intros off Ho; cbn [skip_extents concat] in *; [unfold blen in Ho; cbn in Ho; lia|].
  rewrite blen_cat in Ho. destruct (Z.leb_spec (Extent.length e) off).
  - destruct (IH (off - Extent.length e)%Z ltac:(lia)) as (i & o & -> & Ho' & Hd & Hx). exists (S i), o. split; [done|]. split; [done|]. split; [|exact Hx].
    cbn [drop]. rewrite <- Hd. rewrite drop_app_ge by (unfold blen in *; lia). f_equal. unfold blen in *. lia.
  - exists 0, off. split; [done|]. split; [lia|]. split; [done|]. exists b. split; [done|]. unfold blen in *. lia.
Qed.

(** A range within the object opens, and the reader serves exactly its bytes. *)
Lemma open_serves opt sys view ref d first last :
  (forall t, is_Some (sys t)) -> (exists bs, (forall t, Forall2 (has_extent (view t)) ref bs) /\ d = concat bs) ->
  (blen d < 2 ^ 64)%Z -> (0 <= first <= last)%Z -> (last < blen d)%Z ->
  exists r, open_reader opt sys view ref first last = Ok r /\ br_length r = Some (last - first + 1)%Z /\
    serves r (substr d (Z.to_nat first) (Z.to_nat (last - first + 1))).
Proof.
  intros Hsys (bs & Hv & ->) Hd Hf Hl. unfold open_reader. rewrite (extents_total _ _ _ (Hv 0) Hd).
  destruct (Z.ltb_spec last first); [lia|]. destruct (Z.leb_spec (blen (concat bs)) last); [lia|]. cbn [orb].
  destruct (skip_spec _ _ _ first (Hv 0) ltac:(lia)) as (i & o & -> & Ho & Ed & Hx). eexists. split; [done|]. split; [done|]. exists bs. split; [|unfold left_of, substr; cbn; by rewrite Ed].
  split; [done|]. split; [|done]. split; [done|]. split; [cbn; lia|]. split; [|done]. cbn. apply (f_equal length) in Ed. rewrite !length_drop in Ed.
  destruct Hx as (b & Hb & Hlt). rewrite (concat_at bs i b Hb) in Ed |- *. rewrite length_app in Ed |- *. unfold blen in *. lia.
Qed.
