(* ===== verification/FsProofs.v ===== *)
(** The file data plane: what its writers leave on the disk.

    A relation between the state before and after is carried through the monad once
    ([Keeps]); the writers are then specified by what they add ([grows]) and by the data
    they hold ([cw_ok]), the packs by what they protect ([secure]). *)

From S2P Require Import Prelude Bytes Checksum Backend Codec CodecProofs MetaUtil RocksMeta FsPack DuoWorld FsData BodyReader FsRead.
From Stdlib Require Import ZArith Lia.
From stdpp Require Import base list gmap sets strings relations.
Import Crc.
Open Scope lights3_scope.

(** * Relations a computation keeps *)
Class Keeps {S E A : Type} (R : S -> S -> Prop) (m : ST S E A) : Prop := keeps s : R s (m s).2.

Section keeps.
Context {S E : Type} (R : S -> S -> Prop) `{!PreOrder R}.
#[export] Instance keeps_ret {A} (a : A) : Keeps R (mret a : ST S E A).
Proof. intros s. reflexivity. Qed.
#[export] Instance keeps_throw {A} (e : E) : Keeps R (throw e : ST S E A).
Proof. intros s. reflexivity. Qed.
#[export] Instance keeps_get : Keeps R (get_st : ST S E S).
Proof. intros s. reflexivity. Qed.
#[export] Instance keeps_lift {A} (r : res E A) : Keeps R (lift r : ST S E A).
Proof. intros s. reflexivity. Qed.
#[export] Instance keeps_bind {A B} (m : ST S E A) (f : A -> ST S E B) : Keeps R m -> (forall a, Keeps R (f a)) -> Keeps R (m ≫= f).
Proof.
  intros Hm Hf s. specialize (Hm s). rewrite ST_bind_eq. destruct (m s) as [[a|e] s1]; cbn in *; [|done].
  transitivity s1; [done|]. apply Hf.
Qed.
#[export] Instance keeps_if {A} (b : bool) (m n : ST S E A) : Keeps R m -> Keeps R n -> Keeps R (if b then m else n).
Proof. by destruct b. Qed.
#[export] Instance keeps_option {A X} (o : option X) (f : X -> ST S E A) (m : ST S E A) :
  (forall x, Keeps R (f x)) -> Keeps R m -> Keeps R (match o with Some x => f x | None => m end).
Proof. by destruct o. Qed.
End keeps.
#[export] Hint Extern 5 (Keeps _ _) => progress (intros; cbv beta zeta) : typeclass_instances.

Lemma run_keeps {S E A} (R : S -> S -> Prop) (m : ST S E A) s r s' : Keeps R m -> m s = (r, s') -> R s s'.
Proof. intros H E0. specialize (H s). by rewrite E0 in H. Qed.

(** Split the run of a bind into its two ways. *)
Ltac runs H x E := let a := fresh "a" in let e := fresh "err" in let He := fresh "He" in
  apply ST_bind_run in H as [(a & x & E & H)|(e & E & He)];
  [match type of a with unit => destruct a | _ => idtac end|first [discriminate He | match type of He with ?r = _ => subst r end]].

(** The configuration rejects a chunk size below 4 KiB. *)
Class FsOptionsOk (opt : FsDataOptions) : Prop := chunk_pos : (0 < chunk_size opt)%Z.

Section proofs.
Context {M : Type} {hooks : FsHooks M}.
Context (opt : FsDataOptions) (sys : nat -> option nat) (clock : nat -> Z) (busy : nat -> nat -> bool).
Abbreviation F := (ST (Fs M) S3ErrorCode).
Abbreviation chunks s := (d_chunks (disk s)).
Abbreviation packs s := (d_packs (disk s)).

(** ** Calls that touch no file *)
Definition still (s s' : Fs M) : Prop := disk s' = disk s /\ slots s' = slots s /\ seal_retry s' = seal_retry s /\ fs_pins s' = fs_pins s.
#[export] Instance still_preorder : PreOrder still.
Proof. split; [done|]. intros a b c (A1 & A2 & A3 & A4) (B1 & B2 & B3 & B4). unfold still. by rewrite B1, B2, B3, B4. Qed.
#[export] Instance still_syscall : Keeps still (syscall sys : F _).
Proof. done. Qed.
#[export] Instance still_must : Keeps still (must sys : F _).
Proof. unfold must. apply _. Qed.
Lemma must_run (s : Fs M) r s' : must sys s = (r, s') -> s' = turn s /\ (r = Ok tt <-> is_Some (sys (ticks s))).
Proof. unfold must. rewrite ST_bind_eq. cbn. destruct (sys (ticks s)); intros [= <- <-]; (split; [done|]); split; try done; by intros [? ?]. Qed.
#[export] Instance still_now : Keeps still (steady_now clock : F _).
Proof. done. Qed.
#[export] Instance still_hook {A} (f : M -> result A * M) : Keeps still (hook f).
Proof. intros s. unfold hook. by destruct (f (hooked s)). Qed.
#[export] Instance still_dirs f : Keeps still (fs_modify (λ s : Fs M, set_dirs (f s) s)).
Proof. done. Qed.
#[export] Instance still_subdir p n : Keeps still (subdir_fd sys p n : F _).
Proof. unfold subdir_fd. apply _. Qed.
#[export] Instance still_sync l : Keeps still (sync_dirs sys l : F _).
Proof. induction l; cbn [sync_dirs]; apply _. Qed.

(** * Chunk writers *)
Abbreviation CW := (Fs M * ChunkWriter)%type.
Definition own (w : ChunkWriter) : list Z := (Extent.file_id <$> extents w) ++ (if cw_fd w then [cur_id w] else []).

(** What a writer does to the store: files of its own come up, nothing else changes. *)
Record grows (x y : CW) : Prop := {
  gr_own i : i ∈ own x.2 -> i ∈ own y.2;
  gr_rest i : i ∉ own y.2 -> chunks y.1 !! i = chunks x.1 !! i;
  gr_new i : i ∈ own y.2 -> i ∈ own x.2 \/ chunks x.1 !! i = None;
  gr_packs : packs y.1 = packs x.1 /\ slots y.1 = slots x.1 /\ seal_retry y.1 = seal_retry x.1;
  gr_pins : exists new, pinned y.2 = pinned x.2 ++ new /\ fs_pins y.1 = fold_left (λ t i, pin_id i t) new (fs_pins x.1);
  gr_finished : finished y.2 = finished x.2 }.
#[export] Instance grows_preorder : PreOrder grows.
Proof.
  split.
  - intros x. split; try done; [by left|]. exists []. by rewrite app_nil_r.
  - intros x y z [A1 A2 A3 A4 A5 A6] [B1 B2 B3 B4 B5 B6]. split.
    + auto.
    + intros i Hi. rewrite B2 by done. apply A2. auto.
    + intros i Hi. destruct (B3 i Hi) as [Hy|Hn]; [auto|]. destruct (decide (i ∈ own y.2)) as [Hy|Hy]; [auto|]. right. by rewrite <- A2.
    + destruct A4 as (-> & -> & ->) in B4. done.
    + destruct A5 as (n1 & P1 & Q1), B5 as (n2 & P2 & Q2). exists (n1 ++ n2). by rewrite P2, P1, Q2, Q1, fold_left_app, app_assoc.
    + congruence.
Qed.

Lemma still_grows s s' w : still s s' -> grows (s, w) (s', w).
Proof.
  intros (E1 & E2 & E3 & E4). split; cbn; rewrite ?E1, ?E2, ?E3, ?E4; try done; [by left|]. exists []. by rewrite app_nil_r.
Qed.
Lemma on_fs_grows {A} (m : F A) (Hm : Keeps still m) x r y : on_fs m x = (r, y) -> grows x y /\ y.2 = x.2 /\ still x.1 y.1.
Proof.
  unfold on_fs. destruct x as [s w]. cbn. destruct (m s) as [r0 s0] eqn:E. intros [= <- <-]. pose proof (run_keeps still m s r0 s0 Hm E). by split; [apply still_grows|].
Qed.

(** The fields a refilled run leaves. *)
Definition only_run (w w' : ChunkWriter) : Prop :=
  extents w' = extents w /\ pinned w' = pinned w /\ cw_fd w' = cw_fd w /\ cur_id w' = cur_id w /\ cur_len w' = cur_len w /\ cur_crc w' = cur_crc w /\ finished w' = finished w.
Lemma only_run_grows s s' w w' : still s s' -> only_run w w' -> grows (s, w) (s', w').
Proof.
  intros Hs (E1 & E2 & E3 & E4 & _ & _ & E7). transitivity (s', w); [by apply still_grows|]. unfold own. split; cbn; unfold own; rewrite ?E1, ?E2, ?E3, ?E4, ?E7; try done; [by left|].
  exists []. by rewrite app_nil_r.
Qed.
Lemma refill_run_only s w r s' w' : refill_run (s, w) = (r, (s', w')) -> still s s' /\ only_run w w'.
Proof.
  unfold refill_run. intros H. runs H x E; [|done]. injection E as <- <-. cbn in H. destruct (run_next w =? run_limit w)%Z; [|by injection H as _ <- <-].
  runs H x E; [|done]. injection E as <-. runs H x E; unfold on_fs in E; cbn in E; destruct (hook _ s) as [o s1] eqn:Eh; apply (run_keeps still) in Eh; try apply _.
  - injection E as -> <-. injection H as _ <- <-. done.
  - injection E as -> <- <-. done.
Qed.

Lemma create_chunk_run s r s' id :
  create_chunk sys id s = (r, s') ->
  match r with
  | Ok _ => chunks s !! id = None /\ chunks s' = <[id := []]> (chunks s) /\ packs s' = packs s /\ slots s' = slots s /\ seal_retry s' = seal_retry s /\ fs_pins s' = fs_pins s
  | Throw _ => still s s'
  end.
Proof.
  unfold create_chunk. intros H. runs H s1 E; apply (run_keeps still) in E; try apply _; [|done]. rewrite ST_get_bind in H. destruct E as (E1 & E2 & E3 & E4).
  case_bool_decide as Hx; injection H as <- <-; [done|]. cbn. rewrite E1, E2, E3, E4 in *. split; [|done]. by apply eq_None_not_Some.
Qed.

Lemma open_next_run s w r s' w' :
  cw_fd w = false -> open_next_chunk sys (s, w) = (r, (s', w')) ->
  grows (s, w) (s', w') /\
  match r with
  | Ok _ => cw_fd w' = true /\ cur_len w' = 0%Z /\ cur_crc w' = 0%Z /\ extents w' = extents w /\ chunks s !! cur_id w' = None /\
            chunks s' = <[cur_id w' := []]> (chunks s) /\ pinned w' = pinned w ++ [cur_id w']
  | Throw _ => True
  end.
Proof.
  intros Hfd H. unfold open_next_chunk in H. runs H x E; [destruct x as [s1 w1]|]; apply refill_run_only in E as [Hs Ho]; [|split; [by apply only_run_grows|done]].
  pose proof (only_run_grows _ _ _ _ Hs Ho) as Hg. destruct Ho as (O1 & O2 & O3 & O4 & O5 & O6 & O7). rewrite Hfd in O3.
  runs H x E; [|done]. injection E as <-. runs H x E; [|done]. injection E as <- <-. cbn [fst snd] in H.
  runs H x E; [|done]. injection E as <-. runs H x E; [|done]. injection E as <-. cbn [fst snd] in H.
  set (w2 := add_pinned (take_id w1)) in *. set (s2 := set_pins _ s1) in *.
  assert (grows (s1, w1) (s2, w2)) as Hg2.
  { split; cbn; unfold own; cbn; rewrite ?O3; try done; [by left|]. exists [run_next w1]. done. }
  runs H x E; [destruct x as [s3 w3]|]; apply on_fs_grows in E as (Hg3 & Ew & Hs3); try apply _; cbn in Ew, Hs3; [subst w3|split; [by transitivity (s1, w1); [|transitivity (s2, w2)]|done]].
  assert (grows (s, w) (s3, w2)) as Hg' by (transitivity (s1, w1); [done|]; by transitivity (s2, w2)).
  assert (chunks s3 = chunks s) as Hc by (destruct Hs3 as (-> & _); destruct Hs as (H1 & _); cbn; by rewrite H1).
  runs H x E; [destruct x as [s4 w4]|]; unfold on_fs in E; cbn [fst snd] in E; change (cur_id (take_id w1)) with (cur_id w2) in E;
    destruct (create_chunk sys (cur_id w2) s3) as [o s5] eqn:Ec; apply create_chunk_run in Ec; injection E as -> <- <-.
  - injection H as <- <- <-. destruct Ec as (C1 & C2 & C3 & C4 & C5 & C6). assert (grows (s3, w2) (s5, opened_chunk w2)) as Hg4.
    { split; cbn; unfold own; cbn; rewrite ?O3.
      - intros i. rewrite app_nil_r. intros Hi. apply elem_of_app. by left.
      - intros i Hi. rewrite C2, lookup_insert_ne; [done|]. intros <-. apply Hi, elem_of_app. right. by left.
      - intros i [Hi|Hi%list_elem_of_singleton]%elem_of_app; [left; by rewrite app_nil_r|right; by subst i].
      - done.
      - exists []. by rewrite app_nil_r.
      - done. }
    split; [by transitivity (s3, w2)|]. cbn. rewrite O1, O2, <- Hc. repeat (split; [done|]). done.
  - split; [|done]. transitivity (s3, w2); [done|]. by apply still_grows.
Qed.

(** ** Writing into the current chunk *)
Definition only_chunk (id : Z) (s s' : Fs M) : Prop :=
  (forall i, i <> id -> chunks s' !! i = chunks s !! i) /\ packs s' = packs s /\ slots s' = slots s /\ seal_retry s' = seal_retry s /\ fs_pins s' = fs_pins s.
#[export] Instance only_chunk_preorder id : PreOrder (only_chunk id).
Proof.
  split; [done|]. intros a b c (A0 & A1 & A2 & A3 & A4) (B0 & B1 & B2 & B3 & B4). split; [intros i Hi; by rewrite B0, A0|]. by rewrite B1, B2, B3, B4.
Qed.
Lemma still_only id s s' : still s s' -> only_chunk id s s'.
Proof. intros (E1 & E2 & E3 & E4). unfold only_chunk. by rewrite E1, E2, E3, E4. Qed.

Lemma write_loop_run id fuel data s r s' :
  write_loop sys fuel id data s = (r, s') ->
  only_chunk id s s' /\ (r = Ok tt -> length data <= fuel -> forall c, chunks s !! id = Some c -> chunks s' !! id = Some (c ++ data)).
Proof.
  revert data s. induction fuel as [|fuel IH]; intros data s H.
  - destruct data; injection H as <- <-; (split; [done|]); cbn; intros _ Hl c Hc; [by rewrite app_nil_r|lia].
  - destruct data as [|a data]; [injection H as <- <-; split; [done|]; intros _ _ c Hc; by rewrite app_nil_r|].
    change (write_loop sys (S fuel) id (a :: data) s) with ((syscall sys ≫= λ r, match r with None => throw InternalError | Some w => let k := Nat.min (length (a :: data)) (S w) in
      _ ← fs_modify (λ s, set_chunks (alter (λ c, c ++ take k (a :: data)) id (d_chunks (disk s))) s); write_loop sys fuel id (drop k (a :: data)) end) s) in H.
    runs H s1 E; [|done]. apply (run_keeps still) in E; [|apply _]. pose proof (still_only id _ _ E) as Ho. destruct E as (E1 & _). destruct a0 as [k0|]; [|by injection H as <- <-].
    cbv zeta in H. set (k := Nat.min _ _) in H. assert (0 < k <= length (a :: data)) as Hk by (unfold k; cbn; lia). set (rec := a :: data) in *.
    runs H s2 E; [|done]. injection E as <-. set (s2 := set_chunks _ s1) in H. apply IH in H as [H1 H2].
    assert (only_chunk id s1 s2) as H12 by (split; [intros i Hi; cbn; by rewrite lookup_alter_ne|done]).
    split; [by transitivity s1; [|transitivity s2]|]. intros Hr Hl c Hc. rewrite (H2 Hr) with (c := c ++ take k rec).
    + by rewrite <- app_assoc, take_drop.
    + rewrite length_drop. lia.
    + cbn. rewrite lookup_alter_eq, E1, Hc. done.
Qed.

Lemma only_chunk_grows s s' w : cw_fd w = true -> only_chunk (cur_id w) s s' -> grows (s, w) (s', w).
Proof.
  intros Hfd (E0 & E1 & E2 & E3 & E4). split; cbn; rewrite ?E2, ?E3, ?E4; try done; [|by left|exists []; by rewrite app_nil_r].
  intros i Hi. apply E0. intros ->. apply Hi. unfold own. rewrite Hfd. apply elem_of_app. right. by left.
Qed.

Lemma seal_chunk_run s w r s' w' :
  cw_fd w = true -> seal_chunk sys (s, w) = (r, (s', w')) ->
  grows (s, w) (s', w') /\ still s s' /\ (r = Ok tt -> w' = sealed_chunk w).
Proof.
  intros Hfd H. unfold seal_chunk in H. runs H x E; apply on_fs_grows in E as (Hg & Ew & Hs); try apply _; [|done]. cbn in Ew. destruct x as [s1 w1]. cbn in Ew, Hs. subst w1.
  injection H as <- <- <-. split; [|done]. transitivity (s1, w); [done|]. assert (own (sealed_chunk w) = own w) as Eo.
  { unfold own. cbn [extents sealed_chunk cw_fd cur_id]. by rewrite Hfd, fmap_app, app_nil_r. }
  split; cbn [fst snd]; rewrite ?Eo; try done; [by left|]. exists []. by rewrite app_nil_r.
Qed.

(** * The data a writer holds *)
Context {Hcs : FsOptionsOk opt}.

(** [lo] and [hi] bound the length of the chunk in progress. *)
Definition cw_holds (lo hi : Z) (s : Fs M) (w : ChunkWriter) (d : bytes) : Prop :=
  exists bs cur, Forall2 (has_extent (disk s)) (extents w) bs /\ Forall (λ e, Extent.kind e = Extent.kChunk) (extents w) /\ d = concat bs ++ cur /\ pinned w = own w /\
    if cw_fd w then chunks s !! cur_id w = Some cur /\ cur_len w = blen cur /\ cur_crc w = crc32c_of cur /\ (lo <= blen cur <= hi)%Z /\ cur_id w ∉ Extent.file_id <$> extents w
    else cur = [].
Definition cw_ok := cw_holds 1 (chunk_size opt - 1).

Lemma chunk_extents_kept dk dk' es bs :
  Forall (λ e, Extent.kind e = Extent.kChunk) es -> (forall i, i ∈ Extent.file_id <$> es -> d_chunks dk' !! i = d_chunks dk !! i) ->
  Forall2 (has_extent dk) es bs -> Forall2 (has_extent dk') es bs.
Proof.
  intros Hk He H. induction H as [|e b es bs (f & Hf & Hi) _ IH]; [done|]. apply list.Forall_cons in Hk as [Hk Hks]. constructor.
  - exists f. split; [|done]. unfold file_of in *. rewrite Hk in *. rewrite He; [done|]. left.
  - apply IH; [done|]. intros i Hi'. apply He. by right.
Qed.
Lemma extents_on_disk dk es bs i :
  Forall (λ e, Extent.kind e = Extent.kChunk) es -> Forall2 (has_extent dk) es bs -> i ∈ Extent.file_id <$> es -> is_Some (d_chunks dk !! i).
Proof.
  intros Hk H Hi. induction H as [|e b es bs (f & Hf & _) _ IH]; [by apply not_elem_of_nil in Hi|]. apply list.Forall_cons in Hk as [Hk Hks].
  apply elem_of_cons in Hi as [->|Hi]; [|by apply IH]. unfold file_of in Hf. rewrite Hk in Hf. by exists f.
Qed.

Lemma open_holds s w d s' w' :
  cw_ok s w d -> cw_fd w = false -> open_next_chunk sys (s, w) = (Ok tt, (s', w')) -> cw_holds 0 (chunk_size opt - 1) s' w' d /\ cw_fd w' = true.
Proof.
  intros (bs & cur & Hb & Hk & -> & Hp & Hc) Hfd H. rewrite Hfd in Hc. subst cur. apply open_next_run in H as [Hg (F1 & F2 & F3 & F4 & F5 & F6 & F7)]; [|done]. split; [|done].
  assert (cur_id w' ∉ Extent.file_id <$> extents w) as Hn by (intros Hi; pose proof (extents_on_disk _ _ _ _ Hk Hb Hi) as [x Hx]; congruence).
  unfold own in Hp. rewrite Hfd, app_nil_r in Hp. exists bs, []. unfold own. rewrite F1, F4, F2, F3, F7, F6, Hp.
  split; [|split; [done|split; [done|split; [done|]]]].
  - eapply chunk_extents_kept; [done| |exact Hb]. intros i Hi. rewrite F6, lookup_insert_ne; [done|]. by intros <-.
  - rewrite lookup_insert_eq. split; [done|]. split; [done|]. split; [done|]. split; [|done]. pose proof chunk_pos. unfold blen. cbn. lia.
Qed.

Lemma holds_still lo hi s s' w d : disk s' = disk s -> cw_holds lo hi s w d -> cw_holds lo hi s' w d.
Proof. intros E. unfold cw_holds. by rewrite E. Qed.
Lemma holds_range lo hi lo' hi' s w d :
  (lo' <= lo)%Z -> (hi <= hi')%Z -> cw_holds lo hi s w d -> cw_holds lo' hi' s w d.
Proof.
  intros Hlo Hhi (bs & cur & Hb & Hk & Ed & Hp & Hc). exists bs, cur. repeat (split; [done|]). destruct (cw_fd w); [|done].
  destruct Hc as (? & ? & ? & Hr & ?). repeat (split; [done|]). split; [lia|done].
Qed.

Lemma sealed_holds hi s w d : cw_holds 1 hi s w d -> cw_fd w = true -> cw_ok s (sealed_chunk w) d /\ cw_fd (sealed_chunk w) = false.
Proof.
  intros (bs & cur & Hb & Hk & -> & Hp & Hc) Hfd. rewrite Hfd in Hc. destruct Hc as (C1 & C2 & C3 & C4 & C5). split; [|done]. exists (bs ++ [cur]), [].
  cbn [extents sealed_chunk cw_fd pinned]. split; [|split; [|split; [|split; [|done]]]].
  - apply Forall2_app; [done|]. constructor; [|done]. exists cur. split; [done|]. unfold in_file. cbn [Extent.offset Extent.length Extent.crc32c]. rewrite C2, C3.
    repeat (split; [done || lia|]). unfold substr. cbn. by rewrite take_ge.
  - apply Forall_app. split; [done|]. by constructor.
  - rewrite concat_app. cbn. by rewrite !app_nil_r.
  - rewrite Hp. unfold own. cbn [extents sealed_chunk cw_fd]. by rewrite Hfd, fmap_app, app_nil_r.
Qed.

Lemma fill_holds s w d b s' :
  cw_holds 0 (chunk_size opt - 1) s w d -> cw_fd w = true -> b <> [] -> (blen b <= chunk_size opt - cur_len w)%Z ->
  write_full sys (cur_id w) b s = (Ok tt, s') -> cw_holds 1 (chunk_size opt) s' (advanced b w) (d ++ b).
Proof.
  intros (bs & cur & Hb & Hk & -> & Hp & Hc) Hfd Hne Hle H. rewrite Hfd in Hc. destruct Hc as (C1 & C2 & C3 & C4 & C5).
  apply write_loop_run in H as [(Ho & _) Hw]. specialize (Hw eq_refl ltac:(done) _ C1). exists bs, (cur ++ b). cbn [extents advanced pinned cw_fd cur_id cur_len cur_crc]. rewrite Hfd.
  split; [|split; [done|split; [by rewrite app_assoc|split; [|]]]].
  - eapply chunk_extents_kept; [done| |exact Hb]. intros i Hi. apply Ho. by intros ->.
  - rewrite Hp. unfold own. cbn. by rewrite Hfd.
  - rewrite C2 in *. rewrite blen_cat. assert (0 < blen b)%Z by (destruct b; [done|unfold blen; cbn; lia]).
    split; [done|]. split; [done|]. split; [|split; [lia|done]]. rewrite C3. unfold crc32c_of, crc32c_update. by rewrite table_crc_app.
Qed.

Lemma write_turn_open s w r s' w' d :
  (if cw_fd w then mret tt else open_next_chunk sys) (s, w) = (r, (s', w')) ->
  grows (s, w) (s', w') /\ (r = Ok tt -> cw_fd w' = true) /\ (r = Ok tt -> cw_ok s w d -> cw_holds 0 (chunk_size opt - 1) s' w' d).
Proof.
  destruct (cw_fd w) eqn:Hfd.
  - intros [= <- <- <-]. split; [done|]. split; [done|]. intros _ Hok. eapply holds_range; [| |exact Hok]; lia.
  - intros H. pose proof (open_next_run _ _ _ _ _ Hfd H) as [Hg Hr]. split; [done|]. split; intros ->; [by destruct Hr|]. intros Hok. by eapply open_holds.
Qed.

Lemma write_turn_run buf s w r s' w' d :
  buf <> [] -> write_turn opt sys buf (s, w) = (r, (s', w')) ->
  grows (s, w) (s', w') /\ forall n, r = Ok n -> cw_ok s w d -> 0 < n <= length buf /\ cw_ok s' w' (d ++ take n buf).
Proof.
  intros Hne H. unfold write_turn in H. runs H x E; [|done]. injection E as <- <-. cbn [snd] in H.
  runs H x E; [destruct x as [s1 w1]|]; apply (write_turn_open s w _ _ _ d) in E as (Hg & Hfd & Hok); [|done]. specialize (Hfd eq_refl).
  runs H x E; [|done]. injection E as <- <-. cbn [snd] in H. cbv zeta in H. set (n := Z.to_nat _) in H. set (b := take n buf) in H.
  assert (forall s2, only_chunk (cur_id w1) s1 s2 -> grows (s, w) (s2, w1)) as Hgw by (intros s2 Ho; transitivity (s1, w1); [done|]; by apply only_chunk_grows).
  runs H x E; unfold on_fs in E; cbn [fst snd] in E; destruct (write_full sys (cur_id w1) b s1) as [o s2] eqn:Ew; pose proof (write_loop_run _ _ _ _ _ _ Ew) as [Ho _].
  2: { injection E as -> <- <-. split; [by apply Hgw|done]. }
  injection E as -> <-. runs H x E; [|done]. injection E as <-. runs H x E; [|done]. injection E as <- <-. cbn [fst snd] in H.
  set (w2 := advanced b w1) in H. assert (grows (s, w) (s2, w2)) as Hg2.
  { transitivity (s2, w1); [by apply Hgw|]. split; cbn; try done; [by left|exists []; by rewrite app_nil_r]. }
  assert (r = Ok n -> cw_ok s w d -> 0 < n <= length buf /\ cw_holds 1 (chunk_size opt) s2 w2 (d ++ b)) as Hfill.
  { intros _ Hw. specialize (Hok eq_refl Hw). assert (cur_len w1 <= chunk_size opt - 1)%Z as Hlen.
    { destruct Hok as (bs & cur & _ & _ & _ & _ & Hc). rewrite Hfd in Hc. destruct Hc as (_ & -> & _ & Hc & _). lia. }
    assert (0 < length buf) by (destruct buf; [done|cbn; lia]). assert (0 < n <= length buf) as Hn by (unfold n, blen; lia). split; [done|].
    eapply fill_holds; [done|done| | |]; [unfold b; destruct buf, n; done || lia| |done]. unfold b, blen. rewrite length_take. unfold n, blen. lia. }
  runs H x E.
  - injection H as <- ->. destruct (Z.eqb_spec (cur_len w2) (chunk_size opt)) as [Eq|Ne].
    + apply seal_chunk_run in E as (Hg3 & Hs3 & Hw3); [|exact Hfd]. rewrite (Hw3 eq_refl) in *. split; [by transitivity (s2, w2)|]. intros m [= <-] Hw.
      destruct (Hfill eq_refl Hw) as [Hn Hh]. split; [done|]. destruct Hs3 as (Ed & _). eapply holds_still; [exact Ed|]. by eapply sealed_holds.
    + injection E as <- <-. split; [done|]. intros m [= <-] Hw. destruct (Hfill eq_refl Hw) as [Hn (bs & cur & Hb & Hk & Ed & Hp & Hc)]. split; [done|]. exists bs, cur.
      repeat (split; [done|]). change (cw_fd w2) with (cw_fd w1) in *. rewrite Hfd in *. destruct Hc as (C1 & C2 & C3 & C4 & C5). repeat (split; [done|]). split; [lia|done].
  - split; [|done]. destruct (cur_len w2 =? chunk_size opt)%Z; [|done]. apply seal_chunk_run in E as (Hg3 & _); [by transitivity (s2, w2)|exact Hfd].
Qed.

Lemma chunk_write_run buf s w r s' w' d :
  chunk_write opt sys buf (s, w) = (r, (s', w')) ->
  grows (s, w) (s', w') /\ (r = Ok tt -> cw_ok s w d -> cw_ok s' w' (d ++ buf)).
Proof.
  unfold chunk_write. enough (forall fuel, chunk_write_loop opt sys fuel buf (s, w) = (r, (s', w')) ->
    grows (s, w) (s', w') /\ (length buf <= fuel -> r = Ok tt -> cw_ok s w d -> cw_ok s' w' (d ++ buf))) as H by (intros E; destruct (H _ E) as [? Hr]; split; [done|by apply Hr]).
  intros fuel. revert buf s w d. induction fuel as [|fuel IH]; intros buf s w d H.
  - destruct buf; injection H as <- <- <-; (split; [done|]); cbn; [by rewrite app_nil_r|lia].
  - destruct buf as [|a buf]; [injection H as <- <- <-; split; [done|]; by rewrite app_nil_r|]. set (b := a :: buf) in *.
    change (chunk_write_loop opt sys (S fuel) b (s, w)) with ((write_turn opt sys b ≫= λ n, chunk_write_loop opt sys fuel (drop n b)) (s, w)) in H.
    runs H x E; [destruct x as [s1 w1]|]; apply (write_turn_run _ _ _ _ _ _ d) in E as [Hg Ht]; try (by unfold b).
    apply (IH _ _ _ (d ++ take a0 b)) in H as [Hg2 Hl]. split; [by transitivity (s1, w1)|]. intros Hf Hr Hw. destruct (Ht a0 eq_refl Hw) as [Hn Hw1].
    rewrite <- (take_drop a0 b), app_assoc. apply Hl; [rewrite length_drop; lia|done|done].
Qed.

(** [finish]: the extents handed out are the writer's, and hold its data. *)
Lemma chunk_finish_run s w r s' w' d :
  chunk_finish sys (s, w) = (r, (s', w')) ->
  match r with
  | Throw _ => grows (s, w) (s', w')
  | Ok ref => exists wf, grows (s, w) (s', wf) /\ w' = done_writer wf /\ own wf = Extent.file_id <$> ref /\
      (cw_ok s w d -> has_ref (disk s') ref d /\ Forall (λ e, Extent.kind e = Extent.kChunk) ref /\ pinned wf = Extent.file_id <$> ref)
  end.
Proof.
  intros H. unfold chunk_finish in H. runs H x E; [|done]. injection E as <- <-. cbn [snd] in H.
  assert (forall r1 s1 w1, (if cw_fd w then seal_chunk sys else mret tt) (s, w) = (r1, (s1, w1)) ->
    grows (s, w) (s1, w1) /\ (r1 = Ok tt -> cw_fd w1 = false /\ (cw_ok s w d -> cw_ok s1 w1 d))) as Hseal.
  { intros r1 s1 w1. destruct (cw_fd w) eqn:Hfd; [|by intros [= <- <- <-]]. intros E. apply seal_chunk_run in E as (Hg & (Ed & _) & Hw); [|done]. split; [done|].
    intros Hr. rewrite (Hw Hr). split; [done|]. intros Hok. eapply holds_still; [exact Ed|]. by eapply sealed_holds. }
  runs H x E; [destruct x as [s1 w1]|]; apply Hseal in E as [Hg Hw]; [|done]. destruct (Hw eq_refl) as [Hfd Hok]. runs H x E; [|done]. injection E as <- <-. cbn [snd] in H.
  runs H x E; [destruct x as [s2 w2]|]; apply on_fs_grows in E as (Hg2 & Ew & Hs2); try apply _; cbn in Ew, Hs2; [|by transitivity (s1, w1)]. subst w2.
  runs H x E; [|done]. injection E as <-. injection H as <- <- <-. exists w1. split; [by transitivity (s1, w1)|]. split; [done|].
  assert (own w1 = Extent.file_id <$> extents w1) as Eo by (unfold own; by rewrite Hfd, app_nil_r). split; [done|]. intros Hw0. destruct (Hok Hw0) as (bs & cur & Hb & Hk & -> & Hp & Hc).
  rewrite Hfd in Hc. subst cur. destruct Hs2 as (Ed & _). cbn. rewrite Ed. split; [exists bs; by rewrite app_nil_r|]. by rewrite Hp.
Qed.

(** ** Discarding *)

(** Files of the list may be gone, and are where the calls succeed. *)
Definition removes (l : list Z) (s s' : Fs M) : Prop :=
  (forall i, chunks s' !! i = chunks s !! i \/ (i ∈ l /\ chunks s' !! i = None)) /\
  ((forall t, ticks s <= t -> is_Some (sys t)) -> forall i, i ∈ l -> chunks s' !! i = None) /\
  packs s' = packs s /\ slots s' = slots s /\ seal_retry s' = seal_retry s /\ ticks s <= ticks s'.
Lemma removes_app l1 l2 s s1 s2 : removes l1 s s1 -> removes l2 s1 s2 -> removes (l1 ++ l2) s s2.
Proof.
  intros (A1 & A2 & A3 & A4 & A5 & A6) (B1 & B2 & B3 & B4 & B5 & B6). split; [|split].
  - intros i. destruct (B1 i) as [->|[Hi Hn]]; [|right; split; [apply elem_of_app; by right|done]]. destruct (A1 i) as [->|[Hi Hn]]; [by left|right; split; [apply elem_of_app; by left|done]].
  - intros Hs i [Hi|Hi]%elem_of_app.
    + specialize (A2 Hs i Hi). destruct (B1 i) as [->|[_ Hn]]; done.
    + apply B2; [|done]. intros t Ht. apply Hs. lia.
  - rewrite B3, B4, B5. repeat (split; [done|]). lia.
Qed.
Lemma unlink_chunk_run id s r s' : unlink_chunk sys id s = (r, s') -> removes [id] s s' /\ fs_pins s' = fs_pins s /\ exists u, r = Ok u.
Proof.
  unfold unlink_chunk. intros H. runs H s1 E; [|done]. injection E as <- <-. destruct (sys (ticks s)) eqn:Es; injection H as <- <-; (split; [|split; [done|by exists tt]]).
  - split; [|split; [|done || (cbn; repeat (split; [done|]); lia)]]; cbn.
    + intros i. destruct (decide (i = id)) as [->|Hi]; [right; split; [by left|apply lookup_delete_eq]|left; by apply lookup_delete_ne].
    + intros _ i ->%list_elem_of_singleton. apply lookup_delete_eq.
  - split; [by left|]. split; [|cbn; repeat (split; [done|]); lia]. intros Hs. destruct (Hs (ticks s) ltac:(lia)) as [x Hx]. congruence.
Qed.
Lemma unlink_all_run es s r s' : unlink_all sys es s = (r, s') -> removes (Extent.file_id <$> es) s s' /\ fs_pins s' = fs_pins s /\ exists u, r = Ok u.
Proof.
  revert s. induction es as [|e es IH]; intros s H; cbn [unlink_all] in H.
  - injection H as <- <-. split; [|split; [done|by exists tt]]. split; [by left|]. split; [by intros _ i Hi%not_elem_of_nil|]. repeat (split; [done|]). lia.
  - runs H s1 E; apply unlink_chunk_run in E as (H1 & Hp & u & Hu); [|done]. apply IH in H as (H2 & Hp2 & Hr). split; [by apply (removes_app [_] _ s s1)|]. split; [congruence|done].
Qed.
Lemma chunk_discard_run w s :
  finished w = false ->
  removes (own w) s (chunk_discard sys w s).2 /\ fs_pins (chunk_discard sys w s).2 = fold_left (λ t i, unpin_id i t) (pinned w) (fs_pins s).
Proof.
  intros Hf. destruct (chunk_discard sys w s) as [r s'] eqn:H. cbn [snd]. unfold chunk_discard in H. rewrite Hf in H.
  assert (forall r1 s1, (if cw_fd w then unlink_chunk sys (cur_id w) else mret tt) s = (r1, s1) -> removes (if cw_fd w then [cur_id w] else []) s s1 /\ fs_pins s1 = fs_pins s /\ exists u, r1 = Ok u) as H0.
  { intros r1 s1. destruct (cw_fd w); [apply unlink_chunk_run|]. intros [= <- <-]. exact (unlink_all_run [] s (Ok tt) s eq_refl). }
  runs H s1 E; apply H0 in E as (H1 & Hp1 & u & Hu); [|done]. runs H s2 E; apply unlink_all_run in E as (H2 & Hp2 & u' & Hu'); [|done].
  injection H as <- <-. cbn. split; [|by rewrite Hp2, Hp1]. pose proof (removes_app _ _ _ _ _ H1 H2) as (A1 & A2 & A3). unfold own.
  split; [|split; [|exact A3]]; cbn.
  - intros i. destruct (A1 i) as [?|[Hi ?]]; [by left|right; split; [|done]]. apply elem_of_app. apply elem_of_app in Hi. tauto.
  - intros Hs i Hi. apply A2; [done|]. apply elem_of_app. apply elem_of_app in Hi. tauto.
Qed.

(** * Packs *)

(** An open slot appends at or before the end of a file of its own; a closed one is at 0. *)
Definition slots_ok (s : Fs M) : Prop :=
  (forall k sl, slots s !! k = Some sl ->
     if sl_fd sl then (0 <= sl_size sl)%Z /\ exists f, packs s !! sl_id sl = Some f /\ (sl_size sl <= blen f)%Z else sl_size sl = 0%Z) /\
  (forall j k sj sk, slots s !! j = Some sj -> slots s !! k = Some sk -> sl_fd sj = true -> sl_fd sk = true -> sl_id sj = sl_id sk -> j = k).
(** A record that no append reaches. *)
Definition behind (s : Fs M) (e : Extent.t) : Prop :=
  forall k sl, slots s !! k = Some sl -> sl_fd sl = true -> sl_id sl = Extent.file_id e -> (Extent.offset e + Extent.length e <= sl_size sl)%Z.
Definition psecure (s : Fs M) (e : Extent.t) (b : bytes) : Prop := Extent.kind e = Extent.kPack /\ has_extent (disk s) e b /\ behind s e.

Record pkeeps (s s' : Fs M) : Prop := {
  pk_ok : slots_ok s -> slots_ok s';
  pk_secure : slots_ok s -> forall e b, psecure s e b -> psecure s' e b;
  pk_chunks : chunks s' = chunks s;
  pk_pins : fs_pins s' = fs_pins s;
  pk_slots : length (slots s') = length (slots s) }.
#[export] Instance pkeeps_preorder : PreOrder pkeeps.
Proof.
  split; [done|]. intros a b c [A1 A2 A3 A4 A5] [B1 B2 B3 B4 B5]. split; [auto|intros; apply B2; auto|congruence..].
Qed.
Lemma pkeeps_same s s' : packs s' = packs s -> chunks s' = chunks s -> slots s' = slots s -> fs_pins s' = fs_pins s -> pkeeps s s'.
Proof.
  intros E1 E2 E3 E4. assert (disk s' = disk s) as Ed by (destruct (disk s'), (disk s); cbn in *; congruence).
  split; [unfold slots_ok; by rewrite Ed, E3|unfold psecure, behind; by rewrite Ed, E3|done|done|by rewrite E3].
Qed.
Lemma still_pkeeps s s' : still s s' -> pkeeps s s'.
Proof. intros (E1 & E2 & E3 & E4). apply pkeeps_same; by rewrite ?E1. Qed.

(** ** A change of one slot *)
Lemma slot_lookup k (sl : ActivePack) (l : list ActivePack) j x : <[k := sl]> l !! j = Some x -> (j = k /\ x = sl /\ k < length l) \/ (j <> k /\ l !! j = Some x).
Proof.
  intros H. destruct (decide (j = k)) as [->|Hn]; [|right; by rewrite list_lookup_insert_ne in H].
  left. assert (k < length l) as Hk by (apply lookup_lt_Some in H; by rewrite length_insert in H). rewrite list_lookup_insert_eq in H by done. by injection H as <-.
Qed.

Lemma close_slot_run k s r s' : k < length (slots s) -> close_slot_locked k s = (r, s') -> r = Ok tt /\ pkeeps s s' /\
  exists sl, slots s !! k = Some sl /\ slots s' = <[k := mkSlot false false (sl_id sl) 0 (sl_opened sl)]> (slots s) /\ seal_retry s' = seal_retry s ++ [(sl_id sl, sl_size sl)] /\
    packs s' = packs s /\ hooked s' = hooked s.
Proof.
  intros Hk H. destruct (lookup_lt_is_Some_2 _ _ Hk) as [sl Hsl]. unfold close_slot_locked in H. runs H s1 E; [|done]. injection E as <- <-. rewrite Hsl in H. change (default no_slot (Some sl)) with sl in H.
  runs H s2 E; [|done]. injection E as <-. injection H as <- <-. split; [done|]. split; [|exists sl; done]. split; cbn; try done; [| |by rewrite length_insert].
  - intros [H1 H2]. split.
    + intros j x [(-> & -> & _)|(_ & Hx)]%slot_lookup; [done|]. exact (H1 j x Hx).
    + intros j k' x y [(-> & -> & _)|(Hj & Hx)]%slot_lookup [(-> & -> & _)|(Hk' & Hy)]%slot_lookup; try done. exact (H2 j k' x y Hx Hy).
  - intros _ e b (He & Hh & Hb). split; [done|]. split; [done|]. intros j x [(-> & -> & _)|(_ & Hx)]%slot_lookup; [done|]. exact (Hb j x Hx).
Qed.

(** ** A new pack *)
Lemma create_pack_run s r s' id :
  create_pack sys id s = (r, s') ->
  match r with
  | Ok _ => packs s !! id = None /\ packs s' = <[id := []]> (packs s) /\ chunks s' = chunks s /\ slots s' = slots s /\ seal_retry s' = seal_retry s /\ fs_pins s' = fs_pins s /\ hooked s' = hooked s
  | Throw _ => still s s' /\ hooked s' = hooked s
  end.
Proof.
  unfold create_pack. intros H. runs H s1 E; apply must_run in E as [-> _]; [|done]. rewrite ST_get_bind in H.
  case_bool_decide as Hx; injection H as <- <-; [done|]. cbn in *. split; [|done]. by apply eq_None_not_Some.
Qed.

(** The slot takes a file that was not there. *)
Lemma opened_pkeeps k id locked opened s s' :
  k < length (slots s) -> (forall sl, slots s !! k = Some sl -> sl_fd sl = false) -> packs s !! id = None ->
  packs s' = <[id := []]> (packs s) -> chunks s' = chunks s -> slots s' = <[k := mkSlot true locked id 0 opened]> (slots s) -> fs_pins s' = fs_pins s -> pkeeps s s'.
Proof.
  intros Hk Hc Hn E1 E2 E3 E4. split; [| |done|done|by rewrite E3, length_insert].
  - intros [H1 H2]. assert (forall j x, slots s !! j = Some x -> sl_fd x = true -> sl_id x <> id) as Hne.
    { intros j x Hx Hf Hi. specialize (H1 j x Hx). rewrite Hf in H1. destruct H1 as (_ & f & Hf' & _). congruence. }
    split; rewrite E3.
    + intros j x [(-> & -> & _)|(_ & Hx)]%slot_lookup; cbn; [split; [lia|]; exists []; rewrite E1, lookup_insert_eq; done|].
      specialize (H1 j x Hx). destruct (sl_fd x) eqn:Ef; [|done]. destruct H1 as (H1 & f & Hf & Hs). split; [done|]. exists f. rewrite E1, lookup_insert_ne; [done|]. intros Hi. by apply (Hne j x Hx Ef).
    + intros j k' x y [(-> & -> & _)|(Hj & Hx)]%slot_lookup [(-> & -> & _)|(Hk' & Hy)]%slot_lookup; cbn; try done.
      * intros _ Hf Hi. by destruct (Hne _ _ Hy Hf).
      * intros Hf _ Hi. by destruct (Hne _ _ Hx Hf).
      * exact (H2 j k' x y Hx Hy).
  - intros _ e b (He & (f & Hf & Hi) & Hb). unfold file_of in Hf. rewrite He in Hf. assert (Extent.file_id e <> id) as Hne by (intros <-; congruence). split; [done|]. split.
    + exists f. split; [|done]. unfold file_of. by rewrite He, E1, lookup_insert_ne.
    + intros j x. rewrite E3. intros [(-> & -> & _)|(_ & Hx)]%slot_lookup; cbn; [congruence|exact (Hb j x Hx)].
Qed.

Lemma renamed_pkeeps k id s s' sl :
  slots s !! k = Some sl -> sl_fd sl = false -> disk s' = disk s -> slots s' = <[k := mkSlot false false id (sl_size sl) (sl_opened sl)]> (slots s) -> fs_pins s' = fs_pins s -> pkeeps s s'.
Proof.
  intros Hsl Hf E1 E2 E3. split; [| |by rewrite E1|done|by rewrite E2, length_insert].
  - intros [H1 H2]. split; rewrite E2, ?E1.
    + intros j x [(-> & -> & _)|(_ & Hx)]%slot_lookup; cbn; [specialize (H1 k sl Hsl); by rewrite Hf in H1|exact (H1 j x Hx)].
    + intros j k' x y [(-> & -> & _)|(Hj & Hx)]%slot_lookup [(-> & -> & _)|(Hk' & Hy)]%slot_lookup; cbn; try done. exact (H2 j k' x y Hx Hy).
  - intros _ e b (He & Hh & Hb). split; [done|]. rewrite E1. split; [done|]. intros j x. rewrite E2. intros [(-> & -> & _)|(_ & Hx)]%slot_lookup; [done|exact (Hb j x Hx)].
Qed.

Lemma open_pack_run k s r s' :
  k < length (slots s) -> (forall sl, slots s !! k = Some sl -> sl_fd sl = false) -> open_pack sys clock k s = (r, s') ->
  pkeeps s s' /\ (r = Ok tt -> exists sl, slots s' !! k = Some sl /\ sl_fd sl = true /\ sl_size sl = 0%Z).
Proof.
  intros Hk Hc H. destruct (lookup_lt_is_Some_2 _ _ Hk) as [sl0 Hsl0]. pose proof (Hc _ Hsl0) as Hf0. unfold open_pack in H.
  runs H s1 E; apply (run_keeps still) in E as Hs1; try apply _; [|split; [by apply still_pkeeps|done]]. pose proof (still_pkeeps _ _ Hs1) as Hp1. destruct Hs1 as (Ed1 & El1 & _ & Ep1). rename a into id.
  runs H s2 E2; [|done]. injection E2 as <- <-. rewrite El1, Hsl0 in H. change (default no_slot (Some sl0)) with sl0 in H. runs H s2 E2; [|done]. injection E2 as <-. set (s2 := set_slots _ s1) in H.
  assert (pkeeps s s2) as Hp2.
  { transitivity s1; [done|]. apply (renamed_pkeeps k id s1 s2 sl0); [by rewrite El1|done..]. }
  runs H s3 E3; apply (run_keeps still) in E3 as Hs3; try apply _; [|split; [transitivity s2; [done|by apply still_pkeeps]|done]].
  assert (pkeeps s s3) as Hp3 by (transitivity s2; [done|by apply still_pkeeps]). destruct Hs3 as (Ed3 & El3 & _ & Ep3).
  runs H s4 E4; apply create_pack_run in E4; [|split; [transitivity s3; [done|by apply still_pkeeps; destruct E4]|done]].
  destruct E4 as (C1 & C2 & C3 & C4 & C5 & C6 & _). runs H s5 E5; [|done]. injection E5 as <-. runs H s6 E6; [|done]. injection E6 as <- <-. runs H s7 E7; [|done]. injection E7 as <- <-.
  runs H s8 E8; [|done]. injection E8 as <-. apply must_run in H as [-> _].
  assert (length (slots s3) = length (slots s)) as Hl3 by (rewrite El3; cbn; by rewrite length_insert, El1). set (sl' := mkSlot true _ id 0 _).
  split; [|intros _; exists sl'; split; [|done]].
  - transitivity s3; [done|]. eapply (opened_pkeeps k id); [lia| |exact C1|exact C2|exact C3|cbn; rewrite C4; apply list_insert_insert_eq|exact C6].
    intros sl. rewrite El3. cbn. rewrite El1, list_lookup_insert_eq by done. by intros [= <-].
  - cbn. apply list_lookup_insert_eq. rewrite length_insert, C4. lia.
Qed.

(** ** Appending a record *)
Lemma overwrite_spec off (d f : bytes) : off <= length f ->
  take off (overwrite off d f) = take off f /\ length f <= length (overwrite off d f) /\ off + length d <= length (overwrite off d f) /\ substr (overwrite off d f) off (length d) = d.
Proof.
  intros Ho. unfold overwrite. replace (off - length f) with 0 by lia. cbn [repeat]. rewrite app_nil_r. split; [|split; [|split]].
  - rewrite take_app_le, take_take by (rewrite length_take; lia). f_equal. lia.
  - rewrite !length_app, length_take, length_drop. lia.
  - rewrite !length_app, length_take, length_drop. lia.
  - pose proof (substr_at (take off f) d (drop (off + length d) f) _ eq_refl) as Hs. by rewrite (firstn_length_le f Ho) in Hs.
Qed.

Definition only_pack (id : Z) (s s' : Fs M) : Prop :=
  (forall i, i <> id -> packs s' !! i = packs s !! i) /\ chunks s' = chunks s /\ slots s' = slots s /\ seal_retry s' = seal_retry s /\ fs_pins s' = fs_pins s /\ hooked s' = hooked s.
Lemma pwrite_loop_run id fuel rec base s r s' f :
  pwrite_loop sys fuel id base rec s = (r, s') -> (0 <= base)%Z -> packs s !! id = Some f -> (base <= blen f)%Z ->
  only_pack id s s' /\ exists f', packs s' !! id = Some f' /\ take (Z.to_nat base) f' = take (Z.to_nat base) f /\ length f <= length f' /\
    (r = Ok tt -> length rec <= fuel -> substr f' (Z.to_nat base) (length rec) = rec /\ Z.to_nat base + length rec <= length f').
Proof.
  revert rec base s f. induction fuel as [|fuel IH]; intros rec base s f H Hb Hf Hl.
  - destruct rec; injection H as <- <-; (split; [done|]); exists f; (split; [done|]); (split; [done|]); (split; [done|]); cbn; unfold blen in *; intros _ Hle; [split; [done|lia]|lia].
  - destruct rec as [|a rec]; [injection H as <- <-; split; [done|]; exists f; split; [done|split; [done|split; [done|]]]; unfold blen in *; intros _ _; split; [done|cbn; lia]|]. set (rec' := a :: rec) in *.
    change (pwrite_loop sys (S fuel) id base rec' s) with ((syscall sys ≫= λ r, match r with None => throw InternalError | Some w => let n := Nat.min (length rec') (S w) in
      _ ← fs_modify (λ s, set_packs (alter (overwrite (Z.to_nat base) (take n rec')) id (d_packs (disk s))) s); pwrite_loop sys fuel id (base + Z.of_nat n) (drop n rec') end) s) in H.
    runs H s1 E; [|done]. injection E as <- <-. destruct (sys (ticks s)) as [w|]; [|injection H as <- <-; split; [done|]; by exists f].
    cbv zeta in H. set (n := Nat.min _ _) in H. assert (0 < n <= length rec') as Hn by (unfold n; cbn; lia). runs H s2 E; [|done]. injection E as <-. set (s2 := set_packs _ _) in H.
    set (o := Z.to_nat base) in *. assert (o <= length f) as Ho by (unfold o, blen in *; lia). destruct (overwrite_spec o (take n rec') f Ho) as (W1 & W2 & W3 & W4). set (f1 := overwrite o (take n rec') f) in *.
    rewrite length_take, Nat.min_l in W3, W4 by lia.
    assert (packs s2 !! id = Some f1) as Hf1 by (cbn; by rewrite lookup_alter_eq, Hf). apply IH with (f := f1) in H as (Ho2 & f' & Hf' & T1 & T2 & T3); [|lia|done|unfold o, blen in *; lia].
    replace (Z.to_nat (base + Z.of_nat n)) with (o + n) in * by (unfold o; lia). split.
    { destruct Ho2 as (O1 & O2). split; [|exact O2]. intros i Hi. rewrite O1 by done. cbn. by rewrite lookup_alter_ne. }
    exists f'. split; [done|]. split; [|split; [lia|]].
    + rewrite <- W1. transitivity (take o (take (o + n) f')); [rewrite take_take; f_equal; lia|]. rewrite T1, take_take. f_equal. lia.
    + intros Hr Hle. destruct (T3 Hr) as [T4 T5]; [rewrite length_drop; lia|]. rewrite length_drop in T4, T5. split; [|lia].
      rewrite <- (take_drop n rec') at 2. rewrite <- T4. assert (take n rec' = substr f' o n) as ->.
      { rewrite <- W4. rewrite <- (substr_cut f' (o + n)), <- (substr_cut f1 (o + n)) by lia. by rewrite T1. }
      unfold substr. rewrite <- drop_drop, take_take_drop. f_equal. lia.
Qed.

Lemma wrote_pkeeps k s s' sl f f' :
  slots s !! k = Some sl -> sl_fd sl = true -> (0 <= sl_size sl)%Z -> packs s !! sl_id sl = Some f -> only_pack (sl_id sl) s s' -> packs s' !! sl_id sl = Some f' ->
  take (Z.to_nat (sl_size sl)) f' = take (Z.to_nat (sl_size sl)) f -> length f <= length f' -> pkeeps s s'.
Proof.
  intros Hsl Hfd H0 Hf (O1 & O2 & O3 & O4 & O5 & _) Hf' Ht Hl. split; [| |done|done|by rewrite O3].
  - intros [H1 H2]. split; [|by rewrite O3]. rewrite O3. intros j x Hx. specialize (H1 j x Hx). destruct (sl_fd x) eqn:Ex; [|done]. destruct H1 as (H1 & g & Hg & Hs). split; [done|].
    destruct (decide (sl_id x = sl_id sl)) as [E|Hne]; [|exists g; by rewrite O1]. rewrite E in Hg |- *. rewrite Hf in Hg. injection Hg as <-. exists f'. split; [done|]. unfold blen in *. lia.
  - intros _ e b (He & (g & Hg & Hi) & Hb). split; [done|]. split; [|intros j x; rewrite O3; exact (Hb j x)]. unfold has_extent, file_of in *. rewrite He in *.
    destruct (decide (Extent.file_id e = sl_id sl)) as [E|Hne]; [|exists g; by rewrite O1]. specialize (Hb k sl Hsl Hfd (eq_sym E)). rewrite E in *. rewrite Hf in Hg. injection Hg as <-.
    exists f'. split; [done|]. destruct Hi as (I1 & I2 & I3 & I4 & I5). repeat (split; [done|]). rewrite <- I5 at 2.
    set (n := Z.to_nat (sl_size sl)) in *. unfold blen in I3.
    rewrite <- (substr_cut f' n), <- (substr_cut f n) by (unfold n; lia). by rewrite Ht.
Qed.

Lemma sized_pkeeps k s s' sl f (n : Z) :
  slots s !! k = Some sl -> sl_fd sl = true -> packs s !! sl_id sl = Some f -> (0 <= sl_size sl <= n)%Z -> (n <= blen f)%Z ->
  disk s' = disk s -> slots s' = <[k := mkSlot true (sl_locked sl) (sl_id sl) n (sl_opened sl)]> (slots s) -> fs_pins s' = fs_pins s -> pkeeps s s'.
Proof.
  intros Hsl Hfd Hf Hn Hl E1 E2 E3. split; [| |by rewrite E1|done|by rewrite E2, length_insert].
  - intros [H1 H2]. split; rewrite E2, ?E1.
    + intros j x [(-> & -> & _)|(_ & Hx)]%slot_lookup; cbn; [split; [lia|by exists f]|exact (H1 j x Hx)].
    + intros j k' x y [(-> & -> & _)|(Hj & Hx)]%slot_lookup [(-> & -> & _)|(Hk' & Hy)]%slot_lookup; cbn; try done.
      * intros _ Hf' Hi. exact (H2 k k' sl y Hsl Hy Hfd Hf' Hi).
      * intros Hf' _ Hi. exact (H2 j k x sl Hx Hsl Hf' Hfd Hi).
      * exact (H2 j k' x y Hx Hy).
  - intros _ e b (He & Hh & Hb). split; [done|]. rewrite E1. split; [done|]. intros j x. rewrite E2. intros [(-> & -> & _)|(_ & Hx)]%slot_lookup; [|exact (Hb j x Hx)].
    cbn. intros _ Hi. specialize (Hb k sl Hsl Hfd Hi). lia.
Qed.

#[export] Instance still_rotate sl n : Keeps still (must_rotate opt clock sl n : F _).
Proof. unfold must_rotate, slot_aged. apply _. Qed.
#[export] Instance still_sync_slot d : Keeps still (sync_slot sys d : F _).
Proof. unfold sync_slot. apply _. Qed.

(** The slot made ready: rotated if full or old, and open. *)
Lemma ready_run k dirty n s r s' :
  k < length (slots s) ->
  ready_slot opt sys clock k dirty n s = (r, s') ->
  pkeeps s s' /\ (r = Ok tt -> exists sl, slots s' !! k = Some sl /\ sl_fd sl = true).
Proof.
  intros Hk H. unfold ready_slot in H. runs H s1 E; [|done]. injection E as <- <-. runs H s1 E; apply (run_keeps still) in E; try apply _; apply still_pkeeps in E as Hp1; [|done].
  assert (k < length (slots s1)) as Hk1 by (by rewrite (pk_slots _ _ Hp1)).
  assert (forall r2 s2, (if bool_decide (a = true) then _ ← sync_slot sys dirty; close_slot_locked k else mret tt) s1 = (r2, s2) -> pkeeps s1 s2) as Hrot.
  { intros r2 s2. case_bool_decide; [|by intros [= _ <-]]. intros E2. runs E2 s3 E3; apply (run_keeps still) in E3; try apply _; apply still_pkeeps in E3 as Hp3; [|done].
    apply close_slot_run in E2 as (_ & Hp4 & _); [by transitivity s3|by rewrite (pk_slots _ _ Hp3)]. }
  runs H s2 E2; apply Hrot in E2 as Hp2; [|split; [by transitivity s1|done]]. assert (pkeeps s s2) as Hp by (by transitivity s1). assert (k < length (slots s2)) as Hk2 by (by rewrite (pk_slots _ _ Hp)).
  runs H s3 E3; [|done]. injection E3 as <- <-. destruct (lookup_lt_is_Some_2 _ _ Hk2) as [sl Hsl]. rewrite Hsl in H. change (default no_slot (Some sl)) with sl in H. destruct (sl_fd sl) eqn:Ef.
  - injection H as <- <-. split; [done|]. intros _. by exists sl.
  - apply open_pack_run in H as [Hp4 Ho]; [|done|intros sl'; rewrite Hsl; by intros [= <-]]. split; [by transitivity s2|]. intros Hr. destruct (Ho Hr) as (sl' & H1 & H2 & _). by exists sl'.
Qed.

Definition same_slots (a b : Fs M) : Prop := slots b = slots a.
#[export] Instance same_slots_preorder : PreOrder same_slots.
Proof. split; [done|]. unfold same_slots. intros a b c. congruence. Qed.
#[export] Instance same_slots_pwrite n id z rec : Keeps same_slots (pwrite_loop sys n id z rec : F _).
Proof.
  revert z rec. induction n as [|n IH]; intros z [|x rec]; cbn [pwrite_loop]; try apply _. apply keeps_bind; [apply _|done|]. intros [w|]; [|apply _].
  apply keeps_bind; [apply _|done|]. intros _. apply IH.
Qed.

Lemma append_item_run k dirty item s r s' :
  k < length (slots s) -> append_item opt sys clock k dirty item s = (r, s') ->
  (slots_ok s -> pkeeps s s') /\ length (slots s') = length (slots s) /\
  forall e, r = Ok e -> slots_ok s -> it_payload item <> [] -> psecure s' e (it_payload item).
Proof.
  intros Hk H. unfold append_item in H. set (d := it_payload item) in *. set (crc := crc32c_of d) in *. runs H s0 E; [|injection E as _ <-; done]. injection E as Eh <-. rename a into header.
  set (rec := header ++ d) in *. runs H s1 E; apply ready_run in E as [Hp1 Ho]; try done; [|by rewrite (pk_slots _ _ Hp1)]. destruct (Ho eq_refl) as (sl & Hsl & Hfd).
  runs H s2 E; [|done]. injection E as <- <-. rewrite Hsl in H. change (default no_slot (Some sl)) with sl in H.
  destruct (pwrite_loop sys (length rec) (sl_id sl) (sl_size sl) rec s1) as [o2 s2] eqn:Ew. pose proof (pk_slots _ _ Hp1) as Hl1.
  assert (slots_ok s -> pkeeps s1 s2 /\ (o2 = Ok tt -> slots s2 = slots s1 /\ exists f, packs s2 !! sl_id sl = Some f /\ substr f (Z.to_nat (sl_size sl)) (length rec) = rec /\ (sl_size sl + blen rec <= blen f)%Z) /\ (0 <= sl_size sl)%Z) as Hw.
  { intros Hok. pose proof (pk_ok _ _ Hp1 Hok) as [H1 _]. specialize (H1 k sl Hsl). rewrite Hfd in H1. destruct H1 as (H0 & f & Hf & Hle).
    destruct (pwrite_loop_run _ _ _ _ _ _ _ f Ew H0 Hf Hle) as (Hop & f' & Hf' & T1 & T2 & T3). split; [by eapply wrote_pkeeps|]. split; [|done]. intros Hr. destruct (T3 Hr ltac:(done)) as [T4 T5].
    destruct Hop as (_ & _ & -> & _). split; [done|]. exists f'. split; [done|]. split; [done|]. unfold blen in *. lia. }
  assert (length (slots s2) = length (slots s)) as Hl2.
  { apply (run_keeps same_slots) in Ew; [|apply _]. unfold same_slots in Ew. by rewrite Ew. }
  rewrite ST_bind_eq, Ew in H. destruct o2 as [[]|er]; [|injection H as <- <-; split; [intros Hok; transitivity s1; [done|by apply Hw]|split; [done|done]]].
  runs H s3 E; [|done]. injection E as <-. injection H as <- <-. rewrite Hfd. set (s3 := set_slots _ s2).
  assert (slots_ok s -> pkeeps s2 s3) as Hp3.
  { intros Hok. destruct (Hw Hok) as (_ & Hx & H0). destruct (Hx eq_refl) as (Es & f & Hf & _ & Hle). eapply (sized_pkeeps k s2 s3 sl f (sl_size sl + blen rec)%Z); try done; [by rewrite Es|unfold blen; lia]. }
  split; [intros Hok; transitivity s1; [done|]; transitivity s2; [by apply Hw|by apply Hp3]|]. split; [cbn; by rewrite length_insert|].
  intros e [= <-] Hok Hne. destruct (Hw Hok) as (_ & Hx & H0). destruct (Hx eq_refl) as (Es & f & Hf & Hsub & Hle). pose proof (pk_ok _ _ (Hp3 Hok)) as Hok3.
  split; [done|]. split.
  - exists f. split; [done|]. unfold in_file. cbn [Extent.offset Extent.length Extent.crc32c]. split; [unfold blen; lia|]. split; [destruct d; [done|unfold blen; cbn; lia]|]. split; [done|]. split; [done|].
    rewrite Z2Nat.inj_add by (unfold blen; lia). rewrite blen_nat. transitivity (substr (substr f (Z.to_nat (sl_size sl)) (length rec)) (length header) (length d)).
    + unfold substr. rewrite skipn_firstn_comm, take_take, drop_drop. f_equal. unfold rec. rewrite length_app. lia.
    + rewrite Hsub. unfold rec. rewrite <- (app_nil_r d) at 1. by apply substr_at.
  - intros j x Hx3 Hfx Hix. cbn in Hix. assert (slots_ok s2) as Hok2 by (apply (Hw Hok); apply (pk_ok _ _ Hp1), Hok). destruct (Hok3 Hok2) as [_ Hinj].
    assert (slots s3 !! k = Some (mkSlot true (sl_locked sl) (sl_id sl) (sl_size sl + blen rec) (sl_opened sl))) as Hk3 by (cbn; apply list_lookup_insert_eq; by rewrite Hl2).
    pose proof (Hinj j k x _ Hx3 Hk3 Hfx eq_refl Hix) as ->. rewrite Hk3 in Hx3. injection Hx3 as <-. cbn. unfold rec. rewrite blen_cat. lia.
Qed.

Lemma append_items_run k dirty items s r s' :
  k < length (slots s) -> append_items opt sys clock k dirty items s = (r, s') ->
  (slots_ok s -> pkeeps s s') /\ length (slots s') = length (slots s) /\
  forall es, r = Ok es -> slots_ok s -> Forall (λ i, it_payload i <> []) items -> Forall2 (λ e i, psecure s' e (it_payload i)) es items.
Proof.
  revert dirty s r s'. induction items as [|item items IH]; intros dirty s r s' Hk H; cbn [append_items] in H.
  - runs H s1 E; apply (run_keeps still) in E; try apply _; apply still_pkeeps in E as Hp; [injection H as <- <-|]; (split; [done|]); (split; [apply (pk_slots _ _ Hp)|]); [|done]. intros es [= <-]. constructor.
  - runs H s1 E; apply append_item_run in E as (Hp1 & Hl1 & He); try done. rename a into e. rewrite <- Hl1 in Hk.
    runs H s2 E; apply IH in E as (Hp2 & Hl2 & Hes); try done.
    + injection H as <- <-. split; [intros Hok; transitivity s1; [auto|apply Hp2, (pk_ok _ _ (Hp1 Hok)), Hok]|]. split; [congruence|]. intros es [= <-] Hok [Hn Hns]%list.Forall_cons. specialize (Hp1 Hok).
      pose proof (pk_ok _ _ Hp1 Hok) as Hok1. constructor; [|by apply Hes]. apply (pk_secure _ _ (Hp2 Hok1) Hok1). by apply He.
    + split; [intros Hok; transitivity s1; [auto|apply Hp2, (pk_ok _ _ (Hp1 Hok)), Hok]|]. split; [congruence|done].
Qed.

#[export] Instance still_seal_each todo : Keeps still (seal_each todo : F _).
Proof.
  induction todo as [|[id size] todo IH]; cbn [seal_each]; [apply _|]. intros s. destruct (hook (seal_ id size) s) as [[u|e] s1] eqn:E; apply (run_keeps still) in E; try apply _; [|done].
  transitivity s1; [done|apply IH].
Qed.
Lemma flush_seals_run b s r s' : flush_seals b s = (r, s') -> pkeeps s s'.
Proof.
  unfold flush_seals. intros H. rewrite ST_get_bind in H. runs H s1 E; [|done]. injection E as <-. runs H s2 E; apply (run_keeps still) in E as (E1 & E2 & _ & E4); try apply _; [|apply pkeeps_same; by rewrite ?E1].
  destruct a as [[e undone]|]; [|injection H as <- <-; apply pkeeps_same; by rewrite ?E1].
  runs H s3 E; [|done]. injection E as <-. destruct b; injection H as <- <-; (apply pkeeps_same; cbn; by rewrite ?E1).
Qed.

(** * Operations of the store *)
Definition fs_ok (s : Fs M) : Prop := slots_ok s /\ 0 < length (slots s).

(** What is on the disk stays: every chunk, and every record behind its slot. *)
Record adds (s s' : Fs M) : Prop := {
  ad_ok : fs_ok s -> fs_ok s';
  ad_chunks : fs_ok s -> forall i, is_Some (chunks s !! i) -> chunks s' !! i = chunks s !! i;
  ad_packs : fs_ok s -> forall e b, psecure s e b -> psecure s' e b }.
#[export] Instance adds_preorder : PreOrder adds.
Proof.
  split; [done|]. intros a b c [A1 A2 A3] [B1 B2 B3]. split; [auto| |auto]. intros Ha i Hi. rewrite <- A2 by done. apply B2; [auto|]. by rewrite A2.
Qed.
Lemma pkeeps_adds s s' : (slots_ok s -> pkeeps s s') -> adds s s'.
Proof.
  intros H. split; intros [Hok Hl]; destruct (H Hok) as [P1 P2 P3 P4 P5].
  - split; [auto|]. by rewrite P5.
  - intros i _. by rewrite P3.
  - intros e b. by apply P2.
Qed.

Lemma free_slot_lt t start n i k : i <= n -> free_slot busy t start n i = Some k -> k < n.
Proof.
  induction i as [|i IH]; intros Hi; cbn [free_slot]; [done|]. destruct (busy t _); [apply IH; lia|]. intros [= <-]. apply Nat.mod_upper_bound. lia.
Qed.
Lemma acquire_slot_run s r s' : 0 < length (slots s) -> acquire_slot busy s = (r, s') ->
  still s s' /\ exists k, r = Ok k /\ k < length (slots s').
Proof.
  intros Hl [= <- <-]. split; [done|]. eexists. split; [done|]. cbn. set (start := _ mod _). assert (start < length (slots s)) by (apply Nat.mod_upper_bound; lia).
  destruct (free_slot _ _ _ _ _) as [k|] eqn:E; cbn; [by apply free_slot_lt in E|done].
Qed.

Lemma append_pack_records_run items s r s' :
  0 < length (slots s) -> append_pack_records opt sys clock busy items s = (r, s') ->
  adds s s' /\ (slots_ok s -> chunks s' = chunks s /\ fs_pins s' = fs_pins s) /\
  forall es, r = Ok es -> slots_ok s -> Forall (λ i, it_payload i <> []) items -> Forall2 (λ e i, psecure s' e (it_payload i)) es items.
Proof.
  intros Hl H. unfold append_pack_records in H. case_bool_decide as Hi; [subst items; injection H as <- <-; split; [done|split; [done|]]; intros es [= <-]; constructor|].
  enough ((slots_ok s -> pkeeps s s') /\ forall es, r = Ok es -> slots_ok s -> Forall (λ i, it_payload i <> []) items -> Forall2 (λ e i, psecure s' e (it_payload i)) es items) as [Hp Hes].
  { split; [by apply pkeeps_adds|]. split; [|done]. intros Hok. destruct (Hp Hok). done. }
  runs H s1 E; apply acquire_slot_run in E as (Hs1 & k & Ek & Hk); try done; injection Ek as ->. pose proof (still_pkeeps _ _ Hs1) as Hp1.
  runs H s2 E; apply append_items_run in E as (Hp2 & _ & He); try done.
  2: { split; [|done]. intros Hok. transitivity s1; [done|apply Hp2, (pk_ok _ _ Hp1), Hok]. }
  assert (slots_ok s -> pkeeps s s2) as Hp by (intros Hok; transitivity s1; [done|apply Hp2, (pk_ok _ _ Hp1), Hok]).
  runs H s3 E; apply flush_seals_run in E as Hp3.
  - injection H as <- <-. split; [intros Hok; transitivity s2; auto|]. intros es [= <-] Hok Hne. pose proof (pk_ok _ _ (Hp Hok) Hok) as Hok2. pose proof (pk_ok _ _ Hp1 Hok) as Hok1.
    eapply Forall2_impl; [by apply He|]. intros e i Hx. by apply (pk_secure _ _ Hp3).
  - split; [intros Hok; transitivity s2; auto|done].
Qed.

(** * Any writer *)
Definition wspill (w : DataWriter) : option ChunkWriter := match w with WChunk c => Some c | WPacked p => pw_spill p end.
Definition wown (w : DataWriter) : list Z := match wspill w with Some c => own c | None => [] end.
Definition wpinned (w : DataWriter) : list Z := match wspill w with Some c => pinned c | None => [] end.
Definition wopen (w : DataWriter) : Prop := forall c, wspill w = Some c -> finished c = false.
Definition w_ok (s : Fs M) (w : DataWriter) (d : bytes) : Prop :=
  match w with
  | WChunk c => cw_ok s c d
  | WPacked p => match pw_spill p with Some c => cw_ok s c d | None => d = pw_buf p end
  end.

Record writes (x y : Fs M * DataWriter) : Prop := {
  wr_own i : i ∈ wown x.2 -> i ∈ wown y.2;
  wr_rest : fs_ok x.1 -> forall i, i ∉ wown y.2 -> chunks y.1 !! i = chunks x.1 !! i;
  wr_new : fs_ok x.1 -> forall i, i ∈ wown y.2 -> i ∈ wown x.2 \/ chunks x.1 !! i = None;
  wr_ok : fs_ok x.1 -> fs_ok y.1;
  wr_packs : fs_ok x.1 -> forall e b, psecure x.1 e b -> psecure y.1 e b;
  wr_pins : fs_ok x.1 -> exists new, wpinned y.2 = wpinned x.2 ++ new /\ fs_pins y.1 = fold_left (λ t i, pin_id i t) new (fs_pins x.1);
  wr_open : wopen x.2 -> wopen y.2 }.
#[export] Instance writes_preorder : PreOrder writes.
Proof.
  split.
  - intros x. split; try done; [by left|intros _; exists []; by rewrite app_nil_r].
  - intros x y z [A1 A2 A3 A4 A5 A6 A7] [B1 B2 B3 B4 B5 B6 B7]. split; [auto| | |auto|auto| |auto].
    + intros Hok i Hi. rewrite B2 by auto. apply A2; auto.
    + intros Hok i Hi. destruct (B3 (A4 Hok) i Hi) as [Hy|Hn]; [auto|]. destruct (decide (i ∈ wown y.2)) as [Hy|Hy]; [auto|]. right. by rewrite <- A2.
    + intros Hok. destruct (A6 Hok) as (n1 & P1 & Q1), (B6 (A4 Hok)) as (n2 & P2 & Q2). exists (n1 ++ n2). by rewrite P2, P1, Q2, Q1, fold_left_app, app_assoc.
Qed.

(** A chunk writer at work, inside whatever writer holds it. *)
Lemma grows_writes s c s' c' w w' :
  (wspill w = Some c \/ (wspill w = None /\ c = new_writer)) -> wspill w' = Some c' -> grows (s, c) (s', c') -> writes (s, w) (s', w').
Proof.
  intros Hw Hw' [G1 G2 G3 (E1 & E2 & E3) G5 G6]. cbn in *. assert (wown w' = own c') as Eo' by (unfold wown; by rewrite Hw').
  assert (wpinned w' = pinned c') as Ep' by (unfold wpinned; by rewrite Hw'). assert (wown w = own c /\ wpinned w = pinned c) as [Eo Ep].
  { unfold wown, wpinned. destruct Hw as [->|[-> ->]]; done. }
  split; cbn [fst snd]; rewrite ?Eo, ?Eo', ?Ep, ?Ep'; try done.
  - unfold fs_ok, slots_ok. by rewrite E1, E2.
  - intros _ e b (H1 & (f & Hf & Hi) & Hb). split; [done|]. split; [|unfold behind; by rewrite E2]. exists f. split; [|done]. unfold file_of in *. rewrite H1 in *. by rewrite E1.
  - intros Hop x Hx. rewrite Hw' in Hx. injection Hx as <-. rewrite G6. destruct Hw as [Hw|[_ ->]]; [by apply Hop|done].
Qed.

Lemma on_spill_run {A} (m : ST CW S3ErrorCode A) c s p r s' p' :
  on_spill m c (s, p) = (r, (s', p')) -> exists c', m (s, c) = (r, (s', c')) /\ p' = mkPw (pw_owner p) (pw_buf p) (Some c').
Proof. unfold on_spill. cbn. destruct (m (s, c)) as [r0 [s0 c0]]. intros [= <- <- <-]. by exists c0. Qed.

Lemma new_writer_ok s : cw_ok s new_writer [].
Proof. exists [], []. by repeat constructor. Qed.

Lemma packed_write_run buf s p r s' p' d :
  packed_write opt sys buf (s, p) = (r, (s', p')) ->
  writes (s, WPacked p) (s', WPacked p') /\ (r = Ok tt -> w_ok s (WPacked p) d -> w_ok s' (WPacked p') (d ++ buf)).
Proof.
  intros H. unfold packed_write in H. runs H x E; [|done]. injection E as <- <-. cbn [snd] in H. destruct (pw_spill p) as [c|] eqn:Ep.
  - apply on_spill_run in H as (c' & H & ->). apply (chunk_write_run _ _ _ _ _ _ d) in H as [Hg Ho]. split; [eapply grows_writes; [by left|done|done]|]. cbn. by rewrite Ep.
  - destruct (_ <=? _)%Z; [injection H as <- <- <-; split; [by split; cbn; unfold wown, wpinned; cbn; rewrite ?Ep; try done; (intros _; by left) || (intros _; exists [])|]|].
    { intros _. cbn. rewrite Ep. by intros ->. }
    runs H x E; [destruct x as [s1 p1]|]; apply on_spill_run in E as (c1 & E & ->); apply (chunk_write_run _ _ _ _ _ _ []) in E as [Hg1 Ho1].
    2: { split; [|done]. eapply grows_writes; [by right|done|done]. }
    assert (writes (s, WPacked p) (s1, WPacked (mkPw (pw_owner p) [] (Some c1)))) as Hw1 by (eapply grows_writes; [by right|done|done]).
    runs H x E; [|done]. injection E as <-. runs H x E; [|done]. injection E as <- <-. cbn in H. apply on_spill_run in H as (c2 & H & ->). apply (chunk_write_run _ _ _ _ _ _ (pw_buf p)) in H as [Hg2 Ho2].
    split; [etransitivity; [exact Hw1|]; eapply grows_writes; [by left|done|done]|]. intros Hr. cbn. rewrite Ep. intros ->. apply Ho2; [done|]. apply (Ho1 eq_refl), new_writer_ok.
Qed.

Lemma writer_write_run buf s w r s' w' d :
  writer_write opt sys buf (s, w) = (r, (s', w')) ->
  writes (s, w) (s', w') /\ (r = Ok tt -> w_ok s w d -> w_ok s' w' (d ++ buf)).
Proof.
  unfold writer_write, run_writer. cbn. destruct w as [c|p].
  - destruct (chunk_write _ _ _ _) as [r0 [s0 c0]] eqn:E. intros [= <- <- <-]. apply (chunk_write_run _ _ _ _ _ _ d) in E as [Hg Ho]. split; [eapply grows_writes; [by left|done|done]|done].
  - destruct (packed_write _ _ _ _) as [r0 [s0 p0]] eqn:E. intros [= <- <- <-]. by apply packed_write_run.
Qed.

(** * References *)
Definition secure (s : Fs M) (e : Extent.t) (b : bytes) : Prop := has_extent (disk s) e b /\ (Extent.kind e = Extent.kPack -> behind s e) /\ Extent.kind e <> Extent.kRados.
Definition secure_ref (s : Fs M) (ref : DataRef) (d : bytes) : Prop := exists bs, Forall2 (secure s) ref bs /\ d = concat bs.
Definition ref_chunks (ref : DataRef) : list Z := Extent.file_id <$> base.filter (λ e, Extent.kind e = Extent.kChunk) ref.
Lemma ref_chunks_concat l i : i ∈ ref_chunks (concat l) <-> exists ref, ref ∈ l /\ i ∈ ref_chunks ref.
Proof.
  induction l as [|a l IH]; cbn [concat].
  - split; [by intros H%not_elem_of_nil|intros (? & H & _); by apply not_elem_of_nil in H].
  - unfold ref_chunks in *. rewrite filter_app, fmap_app, elem_of_app, IH. split.
    + intros [H|(r & H1 & H2)]; [exists a; split; [left|done]|exists r; split; [by right|done]].
    + intros (r & [->|H1]%elem_of_cons & H2); [by left|right; by exists r].
Qed.

Lemma secure_kept s s' e b :
  (Extent.kind e = Extent.kChunk -> chunks s' !! Extent.file_id e = chunks s !! Extent.file_id e) -> (forall e b, psecure s e b -> psecure s' e b) ->
  secure s e b -> secure s' e b.
Proof.
  intros Hc Hp (Hh & Hb & Hr). destruct (Extent.kind e) eqn:Ek; [| |done].
  - split; [|by rewrite Ek]. destruct Hh as (f & Hf & Hi). exists f. split; [|done]. unfold file_of in *. rewrite Ek in *. by rewrite Hc.
  - destruct (Hp e b) as (_ & H1 & H2); [split; [done|split; [done|by apply Hb]]|]. split; [done|]. split; [done|by rewrite Ek].
Qed.
Lemma secure_ref_kept s s' ref d :
  (forall i, i ∈ ref_chunks ref -> chunks s' !! i = chunks s !! i) -> (forall e b, psecure s e b -> psecure s' e b) -> secure_ref s ref d -> secure_ref s' ref d.
Proof.
  intros Hc Hp (bs & H & ->). exists bs. split; [|done]. induction H as [|e b ref bs He _ IH]; [done|]. constructor.
  - apply (secure_kept s); [|done|done]. intros Hk. apply Hc. unfold ref_chunks. rewrite filter_cons_True by done. left.
  - apply IH. intros i Hi. apply Hc. unfold ref_chunks in *. rewrite filter_cons. case_decide; [by right|done].
Qed.
Lemma ref_chunks_on_disk s ref d i : secure_ref s ref d -> i ∈ ref_chunks ref -> is_Some (chunks s !! i).
Proof.
  intros (bs & H & _). unfold ref_chunks. intros (e & -> & [Hk He]%list_elem_of_filter)%list_elem_of_fmap. apply list_elem_of_lookup in He as [n Hn].
  destruct (Forall2_lookup_l _ _ _ _ _ H Hn) as (b & _ & (f & Hf & _) & _). unfold file_of in Hf. rewrite Hk in Hf. by exists f.
Qed.

Lemma chunk_secure_ref s ref d : has_ref (disk s) ref d -> Forall (λ e, Extent.kind e = Extent.kChunk) ref -> secure_ref s ref d /\ ref_chunks ref = Extent.file_id <$> ref.
Proof.
  intros (bs & H & ->) Hk. split.
  - exists bs. split; [|done]. clear -H Hk. induction H as [|e b ref bs He _ IH]; [done|]. apply list.Forall_cons in Hk as [Hk Hks]. constructor; [|by apply IH]. split; [done|]. by rewrite Hk.
  - unfold ref_chunks. clear -Hk. induction Hk as [|e ref He _ IH]; [done|]. rewrite filter_cons_True by done. cbn. by rewrite IH.
Qed.
Lemma psecure_secure s e b : psecure s e b -> secure s e b.
Proof. intros (H1 & H2 & H3). split; [done|]. split; [done|]. by rewrite H1. Qed.

(** [finish] ends the writer; its files are those of the reference. *)
Lemma writer_finish_run s w r s' w' d :
  0 < length (slots s) -> writer_finish opt sys clock busy (s, w) = (r, (s', w')) ->
  match r with
  | Throw _ => writes (s, w) (s', w')
  | Ok ref => exists wf, writes (s, w) (s', wf) /\ (forall t : Fs M, writer_discard sys w' t = (Ok tt, t)) /\
      (fs_ok s -> w_ok s w d -> secure_ref s' ref d /\ wown wf = ref_chunks ref /\ wpinned wf = ref_chunks ref)
  end.
Proof.
  intros Hl. unfold writer_finish, run_writer. cbn. destruct w as [c|p].
  - destruct (chunk_finish _ _) as [r0 [s0 c0]] eqn:E. intros [= <- <- <-]. apply (chunk_finish_run _ _ _ _ _ d) in E. destruct r0 as [ref|]; [|eapply grows_writes; [by left|done|done]].
    destruct E as (wf & Hg & -> & Eo & Hd). exists (WChunk wf). split; [eapply grows_writes; [by left|done|done]|]. split; [done|]. intros _ Hw.
    destruct (Hd Hw) as (H1 & H2 & H3). destruct (chunk_secure_ref _ _ _ H1 H2) as [H4 H5]. split; [done|]. rewrite H5. done.
  - destruct (packed_finish _ _ _ _ _) as [r0 [s0 p0]] eqn:E. intros [= <- <- <-]. unfold packed_finish in E. runs E x E0; [|done]. injection E0 as <- <-. cbn [snd] in E. destruct (pw_spill p) as [c|] eqn:Ep.
    + apply on_spill_run in E as (c' & E & ->). apply (chunk_finish_run _ _ _ _ _ d) in E. destruct r0 as [ref|]; [|eapply grows_writes; [by left|done|done]].
      destruct E as (wf & Hg & -> & Eo & Hd). exists (WPacked (mkPw (pw_owner p) (pw_buf p) (Some wf))). split; [eapply grows_writes; [by left|done|done]|]. split; [done|]. intros _. cbn. rewrite Ep. intros Hw.
      destruct (Hd Hw) as (H1 & H2 & H3). destruct (chunk_secure_ref _ _ _ H1 H2) as [H4 H5]. split; [done|]. rewrite H5. done.
    + case_bool_decide as Hb.
      * injection E as <- <- <-. exists (WPacked p). split; [done|]. split; [by cbn; unfold packed_discard; rewrite Ep|]. intros _. cbn. rewrite Ep, Hb. intros ->. unfold wown, wpinned. cbn. rewrite Ep.
        split; [by exists []|done].
      * unfold in_fs in E. cbn [fst snd] in E. destruct (append_pack_records _ _ _ _ _ s) as [o s1] eqn:Ea. injection E as <- <- <-. apply append_pack_records_run in Ea as ([A1 A2 A3] & Hc & He); [|done].
        assert (writes (s, WPacked p) (s1, WPacked p)) as Hw.
        { split; cbn; try done; [intros [Hok _] i _; by rewrite (proj1 (Hc Hok))|by left|]. intros [Hok _]. exists []. rewrite app_nil_r. split; [done|]. cbn. by apply Hc. }
        destruct o as [ref|]; [|done]. exists (WPacked p). split; [done|]. split; [by cbn; unfold packed_discard; rewrite Ep|]. cbn. rewrite Ep. intros [Hok _] ->. unfold wown, wpinned. cbn. rewrite Ep.
        specialize (He ref eq_refl Hok ltac:(by repeat constructor)). inversion He as [|e i es is' Hx Hn]; subst. inversion Hn; subst. unfold ref_chunks. destruct Hx as (Hk & Hx).
        rewrite filter_cons_False by (by rewrite Hk). split; [|done]. exists [pw_buf p]. cbn. rewrite app_nil_r. split; [|done]. constructor; [|constructor]. by apply psecure_secure.
Qed.

Lemma cw_ok_kept s s' w d : (forall i, i ∈ own w -> chunks s' !! i = chunks s !! i) -> cw_ok s w d -> cw_ok s' w d.
Proof.
  intros He (bs & cur & Hb & Hk & -> & Hp & Hc). exists bs, cur. split; [|split; [done|split; [done|split; [done|]]]].
  - eapply chunk_extents_kept; [done| |exact Hb]. intros i Hi. apply He. unfold own. apply elem_of_app. by left.
  - destruct (cw_fd w) eqn:Ef; [|done]. destruct Hc as (C1 & C2). split; [|done]. rewrite He; [done|]. unfold own. rewrite Ef. apply elem_of_app. right. left.
Qed.
Lemma w_ok_kept s s' w d : (forall i, i ∈ wown w -> chunks s' !! i = chunks s !! i) -> w_ok s w d -> w_ok s' w d.
Proof. unfold wown, w_ok. destruct w as [c|p]; cbn; [by apply cw_ok_kept|]. destruct (pw_spill p); [by apply cw_ok_kept|done]. Qed.
Lemma w_own_on_disk s w d i : w_ok s w d -> i ∈ wown w -> is_Some (chunks s !! i).
Proof.
  assert (forall c, cw_ok s c d -> i ∈ own c -> is_Some (chunks s !! i)) as H.
  { intros c (bs & cur & Hb & Hk & _ & _ & Hc) [Hi|Hi]%elem_of_app; [by eapply extents_on_disk|]. destruct (cw_fd c); [|by apply not_elem_of_nil in Hi]. apply list_elem_of_singleton in Hi as ->.
    destruct Hc as (-> & _). by eexists. }
  unfold wown, w_ok. destruct w as [c|p]; cbn; [by apply H|]. destruct (pw_spill p); [by apply H|by intros _ Hi%not_elem_of_nil].
Qed.
End proofs.
