(* ===== verification/FsSystem.v ===== *)
(** The file data plane at work: many writers, batches, rotation, sealing and removal, in
    any order and with any system call failing. What a finished session returned is read
    back byte for byte for as long as it is not removed; a session that failed leaves no
    chunk and no pin behind. *)

From S2P Require Import Prelude Bytes Checksum Backend Codec CodecProofs MetaUtil RocksMeta FsPack DuoWorld FsData BodyReader FsRead FsProofs.
From Stdlib Require Import ZArith Lia.
From stdpp Require Import base list gmap sets strings relations.
Open Scope lights3_scope.

Section sessions.
Context {M : Type} {hooks : FsHooks M}.
Context (opt : FsDataOptions) (sys : nat -> option nat) (clock : nat -> Z) (busy : nat -> nat -> bool) {Hcs : FsOptionsOk opt}.
Abbreviation chunks s := (d_chunks (disk s)).
Abbreviation packs s := (d_packs (disk s)).
Abbreviation F := (ST (Fs M) S3ErrorCode).

Lemma open_writer_ok len owner (s : Fs M) : wown (open_writer opt len owner) = [] /\ wpinned (open_writer opt len owner) = [] /\ wopen (open_writer opt len owner) /\ w_ok opt s (open_writer opt len owner) [].
Proof.
  unfold open_writer. destruct (_ || _).
  - split; [done|]. split; [done|]. split; [|apply new_writer_ok]. by intros c [= <-].
  - done.
Qed.

Lemma write_blocks_run blocks s w r s' w' d :
  write_blocks opt sys blocks (s, w) = (r, (s', w')) ->
  writes (s, w) (s', w') /\ (r = Ok tt -> w_ok opt s w d -> w_ok opt s' w' (d ++ concat blocks)).
Proof.
  revert s w d. induction blocks as [|b blocks IH]; intros s w d H; cbn [write_blocks concat] in *.
  - injection H as <- <- <-. split; [done|]. by rewrite app_nil_r.
  - runs H x E; [destruct x as [s1 w1]|]; apply (writer_write_run opt sys _ _ _ _ _ _ d) in E as [Hw Ho]; [|done]. apply (IH _ _ (d ++ b)) in H as [Hw2 Ho2].
    split; [by transitivity (s1, w1)|]. intros Hr Hok. rewrite app_assoc. auto.
Qed.

(** A session up to its end, and the writer it leaves. *)
Definition body (len : option Z) (owner : bytes) (blocks : list bytes) (s : Fs M) : result DataRef * (Fs M * DataWriter) :=
  (_ ← write_blocks opt sys blocks; writer_finish opt sys clock busy) (s, open_writer opt len owner).
Lemma session_body len owner blocks s :
  session opt sys clock busy len owner blocks s = ((body len owner blocks s).1, (writer_discard sys (body len owner blocks s).2.2 (body len owner blocks s).2.1).2).
Proof. unfold session. fold (body len owner blocks s). by destruct (body len owner blocks s) as [r [s' w]]. Qed.

Lemma body_run len owner blocks s r s' w' :
  fs_ok s -> body len owner blocks s = (r, (s', w')) ->
  match r with
  | Throw _ => writes (s, open_writer opt len owner) (s', w')
  | Ok ref => exists wf, writes (s, open_writer opt len owner) (s', wf) /\ (forall t : Fs M, writer_discard sys w' t = (Ok tt, t)) /\
      secure_ref s' ref (concat blocks) /\ wown wf = ref_chunks ref /\ wpinned wf = ref_chunks ref
  end.
Proof.
  intros Hok H. unfold body in H. destruct (open_writer_ok len owner s) as (_ & _ & _ & Hw0).
  runs H x E; [destruct x as [s1 w1]|]; apply (write_blocks_run _ _ _ _ _ _ []) in E as [Hw Ho]; [|done]. specialize (Ho eq_refl Hw0). cbn in Ho.
  apply (writer_finish_run opt sys clock busy _ _ _ _ _ (concat blocks)) in H; [|apply (wr_ok _ _ Hw Hok)]. destruct r as [ref|]; [|by transitivity (s1, w1)].
  destruct H as (wf & Hwf & Hd & Hs). exists wf. split; [by transitivity (s1, w1)|]. split; [done|]. apply Hs; [by apply (wr_ok _ _ Hw)|done].
Qed.

Lemma discard_run w (s : Fs M) :
  wopen w -> removes sys (wown w) s (writer_discard sys w s).2 /\ fs_pins (writer_discard sys w s).2 = fold_left (λ t i, unpin_id i t) (wpinned w) (fs_pins s).
Proof.
  intros Hw. assert (forall c, wspill w = Some c -> removes sys (own c) s (chunk_discard sys c s).2 /\ fs_pins (chunk_discard sys c s).2 = fold_left (λ t i, unpin_id i t) (pinned c) (fs_pins s)) as H.
  { intros c Hc. by apply chunk_discard_run, Hw. }
  unfold wown, wpinned. destruct w as [c|p]; cbn in *; [by apply H|]. unfold packed_discard. destruct (pw_spill p) as [c|]; [by apply H|].
  split; [|done]. split; [by left|]. split; [by intros _ i Hi%not_elem_of_nil|]. cbn. repeat (split; [done|]). lia.
Qed.

(** Removing the writer's own files touches nothing that was there before it. *)
Lemma removes_adds (x : Fs M * DataWriter) s1 w1 s2 l :
  fs_ok x.1 -> wown x.2 = [] -> writes x (s1, w1) -> removes sys l s1 s2 -> (forall i, i ∈ l -> i ∈ wown w1) -> adds x.1 s2.
Proof.
  intros Hok H0 Hw (R1 & _ & R3 & R4 & _) Hl. pose proof (wr_ok _ _ Hw Hok) as Hok1. cbn in Hok1. split; intros _.
  - unfold fs_ok, slots_ok in *. by rewrite R3, R4.
  - intros i Hi. assert (i ∉ wown w1) as Hn.
    { intros Hx. destruct (wr_new _ _ Hw Hok i Hx) as [Hn|Hn]; [rewrite H0 in Hn; by apply not_elem_of_nil in Hn|]. rewrite Hn in Hi. by destruct Hi. }
    rewrite <- (wr_rest _ _ Hw Hok i Hn). destruct (R1 i) as [?|[Hx _]]; [done|]. by destruct Hn; apply Hl.
  - intros e b Hp. apply (wr_packs _ _ Hw Hok) in Hp as (P1 & (f & Hf & Hi) & P3). split; [done|]. split; [|intros k sl; rewrite R4; exact (P3 k sl)].
    exists f. split; [|done]. unfold file_of in *. rewrite P1 in *. cbn in *. by rewrite R3.
Qed.

(** The files of a new reference were not there. *)
Definition fresh_ref (s : Fs M) (ref : DataRef) : Prop := forall i, i ∈ ref_chunks ref -> chunks s !! i = None.
Lemma fresh_ref_adds s s' ref : fs_ok s -> adds s s' -> fresh_ref s' ref -> fresh_ref s ref.
Proof. intros Hok Ha Hf i Hi. apply eq_None_not_Some. intros He. rewrite <- (ad_chunks _ _ Ha Hok i He), (Hf i Hi) in He. by destruct He. Qed.

Lemma session_run len owner blocks s r s' :
  fs_ok s -> session opt sys clock busy len owner blocks s = (r, s') ->
  adds s s' /\ forall ref, r = Ok ref -> secure_ref s' ref (concat blocks) /\ fresh_ref s ref.
Proof.
  intros Hok H. rewrite session_body in H. destruct (body len owner blocks s) as [o [s1 w1]] eqn:E. cbn [fst snd] in H. injection H as <- <-. apply body_run in E; [|done].
  destruct (open_writer_ok len owner s) as (H1 & _ & H3 & _). destruct o as [ref|e].
  - destruct E as (wf & Hw & Hd & Hs & Ho & _). rewrite Hd. cbn. split.
    2: { intros ? [= <-]. split; [done|]. intros i Hi. rewrite <- Ho in Hi. destruct (wr_new _ _ Hw Hok i Hi) as [Hn|Hn]; [cbn in Hn; rewrite H1 in Hn; by apply not_elem_of_nil in Hn|done]. }
    apply (removes_adds (s, open_writer opt len owner) s1 wf s1 [] Hok H1 Hw); [|by intros i Hi%not_elem_of_nil]. split; [by left|]. split; [by intros _ i Hi%not_elem_of_nil|]. repeat (split; [done|]). lia.
  - split; [|done]. destruct (discard_run w1 s1 (wr_open _ _ E H3)) as [Hr _]. by apply (removes_adds (s, open_writer opt len owner) s1 w1 _ (wown w1) Hok H1 E Hr).
Qed.

(** ** A session that failed leaves nothing *)
Definition chunk_of (i : Z) : Extent.t := Extent.mk Extent.kChunk i 0 0 0.
Lemma pin_fold l t : fold_left (λ t i, pin_id i t) l t = (pin (chunk_of <$> l) t).2.
Proof. unfold pin. cbn [snd]. revert t. induction l as [|i l IH]; intros t; cbn; [done|]. apply IH. Qed.
Lemma unpin_fold l t : fold_left (λ t i, unpin_id i t) l t = unpin (pin (chunk_of <$> l) t).1 t.
Proof.
  unfold unpin, pin. cbn [fst]. revert t. enough (forall t t0, fold_left (λ t i, unpin_id i t) l t = fold_left (λ t h, unpin_key (h_is_pack h) (h_file_id h) t) (handle_of <$> (chunk_of <$> l)) t) as H by (intros t; by apply H).
  induction l as [|i l IH]; intros t t0; cbn; [done|]. by apply (IH _ t0).
Qed.
Lemma pin_unpin l t : pins_ok t -> forall p id, pin_count p id (fold_left (λ t i, unpin_id i t) l (fold_left (λ t i, pin_id i t) l t)) = pin_count p id t.
Proof.
  intros Ht p id. rewrite unpin_fold, pin_fold. set (es := chunk_of <$> l). change ((pin es (pin es t).2).1) with (pin es t).1.
  destruct (pin_all p id es t Ht) as [Hok Hc]. destruct (unpin_all p id (pin es t).1 (pin es t).2 Hok) as [_ ->].
  - intros q i. destruct (pin_all q i es t Ht) as [_ ->]. assert (0 <= pin_count q i t)%Z; [|lia]. unfold pin_count. destruct (pin_refs q t !! i) eqn:E; cbn; [specialize (Ht q i _ E); lia|lia].
  - rewrite Hc. lia.
Qed.

(** C28: A session that fails leaves no trace: wherever it failed, if the system calls of its
    destructor succeed, the chunk files are what they were before it, and every file has
    as many pins as before. *)
Theorem failed_session_clean len owner blocks s e (Hok : fs_ok s) (Hp : pins_ok (fs_pins s))
    (Hf : (body len owner blocks s).1 = Throw e) (Hsys : forall t, ticks (body len owner blocks s).2.1 <= t -> is_Some (sys t)) :
  let s' := (session opt sys clock busy len owner blocks s).2 in
  chunks s' = chunks s /\ forall p id, pin_count p id (fs_pins s') = pin_count p id (fs_pins s).
Proof.
  rewrite session_body. destruct (body len owner blocks s) as [r [s1 w1]] eqn:E. cbn [fst snd] in *. subst r. apply body_run in E; [|done].
  destruct (open_writer_ok len owner s) as (H1 & H2 & H3 & _). destruct (discard_run w1 s1 (wr_open _ _ E H3)) as [(R1 & R2 & _) Hu].
  destruct (wr_pins _ _ E Hok) as (new & Hn & Hpin). cbn in Hn, Hpin. rewrite H2 in Hn. cbn in Hn. split.
  - apply map_eq. intros i. destruct (decide (i ∈ wown w1)) as [Hi|Hi].
    + rewrite R2 by done. destruct (wr_new _ _ E Hok i Hi) as [Hx|Hx]; [cbn in Hx; rewrite H1 in Hx; by apply not_elem_of_nil in Hx|done].
    + destruct (R1 i) as [->|[? _]]; [by apply (wr_rest _ _ E Hok)|done].
  - intros p id. rewrite Hu, Hn, Hpin. by apply pin_unpin.
Qed.

(** * Batches *)
Lemma adds_secure_ref (s s' : Fs M) ref d : fs_ok s -> adds s s' -> secure_ref s ref d -> secure_ref s' ref d.
Proof.
  intros Hok Ha Hs. apply (secure_ref_kept s); [|by apply (ad_packs _ _ Ha)|done]. intros i Hi. apply (ad_chunks _ _ Ha Hok). by eapply ref_chunks_on_disk.
Qed.
Lemma merge_batch_run items exts s r s' :
  fs_ok s -> Forall2 (λ e i, psecure s e (it_payload i)) exts (base.filter (λ i, via_pack opt i = true) items) -> merge_batch opt sys clock busy items exts s = (r, s') ->
  adds s s' /\ forall refs, r = Ok refs -> Forall2 (λ ref i, secure_ref s' ref (it_payload i) /\ fresh_ref s ref) refs items.
Proof.
  revert exts s r s'. induction items as [|i items IH]; intros exts s r s' Hok He H; cbn [merge_batch] in H.
  - injection H as <- <-. split; [done|]. intros refs [= <-]. constructor.
  - destruct (via_pack opt i) eqn:Ev.
    + rewrite filter_cons_True in He by done. inversion He as [|e i' exts' is' Hx Hxs]; subst. runs H s1 E; apply IH in E as [Ha Hr]; try done.
      injection H as <- <-. split; [done|]. intros refs [= <-]. constructor; [|by apply Hr]. split.
      * exists [it_payload i]. cbn. rewrite app_nil_r. split; [|done]. constructor; [by apply psecure_secure, (ad_packs _ _ Ha)|constructor].
      * intros j. unfold ref_chunks. change (take 1 (e :: exts')) with [e]. rewrite filter_cons. rewrite decide_False by (by rewrite (proj1 Hx)). by intros Hj%not_elem_of_nil.
    + rewrite filter_cons_False in He by (by rewrite Ev). runs H s1 E; apply session_run in E as [Ha Hs]; try done. pose proof (ad_ok _ _ Ha Hok) as Hok1.
      assert (Forall2 (λ e i, psecure s1 e (it_payload i)) exts (base.filter (λ i, via_pack opt i = true) items)) as He1 by (eapply Forall2_impl; [exact He|]; intros e j Hj; by apply (ad_packs _ _ Ha)).
      runs H s2 E; apply IH in E as [Ha2 Hr]; try done; [|split; [by transitivity s1|done]].
      injection H as <- <-. split; [by transitivity s1|]. intros refs [= <-]. destruct (Hs _ eq_refl) as [Hs1 Hs2]. cbn in Hs1. rewrite app_nil_r in Hs1. constructor; [split; [by apply (adds_secure_ref s1)|done]|].
      eapply Forall2_impl; [by apply Hr|]. intros ref j [Hj1 Hj2]. split; [done|]. by apply (fresh_ref_adds s s1).
Qed.

Lemma pack_items_run items s r s1 (pk := base.filter (λ i, via_pack opt i = true) items) :
  fs_ok s -> (if bool_decide (pk = []) then mret [] else append_pack_records opt sys clock busy pk) s = (r, s1) ->
  adds s s1 /\ forall exts, r = Ok exts -> Forall2 (λ e i, psecure s1 e (it_payload i)) exts pk.
Proof.
  intros Hok E. assert (Forall (λ i, it_payload i <> []) pk) as Hne.
  { apply list.Forall_forall. intros i [Hi _]%list_elem_of_filter. unfold via_pack in Hi. intros E0. rewrite E0 in Hi. rewrite bool_decide_true, andb_false_r in Hi by done. done. }
  case_bool_decide as Hp; [rewrite Hp; injection E as <- <-; split; [done|]; intros exts [= <-]; constructor|]. apply append_pack_records_run in E as (Ha & _ & He); [|apply Hok]. split; [done|].
  intros exts ->. apply He; [done|apply Hok|done].
Qed.
Lemma write_batch_run items s r s' :
  fs_ok s -> write_batch opt sys clock busy items s = (r, s') ->
  adds s s' /\ forall refs, r = Ok refs -> Forall2 (λ ref i, secure_ref s' ref (it_payload i) /\ fresh_ref s ref) refs items.
Proof.
  intros Hok H. unfold write_batch in H. runs H s1 E; apply pack_items_run in E as [Ha Hf]; try done. specialize (Hf _ eq_refl).
  apply merge_batch_run in H as [Ha2 Hr]; [|by apply (ad_ok _ _ Ha)|done]. split; [by transitivity s1|].
  intros refs Hrefs. eapply Forall2_impl; [by apply Hr|]. intros ref j [Hj1 Hj2]. split; [done|]. by apply (fresh_ref_adds s s1).
Qed.

(** References of one batch share no chunk. *)
Definition apart_refs (refs : list DataRef) : Prop := ForallOrdPairs (λ r1 r2, forall i, i ∈ ref_chunks r1 -> i ∉ ref_chunks r2) refs.
Lemma merge_batch_apart items exts s refs s' :
  fs_ok s -> Forall2 (λ e i, psecure s e (it_payload i)) exts (base.filter (λ i, via_pack opt i = true) items) -> merge_batch opt sys clock busy items exts s = (Ok refs, s') ->
  apart_refs refs.
Proof.
  revert exts s refs s'. induction items as [|i items IH]; intros exts s refs s' Hok He H; cbn [merge_batch] in H; [injection H as <- <-; constructor|].
  destruct (via_pack opt i) eqn:Ev.
  - rewrite filter_cons_True in He by done. inversion He as [|e i' exts' is' Hx Hxs]; subst. runs H s1 E. injection H as <- <-. apply IH in E; [|done|done]. constructor; [|done].
    apply list.Forall_forall. intros ref _ j. unfold ref_chunks at 1. change (take 1 (e :: exts')) with [e]. rewrite filter_cons, decide_False by (by rewrite (proj1 Hx)). by intros ?%not_elem_of_nil.
  - rewrite filter_cons_False in He by (by rewrite Ev). runs H s1 E. apply session_run in E as [Ha Hs]; [|done]. pose proof (ad_ok _ _ Ha Hok) as Hok1. destruct (Hs _ eq_refl) as [Hs1 _].
    assert (Forall2 (λ e i, psecure s1 e (it_payload i)) exts (base.filter (λ i, via_pack opt i = true) items)) as He1 by (eapply Forall2_impl; [exact He|]; intros e j Hj; by apply (ad_packs _ _ Ha)).
    runs H s2 E. injection H as <- <-. pose proof (IH _ _ _ _ Hok1 He1 E) as Hap. apply merge_batch_run in E as [_ Hr]; [|done|done]. constructor; [|done].
    specialize (Hr _ eq_refl). apply list.Forall_forall. intros ref Hin j Hj Hj'. apply list_elem_of_lookup in Hin as [n Hn]. destruct (Forall2_lookup_l _ _ _ _ _ Hr Hn) as (it & _ & _ & Hf).
    destruct (ref_chunks_on_disk s1 _ _ j Hs1 Hj) as [c Hc]. by rewrite (Hf j Hj') in Hc.
Qed.
Lemma write_batch_apart items s refs s' : fs_ok s -> write_batch opt sys clock busy items s = (Ok refs, s') -> apart_refs refs.
Proof.
  intros Hok H. unfold write_batch in H. runs H s1 E.
  destruct (pack_items_run items s (Ok a) s1 Hok E) as [Ha Hf]. eapply merge_batch_apart; [by apply (ad_ok _ _ Ha)| |exact H]. by apply Hf.
Qed.

(** * Sealing and closing *)
Lemma close_aged_run max_age now n k (s : Fs M) r s' : n + k <= length (slots s) -> close_aged busy max_age now n k s = (r, s') -> pkeeps s s'.
Proof.
  revert k s r s'. induction n as [|n IH]; intros k s r s' Hl H; cbn [close_aged] in H; [by injection H as _ <-|]. rewrite ST_get_bind in H. runs H s1 E; [|done]. injection E as <- <-.
  destruct (_ || _); [by apply IH in H; [|lia]|]. runs H s1 E; apply close_slot_run in E as (_ & Hp & _); try lia; [|done].
  runs H s2 E; apply IH in E as Hp2; try (rewrite (pk_slots _ _ Hp); lia); [injection H as _ <-|]; by transitivity s1.
Qed.
Lemma seal_aged_packs_run ms s r s' : seal_aged_packs clock busy ms s = (r, s') -> adds s s'.
Proof.
  intros H. apply pkeeps_adds. intros _. unfold seal_aged_packs in H. destruct (ms <=? 0)%Z; [by injection H as _ <-|]. runs H s1 E; [|done]. injection E as <- <-.
  rewrite ST_get_bind in H. assert (pkeeps s (turn s)) as H0 by (by apply still_pkeeps).
  runs H s2 E; apply close_aged_run in E as Hp; try lia; [|by transitivity (turn s)]. runs H s3 E3; apply flush_seals_run in E3 as Hp3; [injection H as _ <-|]; (transitivity (turn s); [done|]; by transitivity s2).
Qed.
Lemma close_slots_run n k (s : Fs M) r s' : n + k <= length (slots s) -> close_slots n k s = (r, s') -> pkeeps s s'.
Proof.
  revert k s r s'. induction n as [|n IH]; intros k s r s' Hl H; cbn [close_slots] in H; [by injection H as _ <-|]. runs H s1 E; [|done]. injection E as <- <-.
  assert (forall r1 s1, (if sl_fd (default no_slot (slots s !! k)) then close_slot_locked k else mret tt) s = (r1, s1) -> pkeeps s s1) as Hc.
  { intros r1 s1. destruct (sl_fd _); [|by intros [= _ <-]]. intros E. apply close_slot_run in E as (_ & Hp & _); [done|lia]. }
  runs H s1 E; apply Hc in E as Hp; [|done]. apply IH in H; [by transitivity s1|]. rewrite (pk_slots _ _ Hp). lia.
Qed.
Lemma fs_close_run s r s' : fs_close s = (r, s') -> adds s s'.
Proof.
  intros H. apply pkeeps_adds. intros _. unfold fs_close in H. rewrite ST_get_bind in H. runs H s1 E; apply close_slots_run in E as Hp; try lia; [|done].
  apply flush_seals_run in H. by transitivity s1.
Qed.

(** * Removal *)
Lemma remove_run es (s : Fs M) r s' : FsData.remove sys es s = (r, s') ->
  packs s' = packs s /\ slots s' = slots s /\ forall i, i ∉ ref_chunks es -> chunks s' !! i = chunks s !! i.
Proof.
  revert s. induction es as [|e es IH]; intros s H; cbn [FsData.remove] in H; [by injection H as _ <-|]. unfold ref_chunks in *. rewrite filter_cons. case_bool_decide as Hk.
  - rewrite decide_True by done. runs H s1 E; apply must_run in E as [-> _]; [|done]. runs H s2 E; [|done]. injection E as <-. apply IH in H as (H1 & H2 & H3). rewrite H1, H2. split; [done|]. split; [done|].
    intros i Hi. cbn in Hi. apply not_elem_of_cons in Hi as [Hn Hi]. rewrite H3 by done. cbn. by apply lookup_delete_ne.
  - rewrite decide_False by done. by apply IH.
Qed.
Lemma remove_pack_run p (s : Fs M) r s' : remove_pack sys p s = (r, s') ->
  chunks s' = chunks s /\ slots s' = slots s /\ forall q, q <> p -> packs s' !! q = packs s !! q.
Proof.
  unfold remove_pack. intros H. runs H s1 E; apply must_run in E as [-> _]; [|done]. injection H as _ <-. cbn. split; [done|]. split; [done|]. intros q Hq. by apply lookup_delete_ne.
Qed.

(** * The store and its clients

    The sessions in progress with the bytes each was given, and the references handed out
    and not removed, with the bytes they stand for. *)
Record FsSys := mkFsSys { sy_fs : Fs M; sy_writers : gmap nat (DataWriter * bytes); sy_refs : list (DataRef * bytes) }.

Definition in_pack (p : Z) (rd : DataRef * bytes) : bool := existsb (λ e, bool_decide (Extent.kind e = Extent.kPack) && (Extent.file_id e =? p)%Z) rd.1.

Inductive fs_step : FsSys -> FsSys -> Prop :=
| StOpen n len owner s ws rs : ws !! n = None -> fs_step (mkFsSys s ws rs) (mkFsSys s (<[n := (open_writer opt len owner, [])]> ws) rs)
| StWrite n w d b r s s' w' ws rs :
    ws !! n = Some (w, d) -> writer_write opt sys b (s, w) = (r, (s', w')) ->
    fs_step (mkFsSys s ws rs)
      (match r with Ok _ => mkFsSys s' (<[n := (w', d ++ b)]> ws) rs | Throw _ => mkFsSys (writer_discard sys w' s').2 (delete n ws) rs end)
| StFinish n w d r s s' w' ws rs :
    ws !! n = Some (w, d) -> writer_finish opt sys clock busy (s, w) = (r, (s', w')) ->
    fs_step (mkFsSys s ws rs)
      (mkFsSys (writer_discard sys w' s').2 (delete n ws) (match r with Ok ref => (ref, d) :: rs | Throw _ => rs end))
| StDrop n w d s ws rs : ws !! n = Some (w, d) -> fs_step (mkFsSys s ws rs) (mkFsSys (writer_discard sys w s).2 (delete n ws) rs)
| StBatch items r s s' ws rs :
    write_batch opt sys clock busy items s = (r, s') ->
    fs_step (mkFsSys s ws rs) (mkFsSys s' ws (match r with Ok refs => zip refs (it_payload <$> items) | Throw _ => [] end ++ rs))
| StSeal ms r s s' ws rs : seal_aged_packs clock busy ms s = (r, s') -> fs_step (mkFsSys s ws rs) (mkFsSys s' ws rs)
| StClose r s s' ws rs : fs_close s = (r, s') -> fs_step (mkFsSys s ws rs) (mkFsSys s' ws rs)
| StRemove es r s s' ws rs :
    FsData.remove sys es s = (r, s') -> (forall n w d i, ws !! n = Some (w, d) -> i ∈ ref_chunks es -> i ∉ wown w) ->
    fs_step (mkFsSys s ws rs) (mkFsSys s' ws (base.filter (λ rd, Forall (λ i, i ∉ ref_chunks es) (ref_chunks rd.1)) rs))
| StRemovePack p r s s' ws rs :
    remove_pack sys p s = (r, s') -> (forall k sl, slots s !! k = Some sl -> sl_fd sl = true -> sl_id sl <> p) ->
    fs_step (mkFsSys s ws rs) (mkFsSys s' ws (base.filter (λ rd, in_pack p rd = false) rs))
| StMeta m t s ws rs : fs_step (mkFsSys s ws rs) (mkFsSys (set_hooked m (set_pins t s)) ws rs).

Record fs_inv (x : FsSys) : Prop := {
  fi_ok : fs_ok (sy_fs x);
  fi_writers n w d : sy_writers x !! n = Some (w, d) -> w_ok opt (sy_fs x) w d /\ wopen w;
  fi_apart m n v w i : sy_writers x !! m = Some v -> sy_writers x !! n = Some w -> m <> n -> i ∈ wown v.1 -> i ∉ wown w.1;
  fi_refs ref d : (ref, d) ∈ sy_refs x -> secure_ref (sy_fs x) ref d;
  fi_free ref d n w i : (ref, d) ∈ sy_refs x -> sy_writers x !! n = Some w -> i ∈ ref_chunks ref -> i ∉ wown w.1 }.

(** ** Steps of one writer *)
Section writer.
Context (x : FsSys) (Hx : fs_inv x) (n : nat) (w : DataWriter) (d : bytes) (Hn : sy_writers x !! n = Some (w, d)).
Context (s' : Fs M) (w' : DataWriter) (Hw : writes (sy_fs x, w) (s', w')).

(** The files of the others exist and are not its own. *)
Lemma others_free i : (exists m v, m <> n /\ sy_writers x !! m = Some v /\ i ∈ wown v.1) \/ (exists ref b, (ref, b) ∈ sy_refs x /\ i ∈ ref_chunks ref) -> i ∉ wown w' /\ chunks s' !! i = chunks (sy_fs x) !! i.
Proof.
  intros Hi. assert (i ∉ wown w /\ is_Some (chunks (sy_fs x) !! i)) as [Hf He].
  { destruct Hi as [(m & [v b] & Hm & Hv & Hi)|(ref & b & Hr & Hi)].
    - split; [intros Hc; by apply (fi_apart _ Hx n m _ _ i Hn Hv (not_eq_sym Hm) Hc)|]. destruct (fi_writers _ Hx _ _ _ Hv) as [Ho _]. by eapply w_own_on_disk.
    - split; [by apply (fi_free _ Hx ref b n _ i Hr Hn Hi)|]. eapply ref_chunks_on_disk; [by apply (fi_refs _ Hx ref b)|done]. }
  assert (i ∉ wown w') as Hf'; [|split; [done|by apply (wr_rest _ _ Hw (fi_ok _ Hx))]].
  intros Hc. destruct (wr_new _ _ Hw (fi_ok _ Hx) i Hc) as [?|Hnone]; [done|]. cbn in Hnone. rewrite Hnone in He. by destruct He.
Qed.

(** The others, once the store is [s2]: as after the step, but for files of [w']. *)
Lemma others_inv s2 ws :
  (forall m v, ws !! m = Some v -> m <> n /\ sy_writers x !! m = Some v) -> fs_ok s2 -> (forall i, i ∉ wown w' -> chunks s2 !! i = chunks s' !! i) ->
  (forall e b, psecure s' e b -> psecure s2 e b) -> fs_inv (mkFsSys s2 ws (sy_refs x)).
Proof.
  intros Hws Hok Hc Hp. pose proof (wr_packs _ _ Hw (fi_ok _ Hx)) as Hps. split; cbn.
  - done.
  - intros m v b [Hm Hv]%Hws. destruct (fi_writers _ Hx _ _ _ Hv) as [Ho Hop]. split; [|done]. apply (w_ok_kept opt (sy_fs x)); [|done]. intros i Hi.
    destruct (others_free i) as [H1 H2]; [left; by exists m, (v, b)|]. by rewrite Hc, H2.
  - intros m1 m2 v1 v2 i [_ H1]%Hws [_ H2]%Hws. by eapply (fi_apart _ Hx).
  - intros ref b Hr. apply (secure_ref_kept (sy_fs x)); [|intros e c He; by apply Hp, Hps|by apply (fi_refs _ Hx)]. intros i Hi.
    destruct (others_free i) as [H1 H2]; [right; by exists ref, b|]. by rewrite Hc, H2.
  - intros ref b m v i Hr [_ Hv]%Hws. by eapply (fi_free _ Hx).
Qed.

Lemma others_discard : fs_inv (mkFsSys (writer_discard sys w' s').2 (delete n (sy_writers x)) (sy_refs x)).
Proof.
  destruct (fi_writers _ Hx _ _ _ Hn) as [_ Hop]. pose proof (wr_open _ _ Hw Hop) as Hop'. destruct (discard_run w' s' Hop') as [(R1 & _ & R3 & R4 & _) _].
  apply others_inv.
  - intros m v [? ?]%lookup_delete_Some. done.
  - pose proof (wr_ok _ _ Hw (fi_ok _ Hx)) as Hok. unfold fs_ok, slots_ok in *. by rewrite R3, R4.
  - intros i Hi. destruct (R1 i) as [?|[? _]]; done.
  - intros e b (H1 & (f & Hf & Hi) & H3). split; [done|]. split; [|unfold behind; rewrite R4; exact H3]. exists f. split; [|done]. unfold file_of in *. rewrite H1 in *. by rewrite R3.
Qed.
End writer.

(** ** Steps of the store *)
Lemma adds_inv x s' : fs_inv x -> adds (sy_fs x) s' -> fs_inv (mkFsSys s' (sy_writers x) (sy_refs x)).
Proof.
  intros [H1 H2 H3 H4 H5] Ha. split; cbn; [by apply (ad_ok _ _ Ha)| |done| |done].
  - intros n w d Hn. destruct (H2 n w d Hn) as [Hw Ho]. split; [|done]. apply (w_ok_kept opt (sy_fs x)); [|done]. intros i Hi. apply (ad_chunks _ _ Ha H1). by eapply w_own_on_disk.
  - intros ref d Hr. apply (adds_secure_ref (sy_fs x)); auto.
Qed.
Lemma add_ref x ref d :
  fs_inv x -> secure_ref (sy_fs x) ref d -> (forall n w i, sy_writers x !! n = Some w -> i ∈ ref_chunks ref -> i ∉ wown w.1) -> fs_inv (mkFsSys (sy_fs x) (sy_writers x) ((ref, d) :: sy_refs x)).
Proof.
  intros [H1 H2 H3 H4 H5] Hr Hf. split; cbn; [done..| |].
  - intros ref' d' [[= -> ->]|Hin]%elem_of_cons; auto.
  - intros ref' d' n w i [[= -> ->]|Hin]%elem_of_cons; eauto.
Qed.

Lemma write_inv n w d b r s s' w' ws rs :
  fs_inv (mkFsSys s ws rs) -> ws !! n = Some (w, d) -> writer_write opt sys b (s, w) = (r, (s', w')) ->
  fs_inv (match r with Ok _ => mkFsSys s' (<[n := (w', d ++ b)]> ws) rs | Throw _ => mkFsSys (writer_discard sys w' s').2 (delete n ws) rs end).
Proof.
  intros Hx Hn E. apply (writer_write_run opt sys _ _ _ _ _ _ d) in E as [Hw Ho]. destruct r as [[]|e]; [|exact (others_discard _ Hx n w d Hn s' w' Hw)].
  pose proof (others_inv _ Hx n w d Hn s' w' Hw s' (delete n ws)) as [H1 H2 H3 H4 H5]; [intros m v [? ?]%lookup_delete_Some; done|by apply (wr_ok _ _ Hw (fi_ok _ Hx))|done|done|].
  destruct (fi_writers _ Hx n w d Hn) as [Hok Hop]. split; cbn in *; [done| | |done|].
  - intros m v c [[<- [= <- <-]]|[Hm Hv]]%lookup_insert_Some; [split; [by apply Ho|by apply (wr_open _ _ Hw)]|]. apply (H2 m). by rewrite lookup_delete_ne.
  - assert (forall m v i, m <> n -> ws !! m = Some v -> i ∈ wown v.1 -> i ∉ wown w') as Hf.
    { intros m v i Hm Hv Hi. apply (others_free _ Hx n w d Hn s' w' Hw i). left. by exists m, v. }
    intros m1 m2 v1 v2 i [[<- <-]|[Hm1 Hv1]]%lookup_insert_Some [[<- <-]|[Hm2 Hv2]]%lookup_insert_Some Hm Hi; cbn in *; [done| |by eapply Hf|].
    + intros Hc. by apply (Hf m2 v2 i (not_eq_sym Hm) Hv2 Hc).
    + apply (H3 m1 m2 v1 v2 i); [by rewrite lookup_delete_ne..|done|done].
  - intros ref c m v i Hr [[<- <-]|[Hm Hv]]%lookup_insert_Some Hi; [|apply (H5 ref c m v i Hr); [by rewrite lookup_delete_ne|done]].
    apply (others_free _ Hx n w d Hn s' w' Hw i). right. by exists ref, c.
Qed.

Lemma finish_inv n w d r s s' w' ws rs :
  fs_inv (mkFsSys s ws rs) -> ws !! n = Some (w, d) -> writer_finish opt sys clock busy (s, w) = (r, (s', w')) ->
  fs_inv (mkFsSys (writer_discard sys w' s').2 (delete n ws) (match r with Ok ref => (ref, d) :: rs | Throw _ => rs end)).
Proof.
  intros Hx Hn E. destruct (fi_writers _ Hx n w d Hn) as [Hok Hop]. apply (writer_finish_run opt sys clock busy _ _ _ _ _ d) in E; [|apply (fi_ok _ Hx)].
  destruct r as [ref|e]; [|exact (others_discard _ Hx n w d Hn s' w' E)]. destruct E as (wf & Hw & -> & Hs). cbn [snd]. destruct (Hs (fi_ok _ Hx) Hok) as (Hr & Ho & _).
  refine (add_ref (mkFsSys s' (delete n ws) rs) ref d _ _ _); cbn.
  - apply (others_inv _ Hx n w d Hn s' wf Hw); [intros m v [? ?]%lookup_delete_Some; done|by apply (wr_ok _ _ Hw (fi_ok _ Hx))|done|done].
  - done.
  - intros m v i [Hm Hv]%lookup_delete_Some Hi Hc. rewrite <- Ho in Hi. destruct (others_free _ Hx n w d Hn s' wf Hw i) as [Hf _]; [left; by exists m, v|done].
Qed.

Lemma batch_refs_inv x refs ds :
  fs_inv x -> Forall2 (secure_ref (sy_fs x)) refs ds -> (forall ref n w i, ref ∈ refs -> sy_writers x !! n = Some w -> i ∈ ref_chunks ref -> i ∉ wown w.1) ->
  fs_inv (mkFsSys (sy_fs x) (sy_writers x) (zip refs ds ++ sy_refs x)).
Proof.
  intros Hx H. induction H as [|ref d refs ds Hr _ IH]; intros Hf; [by destruct x|]. refine (add_ref (mkFsSys (sy_fs x) (sy_writers x) (zip refs ds ++ sy_refs x)) ref d _ _ _); cbn.
  - apply IH. intros ref' n w i Hin. apply Hf. by right.
  - done.
  - intros n w i. apply Hf. left.
Qed.

Lemma batch_inv items r s s' ws rs :
  fs_inv (mkFsSys s ws rs) -> write_batch opt sys clock busy items s = (r, s') ->
  fs_inv (mkFsSys s' ws (match r with Ok refs => zip refs (it_payload <$> items) | Throw _ => [] end ++ rs)).
Proof.
  intros Hx E. apply write_batch_run in E as [Ha Hr]; [|apply (fi_ok _ Hx)]. pose proof (adds_inv _ s' Hx Ha) as Hy. destruct r as [refs|]; [|done]. specialize (Hr refs eq_refl).
  refine (batch_refs_inv (mkFsSys s' ws rs) refs (it_payload <$> items) Hy _ _); cbn.
  - apply Forall2_fmap_r. eapply Forall2_impl; [exact Hr|]. by intros ref i [? _].
  - intros ref n [w d] i Hin Hn Hi Hc. destruct (fi_writers _ Hx n w d Hn) as [Hok _]. destruct (w_own_on_disk opt s w d i Hok Hc) as [c Hcc].
    apply list_elem_of_lookup in Hin as [k Hk]. destruct (Forall2_lookup_l _ _ _ _ _ Hr Hk) as (it & _ & _ & Hf). by rewrite (Hf i Hi) in Hcc.
Qed.

Lemma remove_inv es r s s' ws rs :
  fs_inv (mkFsSys s ws rs) -> FsData.remove sys es s = (r, s') -> (forall n w d i, ws !! n = Some (w, d) -> i ∈ ref_chunks es -> i ∉ wown w) ->
  fs_inv (mkFsSys s' ws (base.filter (λ rd, Forall (λ i, i ∉ ref_chunks es) (ref_chunks rd.1)) rs)).
Proof.
  intros [H1 H2 H3 H4 H5] E Hd. apply remove_run in E as (E1 & E2 & E3). split; cbn in *.
  - unfold fs_ok, slots_ok in *. by rewrite E1, E2.
  - intros n w d Hn. destruct (H2 n w d Hn) as [Ho Hop]. split; [|done]. apply (w_ok_kept opt s); [|done]. intros i Hi. apply E3. intros Hc. by apply (Hd n w d i Hn Hc).
  - done.
  - intros ref d [Hf Hr]%list_elem_of_filter. cbn in Hf. rewrite list.Forall_forall in Hf. apply (secure_ref_kept s); [intros i Hi; by apply E3, Hf| |by apply H4].
    intros e b (P1 & (f & Hff & Hi) & P3). split; [done|]. split; [|unfold behind; rewrite E2; exact P3]. exists f. split; [|done]. unfold file_of in *. rewrite P1 in *. by rewrite E1.
  - intros ref d n w i [_ Hr]%list_elem_of_filter. by eapply H5.
Qed.

Lemma remove_pack_inv p r s s' ws rs :
  fs_inv (mkFsSys s ws rs) -> remove_pack sys p s = (r, s') -> (forall k sl, slots s !! k = Some sl -> sl_fd sl = true -> sl_id sl <> p) ->
  fs_inv (mkFsSys s' ws (base.filter (λ rd, in_pack p rd = false) rs)).
Proof.
  intros [H1 H2 H3 H4 H5] E Hd. apply remove_pack_run in E as (E1 & E2 & E3). split; cbn in *.
  - destruct H1 as [[K1 K2] Hl]. split; [|by rewrite E2]. split; rewrite E2; [|done]. intros k sl Hk. specialize (K1 k sl Hk). destruct (sl_fd sl) eqn:Ef; [|done].
    destruct K1 as (K1 & f & Hf & Hs). split; [done|]. exists f. rewrite E3; [done|]. by apply (Hd k).
  - intros n w d Hn. destruct (H2 n w d Hn) as [Ho Hop]. split; [|done]. apply (w_ok_kept opt s); [|done]. intros i Hi. by rewrite E1.
  - done.
  - intros ref d [Hf Hr]%list_elem_of_filter. cbn in Hf. destruct (H4 ref d Hr) as (bs & Hb & ->). exists bs. split; [|done]. unfold in_pack in Hf. cbn in Hf. clear Hr. induction Hb as [|e b ref bs He _ IH]; [done|].
    cbn [existsb] in Hf. apply orb_false_iff in Hf as [Hf Hfs]. constructor; [|by apply IH]. destruct He as ((f & Hff & Hi) & Hbh & Hk).
    split; [|split; [intros Hp; unfold behind; rewrite E2; by apply Hbh|done]]. exists f. split; [|done]. unfold file_of in *. destruct (Extent.kind e) eqn:Ek; [by rewrite E1|rewrite E3; [done|]|done].
    rewrite bool_decide_true in Hf by done. apply Z.eqb_neq in Hf. done.
  - intros ref d n w i [_ Hr]%list_elem_of_filter. by eapply H5.
Qed.

Lemma fs_step_inv x y : fs_step x y -> fs_inv x -> fs_inv y.
Proof.
  intros Hs Hx. destruct Hs.
  - destruct (open_writer_ok len owner s) as (O1 & _ & O3 & O4). destruct Hx as [H1 H2 H3 H4 H5]. split; cbn in *; [done| | |done|].
    + intros m w d [[<- [= <- <-]]|[_ Hm]]%lookup_insert_Some; [|by apply (H2 m)]. split; [|done]. apply open_writer_ok.
    + intros m1 m2 v1 v2 i [[<- <-]|[Hm1 Hv1]]%lookup_insert_Some [[<- <-]|[Hm2 Hv2]]%lookup_insert_Some; cbn; rewrite ?O1; try (by intros _ Hi%not_elem_of_nil); [by intros _ _ ?%not_elem_of_nil|by apply (H3 m1 m2)].
    + intros ref d m v i Hr [[<- <-]|[_ Hm]]%lookup_insert_Some; cbn; [rewrite O1; by intros _ ?%not_elem_of_nil|by eapply H5].
  - by eapply write_inv.
  - by eapply finish_inv.
  - by apply (others_discard _ Hx n w d).
  - by eapply batch_inv.
  - apply seal_aged_packs_run in H. by apply (adds_inv _ s' Hx).
  - apply fs_close_run in H. by apply (adds_inv _ s' Hx).
  - by eapply remove_inv.
  - by eapply remove_pack_inv.
  - by apply (adds_inv _ (set_hooked m (set_pins t s)) Hx).
Qed.

(** * Reading back *)

(** A store without files and [k] free slots. *)
Definition fresh_fs (k : nat) (m : M) (t : PinTable) : Fs M := mkFs (mkDisk ∅ ∅) ∅ (repeat no_slot (S k)) 0 [] m t 0.
Lemma fresh_inv k m t : fs_inv (mkFsSys (fresh_fs k m t) ∅ []).
Proof.
  split; cbn; [|done|done|by intros ref d ?%not_elem_of_nil|by intros ref d n w i ?%not_elem_of_nil]. split; [|cbn; lia]. split; cbn.
  - intros j sl Hj. change (no_slot :: repeat no_slot k) with (repeat no_slot (S k)) in Hj. apply list_elem_of_lookup_2, list_elem_of_In, repeat_spec in Hj. by subst sl.
  - intros j j' sj sj' Hj _ Hf. change (no_slot :: repeat no_slot k) with (repeat no_slot (S k)) in Hj. apply list_elem_of_lookup_2, list_elem_of_In, repeat_spec in Hj. by subst sj.
Qed.
Lemma fs_reach_inv k m t x : rtc fs_step (mkFsSys (fresh_fs k m t) ∅ []) x -> fs_inv x.
Proof. pose proof (fresh_inv k m t) as H0. intros H. revert H0. induction H as [|x0 y z Hs _ IH]; [done|]. intros H0. by apply IH, (fs_step_inv x0). Qed.

(** The extents cut the bytes in one way. *)
Lemma cut_unique dk dk' ref bs bs' : Forall2 (has_extent dk) ref bs -> Forall2 (has_extent dk') ref bs' -> concat bs = concat bs' -> bs = bs'.
Proof.
  intros H. revert bs'. induction H as [|e b ref bs (f & _ & _ & _ & Hb & _) _ IH]; intros bs' H' E; inversion H' as [|e' b' ref' bs'' (f' & _ & _ & _ & Hb' & _) Hs]; subst; [done|].
  cbn in E. apply app_inj_1 in E as [-> E]; [|unfold blen in *; lia]. f_equal. by apply IH.
Qed.
Lemma secure_has (s : Fs M) ref d : secure_ref s ref d -> exists bs, Forall2 (has_extent (disk s)) ref bs /\ d = concat bs.
Proof. intros (bs & H & ->). exists bs. split; [|done]. eapply Forall2_impl; [exact H|]. by intros e b [? _]. Qed.

(** A reference that stays on the disk is served. *)
Lemma serve_secure ropt rsys view ref d first last bufs :
  (forall i, exists bs, Forall2 (has_extent (view i)) ref bs /\ d = concat bs) -> (forall i, is_Some (rsys i)) -> (blen d < 2 ^ 64)%Z -> (0 <= first <= last /\ last < blen d)%Z ->
  Forall (λ n, 0 < n) bufs -> Z.to_nat (last - first + 1) < length bufs ->
  exists r, open_reader ropt rsys view ref first last = Ok r /\ br_length r = Some (last - first + 1)%Z /\
    read_all bufs r = (substr d (Z.to_nat first) (Z.to_nat (last - first + 1)), Ok tt).
Proof.
  intros Hv Hsys Hd Hr Hb Hl. destruct (Hv 0) as (bs & Hbs & Ed). destruct (open_serves ropt rsys view ref d first last) as (r & E & El & Hs); [done| |done|lia|lia|].
  - exists bs. split; [|done]. intros i. destruct (Hv i) as (bs' & Hbs' & Ed'). rewrite (cut_unique _ _ _ _ _ Hbs Hbs'); [done|congruence].
  - exists r. split; [done|]. split; [done|]. apply read_all_serves; [done|done|]. unfold substr. rewrite length_take. lia.
Qed.

(** C8: What a session or a batch stored is read back: in every state the store reaches, a
    reference it returned and that was not removed opens for every range within it, and
    reading to the end, with any buffers and while the store goes on working, delivers
    exactly the bytes of that range. *)
Theorem stored_bytes_readable k m t x ref d first last ropt rsys view bufs
    (Hx : rtc fs_step (mkFsSys (fresh_fs k m t) ∅ []) x)
    (Hview : forall i, exists y, rtc fs_step x y /\ (ref, d) ∈ sy_refs y /\ view i = disk (sy_fs y))
    (Hsys : forall i, is_Some (rsys i)) (Hd : (blen d < 2 ^ 64)%Z) (Hr : (0 <= first <= last /\ last < blen d)%Z)
    (Hb : Forall (λ n, 0 < n) bufs) (Hl : Z.to_nat (last - first + 1) < length bufs) :
  exists r, open_reader ropt rsys view ref first last = Ok r /\ br_length r = Some (last - first + 1)%Z /\
    read_all bufs r = (substr d (Z.to_nat first) (Z.to_nat (last - first + 1)), Ok tt).
Proof.
  apply serve_secure; try done. intros i. destruct (Hview i) as (y & Hy & Hin & ->). apply secure_has. eapply fi_refs; [|exact Hin]. eapply fs_reach_inv. by etransitivity.
Qed.
End sessions.

(** * A small store *)
Module FsDemo.
#[global] Instance hooks : FsHooks (Z * Z) := {
  alloc_ k n m := match k with Extent.kPack => (Ok m.2, (m.1, m.2 + n)%Z) | _ => (Ok m.1, (m.1 + n, m.2)%Z) end;
  seal_ _ _ m := (Ok tt, m) }.
Definition opt : FsDataOptions := mkFsOptions 4 true 3 60 0.
#[global] Instance opt_ok : FsOptionsOk opt.
Proof. done. Qed.
(** Every call moves at most two bytes. *)
Definition sys (t : nat) : option nat := Some 1.
Definition clock (t : nat) : Z := Z.of_nat t.
Definition busy (t k : nat) : bool := (k =? 0).
Definition pins : PinTable := mkPins ∅ ∅.
Definition s0 : Fs (Z * Z) := fresh_fs 1 (0, 0)%Z pins.

(** Two bytes that still fit into the buffer, then five that do not. *)
Definition w0 : DataWriter := open_writer opt None (bs "o").
Definition r1 := writer_write opt sys (bs "ab") (s0, w0).
Definition r2 := writer_write opt sys (bs "cdefg") r1.2.
Definition r3 := writer_finish opt sys clock busy r2.2.
Definition ref : DataRef := match r3.1 with Ok r => r | Throw _ => [] end.
Definition x : FsSys := mkFsSys (writer_discard sys r3.2.2 r3.2.1).2 (delete 0 (<[0 := (r2.2.2, bs "abcdefg")]> (<[0 := (r1.2.2, bs "ab")]> (<[0 := (w0, [])]> ∅)))) [(ref, bs "abcdefg")].
Lemma reached : rtc (fs_step opt sys clock busy) (mkFsSys s0 ∅ []) x.
Proof.
  eapply rtc_l; [apply (StOpen opt sys clock busy 0 None (bs "o")); done|].
  eapply rtc_l; [eapply (StWrite opt sys clock busy 0 w0 [] (bs "ab") (Ok tt) s0 r1.2.1 r1.2.2); [apply lookup_insert_eq|vm_compute; reflexivity]|].
  eapply rtc_l; [eapply (StWrite opt sys clock busy 0 r1.2.2 (bs "ab") (bs "cdefg") (Ok tt) r1.2.1 r2.2.1 r2.2.2); [apply lookup_insert_eq|vm_compute; reflexivity]|].
  eapply rtc_l; [eapply (StFinish opt sys clock busy 0 r2.2.2 (bs "abcdefg") (Ok ref) r2.2.1 r3.2.1 r3.2.2); [apply lookup_insert_eq|vm_compute; reflexivity]|].
  apply rtc_refl.
Qed.
End FsDemo.

Lemma stored_bytes_readable_witness : exists r,
  open_reader FsDemo.opt FsDemo.sys (λ _, disk (sy_fs FsDemo.x)) FsDemo.ref 2 5 = Ok r /\ br_length r = Some 4%Z /\ read_all (repeat 3 5) r = (bs "cdef", Ok tt).
Proof.
  destruct (stored_bytes_readable FsDemo.opt FsDemo.sys FsDemo.clock FsDemo.busy 1 (0, 0)%Z FsDemo.pins FsDemo.x FsDemo.ref (bs "abcdefg") 2 5 FsDemo.opt FsDemo.sys
    (λ _, disk (sy_fs FsDemo.x)) (repeat 3 5)) as (r & E & El & Er).
  - exact FsDemo.reached.
  - intros i. exists FsDemo.x. split; [apply rtc_refl|]. split; [left|done].
  - intros i. by exists 1.
  - done.
  - split; [split|]; vm_compute; try discriminate; reflexivity.
  - repeat constructor.
  - apply Nat.ltb_lt. vm_compute. reflexivity.
  - exists r. split; [exact E|]. split; [exact El|]. rewrite Er. vm_compute. reflexivity.
Defined.

(** The disk is full for one call, in the middle of the second chunk. *)
Definition flaky (t : nat) : option nat := if t =? 8 then None else Some 1.
Lemma failed_session_clean_witness :
  d_chunks (disk (session FsDemo.opt flaky FsDemo.clock FsDemo.busy None (bs "o") [bs "ab"; bs "cdefg"] FsDemo.s0).2) = ∅ /\
  pin_count false 1 (fs_pins (session FsDemo.opt flaky FsDemo.clock FsDemo.busy None (bs "o") [bs "ab"; bs "cdefg"] FsDemo.s0).2) = 0%Z.
Proof.
  destruct (failed_session_clean FsDemo.opt flaky FsDemo.clock FsDemo.busy None (bs "o") [bs "ab"; bs "cdefg"] FsDemo.s0 InternalError) as [E Hp].
  - apply (fi_ok FsDemo.opt (mkFsSys FsDemo.s0 ∅ [])). apply (fresh_inv FsDemo.opt 1).
  - intros [] id n Hn; cbn in Hn; by rewrite lookup_empty in Hn.
  - vm_compute. reflexivity.
  - intros t Ht. unfold flaky. destruct (Nat.eqb_spec t 8) as [->|]; [|by exists 1]. exfalso.
    match type of Ht with ?n <= _ => assert ((8 <? n) = true) as Hb by (vm_compute; reflexivity); apply Nat.ltb_lt in Hb; revert Ht Hb; generalize n end. intros n H1 H2. lia.
  - split; [exact E|]. rewrite (Hp false 1%Z). reflexivity.
Defined.
