(* ===== verification/FsHooked.v ===== *)
(** What the file data plane does to the metadata store: nothing but allocate file ids and
    seal packs. Every relation those two calls keep is kept by every operation. *)

From S2P Require Import Prelude Bytes Checksum Backend Codec MetaUtil RocksMeta FsPack DuoWorld FsData BodyReader FsRead FsProofs.
From Stdlib Require Import ZArith Lia.
From stdpp Require Import base list gmap sets strings relations.
Open Scope lights3_scope.

Section hooked.
Context {M : Type} {hooks : FsHooks M} (R : M -> M -> Prop) `{!PreOrder R}.
Context (Halloc : forall k n m, R m (alloc_ k n m).2) (Hseal : forall p n m, R m (seal_ p n m).2).
Context (opt : FsDataOptions) (sys : nat -> option nat) (clock : nat -> Z) (busy : nat -> nat -> bool).
Abbreviation F := (ST (Fs M) S3ErrorCode).
Abbreviation C := (ST (Fs M * ChunkWriter) S3ErrorCode).
Abbreviation P := (ST (Fs M * FsPackedWriter) S3ErrorCode).
Abbreviation W := (ST (Fs M * DataWriter) S3ErrorCode).

Definition hooked_rel (s s' : Fs M) : Prop := R (hooked s) (hooked s').
Definition hooked_pair {X : Type} (x y : Fs M * X) : Prop := hooked_rel x.1 y.1.
#[local] Instance hooked_rel_preorder : PreOrder hooked_rel.
Proof. split; [intros s; unfold hooked_rel; reflexivity|]. intros a b c. unfold hooked_rel. apply transitivity. Qed.
#[local] Instance hooked_pair_preorder X : PreOrder (hooked_pair (X := X)).
Proof. split; [intros s; unfold hooked_pair; reflexivity|]. intros a b c. unfold hooked_pair. apply transitivity. Qed.

(** * Primitives *)
Lemma hooked_modify f : (forall s, hooked (f s) = hooked s) -> Keeps hooked_rel (fs_modify f : F unit).
Proof. intros H s. unfold hooked_rel. cbn. rewrite H. reflexivity. Qed.
#[local] Hint Extern 2 (Keeps hooked_rel (fs_modify _)) => (apply hooked_modify; done) : typeclass_instances.
#[local] Instance hooked_syscall : Keeps hooked_rel (syscall sys : F _).
Proof. intros s. unfold hooked_rel. cbn. reflexivity. Qed.
#[local] Instance hooked_now : Keeps hooked_rel (steady_now clock : F _).
Proof. intros s. unfold hooked_rel. cbn. reflexivity. Qed.
#[local] Instance hooked_alloc k n : Keeps hooked_rel (hook (alloc_ k n) : F _).
Proof. intros s. unfold hooked_rel, hook. specialize (Halloc k n (hooked s)). by destruct (alloc_ k n (hooked s)). Qed.
#[local] Instance hooked_seal p n : Keeps hooked_rel (hook (seal_ p n) : F _).
Proof. intros s. unfold hooked_rel, hook. specialize (Hseal p n (hooked s)). by destruct (seal_ p n (hooked s)). Qed.
#[local] Instance hooked_get_slot k : Keeps hooked_rel (get_slot k : F _).
Proof. intros s. unfold hooked_rel. cbn. reflexivity. Qed.
#[local] Instance hooked_acquire : Keeps hooked_rel (acquire_slot busy : F _).
Proof. intros s. unfold hooked_rel. cbn. reflexivity. Qed.

Ltac keep := repeat first [progress unfold must, subdir_fd, create_chunk, unlink_chunk, write_full, create_pack, open_pack, set_slot, slot_aged, must_rotate, sync_slot, close_slot_locked, ready_slot, append_item]; apply _.

Lemma hooked_write_loop fuel id data : Keeps hooked_rel (write_loop sys fuel id data : F _).
Proof. revert data. induction fuel as [|f IH]; intros [|a data]; cbn [write_loop]; apply _. Qed.
Lemma hooked_pwrite fuel id z data : Keeps hooked_rel (pwrite_loop sys fuel id z data : F _).
Proof. revert z data. induction fuel as [|f IH]; intros z [|a data]; cbn [pwrite_loop]; apply _. Qed.
#[local] Existing Instances hooked_write_loop hooked_pwrite.

(** * Chunk writers *)
#[local] Instance hooked_on_fs {A} (m : F A) : Keeps hooked_rel m -> Keeps hooked_pair (on_fs m).
Proof. intros H [s w]. specialize (H s). unfold on_fs. cbn. by destruct (m s). Qed.
#[local] Instance hooked_get_w : Keeps hooked_pair (get_w : C _).
Proof. intros x. unfold hooked_pair, hooked_rel. reflexivity. Qed.
#[local] Instance hooked_set_w f : Keeps hooked_pair (set_w f : C _).
Proof. intros x. unfold hooked_pair, hooked_rel. cbn. reflexivity. Qed.
#[local] Instance hooked_open_next : Keeps hooked_pair (open_next_chunk sys : C _).
Proof. unfold open_next_chunk, refill_run, subdir_fd, create_chunk, must. apply _. Qed.
#[local] Instance hooked_seal_chunk : Keeps hooked_pair (seal_chunk sys : C _).
Proof. unfold seal_chunk, must. apply _. Qed.
#[local] Instance hooked_write_turn buf : Keeps hooked_pair (write_turn opt sys buf : C _).
Proof. unfold write_turn, write_full. apply _. Qed.
#[local] Instance hooked_chunk_write buf : Keeps hooked_pair (chunk_write opt sys buf : C _).
Proof. unfold chunk_write. generalize (length buf). intros n. revert buf. induction n as [|n IH]; intros [|a buf]; cbn [chunk_write_loop]; try apply _. Qed.
#[local] Instance hooked_sync l : Keeps hooked_rel (sync_dirs sys l : F _).
Proof. induction l as [|a l IH]; cbn [sync_dirs]; unfold must; apply _. Qed.
#[local] Instance hooked_chunk_finish : Keeps hooked_pair (chunk_finish sys : C _).
Proof. unfold chunk_finish. apply _. Qed.
#[local] Instance hooked_unlink_all l : Keeps hooked_rel (unlink_all sys l : F _).
Proof. induction l as [|a l IH]; cbn [unlink_all]; unfold unlink_chunk; apply _. Qed.
#[local] Instance hooked_chunk_discard w : Keeps hooked_rel (chunk_discard sys w : F _).
Proof. unfold chunk_discard, unlink_chunk. apply _. Qed.

(** * Packs *)
#[local] Instance hooked_append_item k d i : Keeps hooked_rel (append_item opt sys clock k d i : F _).
Proof. keep. Qed.
#[local] Instance hooked_append_items k d l : Keeps hooked_rel (append_items opt sys clock k d l : F _).
Proof. revert d. induction l as [|a l IH]; intros d; cbn [append_items]; [keep|apply _]. Qed.
#[local] Instance hooked_seal_each l : Keeps hooked_rel (seal_each l : F _).
Proof.
  induction l as [|[id size] l IH]; cbn [seal_each]; [apply _|]. intros s. pose proof (hooked_seal id size s) as H. destruct (hook (seal_ id size) s) as [[u|e] s1]; cbn in *; [|done].
  transitivity s1; [done|apply IH].
Qed.
#[local] Instance hooked_flush b : Keeps hooked_rel (flush_seals b : F _).
Proof. unfold flush_seals. apply keeps_bind; [apply _|apply _|]. intros s. apply keeps_bind; [apply _|apply _|intros _]. apply keeps_bind; [apply _|apply _|]. intros [[e l]|]; apply _. Qed.
#[local] Instance hooked_append_records l : Keeps hooked_rel (append_pack_records opt sys clock busy l : F _).
Proof. unfold append_pack_records. apply _. Qed.

(** * Sessions and batches *)
#[local] Instance hooked_on_spill {A} (m : C A) c : Keeps hooked_pair m -> Keeps hooked_pair (on_spill m c).
Proof. intros H [s p]. specialize (H (s, c)). unfold on_spill. cbn. by destruct (m (s, c)) as [r [s' c']]. Qed.
#[local] Instance hooked_in_fs {A} (m : F A) : Keeps hooked_rel m -> Keeps hooked_pair (in_fs m).
Proof. intros H [s w]. specialize (H s). unfold in_fs. cbn. by destruct (m s). Qed.
#[local] Instance hooked_get_p : Keeps hooked_pair (get_p : P _).
Proof. intros x. unfold hooked_pair, hooked_rel. reflexivity. Qed.
#[local] Instance hooked_set_buf b : Keeps hooked_pair (set_buf b : P _).
Proof. intros x. unfold hooked_pair, hooked_rel. cbn. reflexivity. Qed.
#[local] Instance hooked_run_writer {A} (c : C A) (p : P A) : Keeps hooked_pair c -> Keeps hooked_pair p -> Keeps hooked_pair (run_writer c p).
Proof.
  intros Hc Hp [s [w|w]]; unfold run_writer; cbn; [specialize (Hc (s, w)); by destruct (c (s, w)) as [r [s' w']]|specialize (Hp (s, w)); by destruct (p (s, w)) as [r [s' w']]].
Qed.
#[local] Instance hooked_write b : Keeps hooked_pair (writer_write opt sys b : W _).
Proof. unfold writer_write, packed_write. apply _. Qed.
#[local] Instance hooked_finish : Keeps hooked_pair (writer_finish opt sys clock busy : W _).
Proof. unfold writer_finish, packed_finish. apply _. Qed.
#[local] Instance hooked_blocks l : Keeps hooked_pair (write_blocks opt sys l : W _).
Proof. induction l as [|b l IH]; cbn [write_blocks]; apply _. Qed.
#[local] Instance hooked_discard w : Keeps hooked_rel (writer_discard sys w : F _).
Proof. destruct w as [c|p]; cbn; [apply _|]. unfold packed_discard. apply _. Qed.
#[local] Instance hooked_session len owner blocks : Keeps hooked_rel (session opt sys clock busy len owner blocks : F _).
Proof.
  intros s. unfold session. assert (Keeps hooked_pair (_ ← write_blocks opt sys blocks; writer_finish opt sys clock busy : W _)) as H by apply _.
  specialize (H (s, open_writer opt len owner)). revert H. set (x := (_ (s, open_writer opt len owner) : result DataRef * (Fs M * DataWriter))). destruct x as [r [s' w]]. cbn. intros H.
  transitivity s'; [exact H|apply hooked_discard].
Qed.
Lemma hooked_write_batch items : Keeps hooked_rel (write_batch opt sys clock busy items : F _).
Proof.
  unfold write_batch. apply keeps_bind; [apply _|apply _|]. intros exts. revert exts. induction items as [|i items IH]; intros exts; cbn [merge_batch]; apply _.
Qed.
Lemma hooked_remove es : Keeps hooked_rel (FsData.remove sys es : F _).
Proof. induction es as [|e es IH]; cbn [FsData.remove]; unfold must; apply _. Qed.
Lemma hooked_close_aged ms now n k : Keeps hooked_rel (close_aged busy ms now n k : F _).
Proof. revert k. induction n as [|n IH]; intros k; cbn [close_aged]; unfold close_slot_locked, set_slot; apply _. Qed.
Lemma hooked_seal_aged ms : Keeps hooked_rel (seal_aged_packs clock busy ms : F _).
Proof. pose proof hooked_close_aged. unfold seal_aged_packs. apply _. Qed.
End hooked.
