(* ===== verification/DuoMigrate.v ===== *)
(** Compaction: the records of a pack that objects still use are appended elsewhere and the
    objects' references swapped ([migrate_pack_records] in
    [src/src/storage/duostore/duostore_backend.cc], called by [FsDataStore::rewrite_pack]
    in [src/src/storage/duostore/fs_data_store.cc]).

    The metadata store is an interface with its laws on a view of the objects; the data
    plane is the file store. The result: whatever a compaction does and wherever it fails,
    every object still stands for the same bytes. *)

From S2P Require Import Prelude Bytes Checksum Backend Codec CodecProofs MetaUtil RocksMeta FsPack DuoWorld FsData BodyReader FsRead FsProofs FsSystem FsHooked.
From Stdlib Require Import ZArith Lia.
From stdpp Require Import base list gmap sets strings relations.
Import Crc.
Open Scope lights3_scope.

(** * The metadata store *)
Class MigrateMeta (M : Type) := {
  mm_get_object : bytes -> bytes -> M -> result (option ObjectRec) * M;
  mm_swap_extents_batch : list SwapReq -> M -> result (list bool) * M }.

(** The objects of the store as a map: allocation, sealing and reading leave it; a swap
    changes an object only as a request that was accepted asks, and only if the object
    still has the reference the request replaces. *)
Class MetaObjects (M : Type) {hooks : FsHooks M} {meta : MigrateMeta M} := {
  objs : M -> gmap (bytes * bytes) ObjectRec;
  alloc_objs k n m : objs (alloc_ k n m).2 = objs m;
  seal_objs p n m : objs (seal_ p n m).2 = objs m;
  get_objs b k m : objs (mm_get_object b k m).2 = objs m /\ forall o, (mm_get_object b k m).1 = Ok o -> o = objs m !! (b, k);
  swap_objs reqs m :
    match (mm_swap_extents_batch reqs m).1 with
    | Throw _ => objs (mm_swap_extents_batch reqs m).2 = objs m
    | Ok oks => forall b k, objs (mm_swap_extents_batch reqs m).2 !! (b, k) = objs m !! (b, k) \/
        exists i q rec, reqs !! i = Some q /\ oks !! i = Some true /\ (sr_bucket q, sr_key q) = (b, k) /\ objs m !! (b, k) = Some rec /\ or_data rec = sr_from q /\
          objs (mm_swap_extents_batch reqs m).2 !! (b, k) = Some (set_version (u64 (version rec + 1)) (set_data (sr_to q) rec))
    end }.

(** * Migration *)
Record Group := mkGroup { gr_b : bytes; gr_k : bytes; gr_recs : list nat }.
Record LiveRec := mkLive { lv_group : nat; lv_manifest : nat; lv_rec : nat }.

#[global] Instance owner_kind_eq : EqDecision OwnerKind.
Proof. solve_decision. Defined.

Definition owner_key (b k : bytes) : bytes := b ++ [nul] ++ k.
Definition add_rec (i : nat) (g : Group) : Group := mkGroup (gr_b g) (gr_k g) (gr_recs g ++ [i]).

(** 1. The records by owner, in the order of their first. *)
Fixpoint group_batch (i : nat) (batch : list PackScanRecord) (by_owner : gmap bytes nat) (groups : list Group) : list Group :=
  match batch with
  | [] => groups
  | r :: rest =>
      let po := parse_pack_owner (pk_owner r) in
      if bool_decide (ow_kind po = OObject) || bool_decide (ow_kind po = OPart) then
        let gk := owner_key (ow_bucket po) (ow_key po) in
        match by_owner !! gk with
        | Some j => group_batch (S i) rest by_owner (alter (add_rec i) j groups)
        | None => group_batch (S i) rest (<[gk := length groups]> by_owner) (groups ++ [mkGroup (ow_bucket po) (ow_key po) [i]])
        end
      else group_batch (S i) rest by_owner groups
  end.

(** 2. Each record is paired with a place of its owner's reference. *)
Fixpoint pair_extent (from : Extent.t) (es : DataRef) (used : list bool) (i : nat) : option nat :=
  match es, used with
  | e :: es', u :: used' => if negb u && bool_decide (e = from) then Some i else pair_extent from es' used' (S i)
  | _, _ => None
  end.
Fixpoint pair_recs (g : nat) (batch : list PackScanRecord) (es : DataRef) (used : list bool) (recs : list nat) : list LiveRec :=
  match recs with
  | [] => []
  | ri :: recs' =>
      match batch !! ri with
      | None => pair_recs g batch es used recs'
      | Some r =>
          match pair_extent (pk_from r) es used 0 with
          | Some i => mkLive g i ri :: pair_recs g batch es (<[i := true]> used) recs'
          | None => pair_recs g batch es used recs'
          end
      end
  end.

(** 4. The new reference of a group. The last pairing of a place wins. *)
Definition repl_of (live : list LiveRec) (nrefs : list DataRef) (g i : nat) : option DataRef :=
  fold_left (λ acc x, if (lv_group x.1 =? g) && (lv_manifest x.1 =? i) then Some x.2 else acc) (zip live nrefs) None.
Definition new_ref (live : list LiveRec) (nrefs : list DataRef) (g : nat) (old : DataRef) : DataRef :=
  concat (imap (λ i e, default [e] (repl_of live nrefs g i)) old).
Fixpoint make_reqs (g : nat) (groups : list Group) (recs : list (option ObjectRec)) (live : list LiveRec) (nrefs : list DataRef) : list (nat * SwapReq) :=
  match groups, recs with
  | gr :: groups', rec :: recs' =>
      match rec with
      | Some rec => if existsb (λ l, lv_group l =? g) live
                    then [(g, mkSwapReq (gr_b gr) (gr_k gr) (version rec) (or_data rec) (new_ref live nrefs g (or_data rec)))] else []
      | None => []
      end ++ make_reqs (S g) groups' recs' live nrefs
  | _, _ => []
  end.
Definition group_ok (reqs : list (nat * SwapReq)) (oks : list bool) (g : nat) : bool :=
  existsb (λ x, (x.1.1 =? g) && x.2) (zip reqs oks).

Section migrate.
Context {M : Type} {hooks : FsHooks M} {meta : MigrateMeta M}.
Context (opt : FsDataOptions) (sys : nat -> option nat) (clock : nat -> Z) (busy : nat -> nat -> bool).
Abbreviation F := (ST (Fs M) S3ErrorCode).

Fixpoint liveness (batch : list PackScanRecord) (g : nat) (groups : list Group) : F (list LiveRec * list (option ObjectRec)) :=
  match groups with
  | [] => mret ([], [])
  | gr :: rest =>
      rec ← hook (mm_get_object (gr_b gr) (gr_k gr));
      more ← liveness batch (S g) rest;
      mret (match rec with
            | Some rec => pair_recs g batch (or_data rec) (repeat false (length (or_data rec))) (gr_recs gr) ++ more.1
            | None => more.1
            end, rec :: more.2)
  end.

Definition item_of (batch : list PackScanRecord) (groups : list Group) (l : LiveRec) : PackAppendItem :=
  mkItem (match groups !! lv_group l with Some gr => owner_key (gr_b gr) (gr_k gr) | None => [] end)
    (match batch !! lv_rec l with Some r => pk_payload r | None => [] end).

(** 5. What was written for a group whose swap failed is removed; its pins go either way. *)
Definition try_remove (es : DataRef) : F unit := λ s, (Ok tt, (FsData.remove sys es s).2).
Definition unpin_chunks (es : DataRef) : F unit :=
  fs_modify (λ s, set_pins (fold_left (λ t e, unpin_id (Extent.file_id e) t) (base.filter (λ e, Extent.kind e <> Extent.kPack) es) (fs_pins s)) s).
Fixpoint settle (ok : nat -> bool) (l : list (LiveRec * DataRef)) : F Z :=
  match l with
  | [] => mret 0%Z
  | (lv, nref) :: l' =>
      _ ← (if ok (lv_group lv) then mret tt else try_remove nref);
      _ ← unpin_chunks nref;
      n ← settle ok l';
      mret ((if ok (lv_group lv) then 1 else 0) + n)%Z
  end.

Definition migrate_pack_records (batch : list PackScanRecord) : F Z :=
  let groups := group_batch 0 batch ∅ [] in
  x ← liveness batch 0 groups;
  if bool_decide (x.1 = []) then mret 0%Z
  else
    nrefs ← write_batch opt sys clock busy (item_of batch groups <$> x.1);
    let reqs := make_reqs 0 groups x.2 x.1 nrefs in
    oks ← hook (mm_swap_extents_batch reqs.*2);
    settle (group_ok reqs oks) (zip x.1 nrefs).

(** * The scan with its migrations *)
Inductive RewriteErr := RwThrow (c : S3ErrorCode) | RwLength | RwFuel.
Abbreviation W := (ST (Fs M) RewriteErr).
Definition as_rewrite {A} (m : F A) : W A := λ s, let '(r, s') := m s in (match r with Ok a => Ok a | Throw e => Throw (RwThrow e) end, s').

Definition flush_batch (batch : list PackScanRecord) : W Z := if bool_decide (batch = []) then mret 0%Z else as_rewrite (migrate_pack_records batch).

Fixpoint rewrite_loop (fuel : nat) (pack_id : Z) (file : bytes) (off : Z) (batch : list PackScanRecord) (batch_bytes : Z) : W GcRewrite :=
  match fuel with
  | 0 => throw RwFuel
  | S f =>
      _ ← (if ((off +₆₄ kPackHeaderFixed) <=? blen file)%Z then as_rewrite (must sys) else mret tt);
      match scan_at pack_id file off with
      | FEnd c => n ← flush_batch batch; mret (mkRewrite 0 n c (blen file))
      | FFault => throw RwLength
      | FBad next => st ← rewrite_loop f pack_id file next batch batch_bytes; mret (mkRewrite (scanned st) (migrated st) (corrupt st + 1) (rw_file_size st))
      | FRec r next =>
          let batch' := batch ++ [r] in
          let bytes' := (batch_bytes + Extent.length (pk_from r))%Z in
          n ← (if batch_full batch' bytes' then flush_batch batch' else mret 0%Z);
          st ← (if batch_full batch' bytes' then rewrite_loop f pack_id file next [] 0 else rewrite_loop f pack_id file next batch' bytes');
          mret (mkRewrite (scanned st + 1) (migrated st + n) (corrupt st) (rw_file_size st))
      end
  end.

(** The content of a sealed pack does not change under the scan; the reads of one record
    fail before anything of it is used. *)
Definition rewrite_pack (pack_id : Z) : W GcRewrite :=
  _ ← as_rewrite (must sys);
  s ← get_st;
  match d_packs (disk s) !! pack_id with
  | None => throw (RwThrow InternalError)
  | Some file => _ ← as_rewrite (must sys); rewrite_loop (S (length file)) pack_id file 0 [] 0
  end.
End migrate.


(** * What the pairing finds *)
Section pairing.
Context (batch : list PackScanRecord).

Lemma pair_extent_spec from es used i j : pair_extent from es used i = Some j -> exists n, j = i + n /\ es !! n = Some from.
Proof.
  revert used i. induction es as [|e es IH]; intros [|u used] i; cbn; try done. destruct (negb u && bool_decide (e = from)) eqn:E.
  - intros [= <-]. apply andb_true_iff in E as [_ E%bool_decide_eq_true]. exists 0. split; [lia|by subst].
  - intros (n & -> & H)%IH. exists (S n). split; [lia|done].
Qed.
(** A pairing of group [g] whose reference is [es]. *)
Definition paired (g : nat) (es : DataRef) (l : LiveRec) : Prop :=
  lv_group l = g /\ exists r, batch !! lv_rec l = Some r /\ es !! lv_manifest l = Some (pk_from r).
Lemma pair_recs_spec g es used recs : Forall (paired g es) (pair_recs g batch es used recs).
Proof.
  revert used. induction recs as [|ri recs IH]; intros used; cbn [pair_recs]; [constructor|]. destruct (batch !! ri) as [r|] eqn:Er; [|done].
  destruct (pair_extent _ _ _ _) as [i|] eqn:Ei; [|done]. constructor; [|done]. apply pair_extent_spec in Ei as (n & -> & Hn). split; [done|]. by exists r.
Qed.

Lemma repl_of_spec live nrefs g i nref : repl_of live nrefs g i = Some nref -> exists j l, live !! j = Some l /\ nrefs !! j = Some nref /\ lv_group l = g /\ lv_manifest l = i.
Proof.
  unfold repl_of. enough (forall xs acc, fold_left (λ acc x, if (lv_group x.1 =? g) && (lv_manifest x.1 =? i) then Some x.2 else acc) xs acc = Some nref ->
    acc = Some nref \/ exists j x, xs !! j = Some x /\ x.2 = nref /\ lv_group x.1 = g /\ lv_manifest x.1 = i) as H.
  { intros [?|(j & [l r] & Hx & <- & H1 & H2)]%H; [done|]. apply lookup_zip_Some in Hx as [Hl Hr]. by exists j, l. }
  induction xs as [|x xs IH]; intros acc; cbn [fold_left]; [by left|]. intros [E|(j & y & Hy & Hr)]%IH; [|right; by exists (S j), y].
  destruct ((lv_group x.1 =? g) && (lv_manifest x.1 =? i)) eqn:Ex; [|by left]. injection E as <-. apply andb_true_iff in Ex as [E1%Nat.eqb_eq E2%Nat.eqb_eq]. right. by exists 0, x.
Qed.

Lemma make_reqs_spec g0 groups recs live nrefs g q :
  (g, q) ∈ make_reqs g0 groups recs live nrefs -> exists gr rec, groups !! (g - g0) = Some gr /\ recs !! (g - g0) = Some (Some rec) /\ g0 <= g /\
    q = mkSwapReq (gr_b gr) (gr_k gr) (version rec) (or_data rec) (new_ref live nrefs g (or_data rec)).
Proof.
  revert g0 recs. induction groups as [|gr groups IH]; intros g0 [|rec recs]; cbn [make_reqs]; try (by intros ?%not_elem_of_nil). intros [Hi|Hi]%elem_of_app.
  - destruct rec as [rec|]; [|by apply not_elem_of_nil in Hi]. destruct (existsb _ _); [|by apply not_elem_of_nil in Hi]. apply list_elem_of_singleton in Hi as [= -> ->].
    exists gr, rec. rewrite Nat.sub_diag. done.
  - destruct (IH _ _ Hi) as (gr' & rec' & H1 & H2 & H3 & H4). exists gr', rec'. replace (g - g0) with (S (g - S g0)) by lia. repeat (split; [done || lia|]). done.
Qed.
End pairing.

Section keep.
Context {M : Type} {hooks : FsHooks M} {meta : MigrateMeta M} {law : MetaObjects M}.
Context (opt : FsDataOptions) (sys : nat -> option nat) (clock : nat -> Z) (busy : nat -> nat -> bool) {Hcs : FsOptionsOk opt}.
Abbreviation F := (ST (Fs M) S3ErrorCode).
Abbreviation chunks s := (d_chunks (disk s)).
Abbreviation packs s := (d_packs (disk s)).
Abbreviation objects s := (objs (hooked s)).

Lemma hook_get_run b k (s s' : Fs M) r : hook (mm_get_object b k) s = (r, s') -> still s s' /\ objects s' = objects s /\ forall o, r = Ok o -> o = objects s !! (b, k).
Proof.
  unfold hook. destruct (mm_get_object b k (hooked s)) as [o m'] eqn:E. intros [= <- <-]. split; [done|]. pose proof (get_objs b k (hooked s)) as [H1 H2]. rewrite E in H1, H2. cbn in *. auto.
Qed.

Lemma liveness_run batch g0 groups (s : Fs M) r s' :
  liveness batch g0 groups s = (r, s') -> still s s' /\ objects s' = objects s /\
  forall live recs, r = Ok (live, recs) -> Forall2 (λ gr rec, rec = objects s !! (gr_b gr, gr_k gr)) groups recs /\
    Forall (λ l, g0 <= lv_group l /\ exists rec, recs !! (lv_group l - g0) = Some (Some rec) /\ paired batch (lv_group l) (or_data rec) l) live.
Proof.
  revert g0 s r s'. induction groups as [|gr groups IH]; intros g0 s r s' H; cbn [liveness] in H; [injection H as <- <-; split; [done|split; [done|]]; intros live recs [= <- <-]; by split|].
  runs H s1 E; apply hook_get_run in E as (H1 & H2 & H3); [|done]. rename a into rec. specialize (H3 _ eq_refl).
  runs H s2 E; apply IH in E as (I1 & I2 & I3); [|split; [by transitivity s1|split; [congruence|done]]]. injection H as <- <-. split; [by transitivity s1|]. split; [congruence|].
  intros live recs [= <- <-]. destruct a as [more recs]. destruct (I3 _ _ eq_refl) as [I4 I5]. rewrite H2 in I4. split; [by constructor|].
  assert (Forall (λ l, g0 <= lv_group l /\ exists rec0, (rec :: recs) !! (lv_group l - g0) = Some (Some rec0) /\ paired batch (lv_group l) (or_data rec0) l) more) as Hm.
  { eapply list.Forall_impl; [exact I5|]. intros l (L1 & rec0 & L2 & L3). split; [lia|]. exists rec0. split; [|done]. by replace (lv_group l - g0) with (S (lv_group l - S g0)) by lia. }
  destruct rec as [rec|]; [|done]. apply Forall_app. split; [|done]. eapply list.Forall_impl; [apply pair_recs_spec|]. intros l Hl. pose proof Hl as [-> _]. split; [done|]. exists rec. by rewrite Nat.sub_diag.
Qed.

(** * The new reference stands for the same bytes *)
Lemma secure_bytes (s : Fs M) e b b' : secure s e b -> secure s e b' -> b = b'.
Proof.
  intros ((f & Hf & _ & _ & Hl & _ & Hs) & _) ((f' & Hf' & _ & _ & Hl' & _ & Hs') & _). rewrite Hf in Hf'. injection Hf' as <-. rewrite <- Hs, <- Hs'. f_equal. unfold blen in *. lia.
Qed.
Lemma concat_secure (s : Fs M) refs bs : Forall2 (secure_ref s) refs bs -> secure_ref s (concat refs) (concat bs).
Proof.
  induction 1 as [|ref b refs bs (xs & Hx & ->) _ (ys & Hy & E)]; [by exists []|]. exists (xs ++ ys). cbn. rewrite concat_app, E. split; [by apply Forall2_app|done].
Qed.
(** The records of a batch are what the disk holds, where they have bytes at all. *)
Definition batch_held (s : Fs M) (batch : list PackScanRecord) : Prop :=
  forall i r, batch !! i = Some r -> (0 < Extent.length (pk_from r))%Z -> psecure s (pk_from r) (pk_payload r).

Lemma new_ref_secure (s : Fs M) batch live nrefs g old d :
  batch_held s batch ->
  (forall j l nref, live !! j = Some l -> nrefs !! j = Some nref -> lv_group l = g -> paired batch g old l /\ forall r, batch !! lv_rec l = Some r -> secure_ref s nref (pk_payload r)) ->
  secure_ref s old d -> secure_ref s (new_ref live nrefs g old) d.
Proof.
  intros Hb Hl (bs & H & ->). unfold new_ref. apply concat_secure. apply Forall2_same_length_lookup_2; [rewrite length_imap; by eapply Forall2_length|].
  intros i ref b Hi Hbi. rewrite list_lookup_imap in Hi. apply fmap_Some in Hi as (e & He & ->). assert (secure s e b) as Hs by (by eapply (Forall2_lookup_lr _ _ _ _ _ _ H)).
  destruct (repl_of live nrefs g i) as [nref|] eqn:Er; cbn; [|exists [b]; cbn; rewrite app_nil_r; split; [constructor; [done|constructor]|done]].
  apply repl_of_spec in Er as (j & l & Hj & Hn & Hg & Hm). destruct (Hl j l nref Hj Hn Hg) as [(_ & r & Hr & Hf) Hp]. rewrite Hm, He in Hf. injection Hf as ->.
  rewrite (secure_bytes s (pk_from r) b (pk_payload r)); [by apply Hp|done|]. apply psecure_secure. eapply Hb; [exact Hr|]. by destruct Hs as ((f & _ & _ & ? & _) & _).
Qed.

(** ** The chunks of the new reference *)
Lemma ref_chunks_elem ref e i : e ∈ ref -> i ∈ ref_chunks [e] -> i ∈ ref_chunks ref.
Proof.
  unfold ref_chunks. intros He (e' & -> & [Hk He']%list_elem_of_filter)%list_elem_of_fmap. apply list_elem_of_singleton in He' as ->. apply list_elem_of_fmap. exists e. split; [done|]. by apply list_elem_of_filter.
Qed.
Lemma new_ref_chunks live nrefs g old i :
  i ∈ ref_chunks (new_ref live nrefs g old) ->
  i ∈ ref_chunks old \/ exists j l nref, live !! j = Some l /\ nrefs !! j = Some nref /\ lv_group l = g /\ i ∈ ref_chunks nref.
Proof.
  unfold new_ref. intros (ref & Hr & Hi)%ref_chunks_concat. apply list_elem_of_lookup in Hr as [n Hn]. rewrite list_lookup_imap in Hn. apply fmap_Some in Hn as (e & He & ->).
  destruct (repl_of live nrefs g n) as [nref|] eqn:Er; cbn in Hi.
  - right. apply repl_of_spec in Er as (j & l & Hj & Hn & Hg & _). by exists j, l, nref.
  - left. eapply ref_chunks_elem; [|exact Hi]. by eapply list_elem_of_lookup_2.
Qed.

(** ** Cleaning up *)
Definition lost (ok : nat -> bool) (l : list (LiveRec * DataRef)) : list Z := concat ((λ x, if ok (lv_group x.1) then [] else ref_chunks x.2) <$> l).
Definition drops (l : list Z) (s s' : Fs M) : Prop :=
  (forall i, i ∉ l -> chunks s' !! i = chunks s !! i) /\ packs s' = packs s /\ slots s' = slots s /\ hooked s' = hooked s.
Lemma settle_run ok l (s : Fs M) r s' : settle sys ok l s = (r, s') -> drops (lost ok l) s s'.
Proof.
  revert s r s'. induction l as [|[lv nref] l IH]; intros s r s' H; cbn [settle] in H; [by injection H as _ <-|].
  assert (forall r1 s1, (if ok (lv_group lv) then mret tt else try_remove sys nref) s = (r1, s1) -> drops (if ok (lv_group lv) then [] else ref_chunks nref) s s1) as H0.
  { intros r1 s1. destruct (ok (lv_group lv)); [by intros [= _ <-]|]. intros [= _ <-]. pose proof (hooked_remove eq sys nref s) as Hh. destruct (FsData.remove sys nref s) as [r0 s0] eqn:E. cbn.
    apply remove_run in E as (E1 & E2 & E3). done. }
  assert (forall l1 l2 a b c, drops l1 a b -> drops l2 b c -> drops (l1 ++ l2) a c) as Htr.
  { intros l1 l2 a b c (A1 & A2 & A3 & A4) (B1 & B2 & B3 & B4). unfold drops. rewrite B2, B3, B4. split; [|done]. intros i [Hi1 Hi2]%not_elem_of_app. by rewrite B1, A1. }
  runs H s1 E; apply H0 in E; [|eapply (Htr _ (lost ok l)); [exact E|done]]. runs H s2 E2; [|done]. injection E2 as <-. unfold lost. cbn [fmap list_fmap concat fst snd].
  assert (drops [] s1 (set_pins (fold_left (λ t e, unpin_id (Extent.file_id e) t) (base.filter (λ e, Extent.kind e <> Extent.kPack) nref) (fs_pins s1)) s1)) as H1 by done.
  pose proof (Htr _ _ _ _ _ E H1) as Hd. rewrite app_nil_r in Hd. runs H s3 E3; apply IH in E3; [injection H as _ <-|]; by eapply Htr.
Qed.
Lemma drops_adds (x : Fs M) l s s' : adds x s -> drops l s s' -> fs_ok x -> (forall i, i ∈ l -> chunks x !! i = None) -> adds x s'.
Proof.
  intros Ha (D1 & D2 & D3 & _) Hok Hf. split; intros _.
  - pose proof (ad_ok _ _ Ha Hok) as H. unfold fs_ok, slots_ok in *. by rewrite D2, D3.
  - intros i Hi. rewrite D1; [by apply (ad_chunks _ _ Ha Hok)|]. intros Hl. rewrite (Hf i Hl) in Hi. by destruct Hi.
  - intros e b Hp. apply (ad_packs _ _ Ha Hok) in Hp as (P1 & (f & Pf & Pi) & P3). split; [done|]. split; [|unfold behind; rewrite D3; exact P3]. exists f. split; [|done]. unfold file_of in *. rewrite P1 in *. by rewrite D2.
Qed.

(** * Objects keep their bytes *)
Definition objects_kept (s s' : Fs M) : Prop :=
  forall key rec d, objects s !! key = Some rec -> secure_ref s (or_data rec) d ->
    exists rec', objects s' !! key = Some rec' /\ or_meta rec' = or_meta rec /\ secure_ref s' (or_data rec') d.
Lemma same_objects (s s' : Fs M) : fs_ok s -> adds s s' -> objects s' = objects s -> objects_kept s s'.
Proof. intros Hok Ha E key rec d Hr Hd. exists rec. rewrite E. split; [done|]. split; [done|]. by apply (adds_secure_ref s). Qed.

(** ** After the swap *)
Section swapped.
Context (batch : list PackScanRecord) (groups : list Group) (live : list LiveRec) (recs : list (option ObjectRec)) (nrefs : list DataRef) (oks : list bool).
Context (s s2 s4 : Fs M).
Abbreviation reqs := (make_reqs 0 groups recs live nrefs).
Hypothesis Hlive : Forall (λ l, exists rec, recs !! lv_group l = Some (Some rec) /\ paired batch (lv_group l) (or_data rec) l) live.
Hypothesis Hnrefs : Forall2 (λ ref l, fresh_ref s ref /\ forall r, batch !! lv_rec l = Some r -> secure_ref s2 ref (pk_payload r)) nrefs live.
Hypothesis Hapart : apart_refs nrefs.
Hypothesis Hheld : batch_held s2 batch.
Hypothesis Hok : fs_ok s.
Hypothesis Hadds : adds s s2.
Hypothesis Hdrop : drops (lost (group_ok reqs oks) (zip live nrefs)) s2 s4.

Lemma lost_spec i : i ∈ lost (group_ok reqs oks) (zip live nrefs) -> exists j l nref, live !! j = Some l /\ nrefs !! j = Some nref /\ group_ok reqs oks (lv_group l) = false /\ i ∈ ref_chunks nref.
Proof.
  unfold lost. intros Hi. apply list_elem_of_In, in_concat in Hi as (x & Hx & Hi). apply list_elem_of_In, list_elem_of_fmap in Hx as ([l nref] & -> & Hz). cbn in Hi.
  apply list_elem_of_lookup in Hz as [j Hj]. apply lookup_zip_Some in Hj as [H1 H2]. exists j, l, nref. destruct (group_ok reqs oks (lv_group l)); [done|]. split; [done|]. split; [done|]. split; [done|]. by apply list_elem_of_In.
Qed.
Lemma lost_fresh i : i ∈ lost (group_ok reqs oks) (zip live nrefs) -> chunks s !! i = None.
Proof. intros (j & l & nref & _ & Hn & _ & Hi)%lost_spec. destruct (Forall2_lookup_l _ _ _ _ _ Hnrefs Hn) as (l' & _ & Hf & _). by apply Hf. Qed.
Lemma migrated_adds : adds s s4.
Proof. eapply drops_adds; [exact Hadds|exact Hdrop|exact Hok|exact lost_fresh]. Qed.

Lemma apart_lookup j k r1 r2 i : nrefs !! j = Some r1 -> nrefs !! k = Some r2 -> i ∈ ref_chunks r1 -> i ∈ ref_chunks r2 -> j = k.
Proof.
  clear Hnrefs Hdrop. revert j k. induction Hapart as [|a l Ha Hl IH]; intros [|j] [|k] H1 H2 Hi1 Hi2; cbn in *; try done; [| |f_equal; by eapply IH].
  - injection H1 as ->. rewrite list.Forall_forall in Ha. destruct (Ha r2 (list_elem_of_lookup_2 _ _ _ H2) i Hi1 Hi2).
  - injection H2 as ->. rewrite list.Forall_forall in Ha. destruct (Ha r1 (list_elem_of_lookup_2 _ _ _ H1) i Hi2 Hi1).
Qed.

(** A request that was accepted. *)
Lemma accepted_secure n g q d : reqs !! n = Some (g, q) -> oks !! n = Some true -> secure_ref s (sr_from q) d -> secure_ref s4 (sr_to q) d.
Proof.
  intros Hq Ho Hd. destruct (make_reqs_spec 0 groups recs live nrefs g q) as (gr & rec & Hg & Hr & _ & ->); [by eapply list_elem_of_lookup_2|]. rewrite Nat.sub_0_r in Hr. cbn [sr_from sr_to] in *.
  assert (secure_ref s2 (new_ref live nrefs g (or_data rec)) d) as H2.
  { eapply new_ref_secure; [exact Hheld| |by apply (adds_secure_ref s)]. intros j l nref Hj Hn Hlg. rewrite list.Forall_forall in Hlive. destruct (Hlive l (list_elem_of_lookup_2 _ _ _ Hj)) as (rec' & Hrec & Hp).
    rewrite Hlg, Hr in Hrec. injection Hrec as <-. rewrite Hlg in Hp. split; [done|]. by destruct (Forall2_lookup_lr _ _ _ _ _ _ Hnrefs Hn Hj). }
  apply (secure_ref_kept s2); [| |exact H2].
  - intros i Hi. destruct Hdrop as (D1 & _). apply D1. intros Hl. pose proof (lost_fresh i Hl) as Hnone. apply new_ref_chunks in Hi as [Hi|(j & l & nref & Hj & Hn & Hlg & Hi)].
    + destruct (ref_chunks_on_disk s _ _ i Hd Hi) as [c Hc]. congruence.
    + apply lost_spec in Hl as (k & l' & nref' & Hk & Hn' & Hgo & Hi'). pose proof (apart_lookup j k _ _ i Hn Hn' Hi Hi') as ->. rewrite Hj in Hk. injection Hk as <-.
      assert (group_ok reqs oks (lv_group l) = true) as Hgt; [|congruence]. unfold group_ok. apply existsb_exists. exists ((g, mkSwapReq (gr_b gr) (gr_k gr) (version rec) (or_data rec) (new_ref live nrefs g (or_data rec))), true).
      split; [|cbn; by rewrite Hlg, Nat.eqb_refl]. apply list_elem_of_In, (list_elem_of_lookup_2 _ n). apply lookup_zip_Some. done.
  - destruct Hdrop as (_ & D2 & D3 & _). intros e b (P1 & (f & Pf & Pi) & P3). split; [done|]. split; [|unfold behind; rewrite D3; exact P3]. exists f. split; [|done]. unfold file_of in *. rewrite P1 in *. by rewrite D2.
Qed.
End swapped.

Definition same_objs (m m' : M) : Prop := objs m' = objs m.
#[local] Instance same_objs_preorder : PreOrder same_objs.
Proof. split; [done|]. unfold same_objs. intros a b c. congruence. Qed.

Lemma migrate_run batch (s : Fs M) r s' :
  fs_ok s -> batch_held s batch -> migrate_pack_records opt sys clock busy batch s = (r, s') -> adds s s' /\ objects_kept s s'.
Proof.
  intros Hok Hb H. unfold migrate_pack_records in H. set (groups := group_batch 0 batch ∅ []) in H.
  assert (forall s1, still s s1 -> objects s1 = objects s -> adds s s1 /\ objects_kept s s1) as Hstill.
  { intros s1 Hs Ho. assert (adds s s1) as Ha by (apply pkeeps_adds; intros _; by apply still_pkeeps). split; [done|by apply same_objects]. }
  runs H s1 E; apply liveness_run in E as (L1 & L2 & L3); [|by apply Hstill]. destruct a as [live recs]. destruct (L3 _ _ eq_refl) as [_ Hlive]. clear L3. cbn [fst snd] in H.
  destruct (Hstill s1 L1 L2) as [Ha1 _]. pose proof (ad_ok _ _ Ha1 Hok) as Hok1. case_bool_decide; [injection H as <- <-; by apply Hstill|].
  pose proof (hooked_write_batch same_objs (λ k n m, alloc_objs k n m) (λ p n m, seal_objs p n m) opt sys clock busy (item_of batch groups <$> live) s1) as Hh.
  runs H s2 E; rewrite E in Hh; unfold hooked_rel, same_objs in Hh; cbn in Hh; pose proof (write_batch_run opt sys clock busy _ _ _ _ Hok1 E) as [Ha2 Hr].
  2: { assert (adds s s') as Ha by (by transitivity s1). split; [done|]. apply same_objects; [done|done|congruence]. }
  rename a into nrefs. pose proof (write_batch_apart opt sys clock busy _ _ _ _ Hok1 E) as Hap. specialize (Hr nrefs eq_refl). assert (adds s s2) as Ha by (by transitivity s1).
  set (reqs := make_reqs 0 groups recs live nrefs) in H. pose proof (swap_objs reqs.*2 (hooked s2)) as Hsw.
  destruct (mm_swap_extents_batch reqs.*2 (hooked s2)) as [[oks|err] m3] eqn:Esw; cbn [fst snd] in Hsw.
  2: { rewrite ST_bind_eq in H. unfold hook in H. rewrite Esw in H. injection H as <- <-. assert (adds s (set_hooked m3 s2)) as Ha3 by (transitivity s2; [done|apply pkeeps_adds; intros _; by apply still_pkeeps]).
       split; [done|]. apply same_objects; [done|done|]. cbn. congruence. }
  rewrite ST_bind_eq in H. unfold hook in H. rewrite Esw in H. apply settle_run in H as Hd.
  assert (drops (lost (group_ok reqs oks) (zip live nrefs)) s2 (set_hooked (hooked s2) s')) as Hd2 by (destruct Hd as (D1 & D2 & D3 & D4); split; [exact D1|]; split; [exact D2|]; split; [exact D3|done]).
  assert (hooked s' = m3) as Eh by (by destruct Hd as (_ & _ & _ & ->)).
  assert (Forall2 (λ ref l, fresh_ref s ref /\ forall r, batch !! lv_rec l = Some r -> secure_ref s2 ref (pk_payload r)) nrefs live) as Hn.
  { apply Forall2_fmap_r in Hr. eapply Forall2_impl; [exact Hr|]. intros ref l [H1 H2]. split; [by apply (fresh_ref_adds s s1)|]. intros r0 Hr0. unfold item_of in H1. cbn in H1. by rewrite Hr0 in H1. }
  assert (Forall (λ l, exists rec, recs !! lv_group l = Some (Some rec) /\ paired batch (lv_group l) (or_data rec) l) live) as Hlv.
  { eapply list.Forall_impl; [exact Hlive|]. intros l (_ & rec & Hl1 & Hl2). exists rec. by rewrite Nat.sub_0_r in Hl1. }
  assert (batch_held s2 batch) as Hb2 by (intros i r0 Hi Hp; by apply (ad_packs _ _ Ha Hok), (Hb i)).
  assert (forall ref d, secure_ref (set_hooked (hooked s2) s') ref d -> secure_ref s' ref d) as Hse by done.
  assert (adds s s') as Ha4.
  { pose proof (migrated_adds batch groups live recs nrefs oks s s2 _ Hn Hok Ha Hd2) as [A1 A2 A3]. by split. }
  split; [done|]. intros [b k] rec d Hrec Hsec. destruct (Hsw b k) as [Hs|(n & q & rec0 & Hq & Hok' & Hkey & Hobj & Hfrom & Hnew)].
  - exists rec. split; [rewrite Eh, Hs; congruence|]. split; [done|]. by apply (adds_secure_ref s).
  - assert (rec0 = rec) as -> by congruence. eexists. split; [rewrite Eh; exact Hnew|]. split; [done|]. cbn. apply Hse. rewrite Hfrom in Hsec.
    rewrite list_lookup_fmap in Hq. apply fmap_Some in Hq as ([g q'] & Hq & ->). by eapply (accepted_secure batch groups live recs nrefs oks s s2 _ Hlv Hn Hap Hb2 Hok Ha Hd2).
Qed.

(** * The scan *)
Definition found_in (p : Z) (file : bytes) (r : PackScanRecord) : Prop :=
  Extent.kind (pk_from r) = Extent.kPack /\ Extent.file_id (pk_from r) = p /\ ((0 < Extent.length (pk_from r))%Z -> in_file file (pk_from r) (pk_payload r)).

Lemma get_le_range file i n : (0 <= get_le file i n < 2 ^ (8 * Z.of_nat n))%Z.
Proof.
  destruct (le_loop_spec (substr file i n) 0 0) as [_ H]; [lia|lia|]. fold (get_le file i n) in H. split; [lia|]. apply (Z.lt_le_trans _ _ _ (proj2 H)), Z.pow_le_mono_r; [lia|]. unfold substr. rewrite length_take. lia.
Qed.

(** What the scan finds lies in the file, and it moves on by a header at least. *)
Lemma scan_at_sound p file off :
  (0 <= off <= blen file)%Z -> (blen file < 2 ^ 62)%Z ->
  match scan_at p file off with
  | FBad next => (off + 22 <= next <= blen file)%Z
  | FRec r next => (off + 22 <= next <= blen file)%Z /\ found_in p file r
  | _ => True
  end.
Proof.
  intros Ho Hf. unfold scan_at. destruct (negb _); [done|]. destruct (_ <? 22); [done|]. destruct (_ || _); [done|].
  set (h := get_le file _ 2). set (n := get_le file _ 8). set (w := get_le file (_ + 20) 2). set (crc := get_le file (_ + 16) 4).
  pose proof (get_le_range file (Z.to_nat off + 6) 2) as Hh. fold h in Hh. pose proof (get_le_range file (Z.to_nat off + 8) 8) as Hn. fold n in Hn. pose proof (get_le_range file (Z.to_nat off + 20) 2) as Hw. fold w in Hw. clearbody h n w.
  destruct (Z.eqb_spec h (kPackHeaderFixed + w)) as [Eh|]; [|done]. unfold kPackHeaderFixed in Eh. cbn [negb]. rewrite (u64_small (off + h)) by (unfold is_u64; lia).
  destruct (Z.ltb_spec (blen file) (u64 (off + h + n))) as [|Hfit]; [done|]. destruct (_ <? w)%Z; [done|]. destruct (Z.ltb_spec kVectorMax n) as [|Hv]; [done|]. unfold kVectorMax in Hv.
  rewrite u64_small in Hfit |- * by (unfold is_u64; lia). set (payload := substr file _ (Z.to_nat n)). destruct (Z.ltb_spec (blen payload) n) as [|Hp]; [done|].
  destruct (Z.eqb_spec (crc32c_of payload) crc) as [Ec|]; cbn [negb]; [|lia]. split; [lia|]. split; [done|]. split; [done|]. cbn. intros Hpos.
  assert (blen payload = n) as El. { unfold blen in *. unfold payload, substr in *. rewrite length_take in *. lia. }
  split; [cbn; lia|]. split; [done|]. split; [done|]. split; [done|]. cbn. unfold payload at 2. unfold blen in El. replace (length payload) with (Z.to_nat n) by lia. f_equal. lia.
Qed.

(** A step of the scan: nothing is lost, and it is not the fuel that ends it. *)
Definition compacts {A} (s : Fs M) (r : res RewriteErr A) (s' : Fs M) : Prop := adds s s' /\ objects_kept s s' /\ r <> Throw RwFuel.
Lemma objects_kept_refl (s : Fs M) : objects_kept s s.
Proof. intros key rec d H1 H2. by exists rec. Qed.
Lemma compacts_stay {A} (a : A) (s : Fs M) : compacts s (Ok a) s.
Proof. split; [done|]. split; [apply objects_kept_refl|done]. Qed.
Lemma compacts_trans {A B} (r1 : res RewriteErr A) (r2 : res RewriteErr B) (s s1 s2 : Fs M) : compacts s r1 s1 -> compacts s1 r2 s2 -> compacts s r2 s2.
Proof.
  intros (A1 & A2 & _) (B1 & B2 & B3). split; [by transitivity s1|]. split; [|done]. intros key rec d K1 K2. destruct (A2 key rec d K1 K2) as (rec1 & K3 & K4 & K5).
  destruct (B2 key rec1 d K3 K5) as (rec2 & K6 & K7 & K8). exists rec2. split; [done|]. split; [congruence|done].
Qed.

Lemma compacts_bind {A B} (m : ST (Fs M) RewriteErr A) (f : A -> ST (Fs M) RewriteErr B) (s : Fs M) r s' :
  (m ≫= f) s = (r, s') -> (forall r1 s1, m s = (r1, s1) -> compacts s r1 s1) ->
  (forall a s1 r2 s2, compacts s (Ok a) s1 -> f a s1 = (r2, s2) -> compacts s1 r2 s2) -> compacts s r s'.
Proof.
  intros H Hm Hf. runs H s1 E; apply Hm in E as Hc; [eapply compacts_trans; [exact Hc|by eapply Hf]|].
  destruct Hc as (H1 & H2 & H3). split; [done|]. split; [done|]. intros [= ->]. by apply H3.
Qed.
Lemma compacts_ret {A} (a : A) (s : Fs M) r s' : (mret a : ST (Fs M) RewriteErr A) s = (r, s') -> compacts s r s'.
Proof. intros [= <- <-]. apply compacts_stay. Qed.

Lemma turn_adds (s : Fs M) : adds s (turn s).
Proof. apply pkeeps_adds. intros _. by apply still_pkeeps. Qed.
Lemma objects_kept_turn (s : Fs M) : objects_kept s (turn s).
Proof. intros key rec d H1 H2. by exists rec. Qed.
Lemma as_must (s : Fs M) r s' : as_rewrite (must sys) s = (r, s') -> s' = turn s /\ r <> Throw RwFuel.
Proof. unfold as_rewrite. destruct (must sys s) as [o s1] eqn:E. intros [= <- <-]. apply must_run in E as [-> _]. by destruct o. Qed.
Lemma compacts_must (s : Fs M) r s' : as_rewrite (must sys) s = (r, s') -> compacts s r s'.
Proof. intros [-> Hr]%as_must. split; [apply turn_adds|]. split; [apply objects_kept_turn|done]. Qed.

(** The pack [p] holds [file], and no writer is past its end. *)
Definition sealed_pack (s : Fs M) (p : Z) (file : bytes) : Prop :=
  forall e b, Extent.kind e = Extent.kPack -> Extent.file_id e = p -> in_file file e b -> psecure s e b.
Lemma compacts_sealed {A} p file (r : res RewriteErr A) (s s' : Fs M) : fs_ok s -> compacts s r s' -> sealed_pack s p file -> fs_ok s' /\ sealed_pack s' p file.
Proof. intros Hok (H1 & _) Hs. split; [by apply (ad_ok _ _ H1)|]. intros e b E1 E2 Hin. by apply (ad_packs _ _ H1 Hok), Hs. Qed.

Lemma flush_batch_run p file batch (s : Fs M) r s' :
  fs_ok s -> sealed_pack s p file -> Forall (found_in p file) batch -> flush_batch opt sys clock busy batch s = (r, s') -> compacts s r s'.
Proof.
  intros Hok Hsec Hb. unfold flush_batch. case_bool_decide; [intros [= <- <-]; apply compacts_stay|]. unfold as_rewrite. destruct (migrate_pack_records _ _ _ _ _ _) as [o s2] eqn:E. intros [= <- <-].
  assert (batch_held s batch) as Hbh.
  { intros i r0 Hi Hpos. rewrite list.Forall_forall in Hb. destruct (Hb r0 (list_elem_of_lookup_2 _ _ _ Hi)) as (F1 & F2 & F3). apply Hsec; auto. }
  apply migrate_run in E as [H1 H2]; [|done|done]. split; [done|]. split; [done|]. by destruct o.
Qed.

Lemma rewrite_loop_run fuel p file off batch bb (s : Fs M) r s' :
  fs_ok s -> sealed_pack s p file -> Forall (found_in p file) batch -> (0 <= off <= blen file)%Z -> (blen file < 2 ^ 62)%Z -> (blen file - off < Z.of_nat fuel)%Z ->
  rewrite_loop opt sys clock busy fuel p file off batch bb s = (r, s') -> compacts s r s'.
Proof.
  intros Hok Hsec Hb Ho Hf. revert off batch bb s r s' Hok Hsec Hb Ho. induction fuel as [|fuel IH]; intros off batch bb s r s' Hok Hsec Hb Ho Hfu H; [lia|]. cbn [rewrite_loop] in H.
  eapply compacts_bind; [exact H|intros r1 s1; destruct (_ <=? _)%Z; [apply compacts_must|apply compacts_ret]|]. clear H r s'. intros u s0 r s' Hc0 H.
  destruct (compacts_sealed p file _ _ _ Hok Hc0 Hsec) as [Hok0 Hsec0]. clear Hok Hsec.
  pose proof (scan_at_sound p file off Ho Hf) as Hsc. destruct (scan_at p file off) as [c|next|rec next|].
  - eapply compacts_bind; [exact H|intros r1 s1; by apply (flush_batch_run p file)|intros a s1 r2 s2 _; apply compacts_ret].
  - eapply compacts_bind; [exact H|intros r1 s1; apply IH; try done; lia|intros a s1 r2 s2 _; apply compacts_ret].
  - destruct Hsc as [Hnext Hrec]. assert (Forall (found_in p file) (batch ++ [rec])) as Hb' by (apply Forall_app; split; [done|by apply list.Forall_singleton]).
    eapply compacts_bind; [exact H| |].
    + intros r1 s1. destruct (batch_full _ _); [by apply (flush_batch_run p file)|apply compacts_ret].
    + clear H r s'. intros n s1 r s' Hc H. destruct (compacts_sealed p file _ _ _ Hok0 Hc Hsec0) as [Hok1 Hsec1].
      eapply compacts_bind; [exact H| |intros a s2 r2 s3 _; apply compacts_ret]. intros r2 s2. destruct (batch_full _ _); apply IH; try done; lia.
  - injection H as <- <-. split; [done|]. split; [apply objects_kept_refl|done].
Qed.

(** C12: A compaction never loses data: however many system calls fail, however short the
    writes are, whether the metadata store refuses some swaps or the whole batch, and
    whatever bytes the scanned pack holds (bad headers, wrong checksums, torn tails,
    forged owners), every object whose bytes were on the disk before
    [rewrite_pack] is there afterwards with the same metadata, and its (old or new)
    reference stands for the same bytes. The scan ends within its fuel. *)
Theorem compaction_keeps_objects p (s : Fs M) r s' :
  fs_ok s -> (forall k sl, slots s !! k = Some sl -> sl_fd sl = true -> sl_id sl <> p) -> (forall file, packs s !! p = Some file -> (blen file < 2 ^ 62)%Z) ->
  rewrite_pack opt sys clock busy p s = (r, s') -> objects_kept s s' /\ r <> Throw RwFuel.
Proof.
  intros Hok Hcl Hsz H. enough (compacts s r s') as (_ & ?) by done. unfold rewrite_pack in H.
  runs H s1 E; apply as_must in E as [-> Hr]; [|split; [apply turn_adds|split; [apply objects_kept_turn|intros [= ->]; by apply Hr]]].
  rewrite ST_get_bind in H. cbn [disk turn] in H. destruct (packs s !! p) as [file|] eqn:Ef; [|injection H as <- <-; split; [apply turn_adds|split; [apply objects_kept_turn|done]]].
  apply (compacts_trans (Ok ()) r s (turn s)); [split; [apply turn_adds|split; [apply objects_kept_turn|done]]|].
  assert (fs_ok (turn s)) as Hok1 by (by apply (ad_ok _ _ (turn_adds s))).
  assert (sealed_pack (turn s) p file) as Hse.
  { intros e b E1 E2 Hin. split; [done|]. split; [exists file; split; [|done]; unfold file_of; by rewrite E1, E2|]. intros k sl Hk Ho Hi. destruct (Hcl k sl Hk Ho). congruence. }
  eapply compacts_bind; [exact H|apply compacts_must|]. clear H r s'. intros u s1 r s' Hc1 H. destruct (compacts_sealed p file _ _ _ Hok1 Hc1 Hse) as [Hok2 Hse2].
  eapply rewrite_loop_run; [exact Hok2|exact Hse2|by apply Forall_nil| |by apply Hsz| |exact H]; unfold blen; lia.
Qed.
End keep.

(** * A pack with a live and a dead record *)
Module MigrateDemo.
Record Meta := mkMeta { ids : Z; table : gmap (bytes * bytes) ObjectRec }.
#[global] Instance hooks : FsHooks Meta := {
  alloc_ _ n m := (Ok (ids m), mkMeta (ids m + n) (table m));
  seal_ _ _ m := (Ok tt, m) }.
Definition accepts (m : Meta) (q : SwapReq) : bool :=
  match table m !! (sr_bucket q, sr_key q) with
  | Some rec => bool_decide (version rec = expect_version q) && bool_decide (or_data rec = sr_from q)
  | None => false
  end.
Definition accept (m : Meta) (t : gmap (bytes * bytes) ObjectRec) (q : SwapReq) : gmap (bytes * bytes) ObjectRec :=
  match table m !! (sr_bucket q, sr_key q) with
  | Some rec => if accepts m q then <[(sr_bucket q, sr_key q) := set_version (u64 (version rec + 1)) (set_data (sr_to q) rec)]> t else t
  | None => t
  end.
#[global] Instance meta : MigrateMeta Meta := {
  mm_get_object b k m := (Ok (table m !! (b, k)), m);
  mm_swap_extents_batch reqs m := (Ok (accepts m <$> reqs), mkMeta (ids m) (fold_left (accept m) reqs (table m))) }.
Lemma accept_all m reqs t b k :
  fold_left (accept m) reqs t !! (b, k) = t !! (b, k) \/
  exists i q rec, reqs !! i = Some q /\ accepts m q = true /\ (sr_bucket q, sr_key q) = (b, k) /\ table m !! (b, k) = Some rec /\ or_data rec = sr_from q /\
    fold_left (accept m) reqs t !! (b, k) = Some (set_version (u64 (version rec + 1)) (set_data (sr_to q) rec)).
Proof.
  revert t. induction reqs as [|q reqs IH]; intros t; cbn [fold_left]; [by left|]. destruct (IH (accept m t q)) as [E|(i & q' & rec & Hi & Hr)]; [|right; by exists (S i), q', rec].
  rewrite E. unfold accept. destruct (table m !! (sr_bucket q, sr_key q)) as [rec|] eqn:Et; [|by left]. destruct (accepts m q) eqn:Ea; [|by left].
  destruct (decide ((sr_bucket q, sr_key q) = (b, k))) as [Ek|Ek]; [|left; by rewrite lookup_insert_ne]. rewrite Ek in *. right. exists 0, q, rec. rewrite lookup_insert_eq.
  repeat (split; [done|]). split; [|done]. unfold accepts in Ea. rewrite Ek, Et in Ea. by apply andb_true_iff in Ea as [_ Ea%bool_decide_eq_true].
Qed.
#[global] Program Instance law : MetaObjects Meta := {| objs := table |}.
Next Obligation. done. Qed.
Next Obligation. done. Qed.
Next Obligation. intros b k m. cbn. split; [done|]. by intros o [= <-]. Qed.
Next Obligation.
  intros reqs m. cbn. intros b k. destruct (accept_all m reqs (table m) b k) as [E|(i & q & rec & H1 & H2 & H)]; [by left|]. right. exists i, q, rec. split; [done|]. split; [|done].
  by rewrite list_lookup_fmap, H1; cbn; rewrite H2.
Qed.

Definition key : bytes * bytes := (bs "b", bs "k").
Definition file : bytes := pack_record (owner_key (bs "b") (bs "gone")) (bs "old") ++ pack_record (owner_key (bs "b") (bs "k")) (bs "hello").
Definition extent : Extent.t := Extent.mk Extent.kPack 9 (blen file - 5) 5 (crc32c_of (bs "hello")).
Definition rec : ObjectRec := mkObjectRec default_meta [extent] 3 default_tier.
Definition s0 : Fs Meta := mkFs (mkDisk ∅ {[9%Z := file]}) ∅ (repeat no_slot 2) 0 [] (mkMeta 20 {[key := rec]}) FsDemo.pins 0.
Lemma closed k sl : slots s0 !! k = Some sl -> sl = no_slot.
Proof. destruct k as [|[|k]]; cbn; intros [= <-]; reflexivity. Qed.
Lemma closed_ok : fs_ok s0.
Proof. split; [|cbn; lia]. split; [intros k sl ->%closed; done|]. intros j k sj sk ->%closed _ [=]. Qed.
Lemma held : secure_ref s0 (or_data rec) (bs "hello").
Proof.
  exists [bs "hello"]. split; [|done]. constructor; [|done]. split; [|split; [intros _ k sl ->%closed [=]|done]].
  exists file. split; [done|]. repeat split; vm_compute; try discriminate; reflexivity.
Qed.
End MigrateDemo.

Lemma compaction_keeps_objects_witness :
  exists rec', MigrateDemo.table (hooked (rewrite_pack FsDemo.opt FsDemo.sys FsDemo.clock FsDemo.busy 9 MigrateDemo.s0).2) !! MigrateDemo.key = Some rec' /\
    or_data rec' <> [MigrateDemo.extent] /\ secure_ref (rewrite_pack FsDemo.opt FsDemo.sys FsDemo.clock FsDemo.busy 9 MigrateDemo.s0).2 (or_data rec') (bs "hello").
Proof.
  destruct (compaction_keeps_objects FsDemo.opt FsDemo.sys FsDemo.clock FsDemo.busy 9 MigrateDemo.s0
    (rewrite_pack FsDemo.opt FsDemo.sys FsDemo.clock FsDemo.busy 9 MigrateDemo.s0).1 (rewrite_pack FsDemo.opt FsDemo.sys FsDemo.clock FsDemo.busy 9 MigrateDemo.s0).2) as [H _].
  - exact MigrateDemo.closed_ok.
  - intros k sl Hk Ho. rewrite (MigrateDemo.closed k sl Hk) in Ho. done.
  - intros file [= <-]. vm_compute. reflexivity.
  - by destruct (rewrite_pack _ _ _ _ _ _).
  - destruct (H MigrateDemo.key MigrateDemo.rec (bs "hello")) as (rec' & H1 & _ & H2); [reflexivity|exact MigrateDemo.held|]. exists rec'. split; [exact H1|]. split; [|exact H2].
    intros E. assert ((or_data <$> MigrateDemo.table (hooked (rewrite_pack FsDemo.opt FsDemo.sys FsDemo.clock FsDemo.busy 9 MigrateDemo.s0).2) !! MigrateDemo.key) = Some [MigrateDemo.extent]) as E2 by (change MigrateDemo.table with objs; rewrite H1; cbn; by rewrite E).
    vm_compute in E2. discriminate E2.
Defined.

(** When the swap throws, what was written for it stays: with packs off the new chunk is on
    the disk, no object refers to it, and its pin is never taken back, so no orphan scan of
    this process reclaims it. *)
Module SwapDown.
#[local] Instance down : MigrateMeta MigrateDemo.Meta := {
  mm_get_object := @mm_get_object _ MigrateDemo.meta;
  mm_swap_extents_batch _ m := (Throw InternalError, m) }.
Definition opt : FsDataOptions := mkFsOptions 4 true 0 60 0.
Definition run := rewrite_pack (meta := down) opt FsDemo.sys FsDemo.clock FsDemo.busy 9 MigrateDemo.s0.
Lemma failed_swap_leaves_pin :
  run.1 = Throw (RwThrow InternalError) /\ d_chunks (disk run.2) !! 20%Z = Some (bs "hell") /\ pin_count false 20 (fs_pins run.2) = 1%Z /\
  objs (hooked run.2) = {[MigrateDemo.key := MigrateDemo.rec]}.
Proof. split; [vm_compute; reflexivity|]. split; [vm_compute; reflexivity|]. split; vm_compute; reflexivity. Qed.
End SwapDown.
