(* ===== verification/DuoBackend.v ===== *)
(** The request paths of DuoStore ([DuoStoreBackend] in
    [src/src/storage/duostore/duostore_backend.cc]): each handler as a run over the shared
    state of the backend: the file data plane with the metadata store and the pins, the
    metadata cache, and the registries of reads and writes in flight.

    Other requests run meanwhile: before every call into the shared state, [env n] turns
    the state into what the others have made of it by then. A value read from the clock is
    [wall n]; the digest is a parameter. Destructors run in [finally], on success and on an
    exception. The metadata store is the interface [IMetaStore], as in the source. *)

From S2P Require Import Prelude Bytes Checksum Backend TimeUtil Validate Listing Multipart MemoryBackend Codec MetaUtil RocksMeta DuoWorld FsData MetaCache BodyReader FsRead.
From Stdlib Require Import ZArith Lia.
From stdpp Require Import base list gmap sets strings.
Open Scope lights3_scope.

(** * The metadata store *)

(** [UndeterminedCommit]: the transaction may have taken effect. *)
Inductive MetaErr := MErr (c : S3ErrorCode) | Undetermined.
Class IMetaStore (M : Type) := {
  im_create_bucket : bytes -> Z -> M -> res MetaErr unit * M;
  im_delete_bucket : bytes -> M -> res MetaErr unit * M;
  im_bucket_exists : bytes -> M -> res MetaErr bool * M;
  im_list_buckets : M -> res MetaErr (list BucketInfo) * M;
  im_get_object : bytes -> bytes -> M -> res MetaErr (option ObjectRec) * M;
  im_head_object : bytes -> bytes -> M -> res MetaErr (option ObjectMeta) * M;
  im_put_object : bytes -> bytes -> ObjectRec -> PutCondition -> Z -> M -> res MetaErr unit * M;
  im_delete_object : bytes -> bytes -> Z -> M -> res MetaErr bool * M;
  im_list_objects : bytes -> ListOptions -> M -> res MetaErr ListResult * M;
  im_create_upload : bytes -> bytes -> ObjectMeta -> bytes -> Z -> M -> res MetaErr bytes * M;
  im_require_upload : bytes -> bytes -> bytes -> M -> res MetaErr UploadRec * M;
  im_put_part : bytes -> bytes -> bytes -> PartRec -> Z -> M -> res MetaErr unit * M;
  im_list_parts : bytes -> bytes -> bytes -> M -> res MetaErr (list PartRec) * M;
  im_list_uploads : bytes -> bytes -> bytes -> Z -> bytes -> M -> res MetaErr (list UploadInfo) * M;
  im_complete_upload : bytes -> bytes -> bytes -> list PartInfo -> Z -> time_point -> M -> res MetaErr bytes * M;
  im_abort_upload : bytes -> bytes -> bytes -> Z -> M -> res MetaErr unit * M }.

(** * State *)
Record CachedObject := mkCached { co_rec : ObjectRec; co_manifest : bool }.
Definition kMetaCacheMaxExtents : nat := 256.
Definition kLocal : Z := 0.
Definition kRemote : Z := 1.
Definition kCached : Z := 2.

Record Duo (M : Type) := mkDuo { du_fs : Fs M; du_cache : Cache CachedObject; read_clock : InFlight; write_clock : InFlight }.
Arguments mkDuo {M} _ _ _ _.
Arguments du_fs {M} _.
Arguments du_cache {M} _.
Arguments read_clock {M} _.
Arguments write_clock {M} _.

Section setters.
Context {M : Type}.
Definition set_fs (f : Fs M) (s : Duo M) : Duo M := mkDuo f (du_cache s) (read_clock s) (write_clock s).
Definition set_cache (c : Cache CachedObject) (s : Duo M) : Duo M := mkDuo (du_fs s) c (read_clock s) (write_clock s).
Definition set_reads (c : InFlight) (s : Duo M) : Duo M := mkDuo (du_fs s) (du_cache s) c (write_clock s).
Definition set_writes (c : InFlight) (s : Duo M) : Duo M := mkDuo (du_fs s) (du_cache s) (read_clock s) c.
End setters.

(** The state and the number of the next call. *)
Record Srv (M : Type) := mkSrv { sv : Duo M; tk : nat }.
Arguments mkSrv {M} _ _.
Arguments sv {M} _.
Arguments tk {M} _.

(** Exceptions: an [S3Error], an undetermined commit, [StubRace], and the model's fuel. *)
Inductive DuoErr := DErr (c : S3ErrorCode) | DUndetermined | DStubRace | DFuel.

(** * The digest of a body ([PipelinedMd5])

    A chunk handed to [feed] is hashed by the pool until the next call awaits it; the bytes
    are taken from the caller's buffer as it is then. *)
Definition kChunk : nat := Z.to_nat 131072.
Definition kInlineBytes : Z := 262144.
Record Md5Pipe := mkMd5 { md5_done : bytes; md5_pending : option (bool * nat); md5_total : Z }.
Definition md5_start : Md5Pipe := mkMd5 [] None 0.

Definition buf_of (cur : bool) (bufs : bytes * bytes) : bytes := if cur then bufs.2 else bufs.1.
Definition buf_put (cur : bool) (c : bytes) (bufs : bytes * bytes) : bytes * bytes :=
  let b := c ++ drop (length c) (buf_of cur bufs) in if cur then (bufs.1, b) else (b, bufs.2).

Definition md5_await (bufs : bytes * bytes) (p : Md5Pipe) : Md5Pipe :=
  match md5_pending p with
  | Some (b, n) => mkMd5 (md5_done p ++ take n (buf_of b bufs)) None (md5_total p)
  | None => p
  end.
Definition md5_feed (bufs : bytes * bytes) (cur : bool) (n : nat) (p : Md5Pipe) : Md5Pipe :=
  let p1 := md5_await bufs p in
  let total := (md5_total p1 + Z.of_nat n)%Z in
  if (md5_total p1 <? kInlineBytes)%Z then mkMd5 (md5_done p1 ++ take n (buf_of cur bufs)) None total
  else mkMd5 (md5_done p1) (Some (cur, n)) total.

Record Pumped := mkPumped { pu_ref : DataRef; pu_md5 : bytes }.
(** The stream of a GET: the reader with the pins it holds and its ticket; no reader for an
    empty body. *)
Record PinnedReader := mkPinned { pr_inner : ExtentChainReader; pr_ids : list Handle; pr_ticket : Z }.
Record DuoStream := mkDuoStream { ds_meta : ObjectMeta; ds_range : option ByteRange; ds_body : option PinnedReader }.

(** [ObjectLayout], for [inspect_object]. *)
Record LayoutExtent := mkLayoutExtent { lx_kind : bytes; lx_id : Z; lx_offset : Z; lx_length : Z; lx_crc32c : Z }.
Record ObjectLayout := mkLayout { ly_engine : bytes; ly_attrs : list (bytes * bytes); ly_extents : list LayoutExtent }.

(** * The interface *)

(** The operations of [IStorageBackend], all but [close], and the hooks of the tiering layer. *)
Inductive Request (R : Type) :=
| CreateBucket (b : bytes)
| DeleteBucket (b : bytes)
| BucketExists (b : bytes)
| ListBuckets
| PutObject (b k : bytes) (m : ObjectMeta) (body : R) (cond : PutCondition)
| GetObject (b k : bytes) (range : option ByteRange)
| HeadObject (b k : bytes)
| InspectObject (b k : bytes)
| DeleteObject (b k : bytes)
| ListObjects (b : bytes) (o : ListOptions)
| CreateMultipart (b k : bytes) (m : ObjectMeta) (new_id : bytes)
| UploadPart (b k id : bytes) (n : Z) (body : R) (ck : option PartChecksum)
| CompleteMultipart (b k id : bytes) (parts : list PartInfo)
| AbortMultipart (b k id : bytes)
| ListParts (b k id : bytes) (o : ListPartsOptions)
| ListMultipartUploads (b : bytes) (o : ListUploadsOptions)
| TierRead (b k : bytes)
| TierCommitStub (b k : bytes) (m : ObjectMeta) (e a : bytes)
| TierCommitCached (b k : bytes) (body : R) (m : ObjectMeta) (e a : bytes).
Arguments CreateBucket {R}. Arguments DeleteBucket {R}. Arguments BucketExists {R}. Arguments ListBuckets {R}. Arguments PutObject {R}. Arguments GetObject {R}.
Arguments HeadObject {R}. Arguments InspectObject {R}. Arguments DeleteObject {R}. Arguments ListObjects {R}. Arguments CreateMultipart {R}. Arguments UploadPart {R}. Arguments CompleteMultipart {R}.
Arguments AbortMultipart {R}. Arguments ListParts {R}. Arguments ListMultipartUploads {R}. Arguments TierRead {R}. Arguments TierCommitStub {R}. Arguments TierCommitCached {R}.

Section backend.
Context {M : Type} {hooks : FsHooks M} {ims : IMetaStore M} {R : Type} {reader : BodyReader R}.
Context (opt : FsDataOptions) (sys : nat -> option nat) (clock : nat -> Z) (busy : nat -> nat -> bool).
Context (md5_hex : bytes -> bytes) (hash : bytes -> nat) (wall : nat -> time_point) (env : nat -> Duo M -> Duo M).
Abbreviation D := (ST (Srv M) DuoErr).

(** A call into the shared state: the others first. *)
Definition shared {A} (f : Duo M -> res DuoErr A * Duo M) : D A := λ s,
  let '(r, d) := f (env (tk s) (sv s)) in (r, mkSrv d (S (tk s))).
Definition update (f : Duo M -> Duo M) : D unit := shared (λ d, (Ok tt, f d)).
Definition now : D time_point := λ s, (Ok (wall (tk s)), mkSrv (sv s) (S (tk s))).
Definition check {A} (r : result A) : D A := λ s, (match r with Ok a => Ok a | Throw c => Throw (DErr c) end, s).

Definition meta_err (e : MetaErr) : DuoErr := match e with MErr c => DErr c | Undetermined => DUndetermined end.
Definition on_meta {A} (f : M -> res MetaErr A * M) (d : Duo M) : res DuoErr A * Duo M :=
  let '(r, m) := f (hooked (du_fs d)) in
  (match r with Ok a => Ok a | Throw e => Throw (meta_err e) end, set_fs (set_hooked m (du_fs d)) d).
Definition meta {A} (f : M -> res MetaErr A * M) : D A := shared (on_meta f).
Definition on_data {A} (m : ST (Fs M) S3ErrorCode A) (d : Duo M) : res DuoErr A * Duo M :=
  let '(r, f) := m (du_fs d) in (match r with Ok a => Ok a | Throw c => Throw (DErr c) end, set_fs f d).

(** A scope guard: the destructor runs on success and on an exception. *)
Definition finally {A} (m : D A) (fin : D unit) : D A := λ s, let '(r, s') := m s in (r, (fin s').2).
(** [try { m } catch (...) {}] *)
Definition try_ (m : D unit) : D unit := λ s, (Ok tt, (m s).2).

Definition require_bucket (b : bytes) : D unit := e ← meta (im_bucket_exists b); match e with true => mret tt | false => throw (DErr NoSuchBucket) end.
Definition require_object (b k : bytes) : D ObjectRec :=
  rec ← meta (im_get_object b k);
  match rec with Some r => mret r | None => _ ← require_bucket b; throw (DErr NoSuchKey) end.

(** * Buckets *)
Definition create_bucket (b : bytes) : D unit :=
  _ ← check (validate_bucket_name b true);
  t ← now;
  meta (im_create_bucket b (to_unix_ms t)).
Definition delete_bucket (b : bytes) : D unit := meta (im_delete_bucket b).
Definition bucket_exists (b : bytes) : D bool := meta (im_bucket_exists b).
Definition list_buckets : D (list BucketInfo) := meta im_list_buckets.

(** * Writing a body *)
Definition body_err (e : read_error) : DuoErr := match e with S3Err c => DErr c | OutOfFuel => DFuel end.

(** The calls of the request's own writer. When one throws, the unwinding that follows runs
    the writer's destructor. *)
Definition write_block (buf : bytes) (w : DataWriter) : D DataWriter := shared (λ d,
  let '(r, (f, w')) := writer_write opt sys buf (du_fs d, w) in
  match r with
  | Ok _ => (Ok w', set_fs f d)
  | Throw c => (Throw (DErr c), set_fs (writer_discard sys w' f).2 d)
  end).
Definition finish_writer (w : DataWriter) : D DataRef := shared (λ d,
  let '(r, (f, w')) := writer_finish opt sys clock busy (du_fs d, w) in
  (match r with Ok ref => Ok ref | Throw c => Throw (DErr c) end, set_fs (writer_discard sys w' f).2 d)).
Definition drop_writer (w : DataWriter) : D unit := shared (on_data (writer_discard sys w)).

(** The body as it was hashed, and the writer that has it. *)
Fixpoint pump_loop (fuel : nat) (body : R) (bufs : bytes * bytes) (cur : bool) (p : Md5Pipe) (w : DataWriter) : D (bytes * DataWriter) :=
  match fuel with
  | 0 => _ ← try_ (drop_writer w); throw DFuel
  | S f =>
      match br_read kChunk body with
      | (Throw e, _) => _ ← try_ (drop_writer w); throw (body_err e)
      | (Ok [], _) => mret (md5_done (md5_await bufs p), w)
      | (Ok c, body') =>
          let bufs' := buf_put cur c bufs in
          let p' := md5_feed bufs' cur (length c) p in
          w' ← write_block (take (length c) (buf_of cur bufs')) w;
          pump_loop f body' bufs' (negb cur) p' w'
      end
  end.

(** [junk]: what the recycled buffers hold. *)
Definition pump_body (fuel : nat) (junk : bytes * bytes) (body : R) (owner : bytes) : D Pumped :=
  x ← pump_loop fuel body junk false md5_start (open_writer opt (br_length body) owner);
  ref ← finish_writer x.2;
  mret (mkPumped ref (md5_hex x.1)).

(** [WriteTicket], [WritePinRelease] and the invalidation guard. *)
Definition write_ticket : D Z := t ← now; shared (λ d, let '(i, c) := flight_begin (to_unix_ms t) (write_clock d) in (Ok i, set_writes c d)).
Definition end_write (i : Z) : D unit := update (λ d, set_writes (flight_end i (write_clock d)) d).
Definition write_pins (ref : DataRef) : list Z := Extent.file_id <$> base.filter (λ e, Extent.kind e <> Extent.kPack) ref.
Definition release_pins (ref : DataRef) : D unit :=
  update (λ d, set_fs (set_pins (fold_left (λ t i, unpin_id i t) (write_pins ref) (fs_pins (du_fs d))) (du_fs d)) d).
Definition invalidate_key (b k : bytes) : D unit := update (λ d, set_cache (invalidate hash (ckey b k) (du_cache d)) d).

Definition commit_or_discard (ref : DataRef) (commit : D unit) : D unit := λ s,
  match commit s with
  | (Ok _, s') => (Ok tt, s')
  | (Throw DUndetermined, s') => (Throw DUndetermined, s')
  | (Throw e, s') => (Throw e, (try_ (shared (on_data (FsData.remove sys ref))) s').2)
  end.

Definition put_object (fuel : nat) (junk : bytes * bytes) (b k : bytes) (m : ObjectMeta) (body : R) (cond : PutCondition) : D PutResult :=
  _ ← check (validate_bucket_name b true);
  _ ← check (validate_object_key k);
  _ ← require_bucket b;
  wt ← write_ticket;
  finally (
    owner ← check (object_key b k);
    pumped ← pump_body fuel junk body owner;
    finally (
      t ← now;
      let rec := mkObjectRec (set_last_modified t (set_etag (pu_md5 pumped) (set_osize (data_total (pu_ref pumped)) (set_okey k m)))) (pu_ref pumped) 0 default_tier in
      t2 ← now;
      finally (_ ← commit_or_discard (pu_ref pumped) (meta (im_put_object b k rec cond (to_unix_ms t2))); mret (mkPutResult (pu_md5 pumped) [] [] []))
        (invalidate_key b k))
      (release_pins (pu_ref pumped)))
    (end_write wt).

(** * The hooks of the tiering layer *)
Definition tier_read (b k : bytes) : D (option ObjectRec) := λ s,
  match meta (im_get_object b k) s with
  | (Throw (DErr NoSuchBucket), s') | (Throw (DErr NoSuchKey), s') => (Ok None, s')
  | x => x
  end.
Definition match_etag (m : ObjectMeta) : PutCondition := mkPutCondition false (Some (etag m)).
Definition tier_commit_stub (b k : bytes) (m : ObjectMeta) (ts : TierState) : D unit :=
  t ← now;
  finally (meta (im_put_object b k (mkObjectRec (set_okey k m) [] 0 ts) (match_etag m) (to_unix_ms t))) (invalidate_key b k).
Definition tier_commit_cached (fuel : nat) (junk : bytes * bytes) (b k : bytes) (body : R) (m : ObjectMeta) (ts : TierState) : D unit :=
  wt ← write_ticket;
  finally (
    owner ← check (object_key b k);
    pumped ← pump_body fuel junk body owner;
    finally (
      if negb (data_total (pu_ref pumped) =? osize m)%Z then _ ← try_ (shared (on_data (FsData.remove sys (pu_ref pumped)))); throw (DErr InternalError)
      else
        t ← now;
        finally (commit_or_discard (pu_ref pumped) (meta (im_put_object b k (mkObjectRec (set_okey k m) (pu_ref pumped) 0 ts) (match_etag m) (to_unix_ms t))))
          (invalidate_key b k))
      (release_pins (pu_ref pumped)))
    (end_write wt).

(** * Reading *)
Definition cache_lookup (b k : bytes) : D (option CachedObject * Token) := t ← now;
  shared (λ d, (Ok (lookup_value hash (du_cache d) t None (ckey b k), token_for hash (lookup_state hash t None (ckey b k) (du_cache d)) (ckey b k)),
                set_cache (lookup_state hash t None (ckey b k) (du_cache d)) d)).
Definition cache_token (b k : bytes) : D Token := shared (λ d, (Ok (token_for hash (du_cache d) (ckey b k)), d)).
Definition cache_insert (tok : Token) (b k : bytes) (v : CachedObject) : D unit := t ← now;
  update (λ d, set_cache (MetaCache.insert hash tok t (ckey b k) v (du_cache d)) d).

(** The record a GET serves: a full entry of the cache, else the engine's, which fills it. *)
Definition load_record (b k : bytes) : D ObjectRec :=
  c ← cache_lookup b k;
  match c.1 with
  | Some (mkCached rec true) => mret rec
  | _ =>
      tok ← cache_token b k;
      rec ← require_object b k;
      _ ← (if length (or_data rec) <=? kMetaCacheMaxExtents then cache_insert tok b k (mkCached rec true) else mret tt);
      mret rec
  end.

(** The extents that [first, last] touches; [off] is the offset of the first of [es]. *)
Fixpoint hit_extents (es : DataRef) (off first last : Z) : DataRef :=
  match es with
  | [] => []
  | e :: es' =>
      if (last <? off)%Z then []
      else (if (first <? (off +₆₄ Extent.length e)%L3)%Z then [e] else []) ++ hit_extents es' (off +₆₄ Extent.length e)%L3 first last
  end.

Definition begin_read : D Z := t ← now; shared (λ d, let '(i, c) := flight_begin (to_unix_ms t) (read_clock d) in (Ok i, set_reads c d)).
Definition end_read (i : Z) : D unit := update (λ d, set_reads (flight_end i (read_clock d)) d).
Definition take_pins (es : DataRef) : D (list Handle) :=
  shared (λ d, let '(hs, t) := pin es (fs_pins (du_fs d)) in (Ok hs, set_fs (set_pins t (du_fs d)) d)).
Definition drop_pins (hs : list Handle) : D unit := update (λ d, set_fs (set_pins (unpin hs (fs_pins (du_fs d))) (du_fs d)) d).

(** What a range asks for: the first and last byte, and how many. *)
Definition wanted (range : option ByteRange) (size : Z) : result (Z * Z * Z) :=
  match range with
  | Some r => fl ← resolve_range r size; Ok (fl.1, fl.2, fl.2 -₆₄ fl.1 +₆₄ 1)%L3
  | None => Ok (0, if (0 <? size)%Z then size - 1 else 0, size)%Z
  end.

(** [view]: the disk as the reader will find it. *)
Definition open_stream (view : nat -> Disk) (ticket : Z) (b k : bytes) (range : option ByteRange) : D DuoStream :=
  rec ← load_record b k;
  if (tier (or_tier rec) =? kRemote)%Z then throw DStubRace
  else
    w ← check (wanted range (osize (or_meta rec)));
    let first := w.1.1 in
    let last := w.1.2 in
    let out := mkDuoStream (or_meta rec) (match range with Some _ => Some (mkByteRange (Some first) (Some last)) | None => None end) in
    if (w.2 =? 0)%Z then mret (out None)
    else
      ids ← take_pins (hit_extents (or_data rec) 0 first last);
      match open_reader opt sys view (or_data rec) first last with
      | Ok inner => mret (out (Some (mkPinned inner ids ticket)))
      | Throw c => _ ← drop_pins ids; throw (DErr c)
      end.
(** [TicketGuard]: the ticket ends here unless the reader took it over. *)
Definition guard_ticket (ticket : Z) (m : D DuoStream) : D DuoStream := λ s,
  let '(r, s') := m s in
  (r, match r with Ok (mkDuoStream _ _ (Some _)) => s' | _ => (end_read ticket s').2 end).
Definition get_object (view : nat -> Disk) (b k : bytes) (range : option ByteRange) : D DuoStream :=
  _ ← check (validate_object_key k);
  ticket ← begin_read;
  guard_ticket ticket (open_stream view ticket b k range).
(** [~PinnedReader] *)
Definition drop_reader (p : PinnedReader) : D unit := _ ← drop_pins (pr_ids p); end_read (pr_ticket p).

Definition head_object (b k : bytes) : D ObjectMeta :=
  _ ← check (validate_object_key k);
  c ← cache_lookup b k;
  match c.1 with
  | Some v => mret (or_meta (co_rec v))
  | None =>
      m ← meta (im_head_object b k);
      match m with
      | None => _ ← require_bucket b; throw (DErr NoSuchKey)
      | Some m => _ ← cache_insert c.2 b k (mkCached (mkObjectRec m [] 0 default_tier) false); mret m
      end
  end.

(** The record as it is stored, past the cache: attributes in order, and the extents. *)
Definition tier_name (t : Z) : bytes := if (t =? kLocal)%Z then bs "local" else if (t =? kRemote)%Z then bs "remote" else bs "cached".
Definition kind_name (e : Extent.t) : bytes :=
  if bool_decide (Extent.kind e = Extent.kChunk) then bs "chunk" else if bool_decide (Extent.kind e = Extent.kPack) then bs "pack" else bs "rados".
Definition layout_of (rec : ObjectRec) : ObjectLayout :=
  mkLayout (bs "duostore")
    ([(bs "logical_size", to_string (osize (or_meta rec))); (bs "etag", etag (or_meta rec)); (bs "content_type", content_type (or_meta rec));
      (bs "last_modified", iso8601 (last_modified (or_meta rec))); (bs "meta_version", to_string (version rec)); (bs "tier", tier_name (tier (or_tier rec)))]
     ++ (if (tier (or_tier rec) =? kLocal)%Z then [] else [(bs "remote_etag", remote_etag (or_tier rec)); (bs "remote_at", remote_at (or_tier rec))])
     ++ [(bs "extents", to_string (Z.of_nat (length (or_data rec)))); (bs "stored_bytes", to_string (data_total (or_data rec)))])
    ((λ e, mkLayoutExtent (kind_name e) (Extent.file_id e) (Extent.offset e) (Extent.length e) (Extent.crc32c e)) <$> or_data rec).
Definition inspect_object (b k : bytes) : D ObjectLayout :=
  _ ← check (validate_object_key k);
  rec ← require_object b k;
  mret (layout_of rec).

Definition delete_object (b k : bytes) : D unit :=
  _ ← check (validate_object_key k);
  t ← now;
  finally (_ ← meta (im_delete_object b k (to_unix_ms t)); mret tt) (invalidate_key b k).
Definition list_objects (b : bytes) (o : ListOptions) : D ListResult := meta (im_list_objects b o).

(** * Multipart uploads *)
Definition create_multipart (b k : bytes) (m : ObjectMeta) (new_id : bytes) : D bytes :=
  _ ← check (validate_bucket_name b true);
  _ ← check (validate_object_key k);
  t ← now;
  meta (im_create_upload b k m new_id (to_unix_ms t)).

Definition upload_part (fuel : nat) (junk : bytes * bytes) (b k upload_id : bytes) (part_no : Z) (body : R) (checksum : option PartChecksum) : D PutResult :=
  _ ← check (validate_part_number part_no);
  _ ← check (validate_object_key k);
  _ ← meta (im_require_upload b k upload_id);
  wt ← write_ticket;
  finally (
    pumped ← pump_body fuel junk body (part_owner b k upload_id part_no);
    finally (
      t ← now;
      let p := mkPartRec part_no (data_total (pu_ref pumped)) (pu_md5 pumped) (to_unix_ms t) (pu_ref pumped)
                 (match checksum with Some c => pc_algorithm c | None => [] end) (match checksum with Some c => pc_resolved c | None => [] end) in
      t2 ← now;
      _ ← commit_or_discard (pu_ref pumped) (meta (im_put_part b k upload_id p (to_unix_ms t2)));
      mret (mkPutResult (pu_md5 pumped) [] [] []))
      (release_pins (pu_ref pumped)))
    (end_write wt).

Definition complete_multipart (b k upload_id : bytes) (parts : list PartInfo) : D PutResult :=
  _ ← check (validate_part_order parts);
  _ ← check (validate_object_key k);
  t ← now;
  finally (
    tag ← meta (im_complete_upload b k upload_id parts (to_unix_ms t) t);
    m ← meta (im_head_object b k);
    mret (match m with
          | Some m => if negb (empty_string (checksum_value m)) then mkPutResult tag (checksum_algorithm m) (checksum_value m) (checksum_type m) else mkPutResult tag [] [] []
          | None => mkPutResult tag [] [] []
          end))
    (invalidate_key b k).
Definition abort_multipart (b k upload_id : bytes) : D unit :=
  _ ← check (validate_object_key k);
  t ← now;
  meta (im_abort_upload b k upload_id (to_unix_ms t)).

Definition part_meta (p : PartRec) : PartMeta :=
  mkPartMeta (pr_part_no p) (pr_size p) (pr_etag p) (from_unix_ms (pr_modified_ms p)) (pr_checksum_algorithm p) (pr_checksum_value p).
Definition list_parts (b k upload_id : bytes) (o : ListPartsOptions) : D ListPartsResult :=
  _ ← check (validate_object_key k);
  l ← meta (im_list_parts b k upload_id);
  mret (apply_parts_page (part_meta <$> l) o).
Definition list_multipart_uploads (b : bytes) (o : ListUploadsOptions) : D ListUploadsResult :=
  let lim := if empty_string (lu_delimiter o) && (0 <? max_uploads o)%Z then (max_uploads o + 1)%Z else 0%Z in
  l ← meta (im_list_uploads b (key_marker o) (upload_id_marker o) lim (lu_prefix o));
  mret (apply_uploads_page l o).

(** * A request *)
Definition void {A} (m : D A) : D unit := _ ← m; mret tt.
(** The stream of a GET is dropped at its end. *)
Definition serve (fuel : nat) (junk : bytes * bytes) (view : nat -> Disk) (q : Request R) : D unit :=
  match q with
  | CreateBucket b => create_bucket b
  | DeleteBucket b => delete_bucket b
  | BucketExists b => void (bucket_exists b)
  | ListBuckets => void list_buckets
  | PutObject b k m body cond => void (put_object fuel junk b k m body cond)
  | GetObject b k range => st ← get_object view b k range; match ds_body st with Some p => drop_reader p | None => mret tt end
  | HeadObject b k => void (head_object b k)
  | InspectObject b k => void (inspect_object b k)
  | DeleteObject b k => delete_object b k
  | ListObjects b o => void (list_objects b o)
  | CreateMultipart b k m i => void (create_multipart b k m i)
  | UploadPart b k id n body ck => void (upload_part fuel junk b k id n body ck)
  | CompleteMultipart b k id parts => void (complete_multipart b k id parts)
  | AbortMultipart b k id => abort_multipart b k id
  | ListParts b k id o => void (list_parts b k id o)
  | ListMultipartUploads b o => void (list_multipart_uploads b o)
  | TierRead b k => void (tier_read b k)
  | TierCommitStub b k m e a => tier_commit_stub b k m (mkTierState kRemote e a)
  | TierCommitCached b k body m e a => tier_commit_cached fuel junk b k body m (mkTierState kCached e a)
  end.

End backend.
