(* ===== verification/DuoPins.v ===== *)
(** What a GET holds while its stream is open, and that it lets go of it: the pins on the
    files of its range and its ticket among the reads in flight. *)

From S2P Require Import Prelude Bytes Checksum Backend Validate Listing Multipart MemoryBackend Codec MetaUtil RocksMeta DuoWorld FsData MetaCache BodyReader FsRead DuoBackend.
From Stdlib Require Import ZArith Lia.
From stdpp Require Import base list gmap sets strings.
Open Scope lights3_scope.

(** * The extents of a range *)

(** The offset at which the [i]-th extent starts. *)
Definition starts (es : DataRef) (i : nat) : Z := foldr (λ e n, Extent.length e + n)%Z 0%Z (take i es).
Lemma starts_bound es i e : Forall (λ e, 0 <= Extent.length e)%Z es -> es !! i = Some e -> (0 <= starts es i /\ starts es i + Extent.length e <= starts es (length es))%Z.
Proof.
  revert i. unfold starts. induction es as [|x es IH]; intros i Hl Hi; [done|]. apply list.Forall_cons in Hl as [Hx Hl]. destruct i as [|i]; cbn [take foldr length].
  - injection Hi as <-. enough (0 <= foldr (λ e n, Extent.length e + n) 0 (take (length es) es))%Z by lia. rewrite firstn_all. clear -Hl. induction Hl; cbn; lia.
  - specialize (IH i Hl Hi). lia.
Qed.
(** Every extent with a byte of the range is hit. *)
Lemma hit_extents_all es off first last i e :
  Forall (λ e, 0 <= Extent.length e)%Z es -> (0 <= off)%Z -> (off + starts es (length es) < 2 ^ 64)%Z -> es !! i = Some e ->
  (off + starts es i <= last)%Z -> (first < off + starts es i + Extent.length e)%Z -> e ∈ hit_extents es off first last.
Proof.
  revert off i. induction es as [|x es IH]; intros off i Hl H0 Hb Hi H1 H2; [done|]. pose proof (starts_bound _ _ _ Hl Hi) as [Hs1 Hs2]. apply list.Forall_cons in Hl as [Hx Hl]. cbn [hit_extents].
  assert (0 <= starts es (length es))%Z as Hn by (unfold starts; rewrite firstn_all; clear -Hl; induction Hl; cbn; lia). change (starts (x :: es) (length (x :: es))) with (Extent.length x + starts es (length es))%Z in Hb.
  assert (off +₆₄ Extent.length x = off + Extent.length x)%L3%Z as -> by (apply u64_small; unfold is_u64; lia). destruct (Z.ltb_spec last off) as [|_]; [lia|]. destruct i as [|i].
  - injection Hi as ->. unfold starts in H2. cbn in H2. destruct (Z.ltb_spec first (off + Extent.length e)); [left|lia].
  - apply elem_of_app. right. change (starts (x :: es) (S i)) with (Extent.length x + starts es i)%Z in H1, H2. apply (IH _ i); try done; lia.
Qed.

Section get.
Context {M : Type} {hooks : FsHooks M} {ims : IMetaStore M} (opt : FsDataOptions) (sys : nat -> option nat) (hash : bytes -> nat) (wall : nat -> time_point).
Abbreviation D := (ST (Srv M) DuoErr).
(** No other request meanwhile: what is counted is this one's. *)
Definition alone (n : nat) (d : Duo M) : Duo M := d.
Abbreviation pins s := (fs_pins (du_fs (sv s))).
Abbreviation reads s := (active (read_clock (sv s))).

(** Calls that take no pin and begin no read. *)
Definition still {A} (m : D A) : Prop := forall s, pins (m s).2 = pins s /\ read_clock (sv (m s).2) = read_clock (sv s).
Lemma still_bind {A B} (m : D A) (f : A -> D B) : still m -> (forall a, still (f a)) -> still (m ≫= f).
Proof.
  intros Hm Hf s. rewrite ST_bind_eq. specialize (Hm s). destruct (m s) as [[a|e] s1]; [|done]. cbn in Hm. destruct Hm as [<- <-]. apply Hf.
Qed.
Lemma still_ret {A} (a : A) : still (mret a).
Proof. done. Qed.
Lemma still_throw {A} e : still (throw e : D A).
Proof. done. Qed.
Lemma still_now : still (now wall).
Proof. done. Qed.
Lemma still_meta {A} (g : M -> res MetaErr A * M) : still (meta alone g).
Proof. intros s. unfold meta, shared, on_meta, alone. by destruct (g _). Qed.
Lemma still_require b : still (require_bucket alone b).
Proof. apply still_bind; [apply still_meta|]. by intros []. Qed.
Lemma still_cache {A} (f : Duo M -> A) (g : Duo M -> Cache CachedObject) : still (shared alone (λ d, (Ok (f d), set_cache (g d) d))).
Proof. done. Qed.
Lemma still_load b k : still (load_record hash wall alone b k).
Proof.
  assert (still (cache_lookup hash wall alone b k)) as H1 by (apply still_bind; [apply still_now|intros t; apply (still_cache (λ d, _))]).
  assert (forall tok v, still (cache_insert hash wall alone tok b k v)) as H2 by (intros tok v; apply still_bind; [apply still_now|done]).
  assert (still (require_object alone b k)) as H3 by (apply still_bind; [apply still_meta|intros []; [done|apply still_bind; [apply still_require|done]]]).
  apply still_bind; [exact H1|]. intros [[[rec []]|] tk]; cbn [fst snd]; [apply still_ret| |]; (apply still_bind; [done|intros tok]; apply still_bind; [exact H3|intros rec']; apply still_bind; [|done]; destruct (_ <=? _); [apply H2|done]).
Qed.

Lemma unpin_pin es t : pins_ok t -> forall q i, pin_count q i (unpin (pin es t).1 (pin es t).2) = pin_count q i t.
Proof.
  intros Hok q i. destruct (pin_all q i es t Hok) as [Hok' Hc]. destruct (unpin_all q i (pin es t).1 (pin es t).2 Hok') as [_ ->]; [|lia].
  intros p j. destruct (pin_all p j es t Hok) as [_ ->]. assert (0 <= pin_count p j t)%Z; [|lia]. unfold pin_count. destruct (pin_refs p t !! j) eqn:E; cbn; [specialize (Hok p j _ E)|]; lia.
Qed.
Lemma open_stream_run view ticket b k range s r s' :
  pins_ok (pins s) -> open_stream opt sys hash wall alone view ticket b k range s = (r, s') -> read_clock (sv s') = read_clock (sv s) /\
  match r with
  | Ok (mkDuoStream _ _ (Some p)) => pr_ticket p = ticket /\ exists rec first last, open_reader opt sys view (or_data rec) first last = Ok (pr_inner p) /\
      (pr_ids p, pins s') = pin (hit_extents (or_data rec) 0 first last) (pins s)
  | _ => forall q i, pin_count q i (pins s') = pin_count q i (pins s)
  end.
Proof.
  intros Hok H. unfold open_stream in H. rewrite ST_bind_eq in H. pose proof (still_load b k s) as [L1 L2]. destruct (load_record hash wall alone b k s) as [[rec|e] s1]; cbn in L1, L2; [|injection H as <- <-; by rewrite L1].
  rewrite <- L1, <- L2. rewrite <- L1 in Hok. clear L1 L2 s. destruct (tier (or_tier rec) =? kRemote)%Z; [by injection H as <- <-|]. rewrite ST_bind_eq in H. cbn [check] in H.
  destruct (wanted range (osize (or_meta rec))) as [[[first last] n]|c]; [|by injection H as <- <-]. cbn [fst snd] in H. destruct (n =? 0)%Z; [by injection H as <- <-|].
  rewrite ST_bind_eq in H. unfold take_pins, shared, alone in H. destruct (pin (hit_extents (or_data rec) 0 first last) (pins s1)) as [hs t] eqn:Ep. cbn in H.
  destruct (open_reader opt sys view (or_data rec) first last) as [inner|c] eqn:Eo; injection H as <- <-; cbn; (split; [done|]).
  - split; [done|]. exists rec, first, last. by rewrite Eo.
  - pose proof (unpin_pin (hit_extents (or_data rec) 0 first last) (pins s1) Hok) as Hu. by rewrite Ep in Hu.
Qed.

(** C7: While the stream of a GET is open, every file with a byte of the range is pinned; and
    once it is closed, or when the GET failed, on whatever path, or had nothing to stream,
    every file has as many pins and the reads in flight are the same as before. *)
Theorem get_object_pins view b k range s r s' (Hok : pins_ok (pins s)) (Hnext : forall t, is_Some (reads s !! t) -> (t < next_ticket (read_clock (sv s)))%Z)
    (Hrun : get_object opt sys hash wall alone view b k range s = (r, s')) :
  match r with
  | Ok (mkDuoStream m _ (Some p)) =>
      (exists rec first last, open_reader opt sys view (or_data rec) first last = Ok (pr_inner p) /\
         (Forall (λ e, 0 <= Extent.length e)%Z (or_data rec) -> (starts (or_data rec) (length (or_data rec)) < 2 ^ 64)%Z ->
          forall i e, or_data rec !! i = Some e -> (starts (or_data rec) i <= last)%Z -> (first < starts (or_data rec) i + Extent.length e)%Z ->
            pinned_key (is_pack e) (Extent.file_id e) (pins s') = true)) /\
      is_Some (reads s' !! pr_ticket p) /\
      let s'' := (drop_reader alone p s').2 in (forall q i, pin_count q i (pins s'') = pin_count q i (pins s)) /\ reads s'' = reads s
  | _ => (forall q i, pin_count q i (pins s') = pin_count q i (pins s)) /\ reads s' = reads s
  end.
Proof.
  unfold get_object in Hrun. rewrite ST_bind_eq in Hrun. cbn [check] in Hrun. destruct (validate_object_key k) as [u|c]; [|injection Hrun as <- <-; done].
  set (c := read_clock (sv s)) in *. set (s1 := mkSrv (set_reads (mkInFlight (next_ticket c + 1) (<[next_ticket c := to_unix_ms (wall (tk s))]> (active c))) (sv s)) (S (S (tk s)))).
  assert (begin_read wall alone s = (Ok (next_ticket c), s1)) as Eb by done. rewrite ST_bind_eq, Eb in Hrun. unfold guard_ticket in Hrun. destruct (open_stream opt sys hash wall alone view (next_ticket c) b k range s1) as [r1 s2] eqn:Eo.
  assert (delete (next_ticket c) (<[next_ticket c := to_unix_ms (wall (tk s))]> (active c)) = active c) as Hback.
  { apply delete_insert_id. destruct (active c !! next_ticket c) eqn:E; [|done]. specialize (Hnext (next_ticket c) ltac:(by eexists)). lia. }
  destruct (open_stream_run view _ b k range s1 r1 s2 Hok Eo) as [Hc Hr]. destruct r1 as [[m rg [p|]]|e]; injection Hrun as <- <-.
  - destruct Hr as (Ht & rec & first & last & Hop & Hp). change (pins s1) with (pins s) in Hp. injection Hp as Hids Hpins. split; [|split].
    + exists rec, first, last. split; [done|]. intros Hl Hb i e Hi H1 H2. rewrite Hpins. change (fold_left _ _ (pins s)) with (pin (hit_extents (or_data rec) 0 first last) (pins s)).2. destruct (pin_all (is_pack e) (Extent.file_id e) (hit_extents (or_data rec) 0 first last) (pins s) Hok) as [Hok' Hcnt].
      apply pinned_count; [exact Hok'|]. rewrite Hcnt. enough (0 < holds (is_pack e) (Extent.file_id e) (pin (hit_extents (or_data rec) 0 first last) (pins s)).1)%Z as Hh.
      { assert (0 <= pin_count (is_pack e) (Extent.file_id e) (pins s))%Z; [|lia]. unfold pin_count. destruct (pin_refs (is_pack e) (pins s) !! Extent.file_id e) eqn:E; cbn; [specialize (Hok _ _ _ E)|]; lia. }
      unfold holds. cbn. assert (handle_of e ∈ base.filter (λ h, h_is_pack h = is_pack e /\ h_file_id h = Extent.file_id e) (handle_of <$> hit_extents (or_data rec) 0 first last)) as Hin.
      { apply list_elem_of_filter. split; [done|]. apply list_elem_of_fmap. exists e. split; [done|]. by apply (hit_extents_all _ 0 first last i). }
      destruct (base.filter _ _); [by apply not_elem_of_nil in Hin|cbn; lia].
    + rewrite Hc, Ht. cbn. rewrite lookup_insert_eq. by eexists.
    + cbv zeta. change (pins (drop_reader alone p s2).2) with (unpin (pr_ids p) (pins s2)). change (reads (drop_reader alone p s2).2) with (delete (pr_ticket p) (reads s2)).
      rewrite Hc, Ht, Hids, Hpins. split; [|exact Hback]. exact (unpin_pin (hit_extents (or_data rec) 0 first last) (pins s) Hok).
  - split; [exact Hr|]. transitivity (delete (next_ticket c) (reads s2)); [reflexivity|]. rewrite Hc. exact Hback.
  - split; [exact Hr|]. transitivity (delete (next_ticket c) (reads s2)); [reflexivity|]. rewrite Hc. exact Hback.
Qed.
End get.
