(* ===== verification/DuoRequest.v ===== *)
(** DuoStore's requests as a system: what writers, commits, discards and the collector do
    to the records, the disk and the references in transit, as a transition relation over
    views of the metadata store; and its invariant: every record stands for bytes that are
    on the disk and that its ETag is the digest of. *)

From S2P Require Import Prelude Bytes Checksum Backend Validate Listing Multipart MemoryBackend Codec MetaUtil RocksMeta DuoWorld FsData MetaCache BodyReader FsRead FsProofs FsSystem FsHooked DuoBackend.
From Stdlib Require Import ZArith Lia.
From stdpp Require Import base list gmap sets strings relations.
Open Scope lights3_scope.

(** * What the metadata store shows *)
Class MetaView (M : Type) := {
  objv : M -> bytes -> bytes -> option ObjectRec;
  partv : M -> bytes -> bytes -> bytes -> Z -> option PartRec }.

Section views.
Context {M : Type} {mv : MetaView M} (md5_hex : bytes -> bytes).

Definition same_parts (m m' : M) : Prop := forall b k id n, partv m' b k id n = partv m b k id n.
Definition same_view (m m' : M) : Prop := (forall b k, objv m' b k = objv m b k) /\ same_parts m m'.
(** All objects but that of [b] and [k]. *)
Definition same_others (m m' : M) (b k : bytes) : Prop := forall b' k', (b', k') <> (b, k) -> objv m' b' k' = objv m b' k'.
(** The object is the record as the store keeps it: the version is the store's, and so is
    the precision of times. *)
Definition kept_as (rec rec' : ObjectRec) : Prop :=
  or_data rec' = or_data rec /\ or_tier rec' = or_tier rec /\ osize (or_meta rec') = osize (or_meta rec) /\ etag (or_meta rec') = etag (or_meta rec).
Definition put_view (m m' : M) (b k : bytes) (rec : ObjectRec) : Prop :=
  (exists rec', objv m' b k = Some rec' /\ kept_as rec rec') /\ same_others m m' b k /\ same_parts m m'.
Definition part_view (m m' : M) (b k id : bytes) (p : PartRec) : Prop :=
  (forall b k, objv m' b k = objv m b k) /\ partv m' b k id (pr_part_no p) = Some p /\
  forall b' k' id' n, (b', k', id', n) <> (b, k, id, pr_part_no p) -> partv m' b' k' id' n = partv m b' k' id' n.
(** Records only vanish. *)
Definition fewer_parts (m m' : M) : Prop := forall b k id n p, partv m' b k id n = Some p -> partv m b k id n = Some p.
Definition fewer (m m' : M) : Prop := (forall b k rec, objv m' b k = Some rec -> objv m b k = Some rec) /\ fewer_parts m m'.
(** The sizes of parts, added up in 64 bits. *)
Definition sizes_total (ps : list PartRec) : Z := fold_left (λ sum p, (sum +₆₄ pr_size p)%L3) ps 0%Z.
(** The object is assembled from parts of the upload. *)
Definition complete_view (m m' : M) (b k id : bytes) : Prop :=
  (exists ps rec, Forall (λ p, exists n, partv m b k id n = Some p) ps /\ objv m' b k = Some rec /\
     or_data rec = concat (pr_data <$> ps) /\ osize (or_meta rec) = sizes_total ps /\
     etag (or_meta rec) = combined_etag md5_hex (pr_etag <$> ps) /\ tier (or_tier rec) = kLocal) /\
  same_others m m' b k /\ fewer_parts m m'.

#[export] Instance same_view_preorder : PreOrder same_view.
Proof. split; [done|]. intros a b c [H1 H2] [H3 H4]. unfold same_view, same_parts in *. split; intros; [by rewrite H3|by rewrite H4]. Qed.
End views.

(** What the operations do to the view. After an exception nothing has changed, unless the
    commit is undetermined. *)
Definition outcome {A} (r : res MetaErr A) (done same : Prop) : Prop :=
  match r with Ok _ => done | Throw (MErr _) => same | Throw Undetermined => done \/ same end.
Class MetaLaw (M : Type) {hooks : FsHooks M} {ims : IMetaStore M} {mv : MetaView M} (md5_hex : bytes -> bytes) : Prop := {
  law_alloc k n m : same_view m (alloc_ k n m).2;
  law_seal p n m : same_view m (seal_ p n m).2;
  law_bucket_exists b m : same_view m (im_bucket_exists b m).2;
  law_list_buckets m : same_view m (im_list_buckets m).2;
  law_get b k m : same_view m (im_get_object b k m).2 /\ forall o, (im_get_object b k m).1 = Ok o -> o = objv m b k;
  law_head b k m : same_view m (im_head_object b k m).2;
  law_list_objects b o m : same_view m (im_list_objects b o m).2;
  law_require_upload b k id m : same_view m (im_require_upload b k id m).2;
  law_list_parts b k id m : same_view m (im_list_parts b k id m).2;
  law_list_uploads b x y n z m : same_view m (im_list_uploads b x y n z m).2;
  law_create_bucket b t m : same_view m (im_create_bucket b t m).2;
  law_delete_bucket b m : same_view m (im_delete_bucket b m).2;
  law_create_upload b k o i t m : same_view m (im_create_upload b k o i t m).2;
  law_put b k rec c t m : let x := im_put_object b k rec c t m in outcome x.1 (put_view m x.2 b k rec) (same_view m x.2);
  law_delete b k t m : fewer m (im_delete_object b k t m).2;
  law_put_part b k id p t m : let x := im_put_part b k id p t m in outcome x.1 (part_view m x.2 b k id p) (same_view m x.2);
  law_complete b k id ps t tp m : let x := im_complete_upload b k id ps t tp m in outcome x.1 (complete_view md5_hex m x.2 b k id) (same_view m x.2);
  law_abort b k id t m : fewer m (im_abort_upload b k id t m).2 }.

Section system.
Context {M : Type} {hooks : FsHooks M} {ims : IMetaStore M} {mv : MetaView M}.
Context (opt : FsDataOptions) (sys : nat -> option nat) (clock : nat -> Z) (busy : nat -> nat -> bool) {Hcs : FsOptionsOk opt}.
Context (md5_hex : bytes -> bytes) {law : MetaLaw M md5_hex}.

(** The backend, the writers of the requests with the bytes each was given, the references
    finished and not yet committed, with the bytes they stand for, and the requests whose
    commit the store reported as undetermined: their references are left as they are. *)
Record DuoSys := mkDuoSys { y_duo : Duo M; y_writers : gmap nat (DataWriter * bytes); y_pend : gmap nat (DataRef * bytes); y_doubt : gset nat }.
Abbreviation metaof d := (hooked (du_fs d)).
Definition set_meta (m : M) (d : Duo M) : Duo M := set_fs (set_hooked m (du_fs d)) d.

(** A reference that a record holds. *)
Definition refd (m : M) (ref : DataRef) : Prop :=
  (exists b k rec, objv m b k = Some rec /\ or_data rec = ref) \/ (exists b k id n p, partv m b k id n = Some p /\ pr_data p = ref).

(** What a commit says of the bytes [d] in [ref]. *)
Definition put_claim (ref : DataRef) (d : bytes) (rec : ObjectRec) : Prop :=
  or_data rec = ref /\ tier (or_tier rec) <> kRemote /\ osize (or_meta rec) = data_total ref /\ (tier (or_tier rec) = kLocal -> etag (or_meta rec) = md5_hex d).
Definition part_claim (ref : DataRef) (d : bytes) (p : PartRec) : Prop := pr_data p = ref /\ pr_size p = data_total ref /\ pr_etag p = md5_hex d.

Inductive duo_step : DuoSys -> DuoSys -> Prop :=
| YOpen n len owner d ws ps dt : ws !! n = None -> duo_step (mkDuoSys d ws ps dt) (mkDuoSys d (<[n := (open_writer opt len owner, [])]> ws) ps dt)
| YWrite n w b buf r f w' d ws ps dt :
    ws !! n = Some (w, b) -> writer_write opt sys buf (du_fs d, w) = (r, (f, w')) ->
    duo_step (mkDuoSys d ws ps dt)
      (match r with Ok _ => mkDuoSys (set_fs f d) (<[n := (w', b ++ buf)]> ws) ps dt | Throw _ => mkDuoSys (set_fs (writer_discard sys w' f).2 d) (delete n ws) ps dt end)
| YFinish n w b r f w' d ws ps dt :
    ws !! n = Some (w, b) -> ps !! n = None -> writer_finish opt sys clock busy (du_fs d, w) = (r, (f, w')) ->
    duo_step (mkDuoSys d ws ps dt)
      (mkDuoSys (set_fs (writer_discard sys w' f).2 d) (delete n ws) (match r with Ok ref => <[n := (ref, b)]> ps | Throw _ => ps end) dt)
| YDrop n w b d ws ps dt : ws !! n = Some (w, b) -> duo_step (mkDuoSys d ws ps dt) (mkDuoSys (set_fs (writer_discard sys w (du_fs d)).2 d) (delete n ws) ps dt)
| YQuiet d d' m t ws ps dt :
    du_fs d' = set_hooked m (set_pins t (du_fs d)) -> same_view (metaof d) m -> duo_step (mkDuoSys d ws ps dt) (mkDuoSys d' ws ps dt)
| YCommit n ref b bk k rec m d ws ps dt :
    ps !! n = Some (ref, b) -> put_claim ref b rec -> put_view (metaof d) m bk k rec ->
    duo_step (mkDuoSys d ws ps dt) (mkDuoSys (set_meta m d) ws (delete n ps) dt)
| YPart n ref b bk k id p m d ws ps dt :
    ps !! n = Some (ref, b) -> part_claim ref b p -> part_view (metaof d) m bk k id p ->
    duo_step (mkDuoSys d ws ps dt) (mkDuoSys (set_meta m d) ws (delete n ps) dt)
| YStub b k rec m d ws ps dt :
    or_data rec = [] -> tier (or_tier rec) = kRemote -> put_view (metaof d) m b k rec -> duo_step (mkDuoSys d ws ps dt) (mkDuoSys (set_meta m d) ws ps dt)
| YComplete b k id m d ws ps dt : complete_view md5_hex (metaof d) m b k id -> duo_step (mkDuoSys d ws ps dt) (mkDuoSys (set_meta m d) ws ps dt)
| YFewer m d ws ps dt : fewer (metaof d) m -> duo_step (mkDuoSys d ws ps dt) (mkDuoSys (set_meta m d) ws ps dt)
| YDiscard n ref b r f d ws ps dt :
    ps !! n = Some (ref, b) -> FsData.remove sys ref (du_fs d) = (r, f) -> duo_step (mkDuoSys d ws ps dt) (mkDuoSys (set_fs f d) ws (delete n ps) dt)
| YDoubt n d ws ps dt : duo_step (mkDuoSys d ws ps dt) (mkDuoSys d ws (delete n ps) ({[n]} ∪ dt))
| YSeal ms r f d ws ps dt : seal_aged_packs clock busy ms (du_fs d) = (r, f) -> duo_step (mkDuoSys d ws ps dt) (mkDuoSys (set_fs f d) ws ps dt)
| YCollect es r f d ws ps dt :
    FsData.remove sys es (du_fs d) = (r, f) ->
    (forall i, i ∈ ref_chunks es -> (forall n w, ws !! n = Some w -> i ∉ wown w.1) /\ (forall n rd, ps !! n = Some rd -> i ∉ ref_chunks rd.1) /\ (forall ref, refd (metaof d) ref -> i ∉ ref_chunks ref)) ->
    duo_step (mkDuoSys d ws ps dt) (mkDuoSys (set_fs f d) ws ps dt)
| YCollectPack p r f d ws ps dt :
    remove_pack sys p (du_fs d) = (r, f) -> (forall k sl, slots (du_fs d) !! k = Some sl -> sl_fd sl = true -> sl_id sl <> p) ->
    (forall n rd, ps !! n = Some rd -> in_pack p rd = false) -> (forall ref, refd (metaof d) ref -> in_pack p (ref, []) = false) ->
    duo_step (mkDuoSys d ws ps dt) (mkDuoSys (set_fs f d) ws ps dt).

(** * The invariant *)

(** The ETag is the digest of the bytes, or of the digests of its parts. *)
Definition genuine (m : ObjectMeta) (d : bytes) : Prop :=
  etag m = md5_hex d \/ exists ds, d = concat ds /\ etag m = combined_etag md5_hex (md5_hex <$> ds).
Definition object_kept (rs : list (DataRef * bytes)) (rec : ObjectRec) : Prop :=
  (tier (or_tier rec) = kRemote /\ or_data rec = []) \/
  exists d, (or_data rec, d) ∈ rs /\ osize (or_meta rec) = u64 (blen d) /\ (tier (or_tier rec) = kLocal -> genuine (or_meta rec) d).
Definition part_kept (rs : list (DataRef * bytes)) (p : PartRec) : Prop := exists d, (pr_data p, d) ∈ rs /\ pr_size p = u64 (blen d) /\ pr_etag p = md5_hex d.

(** Chunks of a reference in transit belong to nothing else. *)
Definition apart_pend (m : M) (ps : gmap nat (DataRef * bytes)) : Prop :=
  forall n rd i, ps !! n = Some rd -> i ∈ ref_chunks rd.1 ->
    (forall ref, refd m ref -> i ∉ ref_chunks ref) /\ (forall n' rd', n' <> n -> ps !! n' = Some rd' -> i ∉ ref_chunks rd'.1).

Record duo_at (rs : list (DataRef * bytes)) (y : DuoSys) : Prop := mkDuoAt {
  da_fs : fs_inv opt (mkFsSys (du_fs (y_duo y)) (y_writers y) rs);
  da_pend n rd : y_pend y !! n = Some rd -> rd ∈ rs;
  da_objects b k rec : objv (metaof (y_duo y)) b k = Some rec -> object_kept rs rec;
  da_parts b k id n p : partv (metaof (y_duo y)) b k id n = Some p -> part_kept rs p;
  da_apart : apart_pend (metaof (y_duo y)) (y_pend y) }.
Definition duo_inv (y : DuoSys) : Prop := exists rs, duo_at rs y.

(** ** References of records *)
Lemma refd_object m b k rec : objv m b k = Some rec -> refd m (or_data rec).
Proof. left. by exists b, k, rec. Qed.
Lemma refd_part m b k id n p : partv m b k id n = Some p -> refd m (pr_data p).
Proof. right. by exists b, k, id, n, p. Qed.
Lemma refd_fewer m m' ref : fewer m m' -> refd m' ref -> refd m ref.
Proof. intros [H1 H2] [(b & k & rec & H & <-)|(b & k & id & n & p & H & <-)]; [by eapply refd_object, H1|by eapply refd_part, H2]. Qed.
Lemma same_fewer m m' : same_view m m' -> fewer m m'.
Proof. intros [H1 H2]. split; [intros b k rec; by rewrite H1|intros b k id n p; by rewrite H2]. Qed.
Lemma refd_put m m' b k rec ref : put_view m m' b k rec -> refd m' ref -> refd m ref \/ ref = or_data rec.
Proof.
  intros ((r' & Hv & Hd & _) & Ho & Hp) [(b' & k' & r & H & <-)|(b' & k' & id & n & p & H & <-)].
  - destruct (decide ((b', k') = (b, k))) as [[= -> ->]|Hn]; [rewrite Hv in H; injection H as <-; by right|]. rewrite Ho in H by done. left. by eapply refd_object.
  - rewrite Hp in H. left. by eapply refd_part.
Qed.
Lemma refd_put_part m m' b k id p ref : part_view m m' b k id p -> refd m' ref -> refd m ref \/ ref = pr_data p.
Proof.
  intros (Ho & Hv & Hp) [(b' & k' & r & H & <-)|(b' & k' & id' & n & q & H & <-)].
  - rewrite Ho in H. left. by eapply refd_object.
  - destruct (decide ((b', k', id', n) = (b, k, id, pr_part_no p))) as [[= -> -> -> ->]|Hn]; [rewrite Hv in H; injection H as <-; by right|]. rewrite Hp in H by done. left. by eapply refd_part.
Qed.
Lemma refd_complete m m' b k id ref :
  complete_view md5_hex m m' b k id -> refd m' ref -> refd m ref \/ exists ps, Forall (λ p, exists n, partv m b k id n = Some p) ps /\ ref = concat (pr_data <$> ps).
Proof.
  intros ((ps & rec & Hps & Hv & Hd & _) & Ho & Hp) [(b' & k' & r & H & <-)|(b' & k' & id' & n & q & H & <-)].
  - destruct (decide ((b', k') = (b, k))) as [[= -> ->]|Hn]; [rewrite Hv in H; injection H as <-; right; by exists ps|]. rewrite Ho in H by done. left. by eapply refd_object.
  - left. by eapply refd_part, Hp.
Qed.
Lemma secure_ref_concat (s : Fs M) refs ds : Forall2 (secure_ref s) refs ds -> secure_ref s (concat refs) (concat ds).
Proof.
  induction 1 as [|ref d refs ds (bs & Hb & ->) _ (bs' & Hb' & E)]; [by exists []|]. exists (bs ++ bs'). cbn. split; [by apply Forall2_app|]. by rewrite concat_app, E.
Qed.

(** ** Sizes *)
Lemma u64_add a b : u64 (u64 a + b) = u64 (a + b).
Proof. unfold u64. by rewrite Zplus_mod_idemp_l. Qed.
Lemma secure_total_from (s : Fs M) ref d acc : secure_ref s ref d -> fold_left (λ sum e, (sum +₆₄ Extent.length e)%L3) ref (u64 acc) = u64 (acc + blen d).
Proof.
  intros (l & Hl & ->). revert acc. induction Hl as [|e b ref l [(f & _ & (_ & _ & Hb & _)) _] _ IH]; intros acc; cbn [fold_left concat]; [by rewrite Z.add_0_r|].
  rewrite u64_add, IH. f_equal. unfold blen in *. rewrite length_app. lia.
Qed.
(** The total of a reference is the length of the bytes it stands for. *)
Lemma secure_total (s : Fs M) ref d : secure_ref s ref d -> data_total ref = u64 (blen d).
Proof. intros H. exact (secure_total_from s ref d 0 H). Qed.
Lemma kept_total rs y ref d : duo_at rs y -> (ref, d) ∈ rs -> data_total ref = u64 (blen d).
Proof. intros Hy Hin. exact (secure_total _ _ _ (fi_refs _ _ (da_fs _ _ Hy) _ _ Hin)). Qed.
Lemma sizes_from ps ds acc : pr_size <$> ps = (λ d, u64 (blen d)) <$> ds -> fold_left (λ sum p, (sum +₆₄ pr_size p)%L3) ps (u64 acc) = u64 (acc + blen (concat ds)).
Proof.
  revert ds acc. induction ps as [|p ps IH]; intros [|d ds] acc [=]; cbn [fold_left concat]; [by rewrite Z.add_0_r|]. rewrite u64_add.
  assert (u64 (acc + pr_size p) = u64 (acc + blen d)) as -> by (rewrite H0; unfold u64; by rewrite Zplus_mod_idemp_r). rewrite (IH ds) by done. f_equal. unfold blen. rewrite length_app. lia.
Qed.

(** ** Steps of the data plane *)
Definition carries (m : M) (rs rs' : list (DataRef * bytes)) : Prop := forall ref b, refd m ref -> (ref, b) ∈ rs -> (ref, b) ∈ rs'.
Lemma carries_object m rs rs' b k rec : carries m rs rs' -> objv m b k = Some rec -> object_kept rs rec -> object_kept rs' rec.
Proof. intros Hc Ho [H|(d & H1 & H2)]; [by left|]. right. exists d. split; [|done]. apply Hc; [by eapply refd_object|done]. Qed.
Lemma carries_part m rs rs' b k id n p : carries m rs rs' -> partv m b k id n = Some p -> part_kept rs p -> part_kept rs' p.
Proof. intros Hc Hp (d & H1 & H2). exists d. split; [|done]. apply Hc; [by eapply refd_part|done]. Qed.
Lemma carries_sub m rs rs' : (forall rd, rd ∈ rs -> rd ∈ rs') -> carries m rs rs'.
Proof. intros H ref b _. apply H. Qed.

(** The invariant after a step, and what records kept of their bytes. *)
Definition duo_next (rs : list (DataRef * bytes)) (y : DuoSys) : Prop := exists rs', duo_at rs' y /\ carries (metaof (y_duo y)) rs rs'.
Lemma next_same rs y : duo_at rs y -> duo_next rs y.
Proof. intros H. exists rs. split; [done|by apply carries_sub]. Qed.
Lemma carries_fewer m m' rs rs' : fewer m m' -> carries m rs rs' -> carries m' rs rs'.
Proof. intros Hf Hc ref b Hr. apply Hc. by eapply refd_fewer. Qed.

Lemma apart_same m m' ps : fewer m m' -> apart_pend m ps -> apart_pend m' ps.
Proof. intros Hf Ha n rd i Hn Hi. destruct (Ha n rd i Hn Hi) as [H1 H2]. split; [|done]. intros ref Hr. by eapply H1, refd_fewer. Qed.
Lemma apart_delete m n ps : apart_pend m ps -> apart_pend m (delete n ps).
Proof. intros Ha j rd i [Hj Hd]%lookup_delete_Some Hi. destruct (Ha j rd i Hd Hi) as [H1 H2]. split; [done|]. intros j' rd' Hne [_ Hd']%lookup_delete_Some. by eapply H2. Qed.

Lemma at_data rs rs' d f ws ws' ps ps' dt :
  duo_at rs (mkDuoSys d ws ps dt) -> same_view (metaof d) (hooked f) -> fs_inv opt (mkFsSys f ws' rs') -> (forall n rd, ps' !! n = Some rd -> rd ∈ rs') ->
  carries (metaof d) rs rs' -> apart_pend (metaof d) ps' -> duo_at rs' (mkDuoSys (set_fs f d) ws' ps' dt).
Proof.
  intros [H1 H2 H3 H4 H5] Hv Hf Hp Hc Ha. cbn in *. split; cbn; [done|done| | |].
  - intros b k rec. rewrite (proj1 Hv). intros Ho. eapply carries_object; eauto.
  - intros b k id n p. rewrite (proj2 Hv). intros Ho. eapply carries_part; eauto.
  - by eapply apart_same; [apply same_fewer|].
Qed.

(** ** Steps of the metadata store *)
Lemma at_meta rs' d m ws ps' dt :
  fs_inv opt (mkFsSys (du_fs d) ws rs') -> (forall n rd, ps' !! n = Some rd -> rd ∈ rs') ->
  (forall b k rec, objv m b k = Some rec -> object_kept rs' rec) -> (forall b k id n p, partv m b k id n = Some p -> part_kept rs' p) -> apart_pend m ps' ->
  duo_at rs' (mkDuoSys (set_meta m d) ws ps' dt).
Proof. intros Hf Hp Ho Hpt Ha. split; cbn; [|done..]. by apply (adds_inv _ (mkFsSys (du_fs d) ws rs') (set_hooked m (du_fs d))). Qed.

(** What the data plane does to the view. *)
Lemma view_write buf f w r f' w' : writer_write opt sys buf (f, w) = (r, (f', w')) -> same_view (hooked f) (hooked f').
Proof. intros E. pose proof (hooked_write same_view law_alloc opt sys buf (f, w)) as H. by rewrite E in H. Qed.
Lemma view_finish f w r f' w' : writer_finish opt sys clock busy (f, w) = (r, (f', w')) -> same_view (hooked f) (hooked f').
Proof. intros E. pose proof (hooked_finish same_view law_alloc law_seal opt sys clock busy (f, w)) as H. by rewrite E in H. Qed.
Lemma view_discard w (f : Fs M) : same_view (hooked f) (hooked (writer_discard sys w f).2).
Proof. apply (hooked_discard same_view). Qed.
Lemma view_remove es (f : Fs M) r f' : FsData.remove sys es f = (r, f') -> same_view (hooked f) (hooked f').
Proof. intros E. pose proof (hooked_remove same_view sys es f) as H. by rewrite E in H. Qed.
Lemma view_remove_pack p (f : Fs M) r f' : remove_pack sys p f = (r, f') -> hooked f' = hooked f.
Proof. unfold remove_pack. intros H. runs H s1 E; apply must_run in E as [-> _]; [|done]. by injection H as _ <-. Qed.
Lemma view_seal ms (f : Fs M) r f' : seal_aged_packs clock busy ms f = (r, f') -> same_view (hooked f) (hooked f').
Proof. intros E. pose proof (hooked_seal_aged same_view law_seal clock busy ms f) as H. by rewrite E in H. Qed.

(** The files of a finished reference are in no other. *)
Lemma finish_fresh n w b ref f f' w' ws rs :
  fs_inv opt (mkFsSys f ws rs) -> ws !! n = Some (w, b) -> writer_finish opt sys clock busy (f, w) = (Ok ref, (f', w')) ->
  forall ref' b' i, (ref', b') ∈ rs -> i ∈ ref_chunks ref' -> i ∉ ref_chunks ref.
Proof.
  intros Hx Hn E ref' b' i Hr Hi. destruct (fi_writers _ _ Hx n w b Hn) as [Hok Hop]. apply (writer_finish_run opt sys clock busy _ _ _ _ _ b) in E; [|apply (fi_ok _ _ Hx)].
  destruct E as (wf & Hw & _ & Hs). destruct (Hs (fi_ok _ _ Hx) Hok) as (_ & <- & _).
  apply (others_free opt _ Hx n w b Hn f' wf Hw i). right. by exists ref', b'.
Qed.

Lemma kept_cons rs x rec : object_kept rs rec -> object_kept (x :: rs) rec.
Proof. intros [H|(d & H1 & H2)]; [by left|]. right. exists d. split; [by right|done]. Qed.
Lemma part_kept_cons rs x p : part_kept rs p -> part_kept (x :: rs) p.
Proof. intros (d & H1 & H2). exists d. split; [by right|done]. Qed.

Lemma finish_at rs n w b r f w' d ws ps dt :
  duo_at rs (mkDuoSys d ws ps dt) -> ws !! n = Some (w, b) -> ps !! n = None -> writer_finish opt sys clock busy (du_fs d, w) = (r, (f, w')) ->
  duo_next rs (mkDuoSys (set_fs (writer_discard sys w' f).2 d) (delete n ws) (match r with Ok ref => <[n := (ref, b)]> ps | Throw _ => ps end) dt).
Proof.
  intros Hy Hn Hp E. pose proof Hy as [H1 H2 H3 H4 H5]. cbn in *. assert (same_view (metaof d) (hooked (writer_discard sys w' f).2)) as Hv by (etransitivity; [by eapply view_finish|apply view_discard]).
  pose proof (finish_inv opt sys clock busy n w b r _ _ _ _ _ H1 Hn E) as Hi. destruct r as [ref|].
  - exists ((ref, b) :: rs). split; [|apply carries_sub; by right]. eapply at_data; [exact Hy|done|done| |apply carries_sub; by right|].
    + intros m rd [[<- <-]|[_ Hm]]%lookup_insert_Some; [left|right; by apply (H2 m)].
    + pose proof (finish_fresh n w b ref _ _ _ _ _ H1 Hn E) as Hf. intros m rd i [[<- <-]|[Hm Hrd]]%lookup_insert_Some Hin; cbn in *.
      * split.
        -- intros ref' Hr Hc. destruct Hr as [(bk & k & rec & Ho & <-)|(bk & k & id & no & p & Ho & <-)].
           ++ destruct (H3 _ _ _ Ho) as [[_ E0]|(c & Hc' & _)]; [rewrite E0 in Hc; by apply not_elem_of_nil in Hc|by apply (Hf _ _ i Hc' Hc)].
           ++ destruct (H4 _ _ _ _ _ Ho) as (c & Hc' & _). by apply (Hf _ _ i Hc' Hc).
        -- intros m rd Hne [[? _]|[_ Hrd]]%lookup_insert_Some Hc; [done|]. destruct rd as [ref' c]. by apply (Hf ref' c i (H2 _ _ Hrd) Hc).
      * destruct (H5 m rd i Hrd Hin) as [A1 A2]. split; [done|]. intros m' rd' Hne [[<- <-]|[_ Hrd']]%lookup_insert_Some; cbn; [|by eapply A2].
        destruct rd as [ref' c]. by apply (Hf ref' c i (H2 _ _ Hrd) Hin).
  - apply next_same. eapply at_data; [exact Hy|done|done|done|by apply carries_sub|done].
Qed.

(** Removing what no record and no reference in transit uses. *)
Lemma remove_at rs es r f d ws ps ps' dt :
  duo_at rs (mkDuoSys d ws ps dt) -> FsData.remove sys es (du_fs d) = (r, f) -> (forall n rd, ps' !! n = Some rd -> ps !! n = Some rd) ->
  (forall i, i ∈ ref_chunks es -> (forall n w, ws !! n = Some w -> i ∉ wown w.1) /\ (forall n rd, ps' !! n = Some rd -> i ∉ ref_chunks rd.1) /\ (forall ref, refd (metaof d) ref -> i ∉ ref_chunks ref)) ->
  duo_next rs (mkDuoSys (set_fs f d) ws ps' dt).
Proof.
  intros Hy E Hsub Hg. pose proof Hy as [H1 H2 H3 H4 H5]. cbn in *. set (rs' := base.filter (λ rd, Forall (λ i, i ∉ ref_chunks es) (ref_chunks rd.1)) rs). pose proof (view_remove _ _ _ _ E) as Hv.
  assert (carries (metaof d) rs rs') as Hc.
  { intros ref b Hr Hin. apply list_elem_of_filter. split; [|done]. apply list.Forall_forall. intros i Hi He. destruct (Hg i He) as (_ & _ & A). by apply (A ref). }
  exists rs'. split; [|cbn; eapply carries_fewer; [by apply same_fewer|done]]. eapply at_data; [exact Hy|done| | |done|].
  - eapply remove_inv; [exact H1|exact E|]. intros n w b i Hn Hi. destruct (Hg i Hi) as [A _]. by apply (A n (w, b)).
  - intros n rd Hn. apply list_elem_of_filter. split; [|by apply (H2 n), Hsub]. apply list.Forall_forall. intros i Hi He. destruct (Hg i He) as (_ & A & _). by apply (A n rd).
  - intros n rd i Hn Hi. destruct (H5 n rd i (Hsub _ _ Hn) Hi) as [A1 A2]. split; [done|]. intros n' rd' Hne Hn'. by apply (A2 n' rd' Hne), Hsub.
Qed.

Lemma remove_pack_at rs p r f d ws ps dt :
  duo_at rs (mkDuoSys d ws ps dt) -> remove_pack sys p (du_fs d) = (r, f) -> (forall k sl, slots (du_fs d) !! k = Some sl -> sl_fd sl = true -> sl_id sl <> p) ->
  (forall n rd, ps !! n = Some rd -> in_pack p rd = false) -> (forall ref, refd (metaof d) ref -> in_pack p (ref, []) = false) -> duo_next rs (mkDuoSys (set_fs f d) ws ps dt).
Proof.
  intros Hy E Hs Hp Hr. pose proof Hy as [H1 H2 H3 H4 H5]. cbn in *. pose proof (view_remove_pack _ _ _ _ E) as Hv. assert (carries (metaof d) rs (base.filter (λ rd, in_pack p rd = false) rs)) as Hc.
  { intros ref b Hrf Hin. apply list_elem_of_filter. split; [|done]. exact (Hr ref Hrf). }
  exists (base.filter (λ rd, in_pack p rd = false) rs). split; [|cbn; by rewrite Hv]. eapply at_data; [exact Hy|by rewrite Hv| | |done|done].
  - by eapply remove_pack_inv.
  - intros n rd Hn. apply list_elem_of_filter. split; [by eapply Hp|by apply (H2 n)].
Qed.

(** A commit: the reference in transit becomes that of a record. *)
Lemma pend_commit (m m' : M) n ref b ps :
  (forall ref', refd m' ref' -> refd m ref' \/ ref' = ref) -> ps !! n = Some (ref, b) -> apart_pend m ps -> apart_pend m' (delete n ps).
Proof.
  intros Hr Hn Ha j rd i [Hj Hrd]%lookup_delete_Some Hi. destruct (Ha j rd i Hrd Hi) as [A1 A2]. split.
  - intros ref' [Hold|Er]%Hr; [by apply A1|]. rewrite Er. by apply (A2 n (ref, b) (not_eq_sym (not_eq_sym Hj))).
  - intros j' rd' Hne [_ Hrd']%lookup_delete_Some. by eapply A2.
Qed.
Lemma commit_at rs n ref b bk k rec m d ws ps dt :
  duo_at rs (mkDuoSys d ws ps dt) -> ps !! n = Some (ref, b) -> put_claim ref b rec -> put_view (metaof d) m bk k rec -> duo_at rs (mkDuoSys (set_meta m d) ws (delete n ps) dt).
Proof.
  intros Hat Hn (C1 & C2 & C3 & C4) Hv. pose proof Hat as [H1 H2 H3 H4 H5]. cbn in *. apply at_meta; [done| | | |].
  - intros j rd [_ Hj]%lookup_delete_Some. by eapply H2.
  - intros b' k' r. destruct Hv as ((rec' & Hv & K1 & K2 & K3 & K4) & Ho & _). destruct (decide ((b', k') = (bk, k))) as [[= -> ->]|Hne]; [|rewrite Ho by done; by apply H3].
    rewrite Hv. intros [= <-]. right. exists b. rewrite K1, K2, C1. split; [by apply (H2 n)|]. split; [rewrite K3, C3; exact (kept_total rs _ ref b Hat (H2 _ _ Hn))|]. intros Ht. left. rewrite K4. auto.
  - intros b' k' id no p. destruct Hv as (_ & _ & Hp). rewrite Hp. by apply H4.
  - eapply pend_commit; [|exact Hn|exact H5]. intros ref' Hr. rewrite <- C1. by eapply refd_put.
Qed.
Lemma part_at rs n ref b bk k id p m d ws ps dt :
  duo_at rs (mkDuoSys d ws ps dt) -> ps !! n = Some (ref, b) -> part_claim ref b p -> part_view (metaof d) m bk k id p -> duo_at rs (mkDuoSys (set_meta m d) ws (delete n ps) dt).
Proof.
  intros Hat Hn (C1 & C2 & C3) Hv. pose proof Hat as [H1 H2 H3 H4 H5]. cbn in *. apply at_meta; [done| | | |].
  - intros j rd [_ Hj]%lookup_delete_Some. by eapply H2.
  - intros b' k' r. destruct Hv as (Ho & _). rewrite Ho. by apply H3.
  - intros b' k' id' no q. destruct Hv as (_ & Hv & Hp). destruct (decide ((b', k', id', no) = (bk, k, id, pr_part_no p))) as [[= -> -> -> ->]|Hne]; [|rewrite Hp by done; by apply H4].
    rewrite Hv. intros [= <-]. exists b. rewrite C1. split; [by apply (H2 n)|]. split; [|done]. rewrite C2. exact (kept_total rs _ ref b Hat (H2 _ _ Hn)).
  - eapply pend_commit; [|exact Hn|exact H5]. intros ref' Hr. rewrite <- C1. by eapply refd_put_part.
Qed.

Lemma stub_at rs b k rec m d ws ps dt :
  duo_at rs (mkDuoSys d ws ps dt) -> or_data rec = [] -> tier (or_tier rec) = kRemote -> put_view (metaof d) m b k rec -> duo_at rs (mkDuoSys (set_meta m d) ws ps dt).
Proof.
  intros [H1 H2 H3 H4 H5] Hd Ht Hv. cbn in *. apply at_meta; [done|done| | |].
  - intros b' k' r. destruct Hv as ((rec' & Hv & K1 & K2 & _) & Ho & _). destruct (decide ((b', k') = (b, k))) as [[= -> ->]|Hne]; [rewrite Hv; intros [= <-]; left; by rewrite K1, K2|rewrite Ho by done; by apply H3].
  - intros b' k' id no p. destruct Hv as (_ & _ & Hp). rewrite Hp. by apply H4.
  - intros n rd i Hn Hi. destruct (H5 n rd i Hn Hi) as [A1 A2]. split; [|done]. intros ref [Hr|Er]%(refd_put _ _ _ _ _ _ Hv); [by apply A1|]. rewrite Er, Hd. apply not_elem_of_nil.
Qed.
Lemma fewer_at rs m d ws ps dt : duo_at rs (mkDuoSys d ws ps dt) -> fewer (metaof d) m -> duo_at rs (mkDuoSys (set_meta m d) ws ps dt).
Proof.
  intros [H1 H2 H3 H4 H5] Hf. cbn in *. apply at_meta; [done|done|intros b k rec Ho; by eapply H3, Hf|intros b k id n p Hp; by eapply H4, Hf|by eapply apart_same].
Qed.

(** The parts of an upload as one reference. *)
Lemma parts_assemble rs d ws ps dt (b k id : bytes) l :
  duo_at rs (mkDuoSys d ws ps dt) -> Forall (λ p, exists n, partv (metaof d) b k id n = Some p) l ->
  exists ds, fs_inv opt (mkFsSys (du_fs d) ws ((concat (pr_data <$> l), concat ds) :: rs)) /\ pr_etag <$> l = md5_hex <$> ds /\ pr_size <$> l = (λ d, u64 (blen d)) <$> ds.
Proof.
  intros [H1 H2 H3 H4 H5] Hl. cbn in *. assert (exists ds, Forall2 (λ ref d, (ref, d) ∈ rs) (pr_data <$> l) ds /\ pr_etag <$> l = md5_hex <$> ds /\ pr_size <$> l = (λ d, u64 (blen d)) <$> ds) as (ds & Hds & He).
  { clear H1 H2 H3 H5. induction Hl as [|p l [n Hp] _ (ds & I1 & I2 & I3)]; [by exists []|]. destruct (H4 _ _ _ _ _ Hp) as (c & Hc & Es & Et). exists (c :: ds). cbn. rewrite Et, Es, I2, I3. split; [by constructor|done]. }
  exists ds. split; [|done]. apply (add_ref opt (mkFsSys (du_fs d) ws rs)); [done| |].
  - apply secure_ref_concat. eapply Forall2_impl; [exact Hds|]. intros ref c Hin. by apply (fi_refs _ _ H1).
  - intros n w i Hw (ref & Hr & Hi)%ref_chunks_concat. cbn in *. apply list_elem_of_lookup in Hr as [j Hj]. destruct (Forall2_lookup_l _ _ _ _ _ Hds Hj) as (c & _ & Hin). by eapply (fi_free _ _ H1).
Qed.
Lemma complete_at rs b k id m d ws ps dt : duo_at rs (mkDuoSys d ws ps dt) -> complete_view md5_hex (metaof d) m b k id -> duo_next rs (mkDuoSys (set_meta m d) ws ps dt).
Proof.
  intros Hy Hv. pose proof Hv as ((l & rec & Hl & Hr & Hd & Hz & He & Ht) & Ho & Hp). destruct (parts_assemble rs d ws ps dt b k id l Hy Hl) as (ds & Hi & Hds & Hsz). pose proof Hy as [H1 H2 H3 H4 H5]. cbn in *.
  exists ((concat (pr_data <$> l), concat ds) :: rs). split; [|apply carries_sub; by right]. apply at_meta; [done| | | |].
  - intros n rd Hn. right. by eapply H2.
  - intros b' k' r. destruct (decide ((b', k') = (b, k))) as [[= -> ->]|Hne]; [|rewrite Ho by done; intros Hr'; by eapply kept_cons, H3].
    rewrite Hr. intros [= <-]. right. exists (concat ds). rewrite Hd. split; [left|]. split; [rewrite Hz; exact (sizes_from l ds 0 Hsz)|]. intros _. right. exists ds. by rewrite He, Hds.
  - intros b' k' id' n p Hq. by eapply part_kept_cons, H4, Hp.
  - intros n rd i Hn Hin. destruct (H5 n rd i Hn Hin) as [A1 A2]. split; [|done]. intros ref [Hrf|(ps' & Hps & Er)]%(refd_complete _ _ _ _ _ _ Hv); [by apply A1|]. rewrite Er.
    intros (ref' & Hr' & Hc)%ref_chunks_concat. apply list_elem_of_fmap in Hr' as (p & -> & Hin'). rewrite list.Forall_forall in Hps. destruct (Hps p Hin') as [no Hno]. by apply (A1 (pr_data p)); [eapply refd_part|].
Qed.

Lemma duo_step_next rs x y : duo_step x y -> duo_at rs x -> duo_next rs y.
Proof.
  intros Hs Hx. pose proof Hx as [H1 H2 H3 H4 H5]. destruct Hs; cbn in *.
  - apply next_same. split; [|done..]. exact (fs_step_inv opt sys clock busy _ _ (StOpen opt sys clock busy n len owner (du_fs d) ws rs H) H1).
  - pose proof (write_inv opt sys n w b buf r _ _ _ _ _ H1 H H0) as Hi. pose proof (view_write _ _ _ _ _ _ H0) as Hv. apply next_same.
    destruct r as [u|e]; (eapply at_data; [exact Hx| |exact Hi|done|by apply carries_sub|done]); [done|]. etransitivity; [exact Hv|apply view_discard].
  - by eapply finish_at.
  - apply next_same. eapply at_data; [exact Hx|apply view_discard| |done|by apply carries_sub|done]. by apply (others_discard opt sys _ H1 n w b).
  - apply next_same. split; cbn; rewrite ?H; cbn; [|done| | |].
    + by apply (adds_inv _ (mkFsSys (du_fs d) ws rs) (set_hooked m (set_pins t (du_fs d)))).
    + intros b k rec. rewrite (proj1 H0). by apply H3.
    + intros b k id n p. rewrite (proj2 H0). by apply H4.
    + by eapply apart_same; [apply same_fewer|].
  - apply next_same. by eapply commit_at.
  - apply next_same. by eapply part_at.
  - apply next_same. by eapply stub_at.
  - by eapply complete_at.
  - apply next_same. by eapply fewer_at.
  - eapply (remove_at rs ref); [exact Hx|exact H0|by intros j rd [_ ?]%lookup_delete_Some|]. intros i Hi. destruct (H5 n (ref, b) i H Hi) as [A1 A2]. split; [|split; [|done]].
    + intros j w Hw. by eapply (fi_free _ _ H1 ref b j w i (H2 _ _ H)).
    + intros j rd [Hj Hrd]%lookup_delete_Some. by eapply A2.
  - apply next_same. split; cbn; [done| |done|done|by apply apart_delete]. intros j rd [_ Hj]%lookup_delete_Some. by eapply H2.
  - apply next_same. eapply at_data; [exact Hx|by eapply view_seal| |done|by apply carries_sub|done]. apply seal_aged_packs_run in H. by apply (adds_inv _ (mkFsSys (du_fs d) ws rs) f).
  - by eapply (remove_at rs es).
  - by eapply (remove_pack_at rs p).
Qed.
Lemma duo_step_inv x y : duo_step x y -> duo_inv x -> duo_inv y.
Proof. intros Hs [rs Hx]. destruct (duo_step_next rs x y Hs Hx) as (rs' & ? & _). by exists rs'. Qed.
Lemma duo_steps_inv x y : rtc duo_step x y -> duo_inv x -> duo_inv y.
Proof. induction 1; [done|]. eauto using duo_step_inv. Qed.

(** * Every object is whole *)

(** Steps after which the object still has the reference. *)
Definition standing (b k : bytes) (ref : DataRef) (y z : DuoSys) : Prop := duo_step y z /\ exists rec, objv (metaof (y_duo z)) b k = Some rec /\ or_data rec = ref.
Lemma standing_kept b k ref d rs y z : rtc (standing b k ref) y z -> duo_at rs y -> (ref, d) ∈ rs -> secure_ref (du_fs (y_duo z)) ref d.
Proof.
  intros H. revert rs. induction H as [y|y y1 z [Hs (rec & Hr & Hd)] _ IH]; intros rs Hy Hin; [exact (fi_refs _ _ (da_fs _ _ Hy) _ _ Hin)|].
  destruct (duo_step_next rs y y1 Hs Hy) as (rs' & Hy1 & Hc). eapply IH; [exact Hy1|]. apply Hc; [|done]. rewrite <- Hd. by eapply refd_object.
Qed.

Definition blank (m : M) : Prop := forall b k, objv m b k = None /\ forall id n, partv m b k id n = None.
Definition duo_start (j : nat) (m : M) (t : PinTable) (c : Cache CachedObject) (rc wc : InFlight) : DuoSys := mkDuoSys (mkDuo (fresh_fs j m t) c rc wc) ∅ ∅ ∅.
Lemma duo_start_inv j m t c rc wc : blank m -> duo_inv (duo_start j m t c rc wc).
Proof.
  intros Hm. exists []. split; cbn.
  - apply fresh_inv.
  - intros n rd. by rewrite lookup_empty.
  - intros b k rec. by rewrite (proj1 (Hm b k)).
  - intros b k id n p. by rewrite (proj2 (Hm b k)).
  - intros n rd i. by rewrite lookup_empty.
Qed.

(** Every object that is not a stub stands for bytes that its ETag is the digest of, and
    every range of it reads them back as long as it is not replaced. *)
Definition reads_back (b k : bytes) (ref : DataRef) (d : bytes) (y : DuoSys) : Prop :=
  forall first last ropt rsys view bufs,
    (forall i, exists z, rtc (standing b k ref) y z /\ view i = disk (du_fs (y_duo z))) -> (forall i, is_Some (rsys i)) ->
    (blen d < 2 ^ 64)%Z -> (0 <= first <= last /\ last < blen d)%Z -> Forall (λ n, 0 < n) bufs -> Z.to_nat (last - first + 1) < length bufs ->
    exists r, open_reader ropt rsys view ref first last = Ok r /\ br_length r = Some (last - first + 1)%Z /\
      read_all bufs r = (substr d (Z.to_nat first) (Z.to_nat (last - first + 1)), Ok tt).
Lemma held_reads_back b k ref d rs y : duo_at rs y -> (ref, d) ∈ rs -> reads_back b k ref d y.
Proof.
  intros Hy Hin first last ropt rsys view bufs Hview Hsys Hlen Hr Hb Hl. apply (serve_secure ropt rsys view ref d first last bufs); try done.
  intros i. destruct (Hview i) as (z & Hz & ->). apply secure_has. by eapply standing_kept.
Qed.
Lemma object_whole y b k rec :
  duo_inv y -> objv (metaof (y_duo y)) b k = Some rec -> tier (or_tier rec) <> kRemote ->
  exists d, osize (or_meta rec) = u64 (blen d) /\ (tier (or_tier rec) = kLocal -> genuine (or_meta rec) d) /\ reads_back b k (or_data rec) d y.
Proof. intros [rs Hrs] Ho Ht. destruct (da_objects _ _ Hrs b k rec Ho) as [[? _]|(d & Hd & Hz & Hg)]; [done|]. exists d. split; [done|]. split; [done|]. by eapply held_reads_back. Qed.
End system.
