(* ===== verification/RocksStore.v ===== *)
(** The RocksDB engine as the metadata store of DuoStore: its operations discharge the
    interface [MetaLaw] that the backend's theorems are proved against.

    A state is an engine whose records are well formed, as every engine is that starts empty
    and runs these operations. Fields that have a machine type in the source are integers
    here: an operation whose arguments or result do not fit their types has no counterpart,
    and [typed] stands for that. *)

From S2P Require Import Prelude Bytes Checksum Backend Validate Listing Multipart MemoryBackend Codec CodecProofs CodecKeys MetaUtil.
From S2P Require Import RocksDb RocksLedger RocksProofs RocksInv RocksOps RocksParts RocksFront DuoWorld FsData MetaCache BodyReader FsRead DuoBackend DuoRequest.
From S2P Require RocksMeta.
From Stdlib Require Import ZArith Lia.
From stdpp Require Import base list gmap sets strings sorting relations.
Open Scope lights3_scope.

#[global] Instance is_u8_dec z : Decision (is_u8 z).
Proof. unfold is_u8. apply _. Defined.
#[global] Instance is_u16_dec z : Decision (is_u16 z).
Proof. unfold is_u16. apply _. Defined.
#[global] Instance is_u32_dec z : Decision (is_u32 z).
Proof. unfold is_u32. apply _. Defined.
#[global] Instance is_u64_dec z : Decision (is_u64 z).
Proof. unfold is_u64. apply _. Defined.
#[global] Instance is_i64_dec z : Decision (is_i64 z).
Proof. unfold is_i64. apply _. Defined.
#[global] Instance extent_wf_dec e : Decision (extent_wf e).
Proof. unfold extent_wf. apply _. Defined.
#[global] Instance extents_ok_dec es : Decision (extents_ok es).
Proof. unfold extents_ok. apply _. Defined.
#[global] Instance object_rec_ok_dec r : Decision (object_rec_ok r).
Proof. unfold object_rec_ok. apply _. Defined.
#[global] Instance part_rec_ok_dec r : Decision (part_rec_ok r).
Proof. unfold part_rec_ok. apply _. Defined.

Section store.
Context {DB : Type} {rocks : RocksDB DB} {rlaw : RocksLaw DB} (md5_hex sha1 sha256 : bytes -> bytes).
Abbreviation E := (ST (RocksMeta.Meta DB) S3ErrorCode).
Implicit Types (s : RocksMeta.Meta DB).

(** * States *)
Definition clean (s : RocksMeta.Meta DB) : Prop := objects_ok (tab s kObjects) /\ parts_ok (tab s kParts) /\ uploads_ok (tab s kUploads).
Definition Store : Type := { s | clean s }.
Definition tidy {A} (m : E A) : Prop := forall s, clean s -> clean (m s).2.
(** An operation of the engine, on such states. *)
Definition on_store {A} (m : E A) (H : tidy m) (x : Store) : result A * Store := ((m (`x)).1, (m (`x)).2 ↾ H (`x) (proj2_sig x)).
Definition as_meta {A} (r : result A * Store) : res MetaErr A * Store := (match r.1 with Ok a => Ok a | Throw c => Throw (MErr c) end, r.2).
Definition typed {A} (P : Prop) {dec : Decision P} (m : E A) : E A := if decide P then m else throw InternalError.

Lemma clean_main s s' : same_main s s' -> clean s -> clean s'.
Proof. intros Hm (H1 & H2 & H3). unfold clean. rewrite !Hm by (unfold main_cf; auto). done. Qed.
Lemma tidy_main {A} (m : E A) : (forall s o s', m s = (o, s') -> same_main s s') -> tidy m.
Proof. intros H s Hs. destruct (m s) as [o s'] eqn:Em. by eapply clean_main; [eapply H|]. Qed.
Lemma tidy_typed {A} (P : Prop) {dec : Decision P} (m : E A) : (P -> tidy m) -> tidy (typed P m).
Proof. intros H s Hs. unfold typed. destruct (decide P); [by apply H|done]. Qed.

(** What a batch's front makes of the tables. *)
Ltac front Hf := pose proof (Hf kObjects ltac:(unfold main_cf; auto)) as FO; pose proof (Hf kParts ltac:(unfold main_cf; auto)) as FP; pose proof (Hf kUploads ltac:(unfold main_cf; auto)) as FU; revert FO FP FU; eval_batch; intros FO FP FU.
Lemma clean_tabs s' (O P U : table) : tab (s' : RocksMeta.Meta DB) kObjects = O -> tab s' kParts = P -> tab s' kUploads = U -> objects_ok O -> parts_ok P -> uploads_ok U -> clean s'.
Proof. intros <- <- <- ? ? ?. done. Qed.

Lemma tidy_put b k rec c now : object_rec_ok rec -> tidy (RocksMeta.put_object b k rec c now).
Proof.
  intros Hok s (HO & HP & HU). destruct (RocksMeta.put_object b k rec c now s) as [o s'] eqn:Em. apply put_effect in Em as [[Hm _]|(_ & okey & old & enc & Hk & Henc & Hf)]; [by eapply clean_main|].
  front Hf. eapply clean_tabs; [exact FO|exact FP|exact FU| |done|done]. apply map_Forall_insert_2; [|done]. split; [by exists b, k|]. eexists. split; [|exact Henc]. apply set_version_ok; [apply next_version_u64|done].
Qed.
Lemma tidy_delete b k now : tidy (RocksMeta.delete_object b k now).
Proof.
  intros s (HO & HP & HU). destruct (RocksMeta.delete_object b k now s) as [o s'] eqn:Em. apply delete_effect in Em as [Hm|(okey & _ & Hf)]; [by eapply clean_main|].
  front Hf. eapply clean_tabs; [exact FO|exact FP|exact FU| |done|done]. by apply map_Forall_delete.
Qed.
Lemma tidy_put_part b k id p now : part_rec_ok p /\ is_u16 (pr_part_no p) -> tidy (RocksMeta.put_part b k id p now).
Proof.
  intros [Hok Hno] s (HO & HP & HU). destruct (RocksMeta.put_part b k id p now s) as [o s'] eqn:Em. apply put_part_effect in Em as [[Hm _]|(_ & pkey & enc & Hk & Henc & Hf)]; [by eapply clean_main|].
  front Hf. eapply clean_tabs; [exact FO|exact FP|exact FU|done| |done]. apply map_Forall_insert_2; [|done]. split; [by exists b, k, id, (pr_part_no p)|]. by exists p.
Qed.
Lemma parts_ok_filter (P : table) (f : bytes * bytes -> Prop) {dec : forall x, Decision (f x)} : parts_ok P -> parts_ok (base.filter f P).
Proof. intros HP k v [Hv _]%map_lookup_filter_Some. by apply HP. Qed.
Lemma tidy_abort b k id now : tidy (RocksMeta.abort_upload b k id now).
Proof.
  intros s (HO & HP & HU). destruct (RocksMeta.abort_upload b k id now s) as [o s'] eqn:Em. apply abort_effect in Em as [Hm|(ukey & pfx & Hf)]; [by eapply clean_main|].
  front Hf. eapply clean_tabs; [exact FO|exact FP|exact FU|done|by apply parts_ok_filter|by apply map_Forall_delete].
Qed.
Lemma tidy_create_upload b k m i now : is_i64 now /\ Forall is_u64 (part_sizes m) -> tidy (RocksMeta.create_upload b k m i now).
Proof.
  intros [Hn Hp] s (HO & HP & HU). destruct (RocksMeta.create_upload b k m i now s) as [o s'] eqn:Em. apply create_upload_effect in Em as [Hm|(ukey & enc & Henc & Hf)]; [by eapply clean_main|].
  front Hf. eapply clean_tabs; [exact FO|exact FP|exact FU|done|done|]. apply map_Forall_insert_2; [|done]. eexists. split; [|split; [|exact Henc]]; done.
Qed.
(** The handler has checked the order of the parts; the extents of the result have a 32-bit
    count. *)
Definition complete_typed (b k id : bytes) (parts : list PartInfo) (now : Z) (tp : time_point) : E bytes :=
  _ ← lift (validate_part_order parts);
  s ← get_st;
  typed (is_i64 (to_unix_ms tp) /\ (upload_extents (tab s kParts) b k id < 2 ^ 32)%Z) (RocksMeta.complete_upload md5_hex sha1 sha256 b k id parts now tp).
Lemma complete_typed_effect b k id parts now tp s o s' :
  clean s -> complete_typed b k id parts now tp s = (o, s') -> unmoved o s s' \/ exists okey old rec enc ukey pfx ps,
    o = Ok (etag (or_meta rec)) /\ object_key b k = Ok okey /\ encode_object (RocksMeta.set_version (RocksMeta.next_version old) rec) = Ok enc /\ object_rec_ok rec /\
    Forall (part_read_at (tab s kParts) b k id) ps /\ or_data rec = concat (pr_data <$> ps) /\ etag (or_meta rec) = combined_etag md5_hex (pr_etag <$> ps) /\ or_tier rec = default_tier /\ osize (or_meta rec) = sizes_total ps /\
    fronted [BPut kObjects okey enc; BDelete kUploads ukey; BDeleteRange kParts pfx (default pfx (bump_last_byte pfx))] s s'.
Proof.
  intros (HO & HP & HU) H. unfold complete_typed in H. apply lift_bind in H as [?|([] & Ho & H)]; [left; by apply stopped_unmoved|]. rewrite ST_get_bind in H. unfold typed in H.
  destruct (decide _) as [[H1 H2]|]; [|injection H as <- <-; left; by split; [|eexists]]. by eapply complete_effect.
Qed.
Lemma tidy_complete b k id parts now tp : tidy (complete_typed b k id parts now tp).
Proof.
  intros s Hs. destruct (complete_typed b k id parts now tp s) as [o s'] eqn:Em. apply complete_typed_effect in Em as [[Hm _]|(okey & old & rec & enc & ukey & pfx & ps & _ & Hk & Henc & Hok & _ & _ & _ & _ & _ & Hf)]; [by eapply clean_main| |done].
  destruct Hs as (HO & HP & HU). front Hf. eapply clean_tabs; [exact FO|exact FP|exact FU| |by apply parts_ok_filter|by apply map_Forall_delete].
  apply map_Forall_insert_2; [|done]. split; [by exists b, k|]. eexists. split; [|exact Henc]. apply set_version_ok; [apply next_version_u64|done].
Qed.
Lemma main_create_bucket b now s o s' : RocksMeta.create_bucket b now s = (o, s') -> tab s' kObjects = tab s kObjects /\ tab s' kParts = tab s kParts /\ tab s' kUploads = tab s kUploads.
Proof. intros [Hm|(enc & Hf)]%create_bucket_effect; [by rewrite !Hm by (unfold main_cf; auto)|]. front Hf. done. Qed.
Lemma main_delete_bucket b s o s' : RocksMeta.delete_bucket b s = (o, s') -> tab s' kObjects = tab s kObjects /\ tab s' kParts = tab s kParts /\ tab s' kUploads = tab s kUploads.
Proof. intros [Hm|Hf]%delete_bucket_effect; [by rewrite !Hm by (unfold main_cf; auto)|]. front Hf. done. Qed.
Lemma tidy_create_bucket b now : tidy (RocksMeta.create_bucket b now).
Proof. intros s (HO & HP & HU). destruct (RocksMeta.create_bucket b now s) as [o s'] eqn:Em. apply main_create_bucket in Em as (E1 & E2 & E3). unfold clean. cbn. by rewrite E1, E2, E3. Qed.
Lemma tidy_delete_bucket b : tidy (RocksMeta.delete_bucket b).
Proof. intros s (HO & HP & HU). destruct (RocksMeta.delete_bucket b s) as [o s'] eqn:Em. apply main_delete_bucket in Em as (E1 & E2 & E3). unfold clean. cbn. by rewrite E1, E2, E3. Qed.

(** Reading changes nothing. *)
Definition reading {A} (m : E A) : Prop := forall s, (m s).2 = s.
Lemma tidy_reading {A} (m : E A) : reading m -> tidy m.
Proof. intros H s Hs. by rewrite H. Qed.
Lemma reading_bind {A B} (m : E A) (f : A -> E B) : reading m -> (forall a, reading (f a)) -> reading (m ≫= f).
Proof. intros Hm Hf s. rewrite ST_bind_eq. specialize (Hm s). destruct (m s) as [[a|e] s1]; cbn in Hm; subst; [apply Hf|done]. Qed.
Lemma reading_get_raw c k : reading (RocksMeta.get_raw c k).
Proof. intros s. destruct (RocksMeta.get_raw c k s) as [o s'] eqn:Em. by apply get_raw_run in Em as [-> _]. Qed.
Lemma reading_items c : reading (RocksMeta.items c).
Proof. intros s. destruct (RocksMeta.items c s) as [o s'] eqn:Em. by apply items_run in Em as [-> _]. Qed.
Lemma reading_lift {A} (r : result A) : reading (lift r).
Proof. done. Qed.
Lemma reading_ret {A} (a : A) : reading (mret a).
Proof. done. Qed.
Hint Resolve reading_bind reading_get_raw reading_items reading_lift reading_ret : side.
Lemma reading_bucket b : reading (RocksMeta.require_bucket_locked b).
Proof. apply reading_bind; auto with side. Qed.
Lemma reading_upload b k id : reading (RocksMeta.require_upload b k id).
Proof. unfold RocksMeta.require_upload. destruct (negb _); [done|]. apply reading_bind; [done|intros ukey]. apply reading_bind; [auto with side|]. by intros []. Qed.
Lemma reading_parts b k id : reading (RocksMeta.list_parts b k id).
Proof. apply reading_bind; [apply reading_upload|intros _]. apply reading_bind; [done|intros pfx]. apply reading_bind; auto with side. Qed.
Lemma reading_uploads b x y n z : reading (RocksMeta.list_uploads b x y n z).
Proof. apply reading_bind; [apply reading_bucket|intros _]. apply reading_bind; auto with side. Qed.
Lemma reading_objects b o : reading (RocksMeta.list_objects b o).
Proof. apply reading_bind; [auto with side|intros v]. apply reading_bind; [done|intros _]. destruct (_ <=? _)%Z; [done|]. apply reading_bind; auto with side. Qed.
Lemma reading_buckets : reading (RocksMeta.list_buckets).
Proof. apply reading_bind; auto with side. Qed.
Lemma reading_exists b : reading (RocksMeta.bucket_exists b).
Proof. apply reading_bind; auto with side. Qed.
Lemma reading_get b k : reading (RocksMeta.get_object b k).
Proof. apply reading_bind; [done|intros okey]. apply reading_bind; auto with side. Qed.
Lemma reading_head b k : reading (RocksMeta.head_object b k).
Proof. apply reading_bind; [done|intros okey]. apply reading_bind; auto with side. Qed.

(** * The interface *)
Lemma tidy_alloc k n : tidy (RocksMeta.alloc_file_run k n).
Proof. apply tidy_main. intros s o s'. apply alloc_effect. Qed.
Lemma tidy_seal p n : tidy (RocksMeta.seal_pack p n).
Proof. apply tidy_main. intros s o s'. apply seal_effect. Qed.
#[global] Instance store_hooks : FsHooks Store := {
  alloc_ k n := on_store (RocksMeta.alloc_file_run k n) (tidy_alloc k n);
  seal_ p n := on_store (RocksMeta.seal_pack p n) (tidy_seal p n) }.
#[global] Instance store_meta : IMetaStore Store := {
  im_create_bucket b t x := as_meta (on_store _ (tidy_create_bucket b t) x);
  im_delete_bucket b x := as_meta (on_store _ (tidy_delete_bucket b) x);
  im_bucket_exists b x := as_meta (on_store _ (tidy_reading _ (reading_exists b)) x);
  im_list_buckets x := as_meta (on_store _ (tidy_reading _ reading_buckets) x);
  im_get_object b k x := as_meta (on_store _ (tidy_reading _ (reading_get b k)) x);
  im_head_object b k x := as_meta (on_store _ (tidy_reading _ (reading_head b k)) x);
  im_put_object b k rec c t x := as_meta (on_store _ (tidy_typed _ _ (tidy_put b k rec c t)) x);
  im_delete_object b k t x := as_meta (on_store _ (tidy_delete b k t) x);
  im_list_objects b o x := as_meta (on_store _ (tidy_reading _ (reading_objects b o)) x);
  im_create_upload b k m i t x := as_meta (on_store _ (tidy_typed _ _ (tidy_create_upload b k m i t)) x);
  im_require_upload b k id x := as_meta (on_store _ (tidy_reading _ (reading_upload b k id)) x);
  im_put_part b k id p t x := as_meta (on_store _ (tidy_typed _ _ (tidy_put_part b k id p t)) x);
  im_list_parts b k id x := as_meta (on_store _ (tidy_reading _ (reading_parts b k id)) x);
  im_list_uploads b u v n w x := as_meta (on_store _ (tidy_reading _ (reading_uploads b u v n w)) x);
  im_complete_upload b k id ps t tp x := as_meta (on_store _ (tidy_complete b k id ps t tp) x);
  im_abort_upload b k id t x := as_meta (on_store _ (tidy_abort b k id t) x) }.

Definition ok {A} (r : result A) : option A := match r with Ok a => Some a | Throw _ => None end.
#[global] Instance store_view : MetaView Store := {
  objv x b k := okey ← ok (object_key b k); v ← tab (`x) kObjects !! okey; ok (decode_object k v);
  partv x b k id n := if decide (is_u16 n) then pkey ← ok (part_key b k id n); v ← tab (`x) kParts !! pkey; ok (decode_part n v) else None }.
(** ** What the records show *)
Implicit Types (x y : Store).
Lemma view_tabs x y : tab (`y) kObjects = tab (`x) kObjects -> tab (`y) kParts = tab (`x) kParts -> same_view x y.
Proof. intros E1 E2. split; [intros b k|intros b k id n]; cbn; by rewrite ?E1, ?E2. Qed.
Lemma view_main x y : same_main (`x) (`y) -> same_view x y.
Proof. intros Hm. apply view_tabs; apply Hm; unfold main_cf; auto. Qed.
Lemma view_reading {A} (m : E A) (H : reading m) x : same_view x (as_meta (on_store m (tidy_reading m H) x)).2.
Proof. apply view_tabs; cbn; by rewrite H. Qed.
Lemma objv_some x b k rec : objv x b k = Some rec <-> exists okey v, object_key b k = Ok okey /\ tab (`x) kObjects !! okey = Some v /\ decode_object k v = Ok rec.
Proof.
  cbn. split.
  - destruct (object_key b k) as [okey|]; [|done]. cbn. destruct (tab (`x) kObjects !! okey) as [v|] eqn:Ev; [|done]. cbn. destruct (decode_object k v) as [r|] eqn:Ed; [|done]. intros [= <-]. by exists okey, v.
  - intros (okey & v & -> & E1 & E2). cbn. rewrite E1. cbn. by rewrite E2.
Qed.
Lemma partv_some x b k id n p :
  partv x b k id n = Some p <-> exists pkey v, is_u16 n /\ part_key b k id n = Ok pkey /\ tab (`x) kParts !! pkey = Some v /\ decode_part n v = Ok p.
Proof.
  cbn. split.
  - destruct (decide (is_u16 n)); [|done]. destruct (part_key b k id n) as [pkey|]; [|done]. cbn. destruct (tab (`x) kParts !! pkey) as [v|] eqn:Ev; [|done]. cbn. destruct (decode_part n v) as [r|] eqn:Ed; [|done]. intros [= <-]. by exists pkey, v.
  - intros (pkey & v & Hn & -> & E1 & E2). rewrite decide_True by done. cbn. rewrite E1. cbn. by rewrite E2.
Qed.
(** Tables with fewer entries show fewer records. *)
Lemma view_fewer x y : tab (`y) kObjects ⊆ tab (`x) kObjects -> tab (`y) kParts ⊆ tab (`x) kParts -> fewer x y.
Proof.
  intros HO HP. split.
  - intros b k rec (okey & v & H1 & H2 & H3)%objv_some. apply objv_some. exists okey, v. split; [done|]. split; [by eapply lookup_weaken|done].
  - intros b k id n p (pkey & v & H1 & H2 & H3 & H4)%partv_some. apply partv_some. exists pkey, v. repeat (split; [done|]). split; [by eapply lookup_weaken|done].
Qed.
(** An object written at its key. *)
Lemma objv_insert x y b k okey enc rec v :
  object_key b k = Ok okey -> tab (`y) kObjects = <[okey := enc]> (tab (`x) kObjects) -> object_rec_ok rec -> is_u64 v -> encode_object (RocksMeta.set_version v rec) = Ok enc ->
  objv y b k = Some (persisted_object k (RocksMeta.set_version v rec)) /\ same_others x y b k.
Proof.
  intros Hk Ht Hok Hv Henc. split.
  - apply objv_some. exists okey, enc. split; [done|]. split; [by rewrite Ht, lookup_insert_eq|]. apply object_roundtrip; [by apply set_version_ok|done].
  - intros b' k' Hne. cbn. destruct (object_key b' k') as [okey'|] eqn:Hk'; [|done]. cbn. rewrite Ht, lookup_insert_ne; [done|]. intros <-.
    apply object_key_Ok in Hk as (N1 & N2 & ->). apply object_key_Ok in Hk' as (N3 & N4 & E'). apply cut_nul in E' as [-> ->]; done.
Qed.

(** A run of the engine, seen through the interface. *)
Lemma store_outcome {A} (m : E A) H x (done : Store -> Prop) :
  (forall o y, m (`x) = (o, `y) -> match o with Ok _ => done y | Throw _ => same_view x y end) ->
  outcome (as_meta (on_store m H x)).1 (done (as_meta (on_store m H x)).2) (same_view x (as_meta (on_store m H x)).2).
Proof.
  intros Hr. specialize (Hr (m (`x)).1 (on_store m H x).2 (surjective_pairing _)). unfold as_meta. cbn [fst snd]. change (on_store m H x).1 with (m (`x)).1. by destruct (m (`x)).1.
Qed.
Lemma store_runs {A} (m : E A) H x (P : Store -> Prop) : (forall o y, m (`x) = (o, `y) -> P y) -> P (as_meta (on_store m H x)).2.
Proof. intros Hr. apply (Hr (m (`x)).1). apply surjective_pairing. Qed.
Lemma typed_run {A} (Q : Prop) {dec : Decision Q} (m : E A) s o s' : typed Q m s = (o, s') -> (s' = s /\ exists e, o = Throw e) \/ (Q /\ m s = (o, s')).
Proof. unfold typed. destruct (decide Q); [by right|]. intros [= <- <-]. left. split; [done|by eexists]. Qed.

(** ** The promises *)
Lemma store_put b k rec c t x : let r := as_meta (on_store _ (tidy_typed _ _ (tidy_put b k rec c t)) x) in outcome r.1 (put_view x r.2 b k rec) (same_view x r.2).
Proof.
  apply (store_outcome _ _ x (λ y, put_view x y b k rec)). intros o y [[Hy [e ->]]|[Hok H]]%typed_run; [by apply view_main; rewrite Hy|].
  apply put_effect in H as [[Hm [e ->]]|(-> & okey & old & enc & Hk & Henc & Hf)]; [by apply view_main|]. front Hf.
  destruct (objv_insert x y b k okey enc rec _ Hk FO Hok (next_version_u64 old) Henc) as [V1 V2]. split; [|split; [done|]].
  - eexists. split; [exact V1|done].
  - intros b' k' id n. cbn. by rewrite FP.
Qed.
Lemma store_delete b k t x : fewer x (as_meta (on_store _ (tidy_delete b k t) x)).2.
Proof.
  apply store_runs. intros o y [Hm|(okey & _ & Hf)]%delete_effect; [by apply same_fewer, view_main|]. front Hf. apply view_fewer; [rewrite FO; apply delete_subseteq|by rewrite FP].
Qed.
Lemma store_put_part b k id p t x : let r := as_meta (on_store _ (tidy_typed _ _ (tidy_put_part b k id p t)) x) in outcome r.1 (part_view x r.2 b k id p) (same_view x r.2).
Proof.
  apply (store_outcome _ _ x (λ y, part_view x y b k id p)). intros o y [[Hy [e ->]]|[[Hok Hno] H]]%typed_run; [by apply view_main; rewrite Hy|].
  apply put_part_effect in H as [[Hm [e ->]]|(-> & pkey & enc & Hk & Henc & Hf)]; [by apply view_main|]. front Hf. split; [|split].
  - intros b' k'. cbn. by rewrite FO.
  - apply partv_some. exists pkey, enc. repeat (split; [done|]). split; [by rewrite FP, lookup_insert_eq|by apply part_roundtrip].
  - intros b' k' id' n Hne. cbn. destruct (decide (is_u16 n)) as [Hn|]; [|done]. destruct (part_key b' k' id' n) as [pkey'|] eqn:Hk'; [|done]. cbn. rewrite FP, lookup_insert_ne; [done|]. intros <-.
    destruct (part_key_inj _ _ _ _ _ _ _ _ _ Hno Hn Hk Hk') as (E1 & E2 & E3 & E4). congruence.
Qed.
Lemma store_abort b k id t x : fewer x (as_meta (on_store _ (tidy_abort b k id t) x)).2.
Proof.
  apply store_runs. intros o y [Hm|(ukey & pfx & Hf)]%abort_effect; [by apply same_fewer, view_main|]. front Hf. apply view_fewer; [by rewrite FO|rewrite FP; apply map_filter_subseteq].
Qed.
Lemma store_complete b k id ps t tp x :
  let r := as_meta (on_store _ (tidy_complete b k id ps t tp) x) in outcome r.1 (complete_view md5_hex x r.2 b k id) (same_view x r.2).
Proof.
  apply (store_outcome _ _ x (λ y, complete_view md5_hex x y b k id)). intros o y H. apply complete_typed_effect in H; [|apply (proj2_sig x)].
  destruct H as [[Hm [e ->]]|(okey & old & rec & enc & ukey & pfx & l & -> & Hk & Henc & Hok & Hl & Hd & Ht & Hti & Hz & Hf)]; [by apply view_main|]. front Hf.
  destruct (objv_insert x y b k okey enc rec _ Hk FO Hok (next_version_u64 old) Henc) as [V1 V2]. split; [|split; [done|]].
  - exists l, (persisted_object k (RocksMeta.set_version (RocksMeta.next_version old) rec)). split; [|split; [exact V1|]].
    + eapply list.Forall_impl; [exact Hl|]. intros p (n & pkey & v & H1 & H2 & H3 & H4). exists n. apply partv_some. by exists pkey, v.
    + cbn. by rewrite Hti.
  - intros b' k' id' n p (pkey & v & H1 & H2 & H3 & H4)%partv_some. apply partv_some. exists pkey, v. repeat (split; [done|]). split; [|done].
    rewrite FP in H3. eapply lookup_weaken; [exact H3|apply map_filter_subseteq].
Qed.
Lemma store_create_upload b k m i t x : same_view x (as_meta (on_store _ (tidy_typed _ _ (tidy_create_upload b k m i t)) x)).2.
Proof.
  apply store_runs. intros o y [[Hy _]|[_ H]]%typed_run; [by apply view_main; rewrite Hy|]. apply create_upload_effect in H as [Hm|(ukey & enc & _ & Hf)]; [by apply view_main|]. front Hf. by apply view_tabs.
Qed.

(** The engine keeps the promises of the interface. *)
#[global] Program Instance store_law : @MetaLaw Store store_hooks store_meta store_view md5_hex.
Next Obligation. intros k n m. apply view_main. cbn. by eapply alloc_effect, surjective_pairing. Qed.
Next Obligation. intros p n m. apply view_main. cbn. by eapply seal_effect, surjective_pairing. Qed.
Next Obligation. intros b m. apply view_reading. Qed.
Next Obligation. intros m. apply view_reading. Qed.
Next Obligation.
  intros b k m. split; [apply view_reading|]. cbn. intros o. unfold RocksMeta.get_object. destruct (object_key b k) as [okey|]; [|done]. rewrite ST_bind_eq. cbn [lift]. rewrite ST_bind_eq.
  destruct (RocksMeta.get_raw kObjects okey (`m)) as [[v|e] s'] eqn:Eg; [|done]. apply get_raw_run in Eg as [-> Hv]. rewrite (Hv v eq_refl). cbn. destruct (tab (`m) kObjects !! okey) as [w|]; cbn; [|congruence].
  destruct (decode_object k w); cbn; congruence.
Qed.
Next Obligation. intros b k m. apply view_reading. Qed.
Next Obligation. intros b o m. apply view_reading. Qed.
Next Obligation. intros b k id m. apply view_reading. Qed.
Next Obligation. intros b k id m. apply view_reading. Qed.
Next Obligation. intros b u v n w m. apply view_reading. Qed.
Next Obligation. intros b t m. apply (store_runs _ _ m (same_view m)). intros o y (E1 & E2 & _)%main_create_bucket. by apply view_tabs. Qed.
Next Obligation. intros b m. apply (store_runs _ _ m (same_view m)). intros o y (E1 & E2 & _)%main_delete_bucket. by apply view_tabs. Qed.
Next Obligation. intros. apply store_create_upload. Qed.
Next Obligation. intros. apply store_put. Qed.
Next Obligation. intros. apply store_delete. Qed.
Next Obligation. intros. apply store_put_part. Qed.
Next Obligation. intros. apply store_complete. Qed.
Next Obligation. intros. apply store_abort. Qed.
End store.
