(* ===== verification/DuoHandlers.v ===== *)
(** DuoStore's handlers are runs of the system of [DuoRequest]: each handler of [DuoBackend],
    with other requests between all of its calls, takes the backend along steps of that
    system and leaves no writer and no reference in transit behind. *)

From S2P Require Import Prelude Bytes Checksum Backend Validate Listing Multipart MemoryBackend Codec MetaUtil RocksMeta DuoWorld FsData MetaCache BodyReader FsRead FsProofs FsSystem FsHooked DuoBackend DuoRequest.
From Stdlib Require Import ZArith Lia.
From stdpp Require Import base list gmap sets strings relations.
Open Scope lights3_scope.

(** * The pipelined digest *)

(** The bytes fed so far, hashed or not. *)
Definition md5_view (bufs : bytes * bytes) (p : Md5Pipe) : bytes :=
  md5_done p ++ match md5_pending p with Some (b, n) => take n (buf_of b bufs) | None => [] end.
(** The pool may still be reading the buffer that is not filled next. *)
Definition md5_safe (cur : bool) (p : Md5Pipe) : Prop := forall b n, md5_pending p = Some (b, n) -> b = negb cur.

Lemma buf_put_same cur c bufs : take (length c) (buf_of cur (buf_put cur c bufs)) = c.
Proof. destruct cur; cbn; by rewrite take_app_length. Qed.
Lemma buf_put_other cur c bufs : buf_of (negb cur) (buf_put cur c bufs) = buf_of (negb cur) bufs.
Proof. by destruct cur. Qed.
Lemma md5_await_view bufs p : md5_done (md5_await bufs p) = md5_view bufs p /\ md5_pending (md5_await bufs p) = None.
Proof. unfold md5_await, md5_view. destruct (md5_pending p) as [[b n]|] eqn:E; [done|]. by rewrite app_nil_r. Qed.
Lemma md5_put_view cur c bufs p : md5_safe cur p -> md5_view (buf_put cur c bufs) p = md5_view bufs p.
Proof. intros H. unfold md5_view. destruct (md5_pending p) as [[b n]|] eqn:E; [|done]. by rewrite (H _ _ E), buf_put_other. Qed.
Lemma md5_feed_view cur c bufs p :
  md5_safe cur p -> md5_view (buf_put cur c bufs) (md5_feed (buf_put cur c bufs) cur (length c) p) = md5_view bufs p ++ c /\ md5_safe (negb cur) (md5_feed (buf_put cur c bufs) cur (length c) p).
Proof.
  intros H. rewrite <- (md5_put_view cur c bufs p H). destruct (md5_await_view (buf_put cur c bufs) p) as [E1 E2]. unfold md5_feed. destruct (_ <? _)%Z; unfold md5_view at 1; cbn; rewrite E1, buf_put_same.
  - split; [by rewrite app_nil_r|]. by intros b n.
  - split; [done|]. intros b n [= <- _]. by rewrite negb_involutive.
Qed.

Create HintDb duo_sim.
Section handlers.
Context {M : Type} {hooks : FsHooks M} {ims : IMetaStore M} {mv : MetaView M} {R : Type} {reader : BodyReader R}.
Context (opt : FsDataOptions) (sys : nat -> option nat) (clock : nat -> Z) (busy : nat -> nat -> bool) {Hcs : FsOptionsOk opt}.
Context (md5_hex : bytes -> bytes) {law : MetaLaw M md5_hex} (hash : bytes -> nat) (wall : nat -> time_point) (env : nat -> Duo M -> Duo M) (me : nat).
Abbreviation D := (ST (Srv M) DuoErr).
Abbreviation Y := (DuoSys (M := M)).
Abbreviation step := (duo_step opt sys clock busy md5_hex).
Abbreviation inv := (duo_inv opt md5_hex).
Abbreviation metaof d := (hooked (du_fs d)).

(** The other requests take steps, none of them with this request's writer or reference. *)
Definition aside (y y' : Y) : Prop := y_writers y' !! me = y_writers y !! me /\ y_pend y' !! me = y_pend y !! me /\ (me ∈ y_doubt y' <-> me ∈ y_doubt y).
Context (Henv : forall n y, inv y -> exists y', rtc step y y' /\ y_duo y' = env n (y_duo y) /\ aside y y').

(** * Triples *)
Definition stable (P : Y -> Prop) : Prop := forall y y', rtc step y y' -> aside y y' -> P y -> P y'.
Definition sim {A} (P : Y -> Prop) (m : D A) (Q : res DuoErr A -> Y -> Prop) : Prop :=
  forall y s r s', inv y -> P y -> y_duo y = sv s -> m s = (r, s') -> exists y', rtc step y y' /\ y_duo y' = sv s' /\ Q r y'.

Definition Idle (y : Y) : Prop := y_writers y !! me = None /\ y_pend y !! me = None /\ me ∉ y_doubt y.
Definition Writing (w : DataWriter) (d : bytes) (y : Y) : Prop := y_writers y !! me = Some (w, d) /\ y_pend y !! me = None /\ me ∉ y_doubt y.
Definition Holding (ref : DataRef) (d : bytes) (y : Y) : Prop := y_writers y !! me = None /\ y_pend y !! me = Some (ref, d) /\ me ∉ y_doubt y.
(** At rest after a call: idle, unless the outcome of the commit is unknown. *)
Definition Rest {A} (r : res DuoErr A) (y : Y) : Prop := y_writers y !! me = None /\ y_pend y !! me = None /\ (me ∈ y_doubt y -> r = Throw DUndetermined).
(** It was so at some point since [y0]. *)
Definition Was (y0 : Y) (phi : Y -> Prop) (y : Y) : Prop := exists y1, rtc step y0 y1 /\ phi y1 /\ rtc step y1 y.
Definition And (P Q : Y -> Prop) (y : Y) : Prop := P y /\ Q y.

Lemma stable_idle : stable Idle.
Proof. intros y y' _ (H1 & H2 & H5) (H3 & H4 & H6). unfold Idle. by rewrite H1, H2, H5. Qed.
Lemma stable_writing w d : stable (Writing w d).
Proof. intros y y' _ (H1 & H2 & H5) (H3 & H4 & H6). unfold Writing. by rewrite H1, H2, H5. Qed.
Lemma stable_holding ref d : stable (Holding ref d).
Proof. intros y y' _ (H1 & H2 & H5) (H3 & H4 & H6). unfold Holding. by rewrite H1, H2, H5. Qed.
Lemma stable_rest {A} (r : res DuoErr A) : stable (Rest r).
Proof. intros y y' _ (H1 & H2 & H5) (H3 & H4 & H6). unfold Rest. by rewrite H1, H2, H5. Qed.
Lemma idle_rest {A} (r : res DuoErr A) y : Idle y -> Rest r y.
Proof. intros (H1 & H2 & H3). by split; [|split]. Qed.
Lemma stable_was y0 phi : stable (Was y0 phi).
Proof. intros y y' Hs _ (y1 & H1 & H2 & H3). exists y1. split; [done|]. split; [done|]. by transitivity y. Qed.
Lemma stable_and P Q : stable P -> stable Q -> stable (And P Q).
Proof. intros HP HQ y y' Hs Ha [H1 H2]. split; [by eapply HP|by eapply HQ]. Qed.
Hint Resolve stable_idle stable_writing stable_holding stable_rest stable_was stable_and : core.

Lemma sim_conseq {A} (P P' : Y -> Prop) (m : D A) (Q Q' : res DuoErr A -> Y -> Prop) :
  sim P m Q -> (forall y, P' y -> P y) -> (forall r y, Q r y -> Q' r y) -> sim P' m Q'.
Proof. intros H HP HQ y s r s' Hi Hp Hy E. destruct (H y s r s' Hi (HP _ Hp) Hy E) as (y' & H1 & H2 & H3). exists y'. auto. Qed.
Lemma sim_bind {A B} P (m : D A) (f : A -> D B) (Q : A -> Y -> Prop) (Q' : res DuoErr B -> Y -> Prop) :
  sim P m (λ r y, match r with Ok a => Q a y | Throw e => Q' (Throw e) y end) -> (forall a, sim (Q a) (f a) Q') -> sim P (m ≫= f) Q'.
Proof.
  intros Hm Hf y s r s' Hi Hp Hy E. rewrite ST_bind_eq in E. destruct (m s) as [[a|e] s1] eqn:Em; destruct (Hm y s _ s1 Hi Hp Hy Em) as (y1 & H1 & H2 & H3).
  - destruct (Hf a y1 s1 r s') as (y2 & H4 & H5 & H6); [by eapply duo_steps_inv|done|done|done|]. exists y2. split; [by transitivity y1|done].
  - injection E as <- <-. by exists y1.
Qed.
Lemma sim_ret {A} P (a : A) (Q : res DuoErr A -> Y -> Prop) : (forall y, P y -> Q (Ok a) y) -> sim P (mret a) Q.
Proof. intros H y s r s' Hi Hp Hy [= <- <-]. exists y. auto using rtc_refl. Qed.
Lemma sim_throw {A} P e (Q : res DuoErr A -> Y -> Prop) : (forall y, P y -> Q (Throw e) y) -> sim P (throw e) Q.
Proof. intros H y s r s' Hi Hp Hy [= <- <-]. exists y. auto using rtc_refl. Qed.
Lemma sim_check {A} P (r0 : result A) (Q : res DuoErr A -> Y -> Prop) :
  (forall a y, r0 = Ok a -> P y -> Q (Ok a) y) -> (forall c y, P y -> Q (Throw (DErr c)) y) -> sim P (check r0) Q.
Proof. intros H1 H2 y s r s' Hi Hp Hy [= <- <-]. exists y. split; [apply rtc_refl|]. split; [done|]. destruct r0; auto. Qed.
Lemma sim_now P (Q : res DuoErr time_point -> Y -> Prop) : (forall t y, P y -> Q (Ok t) y) -> sim P (now wall) Q.
Proof. intros H y s r s' Hi Hp Hy [= <- <-]. exists y. auto using rtc_refl. Qed.
Lemma sim_finally {A} P (m : D A) (fin : D unit) (Q : res DuoErr A -> Y -> Prop) (Q' : res DuoErr A -> Y -> Prop) :
  sim P m Q -> (forall r, sim (Q r) fin (λ _, Q' r)) -> sim P (finally m fin) Q'.
Proof.
  intros Hm Hf y s r s' Hi Hp Hy E. unfold finally in E. destruct (m s) as [r1 s1] eqn:Em. injection E as <- <-. destruct (Hm y s r1 s1 Hi Hp Hy Em) as (y1 & H1 & H2 & H3).
  destruct (fin s1) as [r2 s2] eqn:Ef. destruct (Hf r1 y1 s1 r2 s2) as (y2 & H4 & H5 & H6); [by eapply duo_steps_inv|done|done|done|]. exists y2. split; [by transitivity y1|done].
Qed.
Lemma sim_try P (m : D unit) (Q : Y -> Prop) : sim P m (λ _, Q) -> sim P (try_ m) (λ _, Q).
Proof. intros H y s r s' Hi Hp Hy [= <- <-]. destruct (m s) as [r1 s1] eqn:Em. by eapply (H y s r1 s1). Qed.

(** A call: the others, then its own steps. *)
Lemma sim_shared {A} (P : Y -> Prop) (f : Duo M -> res DuoErr A * Duo M) (Q : res DuoErr A -> Y -> Prop) :
  stable P -> (forall y, inv y -> P y -> exists y', rtc step y y' /\ y_duo y' = (f (y_duo y)).2 /\ Q (f (y_duo y)).1 y') -> sim P (shared env f) Q.
Proof.
  intros HP Hf y s r s' Hi Hp Hy E. unfold shared in E. rewrite <- Hy in E. destruct (Henv (tk s) y Hi) as (y1 & H1 & H2 & H3). rewrite <- H2 in E.
  destruct (Hf y1) as (y2 & H4 & H5 & H6); [by eapply duo_steps_inv|by eapply HP|]. destruct (f (y_duo y1)) as [r1 d1]. injection E as <- <-. exists y2. split; [by transitivity y1|done].
Qed.
(** A call that leaves the records and the disk alone. *)
Definition quiet (d d' : Duo M) : Prop := exists m t, du_fs d' = set_hooked m (set_pins t (du_fs d)) /\ same_view (metaof d) m.
Lemma sim_quiet {A} (P : Y -> Prop) (f : Duo M -> res DuoErr A * Duo M) (Q : res DuoErr A -> Y -> Prop) :
  stable P -> (forall d, quiet d (f d).2) -> (forall y y', step y y' -> aside y y' -> y_duo y' = (f (y_duo y)).2 -> P y -> P y' -> Q (f (y_duo y)).1 y') -> sim P (shared env f) Q.
Proof.
  intros HP Hf HQ. apply sim_shared; [done|]. intros [d ws ps dt] Hi Hp. cbn. destruct (Hf d) as (m & t & H1 & H2). exists (mkDuoSys (f d).2 ws ps dt).
  assert (step (mkDuoSys d ws ps dt) (mkDuoSys (f d).2 ws ps dt)) as Hs by (by eapply YQuiet). assert (aside (mkDuoSys d ws ps dt) (mkDuoSys (f d).2 ws ps dt)) as Ha by done.
  split; [by apply rtc_once|]. split; [done|]. apply (HQ _ _ Hs Ha); [done|done|]. eapply HP; [by apply rtc_once|done|done].
Qed.
Lemma quiet_aside d d' : du_fs d' = du_fs d -> quiet d d'.
Proof. intros E. exists (metaof d), (fs_pins (du_fs d)). split; [rewrite E; by destruct (du_fs d)|done]. Qed.
Lemma quiet_pins d t : quiet d (set_fs (set_pins t (du_fs d)) d).
Proof. exists (metaof d), t. split; [|done]. by destruct d as [[]]. Qed.
Lemma quiet_meta {A} (g : M -> res MetaErr A * M) d : same_view (metaof d) (g (metaof d)).2 -> quiet d (on_meta g d).2.
Proof. intros H. unfold on_meta. destruct (g (metaof d)) as [r m]. exists m, (fs_pins (du_fs d)). split; [cbn; by destruct (du_fs d)|done]. Qed.

(** A call of the store that keeps the view, and one of the guards. *)
Lemma sim_meta_read {A} (P : Y -> Prop) (g : M -> res MetaErr A * M) : stable P -> (forall m, same_view m (g m).2) -> sim P (meta env g) (λ _, P).
Proof. intros HP Hg. apply sim_quiet; [done|intros d; by apply quiet_meta|done]. Qed.
Lemma sim_update (P : Y -> Prop) f : stable P -> (forall d, quiet d (f d)) -> sim P (update env f) (λ _, P).
Proof. intros HP Hf. by apply sim_quiet. Qed.
Lemma sim_aside {A} (P : Y -> Prop) (f : Duo M -> res DuoErr A * Duo M) : stable P -> (forall d, du_fs (f d).2 = du_fs d) -> sim P (shared env f) (λ _, P).
Proof. intros HP Hf. apply sim_quiet; [done|intros d; by apply quiet_aside|done]. Qed.

(** * The guards *)
Lemma sim_ticket (P : Y -> Prop) : stable P -> sim P (write_ticket wall env) (λ _, P).
Proof. intros HP. apply (sim_bind _ _ _ (λ _, P)); [by apply sim_now|]. intros t. by apply sim_aside. Qed.
Lemma sim_end_write (P : Y -> Prop) i : stable P -> sim P (end_write env i) (λ _, P).
Proof. intros HP. by apply sim_aside. Qed.
Lemma sim_release (P : Y -> Prop) ref : stable P -> sim P (release_pins env ref) (λ _, P).
Proof. intros HP. apply sim_update; [done|]. intros d. apply quiet_pins. Qed.
Lemma sim_invalidate (P : Y -> Prop) b k : stable P -> sim P (invalidate_key hash env b k) (λ _, P).
Proof. intros HP. by apply sim_aside. Qed.
Lemma sim_require_bucket (P : Y -> Prop) b : stable P -> sim P (require_bucket env b) (λ _, P).
Proof. intros HP. apply (sim_bind _ _ _ (λ _, P)); [eapply sim_conseq; [apply sim_meta_read; [done|apply law_bucket_exists]|done|by intros []]|]. intros []; [by apply sim_ret|by apply sim_throw]. Qed.

(** * The writer *)
Lemma sim_write w d buf : sim (Writing w d) (write_block opt sys env buf w) (λ r, match r with Ok w' => Writing w' (d ++ buf) | Throw _ => Idle end).
Proof.
  apply sim_shared; [done|]. intros [du ws ps dt] Hi (Hw & Hp & Hq). cbn in *. destruct (writer_write opt sys buf (du_fs du, w)) as [r [f w']] eqn:E.
  pose proof (YWrite opt sys clock busy md5_hex me w d buf r f w' du ws ps dt Hw E) as Hs. eexists. split; [apply rtc_once, Hs|]. destruct r as [u|c]; cbn; (split; [done|]); (split; [|done]); cbn; [apply lookup_insert_eq|apply lookup_delete_eq].
Qed.
Lemma sim_finish w d : sim (Writing w d) (finish_writer opt sys clock busy env w) (λ r, match r with Ok ref => Holding ref d | Throw _ => Idle end).
Proof.
  apply sim_shared; [done|]. intros [du ws ps dt] Hi (Hw & Hp & Hq). cbn in *. destruct (writer_finish opt sys clock busy (du_fs du, w)) as [r [f w']] eqn:E.
  pose proof (YFinish opt sys clock busy md5_hex me w d r f w' du ws ps dt Hw Hp E) as Hs. eexists. split; [apply rtc_once, Hs|]. destruct r as [u|c]; cbn; (split; [done|]); (split; [apply lookup_delete_eq|]); split; cbn; try done. apply lookup_insert_eq.
Qed.
Lemma sim_drop w d : sim (Writing w d) (drop_writer sys env w) (λ _, Idle).
Proof.
  apply sim_shared; [done|]. intros [du ws ps dt] Hi (Hw & Hp & Hq). cbn in *. eexists. split; [by apply rtc_once, (YDrop opt sys clock busy md5_hex me w d du ws ps dt)|].
  unfold on_data. destruct (writer_discard sys w (du_fs du)) as [r f]. split; [done|]. split; [cbn; apply lookup_delete_eq|done].
Qed.

Lemma sim_pump_loop fuel body bufs cur p w d :
  md5_view bufs p = d -> md5_safe cur p ->
  sim (Writing w d) (pump_loop opt sys env fuel body bufs cur p w)
    (λ r y, match r with
            | Ok (h, w') => exists b, read_all (repeat kChunk fuel) body = (b, Ok tt) /\ h = d ++ b /\ Writing w' h y
            | Throw _ => Idle y end).
Proof.
  revert body bufs cur p w d. induction fuel as [|fuel IH]; intros body bufs cur p w d Hd Hs; cbn [pump_loop].
  - apply (sim_bind _ _ _ (λ _, Idle)); [|intros u; by apply sim_throw]. eapply sim_conseq; [apply sim_try, (sim_drop w d)|done|by intros []].
  - cbn [repeat read_all]. destruct (br_read kChunk body) as [[[|x c]|e] body'] eqn:Er.
    + apply sim_ret. intros y Hy. destruct (md5_await_view bufs p) as [-> _]. exists []. rewrite app_nil_r, Hd. done.
    + set (ch := x :: c) in *. destruct (md5_feed_view cur ch bufs p Hs) as [F1 F2]. rewrite buf_put_same. apply (sim_bind _ _ _ (λ w', Writing w' (d ++ ch))).
      * eapply sim_conseq; [apply (sim_write w d)|done|]. by intros [] y.
      * intros w'. eapply sim_conseq; [apply (IH body' (buf_put cur ch bufs) (negb cur) (md5_feed (buf_put cur ch bufs) cur (length ch) p) w' (d ++ ch)); [by rewrite F1, Hd|done]|done|].
        intros [[h w'']|e] y; [|done]. intros (b & E1 & -> & Hw). exists (ch ++ b). rewrite E1, <- app_assoc. rewrite <- app_assoc in Hw. done.
    + apply (sim_bind _ _ _ (λ _, Idle)); [|intros u; by apply sim_throw]. eapply sim_conseq; [apply sim_try, (sim_drop w d)|done|by intros []].
Qed.

Lemma sim_open {A} len owner (m : D A) Q : sim (Writing (open_writer opt len owner) []) m Q -> sim Idle m Q.
Proof.
  intros H [du ws ps dt] s r s' Hi (Hw & Hp & Hq) Hy E. cbn in *. set (y1 := mkDuoSys du (<[me := (open_writer opt len owner, [])]> ws) ps dt).
  assert (step (mkDuoSys du ws ps dt) y1) as Hs by (by apply YOpen). destruct (H y1 s r s') as (y' & H1 & H2 & H3); [by eapply duo_step_inv|split; [apply lookup_insert_eq|done]|done|done|].
  exists y'. split; [by eapply rtc_l|done].
Qed.
(** The body is on its way to the disk, with its digest. *)
Definition Pumping (fuel : nat) (body : R) (p : Pumped) (y : Y) : Prop :=
  exists b, read_all (repeat kChunk fuel) body = (b, Ok tt) /\ pu_md5 p = md5_hex b /\ Holding (pu_ref p) b y.
Lemma sim_pump fuel junk body owner :
  sim Idle (pump_body opt sys clock busy md5_hex env fuel junk body owner) (λ r, match r with Ok p => Pumping fuel body p | Throw _ => Idle end).
Proof.
  unfold pump_body. eapply (sim_open (br_length body) owner). eapply (sim_bind _ _ _ (λ x y, exists b, read_all (repeat kChunk fuel) body = (b, Ok tt) /\ x.1 = b /\ Writing x.2 x.1 y)); [eapply sim_conseq; [eapply (sim_pump_loop fuel body junk false md5_start _ []); done|done|by intros [[h w]|e] y H]|].
  intros [h w]. cbn [fst snd]. intros y s r s' Hi (b & E1 & -> & Hw) Hy E. revert y s r s' Hi Hw Hy E. cbn [app]. change (sim (Writing w b) (ref ← finish_writer opt sys clock busy env w; mret (mkPumped ref (md5_hex b))) (λ r, match r with Ok p => Pumping fuel body p | Throw _ => Idle end)).
  apply (sim_bind _ _ _ (λ ref, Holding ref b)); [eapply sim_conseq; [apply (sim_finish w b)|done|by intros []]|]. intros ref. apply sim_ret. intros y Hy. by exists b.
Qed.

(** * Facts of the past *)
Definition durable (F : Y -> Prop) : Prop := forall y y', rtc step y y' -> F y -> F y'.
Lemma durable_stable F : durable F -> stable F.
Proof. intros H y y' Hs _. by apply H. Qed.
Lemma sim_frame {A} F P (m : D A) Q : durable F -> sim P m Q -> sim (And P F) m (λ r, And (Q r) F).
Proof. intros HF H y s r s' Hi [Hp Hf] Hy E. destruct (H y s r s' Hi Hp Hy E) as (y' & H1 & H2 & H3). exists y'. split; [done|]. split; [done|]. split; [done|]. by eapply HF. Qed.
Definition Since (y0 y : Y) : Prop := rtc step y0 y.
(** The store has the bytes of the reference. *)
Definition holds (y : Y) (ref : DataRef) (d : bytes) : Prop := exists rs, duo_at opt md5_hex rs y /\ (ref, d) ∈ rs.
(** A commit of [ref], which stands for [d], that did [done] to the view. *)
Definition Committed (y0 : Y) (ref : DataRef) (d : bytes) (done : M -> M -> Prop) (y : Y) : Prop :=
  exists y1 y2, rtc step y0 y1 /\ step y1 y2 /\ done (metaof (y_duo y1)) (metaof (y_duo y2)) /\ holds y2 ref d /\ rtc step y2 y.
Lemma durable_since y0 : durable (Since y0).
Proof. intros y y' Hs Hy. unfold Since in *. by transitivity y. Qed.
Lemma durable_committed y0 ref d done : durable (Committed y0 ref d done).
Proof. intros y y' Hs (y1 & y2 & H1 & H2 & H3 & H4 & H5). exists y1, y2. repeat (split; [done|]). by transitivity y. Qed.
Hint Resolve durable_since durable_committed durable_stable : core.

Lemma holding_holds ref d y : inv y -> Holding ref d y -> holds y ref d.
Proof. intros [rs Hrs] (_ & Hp & _). exists rs. split; [done|]. exact (da_pend _ _ _ _ Hrs _ _ Hp). Qed.
Lemma holds_step ref d y y' : holds y ref d -> step y y' -> refd (metaof (y_duo y')) ref -> holds y' ref d.
Proof. intros (rs & Hy & Hin) Hs Hr. destruct (duo_step_next _ _ _ _ _ rs y y' Hs Hy) as (rs' & Hy' & Hc). exists rs'. split; [done|]. by apply Hc. Qed.

(** * Commits *)
Lemma outcome_mono {A} (r : res MetaErr A) (P P' S S' : Prop) : outcome r P S -> (P -> P') -> (S -> S') -> outcome r P' S'.
Proof. destruct r as [|[]]; cbn; tauto. Qed.
Lemma sim_discard ref d : sim (Holding ref d) (try_ (shared env (on_data (FsData.remove sys ref)))) (λ _, Idle).
Proof.
  apply sim_try, sim_shared; [done|]. intros [du ws ps dt] _ (Hw & Hpd & Hq). cbn in *. unfold on_data. destruct (FsData.remove sys ref (du_fs du)) as [ro f] eqn:Er. eexists. split; [by apply rtc_once, (YDiscard opt sys clock busy md5_hex me ref d ro f)|].
  split; [done|]. split; [done|]. split; [cbn; apply lookup_delete_eq|done].
Qed.
Lemma sim_commit y0 ref d (g : M -> res MetaErr unit * M) (done : M -> M -> Prop) :
  (forall m, outcome (g m).1 (done m (g m).2) (same_view m (g m).2)) ->
  (forall du m ws ps dt, ps !! me = Some (ref, d) -> done (metaof du) m -> step (mkDuoSys du ws ps dt) (mkDuoSys (set_meta m du) ws (delete me ps) dt)) ->
  (forall m m', done m m' -> refd m' ref) ->
  sim (And (Holding ref d) (Since y0)) (commit_or_discard sys env ref (meta env g)) (λ r y, Rest r y /\ (r = Ok tt -> Committed y0 ref d done y)).
Proof.
  intros Hg Hstep Href. assert (sim (And (Holding ref d) (Since y0)) (meta env g)
    (λ r y, match r with Ok _ => Idle y /\ Committed y0 ref d done y | Throw DUndetermined => Rest (A := unit) (Throw DUndetermined) y | Throw _ => Holding ref d y end)) as Hm.
  { apply sim_shared; [eauto|]. intros [du ws ps dt] Hi [Hh Hs]. pose proof (holding_holds _ _ _ Hi Hh) as Hsec. destruct Hh as (Hw & Hp & Hnd). cbn in *. specialize (Hg (metaof du)). unfold on_meta. destruct (g (metaof du)) as [r m]. cbn in *.
    change (set_fs (set_hooked m (du_fs du)) du) with (set_meta m du).
    assert (Idle (mkDuoSys (set_meta m du) ws (delete me ps) dt)) as Hidle by (split; [done|]; split; [apply lookup_delete_eq|done]).
    assert (same_view (metaof du) m -> step (mkDuoSys du ws ps dt) (mkDuoSys (set_meta m du) ws ps dt)) as Hq.
    { intros Hv. apply (YQuiet _ _ _ _ _ _ _ m (fs_pins (du_fs du))); [cbn; by destruct (du_fs du)|done]. }
    assert (done (metaof du) m -> rtc step (mkDuoSys du ws ps dt) (mkDuoSys (set_meta m du) ws (delete me ps) dt)) as Hd by (intros Hd; apply rtc_once; by apply Hstep).
    destruct r as [[]|[c|]]; cbn in Hg.
    - eexists. split; [by apply Hd|]. split; [done|]. split; [done|]. exists (mkDuoSys du ws ps dt), (mkDuoSys (set_meta m du) ws (delete me ps) dt). split; [done|]. split; [by apply Hstep|]. split; [done|]. split; [|apply rtc_refl].
      eapply holds_step; [exact Hsec|by apply Hstep|by eapply Href].
    - eexists. split; [apply rtc_once, Hq, Hg|]. split; [done|]. done.
    - destruct Hg as [Hg|Hg]; [eexists; split; [by apply Hd|]; split; [done|by apply idle_rest]|]. exists (mkDuoSys (set_meta m du) ws (delete me ps) ({[me]} ∪ dt)).
      split; [eapply rtc_l; [by apply Hq|]; apply rtc_once, YDoubt|]. split; [done|]. split; [done|]. split; [apply lookup_delete_eq|done]. }
  intros y s r s' Hi Hp Hy E. unfold commit_or_discard in E. destruct (meta env g s) as [r1 s1] eqn:Em. destruct (Hm y s r1 s1 Hi Hp Hy Em) as (y1 & H1 & H2 & H3).
  assert (forall e, Holding ref d y1 -> (Throw e, (try_ (shared env (on_data (FsData.remove sys ref))) s1).2) = (r, s') -> exists y', rtc step y y' /\ y_duo y' = sv s' /\ Rest r y' /\ (r = Ok tt -> Committed y0 ref d done y')) as Hdis.
  { intros e Hh [= <- <-]. destruct (sim_discard ref d y1 s1 (Ok tt) (try_ (shared env (on_data (FsData.remove sys ref))) s1).2) as (y2 & H4 & H5 & H6); [by eapply duo_steps_inv|done|done|done|]. exists y2. split; [by transitivity y1|]. split; [done|]. split; [by apply idle_rest|done]. }
  destruct r1 as [[]|e]; [injection E as <- <-; destruct H3 as [H3 H4]; exists y1; split; [done|]; split; [done|]; split; [by apply idle_rest|done]|]. destruct e; try (by eapply Hdis). injection E as <- <-. exists y1. naive_solver.
Qed.

(** * What a write stored *)

(** The answer, and that the body behind it was committed. *)
Definition Stored {A} (y0 : Y) (fuel : nat) (body : R) (says : A -> DataRef -> bytes -> Prop) (done : DataRef -> bytes -> M -> M -> Prop) (r : res DuoErr A) (y : Y) : Prop :=
  Rest r y /\ forall a, r = Ok a -> exists d ref, read_all (repeat kChunk fuel) body = (d, Ok tt) /\ says a ref d /\ Committed y0 ref d (done ref d) y.
Lemma stable_stored {A} y0 fuel body says done (r : res DuoErr A) : stable (Stored y0 fuel body says done r).
Proof. intros y y' Hs Ha [H1 H2]. split; [by eapply stable_rest|]. intros a Hr. destruct (H2 a Hr) as (d & ref & E & H3 & H4). exists d, ref. split; [done|]. split; [done|]. by eapply durable_committed. Qed.
Hint Resolve stable_stored : core.
Lemma sim_guard {A} P (m : D A) fin (Q : res DuoErr A -> Y -> Prop) :
  (forall r, stable (Q r)) -> (forall P', stable P' -> sim P' fin (λ _, P')) -> sim P m Q -> sim P (finally m fin) Q.
Proof. intros HQ Hf Hm. eapply sim_finally; [exact Hm|]. intros r. by apply Hf. Qed.
(** Steps of a handler before it has anything to lose. *)
Lemma sim_pre {A B} (P : Y -> Prop) (m : D A) (f : A -> D B) Q :
  sim P m (λ _, P) -> (forall e y, P y -> Q (Throw e) y) -> (forall a, sim P (f a) Q) -> sim P (m ≫= f) Q.
Proof. intros Hm HQ Hf. apply (sim_bind _ _ _ (λ _, P)); [|done]. eapply sim_conseq; [exact Hm|done|]. intros [] y Hy; [done|by apply HQ]. Qed.
Lemma sim_pure {A} (P : Y -> Prop) (r : result A) : sim P (check r) (λ _, P).
Proof. by apply sim_check. Qed.
Lemma sim_time (P : Y -> Prop) : sim P (now wall) (λ _, P).
Proof. by apply sim_now. Qed.
Lemma stored_throw {A} y0 fuel body says done e y : Idle y -> Stored (A := A) y0 fuel body says done (Throw e) y.
Proof. intros H. split; [by apply idle_rest|by intros ? [=]]. Qed.
(** The body is written, then the rest of the handler commits it. *)
Lemma sim_pumped {A} y0 fuel junk body owner (rest : Pumped -> D A) says done :
  (forall p b, read_all (repeat kChunk fuel) body = (b, Ok tt) -> pu_md5 p = md5_hex b -> sim (And (Holding (pu_ref p) b) (Since y0)) (rest p) (Stored y0 fuel body says done)) ->
  sim (And Idle (Since y0)) (p ← pump_body opt sys clock busy md5_hex env fuel junk body owner; finally (rest p) (release_pins env (pu_ref p))) (Stored y0 fuel body says done).
Proof.
  intros Hr. apply (sim_bind _ _ _ (λ p, And (Pumping fuel body p) (Since y0))).
  - eapply sim_conseq; [apply (sim_frame (Since y0)); [done|apply sim_pump]|done|]. intros [p|e] y [H1 H2]; [done|by apply stored_throw].
  - intros p. apply sim_guard; [eauto|intros; by apply sim_release|]. intros y s r s' Hi [(b & E & Hd & Hh) Hs]. by apply (Hr p b E Hd).
Qed.
(** The commit, and the answer after it. *)
Lemma sim_commit_then {A} y0 fuel body says done ref d (g : M -> res MetaErr unit * M) (a : A) :
  read_all (repeat kChunk fuel) body = (d, Ok tt) -> says a ref d ->
  (forall m, outcome (g m).1 (done ref d m (g m).2) (same_view m (g m).2)) ->
  (forall du m ws ps dt, ps !! me = Some (ref, d) -> done ref d (metaof du) m -> step (mkDuoSys du ws ps dt) (mkDuoSys (set_meta m du) ws (delete me ps) dt)) ->
  (forall m m', done ref d m m' -> refd m' ref) ->
  sim (And (Holding ref d) (Since y0)) (_ ← commit_or_discard sys env ref (meta env g); mret a) (Stored y0 fuel body says done).
Proof.
  intros E Hs Hg Hst Href. apply (sim_bind _ _ _ (λ _ y, Rest (Ok a) y /\ Committed y0 ref d (done ref d) y)); [eapply sim_conseq; [by apply (sim_commit y0 ref d g (done ref d))|done|]|].
  - intros [[]|e] y [(H1 & H3 & H4) H2]; [split; [|by apply H2]|split; [|done]]; (split; [done|]); (split; [done|]); intros Hd; by specialize (H4 Hd); simplify_eq.
  - intros u. apply sim_ret. intros y [H1 H2]. split; [done|]. intros ? [= <-]. by exists d, ref.
Qed.

(** The object is the record of the body. *)
Definition put_stored (b k : bytes) (ref : DataRef) (d : bytes) (m m' : M) : Prop :=
  exists rec, put_claim md5_hex ref d rec /\ tier (or_tier rec) = kLocal /\ put_view m m' b k rec.
Lemma sim_put y0 fuel junk b k om body cond :
  sim (And Idle (Since y0)) (put_object opt sys clock busy md5_hex hash wall env fuel junk b k om body cond)
    (Stored y0 fuel body (λ p _ d, put_etag p = md5_hex d) (put_stored b k)).
Proof.
  unfold put_object. set (P := And Idle (Since y0)). assert (stable P) as HP by (unfold P; eauto). set (Q := Stored _ _ _ _ _). assert (forall e y, P y -> Q (Throw e) y) as HQ by (intros e y [? _]; by apply stored_throw).
  do 2 (apply sim_pre; [apply sim_pure|done|intros _]). apply sim_pre; [by apply sim_require_bucket|done|intros _]. apply sim_pre; [by apply sim_ticket|done|intros wt].
  apply sim_guard; [intros; apply stable_stored|intros; by apply sim_end_write|]. apply sim_pre; [apply sim_pure|done|intros owner]. eapply sim_pumped. intros p d E Hd.
  set (H := And (Holding (pu_ref p) d) (Since y0)). apply (sim_bind _ _ _ (λ _, H)); [by apply sim_now|intros t]. apply (sim_bind _ _ _ (λ _, H)); [by apply sim_now|intros t2].
  apply sim_guard; [intros; apply stable_stored|intros; by apply sim_invalidate|]. apply sim_commit_then; [done|done| | |].
  - intros m. eapply outcome_mono; [apply (law_put b k)| |done]. intros Hv. eexists. split; [|split; [|exact Hv]]; [split; [done|]|done]. split; [done|]. split; [done|]. by intros _.
  - intros du m ws ps dt Hp (rec & H1 & _ & H3). by eapply YCommit.
  - intros m m' (rec & (<- & _) & _ & ((rec' & Hr & <- & _) & _)). by eapply refd_object.
Qed.

(** A part of the upload is the record of the body. *)
Definition part_stored (b k id : bytes) (n : Z) (ref : DataRef) (d : bytes) (m m' : M) : Prop :=
  exists p, part_claim md5_hex ref d p /\ pr_part_no p = n /\ pr_size p = data_total ref /\ part_view m m' b k id p.
Lemma sim_upload_part y0 fuel junk b k id n body ck :
  sim (And Idle (Since y0)) (upload_part opt sys clock busy md5_hex wall env fuel junk b k id n body ck)
    (Stored y0 fuel body (λ p _ d, put_etag p = md5_hex d) (part_stored b k id n)).
Proof.
  unfold upload_part. set (P := And Idle (Since y0)). assert (stable P) as HP by (unfold P; eauto). set (Q := Stored _ _ _ _ _). assert (forall e y, P y -> Q (Throw e) y) as HQ by (intros e y [? _]; by apply stored_throw).
  do 2 (apply sim_pre; [apply sim_pure|done|intros _]). apply sim_pre; [apply sim_meta_read; [done|apply law_require_upload]|done|intros _]. apply sim_pre; [by apply sim_ticket|done|intros wt].
  apply sim_guard; [intros; apply stable_stored|intros; by apply sim_end_write|]. eapply sim_pumped. intros p d E Hd.
  set (H := And (Holding (pu_ref p) d) (Since y0)). apply (sim_bind _ _ _ (λ _, H)); [by apply sim_now|intros t]. apply (sim_bind _ _ _ (λ _, H)); [by apply sim_now|intros t2].
  apply sim_commit_then; [done|done| | |].
  - intros m. eapply outcome_mono; [apply (law_put_part b k id)| |done]. intros Hv. eexists. split; [|split; [|split; [|exact Hv]]]; done.
  - intros du m ws ps dt Hp (rec & H1 & _ & _ & H3). by eapply YPart.
  - intros m m' (q & (<- & _) & _ & _ & (_ & Hq & _)). by eapply refd_part.
Qed.

(** The object is a record of the body for the tier. *)
Definition cache_stored (b k : bytes) (om : ObjectMeta) (ts : TierState) (ref : DataRef) (d : bytes) (m m' : M) : Prop :=
  data_total ref = osize om /\ put_view m m' b k (mkObjectRec (set_okey k om) ref 0 ts).
Lemma sim_cached y0 fuel junk b k body om ts :
  tier ts = kCached ->
  sim (And Idle (Since y0)) (tier_commit_cached opt sys clock busy md5_hex hash wall env fuel junk b k body om ts)
    (Stored y0 fuel body (λ _ _ _, True) (cache_stored b k om ts)).
Proof.
  intros Hts. unfold tier_commit_cached. set (P := And Idle (Since y0)). assert (stable P) as HP by (unfold P; eauto). set (Q := Stored _ _ _ _ _). assert (forall e y, P y -> Q (Throw e) y) as HQ by (intros e y [? _]; by apply stored_throw).
  apply sim_pre; [by apply sim_ticket|done|intros wt]. apply sim_guard; [intros; apply stable_stored|intros; by apply sim_end_write|]. apply sim_pre; [apply sim_pure|done|intros owner]. eapply sim_pumped. intros p d E Hd.
  destruct (data_total (pu_ref p) =? osize om)%Z eqn:El; cbn [negb].
  - set (H := And (Holding (pu_ref p) d) (Since y0)). apply (sim_bind _ _ _ (λ _, H)); [by apply sim_now|intros t]. apply sim_guard; [intros; apply stable_stored|intros; by apply sim_invalidate|].
    eapply sim_conseq; [apply (sim_commit y0 (pu_ref p) d _ (cache_stored b k om ts (pu_ref p) d))|done|].
    + intros m. eapply outcome_mono; [apply (law_put b k)| |done]. intros Hv. split; [lia|exact Hv].
    + intros du m ws ps dt Hp [Hz Hv]. eapply YCommit; [exact Hp| |exact Hv]. split; [done|]. cbn. rewrite Hts. split; [done|]. split; [by rewrite Hz|done].
    + intros m m' [_ ((rec' & Hr & Hd' & _) & _)]. cbn in Hd'. rewrite <- Hd'. by eapply refd_object.
    + intros r y [H1 H2]. split; [done|]. intros [] ->. exists d, (pu_ref p). auto.
  - apply (sim_bind _ _ _ (λ _, Idle)); [|intros u; apply sim_throw; intros y Hy; by apply stored_throw].
    eapply sim_conseq; [apply (sim_discard (pu_ref p) d)|by intros y [? _]|intros [u|e] y Hy; [done|by apply stored_throw]].
Qed.

(** * The other handlers *)
(** A call that is a step of its own. *)
Lemma sim_step {A} (P : Y -> Prop) (g : M -> res MetaErr A * M) :
  stable P -> (forall du ws ps dt, step (mkDuoSys du ws ps dt) (mkDuoSys (set_meta (g (metaof du)).2 du) ws ps dt)) -> sim P (meta env g) (λ _, P).
Proof.
  intros HP Hg. apply sim_shared; [done|]. intros [du ws ps dt] Hi Hp. cbn. exists (mkDuoSys (set_meta (g (metaof du)).2 du) ws ps dt). split; [by apply rtc_once|]. unfold on_meta. split; [by destruct (g (metaof du))|].
  eapply HP; [apply rtc_once, Hg|done|done].
Qed.
Lemma sim_fewer {A} (P : Y -> Prop) (g : M -> res MetaErr A * M) : stable P -> (forall m, fewer m (g m).2) -> sim P (meta env g) (λ _, P).
Proof. intros HP Hg. apply sim_step; [done|]. intros du ws ps dt. by apply YFewer. Qed.
(** A call that does [done] or nothing. *)
Lemma sim_outcome {A} (P : Y -> Prop) (g : M -> res MetaErr A * M) (done : M -> M -> Prop) :
  stable P -> (forall m, outcome (g m).1 (done m (g m).2) (same_view m (g m).2)) ->
  (forall du m ws ps dt, done (metaof du) m -> step (mkDuoSys du ws ps dt) (mkDuoSys (set_meta m du) ws ps dt)) -> sim P (meta env g) (λ _, P).
Proof.
  intros HP Hg Hd. apply sim_step; [exact HP|]. intros du ws ps dt. assert (same_view (metaof du) (g (metaof du)).2 -> step (mkDuoSys du ws ps dt) (mkDuoSys (set_meta (g (metaof du)).2 du) ws ps dt)) as Hq.
  { intros Hv. apply (YQuiet _ _ _ _ _ _ _ (g (metaof du)).2 (fs_pins (du_fs du))); [cbn; by destruct (du_fs du)|exact Hv]. }
  specialize (Hg (metaof du)). destruct (g (metaof du)) as [[a|[c|]] m]; cbn in *; [by apply Hd|by apply Hq|]. destruct Hg as [Hg|Hg]; [by apply Hd|by apply Hq].
Qed.

Lemma sim_keep {A B} (P : Y -> Prop) (m : D A) (f : A -> D B) : sim P m (λ _, P) -> (forall a, sim P (f a) (λ _, P)) -> sim P (m ≫= f) (λ _, P).
Proof. intros Hm Hf. by apply sim_pre. Qed.
Lemma sim_done {A} (P : Y -> Prop) (a : A) : sim P (mret a) (λ _, P).
Proof. by apply sim_ret. Qed.
Lemma sim_fail {A} (P : Y -> Prop) e : sim (A := A) P (throw e) (λ _, P).
Proof. by apply sim_throw. Qed.
Hint Resolve sim_keep sim_done sim_fail sim_pure sim_time sim_require_bucket : duo_sim.

Section calm.
Context (P : Y -> Prop) (HP : stable P).
Lemma sim_lookup b k : sim P (cache_lookup hash wall env b k) (λ _, P).
Proof. apply sim_keep; [apply sim_time|]. intros t. by apply sim_aside. Qed.
Lemma sim_token b k : sim P (cache_token hash env b k) (λ _, P).
Proof. by apply sim_aside. Qed.
Lemma sim_insert tok b k v : sim P (cache_insert hash wall env tok b k v) (λ _, P).
Proof. apply sim_keep; [apply sim_time|]. intros t. by apply sim_aside. Qed.
Lemma sim_require_object b k : sim P (require_object env b k) (λ _, P).
Proof. apply sim_keep; [apply sim_meta_read; [done|apply law_get]|]. intros []; auto with duo_sim. Qed.
Lemma sim_load b k : sim P (load_record hash wall env b k) (λ _, P).
Proof.
  apply sim_keep; [apply sim_lookup|]. intros [[[rec []]|] tk]; cbn [fst snd]; [apply sim_done| |]; (apply sim_keep; [apply sim_token|intros tok]; apply sim_keep; [apply sim_require_object|intros rec']; apply sim_keep; [|auto with duo_sim]);
    destruct (_ <=? _); auto using sim_insert, sim_done.
Qed.
Lemma sim_take_pins es : sim P (take_pins env es) (λ _, P).
Proof. apply sim_quiet; [done| |done]. intros d. destruct (pin es (fs_pins (du_fs d))) as [hs t]. apply quiet_pins. Qed.
Lemma sim_drop_pins hs : sim P (drop_pins env hs) (λ _, P).
Proof. apply sim_update; [done|]. intros d. apply quiet_pins. Qed.
Lemma sim_end_read i : sim P (end_read env i) (λ _, P).
Proof. by apply sim_aside. Qed.
Lemma sim_get view b k range : sim P (get_object opt sys hash wall env view b k range) (λ _, P).
Proof.
  apply sim_keep; [apply sim_pure|intros _]. apply sim_keep; [apply sim_keep; [apply sim_time|intros t; by apply sim_aside]|intros ticket].
  intros y s r s' Hi Hp Hy E. unfold guard_ticket in E. destruct (open_stream opt sys hash wall env view ticket b k range s) as [r1 s1] eqn:Eo. assert (sim P (open_stream opt sys hash wall env view ticket b k range) (λ _, P)) as Ho.
  { apply sim_keep; [apply sim_load|intros rec]. destruct (_ =? _)%Z; [apply sim_fail|]. apply sim_keep; [apply sim_pure|intros w]. destruct (w.2 =? 0)%Z; [apply sim_done|]. apply sim_keep; [apply sim_take_pins|intros ids].
    destruct (open_reader _ _ _ _ _ _); [apply sim_done|]. apply sim_keep; [apply sim_drop_pins|intros _; apply sim_fail]. }
  destruct (Ho y s r1 s1 Hi Hp Hy Eo) as (y1 & H1 & H2 & H3). assert (exists y2, rtc step y y2 /\ y_duo y2 = sv (end_read env ticket s1).2 /\ P y2) as Hend.
  { destruct (end_read env ticket s1) as [r2 s2] eqn:Ee. destruct (sim_end_read ticket y1 s1 r2 s2) as (y2 & H4 & H5 & H6); [by eapply duo_steps_inv|done|done|done|]. exists y2. split; [by transitivity y1|done]. }
  destruct r1 as [[? ? [pr|]]|e]; injection E as <- <-; [by exists y1|done|done].
Qed.
Lemma sim_drop_reader p : sim P (drop_reader env p) (λ _, P).
Proof. apply sim_keep; [apply sim_drop_pins|intros _; apply sim_end_read]. Qed.
Lemma sim_head b k : sim P (head_object hash wall env b k) (λ _, P).
Proof.
  apply sim_keep; [apply sim_pure|intros _]. apply sim_keep; [apply sim_lookup|]. intros [[v|] tk]; [apply sim_done|]. apply sim_keep; [apply sim_meta_read; [done|apply law_head]|]. intros [m|]; [|auto with duo_sim].
  apply sim_keep; [apply sim_insert|intros _; apply sim_done].
Qed.
Lemma sim_inv_guard {A} (m : D A) b k : sim P m (λ _, P) -> sim P (finally m (invalidate_key hash env b k)) (λ _, P).
Proof. apply sim_guard; [done|]. intros. by apply sim_invalidate. Qed.
Lemma sim_delete b k : sim P (delete_object hash wall env b k) (λ _, P).
Proof. apply sim_keep; [apply sim_pure|intros _]. apply sim_keep; [apply sim_time|intros t]. apply sim_inv_guard, sim_keep; [apply sim_fewer; [done|apply law_delete]|intros _; apply sim_done]. Qed.
Lemma sim_stub b k m ts : tier ts = kRemote -> sim P (tier_commit_stub hash wall env b k m ts) (λ _, P).
Proof.
  intros Ht. apply sim_keep; [apply sim_time|intros t]. apply sim_inv_guard. eapply (sim_outcome _ _ (λ m0 m', put_view m0 m' b k (mkObjectRec (set_okey k m) [] 0 ts))); [exact HP|intros m0; apply (law_put b k)|].
  intros du m' ws ps dt Hv. eapply YStub; [| |exact Hv]; done.
Qed.
Lemma sim_complete b k id parts : sim P (complete_multipart hash wall env b k id parts) (λ _, P).
Proof.
  do 2 (apply sim_keep; [apply sim_pure|intros _]). apply sim_keep; [apply sim_time|intros t]. apply sim_inv_guard, sim_keep.
  - eapply (sim_outcome _ _ (λ m0 m', complete_view md5_hex m0 m' b k id)); [exact HP|intros m0; apply (law_complete b k id)|]. intros du m' ws ps dt Hv. by eapply YComplete.
  - intros tag. apply sim_keep; [apply sim_meta_read; [done|apply law_head]|intros m; apply sim_done].
Qed.
Lemma sim_tier_read b k : sim P (tier_read env b k) (λ _, P).
Proof.
  intros y s r s' Hi Hp Hy E. unfold tier_read in E. destruct (meta env (im_get_object b k) s) as [r1 s1] eqn:Em.
  destruct (sim_meta_read P (im_get_object b k) HP (λ m, proj1 (law_get b k m)) y s r1 s1 Hi Hp Hy Em) as (y1 & H1 & H2 & H3). exists y1. destruct r1 as [o|[[]| | |]]; by injection E as <- <-.
Qed.
End calm.

(** * Any request *)
Lemma sim_void {A} (P : Y -> Prop) (m : D A) : sim P m (λ _, P) -> sim P (void m) (λ _, P).
Proof. intros Hm. apply sim_keep; [done|]. intros a. apply sim_done. Qed.
Lemma sim_rest {A} (m : D A) : sim Idle m (λ _, Idle) -> sim Idle m Rest.
Proof. intros Hm. eapply sim_conseq; [exact Hm|done|]. intros r y. apply idle_rest. Qed.
Lemma sim_stored {A} (m : D A) fuel body says done : (forall y0, sim (And Idle (Since y0)) m (Stored y0 fuel body says done)) -> sim Idle m Rest.
Proof. intros Hm y s r s' Hi Hp Hy E. destruct (Hm y y s r s' Hi) as (y' & H1 & H2 & H3 & _); [split; [done|apply rtc_refl]|done|done|]. by exists y'. Qed.
Lemma sim_void_rest {A} (m : D A) : sim Idle m Rest -> sim Idle (void m) Rest.
Proof.
  intros Hm. apply (sim_bind _ _ _ (λ a, Rest (Ok a))).
  - eapply sim_conseq; [exact Hm|done|]. intros [a|e] y (H1 & H2 & H3); [done|]. split; [done|]. split; [done|]. intros H. by specialize (H3 H); simplify_eq.
  - intros a. apply sim_ret. intros y (H1 & H2 & H3). split; [done|]. split; [done|]. intros H. by specialize (H3 H).
Qed.
Lemma sim_read {A} (g : M -> res MetaErr A * M) : (forall m, same_view m (g m).2) -> sim Idle (meta env g) (λ _, Idle).
Proof. intros Hg. by apply sim_meta_read. Qed.
Lemma sim_inspect b k : sim Idle (inspect_object env b k) (λ _, Idle).
Proof. apply sim_keep; [apply sim_pure|intros _]. apply sim_keep; [by apply sim_require_object|intros rec; apply sim_done]. Qed.
Lemma sim_serve fuel junk view q : sim Idle (serve opt sys clock busy md5_hex hash wall env fuel junk view q) Rest.
Proof.
  pose proof stable_idle as HI. destruct q; cbn [serve].
  - apply sim_rest, sim_keep; [apply sim_pure|intros _]. apply sim_keep; [apply sim_time|intros t]. apply sim_read. intros m. apply law_create_bucket.
  - apply sim_rest, sim_read. intros m. apply law_delete_bucket.
  - apply sim_rest, sim_void, sim_read. intros m. apply law_bucket_exists.
  - apply sim_rest, sim_void, sim_read. intros m. apply law_list_buckets.
  - apply sim_void_rest. eapply sim_stored. intros y0. apply sim_put.
  - apply sim_rest, sim_keep; [by apply sim_get|]. intros st. destruct (ds_body st); [by apply sim_drop_reader|apply sim_done].
  - by apply sim_rest, sim_void, sim_head.
  - apply sim_rest, sim_void, sim_inspect.
  - by apply sim_rest, sim_delete.
  - apply sim_rest, sim_void, sim_read. intros m. apply law_list_objects.
  - apply sim_rest, sim_void. do 2 (apply sim_keep; [apply sim_pure|intros _]). apply sim_keep; [apply sim_time|intros t]. apply sim_read. intros m'. apply law_create_upload.
  - apply sim_void_rest. eapply sim_stored. intros y0. apply sim_upload_part.
  - by apply sim_rest, sim_void, sim_complete.
  - apply sim_rest, sim_keep; [apply sim_pure|intros _]. apply sim_keep; [apply sim_time|intros t]. apply sim_fewer; [done|]. intros m. apply law_abort.
  - apply sim_rest, sim_void. apply sim_keep; [apply sim_pure|intros _]. apply sim_keep; [|intros; apply sim_done]. apply sim_read. intros m. apply law_list_parts.
  - apply sim_rest, sim_void. apply sim_keep; [|intros; apply sim_done]. apply sim_read. intros m. apply law_list_uploads.
  - by apply sim_rest, sim_void, sim_tier_read.
  - by apply sim_rest, sim_stub.
  - eapply sim_stored. intros y0. by apply sim_cached.
Qed.

(** * The fuel *)

(** Only a body that does not end in time runs the model out of fuel. *)
Definition ends {A} (m : D A) : Prop := forall s, (m s).1 <> Throw DFuel.
Lemma ends_bind {A B} (m : D A) (f : A -> D B) : ends m -> (forall a, ends (f a)) -> ends (m ≫= f).
Proof. intros Hm Hf s. rewrite ST_bind_eq. specialize (Hm s). destruct (m s) as [[a|e] s1]; [apply Hf|]. cbn in *. by intros [= ->]. Qed.
Lemma ends_ret {A} (a : A) : ends (mret a).
Proof. done. Qed.
Lemma ends_check {A} (r : result A) : ends (check r).
Proof. intros s. by destruct r. Qed.
Lemma ends_now : ends (now wall).
Proof. done. Qed.
Lemma ends_finally {A} (m : D A) fin : ends m -> ends (finally m fin).
Proof. intros Hm s. unfold finally. specialize (Hm s). by destruct (m s). Qed.
Lemma ends_shared {A} (f : Duo M -> res DuoErr A * Duo M) : (forall d, (f d).1 <> Throw DFuel) -> ends (shared env f).
Proof. intros Hf s. unfold shared. specialize (Hf (env (tk s) (sv s))). by destruct (f _). Qed.
Lemma ends_meta {A} (g : M -> res MetaErr A * M) : ends (meta env g).
Proof. apply ends_shared. intros d. unfold on_meta. by destruct (g _) as [[a|[c|]] m]. Qed.
Lemma ends_require b : ends (require_bucket env b).
Proof. apply ends_bind; [apply ends_meta|]. by intros []. Qed.
Lemma ends_ticket : ends (write_ticket wall env).
Proof. apply ends_bind; [apply ends_now|]. intros t. by apply ends_shared. Qed.
Lemma ends_commit ref c : ends c -> ends (commit_or_discard sys env ref c).
Proof. intros Hc s. unfold commit_or_discard. specialize (Hc s). by destruct (c s) as [[[]|[]] s1]. Qed.
Lemma ends_write buf w : ends (write_block opt sys env buf w).
Proof. apply ends_shared. intros d. by destruct (writer_write _ _ _ _) as [[] []]. Qed.
Lemma ends_finish w : ends (finish_writer opt sys clock busy env w).
Proof. apply ends_shared. intros d. by destruct (writer_finish _ _ _ _ _) as [[] []]. Qed.
Lemma ends_pump_loop fuel body bufs cur p w d : read_all (repeat kChunk fuel) body = (d, Ok tt) -> ends (pump_loop opt sys env fuel body bufs cur p w).
Proof.
  revert body bufs cur p w d. induction fuel as [|fuel IH]; intros body bufs cur p w d; [done|]. cbn [repeat read_all pump_loop]. destruct (br_read kChunk body) as [[[|x c]|e] body'] eqn:Er; [by intros _| |done].
  destruct (read_all (repeat kChunk fuel) body') as [d' o] eqn:E'. intros [= _ ->]. apply ends_bind; [apply ends_write|]. intros w'. by eapply IH.
Qed.
Lemma ends_pump fuel junk body owner d : read_all (repeat kChunk fuel) body = (d, Ok tt) -> ends (pump_body opt sys clock busy md5_hex env fuel junk body owner).
Proof. intros E. apply ends_bind; [by eapply ends_pump_loop|]. intros x. apply ends_bind; [apply ends_finish|done]. Qed.
Lemma ends_put fuel junk b k om body cond d :
  read_all (repeat kChunk fuel) body = (d, Ok tt) -> ends (put_object opt sys clock busy md5_hex hash wall env fuel junk b k om body cond).
Proof.
  intros E. do 2 (apply ends_bind; [apply ends_check|intros _]). apply ends_bind; [apply ends_require|intros _]. apply ends_bind; [apply ends_ticket|intros wt]. apply ends_finally, ends_bind; [apply ends_check|intros owner].
  apply ends_bind; [by eapply ends_pump|intros p]. apply ends_finally. do 2 (apply ends_bind; [apply ends_now|intros]). apply ends_finally, ends_bind; [apply ends_commit, ends_meta|done].
Qed.
End handlers.
