(* ===== verification/DuoServe.v ===== *)
(** DuoStore over its RocksDB engine, end to end: what a PUT answers is what stays
    readable, every request of the backend's interface is a run of the system of
    [DuoRequest] whatever other requests do meanwhile, and every object of every state such
    runs reach is whole. *)

From S2P Require Import Prelude Bytes Checksum Backend Validate Listing Multipart MemoryBackend Codec MetaUtil RocksDb RocksProofs.
From S2P Require Import DuoWorld FsData MetaCache BodyReader FsRead FsProofs FsSystem FsHooked DuoBackend DuoPins DuoRequest DuoHandlers RocksStore.
From S2P Require RocksMeta.
From Stdlib Require Import ZArith Lia.
From stdpp Require Import base list gmap sets strings relations.
Open Scope lights3_scope.

Section serve.
Context {DB : Type} {rocks : RocksDB DB} {rlaw : RocksLaw DB} {R : Type} {reader : BodyReader R} (md5_hex sha1 sha256 : bytes -> bytes).
Context (opt : FsDataOptions) (sys : nat -> option nat) (clock : nat -> Z) (busy : nat -> nat -> bool) {Hcs : FsOptionsOk opt}.
Abbreviation M := (Store (DB := DB)).
#[local] Instance engine : IMetaStore M := store_meta md5_hex sha1 sha256.
#[local] Instance engine_law : MetaLaw M md5_hex := store_law md5_hex sha1 sha256.
Abbreviation Y := (DuoSys (M := M)).
Abbreviation step := (duo_step opt sys clock busy md5_hex).
Abbreviation metaof d := (hooked (du_fs d)).

(** What requests make of an empty store. *)
Definition reached (y : Y) : Prop := exists j m t c rc wc, blank m /\ rtc step (duo_start j m t c rc wc) y.
Lemma reached_inv y : reached y -> duo_inv opt md5_hex y.
Proof. intros (j & m & t & c & rc & wc & Hm & Hy). eapply (duo_steps_inv opt sys clock busy md5_hex); [exact Hy|by apply duo_start_inv]. Qed.

(** C1: Whatever requests run, in whatever order their steps interleave and wherever they
    fail, every object that is not a stub of a remote tier stands for a string of bytes of
    the object's size (in 64 bits), and every range of it reads back those bytes, with any
    buffers and while other requests go on, as long as the object is not replaced. If the
    object is local, committed by a PUT or a multipart upload, its ETag is the digest of
    those bytes, or the digest of the digests of the parts they are made of; the ETag of a
    copy cached from the remote tier is the remote object's, which the code does not compare
    with the bytes. *)
Theorem objects_intact y b k rec (Hy : reached y) (Ho : objv (metaof (y_duo y)) b k = Some rec) (Ht : tier (or_tier rec) <> kRemote) :
  exists d, osize (or_meta rec) = u64 (blen d) /\ (tier (or_tier rec) = kLocal -> genuine md5_hex (or_meta rec) d) /\ reads_back opt sys clock busy md5_hex b k (or_data rec) d y.
Proof. by eapply (object_whole opt sys clock busy md5_hex); [apply reached_inv| |]. Qed.

Section request.
Context (hash : bytes -> nat) (wall : nat -> time_point) (env : nat -> Duo M -> Duo M) (me : nat) (fuel : nat) (junk : bytes * bytes).
(** The other requests: steps of the system, none with this one's writer or reference. *)
Definition others_run : Prop := forall n (y : Y), duo_inv opt md5_hex y -> exists y', rtc step y y' /\ y_duo y' = env n (y_duo y) /\ aside me y y'.

Lemma rest_idle {A} (r : res DuoErr A) (y : Y) : Rest me r y -> r <> Throw DUndetermined -> Idle me y.
Proof. intros (H1 & H2 & H3) Hr. split; [done|]. split; [done|]. intros Hd. by apply Hr, H3. Qed.

(** C2: A PUT whose body delivers [d] is a run of the system that, unless the metadata
    store reports the outcome of the commit as unknown, leaves no writer and no reference
    behind; when it answers, its ETag is the digest of [d], and at a point of that run the
    object became a record of the size of [d] (in 64 bits) with the digest of [d], no other
    object and no part changing with it, from which every range reads back [d] until the
    object is replaced. Other requests may run between any two of its calls. *)
Theorem put_object_stores (Henv : others_run) y s r s' b k m body cond d (Hy : reached y) (Hidle : Idle me y) (Hs : y_duo y = sv s)
    (Hbody : read_all (repeat kChunk fuel) body = (d, Ok tt))
    (Hrun : put_object opt sys clock busy md5_hex hash wall env fuel junk b k m body cond s = (r, s')) :
  r <> Throw DFuel /\ exists y', rtc step y y' /\ y_duo y' = sv s' /\ (r <> Throw DUndetermined -> Idle me y') /\
    forall p, r = Ok p -> put_etag p = md5_hex d /\ exists y1 y2 rec,
      rtc step y y1 /\ step y1 y2 /\ rtc step y2 y' /\ put_view (metaof (y_duo y1)) (metaof (y_duo y2)) b k rec /\
      osize (or_meta rec) = u64 (blen d) /\ etag (or_meta rec) = md5_hex d /\ reads_back opt sys clock busy md5_hex b k (or_data rec) d y2.
Proof.
  split; [pose proof (ends_put opt sys clock busy md5_hex hash wall env fuel junk b k m body cond d Hbody s) as He; by rewrite Hrun in He|].
  destruct (sim_put opt sys clock busy md5_hex hash wall env me Henv y fuel junk b k m body cond y s r s' (reached_inv y Hy)) as (y' & H1 & H2 & H3 & H4); [by split; [|apply rtc_refl]|done|done|].
  exists y'. split; [done|]. split; [done|]. split; [by apply rest_idle|]. intros p Hp. destruct (H4 p Hp) as (d' & ref & Hb & Ht & (y1 & y2 & A1 & A2 & (rec & (C1 & C2 & C3 & C6) & C4 & C5) & (rs & D1 & D2) & A3)). rewrite Hbody in Hb. injection Hb as <-.
  split; [done|]. exists y1, y2, rec. rewrite C1. repeat (split; [done|]). split; [by rewrite C3; eapply kept_total|]. split; [by apply C6|]. exact (held_reads_back opt sys clock busy md5_hex b k ref d rs y2 D1 D2).
Qed.

(** C3: Every request is a run of the system: with other requests between any two of its
    calls, and wherever it fails, what it does to the records, the files and the references
    are steps of the system. Unless the metadata store reports the outcome of its commit as
    unknown, it leaves no writer and no reference behind: a reference it made is that of a
    record or has been handed to the data store's removal. *)
Theorem requests_refine (Henv : others_run) view (q : Request R) y s r s' (Hy : reached y) (Hidle : Idle me y) (Hs : y_duo y = sv s)
    (Hrun : serve opt sys clock busy md5_hex hash wall env fuel junk view q s = (r, s')) :
  exists y', rtc step y y' /\ y_duo y' = sv s' /\ (r <> Throw DUndetermined -> Idle me y') /\ reached y'.
Proof.
  destruct (sim_serve opt sys clock busy md5_hex hash wall env me Henv fuel junk view q y s r s' (reached_inv y Hy) Hidle Hs Hrun) as (y' & H1 & H2 & H3). exists y'. split; [done|]. split; [done|]. split; [by apply rest_idle|].
  destruct Hy as (j & m & t & c & rc & wc & Hm & Hy). exists j, m, t, c, rc, wc. split; [done|]. by transitivity y.
Qed.
End request.
End serve.

(** * A PUT while another request deletes *)
Module ServeDemo.
Abbreviation md5 := (λ x : bytes, bs "md5:" ++ x).
Abbreviation St := (Store (DB := mem_db)).
#[global] Instance engine : IMetaStore St := store_meta md5 md5 md5.
#[global] Instance engine_law : MetaLaw St md5 := store_law md5 md5 md5.
Definition empty : RocksMeta.Meta mem_db := RocksMeta.mkMeta true (Some (mkMemDb [])) (RocksMeta.mkRange 0 0) (RocksMeta.mkRange 0 0) (RocksMeta.mkRange 0 0).
Definition m0 : St := empty ↾ conj (map_Forall_empty _) (conj (map_Forall_empty _) (map_Forall_empty _)).
(** With a bucket and nothing else. *)
Definition m1 : St := (im_create_bucket (bs "bucket") 0 m0).2.
Lemma m1_blank : blank m1.
Proof. assert (tab (`m1) kObjects = ∅ /\ tab (`m1) kParts = ∅) as [E1 E2] by (split; vm_compute; reflexivity). intros b k. split; [|intros id n]; cbn -[m1]; rewrite ?E1, ?E2, ?lookup_empty; [by destruct (object_key b k)|destruct (decide _); [by destruct (part_key b k id n)|done]]. Qed.
Definition y0 : DuoSys := duo_start 1 m1 FsDemo.pins (make_cache (mkOptions 4 1000 1)) (mkInFlight 0 ∅) (mkInFlight 0 ∅).
Lemma y0_reached : reached md5 FsDemo.opt FsDemo.sys FsDemo.clock FsDemo.busy y0.
Proof. exists 1, m1, FsDemo.pins, (make_cache (mkOptions 4 1000 1)), (mkInFlight 0 ∅), (mkInFlight 0 ∅). split; [apply m1_blank|apply rtc_refl]. Qed.

(** Before the third call another request deletes another key. *)
Definition env (n : nat) (d : Duo St) : Duo St := if n =? 3 then (on_meta (im_delete_object (bs "bucket") (bs "other") 0) d).2 else d.
Lemma env_runs : others_run md5 FsDemo.opt FsDemo.sys FsDemo.clock FsDemo.busy env 0.
Proof.
  intros n [d ws ps dt] _. unfold env. destruct (n =? 3); [|exists (mkDuoSys d ws ps dt); split; [apply rtc_refl|done]].
  exists (mkDuoSys (set_meta (im_delete_object (bs "bucket") (bs "other") 0 (hooked (du_fs d))).2 d) ws ps dt). split; [|done]. apply rtc_once, YFewer, law_delete.
Qed.
Definition body : StringBodyReader := mkString (bs "hello world") 0.
Definition run := put_object FsDemo.opt FsDemo.sys FsDemo.clock FsDemo.busy md5 (λ _, 0) (λ n, Z.of_nat n) env 3 ([], []) (bs "bucket") (bs "k") default_meta body no_cond (mkSrv (y_duo y0) 0).
Lemma run_ok : run.1 = Ok (mkPutResult (md5 (bs "hello world")) [] [] []).
Proof. vm_compute. reflexivity. Qed.
(** The state it leaves, with the object. *)
Lemma stored : exists y, reached md5 FsDemo.opt FsDemo.sys FsDemo.clock FsDemo.busy y /\ exists rec, objv (hooked (du_fs (y_duo y))) (bs "bucket") (bs "k") = Some rec /\ tier (or_tier rec) = kLocal.
Proof.
  destruct (sim_put FsDemo.opt FsDemo.sys FsDemo.clock FsDemo.busy md5 (λ _, 0) (λ n, Z.of_nat n) env 0 env_runs y0 3 ([], []) (bs "bucket") (bs "k") default_meta body no_cond y0 (mkSrv (y_duo y0) 0) run.1 run.2
    (reached_inv md5 md5 md5 _ _ _ _ _ y0_reached) (conj (conj eq_refl (conj eq_refl (not_elem_of_empty _))) (rtc_refl _ _)) eq_refl (surjective_pairing _)) as (y & H1 & H2 & _).
  exists y. split.
  - destruct y0_reached as (j & m & t & c & rc & wc & Hm & H0). exists j, m, t, c, rc, wc. split; [done|]. by transitivity y0.
  - rewrite H2. assert (match objv (hooked (du_fs (sv run.2))) (bs "bucket") (bs "k") with Some rec => tier (or_tier rec) = kLocal | None => False end) as H by (vm_compute; reflexivity).
    revert H. generalize (objv (hooked (du_fs (sv run.2))) (bs "bucket") (bs "k")). intros [rec|] H; [exists rec; split; [reflexivity|exact H]|destruct H].
Qed.
(** A GET of it. *)
Definition got := get_object FsDemo.opt FsDemo.sys (λ _, 0) (λ n, Z.of_nat n) alone (λ _, disk (du_fs (sv run.2))) (bs "bucket") (bs "k") (Some (mkByteRange (Some 1) (Some 3)))%Z run.2.
Lemma got_body : match got.1 with Ok (mkDuoStream _ _ (Some _)) => true | _ => false end = true.
Proof. vm_compute. reflexivity. Qed.
End ServeDemo.

Lemma put_object_stores_witness : exists y2 rec,
  (exists rec', objv (hooked (du_fs (y_duo y2))) (bs "bucket") (bs "k") = Some rec' /\ kept_as rec rec') /\ osize (or_meta rec) = 11%Z /\ etag (or_meta rec) = bs "md5:hello world" /\
  reads_back FsDemo.opt FsDemo.sys FsDemo.clock FsDemo.busy ServeDemo.md5 (bs "bucket") (bs "k") (or_data rec) (bs "hello world") y2.
Proof.
  destruct (put_object_stores ServeDemo.md5 ServeDemo.md5 ServeDemo.md5 FsDemo.opt FsDemo.sys FsDemo.clock FsDemo.busy (λ _, 0) (λ n, Z.of_nat n) ServeDemo.env 0 3 ([], []) ServeDemo.env_runs
    ServeDemo.y0 (mkSrv (y_duo ServeDemo.y0) 0) ServeDemo.run.1 ServeDemo.run.2 (bs "bucket") (bs "k") default_meta ServeDemo.body no_cond (bs "hello world")) as (_ & y' & _ & _ & _ & Hp).
  - exact ServeDemo.y0_reached.
  - exact (conj eq_refl (conj eq_refl (not_elem_of_empty _))).
  - done.
  - vm_compute. reflexivity.
  - apply surjective_pairing.
  - destruct (Hp _ ServeDemo.run_ok) as (_ & y1 & y2 & rec & _ & _ & _ & (Hrec & _) & Hz & He & Hr). exists y2, rec. split; [exact Hrec|]. split; [exact Hz|]. split; [exact He|exact Hr].
Defined.

Lemma requests_refine_witness : exists y', y_duo y' = sv (serve FsDemo.opt FsDemo.sys FsDemo.clock FsDemo.busy ServeDemo.md5 (λ _, 0) (λ n, Z.of_nat n) ServeDemo.env 3 ([], []) (λ _, mkDisk ∅ ∅)
    (PutObject (bs "bucket") (bs "k") default_meta ServeDemo.body no_cond) (mkSrv (y_duo ServeDemo.y0) 0)).2 /\ Idle 0 y'.
Proof.
  destruct (requests_refine ServeDemo.md5 ServeDemo.md5 ServeDemo.md5 FsDemo.opt FsDemo.sys FsDemo.clock FsDemo.busy (λ _, 0) (λ n, Z.of_nat n) ServeDemo.env 0 3 ([], []) ServeDemo.env_runs
    (λ _, mkDisk ∅ ∅) (PutObject (bs "bucket") (bs "k") default_meta ServeDemo.body no_cond) ServeDemo.y0 (mkSrv (y_duo ServeDemo.y0) 0) _ _ ServeDemo.y0_reached (conj eq_refl (conj eq_refl (not_elem_of_empty _))) eq_refl (surjective_pairing _)) as (y' & _ & H1 & H2 & _).
  exists y'. split; [exact H1|]. apply H2. vm_compute. discriminate.
Defined.

Lemma objects_intact_witness : exists y rec d, reached ServeDemo.md5 FsDemo.opt FsDemo.sys FsDemo.clock FsDemo.busy y /\
  objv (hooked (du_fs (y_duo y))) (bs "bucket") (bs "k") = Some rec /\ osize (or_meta rec) = u64 (blen d) /\ genuine ServeDemo.md5 (or_meta rec) d.
Proof.
  destruct ServeDemo.stored as (y & Hy & rec & Ho & Ht). exists y, rec. destruct (objects_intact ServeDemo.md5 ServeDemo.md5 ServeDemo.md5 FsDemo.opt FsDemo.sys FsDemo.clock FsDemo.busy y (bs "bucket") (bs "k") rec) as (d & Hz & Hg & _).
  - exact Hy.
  - exact Ho.
  - rewrite Ht. discriminate.
  - exists d. split; [exact Hy|]. split; [exact Ho|]. split; [exact Hz|]. exact (Hg Ht).
Defined.

Lemma get_object_pins_witness : match ServeDemo.got.1 with
  | Ok (mkDuoStream _ _ (Some p)) => forall q i, pin_count q i (fs_pins (du_fs (sv (drop_reader alone p ServeDemo.got.2).2))) = pin_count q i (fs_pins (du_fs (sv ServeDemo.run.2)))
  | _ => False
  end.
Proof.
  pose proof (get_object_pins FsDemo.opt FsDemo.sys (λ _, 0) (λ n, Z.of_nat n) (λ _, disk (du_fs (sv ServeDemo.run.2))) (bs "bucket") (bs "k") (Some (mkByteRange (Some 1) (Some 3)))%Z
    ServeDemo.run.2 ServeDemo.got.1 ServeDemo.got.2) as H. pose proof ServeDemo.got_body as Hb.
  assert (pins_ok (fs_pins (du_fs (sv ServeDemo.run.2)))) as H1.
  { assert (fs_pins (du_fs (sv ServeDemo.run.2)) = mkPins ∅ ∅) as -> by (vm_compute; reflexivity). intros [] id n Hn; cbn in Hn; by rewrite lookup_empty in Hn. }
  assert (active (read_clock (sv ServeDemo.run.2)) = ∅) as H2 by (vm_compute; reflexivity).
  specialize (H H1 (λ t Ht, ltac:(rewrite H2, lookup_empty in Ht; by destruct Ht)) (surjective_pairing _)). revert H Hb. generalize ServeDemo.got.1. intros [[m rg [p|]]|e] H Hb; [|discriminate Hb|discriminate Hb].
  exact (proj1 (proj2 (proj2 H))).
Defined.
