(* ===== verification/Digest.v ===== *)
(** Request body integrity ([src/src/s3/checksum_guard.h]): the declared digests, the
    incremental digest, and the verifying and capturing readers. The MD5 and SHA hashes
    are parameters; the CRC family is the modelled one. *)

From S2P Require Import Prelude Bytes Backend Checksum Headers BodyReader.
From Stdlib Require Import ZArith Lia.
From stdpp Require Import base list strings.
Import Crc Base64.

(** * Data *)
Inductive Algo := Md5 | Sha1 | Sha256 | Crc32 | Crc32c | Crc64Nvme.
#[global] Instance algo_eq : EqDecision Algo.
Proof. solve_decision. Defined.

Record ExpectedDigest := mkExpected { ed_algo : Algo; ed_header : bytes; ed_expected : bytes }.
Record ChecksumSpec := mkSpec { sp_header : bytes; sp_algo : Algo; sp_bytes : nat }.
#[global] Instance spec_eq : EqDecision ChecksumSpec.
Proof. solve_decision. Defined.

Definition kChecksumSpecs : list ChecksumSpec :=
  [ mkSpec (bs "x-amz-checksum-crc32") Crc32 4;
    mkSpec (bs "x-amz-checksum-crc32c") Crc32c 4;
    mkSpec (bs "x-amz-checksum-crc64nvme") Crc64Nvme 8;
    mkSpec (bs "x-amz-checksum-sha1") Sha1 20;
    mkSpec (bs "x-amz-checksum-sha256") Sha256 32 ].

Definition checksum_spec (lower_name : bytes) : option ChecksumSpec :=
  List.find (λ sp, bool_decide (sp_header sp = lower_name)) kChecksumSpecs.

(** The request as these checks see it: its headers and its body's [length()], if any. *)
Record ReqHead := mkReq { req_headers : HeaderMap; req_body : option (option Z) }.

(** * Incremental digests *)
Definition is_hash (a : Algo) : bool := match a with Md5 | Sha1 | Sha256 => true | _ => false end.

(** [hash_] holds the bytes fed to a hash, [crc_] the running CRC. *)
Record StreamingDigest := mkDigest { dg_algo : Algo; dg_hash : option bytes; dg_crc : Z }.
Definition dg_init (a : Algo) : StreamingDigest := mkDigest a (if is_hash a then Some [] else None) 0.

Definition dg_update (data : bytes) (d : StreamingDigest) : StreamingDigest :=
  match dg_hash d with
  | Some acc => mkDigest (dg_algo d) (Some (acc ++ data)) (dg_crc d)
  | None =>
      mkDigest (dg_algo d) None
        (match dg_algo d with
         | Crc32 => crc32_update (u32 (dg_crc d)) data
         | Crc32c => crc32c_update (u32 (dg_crc d)) data
         | _ => crc64nvme_update (dg_crc d) data
         end)
  end.

(** The CRC, most significant byte first. *)
Definition be_bytes (shifts : list Z) (crc : Z) : bytes := (λ s, zb (Z.land (Z.shiftr crc s) 255)) <$> shifts.
Definition crc_shifts (a : Algo) : list Z :=
  match a with Crc64Nvme => [56; 48; 40; 32; 24; 16; 8; 0]%Z | _ => [24; 16; 8; 0]%Z end.

Section digests.
Context (hash : Algo -> bytes -> bytes).

Definition final_raw (d : StreamingDigest) : bytes :=
  match dg_hash d with
  | Some acc => hash (dg_algo d) acc
  | None => be_bytes (crc_shifts (dg_algo d)) (dg_crc d)
  end.

(** * Declarations *)
Definition decode_header (req : ReqHead) (header : bytes) (n : nat) : result (option bytes) :=
  match hfind (req_headers req) header with
  | None => Ok None
  | Some v =>
      match base64_decode v with
      | Some raw => if (length raw =? n)%nat then Ok (Some raw) else Throw InvalidDigest
      | None => Throw InvalidDigest
      end
  end.

Fixpoint collect_expected (req : ReqHead) (l : list ChecksumSpec) : result (list ExpectedDigest) :=
  match l with
  | [] => Ok []
  | sp :: l' =>
      raw ← decode_header req (sp_header sp) (sp_bytes sp);
      rest ← collect_expected req l';
      Ok (match raw with Some r => mkExpected (sp_algo sp) (sp_header sp) r :: rest | None => rest end)
  end.

Definition parse_expected_digests (req : ReqHead) : result (list ExpectedDigest) :=
  collect_expected req (mkSpec (bs "Content-MD5") Md5 16 :: kChecksumSpecs).

(** The character loop over the header value; [flush] trims the end and drops empties. *)
Definition flush (cur : bytes) (out : list bytes) : list bytes :=
  let t := reverse (strip_front (reverse cur)) in
  if bool_decide (t = []) then out else out ++ [t].
Fixpoint trailer_names (v cur : bytes) (out : list bytes) : list bytes :=
  match v with
  | [] => flush cur out
  | c :: v' =>
      if bool_decide (c = ch ",") then trailer_names v' [] (flush cur out)
      else if ows c && bool_decide (cur = []) then trailer_names v' cur out
      else trailer_names v' (cur ++ [lower_char c]) out
  end.
Definition parse_declared_trailers (req : ReqHead) : list bytes :=
  match hfind (req_headers req) (bs "x-amz-trailer") with None => [] | Some v => trailer_names v [] [] end.

Definition check_algorithm_header (req : ReqHead) (h : bytes) : result unit :=
  match hfind (req_headers req) h with
  | None => Ok tt
  | Some v =>
      let name := bs "x-amz-checksum-" ++ (lower_char <$> v) in
      match checksum_spec name with
      | None => Throw InvalidRequest
      | Some _ =>
          let provided := has (req_headers req) name
                          || existsb (λ t, bool_decide (t = name)) (parse_declared_trailers req) in
          let has_body := match req_body req with None => false | Some l => (0 <? default 1%Z l)%Z end in
          throw_if (negb provided && has_body) InvalidRequest
      end
  end.
Definition validate_checksum_algorithm (req : ReqHead) : result unit :=
  _ ← check_algorithm_header req (bs "x-amz-checksum-algorithm");
  check_algorithm_header req (bs "x-amz-sdk-checksum-algorithm").

Definition upper_char (c : byte) : byte := if is_lower c then zb (bz c - 32) else c.
Definition checksum_wire_name (sp : ChecksumSpec) : bytes := upper_char <$> drop 15 (sp_header sp).

Record RequestChecksum := mkRequestChecksum { rc_spec : ChecksumSpec; rc_value : bytes; rc_trailer : bool }.
Definition add_checksum (sp : ChecksumSpec) (value : bytes) (trailer : bool) (out : option RequestChecksum)
    : result (option RequestChecksum) :=
  match out with
  | Some rc => if bool_decide (rc_spec rc = sp) then Ok out else Throw InvalidRequest
  | None => Ok (Some (mkRequestChecksum sp value trailer))
  end.
Fixpoint header_checksums (req : ReqHead) (l : list ChecksumSpec) (out : option RequestChecksum)
    : result (option RequestChecksum) :=
  match l with
  | [] => Ok out
  | sp :: l' =>
      out' ← match hfind (req_headers req) (sp_header sp) with Some v => add_checksum sp v false out | None => Ok out end;
      header_checksums req l' out'
  end.
Fixpoint trailer_checksums (l : list bytes) (out : option RequestChecksum) : result (option RequestChecksum) :=
  match l with
  | [] => Ok out
  | t :: l' =>
      out' ← match checksum_spec t with Some sp => add_checksum sp [] true out | None => Ok out end;
      trailer_checksums l' out'
  end.
Definition request_checksum (req : ReqHead) : result (option RequestChecksum) :=
  out ← header_checksums req kChecksumSpecs None;
  trailer_checksums (parse_declared_trailers req) out.

(** * Readers *)
Section readers.
Context {R : Type} `{BodyReader R}.

Record VerifyingReader := mkVerifying {
  v_inner : R; v_expected : list ExpectedDigest; v_digests : list StreamingDigest; v_consumed : Z; v_done : bool }.

Definition verifying (inner : R) (expected : list ExpectedDigest) : VerifyingReader :=
  mkVerifying inner expected ((λ e, dg_init (ed_algo e)) <$> expected) 0 false.

(** All declared digests are compared. *)
Definition digests_match (expected : list ExpectedDigest) (ds : list StreamingDigest) : bool :=
  forallb (λ ed, bool_decide (final_raw ed.2 = ed_expected ed.1)) (zip expected ds).

Definition verify (c : bytes) (v : VerifyingReader) : res read_error bytes * VerifyingReader :=
  let v' := mkVerifying (v_inner v) (v_expected v) (v_digests v) (v_consumed v) true in
  if digests_match (v_expected v) (v_digests v) then (Ok c, v') else (Throw (S3Err BadDigest), v').

Definition verifying_read (n : nat) (v : VerifyingReader) : res read_error bytes * VerifyingReader :=
  if v_done v then (Ok [], v)
  else
    let '(o, r') := br_read n (v_inner v) in
    match o with
    | Throw e => (Throw e, mkVerifying r' (v_expected v) (v_digests v) (v_consumed v) false)
    | Ok [] => verify [] (mkVerifying r' (v_expected v) (v_digests v) (v_consumed v) false)
    | Ok c =>
        let v1 := mkVerifying r' (v_expected v) (dg_update c <$> v_digests v) (v_consumed v +₆₄ Z.of_nat (length c))%L3 false in
        match br_length r' with
        | Some len => if (len <=? v_consumed v1)%Z then verify c v1 else (Ok c, v1)
        | None => (Ok c, v1)
        end
    end.

#[global] Instance verifying_reader : BodyReader VerifyingReader := {
  br_read := verifying_read; br_length v := br_length (v_inner v) }.

(** [DigestCaptureReader]: the base64 digest of the payload, once it has been read. *)
Record CaptureReader := mkCapture {
  c_inner : R; c_digest : StreamingDigest; c_out : option bytes; c_consumed : Z; c_done : bool }.
Definition capturing (inner : R) (a : Algo) : CaptureReader := mkCapture inner (dg_init a) None 0 false.

Definition finish (c : CaptureReader) : CaptureReader :=
  if c_done c then c
  else mkCapture (c_inner c) (c_digest c) (Some (base64_encode (final_raw (c_digest c)))) (c_consumed c) true.

Definition capture_read (n : nat) (c : CaptureReader) : res read_error bytes * CaptureReader :=
  let '(o, r') := br_read n (c_inner c) in
  let c0 := mkCapture r' (c_digest c) (c_out c) (c_consumed c) (c_done c) in
  match o with
  | Throw e => (Throw e, c0)
  | Ok [] => (Ok [], finish c0)
  | Ok b =>
      let c1 := mkCapture r' (dg_update b (c_digest c)) (c_out c) (c_consumed c +₆₄ Z.of_nat (length b))%L3 (c_done c) in
      match br_length r' with
      | Some len => if (len <=? c_consumed c1)%Z then (Ok b, finish c1) else (Ok b, c1)
      | None => (Ok b, c1)
      end
  end.
#[global] Instance capture_reader : BodyReader CaptureReader := {
  br_read := capture_read; br_length c := br_length (c_inner c) }.
End readers.
Arguments VerifyingReader : clear implicits.
Arguments CaptureReader : clear implicits.

(** [install_checksum_guard]: the reader put in place of the body, if one is needed. *)
Definition install_checksum_guard {R} (req : ReqHead) (body : option R) (empty_body : R)
    : result (option (R + VerifyingReader R)) :=
  _ ← validate_checksum_algorithm req;
  expected ← parse_expected_digests req;
  Ok (if bool_decide (expected = []) then inl <$> body
      else Some (inr (verifying (default empty_body body) expected))).

(** * Facts about digests *)

(** The digest of a byte string, whole. *)
Definition digest_of (a : Algo) (data : bytes) : bytes :=
  match a with
  | Crc32 => be_bytes (crc_shifts Crc32) (crc32_of data)
  | Crc32c => be_bytes (crc_shifts Crc32c) (crc32c_of data)
  | Crc64Nvme => be_bytes (crc_shifts Crc64Nvme) (crc64nvme_of data)
  | a => hash a data
  end.

(** A digest fed the bytes [p] so far. *)
Definition fed (a : Algo) (p : bytes) (d : StreamingDigest) : Prop :=
  dg_algo d = a /\ dg_hash d = (if is_hash a then Some p else None) /\
  dg_crc d = match a with Crc32 => crc32_of p | Crc32c => crc32c_of p | Crc64Nvme => crc64nvme_of p | _ => 0%Z end.
End digests.
Arguments VerifyingReader : clear implicits.
Arguments CaptureReader : clear implicits.
