(* ===== verification/DigestProofs.v ===== *)
(** Proofs about request body integrity: incremental digests, the verifying reader over
    any lawful reader, and the declared trailer names. *)

From S2P Require Import Prelude Bytes Backend Checksum Headers BodyReader Digest.
From Stdlib Require Import ZArith Lia.
From stdpp Require Import base list strings.
Import Crc Base64.

Section proofs.
Context (hash : Algo -> bytes -> bytes).

(** * Incremental digests *)
Lemma fed_init a : fed a [] (dg_init a).
Proof. unfold fed, dg_init. destruct a; split_and!; vm_compute; reflexivity. Qed.

Lemma crc32_range p : (0 <= crc32_of p < 2 ^ 32)%Z.
Proof. apply table_crc_range; unfold kCrc32; lia. Qed.
Lemma crc32c_range p : (0 <= crc32c_of p < 2 ^ 32)%Z.
Proof. apply table_crc_range; unfold kCrc32c; lia. Qed.

Lemma fed_update a p c d : fed a p d -> fed a (p ++ c) (dg_update c d).
Proof.
  intros (Ha & Hh & Hc). unfold fed, dg_update. rewrite Ha, Hh, Hc.
  assert (forall x, (0 <= x < 2 ^ 32)%Z -> u32 x = x) as Hu by (intros; unfold u32; by apply Z.mod_small).
  destruct a; cbn [is_hash dg_algo dg_hash dg_crc]; (split; [done|]); (split; [done|]); try done.
  - rewrite Hu by apply crc32_range. symmetry. apply table_crc_app.
  - rewrite Hu by apply crc32c_range. symmetry. apply table_crc_app.
  - symmetry. apply table_crc_app.
Qed.

Lemma fed_final a p d : fed a p d -> final_raw hash d = digest_of hash a p.
Proof. intros (Ha & Hh & Hc). unfold final_raw, digest_of. rewrite Ha, Hh, Hc. by destruct a. Qed.

(** All the declared digests of [data]. *)
Definition all_match (expected : list ExpectedDigest) (data : bytes) : bool :=
  forallb (λ e, bool_decide (digest_of hash (ed_algo e) data = ed_expected e)) expected.

Definition all_fed (expected : list ExpectedDigest) (p : bytes) (ds : list StreamingDigest) : Prop :=
  Forall2 (λ e g, fed (ed_algo e) p g) expected ds.

Lemma all_fed_init expected : all_fed expected [] ((λ e, dg_init (ed_algo e)) <$> expected).
Proof. unfold all_fed. induction expected; cbn; constructor; [apply fed_init|done]. Qed.

Lemma all_fed_update expected p c ds : all_fed expected p ds -> all_fed expected (p ++ c) (dg_update c <$> ds).
Proof. unfold all_fed. induction 1; cbn; constructor; [by apply fed_update|done]. Qed.

Lemma all_fed_match expected p ds : all_fed expected p ds -> digests_match hash expected ds = all_match expected p.
Proof.
  unfold all_fed, digests_match, all_match. induction 1 as [|e g es gs Hf _ IH]; cbn; [done|]. by rewrite (fed_final _ _ _ Hf), IH.
Qed.

(** * The verifying reader *)
Context {R : Type} `{ReaderLaw R}.

(** [p] has been delivered and digested, [d] is left. *)
Record verifying_at (v : VerifyingReader R) (p d : bytes) : Prop := {
  va_open : v_done v = false;
  va_inner : serves (v_inner v) d;
  va_fed : all_fed (v_expected v) p (v_digests v);
  va_count : v_consumed v = Z.of_nat (length p);
  va_len : br_length (v_inner v) = None \/ br_length (v_inner v) = Some (Z.of_nat (length (p ++ d)));
  va_small : (Z.of_nat (length (p ++ d)) < 2 ^ 64)%Z }.

Lemma verifying_start r d expected :
  serves r d -> br_length r = None \/ br_length r = Some (Z.of_nat (length d)) ->
  (Z.of_nat (length d) < 2 ^ 64)%Z -> verifying_at (verifying r expected) [] d.
Proof. intros. split; try done. apply all_fed_init. Qed.

(** One read: the next bytes, unless they complete the body (or none is left) and a
    digest does not match. *)
Lemma verifying_step v p d n :
  verifying_at v p d -> 0 < n ->
  exists c d', d = c ++ d' /\ (c = [] -> d = []) /\ length c <= n /\
    ((exists v', verifying_read hash n v = (Ok c, v') /\ c <> [] /\ verifying_at v' (p ++ c) d' /\
                 v_expected v' = v_expected v /\ br_length (v_inner v') = br_length (v_inner v) /\
                 (d' = [] -> br_length (v_inner v) = None)) \/
     (exists v', verifying_read hash n v = (if all_match (v_expected v) (p ++ d) then Ok c else Throw (S3Err BadDigest), v') /\
                 d' = [] /\ v_done v' = true /\ (br_length (v_inner v) <> None -> c = d) /\
                 br_length (v_inner v') = br_length (v_inner v))).
Proof.
  intros [Ho Hs Hf Hc Hl Hz] Hn. unfold verifying_read. rewrite Ho.
  destruct (read_serves _ d n Hs Hn) as (c & d' & r' & Er & -> & Hcn & He & Hs').
  pose proof (length_stable _ _ n Hs) as Hst. rewrite Er in Hst |- *. cbn in Hst.
  exists c, d'. split; [done|]. split; [done|]. split; [done|]. destruct c as [|x c].
  - right. pose proof (He eq_refl) as Hd. cbn in Hd. subst d'. eexists. split.
    + unfold verify. cbn [v_expected v_digests]. rewrite (all_fed_match _ _ _ Hf), !app_nil_r. case_match; reflexivity.
    + cbn. done.
  - set (c' := x :: c) in *.
    assert (u64 (v_consumed v + Z.of_nat (length c')) = Z.of_nat (length (p ++ c'))) as Eu.
    { rewrite Hc, length_app, Nat2Z.inj_add. apply u64_small. rewrite !length_app in Hz. unfold is_u64. lia. }
    set (v1 := mkVerifying r' (v_expected v) (dg_update c' <$> v_digests v) _ false).
    assert (verifying_at v1 (p ++ c') d') as Hv1.
    { split; [done|done|by apply all_fed_update|exact Eu| |by rewrite <- app_assoc].
      cbn. rewrite Hst, <- app_assoc. done. }
    destruct Hl as [Hl|Hl].
    + left. exists v1. cbn [v_inner v1]. rewrite Hst, Hl. split_and!; done.
    + rewrite Hst, Hl. change (v_consumed v1) with (u64 (v_consumed v + Z.of_nat (length c'))). rewrite Eu.
      destruct (Z.leb_spec (Z.of_nat (length (p ++ c' ++ d'))) (Z.of_nat (length (p ++ c')))) as [Hle|Hlt].
      * right. assert (d' = []) as -> by (apply nil_length_inv; rewrite !length_app in Hle; lia).
        exists (mkVerifying (v_inner v1) (v_expected v1) (v_digests v1) (v_consumed v1) true).
        split; [|split_and!; [done|done|by rewrite app_nil_r|by cbn; rewrite Hst, Hl]].
        unfold verify. rewrite (all_fed_match _ _ _ (va_fed _ _ _ Hv1)), app_nil_r.
        change (v_expected v1) with (v_expected v). case_match; reflexivity.
      * left. exists v1. split_and!; try done. { cbn. by rewrite Hst, Hl. }
        intros ->. rewrite app_nil_r in Hlt. lia.
Qed.

Lemma verifying_closed bufs v : v_done v = true -> bufs <> [] -> read_all (H:=verifying_reader hash) bufs v = ([], Ok tt).
Proof. intros Hd Hb. destruct bufs as [|n bufs]; [done|]. cbn. unfold verifying_read. by rewrite Hd. Qed.

Lemma verifying_run bufs v p d :
  verifying_at v p d -> Forall (λ n, 0 < n) bufs -> S (length d) < length bufs ->
  exists d0, read_all (H:=verifying_reader hash) bufs v =
      (d0, if all_match (v_expected v) (p ++ d) then Ok tt else Throw (S3Err BadDigest)) /\
    d0 `prefix_of` d /\ (all_match (v_expected v) (p ++ d) = true -> d0 = d) /\
    (all_match (v_expected v) (p ++ d) = false -> br_length (v_inner v) <> None -> d <> [] -> d0 <> d).
Proof.
  revert v p d. induction bufs as [|n bufs IH]; intros v p d Hv Hb Hl; [cbn in Hl; lia|].
  apply list.Forall_cons in Hb as [Hn Hb]. cbn [read_all length] in *.
  destruct (verifying_step v p d n Hv Hn) as (c & d' & -> & He & _ & Hcase).
  change (br_read n v) with (verifying_read hash n v).
  destruct Hcase as [(v' & -> & Hc & Hv' & Ex & Elen & Hlast)|(v' & -> & -> & Hdone & Hall & _)].
  - destruct (IH v' (p ++ c) d' Hv' Hb) as (d0 & -> & Hpre & Hgood & Hbad).
    { rewrite length_app in Hl. destruct c; [done|]. cbn in Hl. lia. }
    destruct c as [|x c]; [done|]. rewrite Ex, <- app_assoc in *.
    eexists. split; [reflexivity|]. split_and!; [by apply prefix_app| |].
    + intros Hm. by rewrite Hgood.
    + intros Hm Hlen _ Heq. apply app_inv_head in Heq. subst d0. apply (Hbad Hm); [by rewrite Elen|naive_solver|done].
  - rewrite app_nil_r in *. destruct (all_match (v_expected v) (p ++ c)) eqn:Em.
    + destruct c as [|x c]; [eexists; split; [reflexivity|]; done|].
      rewrite verifying_closed; [|done|intros ->; cbn in Hl; lia]. eexists. split; [reflexivity|].
      rewrite app_nil_r. done.
    + exists []. split; [reflexivity|]. split_and!; [apply prefix_nil|done|]. intros _ _ Hne Heq. by destruct Hne.
Qed.
End proofs.

(** C32: The integrity guard is exact, over any lawful reader and any buffer sizes: if
    every declared digest is the digest of the body, the body arrives unchanged; if one is
    not, the read ends in BadDigest, and when the body announces its length its last bytes
    are never handed on. *)
Theorem checksum_guard_exact (hash : Algo -> bytes -> bytes) {R} `{ReaderLaw R} (r : R) d expected bufs :
  serves r d -> br_length r = None \/ br_length r = Some (Z.of_nat (length d)) -> (Z.of_nat (length d) < 2 ^ 64)%Z ->
  Forall (λ n, 0 < n) bufs -> S (length d) < length bufs ->
  exists d0, read_all (H:=verifying_reader hash) bufs (verifying r expected) =
      (d0, if all_match hash expected d then Ok tt else Throw (S3Err BadDigest)) /\
    d0 `prefix_of` d /\ (all_match hash expected d = true -> d0 = d) /\
    (all_match hash expected d = false -> br_length r <> None -> d <> [] -> d0 <> d).
Proof.
  intros Hs Hl Hz Hb Hn. exact (verifying_run hash bufs _ [] d (verifying_start r d expected Hs Hl Hz) Hb Hn).
Qed.

Definition demo_hash_algo (a : Algo) (d : bytes) : bytes := take 16 d.

Lemma checksum_guard_exact_witness :
  exists d0, read_all (H:=verifying_reader demo_hash_algo) (replicate 6 2)
      (verifying (mkString (bs "abc") 0) [mkExpected Crc32 (bs "x-amz-checksum-crc32") (bs "bad!")]) =
    (d0, Throw (S3Err BadDigest)) /\ d0 <> bs "abc".
Proof.
  destruct (checksum_guard_exact demo_hash_algo (mkString (bs "abc") 0) (bs "abc")
              [mkExpected Crc32 (bs "x-amz-checksum-crc32") (bs "bad!")] (replicate 6 2))
    as (d0 & E & _ & _ & Hne).
  - split; [cbn; lia|reflexivity].
  - right. reflexivity.
  - cbn; lia.
  - repeat constructor.
  - cbn; lia.
  - assert (all_match demo_hash_algo [mkExpected Crc32 (bs "x-amz-checksum-crc32") (bs "bad!")] (bs "abc") = false) as Em
      by (vm_compute; reflexivity).
    rewrite Em in E, Hne. exists d0. split; [exact E|]. apply Hne; done.
Defined.

(** * Declared trailer names *)
Definition trim_end (s : bytes) : bytes := reverse (strip_front (reverse s)).
Definition nonempty (s : bytes) : bool := negb (bool_decide (s = [])).

Lemma flush_eq cur out : flush cur out = out ++ List.filter nonempty [trim_end cur].
Proof.
  unfold flush. cbv zeta. change (reverse (strip_front (reverse cur))) with (trim_end cur).
  cbn [List.filter]. unfold nonempty. case_bool_decide; [by rewrite app_nil_r|done].
Qed.

Lemma lower_ows c : ows (lower_char c) = ows c.
Proof. destruct c; reflexivity. Qed.

Lemma strip_front_lower s : strip_front (lower_char <$> s) = lower_char <$> strip_front s.
Proof. induction s as [|c s IH]; cbn; [done|]. rewrite lower_ows. by destruct (ows c). Qed.

Lemma trim_end_lower s : trim_end (lower_char <$> s) = lower_char <$> trim_end s.
Proof. unfold trim_end. by rewrite <- fmap_reverse, strip_front_lower, fmap_reverse. Qed.

(** The scan with a segment in progress: [pre] has been read of it, its leading blanks
    already dropped. *)
Lemma trailer_names_seg v pre out :
  (pre = [] \/ exists c s, pre = c :: s /\ ows c = false) ->
  trailer_names v (lower_char <$> pre) out =
    out ++ List.filter nonempty ((λ s, lower_char <$> strip_ows s) <$>
      match split_on (ch ",") v with [] => [] | seg :: rest => (pre ++ seg) :: rest end).
Proof.
  assert (forall p : bytes, (p = [] \/ exists c s, p = c :: s /\ ows c = false) -> strip_ows p = trim_end p) as Hstrip.
  { intros p [->|(c & s & -> & Hc)]; unfold strip_ows; [done|]. cbn [strip_front]. by rewrite Hc. }
  revert pre out. induction v as [|c v IH]; intros pre out Hp; cbn [trailer_names split_on].
  - cbn [fmap list_fmap List.filter]. rewrite app_nil_r, flush_eq, Hstrip by done.
    by rewrite trim_end_lower.
  - destruct (split_on_cons (ch ",") v) as (seg & rest & Esp). rewrite Esp in IH |- *. case_bool_decide as Hc.
    + rewrite (IH [] _ (or_introl eq_refl)), flush_eq. cbn [fmap list_fmap List.filter].
      rewrite app_nil_r, (Hstrip pre Hp), trim_end_lower, <- app_assoc. f_equal.
      by destruct (nonempty (lower_char <$> trim_end pre)).
    + destruct (ows c && bool_decide (lower_char <$> pre = [])) eqn:Ec.
      * apply andb_prop in Ec as [Eo Ee%bool_decide_eq_true]. destruct pre; [|done].
        rewrite (IH [] out (or_introl eq_refl)). cbn [fmap list_fmap List.filter app].
        assert (strip_ows (c :: seg) = strip_ows seg) as -> by (unfold strip_ows; cbn [strip_front]; by rewrite Eo). done.
      * rewrite <- fmap_snoc, IH; [by rewrite <- app_assoc|]. right. destruct pre as [|x pre].
        -- exists c, []. split; [done|]. by rewrite andb_comm in Ec.
        -- destruct Hp as [?|(c' & s & [= -> ->] & Hx)]; [done|]. by eexists _, _.
Qed.

(** The declared names are the comma-separated segments, trimmed, lowercased, empties dropped. *)
Lemma trailer_names_split v :
  trailer_names v [] [] = List.filter nonempty ((λ s, lower_char <$> strip_ows s) <$> split_on (ch ",") v).
Proof.
  pose proof (trailer_names_seg v [] [] (or_introl eq_refl)) as E. cbn [fmap list_fmap app] in E. rewrite E.
  destruct (split_on_cons (ch ",") v) as (seg & rest & ->). done.
Qed.
