(* ===== verification/Chunked.v ===== *)
(** The aws-chunked de-framing reader ([ChunkedSigV4BodyReader] in
    [src/src/s3/auth/sigv4.cc]) and the classification of streaming payloads.

    SHA-256 (in hexadecimal) and HMAC-SHA-256 are parameters. The loops that wait for the
    inner reader carry fuel; [ChunkedProofs] shows how much is enough. *)

From S2P Require Import Prelude Bytes Util Backend Checksum MemoryBackend Headers BodyReader Digest.
From Stdlib Require Import ZArith Lia.
From stdpp Require Import base list gmap strings.
Import Hex Base64.

(** * Data *)
Record DeclaredTrailer := mkDeclared { dt_name : bytes; dt_algo : Algo; dt_bytes : nat }.

(** What the constructor fixes. *)
Record ChunkConfig := mkChunkConfig {
  cc_signed : bool; cc_key : bytes; cc_date : bytes; cc_scope : bytes; cc_decoded : option Z;
  cc_trailer : bool; cc_trailer_signed : bool; cc_unverifiable : bool; cc_declared : list DeclaredTrailer }.

Inductive ChunkState := StHeader | StData | StTrailer | StDone.
#[global] Instance chunk_state_eq : EqDecision ChunkState.
Proof. solve_decision. Defined.

Record Chunked (R : Type) := mkChunked {
  k_inner : R; k_prev : bytes; k_buf : bytes; k_state : ChunkState; k_remaining : Z; k_delivered : Z; k_final : bool;
  k_sig : bytes; k_hash : option bytes; k_digests : list StreamingDigest; k_trailers : gmap bytes bytes; k_tbytes : Z }.
Arguments mkChunked {R}.
Arguments k_inner {R}. Arguments k_prev {R}. Arguments k_buf {R}. Arguments k_state {R}. Arguments k_remaining {R}.
Arguments k_delivered {R}. Arguments k_final {R}. Arguments k_sig {R}. Arguments k_hash {R}. Arguments k_digests {R}.
Arguments k_trailers {R}. Arguments k_tbytes {R}.

Definition kTrailerMax : Z := 16 * 1024.
Definition crlf : bytes := [Byte.x0d; Byte.x0a].

(** * Helpers *)

(** [constant_time_eq]: the differences are accumulated, not branched on. *)
Fixpoint diff_loop (diff : Z) (a b : bytes) : Z :=
  match a, b with
  | x :: a', y :: b' => diff_loop (Z.lor diff (Z.lxor (bz x) (bz y))) a' b'
  | _, _ => diff
  end.
Definition constant_time_eq (a b : bytes) : bool :=
  if (length a =? length b)%nat then (diff_loop 0 a b =? 0)%Z else false.

(** "<hex-size>[;...chunk-signature=<sig>[;...]]": size and signature. *)
Definition kSigKey : bytes := bs "chunk-signature=".
Fixpoint hex_size (v : Z) (s : bytes) : option Z :=
  match s with
  | [] => Some v
  | c :: s' => if (hex_val c <? 0)%Z then None else hex_size (u64 (v * 16 + hex_val c)) s'
  end.
Definition line_sig (line : bytes) : bytes :=
  match bfind (bs ";") line with
  | None => []
  | Some semi =>
      match find_from kSigKey line semi with
      | None => []
      | Some at_ =>
          let sig := drop (at_ + length kSigKey) line in
          match bfind (bs ";") sig with Some extra => take extra sig | None => sig end
      end
  end.
Definition line_size (line : bytes) : option Z :=
  let size_hex := match bfind (bs ";") line with Some semi => take semi line | None => line end in
  if (length size_hex =? 0)%nat || (16 <? length size_hex)%nat then None else hex_size 0 size_hex.

(** "name:value": the name in lower case, the value without surrounding blanks. *)
Definition trailer_line (line : bytes) : option (bytes * bytes) :=
  match bfind (bs ":") line with
  | None => None
  | Some colon => Some (lower_char <$> take colon line, strip_ows (drop (S colon) line))
  end.

Section reader.
Context {R : Type} `{BodyReader R} (hash : Algo -> bytes -> bytes) (sha256_hex : bytes -> bytes)
  (hmac_sha256 : bytes -> bytes -> bytes) (cfg : ChunkConfig).

Abbreviation K := (ST (Chunked R) read_error).

Definition chunked_init (inner : R) (seed : bytes) : Chunked R :=
  mkChunked inner seed [] StHeader 0 0 false [] None ((λ d, dg_init (dt_algo d)) <$> cc_declared cfg) ∅ 0.

(** ** Field updates *)
Definition modify_k (f : Chunked R -> Chunked R) : K unit := λ s, (Ok tt, f s).
Definition set_buf (b : bytes) (s : Chunked R) : Chunked R :=
  mkChunked (k_inner s) (k_prev s) b (k_state s) (k_remaining s) (k_delivered s) (k_final s) (k_sig s) (k_hash s)
    (k_digests s) (k_trailers s) (k_tbytes s).
Definition set_input (r : R) (b : bytes) (s : Chunked R) : Chunked R :=
  mkChunked r (k_prev s) b (k_state s) (k_remaining s) (k_delivered s) (k_final s) (k_sig s) (k_hash s)
    (k_digests s) (k_trailers s) (k_tbytes s).
Definition set_state (st : ChunkState) (s : Chunked R) : Chunked R :=
  mkChunked (k_inner s) (k_prev s) (k_buf s) st (k_remaining s) (k_delivered s) (k_final s) (k_sig s) (k_hash s)
    (k_digests s) (k_trailers s) (k_tbytes s).
Definition set_trailers (tr : gmap bytes bytes) (n : Z) (s : Chunked R) : Chunked R :=
  mkChunked (k_inner s) (k_prev s) (k_buf s) (k_state s) (k_remaining s) (k_delivered s) (k_final s) (k_sig s) (k_hash s)
    (k_digests s) tr n.

Definition malformed_body {A} : K A := throw (S3Err InvalidRequest).

(** [fill]: false at EOF. *)
Definition fill : K bool := λ s,
  match br_read (16 * 1024) (k_inner s) with
  | (Throw e, r') => (Throw e, set_input r' (k_buf s) s)
  | (Ok [], r') => (Ok false, set_input r' (k_buf s) s)
  | (Ok c, r') => (Ok true, set_input r' (k_buf s ++ c) s)
  end.

(** ** Chunk headers *)
Definition begin_chunk (size : Z) (sig : bytes) (s : Chunked R) : Chunked R :=
  mkChunked (k_inner s) (k_prev s) (k_buf s) StData size (k_delivered s) (size =? 0)%Z sig
    (if cc_signed cfg then Some [] else k_hash s) (k_digests s) (k_trailers s) (k_tbytes s).

Definition parse_header : K bool :=
  s ← get_st;
  match bfind crlf (k_buf s) with
  | None =>
      if (4096 <? length (k_buf s))%nat then malformed_body
      else more ← fill; if more : bool then mret false else malformed_body
  | Some eol =>
      let line := take eol (k_buf s) in
      _ ← modify_k (set_buf (drop (eol + 2) (k_buf s)));
      match line_size line with
      | None => malformed_body
      | Some size =>
          if cc_signed cfg && empty_string (line_sig line) then malformed_body
          else _ ← modify_k (begin_chunk size (line_sig line)); mret true
      end
  end.

(** ** End of a chunk *)

(** The signature of a chunk, chained onto the previous one. *)
Definition kEmptySha256 : bytes := bs "e3b0c44298fc1c149afbf4c8996fb92427ae41e4649b934ca495991b7852b855".
Definition nl : bytes := [Byte.x0a].
Definition chunk_mac (prev data : bytes) : bytes :=
  to_hex (hmac_sha256 (cc_key cfg)
    (bs "AWS4-HMAC-SHA256-PAYLOAD" ++ nl ++ cc_date cfg ++ nl ++ cc_scope cfg ++ nl ++ prev ++ nl ++ kEmptySha256 ++ nl
       ++ sha256_hex data)).

Definition close_hash (prev : bytes) (s : Chunked R) : Chunked R :=
  mkChunked (k_inner s) prev (k_buf s) (k_state s) (k_remaining s) (k_delivered s) (k_final s) (k_sig s) None
    (k_digests s) (k_trailers s) (k_tbytes s).

(** [while (buf_.size() < 2) fill()]: two fills are enough, each brings a byte. *)
Fixpoint fill_two (fuel : nat) : K unit :=
  match fuel with
  | O => throw OutOfFuel
  | S f =>
      s ← get_st;
      if (length (k_buf s) <? 2)%nat then
        more ← fill; if more : bool then fill_two f else malformed_body
      else mret tt
  end.

Definition check_signature : K unit :=
  s ← get_st;
  if cc_signed cfg then
    let expect := chunk_mac (k_prev s) (default [] (k_hash s)) in
    if constant_time_eq expect (k_sig s) then modify_k (close_hash expect)
    else _ ← modify_k (close_hash (k_prev s)); throw (S3Err SignatureDoesNotMatch)
  else mret tt.

Definition finish_chunk : K unit :=
  _ ← check_signature;
  s ← get_st;
  if k_final s then modify_k (set_state StTrailer)
  else
    _ ← fill_two 3;
    s ← get_st;
    if bool_decide (take 2 (k_buf s) = crlf)
    then modify_k (λ s, set_state StHeader (set_buf (drop 2 (k_buf s)) s))
    else malformed_body.

(** ** Trailers *)
Definition kTrailerSig : bytes := bs "x-amz-trailer-signature".

Definition trailer_mac (prev : bytes) (tr : gmap bytes bytes) : bytes :=
  let canon := flat_map (λ nv, nv.1 ++ bs ":" ++ nv.2 ++ nl) (items_of (delete kTrailerSig tr)) in
  to_hex (hmac_sha256 (cc_key cfg)
    (bs "AWS4-HMAC-SHA256-TRAILER" ++ nl ++ cc_date cfg ++ nl ++ cc_scope cfg ++ nl ++ prev ++ nl ++ sha256_hex canon)).

(** The signature line is checked and taken out. *)
Definition trailer_signature (prev : bytes) (tr : gmap bytes bytes) : result (gmap bytes bytes) :=
  if cc_trailer_signed cfg then
    match tr !! kTrailerSig with
    | None => Throw InvalidRequest
    | Some sig => if constant_time_eq (trailer_mac prev tr) sig then Ok (delete kTrailerSig tr) else Throw SignatureDoesNotMatch
    end
  else
    match tr !! kTrailerSig with
    | Some _ => if cc_unverifiable cfg then Ok (delete kTrailerSig tr) else Throw InvalidRequest
    | None => Ok tr
    end.

(** One declared digest against the payload. *)
Definition trailer_digest (tr : gmap bytes bytes) (dg : DeclaredTrailer * StreamingDigest) : result unit :=
  match base64_decode (default [] (tr !! dt_name dg.1)) with
  | Some raw =>
      if negb (length raw =? dt_bytes dg.1)%nat then Throw InvalidDigest
      else if bool_decide (final_raw hash dg.2 = raw) then Ok tt else Throw BadDigest
  | None => Throw InvalidDigest
  end.
Fixpoint trailer_digests (tr : gmap bytes bytes) (l : list (DeclaredTrailer * StreamingDigest)) : result unit :=
  match l with [] => Ok tt | dg :: l' => _ ← trailer_digest tr dg; trailer_digests tr l' end.

Definition verify_trailer (prev : bytes) (tr0 : gmap bytes bytes) (ds : list StreamingDigest) : result unit :=
  tr ← trailer_signature prev tr0;
  if negb (forallb (λ d, bool_decide (is_Some (tr !! dt_name d))) (cc_declared cfg)) then Throw InvalidRequest
  else if negb (forallb (λ nv, existsb (λ d, bool_decide (dt_name d = nv.1)) (cc_declared cfg)) (items_of tr))
  then Throw InvalidRequest
  else trailer_digests tr (zip (cc_declared cfg) ds).

Definition of_result {A} (r : result A) : K A :=
  match r with Ok a => mret a | Throw e => throw (S3Err e) end.

Fixpoint trailer_loop (fuel : nat) : K unit :=
  match fuel with
  | O => throw OutOfFuel
  | S f =>
      s ← get_st;
      match bfind crlf (k_buf s) with
      | None =>
          if (kTrailerMax <? k_tbytes s + Z.of_nat (length (k_buf s)))%Z then malformed_body
          else more ← fill; if more : bool then trailer_loop f else malformed_body
      | Some eol =>
          let line := take eol (k_buf s) in
          _ ← modify_k (set_buf (drop (eol + 2) (k_buf s)));
          if empty_string line then mret tt
          else
            let n := (k_tbytes s + Z.of_nat (length line) + 2)%Z in
            if (kTrailerMax <? n)%Z then malformed_body
            else match trailer_line line with
                 | None => malformed_body
                 | Some (name, value) =>
                     match k_trailers s !! name with
                     | Some _ => malformed_body
                     | None => _ ← modify_k (set_trailers (<[name := value]> (k_trailers s)) n); trailer_loop f
                     end
                 end
      end
  end.

Definition consume_trailer (fuel : nat) : K unit :=
  if negb (cc_trailer cfg) then
    _ ← modify_k (set_buf []);
    more ← fill;
    if more : bool then mret tt else modify_k (set_state StDone)
  else
    _ ← trailer_loop fuel;
    s ← get_st;
    _ ← of_result (verify_trailer (k_prev s) (k_trailers s) (k_digests s));
    modify_k (set_state StDone).

(** ** Reading *)
Fixpoint drain_to_done (fuel : nat) : K unit :=
  match fuel with
  | O => throw OutOfFuel
  | S f =>
      s ← get_st;
      match k_state s with
      | StDone => mret tt
      | StHeader => _ ← parse_header; drain_to_done f
      | StData =>
          if (k_remaining s =? 0)%Z then _ ← finish_chunk; drain_to_done f else throw (S3Err InvalidRequest)
      | StTrailer => _ ← consume_trailer f; drain_to_done f
      end
  end.

(** The bytes of the current chunk that go into a buffer of [n]: straight from the inner
    reader when nothing is buffered. *)
Definition chunk_bytes (n : nat) : K bytes := λ s,
  if empty_string (k_buf s) then
    match br_read (Nat.min n (Z.to_nat (k_remaining s))) (k_inner s) with
    | (Throw e, r') => (Throw e, set_input r' [] s)
    | (Ok [], r') => (Throw (S3Err InvalidRequest), set_input r' [] s)
    | (Ok c, r') => (Ok c, set_input r' [] s)
    end
  else
    let k := Nat.min (Nat.min n (length (k_buf s))) (Z.to_nat (k_remaining s)) in
    (Ok (take k (k_buf s)), set_buf (drop k (k_buf s)) s).

(** Both digests read the delivered bytes; the counts move. *)
Definition account (c : bytes) (s : Chunked R) : Chunked R :=
  mkChunked (k_inner s) (k_prev s) (k_buf s) (k_state s) (k_remaining s -₆₄ Z.of_nat (length c))%L3
    (k_delivered s +₆₄ Z.of_nat (length c))%L3 (k_final s) (k_sig s) ((λ h, h ++ c) <$> k_hash s)
    (dg_update c <$> k_digests s) (k_trailers s) (k_tbytes s).

Definition read_data (fuel n : nat) : K bytes :=
  c ← chunk_bytes n;
  _ ← modify_k (account c);
  s ← get_st;
  _ ← (if (k_remaining s =? 0)%Z && bool_decide (cc_decoded cfg = Some (k_delivered s))
       then drain_to_done fuel else mret tt);
  mret c.

Definition check_length : K bytes :=
  s ← get_st;
  if match cc_decoded cfg with Some l => negb (k_delivered s =? l)%Z | None => false end
  then throw (S3Err InvalidRequest) else mret [].

Fixpoint read_loop (fuel n : nat) : K bytes :=
  match fuel with
  | O => throw OutOfFuel
  | S f =>
      s ← get_st;
      match k_state s with
      | StDone => check_length
      | StHeader => _ ← parse_header; read_loop f n
      | StData =>
          if (k_remaining s =? 0)%Z then _ ← finish_chunk; read_loop f n
          else if (n =? 0)%nat then mret []
          else read_data f n
      | StTrailer => _ ← consume_trailer f; read_loop f n
      end
  end.
End reader.

(** [read] with a given amount of fuel per call. *)
#[export] Instance chunked_reader {R} `{BodyReader R} (hash : Algo -> bytes -> bytes) (sha256_hex : bytes -> bytes)
    (hmac : bytes -> bytes -> bytes) (cfg : ChunkConfig) (fuel : nat) : BodyReader (Chunked R) | 100 := {
  br_read n s := read_loop hash sha256_hex hmac cfg fuel n s;
  br_length _ := cc_decoded cfg }.

(** * Streaming payload types *)
Record StreamingPayload := mkStreaming { sp_chunked : bool; sp_signed : bool; sp_trailer : bool }.

Definition classify_payload (payload_hash : bytes) : result StreamingPayload :=
  let trailer := (8 <=? length payload_hash)%nat && bool_decide (drop (length payload_hash - 8) payload_hash = bs "-TRAILER") in
  if bool_decide (payload_hash = bs "STREAMING-AWS4-HMAC-SHA256-PAYLOAD")
     || bool_decide (payload_hash = bs "STREAMING-AWS4-HMAC-SHA256-PAYLOAD-TRAILER")
  then Ok (mkStreaming true true trailer)
  else if bool_decide (payload_hash = bs "STREAMING-UNSIGNED-PAYLOAD-TRAILER") then Ok (mkStreaming true false trailer)
  else if starts_with (bs "STREAMING-") payload_hash then Throw NotImplemented
  else Ok (mkStreaming false false trailer).

Fixpoint declared_loop (trailer_variant : bool) (names : list bytes) (out : list DeclaredTrailer)
    : result (list DeclaredTrailer) :=
  match names with
  | [] => Ok out
  | name :: names' =>
      if negb trailer_variant then Throw InvalidRequest
      else match checksum_spec name with
           | None => if starts_with (bs "x-amz-checksum-") name then Throw NotImplemented else Throw InvalidRequest
           | Some sp =>
               if existsb (λ d, bool_decide (dt_name d = name)) out then Throw InvalidRequest
               else declared_loop trailer_variant names' (out ++ [mkDeclared name (sp_algo sp) (sp_bytes sp)])
           end
  end.
Definition declared_trailers_of (req : ReqHead) (trailer_variant : bool) : result (list DeclaredTrailer) :=
  declared_loop trailer_variant (parse_declared_trailers req) [].

Record ChunkSigning := mkSigning { cs_key : bytes; cs_seed : bytes; cs_date : bytes; cs_scope : bytes }.

(** The configuration and the seed signature of the de-framer put over the body. *)
Definition install_chunked_body (req : ReqHead) (p : StreamingPayload) (declared : list DeclaredTrailer)
    (signing : option ChunkSigning) : result (ChunkConfig * bytes) :=
  match hfind (req_headers req) (bs "x-amz-decoded-content-length") with
  | None => Throw InvalidRequest
  | Some dl =>
      match parse_content_length dl with
      | None => Throw InvalidRequest
      | Some decoded_len =>
          let verify := match signing with Some _ => sp_signed p | None => false end in
          let field f := match signing with Some s => f s | None => [] end in
          Ok (mkChunkConfig verify (match signing with Some s => cs_key s | None => replicate 32 Byte.x00 end) (field cs_date) (field cs_scope) (Some decoded_len) (sp_trailer p)
                (verify && sp_trailer p) (match signing with None => true | Some _ => false end) declared,
              field cs_seed)
      end
  end.
