(* ===== verification/ChunkedProofs.v ===== *)
(** Correctness of the aws-chunked reader: what it accepts is exactly the framed, signed
    streams, and it delivers exactly their payload, whatever the fragmentation of the
    inner reader and the buffers of the caller. *)

From S2P Require Import Prelude Bytes Util Backend Checksum MemoryBackend Headers BodyReader Digest DigestProofs Chunked.
From Stdlib Require Import ZArith Lia.
From stdpp Require Import base list gmap strings.
Import Hex Base64.

(** * Helpers *)
Lemma diff_loop_zero a b d : (0 <= d)%Z -> length a = length b -> diff_loop d a b = 0%Z <-> d = 0%Z /\ a = b.
Proof.
  revert b d. induction a as [|x a IH]; intros [|y b] d Hd [=]; cbn; [naive_solver|].
  rewrite IH by (done || (apply Z.lor_nonneg; split; [done|]; apply Z.lxor_nonneg; byte_ranges; lia)).
  rewrite Z.lor_eq_0_iff, Z.lxor_eq_0_iff. split; [|naive_solver].
  intros [[-> Hb] ->]. split; [done|]. f_equal. rewrite <- (zb_bz x), <- (zb_bz y). by rewrite Hb.
Qed.

Lemma constant_time_eq_spec a b : constant_time_eq a b = true <-> a = b.
Proof.
  unfold constant_time_eq. destruct (Nat.eqb_spec (length a) (length b)) as [E|E].
  - rewrite Z.eqb_eq, diff_loop_zero by done. naive_solver.
  - split; [done|]. by intros ->.
Qed.

Lemma dg_update_app a q c : dg_update c (dg_update q (dg_init a)) = dg_update (q ++ c) (dg_init a).
Proof.
  pose proof (fed_update _ _ c _ (fed_update a [] q _ (fed_init a))) as (A1 & A2 & A3).
  pose proof (fed_update a [] (q ++ c) _ (fed_init a)) as (B1 & B2 & B3). cbn [app] in *.
  destruct (dg_update c _), (dg_update (q ++ c) _). cbn in *. congruence.
Qed.

(** The end of the first line, seen in a part of the stream. *)
Lemma line_in_part line w b d :
  bfind crlf (line ++ crlf) = Some (length line) -> b ++ d = line ++ crlf ++ w ->
  match bfind crlf b with
  | Some eol => eol = length line /\ b = line ++ crlf ++ drop (eol + 2) b /\ drop (eol + 2) b ++ d = w
  | None => length b <= length line + 1
  end.
Proof.
  intros Hl Heq. pose proof (bfind_app_l _ _ w _ Hl) as Hw. rewrite <- app_assoc, <- Heq in Hw.
  destruct (bfind crlf b) as [eol|] eqn:Eb.
  - pose proof (bfind_app_l _ _ d _ Eb) as Hb. rewrite Hw in Hb. injection Hb as <-.
    pose proof (bfind_spec _ _ _ Eb) as [_ Hlen]. cbn in Hlen.
    assert (b = line ++ crlf ++ drop (length line + 2) b) as E.
    { rewrite <- (take_drop (length line + 2) b) at 1. rewrite app_assoc. f_equal.
      rewrite <- (take_app_le b d) by lia. rewrite Heq, app_assoc, take_app_length'; [done|]. rewrite length_app. cbn. lia. }
    split; [done|]. split; [done|]. rewrite E in Heq at 1. rewrite <- !app_assoc in Heq. by do 2 apply app_inv_head in Heq.
  - destruct (decide (length b <= length line + 1)) as [|Hgt]; [done|]. exfalso.
    pose proof (bfind_take _ _ _ Hw) as Ht. cbn [length crlf] in Ht. rewrite take_app_le in Ht by lia.
    apply (bfind_app_l _ _ (drop (length line + 2) b)) in Ht. rewrite take_drop in Ht. congruence.
Qed.

(** Conversely, a line found in the buffer. *)
Lemma line_found b eol :
  bfind crlf b = Some eol ->
  length (take eol b) = eol /\ b = take eol b ++ crlf ++ drop (eol + 2) b /\ bfind crlf (take eol b ++ crlf) = Some eol.
Proof.
  intros H. pose proof (bfind_spec _ _ _ H) as [[t Ht] Hl]. cbn [length crlf] in Hl.
  assert (length (take eol b) = eol) as El by (rewrite length_take; lia). split; [done|].
  assert (b = take eol b ++ crlf ++ drop (eol + 2) b) as E.
  { rewrite <- (take_drop eol b) at 1. f_equal. rewrite <- drop_drop, Ht. cbn. done. }
  split; [done|]. pose proof (bfind_take _ _ _ H) as Hk. cbn [length crlf] in Hk.
  rewrite E in Hk at 1. rewrite app_assoc, take_app_length' in Hk; [done|]. rewrite length_app, El. cbn. lia.
Qed.

Section chunked.
Context {R : Type} `{ReaderLaw R} (hash : Algo -> bytes -> bytes) (sha256_hex : bytes -> bytes)
  (hmac : bytes -> bytes -> bytes) (cfg : ChunkConfig).

(** * The accepted streams *)
Definition mac_ok (prev sig data prev' : bytes) : Prop :=
  if cc_signed cfg then sig = chunk_mac sha256_hex hmac cfg prev data /\ prev' = chunk_mac sha256_hex hmac cfg prev data
  else prev' = prev.

(** [short] bounds the chunk header lines and [tmax] the trailer section: whether a longer
    one is rejected depends on the fragmentation. *)
Context (short : nat -> Prop) (tmax : Z).

Definition header_ok (line : bytes) (size : Z) (sig : bytes) : Prop :=
  bfind crlf (line ++ crlf) = Some (length line) /\ short (length line) /\
  line_size line = Some size /\ line_sig line = sig /\ (cc_signed cfg = true -> sig <> []).

(** [frames prev w datas last rest]: [w] starts with the chunks [datas], non-empty and
    chained from the signature [prev], and the empty chunk, after which the signature is
    [last] and [rest] follows. *)
Inductive frames : bytes -> bytes -> list bytes -> bytes -> bytes -> Prop :=
| frames_final prev line sig last rest :
    header_ok line 0 sig -> mac_ok prev sig [] last -> frames prev (line ++ crlf ++ rest) [] last rest
| frames_chunk prev line sig data prev' w datas last rest :
    header_ok line (Z.of_nat (length data)) sig -> data <> [] -> mac_ok prev sig data prev' ->
    frames prev' w datas last rest ->
    frames prev (line ++ crlf ++ data ++ crlf ++ w) (data :: datas) last rest.

(** The trailer lines up to the empty one. *)
Inductive trailer_lines : gmap bytes bytes -> Z -> bytes -> gmap bytes bytes -> Prop :=
| tl_end tr n w : trailer_lines tr n (crlf ++ w) tr
| tl_line tr n line w name value tr' :
    bfind crlf (line ++ crlf) = Some (length line) -> line <> [] ->
    (n + Z.of_nat (length line) + 2 <= tmax)%Z ->
    trailer_line line = Some (name, value) -> tr !! name = None ->
    trailer_lines (<[name := value]> tr) (n + Z.of_nat (length line) + 2) w tr' ->
    trailer_lines tr n (line ++ crlf ++ w) tr'.

Definition digests_for (payload : bytes) : list StreamingDigest :=
  (λ d, dg_update payload (dg_init (dt_algo d))) <$> cc_declared cfg.

Lemma digests_for_app q c : dg_update c <$> digests_for q = digests_for (q ++ c).
Proof. unfold digests_for. rewrite <- list_fmap_compose. apply list_fmap_ext. intros. cbn. apply dg_update_app. Qed.

Lemma digests_for_nil : (λ d, dg_init (dt_algo d)) <$> cc_declared cfg = digests_for [].
Proof.
  unfold digests_for. apply list_fmap_ext. intros i d _.
  pose proof (fed_update _ _ [] _ (fed_init (dt_algo d))) as (A1 & A2 & A3). pose proof (fed_init (dt_algo d)) as (B1 & B2 & B3).
  cbn [app] in *. destruct (dg_update [] _), (dg_init _). cbn in *. congruence.
Qed.

(** What must follow the last chunk: anything, or in the trailer variants the declared,
    signed and matching trailers. *)
Definition trailer_ok (prev rest payload : bytes) : Prop :=
  cc_trailer cfg = true ->
  exists tr, trailer_lines ∅ 0 rest tr /\ verify_trailer hash sha256_hex hmac cfg prev tr (digests_for payload) = Ok tt.

(** * States

    [q] has been delivered and [p] is still to come, [w] being the stream left. *)
Definition pending_stream (s : Chunked R) (q p w : bytes) : Prop :=
  match k_state s with
  | StHeader => exists datas last rest, frames (k_prev s) w datas last rest /\ p = concat datas /\ trailer_ok last rest (q ++ p)
  | StData =>
      exists h data tail prev',
        (cc_signed cfg = true -> k_hash s = Some h) /\ w = data ++ tail /\ k_remaining s = Z.of_nat (length data) /\
        mac_ok (k_prev s) (k_sig s) (h ++ data) prev' /\
        if k_final s then data = [] /\ p = [] /\ trailer_ok prev' tail q
        else exists datas last rest w', tail = crlf ++ w' /\ frames prev' w' datas last rest /\
               p = data ++ concat datas /\ trailer_ok last rest (q ++ p)
  | StTrailer => p = [] /\ trailer_ok (k_prev s) w q
  | StDone => p = []
  end.

Record pending (s : Chunked R) (d q p : bytes) : Prop := {
  pd_inner : serves (k_inner s) d;
  pd_count : k_delivered s = Z.of_nat (length q);
  pd_small : (Z.of_nat (length (q ++ p)) < 2 ^ 64)%Z;
  pd_decoded : cc_decoded cfg = None \/ cc_decoded cfg = Some (Z.of_nat (length (q ++ p)));
  pd_digests : k_digests s = digests_for q;
  pd_trailers : k_state s <> StDone -> k_trailers s = ∅ /\ k_tbytes s = 0%Z;
  pd_stream : pending_stream s q p (k_buf s ++ d) }.

(** Every iteration of the loops uses up some of this. *)
Definition weight (st : ChunkState) : nat := match st with StHeader | StDone => 0 | StData => 2 | StTrailer => 1 end.
Definition work (s : Chunked R) (d : bytes) : nat := 3 * length d + 2 * length (k_buf s) + weight (k_state s).

Lemma modify_bind {B} (g : Chunked R -> Chunked R) (f : unit -> ST (Chunked R) read_error B) s :
  (modify_k g ≫= f) s = f tt (g s).
Proof. done. Qed.

(** ** [fill] *)
Lemma fill_run (s : Chunked R) d :
  serves (k_inner s) d ->
  (d = [] /\ exists r', fill s = (Ok false, set_input r' (k_buf s) s) /\ serves r' []) \/
  (exists c d' r', c <> [] /\ d = c ++ d' /\ fill s = (Ok true, set_input r' (k_buf s ++ c) s) /\ serves r' d').
Proof.
  intros Hs. unfold fill. destruct (read_serves _ d (16 * 1024) Hs ltac:(lia)) as (c & d' & r' & -> & -> & _ & Hc & Hs').
  destruct c as [|x c]; [left|right].
  - pose proof (Hc eq_refl) as E. cbn in E. subst d'. split; [done|]. by exists r'.
  - exists (x :: c), d', r'. done.
Qed.

Lemma fill_pending (s : Chunked R) c d' r' q p :
  pending s (c ++ d') q p -> serves r' d' -> pending (set_input r' (k_buf s ++ c) s) d' q p.
Proof.
  intros [] Hs. split; try done. unfold pending_stream in *. cbn. by rewrite <- app_assoc.
Qed.

(** * Completeness *)
Section complete.
Context (short_fits : forall n, short n -> n < 4096) (tmax_fits : (0 <= tmax < kTrailerMax)%Z).

(** ** Chunk headers *)
Lemma frames_line prev w datas last rest :
  frames prev w datas last rest ->
  exists line size sig w', header_ok line size sig /\ w = line ++ crlf ++ w' /\
    ((size = 0%Z /\ datas = [] /\ rest = w' /\ mac_ok prev sig [] last) \/
     (exists data prev' w'' datas', datas = data :: datas' /\ size = Z.of_nat (length data) /\ data <> [] /\
        w' = data ++ crlf ++ w'' /\ mac_ok prev sig data prev' /\ frames prev' w'' datas' last rest)).
Proof.
  destruct 1 as [prev line sig last rest Hh Hm|prev line sig data prev' w datas last rest Hh Hd Hm Hf].
  - exists line, 0%Z, sig, rest. eauto 10.
  - exists line, (Z.of_nat (length data)), sig, (data ++ crlf ++ w). split; [done|]. split; [done|]. right. eauto 10.
Qed.

Lemma header_complete s d q p :
  pending s d q p -> k_state s = StHeader ->
  exists b s' d', parse_header cfg s = (Ok b, s') /\ pending s' d' q p /\ work s' d' < work s d.
Proof.
  intros Hp Hst. pose proof (pd_stream _ _ _ _ Hp) as Hf. unfold pending_stream in Hf. rewrite Hst in Hf.
  destruct Hf as (datas & last & rest & Hf & -> & Ht).
  destruct (frames_line _ _ _ _ _ Hf) as (line & size & sig & w' & (Hl & Hsh & Hsz & Hsig & Hne) & Hw & Hcase).
  pose proof (line_in_part line w' _ _ Hl Hw) as Hpart.
  unfold parse_header. autorewrite with lights3. destruct (bfind crlf (k_buf s)) as [eol|].
  - destruct Hpart as (-> & Hb & Hrest). cbv zeta. rewrite modify_bind.
    assert (take (length line) (k_buf s) = line) as -> by (rewrite Hb; apply take_app_length).
    rewrite Hsz, Hsig.
    assert (cc_signed cfg && empty_string sig = false) as ->.
    { destruct (cc_signed cfg); [|done]. cbn. unfold empty_string. destruct sig; [by destruct (Hne eq_refl)|done]. }
    rewrite modify_bind. eexists _, _, d. split; [reflexivity|]. split.
    + destruct Hp as [P1 P2 P3 P4 P5 P6 _]. split; try done; [by cbn; intros _; apply P6; rewrite Hst|].
      unfold pending_stream. cbn. rewrite Hrest. destruct Hcase as [(-> & -> & -> & Hm)|(data & prev' & w'' & datas' & -> & -> & Hd & -> & Hm & Hf')].
      * exists [], [], w', last. rewrite app_nil_r in Ht. split_and!; try done. by intros ->.
      * exists [], data, (crlf ++ w''), prev'. split_and!; try done; [by intros ->|].
        destruct (Z.eqb_spec (Z.of_nat (length data)) 0) as [E|_]; [destruct data; [done|cbn in E; lia]|].
        exists datas', last, rest, w''. split_and!; done.
    + assert (length (k_buf s) = length line + 2 + length (drop (length line + 2) (k_buf s))) as El
        by (rewrite Hb at 1; rewrite !length_app; cbn; lia).
      unfold work. rewrite Hst. cbn [k_buf k_state begin_chunk set_buf weight]. lia.
  - rewrite (proj2 (Nat.ltb_ge 4096 (length (k_buf s)))) by (pose proof (short_fits _ Hsh); lia). rewrite ST_bind_eq.
    destruct (fill_run s d (pd_inner _ _ _ _ Hp)) as [(-> & _)|(c & d' & r' & Hc & -> & -> & Hs')].
    { exfalso. rewrite app_nil_r in Hw. rewrite Hw, !length_app in Hpart. cbn in Hpart. lia. }
    eexists _, _, d'. split; [reflexivity|]. split; [by apply fill_pending|].
    unfold work. cbn. rewrite Hst, !length_app. destruct c; [done|]. cbn. lia.
Qed.

(** ** Ends of chunks *)
Lemma fill_two_run fuel s d :
  serves (k_inner s) d -> 2 <= length (k_buf s ++ d) -> 3 <= fuel + length (k_buf s) -> 0 < fuel ->
  exists r' b' d', fill_two fuel s = (Ok tt, set_input r' b' s) /\ serves r' d' /\ b' ++ d' = k_buf s ++ d /\
    2 <= length b' /\ 3 * length d' + 2 * length b' <= 3 * length d + 2 * length (k_buf s).
Proof.
  revert s d. induction fuel as [|fuel IH]; intros s d Hs Hlen Hf Hpos; [lia|].
  cbn [fill_two]. rewrite ST_get_bind.
  destruct (Nat.ltb_spec (length (k_buf s)) 2) as [Hlt|Hge].
  - rewrite ST_bind_eq. destruct (fill_run s d Hs) as [(-> & _)|(c & d' & r' & Hc & -> & -> & Hs')].
    { rewrite app_nil_r in Hlen. lia. }
    destruct fuel as [|fuel].
    { rewrite length_app in *. destruct c; [done|]. cbn in *. lia. }
    destruct (IH (set_input r' (k_buf s ++ c) s) d' Hs') as (r2 & b2 & d2 & -> & Hs2 & Heq & Hl2 & Hw2).
    + cbn. by rewrite <- app_assoc.
    + cbn. rewrite length_app. destruct c; [done|]. cbn. lia.
    + lia.
    + exists r2, b2, d2. split; [done|]. cbn in *. rewrite <- app_assoc in Heq. rewrite !length_app in *. split_and!; try done. lia.
  - exists (k_inner s), (k_buf s), d. destruct s. cbn. split_and!; done.
Qed.

Lemma signature_complete (s : Chunked R) h prev' :
  (cc_signed cfg = true -> k_hash s = Some h) -> mac_ok (k_prev s) (k_sig s) h prev' ->
  exists s', check_signature sha256_hex hmac cfg s = (Ok tt, s') /\ k_prev s' = prev' /\
    k_inner s' = k_inner s /\ k_buf s' = k_buf s /\ k_state s' = k_state s /\ k_delivered s' = k_delivered s /\
    k_final s' = k_final s /\ k_digests s' = k_digests s /\ k_trailers s' = k_trailers s /\ k_tbytes s' = k_tbytes s.
Proof.
  intros Hh Hm. unfold check_signature, mac_ok in *. autorewrite with lights3. destruct (cc_signed cfg).
  - destruct Hm as [Hs ->]. rewrite (Hh eq_refl). cbn [default]. cbv zeta. rewrite Hs.
    rewrite (proj2 (constant_time_eq_spec _ _) eq_refl). by eexists.
  - subst prev'. by eexists.
Qed.

Lemma finish_complete s d q p :
  pending s d q p -> k_state s = StData -> k_remaining s = 0%Z ->
  exists s' d', finish_chunk sha256_hex hmac cfg s = (Ok tt, s') /\ pending s' d' q p /\ work s' d' < work s d.
Proof.
  intros Hp Hst Hr. pose proof (pd_stream _ _ _ _ Hp) as Hf. unfold pending_stream in Hf. rewrite Hst in Hf.
  destruct Hf as (h & data & tail & prev' & Hh & Hw & Hrem & Hm & Hf). rewrite Hr in Hrem.
  destruct data; [|cbn in Hrem; lia]. rewrite app_nil_r in Hm. cbn [app] in *.
  destruct (signature_complete s h prev' Hh Hm) as (s1 & Es & E1 & E2 & E3 & E4 & E5 & E6 & E7 & E8 & E9).
  unfold finish_chunk. rewrite ST_bind_eq, Es, ST_get_bind, E6.
  destruct Hp as [P1 P2 P3 P4 P5 P6 _]. destruct (P6 ltac:(by rewrite Hst)) as [P6a P6b]. destruct (k_final s).
  - destruct Hf as (_ & -> & Ht). eexists _, d. split; [reflexivity|]. split.
    + split; cbn; rewrite ?E2, ?E5, ?E7, ?E8, ?E9; try done. unfold pending_stream. cbn. rewrite E1, E3, Hw. done.
    + unfold work. cbn [set_state k_buf k_state weight]. rewrite E3, Hst. cbn [weight]. lia.
  - destruct Hf as (datas & last & rest & w' & -> & Hf & -> & Ht).
    destruct (fill_two_run 3 s1 d) as (r2 & b2 & d2 & E2' & Hs2 & Heq & Hl2 & Hw2).
    { by rewrite E2. } { rewrite E3, Hw, length_app. cbn. lia. } { lia. } { lia. }
    rewrite ST_bind_eq, E2', ST_get_bind. cbn [k_buf set_input]. rewrite E3, Hw in Heq.
    destruct b2 as [|x [|y b2]]; [cbn in Hl2; lia|cbn in Hl2; lia|]. cbn in Heq. injection Heq as -> -> Heq.
    cbn [take]. rewrite bool_decide_eq_true_2 by done. eexists _, d2. split; [reflexivity|]. cbn [drop]. split.
    + split; cbn; rewrite ?E5, ?E7, ?E8, ?E9; try done. unfold pending_stream. cbn. rewrite drop_0, E1, Heq. eauto 10.
    + unfold work. cbn [set_state set_buf set_input k_buf k_state weight]. rewrite Hst. cbn [weight drop]. rewrite drop_0, E3 in *. cbn [length] in *. lia.
Qed.

(** ** Trailers *)
Lemma trailer_loop_complete fuel tr n w tr' (s : Chunked R) d :
  trailer_lines tr n w tr' -> k_trailers s = tr -> k_tbytes s = n -> (0 <= n <= tmax)%Z -> k_buf s ++ d = w -> serves (k_inner s) d ->
  3 * length d + 2 * length (k_buf s) < fuel ->
  exists s' d', trailer_loop fuel s = (Ok tt, s') /\ serves (k_inner s') d' /\ k_trailers s' = tr' /\
    k_prev s' = k_prev s /\ k_delivered s' = k_delivered s /\ k_digests s' = k_digests s /\
    3 * length d' + 2 * length (k_buf s') <= 3 * length d + 2 * length (k_buf s).
Proof.
  revert tr n w tr' s d. induction fuel as [|fuel IHf]; intros tr n w tr' s d Hl Htr Hn Hb Hw Hs Hf; [lia|]. cbn [trailer_loop]. rewrite ST_get_bind.
  assert (exists line w', w = line ++ crlf ++ w' /\ bfind crlf (line ++ crlf) = Some (length line) /\
    (n + Z.of_nat (length line) + (if empty_string line then 0 else 2) <= tmax)%Z /\
    if empty_string line then tr' = tr
    else exists name value, trailer_line line = Some (name, value) /\ tr !! name = None /\
           trailer_lines (<[name := value]> tr) (n + Z.of_nat (length line) + 2) w' tr') as (line & w' & -> & Hline & Hmax & Hcase).
  { clear -Hl Hb. revert Hb. destruct Hl as [tr n w|tr n line w name value tr' Hl1 Hl2 Hl3 Hl4 Hl5 Hl6]; intros Hb.
    - exists [], w. split_and!; [done|done|cbn; lia|done].
    - exists line, w. unfold empty_string. rewrite bool_decide_eq_false_2 by done. split_and!; [done|done|lia|]. eauto. }
  pose proof (line_in_part line w' _ _ Hline Hw) as Hpart. destruct (bfind crlf (k_buf s)) as [eol|].
  - destruct Hpart as (-> & Hbuf & Hrest). cbv zeta. rewrite modify_bind.
    assert (take (length line) (k_buf s) = line) as -> by (rewrite Hbuf; apply take_app_length).
    assert (length (k_buf s) = length line + 2 + length (drop (length line + 2) (k_buf s))) as El
      by (rewrite Hbuf at 1; rewrite !length_app; cbn; lia).
    destruct (empty_string line) eqn:Ee.
    + subst tr'. eexists _, d. split; [reflexivity|]. cbn [set_buf k_inner k_trailers k_prev k_delivered k_digests k_buf].
      split_and!; try done. lia.
    + destruct Hcase as (name & value & Htl & Hnone & Hmore). rewrite Hn.
      destruct (Z.ltb_spec kTrailerMax (n + Z.of_nat (length line) + 2)) as [Hbad|_]; [lia|].
      rewrite Htl, Htr, Hnone, modify_bind.
      destruct (IHf _ _ _ _
                  (set_trailers (<[name := value]> tr) (n + Z.of_nat (length line) + 2) (set_buf (drop (length line + 2) (k_buf s)) s)) d Hmore)
        as (s' & d' & -> & H1 & H2 & H3 & H4 & H5 & H6); try done.
      { lia. } { cbn [set_trailers set_buf k_buf]. lia. }
      exists s', d'. cbn [set_trailers set_buf k_buf k_prev k_delivered k_digests] in *. split_and!; try done. lia.
  - destruct (Z.ltb_spec kTrailerMax (k_tbytes s + Z.of_nat (length (k_buf s)))) as [Hbad|_].
    { exfalso. rewrite Hn in Hbad. destruct (empty_string line) eqn:Ee; [|lia].
      apply bool_decide_eq_true in Ee. subst line. cbn [length] in *. lia. }
    rewrite ST_bind_eq. destruct (fill_run s d Hs) as [(-> & _)|(c & d' & r' & Hc & -> & -> & Hs')].
    { exfalso. rewrite app_nil_r in Hw. rewrite Hw, !length_app in Hpart. cbn in Hpart. lia. }
    rewrite length_app in Hf.
    destruct (IHf _ _ _ _ (set_input r' (k_buf s ++ c) s) d' Hl) as (s' & d2 & -> & H1 & H2 & H3 & H4 & H5 & H6); try done.
    { cbn. by rewrite <- app_assoc. } { cbn [set_input k_buf]. rewrite length_app. destruct c; [done|]. cbn [length] in *. lia. }
    exists s', d2. cbn [set_input k_buf k_prev k_delivered k_digests] in *. rewrite !length_app in *. split_and!; try done. lia.
Qed.

Lemma trailer_complete fuel s d q p :
  pending s d q p -> k_state s = StTrailer -> work s d <= fuel ->
  exists s' d', consume_trailer hash sha256_hex hmac cfg fuel s = (Ok tt, s') /\ pending s' d' q p /\ work s' d' < work s d.
Proof.
  intros Hp Hst Hf. pose proof (pd_stream _ _ _ _ Hp) as Hs. unfold pending_stream in Hs. rewrite Hst in Hs. destruct Hs as [-> Ht].
  destruct Hp as [P1 P2 P3 P4 P5 P6 _]. destruct (P6 ltac:(by rewrite Hst)) as [P6a P6b].
  unfold work in *. rewrite Hst in *. cbn [weight] in *. unfold consume_trailer, trailer_ok in *. destruct (cc_trailer cfg) eqn:Ect; cbn [negb].
  - destruct (Ht eq_refl) as (tr & Hl & Hv).
    destruct (trailer_loop_complete fuel _ _ _ _ s d Hl P6a P6b) as (s' & d' & E & H1 & H2 & H3 & H4 & H5 & H6); try done; [lia|lia|].
    rewrite ST_bind_eq, E, ST_get_bind, H2, H3, H5, P5, Hv. unfold of_result. rewrite ST_ret_bind.
    eexists _, d'. split; [reflexivity|]. split; [|cbn [set_state k_buf k_state weight]; lia].
    split; cbn; rewrite ?H4, ?H5; try done.
  - rewrite modify_bind, ST_bind_eq. destruct (fill_run (set_buf [] s) d P1) as [(-> & r' & -> & Hs')|(c & d' & r' & Hc & -> & -> & Hs')].
    + eexists _, []. split; [reflexivity|]. split; [by split|]. cbn [set_state set_input set_buf k_buf k_state weight length]. lia.
    + eexists _, d'. split; [reflexivity|]. split.
      * split; cbn; try done. unfold pending_stream. cbn. rewrite Hst. split; [done|]. intros E. congruence.
      * cbn [set_input set_buf k_buf k_state app]. rewrite Hst, length_app. cbn [weight]. destruct c; [done|]. cbn [length]. lia.
Qed.

(** ** Reading *)
Lemma drain_complete fuel s d q :
  pending s d q [] -> work s d < fuel ->
  exists s' d', drain_to_done hash sha256_hex hmac cfg fuel s = (Ok tt, s') /\ pending s' d' q [] /\ k_state s' = StDone /\
    work s' d' <= work s d.
Proof.
  revert s d. induction fuel as [|fuel IH]; intros s d Hp Hf; [lia|]. cbn [drain_to_done]. rewrite ST_get_bind.
  destruct (k_state s) eqn:Hst.
  - destruct (header_complete s d q [] Hp Hst) as (b & s1 & d1 & E & Hp1 & Hw). rewrite ST_bind_eq, E.
    destruct (IH s1 d1 Hp1 ltac:(lia)) as (s2 & d2 & -> & H1 & H2 & H3). exists s2, d2. split_and!; try done. lia.
  - assert (k_remaining s = 0%Z) as Hr.
    { pose proof (pd_stream _ _ _ _ Hp) as Hs. unfold pending_stream in Hs. rewrite Hst in Hs.
      destruct Hs as (h & data & tail & prev' & _ & _ & -> & _ & Hs). destruct (k_final s); [by destruct Hs as (-> & _)|].
      destruct Hs as (datas & last & rest & w' & _ & _ & Hd & _). destruct data; [done|]. done. }
    rewrite Hr. cbn [Z.eqb]. destruct (finish_complete s d q [] Hp Hst Hr) as (s1 & d1 & E & Hp1 & Hw). rewrite ST_bind_eq, E.
    destruct (IH s1 d1 Hp1 ltac:(lia)) as (s2 & d2 & -> & H1 & H2 & H3). exists s2, d2. split_and!; try done. lia.
  - destruct (trailer_complete fuel s d q [] Hp Hst ltac:(lia)) as (s1 & d1 & E & Hp1 & Hw). rewrite ST_bind_eq, E.
    destruct (IH s1 d1 Hp1 ltac:(lia)) as (s2 & d2 & -> & H1 & H2 & H3). exists s2, d2. split_and!; try done. lia.
  - exists s, d. split_and!; done.
Qed.

(** The next bytes of a chunk come out of the buffer or of the inner reader. *)
Lemma chunk_bytes_run n (s : Chunked R) d data tail :
  serves (k_inner s) d -> k_buf s ++ d = data ++ tail -> k_remaining s = Z.of_nat (length data) -> data <> [] -> 0 < n ->
  exists c data' s' d', chunk_bytes n s = (Ok c, s') /\ c <> [] /\ length c <= n /\ data = c ++ data' /\
    serves (k_inner s') d' /\ k_buf s' ++ d' = data' ++ tail /\
    3 * length d' + 2 * length (k_buf s') < 3 * length d + 2 * length (k_buf s) /\
    k_prev s' = k_prev s /\ k_state s' = k_state s /\ k_remaining s' = k_remaining s /\ k_delivered s' = k_delivered s /\
    k_final s' = k_final s /\ k_sig s' = k_sig s /\ k_hash s' = k_hash s /\ k_digests s' = k_digests s /\
    k_trailers s' = k_trailers s /\ k_tbytes s' = k_tbytes s.
Proof.
  intros Hs Hw Hr Hd Hn. assert (0 < length data) as Hdl by (destruct data; [done|cbn; lia]).
  unfold chunk_bytes, empty_string. rewrite Hr, Nat2Z.id. case_bool_decide as Eb.
  - rewrite Eb in *. cbn [app] in Hw.
    destruct (read_serves _ d (Nat.min n (length data)) Hs ltac:(lia)) as (c & d' & r' & -> & -> & Hc & He & Hs').
    destruct c as [|x c]; [exfalso; pose proof (He eq_refl) as E; rewrite E in Hw; destruct data; done|].
    set (c' := x :: c) in *. eexists c', (drop (length c') data), _, d'. split; [reflexivity|]. cbn [set_input k_inner k_buf].
    assert (data = c' ++ drop (length c') data) as Edata.
    { rewrite <- (take_drop (length c') data) at 1. f_equal. rewrite <- (take_app_le data tail) by lia. rewrite <- Hw. apply take_app_length. }
    split_and!; try done; [lia| |rewrite !length_app; cbn [length c']; lia].
    cbn [app]. rewrite Edata in Hw at 1. rewrite <- app_assoc in Hw. by apply app_inv_head in Hw.
  - assert (0 < length (k_buf s)) as Hbl by (destruct (k_buf s); [done|cbn; lia]). cbv zeta.
    set (k := Nat.min (Nat.min n (length (k_buf s))) (length data)).
    eexists (take k (k_buf s)), (drop k data), _, d. split; [reflexivity|]. cbn [set_buf k_inner k_buf].
    assert (take k (k_buf s) = take k data) as Ek.
    { rewrite <- (take_app_le (k_buf s) d), <- (take_app_le data tail) by lia. by rewrite Hw. }
    assert (length (take k (k_buf s)) = k) as El by (rewrite length_take; lia).
    split_and!; try done; [intros E; rewrite E in El; cbn in El; lia|lia|by rewrite Ek, take_drop| |rewrite length_drop; lia].
    rewrite <- (drop_app_le (k_buf s) d), <- (drop_app_le data tail) by lia. by rewrite Hw.
Qed.

Lemma data_complete fuel n s d q p :
  pending s d q p -> k_state s = StData -> k_remaining s <> 0%Z -> 0 < n -> work s d <= fuel ->
  exists c p' s' d', read_data hash sha256_hex hmac cfg fuel n s = (Ok c, s') /\ p = c ++ p' /\ c <> [] /\ length c <= n /\
    pending s' d' (q ++ c) p' /\ work s' d' <= work s d.
Proof.
  intros [P1 P2 P3 P4 P5 P6 Hf] Hst Hr Hn Hfuel. unfold pending_stream in Hf. rewrite Hst in Hf.
  destruct Hf as (h & data & tail & prev' & Hh & Hw & Hrem & Hm & Hf).
  assert (data <> []) as Hd by (intros ->; cbn in Hrem; lia).
  destruct (k_final s) eqn:Hfin; [by destruct Hf|]. destruct Hf as (datas & last & rest & w' & -> & Hf & -> & Ht).
  destruct (chunk_bytes_run n s d data _ P1 Hw Hrem Hd Hn)
    as (c & data' & s1 & d1 & E & Hc & Hcn & -> & Hs1 & Hw1 & Hwork & F1 & F2 & F3 & F4 & F5 & F6 & F7 & F8 & F9 & F10).
  unfold read_data. rewrite ST_bind_eq, E, modify_bind, ST_get_bind. set (s2 := account c s1).
  rewrite <- !app_assoc in *.
  assert (pending s2 d1 (q ++ c) (data' ++ concat datas)) as Hp2.
  { rewrite !length_app in P3. split; cbn; rewrite ?F8, ?F9, ?F10, ?F4, <- ?app_assoc; try done.
    - rewrite P2, length_app, Nat2Z.inj_add. apply u64_small. unfold is_u64. lia.
    - rewrite !length_app. lia.
    - by rewrite P5, digests_for_app.
    - intros _. apply P6. by rewrite Hst.
    - unfold pending_stream. cbn. rewrite F2, Hst, F7, F1, F6, F5, Hfin, F3, Hrem.
      exists (h ++ c), data', (crlf ++ w'), prev'. rewrite <- !app_assoc. split_and!; try done.
      + intros Hsg. by rewrite (Hh Hsg).
      + rewrite length_app. rewrite u64_small; [lia|]. unfold is_u64. lia.
      + exists datas, last, rest, w'. split_and!; done. }
  assert (work s2 d1 < work s d) as Hw2.
  { unfold work. cbn [s2 account k_buf k_state]. rewrite F2, Hst. cbn [weight]. lia. }
  exists c, (data' ++ concat datas).
  destruct ((k_remaining s2 =? 0)%Z && bool_decide (cc_decoded cfg = Some (k_delivered s2))) eqn:Edr.
  - apply andb_prop in Edr as [_ Edec%bool_decide_eq_true].
    assert (data' ++ concat datas = []) as Enil.
    { rewrite (pd_count _ _ _ _ Hp2) in Edec. destruct (pd_decoded _ _ _ _ Hp2) as [E0|E0]; rewrite E0 in Edec; [done|].
      injection Edec as Edec. rewrite !length_app in Edec. apply nil_length_inv. rewrite length_app. lia. }
    rewrite Enil in *. destruct (drain_complete fuel s2 d1 _ Hp2 ltac:(lia)) as (s3 & d3 & E3 & Hp3 & _ & Hw3).
    rewrite ST_bind_eq, E3. exists s3, d3. split_and!; try done. lia.
  - rewrite ST_ret_bind. exists s2, d1. split_and!; try done. lia.
Qed.

Lemma read_complete fuel n s d q p :
  pending s d q p -> 0 < n -> work s d < fuel ->
  exists c p' s' d', read_loop hash sha256_hex hmac cfg fuel n s = (Ok c, s') /\ p = c ++ p' /\ (c = [] -> p = []) /\
    length c <= n /\ pending s' d' (q ++ c) p' /\ work s' d' <= work s d.
Proof.
  revert s d. induction fuel as [|fuel IH]; intros s d Hp Hn Hf; [lia|]. cbn [read_loop]. rewrite ST_get_bind.
  assert (forall s1 d1, pending s1 d1 q p -> work s1 d1 < work s d ->
    exists c p' s' d', read_loop hash sha256_hex hmac cfg fuel n s1 = (Ok c, s') /\ p = c ++ p' /\ (c = [] -> p = []) /\
      length c <= n /\ pending s' d' (q ++ c) p' /\ work s' d' <= work s d) as Hrec.
  { intros s1 d1 Hp1 Hw. destruct (IH s1 d1 Hp1 Hn ltac:(lia)) as (c & p' & s' & d' & E & H1 & H2 & H3 & H4 & H5).
    exists c, p', s', d'. split_and!; try done. lia. }
  destruct (k_state s) eqn:Hst.
  - destruct (header_complete s d q p Hp Hst) as (b & s1 & d1 & E & Hp1 & Hw). rewrite ST_bind_eq, E. by eapply Hrec.
  - destruct (Z.eqb_spec (k_remaining s) 0) as [Hr|Hr].
    + destruct (finish_complete s d q p Hp Hst Hr) as (s1 & d1 & E & Hp1 & Hw). rewrite ST_bind_eq, E. by eapply Hrec.
    + rewrite (proj2 (Nat.eqb_neq n 0)) by lia.
      destruct (data_complete fuel n s d q p Hp Hst Hr Hn ltac:(lia)) as (c & p' & s' & d' & E & H1 & H2 & H3 & H4 & H5).
      exists c, p', s', d'. split_and!; done.
  - destruct (trailer_complete fuel s d q p Hp Hst ltac:(lia)) as (s1 & d1 & E & Hp1 & Hw). rewrite ST_bind_eq, E. by eapply Hrec.
  - pose proof (pd_stream _ _ _ _ Hp) as Hs. unfold pending_stream in Hs. rewrite Hst in Hs. subst p.
    unfold check_length. rewrite ST_get_bind, (pd_count _ _ _ _ Hp).
    assert (match cc_decoded cfg with Some l => negb (Z.of_nat (length q) =? l)%Z | None => false end = false) as ->.
    { destruct (pd_decoded _ _ _ _ Hp) as [->| ->]; [done|]. by rewrite app_nil_r, Z.eqb_refl. }
    exists [], [], s, d. rewrite (app_nil_r q). split_and!; try done. cbn; lia.
Qed.
End complete.

(** * Soundness *)
Section sound.
Context (any_line : forall n, short n) (tmax_max : tmax = kTrailerMax).

(** What holds of every state, delivered bytes [q] and inner bytes [d]. *)
Record good (s : Chunked R) (d q : bytes) : Prop := {
  gd_inner : serves (k_inner s) d;
  gd_count : k_delivered s = Z.of_nat (length q);
  gd_small : (Z.of_nat (length q + length (k_buf s ++ d)) < 2 ^ 64)%Z;
  gd_digests : k_digests s = digests_for q;
  gd_trailers : k_state s <> StDone -> k_trailers s = ∅ /\ k_tbytes s = 0%Z;
  gd_hash : cc_signed cfg = true -> k_state s = StData -> is_Some (k_hash s);
  gd_chunk : k_state s = StData -> (0 <= k_remaining s < 2 ^ 64)%Z /\ (k_final s = true -> k_remaining s = 0%Z) }.

Lemma good_input (s : Chunked R) r' b' d d' q :
  good s d q -> serves r' d' -> b' ++ d' = k_buf s ++ d -> good (set_input r' b' s) d' q.
Proof. intros [] Hs Hb. split; try done. cbn. by rewrite Hb. Qed.

Lemma pending_input (s : Chunked R) r' b' d d' q p :
  good s d q -> b' ++ d' = k_buf s ++ d -> pending (set_input r' b' s) d' q p -> pending s d q p.
Proof. intros Hg Hb []. split; try done; [apply Hg|]. unfold pending_stream in *. cbn in *. by rewrite <- Hb. Qed.

Lemma fill_sound (s s' : Chunked R) b d :
  serves (k_inner s) d -> fill s = (Ok b, s') ->
  exists r' b' d', s' = set_input r' b' s /\ serves r' d' /\ b' ++ d' = k_buf s ++ d.
Proof.
  intros Hs E. destruct (fill_run s d Hs) as [(-> & r' & Ef & Hs')|(c & d' & r' & Hc & -> & Ef & Hs')];
    rewrite Ef in E; injection E as <- <-.
  - by exists r', (k_buf s), [].
  - exists r', (k_buf s ++ c), d'. by rewrite <- app_assoc.
Qed.

Lemma hex_size_range v s n : (0 <= v < 2 ^ 64)%Z -> hex_size v s = Some n -> (0 <= n < 2 ^ 64)%Z.
Proof.
  revert v. induction s as [|c s IH]; intros v Hv; cbn [hex_size]; [by intros [= <-]|].
  case_if; [done|]. apply IH. apply u64_range.
Qed.

Lemma line_size_range line n : line_size line = Some n -> (0 <= n < 2 ^ 64)%Z.
Proof. unfold line_size. cbv zeta. case_if; [done|]. apply hex_size_range. lia. Qed.

Lemma header_sound s b s' d q :
  good s d q -> k_state s = StHeader -> parse_header cfg s = (Ok b, s') ->
  exists d', good s' d' q /\ forall p, pending s' d' q p -> pending s d q p.
Proof.
  intros Hg Hst E. unfold parse_header in E. rewrite ST_get_bind in E. destruct (bfind crlf (k_buf s)) as [eol|] eqn:Ef.
  - destruct (line_found _ _ Ef) as (El & Eb & Hl). set (line := take eol (k_buf s)) in *. cbv zeta in E. rewrite modify_bind in E.
    destruct (line_size line) as [size|] eqn:Esz; [|done].
    destruct (cc_signed cfg && empty_string (line_sig line)) eqn:Esig; [done|]. rewrite modify_bind in E. injection E as <- <-.
    exists d. split.
    + destruct Hg as [G1 G2 G3 G4 G5 G6 G7]. split; try done.
      * cbn. rewrite Eb, !length_app in G3. rewrite length_app. lia.
      * cbn. intros _. apply G5. by rewrite Hst.
      * cbn. intros -> _. by eexists.
      * cbn. intros _. split; [by eapply line_size_range|]. apply Z.eqb_eq.
    + intros p [P1 P2 P3 P4 P5 P6 Hf]. split; try done; [intros _; by apply P6|].
      unfold pending_stream in *. cbn in Hf. rewrite Hst. destruct Hf as (h & data & tail & prev' & Hh & Hw & -> & Hm & Hf).
      assert (mac_ok (k_prev s) (line_sig line) data prev') as Hm'.
      { unfold mac_ok in *. destruct (cc_signed cfg); [|done]. by injection (Hh eq_refl) as <-. }
      assert (header_ok line (Z.of_nat (length data)) (line_sig line)) as Hok.
      { split; [by rewrite Hl, El|]. split; [apply any_line|]. split; [done|]. split; [done|]. intros Es Hn. rewrite Es, Hn in Esig. done. }
      rewrite Eb, <- !app_assoc, Hw. destruct (Z.eqb_spec (Z.of_nat (length data)) 0) as [E0|E0].
      * destruct Hf as (-> & -> & Ht). exists [], prev', tail. rewrite app_nil_r. split_and!; [|done|done]. cbn [app]. by eapply frames_final.
      * destruct Hf as (datas & last & rest & w' & -> & Hf & -> & Ht).
        exists (data :: datas), last, rest. split_and!; [|done|done]. eapply frames_chunk; try done. by intros ->.
  - destruct (4096 <? length (k_buf s))%nat; [done|]. rewrite ST_bind_eq in E. destruct (fill s) as [[more|e] s1] eqn:Efill; [|done].
    destruct (fill_sound _ _ _ _ (gd_inner _ _ _ Hg) Efill) as (r' & b' & d' & -> & Hs' & Eb). destruct more; [|done].
    injection E as <- <-. exists d'. split; [by eapply good_input|]. intros p. by apply pending_input.
Qed.

Lemma signature_sound (s s' : Chunked R) d q :
  good s d q -> k_state s = StData -> check_signature sha256_hex hmac cfg s = (Ok tt, s') ->
  exists h, (cc_signed cfg = true -> k_hash s = Some h) /\ mac_ok (k_prev s) (k_sig s) h (k_prev s') /\
    k_inner s' = k_inner s /\ k_buf s' = k_buf s /\ k_state s' = k_state s /\ k_delivered s' = k_delivered s /\
    k_final s' = k_final s /\ k_digests s' = k_digests s /\ k_trailers s' = k_trailers s /\ k_tbytes s' = k_tbytes s.
Proof.
  intros Hg Hst E. unfold check_signature in E. rewrite ST_get_bind in E. unfold mac_ok.
  pose proof (gd_hash _ _ _ Hg) as Hh. destruct (cc_signed cfg).
  - destruct (Hh eq_refl Hst) as [h Eh]. rewrite Eh in E. cbn [default] in E. cbv zeta in E.
    destruct (constant_time_eq _ _) eqn:Ec; [|done]. apply constant_time_eq_spec in Ec. injection E as <-.
    exists h. split; [done|]. split; [done|]. done.
  - injection E as <-. by exists [].
Qed.

Lemma fill_two_sound fuel (s s' : Chunked R) d :
  serves (k_inner s) d -> fill_two fuel s = (Ok tt, s') ->
  exists r' b' d', s' = set_input r' b' s /\ serves r' d' /\ b' ++ d' = k_buf s ++ d /\ 2 <= length b'.
Proof.
  revert s d. induction fuel as [|fuel IH]; intros s d Hs; [done|]. cbn [fill_two]. rewrite ST_get_bind.
  destruct (Nat.ltb_spec (length (k_buf s)) 2) as [Hlt|Hge].
  - rewrite ST_bind_eq. destruct (fill s) as [[more|e] s1] eqn:Ef; [|done].
    destruct (fill_sound _ _ _ _ Hs Ef) as (r1 & b1 & d1 & -> & Hs1 & Eb1). destruct more; [|done]. intros E.
    destruct (IH (set_input r1 b1 s) d1 Hs1 E) as (r2 & b2 & d2 & -> & Hs2 & Eb2 & H2). exists r2, b2, d2. split_and!; try done. by rewrite Eb2.
  - intros [= <-]. exists (k_inner s), (k_buf s), d. by destruct s.
Qed.

Lemma finish_sound s s' d q :
  good s d q -> k_state s = StData -> k_remaining s = 0%Z -> finish_chunk sha256_hex hmac cfg s = (Ok tt, s') ->
  exists d', good s' d' q /\ forall p, pending s' d' q p -> pending s d q p.
Proof.
  intros Hg Hst Hr E. unfold finish_chunk in E. rewrite ST_bind_eq in E.
  destruct (check_signature _ _ _ s) as [[[]|e] s1] eqn:Ec; [|done].
  destruct (signature_sound _ _ _ _ Hg Hst Ec) as (h & Hh & Hm & E2 & E3 & E4 & E5 & E6 & E7 & E8 & E9).
  rewrite ST_get_bind, E6 in E. pose proof Hg as [G1 G2 G3 G4 G5 G6 G7]. destruct (G5 ltac:(by rewrite Hst)) as [G5a G5b].
  destruct (k_final s) eqn:Hfin.
  - injection E as <-. exists d. split; [by split; cbn; rewrite ?E2, ?E3, ?E5, ?E7, ?E8, ?E9|].
    intros p [P1 P2 P3 P4 P5 P6 Hf]. split; try done. unfold pending_stream in *. cbn in Hf. rewrite Hst, Hfin.
    destruct Hf as [-> Ht]. exists h, [], (k_buf s ++ d), (k_prev s1). rewrite app_nil_r, Hr, <- E3. split_and!; done.
  - rewrite ST_bind_eq in E. destruct (fill_two 3 s1) as [[[]|e] s2] eqn:Ef; [|done].
    destruct (fill_two_sound _ _ _ d ltac:(by rewrite E2) Ef) as (r2 & b2 & d2 & -> & Hs2 & Eb2 & Hl2).
    rewrite ST_get_bind in E. cbn [set_input k_buf] in E. case_bool_decide as Et; [|done]. injection E as <-.
    destruct b2 as [|x [|y b2]]; [cbn in Hl2; lia|cbn in Hl2; lia|]. cbn in Et. injection Et as -> ->.
    rewrite E3 in Eb2. cbn [app] in Eb2. exists d2. split.
    + split; cbn; rewrite ?E5, ?E7, ?E8, ?E9, ?drop_0; try done. rewrite <- Eb2 in G3. cbn in G3. lia.
    + intros p [P1 P2 P3 P4 P5 P6 Hf]. split; try done. unfold pending_stream in *. cbn in Hf. rewrite drop_0 in Hf. rewrite Hst, Hfin.
      destruct Hf as (datas & last & rest & Hf & -> & Ht).
      exists h, [], (k_buf s ++ d), (k_prev s1). rewrite app_nil_r, Hr. split_and!; try done.
      exists datas, last, rest, (b2 ++ d2). by rewrite <- Eb2.
Qed.

Lemma trailer_loop_sound fuel (s s' : Chunked R) d :
  serves (k_inner s) d -> trailer_loop fuel s = (Ok tt, s') ->
  exists d', trailer_lines (k_trailers s) (k_tbytes s) (k_buf s ++ d) (k_trailers s') /\ serves (k_inner s') d' /\
    length (k_buf s' ++ d') <= length (k_buf s ++ d) /\
    k_prev s' = k_prev s /\ k_delivered s' = k_delivered s /\ k_digests s' = k_digests s.
Proof.
  revert s d. induction fuel as [|fuel IH]; intros s d Hs; [done|]. cbn [trailer_loop]. rewrite ST_get_bind.
  destruct (bfind crlf (k_buf s)) as [eol|] eqn:Ef.
  - destruct (line_found _ _ Ef) as (El & Eb & Hl). set (line := take eol (k_buf s)) in *. cbv zeta. rewrite modify_bind.
    set (rest := drop (eol + 2) (k_buf s)) in *. assert (length rest <= length (k_buf s)) as Hlen by (unfold rest; rewrite length_drop; lia).
    destruct (empty_string line) eqn:Ee.
    + apply bool_decide_eq_true in Ee. intros [= <-]. exists d. cbn. rewrite !length_app. rewrite Eb, Ee, <- !app_assoc. cbn [app].
      split_and!; try done; [apply tl_end|rewrite length_app; lia].
    + apply bool_decide_eq_false in Ee. case_if; [done|]. apply Z.ltb_ge in Hif.
      destruct (trailer_line line) as [[name value]|] eqn:Etl; [|done]. destruct (k_trailers s !! name) eqn:En; [done|].
      rewrite modify_bind. intros E. apply (IH _ d) in E as (d' & H1 & H2 & H3 & H4 & H5 & H6); [|done].
      exists d'. cbn [set_trailers set_buf k_trailers k_tbytes k_buf k_inner k_prev k_delivered k_digests] in *.
      split_and!; try done.
      * rewrite Eb at 1. rewrite <- !app_assoc. eapply tl_line; try done; [by rewrite Hl, El|by rewrite tmax_max].
      * rewrite !length_app in *. lia.
  - case_if; [done|]. rewrite ST_bind_eq. destruct (fill s) as [[more|e] s1] eqn:Efill; [|done].
    destruct (fill_sound _ _ _ _ Hs Efill) as (r1 & b1 & d1 & -> & Hs1 & Eb1). destruct more; [|done]. intros E.
    apply (IH _ d1) in E as (d' & H1 & H2 & H3 & H4 & H5 & H6); [|done].
    cbn [set_input k_trailers k_tbytes k_buf k_inner k_prev k_delivered k_digests] in *. rewrite Eb1 in *. by exists d'.
Qed.

Lemma trailer_sound fuel s s' d q :
  good s d q -> k_state s = StTrailer -> consume_trailer hash sha256_hex hmac cfg fuel s = (Ok tt, s') ->
  exists d', good s' d' q /\ forall p, pending s' d' q p -> pending s d q p.
Proof.
  intros Hg Hst E. pose proof Hg as [G1 G2 G3 G4 G5 G6 G7]. destruct (G5 ltac:(by rewrite Hst)) as [G5a G5b].
  assert (forall s1 d1 p, pending s1 d1 q p -> (k_state s1 = StDone -> trailer_ok (k_prev s) (k_buf s ++ d) q) ->
            k_state s1 = StDone -> pending s d q p) as Hback.
  { intros s1 d1 p [P1 P2 P3 P4 P5 P6 Hf] Ht Hs1. split; try done. unfold pending_stream in *. rewrite Hs1 in Hf. rewrite Hst.
    split; [done|]. by apply Ht. }
  unfold consume_trailer in E. destruct (cc_trailer cfg) eqn:Ect; cbn [negb] in E.
  - rewrite ST_bind_eq in E. destruct (trailer_loop fuel s) as [[[]|e] s1] eqn:El; [|done].
    destruct (trailer_loop_sound _ _ _ _ G1 El) as (d' & H1 & H2 & H3 & H4 & H5 & H6). rewrite ST_get_bind, ST_bind_eq in E.
    destruct (verify_trailer _ _ _ _ _ _ _) as [[]|e] eqn:Ev; [|done]. cbn in E. injection E as <-. exists d'. split.
    + split; cbn; rewrite ?H5, ?H6; try done. lia.
    + intros p Hp. apply (Hback _ _ _ Hp); [|done]. intros _ _. exists (k_trailers s1). rewrite <- G5a, <- G5b, <- G4, <- H6, <- H4. done.
  - rewrite modify_bind, ST_bind_eq in E. destruct (fill (set_buf [] s)) as [[more|e] s1] eqn:Ef; [|done].
    destruct (fill_run (set_buf [] s) d G1) as [(-> & r' & Ef' & Hs')|(c & d' & r' & Hc & -> & Ef' & Hs')];
      rewrite Ef' in Ef; injection Ef as <- <-; injection E as <-.
    + exists []. split; [split; cbn; try done; lia|]. intros p Hp. apply (Hback _ _ _ Hp); [|done]. intros _ E. congruence.
    + exists d'. split.
      * split; cbn; rewrite ?Hst; try done. rewrite !length_app in *. lia.
      * intros p [P1 P2 P3 P4 P5 P6 Hf]. split; try done. unfold pending_stream in *. cbn in Hf. rewrite Hst in *.
        destruct Hf as [-> _]. split; [done|]. intros E. congruence.
Qed.

Lemma drain_sound fuel s s' d q :
  good s d q -> drain_to_done hash sha256_hex hmac cfg fuel s = (Ok tt, s') ->
  exists d', good s' d' q /\ forall p, pending s' d' q p -> pending s d q p.
Proof.
  revert s d. induction fuel as [|fuel IH]; intros s d Hg; [done|]. cbn [drain_to_done]. rewrite ST_get_bind.
  assert (forall s1 d1, good s1 d1 q -> (forall p, pending s1 d1 q p -> pending s d q p) ->
    drain_to_done hash sha256_hex hmac cfg fuel s1 = (Ok tt, s') ->
    exists d', good s' d' q /\ forall p, pending s' d' q p -> pending s d q p) as Hrec.
  { intros s1 d1 Hg1 Hp1 E. destruct (IH s1 d1 Hg1 E) as (d' & Hg' & Hp'). exists d'. auto. }
  destruct (k_state s) eqn:Hst.
  - rewrite ST_bind_eq. destruct (parse_header cfg s) as [[b|e] s1] eqn:E; [|done].
    destruct (header_sound _ _ _ _ _ Hg Hst E) as (d1 & ? & ?). eauto.
  - destruct (Z.eqb_spec (k_remaining s) 0) as [Hr|Hr]; [|done].
    rewrite ST_bind_eq. destruct (finish_chunk sha256_hex hmac cfg s) as [[[]|e] s1] eqn:E; [|done].
    destruct (finish_sound _ _ _ _ Hg Hst Hr E) as (d1 & ? & ?). eauto.
  - rewrite ST_bind_eq. destruct (consume_trailer hash sha256_hex hmac cfg fuel s) as [[[]|e] s1] eqn:E; [|done].
    destruct (trailer_sound _ _ _ _ _ Hg Hst E) as (d1 & ? & ?). eauto.
  - intros [= <-]. by exists d.
Qed.

Lemma chunk_bytes_sound n (s s' : Chunked R) d c :
  serves (k_inner s) d -> (0 < k_remaining s)%Z -> 0 < n -> chunk_bytes n s = (Ok c, s') ->
  exists r' b' d', s' = set_input r' b' s /\ serves r' d' /\ c <> [] /\ (Z.of_nat (length c) <= k_remaining s)%Z /\
    c ++ b' ++ d' = k_buf s ++ d.
Proof.
  intros Hs Hr Hn. unfold chunk_bytes, empty_string. case_bool_decide as Eb.
  - destruct (read_serves _ d (Nat.min n (Z.to_nat (k_remaining s))) Hs ltac:(lia)) as (c' & d' & r' & -> & -> & Hl & _ & Hs').
    destruct c' as [|x c']; [done|]. intros [= <- <-]. exists r', [], d'. rewrite Eb. split_and!; try done. cbn [length] in *. lia.
  - assert (0 < length (k_buf s)) by (destruct (k_buf s); [done|cbn; lia]). cbv zeta.
    set (k := Nat.min _ _). intros [= <- <-]. exists (k_inner s), (drop k (k_buf s)), d.
    assert (length (take k (k_buf s)) = k) as El by (rewrite length_take; lia). rewrite El, app_assoc, take_drop.
    split_and!; try done; [intros E; rewrite E in El; cbn in El; lia|lia].
Qed.

Lemma data_sound fuel n s s' d q c :
  good s d q -> k_state s = StData -> k_remaining s <> 0%Z -> 0 < n ->
  read_data hash sha256_hex hmac cfg fuel n s = (Ok c, s') ->
  c <> [] /\ exists d', good s' d' (q ++ c) /\ forall p, pending s' d' (q ++ c) p -> pending s d q (c ++ p).
Proof.
  intros Hg Hst Hr Hn E. pose proof Hg as [G1 G2 G3 G4 G5 G6 G7]. destruct (G7 Hst) as [G7a G7b].
  assert (k_final s = false) as Hfin by (destruct (k_final s); [by destruct (Hr (G7b eq_refl))|done]).
  unfold read_data in E. rewrite ST_bind_eq in E. destruct (chunk_bytes n s) as [[c0|e] s1] eqn:Ec; [|done].
  destruct (chunk_bytes_sound n s s1 d c0 G1 ltac:(lia) Hn Ec) as (r' & b' & d' & -> & Hs' & Hc & Hcl & Hw).
  rewrite modify_bind, ST_get_bind in E. set (s2 := account c0 (set_input r' b' s)) in *.
  assert (length c0 + length (b' ++ d') = length (k_buf s ++ d)) as Hlen by (rewrite <- Hw, (length_app c0); done).
  assert (good s2 d' (q ++ c0)) as Hg2.
  { split; cbn; try done.
    - rewrite G2, length_app, Nat2Z.inj_add. apply u64_small. unfold is_u64. lia.
    - rewrite (length_app q). lia.
    - by rewrite G4, digests_for_app.
    - intros Hs _. destruct (G6 Hs Hst) as [h ->]. by eexists.
    - intros _. rewrite Hfin. split; [apply u64_range|done]. }
  assert (forall p, pending s2 d' (q ++ c0) p -> pending s d q (c0 ++ p)) as Hp2.
  { intros p [P1 P2 P3 P4 P5 P6 Hf]. rewrite <- app_assoc in *. split; try done.
    unfold pending_stream in *. cbn in Hf. rewrite Hst, Hfin in Hf |- *. rewrite u64_small in Hf by (unfold is_u64; lia).
    destruct Hf as (h' & data & tail & prev' & Hh & Hwd & Hrem & Hm & datas & last & rest & w' & -> & Hf & -> & Ht).
    assert (exists h, (cc_signed cfg = true -> k_hash s = Some h) /\ mac_ok (k_prev s) (k_sig s) (h ++ c0 ++ data) prev') as (h & Hh1 & Hm1).
    { unfold mac_ok in *. destruct (cc_signed cfg); [|by exists []]. destruct (G6 eq_refl Hst) as [h Eh].
      rewrite Eh in Hh. injection (Hh eq_refl) as <-. exists h. rewrite app_assoc. done. }
    exists h, (c0 ++ data), (crlf ++ w'), prev'. rewrite <- Hw, Hwd, <- !app_assoc, length_app. split_and!; try done; [lia|].
    exists datas, last, rest, w'. rewrite <- !app_assoc in *. split_and!; done. }
  destruct ((k_remaining s2 =? 0)%Z && _) eqn:Edr; rewrite ST_bind_eq in E.
  - destruct (drain_to_done hash sha256_hex hmac cfg fuel s2) as [[[]|e] s3] eqn:Ed; [|done]. injection E as <- <-.
    destruct (drain_sound _ _ _ _ _ Hg2 Ed) as (d3 & Hg3 & Hp3). split; [done|]. exists d3. auto.
  - injection E as <- <-. split; [done|]. exists d'. auto.
Qed.

Lemma read_sound fuel n s s' d q c :
  good s d q -> 0 < n -> read_loop hash sha256_hex hmac cfg fuel n s = (Ok c, s') ->
  exists d', good s' d' (q ++ c) /\ (forall p, pending s' d' (q ++ c) p -> pending s d q (c ++ p)) /\
    (c = [] -> pending s' d' q []).
Proof.
  revert s d. induction fuel as [|fuel IH]; intros s d Hg Hn; [done|]. cbn [read_loop]. rewrite ST_get_bind.
  assert (forall s1 d1, good s1 d1 q -> (forall p, pending s1 d1 q p -> pending s d q p) ->
    read_loop hash sha256_hex hmac cfg fuel n s1 = (Ok c, s') ->
    exists d', good s' d' (q ++ c) /\ (forall p, pending s' d' (q ++ c) p -> pending s d q (c ++ p)) /\ (c = [] -> pending s' d' q [])) as Hrec.
  { intros s1 d1 Hg1 Hp1 E. destruct (IH s1 d1 Hg1 Hn E) as (d' & Hg' & Hp' & Hc). exists d'. auto. }
  destruct (k_state s) eqn:Hst.
  - rewrite ST_bind_eq. destruct (parse_header cfg s) as [[b|e] s1] eqn:E; [|done].
    destruct (header_sound _ _ _ _ _ Hg Hst E) as (d1 & ? & ?). eauto.
  - destruct (Z.eqb_spec (k_remaining s) 0) as [Hr|Hr].
    + rewrite ST_bind_eq. destruct (finish_chunk sha256_hex hmac cfg s) as [[[]|e] s1] eqn:E; [|done].
      destruct (finish_sound _ _ _ _ Hg Hst Hr E) as (d1 & ? & ?). eauto.
    + rewrite (proj2 (Nat.eqb_neq n 0)) by lia. intros E.
      destruct (data_sound _ _ _ _ _ _ _ Hg Hst Hr Hn E) as (Hc & d1 & Hg1 & Hp1). exists d1. done.
  - rewrite ST_bind_eq. destruct (consume_trailer hash sha256_hex hmac cfg fuel s) as [[[]|e] s1] eqn:E; [|done].
    destruct (trailer_sound _ _ _ _ _ Hg Hst E) as (d1 & ? & ?). eauto.
  - unfold check_length. autorewrite with lights3. destruct (match cc_decoded cfg with Some _ => _ | None => _ end) eqn:Ed; [done|].
    intros [= <- <-]. exists d. rewrite app_nil_r. split; [done|]. split; [done|]. intros _. destruct Hg as [G1 G2 G3 G4 G5 G6 G7].
    split; try done; rewrite ?app_nil_r.
    + lia.
    + destruct (cc_decoded cfg) as [l|]; [right|by left]. apply negb_false_iff, Z.eqb_eq in Ed. rewrite <- Ed, G2. done.
    + unfold pending_stream. by rewrite Hst.
Qed.

Lemma read_all_sound fuel bufs s d q payload :
  good s d q -> Forall (λ n, 0 < n) bufs ->
  read_all (H := chunked_reader hash sha256_hex hmac cfg fuel) bufs s = (payload, Ok tt) -> pending s d q payload.
Proof.
  revert s d q payload. induction bufs as [|n bufs IH]; intros s d q payload Hg Hb; [done|].
  apply list.Forall_cons in Hb as [Hn Hb]. cbn [read_all].
  change (br_read n s) with (read_loop hash sha256_hex hmac cfg fuel n s).
  destruct (read_loop hash sha256_hex hmac cfg fuel n s) as [[c|e] s'] eqn:E; [|done].
  destruct (read_sound _ _ _ _ _ _ _ Hg Hn E) as (d' & Hg' & Hp & Hc). destruct c as [|x c].
  - intros [= <-]. rewrite app_nil_r in Hp. apply Hp. by apply Hc.
  - destruct (read_all bufs s') as [rest o] eqn:Er. intros [= <- ->]. apply (Hp rest). by eapply IH.
Qed.
End sound.
End chunked.

(** * The reader obeys the reader law *)
Section law.
Context {R : Type} `{ReaderLaw R} (hash : Algo -> bytes -> bytes) (sha256_hex : bytes -> bytes)
  (hmac : bytes -> bytes -> bytes) (cfg : ChunkConfig) (fuel : nat).

(** Header lines under 4096 bytes, trailer sections under 16 KiB. *)
Definition fits : nat -> Prop := λ n, n < 4096.
Definition trailer_fits : Z := kTrailerMax - 1.

Definition chunked_law : @ReaderLaw (Chunked R) (chunked_reader hash sha256_hex hmac cfg fuel).
Proof.
  refine {| serves s p := exists d q, pending hash sha256_hex hmac cfg fits trailer_fits s d q p /\ work s d < fuel |}.
  - intros s p n (d & q & Hp & Hw) Hn.
    destruct (read_complete hash sha256_hex hmac cfg fits trailer_fits (λ _ h, h) ltac:(unfold trailer_fits, kTrailerMax; lia)
                fuel n s d q p Hp Hn Hw) as (c & p' & s' & d' & E & H1 & H2 & H3 & H4 & H5).
    exists c, p', s'. split_and!; try done. exists d', (q ++ c). split; [done|lia].
  - done.
Defined.

Lemma init_pending short tmax (r : R) seed d datas last rest :
  serves r d -> frames sha256_hex hmac cfg short seed d datas last rest ->
  trailer_ok hash sha256_hex hmac cfg tmax last rest (concat datas) ->
  cc_decoded cfg = None \/ cc_decoded cfg = Some (Z.of_nat (length (concat datas))) ->
  (Z.of_nat (length (concat datas)) < 2 ^ 64)%Z ->
  pending hash sha256_hex hmac cfg short tmax (chunked_init cfg r seed) d [] (concat datas).
Proof. intros. split; try done; [apply digests_for_nil|]. unfold pending_stream. cbn. by exists datas, last, rest. Qed.

Lemma init_good (r : R) seed d :
  serves r d -> (Z.of_nat (length d) < 2 ^ 64)%Z -> good cfg (chunked_init cfg r seed) d [].
Proof. intros. split; try done. apply digests_for_nil. Qed.
End law.

(** C31: A framed body is decoded to its payload: for every sequence of chunks whose
    signatures chain from the seed (when they are checked), followed by the trailers the
    payload type requires, the reader delivers exactly the concatenated chunk data and
    then EOF, however the inner reader fragments the stream and whatever buffers the
    caller passes. Fuel of three per byte is enough. *)
Theorem chunked_decodes {R} `{ReaderLaw R} hash sha256_hex hmac cfg (r : R) seed d datas last rest fuel bufs :
  serves r d -> frames sha256_hex hmac cfg fits seed d datas last rest ->
  trailer_ok hash sha256_hex hmac cfg trailer_fits last rest (concat datas) ->
  cc_decoded cfg = None \/ cc_decoded cfg = Some (Z.of_nat (length (concat datas))) ->
  (Z.of_nat (length (concat datas)) < 2 ^ 64)%Z -> 3 * length d < fuel ->
  Forall (λ n, 0 < n) bufs -> length (concat datas) < length bufs ->
  read_all (H := chunked_reader hash sha256_hex hmac cfg fuel) bufs (chunked_init cfg r seed) = (concat datas, Ok tt).
Proof.
  intros Hs Hf Ht Hd Hz Hfuel Hb Hl.
  eapply (@read_all_serves _ _ (chunked_law hash sha256_hex hmac cfg fuel)); [|done|done].
  exists d, []. split; [by eapply init_pending|]. unfold work. cbn. lia.
Qed.

(** C25: Nothing unsigned gets through: whenever a body read to EOF is accepted, the stream
    it came from consists of chunks whose signatures are the MACs chained from the seed,
    ending with the signed empty chunk and valid trailers where required, the bytes
    delivered are exactly the data of those chunks, and their number is the declared
    length. *)
Theorem chunked_integrity {R} `{ReaderLaw R} hash sha256_hex hmac cfg (r : R) seed d fuel bufs payload :
  serves r d -> (Z.of_nat (length d) < 2 ^ 64)%Z -> Forall (λ n, 0 < n) bufs ->
  read_all (H := chunked_reader hash sha256_hex hmac cfg fuel) bufs (chunked_init cfg r seed) = (payload, Ok tt) ->
  exists datas last rest,
    frames sha256_hex hmac cfg (λ _, True) seed d datas last rest /\ payload = concat datas /\
    trailer_ok hash sha256_hex hmac cfg kTrailerMax last rest payload /\
    (cc_decoded cfg = None \/ cc_decoded cfg = Some (Z.of_nat (length payload))).
Proof.
  intros Hs Hz Hb E.
  pose proof (read_all_sound hash sha256_hex hmac cfg (λ _, True) kTrailerMax (λ _, I) eq_refl fuel bufs _ d [] payload
                (init_good cfg r seed d Hs Hz) Hb E) as [_ _ _ Hdec _ _ Hst].
  destruct Hst as (datas & last & rest & Hf & -> & Ht). eauto 10.
Qed.

(** * A signed upload of "abc" *)
Definition demo_sha (d : bytes) : bytes := bs "h".
Definition demo_hmac (k m : bytes) : bytes := take 1 (reverse m).
Definition demo_cfg : ChunkConfig :=
  mkChunkConfig true (bs "key") (bs "date") (bs "scope") (Some 3%Z) false false false [].
Definition demo_wire : bytes :=
  bs "3;chunk-signature=68" ++ crlf ++ bs "abc" ++ crlf ++ bs "0;chunk-signature=68" ++ crlf ++ crlf.

Lemma demo_frames : frames demo_sha demo_hmac demo_cfg fits (bs "seed") demo_wire [bs "abc"] (bs "68") crlf.
Proof.
  unfold demo_wire. eapply (frames_chunk _ _ _ _ _ _ (bs "68") (bs "abc") (bs "68")).
  - split_and!; try (vm_compute; reflexivity); [unfold fits; cbn; lia|done].
  - done.
  - by split; vm_compute.
  - apply (frames_final _ _ _ _ _ _ (bs "68")); [|by split; vm_compute].
    split_and!; try (vm_compute; reflexivity); [unfold fits; cbn; lia|done].
Qed.

Lemma chunked_decodes_witness :
  read_all (H := chunked_reader demo_hash_algo demo_sha demo_hmac demo_cfg 400) (replicate 4 2)
    (chunked_init demo_cfg (mkString demo_wire 0) (bs "seed")) = (bs "abc", Ok tt).
Proof.
  apply (chunked_decodes demo_hash_algo demo_sha demo_hmac demo_cfg (mkString demo_wire 0) (bs "seed") demo_wire [bs "abc"]
           (bs "68") crlf 400 (replicate 4 2)).
  - split; [cbn; lia|reflexivity].
  - apply demo_frames.
  - done.
  - right. reflexivity.
  - cbn; lia.
  - cbn; lia.
  - repeat constructor.
  - cbn; lia.
Defined.

Lemma chunked_integrity_witness :
  exists datas last rest,
    frames demo_sha demo_hmac demo_cfg (λ _, True) (bs "seed") demo_wire datas last rest /\ bs "abc" = concat datas.
Proof.
  destruct (chunked_integrity demo_hash_algo demo_sha demo_hmac demo_cfg (mkString demo_wire 0) (bs "seed") demo_wire 400
              (replicate 4 2) (bs "abc")) as (datas & last & rest & Hf & Hp & _).
  - split; [cbn; lia|reflexivity].
  - cbn; lia.
  - repeat constructor.
  - vm_compute. reflexivity.
  - by exists datas, last, rest.
Defined.
