(* ===== verification/Xml.v ===== *)
(** The XML generator and parser ([src/src/s3/xml.cc], [xml.h]).

    The parser's state is the input from its position on; [depth_] is an argument, since
    every exit restores it. The loops take fuel: running out of it is the one use of
    [InternalError], which the source never throws here, and is shown never to happen. *)

From S2P Require Import Prelude Bytes Util Backend.
From Stdlib Require Import ZArith Lia.
From stdpp Require Import base list gmap sets strings.

(** * Generation *)
Definition amp_entity (s : string) : bytes := ch "&" :: bs s ++ [ch ";"].

Definition xml_escape_char (c : byte) : bytes :=
  if bool_decide (c = ch "&") then amp_entity "amp"
  else if bool_decide (c = ch "<") then amp_entity "lt"
  else if bool_decide (c = ch ">") then amp_entity "gt"
  else if bool_decide (c = dquote) then amp_entity "quot"
  else if bool_decide (c = ch "'") then amp_entity "apos"
  else if (bz c <? 32)%Z && negb (bool_decide (c = Byte.x09)) && negb (bool_decide (c = Byte.x0a))
          && negb (bool_decide (c = Byte.x0d)) then []
  else [c].
Definition xml_escape (s : bytes) : bytes := concat (xml_escape_char <$> s).

Record XmlWriter := mkWriter { out : bytes; stack : list bytes }.
Definition xml_decl : bytes :=
  bs "<?xml version=" ++ [dquote] ++ bs "1.0" ++ [dquote] ++ bs " encoding=" ++ [dquote] ++ bs "UTF-8" ++ [dquote] ++ bs "?>".
Definition writer_init : XmlWriter := mkWriter xml_decl [].
Definition open_tag (tag attrs : bytes) (w : XmlWriter) : XmlWriter :=
  mkWriter (out w ++ [ch "<"] ++ tag ++ (if bool_decide (attrs = []) then [] else ch " " :: attrs) ++ [ch ">"])
    (stack w ++ [tag]).
(** [stack_.back()] on an empty stack is undefined; [None] here. *)
Definition close_tag (w : XmlWriter) : option XmlWriter :=
  match list.last (stack w) with
  | Some tag => Some (mkWriter (out w ++ bs "</" ++ tag ++ [ch ">"]) (take (length (stack w) - 1) (stack w)))
  | None => None
  end.
Definition element (tag text : bytes) (w : XmlWriter) : XmlWriter :=
  mkWriter (out w ++ [ch "<"] ++ tag ++ [ch ">"] ++ xml_escape text ++ bs "</" ++ tag ++ [ch ">"]) (stack w).
Definition writer_text (s : bytes) (w : XmlWriter) : XmlWriter := mkWriter (out w ++ xml_escape s) (stack w).
Definition element_u64 (tag : bytes) (n : Z) (w : XmlWriter) : XmlWriter := element tag (to_string n) w.

(** * Parsing *)
Inductive XmlNode := mkNode (name text : bytes) (children : list XmlNode).
Definition node_name (n : XmlNode) : bytes := match n with mkNode a _ _ => a end.
Definition node_text (n : XmlNode) : bytes := match n with mkNode _ t _ => t end.
Definition node_children (n : XmlNode) : list XmlNode := match n with mkNode _ _ c => c end.
Definition node_find (child_name : bytes) (n : XmlNode) : option XmlNode :=
  List.find (λ c, bool_decide (node_name c = child_name)) (node_children n).
Definition node_get (child_name : bytes) (n : XmlNode) : bytes :=
  match node_find child_name n with Some c => node_text c | None => [] end.

Abbreviation P := (ST bytes S3ErrorCode).
Definition bad {A} : P A := throw MalformedXML.
Definition out_of_fuel {A} : P A := throw InternalError.

(** A test of the remaining input. *)
Definition on_input {A} (f : bytes -> P A) : P A := λ s, f s s.

Definition advance (n : nat) : P unit := λ s, (Ok tt, drop n s).

Definition is_space (c : byte) : bool := (bz c =? 32)%Z || ((9 <=? bz c)%Z && (bz c <=? 13)%Z).
Fixpoint trim_left (p : byte -> bool) (s : bytes) : bytes :=
  match s with [] => [] | c :: s' => if p c then trim_left p s' else s end.
Definition skip_ws : P unit := λ s, (Ok tt, trim_left is_space s).

Definition skip_until (pat : bytes) : P unit := λ s,
  match bfind pat s with Some n => (Ok tt, drop (n + length pat) s) | None => (Throw MalformedXML, s) end.

Fixpoint skip_misc_loop (fuel : nat) : P unit :=
  match fuel with
  | O => out_of_fuel
  | S f =>
      _ ← skip_ws;
      on_input (λ s,
        if starts_with (bs "<?") s then _ ← skip_until (bs "?>"); skip_misc_loop f
        else if starts_with (bs "<!--") s then _ ← skip_until (bs "-->"); skip_misc_loop f
        else if starts_with (bs "<!DOCTYPE") s then _ ← skip_until (bs ">"); skip_misc_loop f
        else mret tt)
  end.
Definition skip_misc : P unit := λ s, skip_misc_loop (S (length s)) s.

Definition name_char (c : byte) : bool :=
  is_lower c || is_upper c || is_digit c || bool_decide (c = ch "_") || bool_decide (c = ch "-")
  || bool_decide (c = ch ".") || bool_decide (c = ch ":").
Fixpoint take_name (s : bytes) : bytes :=
  match s with [] => [] | c :: s' => if name_char c then c :: take_name s' else [] end.
Definition parse_name : P bytes := λ s,
  let n := take_name s in
  if bool_decide (n = []) then (Throw MalformedXML, s) else (Ok n, drop (length n) s).

(** [eof() || peek() != c] rejected, else one step. *)
Definition expect (c : byte) : P unit := λ s,
  match s with x :: s' => if bool_decide (x = c) then (Ok tt, s') else (Throw MalformedXML, s) | [] => (Throw MalformedXML, s) end.

Definition parse_quoted : P unit := λ s,
  match s with
  | q :: s' =>
      if bool_decide (q = dquote) || bool_decide (q = ch "'") then
        match bfind [q] s' with Some n => (Ok tt, drop (n + 1) s') | None => (Throw MalformedXML, s') end
      else (Throw MalformedXML, s)
  | [] => (Throw MalformedXML, s)
  end.
Definition parse_attribute : P unit :=
  _ ← parse_name; _ ← skip_ws; _ ← expect (ch "="); _ ← skip_ws; parse_quoted.

(** [std::stol] on the digits of a character reference: white space, a sign, digits of the
    base ([0x] allowed in base 16), at least one; the rest is ignored. The text has at
    most 15 characters, so the value fits a [long]. *)
Definition digit_in (base : Z) (c : byte) : option Z :=
  let v := if is_digit c then (bz c - 48)%Z
           else if is_lower c then (bz c - 87)%Z
           else if is_upper c then (bz c - 55)%Z else 99%Z in
  if (v <? base)%Z then Some v else None.
Fixpoint digits_in (base acc : Z) (s : bytes) : Z :=
  match s with
  | c :: s' => match digit_in base c with Some v => digits_in base (acc * base + v) s' | None => acc end
  | [] => acc
  end.
Definition has_digit (base : Z) (s : bytes) : bool :=
  match s with c :: _ => bool_decide (is_Some (digit_in base c)) | [] => false end.
Definition stol (base : Z) (s : bytes) : option Z :=
  let s1 := trim_left is_space s in
  let '(neg, s2) := match s1 with
                    | c :: r => if bool_decide (c = ch "-") then (true, r) else if bool_decide (c = ch "+") then (false, r) else (false, s1)
                    | [] => (false, s1)
                    end in
  let s3 := match s2 with
            | c :: x :: r => if (base =? 16)%Z && bool_decide (c = ch "0") && (bool_decide (x = ch "x") || bool_decide (x = ch "X"))
                               && has_digit 16 r then r else s2
            | _ => s2
            end in
  if has_digit base s3 then Some ((if neg then -1 else 1) * digits_in base 0 s3)%Z else None.

Definition append_utf8 (cp : Z) : bytes :=
  let tail n := zb (Z.lor 128 (Z.land (Z.shiftr cp n) 63)) in
  if (cp <? 128)%Z then [zb cp]
  else if (cp <? 2048)%Z then [zb (Z.lor 192 (Z.shiftr cp 6)); tail 0%Z]
  else if (cp <? 65536)%Z then [zb (Z.lor 224 (Z.shiftr cp 12)); tail 6%Z; tail 0%Z]
  else [zb (Z.lor 240 (Z.shiftr cp 18)); tail 12%Z; tail 6%Z; tail 0%Z].

Definition entity_value (e : bytes) : option bytes :=
  if bool_decide (e = bs "lt") then Some [ch "<"]
  else if bool_decide (e = bs "gt") then Some [ch ">"]
  else if bool_decide (e = bs "amp") then Some [ch "&"]
  else if bool_decide (e = bs "quot") then Some [dquote]
  else if bool_decide (e = bs "apos") then Some [ch "'"]
  else match e with
       | h :: r =>
           if bool_decide (h = ch "#") then
             let code := match r with
                         | x :: r' => if bool_decide (x = ch "x") || bool_decide (x = ch "X") then stol 16 r' else stol 10 r
                         | [] => stol 10 r
                         end in
             match code with
             | Some v => if (v <=? 0)%Z || (1114111 <? v)%Z then None else Some (append_utf8 v)
             | None => None
             end
           else None
       | [] => None
       end.

Definition parse_entity : P bytes := λ s,
  match bfind (bs ";") s with
  | Some semi =>
      if 16 <? semi then (Throw MalformedXML, s)
      else match entity_value (take (semi - 1) (drop 1 s)) with
           | Some v => (Ok v, drop (semi + 1) s)
           | None => (Throw MalformedXML, drop (semi + 1) s)
           end
  | None => (Throw MalformedXML, s)
  end.

Fixpoint parse_text_loop (fuel : nat) (acc : bytes) : P bytes := λ s,
  match fuel with
  | O => out_of_fuel s
  | S f =>
      match s with
      | [] => (Ok acc, s)
      | c :: s' =>
          if bool_decide (c = ch "<") then (Ok acc, s)
          else if bool_decide (c = ch "&") then (v ← parse_entity; parse_text_loop f (acc ++ v)) s
          else parse_text_loop f (acc ++ [c]) s'
      end
  end.
Definition parse_text (acc : bytes) : P bytes := λ s, parse_text_loop (S (length s)) acc s.

Definition trim_char (c : byte) : bool :=
  bool_decide (c = ch " ") || bool_decide (c = Byte.x09) || bool_decide (c = Byte.x0d) || bool_decide (c = Byte.x0a).
Definition trim (s : bytes) : bytes := reverse (trim_left trim_char (reverse (trim_left trim_char s))).

(** The attribute loop; [true] is a self-closing tag. *)
Fixpoint attrs_loop (fuel : nat) : P bool :=
  match fuel with
  | O => out_of_fuel
  | S f =>
      _ ← skip_ws;
      on_input (λ s,
        match s with
        | [] => bad
        | c :: _ =>
            if bool_decide (c = ch ">") then _ ← advance 1; mret false
            else if starts_with (bs "/>") s then _ ← advance 2; mret true
            else _ ← parse_attribute; attrs_loop f
        end)
  end.
Definition parse_attrs : P bool := λ s, attrs_loop (S (length s)) s.

Definition close_element (name text : bytes) (children : list XmlNode) : P XmlNode :=
  _ ← advance 2;
  close ← parse_name;
  if bool_decide (close <> name) then bad
  else _ ← skip_ws; _ ← expect (ch ">"); mret (mkNode name (trim text) children).

Definition parse_cdata (text : bytes) : P bytes := λ s,
  match find_from (bs "]]>") s 9 with
  | Some at_ => (Ok (text ++ take (at_ - 9) (drop 9 s)), drop (at_ + 3) s)
  | None => (Throw MalformedXML, s)
  end.

Fixpoint parse_element (fuel : nat) (depth : Z) : P XmlNode :=
  match fuel with
  | O => out_of_fuel
  | S f =>
      if (32 <? depth + 1)%Z then bad
      else
        _ ← advance 1;
        name ← parse_name;
        self ← parse_attrs;
        if (self : bool) then mret (mkNode name [] []) else parse_content f (depth + 1) name [] []
  end
with parse_content (fuel : nat) (depth : Z) (name text : bytes) (children : list XmlNode) : P XmlNode :=
  match fuel with
  | O => out_of_fuel
  | S f =>
      on_input (λ s,
        match s with
        | [] => bad
        | c :: _ =>
            if starts_with (bs "</") s then close_element name text children
            else if starts_with (bs "<!--") s then _ ← skip_until (bs "-->"); parse_content f depth name text children
            else if starts_with (bs "<![CDATA[") s then t ← parse_cdata text; parse_content f depth name t children
            else if bool_decide (c = ch "<") then
              x ← parse_element f depth; parse_content f depth name text (children ++ [x])
            else t ← parse_text text; parse_content f depth name t children
        end)
  end.

(** Every call consumes input or hands an unread '<' to [parse_element]: twice the length
    is fuel enough. *)
Definition at_end : P unit := on_input (λ s, match s with [] => mret tt | _ => bad end).
Definition parse_document : P XmlNode :=
  _ ← skip_misc;
  on_input (λ s,
    match s with
    | [] => bad
    | _ => root ← parse_element (2 * length s + 2) 0; _ ← skip_misc; _ ← at_end; mret root
    end).

Definition xml_parse (max_size : Z) (input : bytes) : result XmlNode :=
  if (max_size <? Z.of_nat (length input))%Z then Throw MalformedXML else (parse_document input).1.
