(* ===== verification/XmlProofs.v ===== *)
(** Proofs about the XML code: the parser terminates and reports nothing but
    [MalformedXML], bounds the nesting, and reads back every document the writer
    produces for a tree. *)

From S2P Require Import Prelude Bytes Util Backend Xml.
From Stdlib Require Import ZArith Lia.
From stdpp Require Import base list gmap sets strings.

(** * Progress and error class *)

(** On input [s], the parser either fails with [MalformedXML] or leaves at least [k] bytes
    less. *)
Definition good {A} (m : P A) (s : bytes) (k : nat) : Prop :=
  match m s with (Ok _, s') => length s' + k <= length s | (Throw e, _) => e = MalformedXML end.

Lemma good_bind {A B} (m : P A) (f : A -> P B) s k1 k2 :
  good m s k1 -> (forall a s', m s = (Ok a, s') -> length s' + k1 <= length s -> good (f a) s' k2) ->
  good (m ≫= f) s (k1 + k2).
Proof.
  unfold good, mbind, ST_bind. destruct (m s) as [[a|e] s'] eqn:E; [|done]. intros H1 H2. specialize (H2 a s' eq_refl H1).
  destruct (f a s') as [[b|e] s'']; [lia|done].
Qed.
Lemma good_bind0 {A B} (m : P A) (f : A -> P B) s k :
  good m s 0 -> (forall a s', m s = (Ok a, s') -> length s' <= length s -> good (f a) s' k) -> good (m ≫= f) s k.
Proof. intros H1 H2. apply (good_bind m f s 0 k); [done|]. intros a s' Hs Hl. apply (H2 a s' Hs). lia. Qed.
Lemma good_weaken {A} (m : P A) s k k' : good m s k -> k' <= k -> good m s k'.
Proof. unfold good. destruct (m s) as [[a|e] s']; [lia|done]. Qed.
Lemma good_bad {A} s k : good (@bad A) s k.
Proof. done. Qed.
Lemma good_ret {A} (a : A) s : good (mret a) s 0.
Proof. unfold good. cbn. lia. Qed.
Lemma good_on_input {A} (f : bytes -> P A) s k : good (f s) s k -> good (on_input f) s k.
Proof. done. Qed.
Lemma good_advance n s : n <= length s -> good (advance n) s n.
Proof. unfold good, advance. rewrite length_drop. lia. Qed.

Lemma trim_left_length p s : length (trim_left p s) <= length s.
Proof. induction s as [|c s IH]; cbn; [done|]. case_if; cbn; lia. Qed.
Lemma good_skip_ws s : good skip_ws s 0.
Proof. unfold good, skip_ws. pose proof (trim_left_length is_space s). lia. Qed.

Lemma good_skip_until pat s : good (skip_until pat) s (length pat).
Proof.
  unfold good, skip_until. destruct (bfind pat s) as [n|] eqn:E; [|done]. apply bfind_spec in E as [_ Hl].
  rewrite length_drop. lia.
Qed.

Lemma take_name_length s : length (take_name s) <= length s.
Proof. induction s as [|c s IH]; cbn; [done|]. case_if; cbn; lia. Qed.
Lemma good_parse_name s : good parse_name s 1.
Proof.
  unfold good, parse_name. case_bool_decide as E; [done|]. rewrite length_drop. pose proof (take_name_length s).
  destruct (take_name s); [done|]. cbn in *. lia.
Qed.
Lemma good_expect c s : good (expect c) s 1.
Proof. unfold good, expect. destruct s as [|x s]; [done|]. case_bool_decide; [cbn; lia|done]. Qed.
Lemma good_quoted s : good parse_quoted s 1.
Proof.
  unfold good, parse_quoted. destruct s as [|q s]; [done|]. case_if; [|done].
  destruct (bfind [q] s); [|done]. rewrite length_drop. cbn. lia.
Qed.
Lemma good_attribute s : good parse_attribute s 1.
Proof.
  unfold parse_attribute. apply (good_bind _ _ _ 1 0); [apply good_parse_name|]. intros _ s1 _ _.
  apply good_bind0; [apply good_skip_ws|]. intros _ s2 _ _. apply good_bind0; [eapply good_weaken; [apply good_expect|lia]|].
  intros _ s3 _ _. apply good_bind0; [apply good_skip_ws|]. intros _ s4 _ _. eapply good_weaken; [apply good_quoted|lia].
Qed.
Lemma good_entity s : s <> [] -> good parse_entity s 1.
Proof.
  intros Hs. unfold good, parse_entity. destruct (bfind (bs ";") s) as [n|] eqn:E; [|done]. case_if; [done|].
  apply bfind_spec in E as [_ Hl]. cbn in Hl. destruct (entity_value _); [|done]. rewrite length_drop.
  destruct s; [done|]. cbn in *. lia.
Qed.

Lemma good_skip_misc_loop f : forall s, length s < f -> good (skip_misc_loop f) s 0.
Proof.
  induction f as [|f IH]; intros s Hf; [lia|]. cbn [skip_misc_loop].
  apply good_bind0; [apply good_skip_ws|]. intros _ s1 _ Hl. apply good_on_input.
  repeat case_if; [| | |apply good_ret]; (eapply good_bind0;
    [eapply good_weaken; [apply good_skip_until|lia]|intros [] s2 Hs2 _]; apply IH);
    match type of Hs2 with skip_until ?p _ = _ => pose proof (good_skip_until p s1) as Hg end; unfold good in Hg;
    rewrite Hs2 in Hg; cbn in Hg; lia.
Qed.
Lemma good_skip_misc s : good skip_misc s 0.
Proof. apply good_skip_misc_loop. lia. Qed.

Lemma good_text_loop f : forall acc s, length s < f -> good (parse_text_loop f acc) s 0.
Proof.
  induction f as [|f IH]; intros acc s Hf; [lia|]. unfold good. cbn [parse_text_loop].
  destruct s as [|c s]; [cbn; lia|]. case_bool_decide; [cbn; lia|]. case_bool_decide.
  - change (good (v ← parse_entity; parse_text_loop f (acc ++ v)) (c :: s) 0).
    eapply good_weaken; [apply (good_bind _ _ _ 1 0)|lia]; [by apply good_entity|]. intros v s' _ Hl.
    apply IH. cbn in *. lia.
  - specialize (IH (acc ++ [c]) s). unfold good in IH. cbn in Hf. destruct (parse_text_loop f _ s) as [[v|e] s'];
      [cbn; specialize (IH ltac:(lia)); lia|apply IH; lia].
Qed.
Lemma text_loop_step f acc c s :
  c <> ch "<" ->
  parse_text_loop (S f) acc (c :: s) =
    if bool_decide (c = ch "&") then (v ← parse_entity; parse_text_loop f (acc ++ v)) (c :: s)
    else parse_text_loop f (acc ++ [c]) s.
Proof. intros Hc. cbn [parse_text_loop]. by rewrite (bool_decide_eq_false_2 (c = ch "<")). Qed.

(** Text that does not start with '<' is consumed. *)
Lemma good_text acc c s : c <> ch "<" -> good (parse_text acc) (c :: s) 1.
Proof.
  intros Hc. unfold good, parse_text. rewrite text_loop_step by done. cbn [length]. case_bool_decide.
  - change (good (v ← parse_entity; parse_text_loop (S (length s)) (acc ++ v)) (c :: s) 1).
    apply (good_bind _ _ _ 1 0); [by apply good_entity|]. intros v s' _ Hl. apply good_text_loop. cbn in Hl. lia.
  - pose proof (good_text_loop (S (length s)) (acc ++ [c]) s ltac:(lia)) as H1. unfold good in H1.
    destruct (parse_text_loop _ _ s) as [[v|e] s']; [cbn; lia|done].
Qed.

Lemma good_attrs_loop f : forall s, length s < f -> good (attrs_loop f) s 0.
Proof.
  induction f as [|f IH]; intros s Hf; [lia|]. cbn [attrs_loop]. apply good_bind0; [apply good_skip_ws|].
  intros _ s1 _ Hl. apply good_on_input. destruct s1 as [|c s1]; [done|]. case_bool_decide; [|case_if].
  - apply good_bind0; [eapply good_weaken; [apply good_advance; cbn; lia|lia]|]. intros. apply good_ret.
  - apply good_bind0; [|intros; apply good_ret]. apply starts_with_prefix, prefix_length in Hif. cbn in Hif.
    eapply good_weaken; [apply good_advance; cbn; lia|lia].
  - eapply good_weaken; [apply (good_bind _ _ _ 1 0)|lia]; [apply good_attribute|]. intros _ s2 _ Hl2. apply IH. cbn in *. lia.
Qed.

Lemma good_close name text cs s : 2 <= length s -> good (close_element name text cs) s 1.
Proof.
  intros Hs. unfold close_element. eapply good_weaken; [apply (good_bind _ _ _ 2 0)|lia]; [by apply good_advance|].
  intros _ s1 _ _. apply good_bind0; [eapply good_weaken; [apply good_parse_name|lia]|]. intros close s2 _ _.
  case_bool_decide; [done|]. apply good_bind0; [apply good_skip_ws|]. intros _ s3 _ _.
  apply good_bind0; [eapply good_weaken; [apply good_expect|lia]|]. intros. apply good_ret.
Qed.

Lemma good_cdata text s : good (parse_cdata text) s 3.
Proof.
  unfold good, parse_cdata, find_from. case_if; [|done]. destruct (bfind _ _) as [n|] eqn:E; [|done]. cbn.
  apply bfind_spec in E as [_ Hl]. rewrite length_drop in Hl |- *. cbn in Hl. lia.
Qed.

Lemma starts_with_length p s : starts_with p s = true -> length p <= length s.
Proof. intros H%starts_with_prefix. by apply prefix_length. Qed.

Lemma parse_good f : forall s d,
  (2 * length s + 1 <= f -> s <> [] -> good (parse_element f d) s 1) /\
  (forall name text cs, 2 * length s + 2 <= f -> good (parse_content f d name text cs) s 1).
Proof.
  induction f as [|f IH]; intros s d; split; try lia.
  - intros Hf Hs. cbn [parse_element]. case_if; [done|]. assert (1 <= length s) by (destruct s; [done|cbn; lia]).
    eapply good_weaken; [apply (good_bind _ _ _ 1 0)|lia]; [by apply good_advance|]. intros _ s1 _ Hl1.
    eapply good_bind0; [eapply good_weaken; [apply good_parse_name|lia]|]. intros name s2 _ Hl2.
    eapply good_bind0; [apply good_attrs_loop; lia|]. intros [] s3 _ Hl3; [apply good_ret|].
    eapply good_weaken; [apply IH; lia|lia].
  - intros name text cs Hf. cbn [parse_content]. apply good_on_input. destruct s as [|c s]; [done|].
    assert (forall k t ts s', length s' + 1 <= length (c :: s) -> k <= 1 -> good (parse_content f d name t ts) s' k) as Hk.
    { intros k t ts s' Hs' Hk. eapply good_weaken; [apply IH; lia|done]. }
    case_if; [apply good_close; by apply starts_with_length in Hif|].
    case_if; [eapply (good_bind _ _ _ 1 0); [eapply good_weaken; [apply good_skip_until|cbn; lia]|]; intros; apply Hk; lia|].
    case_if; [eapply (good_bind _ _ _ 1 0); [eapply good_weaken; [apply good_cdata|lia]|]; intros; apply Hk; lia|].
    case_bool_decide.
    + eapply (good_bind _ _ _ 1 0); [apply IH; [lia|done]|]. intros. apply Hk; lia.
    + eapply (good_bind _ _ _ 1 0); [by apply good_text|]. intros. apply Hk; lia.
Qed.

Lemma good_document s : good parse_document s 0.
Proof.
  unfold parse_document. apply good_bind0; [apply good_skip_misc|]. intros _ s1 _ _. apply good_on_input.
  destruct s1 as [|c s1]; [done|].
  apply good_bind0; [eapply good_weaken; [apply parse_good; [lia|done]|lia]|]. intros root s2 _ _.
  apply good_bind0; [apply good_skip_misc|]. intros _ s3 _ _.
  apply good_bind0; [|intros; apply good_ret]. apply good_on_input. destruct s3; [apply good_ret|done].
Qed.

(** C38: The parser is total and has one error: on every input it terminates (the fuel of
    its loops never runs out) and either returns a tree or fails with MalformedXML. *)
Theorem xml_parse_total (max_size : Z) (input : bytes) :
  match xml_parse max_size input with Ok _ => True | Throw e => e = MalformedXML end.
Proof.
  unfold xml_parse. case_if; [done|]. pose proof (good_document input) as H. unfold good in H.
  by destruct (parse_document input) as [[n|e] s'].
Qed.

(** * Round trip *)
Fixpoint print (n : XmlNode) : bytes :=
  match n with
  | mkNode a t cs => [ch "<"] ++ a ++ [ch ">"] ++ xml_escape t ++ concat (List.map print cs) ++ bs "</" ++ a ++ [ch ">"]
  end.

(** Writing a tree with the writer's operations. *)
Fixpoint write_node (n : XmlNode) (w : XmlWriter) : option XmlWriter :=
  match n with
  | mkNode a t cs =>
      (fix go (cs : list XmlNode) (w : XmlWriter) : option XmlWriter :=
         match cs with
         | [] => close_tag w
         | c :: cs' => match write_node c w with Some w' => go cs' w' | None => None end
         end) cs (writer_text t (open_tag a [] w))
  end.

Section node_ind.
Context (Q : XmlNode -> Prop) (HQ : forall a t cs, Forall Q cs -> Q (mkNode a t cs)).
Fixpoint node_ind' (n : XmlNode) : Q n :=
  match n with
  | mkNode a t cs =>
      HQ a t cs ((fix go (cs : list XmlNode) : Forall Q cs :=
                    match cs with [] => Forall_nil_2 Q | c :: cs' => Forall_cons_2 Q c cs' (node_ind' c) (go cs') end) cs)
  end.
End node_ind.

Lemma write_node_print n : forall w, write_node n w = Some (mkWriter (out w ++ print n) (stack w)).
Proof.
  induction n as [a t cs IH] using node_ind'. intros w. cbn [write_node print].
  set (w1 := writer_text t (open_tag a [] w)).
  assert (stack w1 = stack w ++ [a] /\ out w1 = out w ++ [ch "<"] ++ a ++ [ch ">"] ++ xml_escape t) as [Hs Ho].
  { split; [done|]. unfold w1, writer_text, open_tag. cbn [out]. rewrite bool_decide_eq_true_2 by done.
    by rewrite <- !app_assoc. }
  rewrite !(app_assoc (out w)), !app_assoc in *. rewrite <- Ho. clear Ho. clearbody w1. rewrite <- !app_assoc.
  revert w1 Hs. induction IH as [|c cs Hc _ IH]; intros w1 Hs; cbn [List.map concat app].
  - unfold close_tag. rewrite Hs, last_snoc. f_equal. f_equal. rewrite length_app. cbn. by rewrite Nat.add_sub, take_app_length.
  - rewrite Hc. rewrite IH by done. cbn [out]. by rewrite <- !app_assoc.
Qed.

(** Trees the wire format can carry: element names are names; text is trimmed and without
    the control characters XML forbids; at most [d] levels. *)
Definition text_char (c : byte) : bool :=
  negb (bz c <? 32)%Z || bool_decide (c = Byte.x09) || bool_decide (c = Byte.x0a) || bool_decide (c = Byte.x0d).
Fixpoint node_wf (d : nat) (n : XmlNode) : Prop :=
  match n, d with
  | mkNode a t cs, S d' =>
      a <> [] /\ forallb name_char a = true /\ forallb text_char t = true /\ trim t = t /\
      fold_right and True (List.map (node_wf d') cs)
  | _, O => False
  end.

Lemma take_name_app a c s : forallb name_char a = true -> name_char c = false -> take_name (a ++ c :: s) = a.
Proof. intros Ha Hc. induction a as [|x a IH]; cbn in *; [by rewrite Hc|]. apply andb_true_iff in Ha as [-> Ha]. by rewrite IH. Qed.
Lemma parse_name_app a c s :
  a <> [] -> forallb name_char a = true -> name_char c = false -> parse_name (a ++ c :: s) = (Ok a, c :: s).
Proof.
  intros Hn Ha Hc. unfold parse_name. rewrite take_name_app by done. rewrite bool_decide_eq_false_2 by done.
  by rewrite drop_app_length.
Qed.

(** Escaping: each character comes back, and never starts a tag. *)
Lemma escape_cases c :
  text_char c = true ->
  (xml_escape_char c = [c] /\ c <> ch "&" /\ c <> ch "<") \/
  (exists e, xml_escape_char c = amp_entity e /\ forall s, parse_entity (amp_entity e ++ s) = (Ok [c], s)).
Proof.
  intros Ht. unfold xml_escape_char.
  assert ((bz c <? 32)%Z && negb (bool_decide (c = Byte.x09)) && negb (bool_decide (c = Byte.x0a))
          && negb (bool_decide (c = Byte.x0d)) = false) as ->.
  { unfold text_char in Ht. destruct (bz c <? 32)%Z, (bool_decide (c = Byte.x09)), (bool_decide (c = Byte.x0a)),
      (bool_decide (c = Byte.x0d)); done. }
  clear Ht.
  repeat match goal with |- context [if bool_decide (c = ?x) then _ else _] =>
    destruct (bool_decide_reflect (c = x)) as [->|]; [right; eexists; split; [reflexivity|intros s; reflexivity]|] end.
  by left.
Qed.

Lemma text_loop_char c f acc s :
  text_char c = true -> parse_text_loop (S f) acc (xml_escape_char c ++ s) = parse_text_loop f (acc ++ [c]) s.
Proof.
  intros [(-> & H1 & H2)|(e & -> & He)]%escape_cases.
  - cbn [app]. rewrite text_loop_step by done. by rewrite bool_decide_eq_false_2.
  - pose proof (He s) as Hs. unfold amp_entity in *. cbn [app] in *. rewrite text_loop_step by done.
    rewrite bool_decide_eq_true_2 by done. unfold mbind, ST_bind. by rewrite Hs.
Qed.

Lemma text_loop_escape t : forall f acc s,
  forallb text_char t = true -> length t < f ->
  parse_text_loop f acc (xml_escape t ++ ch "<" :: s) = (Ok (acc ++ t), ch "<" :: s).
Proof.
  induction t as [|c t IH]; intros f acc s Ht Hf; cbn in Ht; (destruct f as [|f]; [cbn in Hf; lia|]).
  - cbn. by rewrite app_nil_r.
  - apply andb_true_iff in Ht as [Hc Ht]. cbn [length] in Hf.
    change (xml_escape (c :: t)) with (xml_escape_char c ++ xml_escape t). rewrite <- app_assoc, text_loop_char by done.
    rewrite IH by (done || lia). by rewrite <- app_assoc.
Qed.

Lemma escape_head c t :
  text_char c = true -> exists x r, xml_escape (c :: t) = x :: r /\ x <> ch "<".
Proof.
  intros Hc. change (xml_escape (c :: t)) with (xml_escape_char c ++ xml_escape t).
  destruct (escape_cases c Hc) as [(-> & _ & H)|(e & -> & _)]; [by eexists _, _|].
  unfold amp_entity. cbn. by eexists _, _.
Qed.
Lemma escape_length t : forallb text_char t = true -> length t <= length (xml_escape t).
Proof.
  induction t as [|c t IH]; [done|]. cbn [forallb]. intros [Hc Ht]%andb_true_iff.
  change (xml_escape (c :: t)) with (xml_escape_char c ++ xml_escape t). rewrite length_app. cbn [length].
  specialize (IH Ht). destruct (escape_cases c Hc) as [(-> & _)|(e & -> & _)]; cbn; lia.
Qed.

(** ** One element *)

(** An element's text is read up to the next tag, and the rest of its content follows. *)
Lemma content_text f d a t cs rest r0 :
  forallb text_char t = true ->
  parse_content f d a t cs (ch "<" :: rest) = r0 ->
  parse_content (S f) d a [] cs (xml_escape t ++ ch "<" :: rest) = r0 \/ t = [].
Proof.
  intros Ht Hr. destruct t as [|c t]; [by right|]. left.
  pose proof Ht as Ht'. cbn in Ht'. apply andb_true_iff in Ht' as [Hc _].
  destruct (escape_head c t Hc) as (x & r & E & Hx).
  cbn [parse_content]. unfold on_input. rewrite E. cbn [app].
  assert (forall p, starts_with (ch "<" :: p) (x :: r ++ ch "<" :: rest) = false) as Hst.
  { intros p. apply starts_with_false. intros [q Hq]. injection Hq as -> _. done. }
  change (bs "</") with (ch "<" :: bs "/"). change (bs "<!--") with (ch "<" :: bs "!--").
  change (bs "<![CDATA[") with (ch "<" :: bs "![CDATA["). rewrite !Hst, bool_decide_eq_false_2 by done. unfold mbind, ST_bind, parse_text.
  change (x :: r ++ ch "<" :: rest) with ((x :: r) ++ ch "<" :: rest). rewrite <- E.
  rewrite text_loop_escape; [done|done|]. rewrite length_app. pose proof (escape_length (c :: t) Ht). cbn in *. lia.
Qed.

Lemma content_close f d a t cs rest :
  a <> [] -> forallb name_char a = true ->
  parse_content (S f) d a t cs (bs "</" ++ a ++ [ch ">"] ++ rest) = (Ok (mkNode a (trim t) cs), rest).
Proof.
  intros Hn Ha. change (bs "</" ++ a ++ [ch ">"] ++ rest) with (ch "<" :: ch "/" :: a ++ ch ">" :: rest).
  cbn [parse_content]. unfold on_input.
  change (starts_with (bs "</") (ch "<" :: ch "/" :: a ++ ch ">" :: rest)) with true. cbv beta iota.
  unfold close_element, mbind, ST_bind, advance. cbv beta iota. cbn [drop]. rewrite drop_0, parse_name_app by done.
  rewrite bool_decide_eq_false_2 by (intros H; by apply H). done.
Qed.

(** A child element: neither a close tag nor a comment nor CDATA. *)
Lemma content_child f d a t cs c s rest x :
  name_char c = true -> parse_element f d (ch "<" :: c :: s) = (Ok x, rest) ->
  parse_content (S f) d a t cs (ch "<" :: c :: s) = parse_content f d a t (cs ++ [x]) rest.
Proof.
  intros Hc Hx. cbn [parse_content]. unfold on_input.
  assert (forall y p, name_char y = false -> starts_with (ch "<" :: y :: p) (ch "<" :: c :: s) = false) as Hst.
  { intros y p Hy. apply starts_with_false. intros [q Hq]. injection Hq as -> _. congruence. }
  change (bs "</") with (ch "<" :: ch "/" :: []). change (bs "<!--") with (ch "<" :: ch "!" :: bs "--").
  change (bs "<![CDATA[") with (ch "<" :: ch "!" :: bs "[CDATA["). rewrite !Hst by done.
  rewrite bool_decide_eq_true_2 by done. unfold mbind, ST_bind. by rewrite Hx.
Qed.

Lemma print_head n d : node_wf d n -> exists c s, print n = ch "<" :: c :: s /\ name_char c = true.
Proof.
  destruct n as [a t cs], d; [done|]. intros (Hn & Ha & _). destruct a as [|c a]; [done|].
  cbn in Ha. apply andb_true_iff in Ha as [Hc _]. cbn. by eexists _, _.
Qed.

Lemma content_children f d a t rest cs : forall done_cs fuel,
  a <> [] -> forallb name_char a = true ->
  (Forall (λ n, forall f rest, 2 * length (print n) <= f -> parse_element f d (print n ++ rest) = (Ok n, rest)) cs) ->
  Forall (node_wf f) cs -> 2 * length (concat (List.map print cs)) + 1 <= fuel ->
  parse_content fuel d a t done_cs (concat (List.map print cs) ++ bs "</" ++ a ++ [ch ">"] ++ rest)
  = (Ok (mkNode a (trim t) (done_cs ++ cs)), rest).
Proof.
  induction cs as [|n cs IH]; intros ds fuel Hn Ha Hp Hw Hf; cbn [List.map concat].
  - destruct fuel; [cbn in Hf; lia|]. rewrite app_nil_l, content_close by done. by rewrite app_nil_r.
  - apply list.Forall_cons in Hp as [Hn1 Hp]. apply list.Forall_cons in Hw as [Hw1 Hw].
    destruct (print_head n f Hw1) as (c & s & E & Hc). cbn [List.map concat] in Hf. rewrite length_app in Hf.
    assert (2 <= length (print n)) by (rewrite E; cbn; lia).
    destruct fuel as [|fuel]; [lia|]. rewrite <- app_assoc.
    specialize (Hn1 fuel (concat (List.map print cs) ++ bs "</" ++ a ++ [ch ">"] ++ rest) ltac:(lia)).
    rewrite E in Hn1 |- *.
    change ((ch "<" :: c :: s) ++ ?r) with (ch "<" :: c :: (s ++ r)) in Hn1 |- *. rewrite (content_child _ _ _ _ _ _ _ _ _ Hc Hn1).
    rewrite IH by (done || lia). by rewrite <- app_assoc.
Qed.

Lemma attrs_end s : parse_attrs (ch ">" :: s) = (Ok false, s).
Proof. done. Qed.

Lemma parse_element_print n : forall d0 d f rest,
  node_wf d0 n -> (d + Z.of_nat d0 <= 32)%Z -> 2 * length (print n) <= f ->
  parse_element f d (print n ++ rest) = (Ok n, rest).
Proof.
  induction n as [a t cs IH] using node_ind'. intros d0 d f rest Hw Hd Hf.
  destruct d0 as [|d0]; [done|]. destruct Hw as (Hn & Ha & Ht & Htr & Hcs). cbn [print] in Hf |- *.
  rewrite !length_app in Hf. cbn [length] in Hf. destruct f as [|f]; [lia|]. cbn [parse_element].
  destruct (Z.ltb_spec 32 (d + 1)); [lia|]. rewrite <- !app_assoc. cbn [app].
  unfold mbind, ST_bind at 1. unfold advance at 1. cbn [drop]. rewrite drop_0. unfold mbind, ST_bind. rewrite parse_name_app by done.
  rewrite attrs_end.
  assert (Forall (λ n, forall f rest, 2 * length (print n) <= f -> parse_element f (d + 1) (print n ++ rest) = (Ok n, rest)) cs
          /\ Forall (node_wf d0) cs) as [Hp Hw].
  { clear Hf. induction IH as [|c cs Hc _ IHcs]; [done|]. destruct Hcs as [Hc1 Hcs]. destruct (IHcs Hcs) as [H1 H2].
    split; constructor; try done. intros f' r' Hf'. apply (Hc d0); [done|lia|done]. }
  assert (forall fuel txt, 2 * length (concat (List.map print cs)) + 1 <= fuel ->
    parse_content fuel (d + 1) a txt [] (concat (List.map print cs) ++ bs "</" ++ a ++ [ch ">"] ++ rest)
    = (Ok (mkNode a (trim txt) cs), rest)) as Hcont.
  { intros fuel txt Hfu. by rewrite (content_children d0). }
  assert (exists q, concat (List.map print cs) ++ bs "</" ++ a ++ [ch ">"] ++ rest = ch "<" :: q) as [q Hq].
  { destruct cs as [|c cs]; [by eexists|]. apply list.Forall_cons in Hw as [Hw _].
    destruct (print_head c d0 Hw) as (x & s & E & _). cbn [List.map concat]. rewrite E. by eexists. }
  destruct f as [|f]; [lia|]. rewrite Hq in Hcont.
  change (bs "</" ++ a ++ ch ">" :: rest) with (bs "</" ++ a ++ [ch ">"] ++ rest). rewrite Hq.
  destruct (content_text f (d + 1) a t [] q _ Ht eq_refl) as [->| ->].
  - rewrite Hcont by lia. by rewrite Htr.
  - cbn [xml_escape fmap list_fmap concat app]. rewrite Hcont by (cbn in Hf; lia). done.
Qed.

(** ** Whole documents *)
Lemma skip_misc_element c s : name_char c = true -> skip_misc (ch "<" :: c :: s) = (Ok tt, ch "<" :: c :: s).
Proof.
  intros Hc. unfold skip_misc. cbn [length skip_misc_loop]. unfold mbind, ST_bind, skip_ws. cbn [trim_left].
  change (is_space (ch "<")) with false. cbv iota. unfold on_input.
  assert (forall y p, name_char y = false -> starts_with (ch "<" :: y :: p) (ch "<" :: c :: s) = false) as Hst.
  { intros y p Hy. apply starts_with_false. intros [q Hq]. injection Hq as -> _. congruence. }
  change (bs "<?") with (ch "<" :: ch "?" :: []). change (bs "<!--") with (ch "<" :: ch "!" :: bs "--").
  change (bs "<!DOCTYPE") with (ch "<" :: ch "!" :: bs "DOCTYPE"). by rewrite !Hst.
Qed.

Lemma skip_misc_decl c s : name_char c = true ->
  skip_misc (xml_decl ++ ch "<" :: c :: s) = (Ok tt, ch "<" :: c :: s).
Proof.
  intros Hc. unfold skip_misc.
  assert (exists k, length (xml_decl ++ ch "<" :: c :: s) = S k) as [k Hk] by (by eexists).
  rewrite Hk. cbn [skip_misc_loop]. unfold mbind, ST_bind, skip_ws.
  change (trim_left is_space (xml_decl ++ ch "<" :: c :: s)) with (xml_decl ++ ch "<" :: c :: s).
  unfold on_input. change (starts_with (bs "<?") (xml_decl ++ ch "<" :: c :: s)) with true. cbv iota beta.
  change (skip_until (bs "?>") (xml_decl ++ ch "<" :: c :: s)) with ((Ok tt, ch "<" :: c :: s) : result unit * bytes). cbv iota beta.
  destruct k as [|k]; [cbn in Hk; lia|]. pose proof (skip_misc_element c s Hc) as He. unfold skip_misc in He.
  cbn [length skip_misc_loop] in He |- *. unfold mbind, ST_bind, skip_ws, on_input in He |- *. cbn [trim_left] in He |- *.
  change (is_space (ch "<")) with false in He |- *. cbv iota in He |- *.
  destruct (starts_with (bs "<?") (ch "<" :: c :: s)) eqn:E1; [|destruct (starts_with (bs "<!--") (ch "<" :: c :: s)) eqn:E2;
    [|destruct (starts_with (bs "<!DOCTYPE") (ch "<" :: c :: s)) eqn:E3; [|done]]]; exfalso;
  match goal with H : starts_with _ _ = true |- _ => apply starts_with_prefix in H as [q Hq] end;
  injection Hq as -> _; done.
Qed.

(** C37: What the writer writes, the parser reads: for every tree of at most 32 levels
    whose names are element names and whose texts are trimmed and printable, writing it
    with the writer's operations after the XML declaration and parsing the result gives
    the tree back, provided the document is within the size limit. *)
Theorem xml_write_parse_roundtrip (max_size : Z) (n : XmlNode) (w : XmlWriter) (Hn : node_wf 32 n)
    (Hw : write_node n writer_init = Some w) (Hsize : (Z.of_nat (length (out w)) <= max_size)%Z) :
  xml_parse max_size (out w) = Ok n.
Proof.
  unfold xml_parse. apply Z.ltb_ge in Hsize. rewrite Hsize. rewrite write_node_print in Hw. injection Hw as <-.
  change (out _) with (xml_decl ++ print n).
  destruct (print_head n 32 Hn) as (c & s & E & Hc).
  unfold parse_document, mbind, ST_bind at 1. rewrite E, (skip_misc_decl c s Hc). unfold on_input. rewrite <- E.
  assert (parse_element (2 * length (print n) + 2) 0 (print n ++ []) = (Ok n, [])) as Hp
    by (apply (parse_element_print n 32); [done|done|lia]).
  rewrite app_nil_r in Hp. destruct (print n) as [|x p] eqn:Ep; [done|]. unfold mbind, ST_bind. by rewrite Hp.
Qed.
Definition demo_tree : XmlNode :=
  mkNode (bs "Result") [] [mkNode (bs "Key") (bs "a<b&c") []; mkNode (bs "Size") (bs "12") []].
Lemma xml_write_parse_roundtrip_witness :
  exists w, write_node demo_tree writer_init = Some w /\ xml_parse 1000 (out w) = Ok demo_tree.
Proof.
  assert (exists w, write_node demo_tree writer_init = Some w /\ (Z.of_nat (length (out w)) <= 1000)%Z) as (w & Hw & Hl).
  { eexists. split; [vm_compute; reflexivity|]. vm_compute. discriminate. }
  exists w. split; [exact Hw|].
  apply (xml_write_parse_roundtrip 1000 demo_tree w); [|exact Hw|exact Hl].
  cbn. repeat split; discriminate.
Defined.

(** The root element is not required to start with '<': any one character in its
    place is accepted, so input that is not XML is read as an element. *)
Theorem xml_root_bracket_unchecked : xml_parse 1000 (bs "Xa></a>") = Ok (mkNode (bs "a") [] []).
Proof. vm_compute. reflexivity. Qed.
