(* ===== verification/SigV4.v ===== *)
(** AWS Signature V4 ([src/src/s3/auth/sigv4.h], [sigv4.cc]): the fields of an
    Authorization header or a presigned URL, the canonical request, the signature, the
    whole of [verify_impl] and [sign], and the switch that turns authentication on. SHA-256
    and HMAC-SHA256 (OpenSSL) are parameters. An authenticator has a provider, as [build]
    gives it one; the clock is read several times per verification, [clock i] is the
    [i]-th reading. *)

From S2P Require Import Prelude Bytes Util Backend Xml Policy TimeUtil Headers BodyReader Checksum Digest Chunked.
From Stdlib Require Import ZArith Lia.
From stdpp Require Import base list gmap strings sorting.
Import Hex Uri.

(** * Requests and credentials *)
Record HttpRequest := mkHttp {
  hr_method : bytes; hr_raw_path : bytes; hr_raw_query : bytes; hr_query : list (bytes * bytes);
  hr_headers : HeaderMap; hr_body : option (option Z) }.
Definition query_get (req : HttpRequest) (key : bytes) : option bytes :=
  snd <$> List.find (λ kv, bool_decide (kv.1 = key)) (hr_query req).
Definition head_of (req : HttpRequest) : ReqHead := mkReq (hr_headers req) (hr_body req).
Definition with_headers (h : HeaderMap) (req : HttpRequest) : HttpRequest :=
  mkHttp (hr_method req) (hr_raw_path req) (hr_raw_query req) (hr_query req) h (hr_body req).

Record CredentialLookup := mkLookup {
  cl_secret : bytes; cl_policy : option CredentialPolicy; cl_token : option bytes; cl_expires : option time_point;
  cl_tenant : bytes; cl_admin : bool }.
(** [ICredentialProvider] *)
Class CredentialProvider (P : Type) := { cred_lookup : P -> bytes -> option CredentialLookup; has_credentials : P -> bool }.
(** [StaticCredentialProvider] *)
Definition StaticCredentials := gmap bytes bytes.
Definition static_credentials (l : list (bytes * bytes)) : StaticCredentials := fold_left (λ m c, <[c.1 := c.2]> m) l ∅.
#[export] Instance static_provider : CredentialProvider StaticCredentials := {
  cred_lookup m ak := (λ sk, mkLookup sk None None None [] false) <$> m !! ak;
  has_credentials m := bool_decide (m <> ∅) }.

Record VerifiedIdentity := mkIdentity { vi_access_key : bytes; vi_policy : option CredentialPolicy; vi_tenant : bytes; vi_admin : bool }.
Definition no_identity : VerifiedIdentity := mkIdentity [] None [] false.
(** What verification puts over the body. *)
Inductive BodyGuard := Bare | Hashed (expected_hex : bytes) | Deframed (cfg : ChunkConfig) (seed_signature : bytes).

(** * The canonical request *)
Definition kAlgo : bytes := bs "AWS4-HMAC-SHA256".
Definition lower (s : bytes) : bytes := lower_char <$> s.

(** Trim and fold blanks outside quotes. *)
Fixpoint fold_value (in_space in_quotes : bool) (out v : bytes) : bytes :=
  match v with
  | [] => out
  | c :: v' =>
      let in_quotes := if bool_decide (c = Byte.x22) then negb in_quotes else in_quotes in
      if negb in_quotes && ows c then fold_value true in_quotes out v'
      else fold_value false in_quotes ((if in_space && negb (bool_decide (out = [])) then out ++ [ch " "] else out) ++ [c]) v'
  end.
Definition canonical_header_value (v : bytes) : bytes := fold_value false false [] v.

Definition pair_le (a b : bytes * bytes) : Prop := bytes_lt a.1 b.1 \/ a.1 = b.1 /\ bytes_le a.2 b.2.
#[export] Instance pair_le_dec : RelDecision pair_le.
Proof. intros a b. unfold pair_le, bytes_lt, bytes_le. apply _. Defined.

Definition query_param (exclude kv : bytes) : option (bytes * bytes) :=
  if bool_decide (kv = []) then None
  else
    let '(k, v) := match bfind (bs "=") kv with
                   | None => (percent_decode kv, [])
                   | Some eq => (percent_decode (take eq kv), percent_decode (drop (eq + 1) kv))
                   end in
    if bool_decide (k = exclude) then None else Some (aws_uri_encode k true, aws_uri_encode v true).
Definition join_params (l : list (bytes * bytes)) : bytes :=
  fold_left (λ out p, (if bool_decide (out = []) then out else out ++ bs "&") ++ p.1 ++ bs "=" ++ p.2) l [].
Definition canonical_query (raw_query exclude : bytes) : bytes :=
  let params := if bool_decide (raw_query = []) then [] else omap (query_param exclude) (split_on (ch "&") raw_query) in
  join_params (merge_sort pair_le params).

Definition header_is_signed (signed_headers name : bytes) : bool := existsb (λ n, bool_decide (n = name)) (split_on (ch ";") signed_headers).

(** The line of one signed header: its values in order, joined by commas. *)
Definition signed_values (req : HttpRequest) (name : bytes) : list bytes :=
  (λ e, e.2.2) <$> List.filter (hit (tag name) name) (entries (hr_headers req)).
Fixpoint join_values (first : bool) (l : list bytes) : bytes :=
  match l with [] => [] | v :: l' => (if first then [] else bs ",") ++ canonical_header_value v ++ join_values false l' end.
(** All of them; a name that is missing stops the request, except the empty one, which the
    code takes for none missing. *)
Fixpoint canonical_headers (req : HttpRequest) (names : list bytes) : result bytes :=
  match names with
  | [] => Ok []
  | name :: names' =>
      match signed_values req name with
      | [] => if bool_decide (name = []) then canonical_headers req names' else Throw SignatureDoesNotMatch
      | vs => rest ← canonical_headers req names'; Ok (name ++ bs ":" ++ join_values true vs ++ nl ++ rest)
      end
  end.
Definition canonical_request (req : HttpRequest) (signed_headers payload_hash : bytes) (presigned : bool) : result bytes :=
  hs ← canonical_headers req (split_on (ch ";") signed_headers);
  Ok (hr_method req ++ nl ++ (if bool_decide (hr_raw_path req = []) then bs "/" else hr_raw_path req) ++ nl ++
      canonical_query (hr_raw_query req) (if presigned then bs "X-Amz-Signature" else []) ++ nl ++
      hs ++ nl ++ signed_headers ++ nl ++ payload_hash).

(** * The fields of a signed request *)
Record AuthFields := mkFields {
  af_access_key : bytes; af_date : bytes; af_region : bytes; af_service : bytes; af_terminal : bytes;
  af_signed_headers : bytes; af_signature : bytes; af_amz_date : bytes; af_presigned : bool }.
Definition no_fields : AuthFields := mkFields [] [] [] [] [] [] [] [] false.
Definition set_credential (ak d r s t : bytes) (f : AuthFields) : AuthFields :=
  mkFields ak d r s t (af_signed_headers f) (af_signature f) (af_amz_date f) (af_presigned f).
Definition set_signed (h : bytes) (f : AuthFields) : AuthFields :=
  mkFields (af_access_key f) (af_date f) (af_region f) (af_service f) (af_terminal f) h (af_signature f) (af_amz_date f) (af_presigned f).
Definition set_signature (sig : bytes) (f : AuthFields) : AuthFields :=
  mkFields (af_access_key f) (af_date f) (af_region f) (af_service f) (af_terminal f) (af_signed_headers f) sig (af_amz_date f) (af_presigned f).
Definition set_amz_date (d : bytes) (pre : bool) (f : AuthFields) : AuthFields :=
  mkFields (af_access_key f) (af_date f) (af_region f) (af_service f) (af_terminal f) (af_signed_headers f) (af_signature f) d pre.
Definition malformed {A} : result A := Throw AuthorizationHeaderMalformed.

Definition parse_credential (cred : bytes) (f : AuthFields) : result AuthFields :=
  match split_on (ch "/") cred with
  | [ak; d; r; s; t] => Ok (set_credential ak d r s t f)
  | _ => malformed
  end.
Definition auth_piece (f : AuthFields) (piece : bytes) : result AuthFields :=
  let p := strip_front piece in
  match bfind (bs "=") p with
  | None => Ok f
  | Some eq =>
      let k := take eq p in
      let val := drop (eq + 1) p in
      if bool_decide (k = bs "Credential") then parse_credential val f
      else if bool_decide (k = bs "SignedHeaders") then Ok (set_signed (lower val) f)
      else if bool_decide (k = bs "Signature") then Ok (set_signature val f)
      else Ok f
  end.
Fixpoint auth_pieces (f : AuthFields) (l : list bytes) : result AuthFields :=
  match l with [] => Ok f | p :: l' => f' ← auth_piece f p; auth_pieces f' l' end.
Definition parse_auth_header (value : bytes) : result AuthFields :=
  if negb (starts_with kAlgo value) then malformed
  else
    f ← auth_pieces no_fields (split_on (ch ",") (drop (length kAlgo) value));
    if bool_decide (af_access_key f = []) || bool_decide (af_signed_headers f = []) || bool_decide (af_signature f = []) then malformed
    else Ok f.

(** The first part of [verify_impl]: from the header, or from the query of a presigned URL. *)
Definition auth_fields (req : HttpRequest) : result AuthFields :=
  match hfind (hr_headers req) (bs "Authorization") with
  | Some auth =>
      f ← parse_auth_header auth;
      match match hfind (hr_headers req) (bs "x-amz-date") with Some d => Some d | None => hfind (hr_headers req) (bs "Date") end with
      | None => malformed
      | Some date => Ok (set_amz_date date false f)
      end
  | None =>
      match query_get req (bs "X-Amz-Algorithm") with
      | None => Throw AccessDenied
      | Some alg =>
          if negb (bool_decide (alg = kAlgo)) then malformed
          else
            let arg k := default [] (query_get req k) in
            f ← parse_credential (arg (bs "X-Amz-Credential")) no_fields;
            let f := set_amz_date (arg (bs "X-Amz-Date")) true
                       (set_signature (arg (bs "X-Amz-Signature")) (set_signed (lower (arg (bs "X-Amz-SignedHeaders"))) f)) in
            if bool_decide (af_access_key f = []) || bool_decide (af_signature f = []) || bool_decide (af_amz_date f = []) then malformed
            else Ok f
      end
  end.

Definition peek_access_key (req : HttpRequest) : option bytes :=
  let fields := match hfind (hr_headers req) (bs "Authorization") with
                | Some auth => Some (parse_auth_header auth)
                | None => (λ cred, parse_credential cred no_fields) <$> query_get req (bs "X-Amz-Credential")
                end in
  match fields with
  | Some (Ok f) => if bool_decide (af_access_key f = []) then None else Some (af_access_key f)
  | _ => None
  end.

(** * The checks of [verify_impl], in its order *)
Definition kMaxPresignExpires : Z := 7 * 24 * 3600.
Definition kMaxClockSkewSec : Z := 15 * 60.
(** The scope, and the headers that have to be signed. *)
Definition check_scope (region : bytes) (services : list bytes) (f : AuthFields) : result unit :=
  let service_ok := existsb (λ sv, bool_decide (af_service f = sv)) services in
  _ ← throw_if (negb (bool_decide (af_terminal f = bs "aws4_request")) || negb service_ok || negb (bool_decide (af_region f = region)))
        AuthorizationHeaderMalformed;
  _ ← throw_if (negb (bool_decide (take 8 (af_amz_date f) = af_date f))) AuthorizationHeaderMalformed;
  throw_if (negb (header_is_signed (af_signed_headers f) (bs "host"))) AuthorizationHeaderMalformed.
(** [std::stol], which throws out of the range of a [long] too. *)
Definition stol_long (s : bytes) : option Z :=
  v ← stol 10 s; if ((- 2 ^ 63 <=? v) && (v <? 2 ^ 63))%Z then Some v else None.
Definition check_time (clock : nat -> time_point) (req : HttpRequest) (f : AuthFields) : result unit :=
  match parse_amz_date (af_amz_date f) with
  | None => malformed
  | Some t =>
      if af_presigned f then
        _ ← throw_if (kMaxClockSkewSec * kNs <? t - clock 0%nat)%Z AccessDenied;
        match query_get req (bs "X-Amz-Expires") with
        | None => malformed
        | Some exp =>
            match stol_long exp with
            | None => malformed
            | Some expires =>
                _ ← throw_if ((expires <? 1) || (kMaxPresignExpires <? expires))%Z AuthorizationHeaderMalformed;
                throw_if (t + expires * kNs <? clock 1%nat)%Z AccessDenied
            end
        end
      else
        let skew := Z.quot (clock 0%nat - t) kNs in
        throw_if ((kMaxClockSkewSec <? skew) || (skew <? - kMaxClockSkewSec))%Z RequestTimeTooSkewed
  end.
Definition request_token (req : HttpRequest) : option bytes :=
  match hfind (hr_headers req) (bs "x-amz-security-token") with Some h => Some h | None => query_get req (bs "X-Amz-Security-Token") end.
Definition check_token (now : time_point) (req : HttpRequest) (cred : CredentialLookup) : result unit :=
  match cl_token cred, request_token req with
  | Some tok, None => Throw AccessDenied
  | Some tok, Some r =>
      if negb (constant_time_eq r tok) then Throw InvalidToken
      else throw_if (match cl_expires cred with Some e => (e <? now)%Z | None => false end) ExpiredToken
  | None, Some _ => Throw InvalidToken
  | None, None => Ok tt
  end.
Definition no_stream : StreamingPayload := mkStreaming false false false.
Definition kUnsigned : bytes := bs "UNSIGNED-PAYLOAD".
Definition payload_of (req : HttpRequest) (f : AuthFields) (explicit : option bytes) : result (bytes * StreamingPayload) :=
  let sha := hfind (hr_headers req) (bs "x-amz-content-sha256") in
  let classified h := p ← classify_payload h; Ok (h, p) in
  match explicit with
  | Some h => Ok (h, no_stream)
  | None =>
      if af_presigned f then
        classified (match query_get req (bs "X-Amz-Content-Sha256") with
                    | Some q => q
                    | None => if header_is_signed (af_signed_headers f) (bs "x-amz-content-sha256") then default kUnsigned sha else kUnsigned
                    end)
      else match sha with
           | Some h => classified h
           | None =>
               let has_body := match hr_body req with Some l => (0 <? default 0 l)%Z | None => false end in
               if has_body then Throw InvalidRequest else Ok (kEmptySha256, no_stream)
           end
  end.
Definition is_hex_digest (s : bytes) : bool := (length s =? 64)%nat && forallb (λ c, is_digit c || in_range (ch "a") (ch "f") c || in_range (ch "A") (ch "F") c) s.

Section sigv4.
Context (sha256_hex : bytes -> bytes) (hmac_sha256 : bytes -> bytes -> bytes).

Definition derive_signing_key (secret_key date region service : bytes) : bytes :=
  hmac_sha256 (hmac_sha256 (hmac_sha256 (hmac_sha256 (bs "AWS4" ++ secret_key) date) region) service) (bs "aws4_request").
Definition string_to_sign (amz_date scope canonical : bytes) : bytes :=
  kAlgo ++ nl ++ amz_date ++ nl ++ scope ++ nl ++ sha256_hex canonical.
(** The first three parts of the scope; a part that is not there is empty. *)
Definition scope_part (scope : bytes) (i : nat) : bytes := default [] (split_on (ch "/") scope !! i).
Definition signature_for (req : HttpRequest) (secret_key amz_date scope signed_headers payload_hash : bytes) (presigned : bool) : result bytes :=
  canonical ← canonical_request req signed_headers payload_hash presigned;
  let k := derive_signing_key secret_key (scope_part scope 0) (scope_part scope 1) (scope_part scope 2) in
  Ok (to_hex (hmac_sha256 k (string_to_sign amz_date scope canonical))).

Definition scope_of (f : AuthFields) : bytes := af_date f ++ bs "/" ++ af_region f ++ bs "/" ++ af_service f ++ bs "/aws4_request".
Definition check_signature_of (req : HttpRequest) (cred : CredentialLookup) (f : AuthFields) (payload_hash : bytes) : result unit :=
  expect ← signature_for req (cl_secret cred) (af_amz_date f) (scope_of f) (af_signed_headers f) payload_hash (af_presigned f);
  throw_if (negb (constant_time_eq expect (af_signature f))) SignatureDoesNotMatch.
(** What is put over the body of a request whose signature is right. *)
Definition guard_body (req : HttpRequest) (cred : CredentialLookup) (f : AuthFields) (explicit : option bytes) (ps : bytes * StreamingPayload)
    : result BodyGuard :=
  declared ← declared_trailers_of (head_of req) (sp_trailer ps.2);
  match hr_body req with
  | None => Ok Bare
  | Some _ =>
      if sp_chunked ps.2 then
        let key := derive_signing_key (cl_secret cred) (af_date f) (af_region f) (af_service f) in
        cs ← install_chunked_body (head_of req) ps.2 declared (Some (mkSigning key (af_signature f) (af_amz_date f) (scope_of f)));
        Ok (Deframed cs.1 cs.2)
      else if bool_decide (explicit = None) && is_hex_digest ps.1 then Ok (Hashed ps.1)
      else Ok Bare
  end.
Definition strip_transport_framing (req : HttpRequest) : result BodyGuard :=
  match hfind (hr_headers req) (bs "x-amz-content-sha256"), hr_body req with
  | Some h, Some _ =>
      p ← classify_payload h;
      if negb (sp_chunked p) then Ok Bare
      else declared ← declared_trailers_of (head_of req) (sp_trailer p);
           cs ← install_chunked_body (head_of req) p declared None;
           Ok (Deframed cs.1 cs.2)
  | _, _ => Ok Bare
  end.

(** * The authenticator *)
Context {P : Type} `{CredentialProvider P}.
Record Authenticator := mkAuth { au_provider : P; au_required : bool; au_region : bytes; au_service : bytes }.
Definition latch (a : Authenticator) : Authenticator := mkAuth (au_provider a) true (au_region a) (au_service a).
Definition set_provider (p : P) (a : Authenticator) : Authenticator :=
  mkAuth p (au_required a || has_credentials p) (au_region a) (au_service a).
Definition enabled (a : Authenticator) : bool * Authenticator :=
  if au_required a then (true, a)
  else if has_credentials (au_provider a) then (true, latch a) else (false, a).

(** [verify_impl] when authentication is on. *)
Definition verify_signed (clock : nat -> time_point) (req : HttpRequest) (services : list bytes) (explicit : option bytes) (a : Authenticator)
    : result (VerifiedIdentity * BodyGuard) :=
  f ← auth_fields req;
  _ ← check_scope (au_region a) services f;
  _ ← check_time clock req f;
  match cred_lookup (au_provider a) (af_access_key f) with
  | None => Throw InvalidAccessKeyId
  | Some cred =>
      _ ← check_token (clock 2%nat) req cred;
      ps ← payload_of req f explicit;
      _ ← check_signature_of req cred f ps.1;
      g ← guard_body req cred f explicit ps;
      Ok (mkIdentity (af_access_key f) (cl_policy cred) (cl_tenant cred) (cl_admin cred), g)
  end.
Definition verify_impl (clock : nat -> time_point) (req : HttpRequest) (services : list bytes) (explicit : option bytes) (a : Authenticator)
    : result (VerifiedIdentity * BodyGuard) * Authenticator :=
  let '(on, a') := enabled a in
  if on then (verify_signed clock req services explicit a', a')
  else ((λ g, (no_identity, g)) <$> strip_transport_framing req, a').
Definition verify (clock : nat -> time_point) (req : HttpRequest) (a : Authenticator) := verify_impl clock req [au_service a] None a.
Definition verify_any (clock : nat -> time_point) (req : HttpRequest) (services : list bytes) (a : Authenticator) := verify_impl clock req services None a.
Definition verify_sts (clock : nat -> time_point) (req : HttpRequest) (payload_hash : bytes) (a : Authenticator) := verify_impl clock req [bs "sts"] (Some payload_hash) a.

(** * Signing *)

(** [std::unique] *)
Fixpoint unique (l : list bytes) : list bytes :=
  match l with
  | x :: (y :: _) as l' => if bool_decide (x = y) then unique l' else x :: unique l'
  | _ => l
  end.
Definition names_to_sign (req : HttpRequest) : list bytes :=
  let names := List.filter (λ lk, bool_decide (lk = bs "host") || starts_with (bs "x-amz-") lk) ((λ kv, lower kv.1) <$> hitems (hr_headers req)) in
  unique (merge_sort bytes_le names).
Definition join_names (l : list bytes) : bytes :=
  fold_left (λ out n, out ++ (if bool_decide (out = []) then [] else bs ";") ++ n) l [].
Definition sign (now : time_point) (req : HttpRequest) (access_key secret_key payload_hash service : bytes) (a : Authenticator) : result HttpRequest :=
  let svc := if bool_decide (service = []) then au_service a else service in
  let payload_hash := if bool_decide (payload_hash = []) then kEmptySha256 else payload_hash in
  let amz_date := TimeUtil.amz_date now in
  let req := with_headers (set_header (bs "x-amz-content-sha256") payload_hash (set_header (bs "x-amz-date") amz_date (hr_headers req))) req in
  let signed_headers := join_names (names_to_sign req) in
  let date := take 8 amz_date in
  let scope := date ++ bs "/" ++ au_region a ++ bs "/" ++ svc ++ bs "/aws4_request" in
  sig ← signature_for req secret_key amz_date scope signed_headers payload_hash false;
  Ok (with_headers (set_header (bs "Authorization") (kAlgo ++ bs " Credential=" ++ access_key ++ bs "/" ++ scope ++
                      bs ", SignedHeaders=" ++ signed_headers ++ bs ", Signature=" ++ sig) (hr_headers req)) req).
End sigv4.
Arguments Authenticator : clear implicits.

(** * [Sha256VerifyingReader] *)
Section sha_reader.
Context (hash : Algo -> bytes -> bytes) {R : Type} `{BodyReader R}.
Record Sha256Reader := mkSha { sr_inner : R; sr_expected : bytes; sr_hash : bytes; sr_consumed : Z; sr_done : bool }.
Definition sha_reader (inner : R) (expected_hex : bytes) : Sha256Reader := mkSha inner (lower expected_hex) [] 0 false.
Definition sha_verify (c : bytes) (s : Sha256Reader) : res read_error bytes * Sha256Reader :=
  let s' := mkSha (sr_inner s) (sr_expected s) (sr_hash s) (sr_consumed s) true in
  if bool_decide (to_hex (hash Sha256 (sr_hash s)) = sr_expected s) then (Ok c, s') else (Throw (S3Err XAmzContentSHA256Mismatch), s').
Definition sha_read (n : nat) (s : Sha256Reader) : res read_error bytes * Sha256Reader :=
  if sr_done s then (Ok [], s)
  else
    let '(o, r') := br_read n (sr_inner s) in
    match o with
    | Throw e => (Throw e, mkSha r' (sr_expected s) (sr_hash s) (sr_consumed s) false)
    | Ok [] => sha_verify [] (mkSha r' (sr_expected s) (sr_hash s) (sr_consumed s) false)
    | Ok c =>
        let s1 := mkSha r' (sr_expected s) (sr_hash s ++ c) (sr_consumed s +₆₄ Z.of_nat (length c))%L3 false in
        match br_length r' with
        | Some len => if (len <=? sr_consumed s1)%Z then sha_verify c s1 else (Ok c, s1)
        | None => (Ok c, s1)
        end
    end.
#[global] Instance sha256_reader : BodyReader Sha256Reader := { br_read := sha_read; br_length s := br_length (sr_inner s) }.
End sha_reader.
Arguments Sha256Reader : clear implicits.
