(* ===== verification/SigV4Proofs.v ===== *)
(** What an accepted signature means: the checks the request passed, the parts of it that
    the signature binds, and the switch of authentication. *)

From S2P Require Import Prelude Bytes Util Backend Policy TimeUtil Headers BodyReader Checksum Digest DigestProofs Chunked ChunkedProofs SigV4.
From Stdlib Require Import ZArith Lia.
From stdpp Require Import base list gmap strings sorting.
Import Hex Uri.

(** * Lines *)
Definition LF : byte := Byte.x0a.
Definition one_line (s : bytes) : Prop := LF ∉ s.
Lemma line_inj a a' b b' : one_line a -> one_line a' -> a ++ nl ++ b = a' ++ nl ++ b' -> a = a' /\ b = b'.
Proof.
  unfold one_line. revert a'. induction a as [|x a IH]; intros [|y a'] H1 H2 E; cbn [app nl] in E.
  - by injection E.
  - injection E as <- _. exfalso. apply H2. by left.
  - injection E as -> _. exfalso. apply H1. by left.
  - apply not_elem_of_cons in H1 as [_ H1], H2 as [_ H2]. injection E as -> E. by destruct (IH a' H1 H2 E) as [-> ->].
Qed.
(** Text made of lines that are not empty, up to the first empty one. *)
Definition text (l : list bytes) : bytes := concat ((λ s, s ++ nl) <$> l).
Lemma text_inj l l' b b' : Forall (λ s, one_line s /\ s <> []) l -> Forall (λ s, one_line s /\ s <> []) l' ->
  text l ++ nl ++ b = text l' ++ nl ++ b' -> l = l' /\ b = b'.
Proof.
  unfold text. revert l'. induction l as [|s l IH]; intros [|s' l'] H1 H2 E; cbn [fmap list_fmap concat app] in E.
  - by simplify_eq/=.
  - apply list.Forall_cons in H2 as [[H2 H3] _]. rewrite <- !app_assoc in E. by destruct (line_inj [] s' _ _ (not_elem_of_nil _) H2 E) as [<- _].
  - apply list.Forall_cons in H1 as [[H1 H3] _]. rewrite <- !app_assoc in E. by destruct (line_inj s [] _ _ H1 (not_elem_of_nil _) E) as [-> _].
  - apply list.Forall_cons in H1 as [[H1 _] H1'], H2 as [[H2 _] H2']. rewrite <- !app_assoc in E. destruct (line_inj s s' _ _ H1 H2 E) as [-> E']. by destruct (IH l' H1' H2' E') as [-> ->].
Qed.
Lemma one_line_app a b : one_line (a ++ b) <-> one_line a /\ one_line b.
Proof. unfold one_line. rewrite elem_of_app. tauto. Qed.

(** ** The canonical request has one line per part *)
Lemma encode_char_line slash : forall c, bool_decide (one_line (encode_char slash c)) = true.
Proof. by destruct slash; intros []; vm_compute. Qed.
Lemma encoded_line s slash : one_line (aws_uri_encode s slash).
Proof.
  induction s as [|c s IH]; [apply not_elem_of_nil|]. change (aws_uri_encode (c :: s) slash) with (encode_char slash c ++ aws_uri_encode s slash).
  apply one_line_app. split; [exact (proj1 (bool_decide_eq_true _) (encode_char_line slash c))|done].
Qed.
Lemma const_line s : forallb (λ c, negb (bool_decide (c = LF))) s = true -> one_line s.
Proof. intros H Hin. rewrite forallb_forall in H. specialize (H LF ltac:(by apply list_elem_of_In)). by rewrite bool_decide_true in H. Qed.
Lemma join_params_line l out : one_line out -> Forall (λ p, one_line p.1 /\ one_line p.2) l ->
  one_line (fold_left (λ out p, (if bool_decide (out = []) then out else out ++ bs "&") ++ p.1 ++ bs "=" ++ p.2) l out).
Proof.
  revert out. induction l as [|p l IH]; intros out Ho Hl; [done|]. apply list.Forall_cons in Hl as [[H1 H2] Hl]. cbn [fold_left]. apply IH; [|done].
  rewrite !one_line_app. split; [|split; [done|split; [by apply const_line|done]]]. case_bool_decide; [done|]. apply one_line_app. split; [done|by apply const_line].
Qed.
Lemma canonical_query_line raw exclude : one_line (canonical_query raw exclude).
Proof.
  unfold canonical_query, join_params. apply join_params_line; [apply not_elem_of_nil|]. rewrite merge_sort_Permutation. case_bool_decide; [constructor|].
  apply list.Forall_forall. intros p Hp. apply list_elem_of_omap in Hp as (kv & _ & Hp). unfold query_param in Hp. case_bool_decide; [done|].
  destruct (match bfind (bs "=") kv with None => _ | Some _ => _ end) as [k v]. case_bool_decide; [done|]. simplify_eq/=. split; apply encoded_line.
Qed.
Lemma fold_value_line sp q out v : one_line out -> one_line v -> one_line (fold_value sp q out v).
Proof.
  revert sp q out. induction v as [|c v IH]; intros sp q out Ho Hv; [done|]. apply not_elem_of_cons in Hv as [Hc Hv]. cbn [fold_value]. destruct (negb _ && ows c); apply IH; try done.
  apply one_line_app. split; [destruct (sp && _); [apply one_line_app; split; [done|by apply const_line]|done]|]. by apply not_elem_of_cons; split; [|apply not_elem_of_nil].
Qed.
Lemma join_values_line first l : Forall one_line l -> one_line (join_values first l).
Proof.
  intros Hl. revert first. induction Hl as [|v l Hv _ IH]; intros first; [apply not_elem_of_nil|]. cbn [join_values]. rewrite !one_line_app. split; [destruct first; by apply const_line|].
  split; [apply fold_value_line; [apply not_elem_of_nil|done]|done].
Qed.

(** A request as an HTTP parser makes it: no line feed in any part, no empty header name. *)
Record parsed (req : HttpRequest) : Prop := mkParsed {
  pa_method : one_line (hr_method req); pa_path : one_line (hr_raw_path req);
  pa_headers : Forall (λ kv, kv.1 <> [] /\ one_line kv.1 /\ one_line kv.2) (hitems (hr_headers req)); pa_wf : headers_wf (hr_headers req) }.

Lemma signed_values_eq req name : headers_wf (hr_headers req) -> signed_values req name = (List.filter (named name) (hitems (hr_headers req))).*2.
Proof. intros Hw. unfold signed_values. rewrite (entries_eq _ Hw), filter_named, <- list_fmap_compose. done. Qed.
Lemma signed_values_line req name : parsed req -> Forall one_line (signed_values req name).
Proof.
  intros Hp. rewrite signed_values_eq by apply Hp. pose proof (pa_headers _ Hp) as H. induction H as [|kv l (_ & _ & H) _ IH]; [constructor|]. cbn. destruct (named name kv); [by constructor|done].
Qed.
Lemma signed_values_empty req : parsed req -> signed_values req [] = [].
Proof.
  intros Hp. rewrite signed_values_eq by apply Hp. rewrite filter_none; [done|]. pose proof (pa_headers _ Hp) as H. eapply Forall_impl; [exact H|]. intros [k v] [Hk _].
  unfold named. rewrite ieq_spec. apply bool_decide_eq_false_2. intros E%(f_equal length). rewrite !length_fmap in E. by destruct k.
Qed.

(** The lines of the signed headers. *)
Definition header_line (req : HttpRequest) (name : bytes) : bytes := name ++ bs ":" ++ join_values true (signed_values req name).
Definition shown (names : list bytes) : list bytes := List.filter (λ n, negb (bool_decide (n = []))) names.
Lemma canonical_headers_text req names hs : parsed req -> canonical_headers req names = Ok hs -> hs = text (header_line req <$> shown names).
Proof.
  intros Hp. revert hs. induction names as [|n names IH]; intros hs E; cbn [canonical_headers] in E; [by inv_res|]. unfold shown. cbn [List.filter]. fold (shown names).
  destruct (signed_values req n) as [|v vs] eqn:Ev.
  - case_bool_decide; [|done]. cbn [negb]. by apply IH.
  - inv_res. subst hs. rewrite bool_decide_false by (intros ->; by rewrite signed_values_empty in Ev). cbn [negb].
    rewrite (IH _ Hm). change (text (header_line req <$> n :: shown names)) with ((header_line req n ++ nl) ++ text (header_line req <$> shown names)).
    assert (header_line req n = n ++ bs ":" ++ join_values true (v :: vs)) as -> by (unfold header_line; by rewrite Ev). rewrite <- !app_assoc. cbn [join_values]. rewrite <- !app_assoc. reflexivity.
Qed.
Lemma header_lines_ok req names : parsed req -> Forall one_line names -> Forall (λ s, one_line s /\ s <> []) (header_line req <$> shown names).
Proof.
  intros Hp Hn. unfold shown. induction Hn as [|n names Hn _ IH]; [constructor|]. cbn [List.filter]. case_bool_decide as E; [done|]. cbn. constructor; [|done]. unfold header_line. split; [|by destruct n].
  rewrite !one_line_app. split; [done|]. split; [by apply const_line|]. by apply join_values_line, signed_values_line.
Qed.
Lemma split_line sep s : one_line s -> Forall one_line (split_on sep s).
Proof.
  unfold one_line. induction s as [|c s IH]; cbn; [intros _; constructor; [apply not_elem_of_nil|constructor]|]. intros [Hc Hs]%not_elem_of_cons. specialize (IH Hs).
  destruct (split_on_cons sep s) as (seg & rest & E). rewrite E in IH |- *. case_bool_decide; [constructor; [apply not_elem_of_nil|done]|]. apply list.Forall_cons in IH as [H1 H2]. constructor; [|done]. by apply not_elem_of_cons.
Qed.

(** Equal canonical requests: equal parts. *)
Definition path_of (req : HttpRequest) : bytes := if bool_decide (hr_raw_path req = []) then bs "/" else hr_raw_path req.
Definition query_of (req : HttpRequest) (presigned : bool) : bytes := canonical_query (hr_raw_query req) (if presigned then bs "X-Amz-Signature" else []).
Lemma path_of_line req : parsed req -> one_line (path_of req).
Proof. intros Hp. unfold path_of. case_bool_decide; [by apply const_line|apply Hp]. Qed.
Lemma canonical_request_Ok req sh ph pre c : parsed req -> canonical_request req sh ph pre = Ok c ->
  c = hr_method req ++ nl ++ path_of req ++ nl ++ query_of req pre ++ nl ++ text (header_line req <$> shown (split_on (ch ";") sh)) ++ nl ++ sh ++ nl ++ ph.
Proof. intros Hp E. apply bind_Ok in E as (hs & Hh & E). rewrite <- (canonical_headers_text _ _ _ Hp Hh). by inversion E. Qed.
Lemma canonical_inj req req' sh sh' ph ph' pre pre' c : parsed req -> parsed req' -> one_line sh -> one_line sh' ->
  canonical_request req sh ph pre = Ok c -> canonical_request req' sh' ph' pre' = Ok c ->
  hr_method req = hr_method req' /\ path_of req = path_of req' /\ query_of req pre = query_of req' pre' /\ sh = sh' /\ ph = ph' /\
  header_line req <$> shown (split_on (ch ";") sh) = header_line req' <$> shown (split_on (ch ";") sh').
Proof.
  intros P1 P2 S1 S2 E1 E2. apply canonical_request_Ok in E1, E2; [|done..]. rewrite E2 in E1. apply eq_sym in E1. rename E1 into E.
  apply line_inj in E as [-> E]; [|apply P1|apply P2]. apply line_inj in E as [-> E]; [|by apply path_of_line|by apply path_of_line].
  apply line_inj in E as [-> E]; [|apply canonical_query_line|apply canonical_query_line].
  apply text_inj in E as [El E]; [|by apply header_lines_ok, split_line|by apply header_lines_ok, split_line].
  apply line_inj in E as [-> ->]; done.
Qed.
(** The values of a signed header can be read off its line. *)
Lemma header_lines_values req req' (names : list bytes) n : header_line req <$> names = header_line req' <$> names -> n ∈ names ->
  join_values true (signed_values req n) = join_values true (signed_values req' n).
Proof.
  induction names as [|m names IH]; [by intros _ ?%elem_of_nil|]. cbn. intros E [->|Hin]%elem_of_cons; injection E as E1 E2; [|by apply IH]. unfold header_line in E1. by do 2 apply app_inv_head in E1.
Qed.

(** The names a canonical request lists are names of headers, which have one line. *)
Lemma lower_line a b : lower a = lower b -> one_line a -> one_line b.
Proof.
  revert b. induction a as [|x a IH]; intros [|y b] E Ha; try discriminate E; [done|]. injection E as Exy E. apply not_elem_of_cons in Ha as [Hx Ha]. apply not_elem_of_cons. split; [|exact (IH b E Ha)].
  intros <-. apply Hx. clear -Exy. by destruct x.
Qed.
Lemma canonical_headers_line req names hs : parsed req -> canonical_headers req names = Ok hs -> Forall one_line names.
Proof.
  intros Hp. revert hs. induction names as [|n names IH]; intros hs E; cbn [canonical_headers] in E; [constructor|]. destruct (signed_values req n) as [|v vs] eqn:Ev.
  - case_bool_decide as Hn; [|done]. subst n. constructor; [apply not_elem_of_nil|by eapply IH].
  - inv_res. constructor; [|by eapply IH]. rewrite signed_values_eq in Ev by apply Hp. destruct (List.filter (named n) (hitems (hr_headers req))) as [|kv l] eqn:Ef; [done|].
    assert (kv ∈ List.filter (named n) (hitems (hr_headers req))) as Hin by (rewrite Ef; left). apply list_elem_of_In, filter_In in Hin as [Hin Hn]. apply list_elem_of_In in Hin.
    pose proof (pa_headers _ Hp) as Hh. rewrite list.Forall_forall in Hh. destruct (Hh kv Hin) as (_ & Hk & _). unfold named in Hn. rewrite ieq_spec in Hn. apply bool_decide_eq_true in Hn. exact (lower_line _ _ Hn Hk).
Qed.
Lemma split_line_inv sep s : sep <> LF -> Forall one_line (split_on sep s) -> one_line s.
Proof.
  intros Hsep. induction s as [|c s IH]; cbn; [intros _; apply not_elem_of_nil|]. destruct (split_on_cons sep s) as (seg & rest & E). rewrite E in IH |- *. case_bool_decide as Hc.
  - intros [_ H]%list.Forall_cons. apply not_elem_of_cons. split; [congruence|by apply IH].
  - intros [[H1 H2]%not_elem_of_cons H3]%list.Forall_cons. apply not_elem_of_cons. split; [done|]. apply IH. by constructor.
Qed.
Lemma canonical_signed_line req sh ph pre c : parsed req -> canonical_request req sh ph pre = Ok c -> one_line sh.
Proof. intros Hp E. apply bind_Ok in E as (hs & Hh & _). apply (split_line_inv (ch ";")); [done|by eapply canonical_headers_line]. Qed.
Lemma parse_amz_length s t : parse_amz_date s = Some t -> length s = 16%nat.
Proof.
  unfold parse_amz_date. intros E. repeat (apply bind_Some in E as (? & _ & E)). destruct (negb _ || _) eqn:Eb in E; [done|]. apply orb_false_iff in Eb as [_ Eb]. apply negb_false_iff in Eb. by apply Nat.eqb_eq in Eb.
Qed.

(** * What an accepted request has passed *)
Section accept.
Context (sha256_hex : bytes -> bytes) (hmac_sha256 : bytes -> bytes -> bytes) {P : Type} `{CredentialProvider P}.
Abbreviation verify_impl := (verify_impl sha256_hex hmac_sha256).
Abbreviation verify_signed := (verify_signed sha256_hex hmac_sha256).

(** Within fifteen minutes of the server's clock, or inside the validity of a presigned
    URL, itself at most seven days. *)
Definition timely (clock : nat -> time_point) (req : HttpRequest) (f : AuthFields) (t : time_point) : Prop :=
  if af_presigned f then
    exists exp e, query_get req (bs "X-Amz-Expires") = Some exp /\ stol_long exp = Some e /\ (1 <= e <= 604800)%Z /\
      (t <= clock 0%nat + 900 * kNs)%Z /\ (clock 1%nat <= t + e * kNs)%Z
  else (Z.abs (clock 0%nat - t) < 901 * kNs)%Z.
(** A session credential with its own token, not expired; no token otherwise. *)
Definition token_fits (now : time_point) (req : HttpRequest) (cred : CredentialLookup) : Prop :=
  request_token req = cl_token cred /\
  match cl_token cred, cl_expires cred with Some _, Some e => (now <= e)%Z | _, _ => True end.
(** The signature this server computes. *)
Definition mac_of (cred : CredentialLookup) (f : AuthFields) (canonical : bytes) : bytes :=
  hmac_sha256 (derive_signing_key hmac_sha256 (cl_secret cred) (af_date f) (af_region f) (af_service f))
    (string_to_sign sha256_hex (af_amz_date f) (scope_of f) canonical).
Record authentic (clock : nat -> time_point) (req : HttpRequest) (services : list bytes) (explicit : option bytes) (a : Authenticator P)
    (f : AuthFields) (cred : CredentialLookup) (ps : bytes * StreamingPayload) (canonical : bytes) : Prop := mkAuthentic {
  at_fields : auth_fields req = Ok f;
  at_scope : af_region f = au_region a /\ af_service f ∈ services /\ af_terminal f = bs "aws4_request" /\ af_date f = take 8 (af_amz_date f);
  at_host : bs "host" ∈ split_on (ch ";") (af_signed_headers f);
  at_time : exists t, parse_amz_date (af_amz_date f) = Some t /\ timely clock req f t;
  at_cred : cred_lookup (au_provider a) (af_access_key f) = Some cred;
  at_token : token_fits (clock 2%nat) req cred;
  at_payload : payload_of req f explicit = Ok ps;
  at_canonical : canonical_request req (af_signed_headers f) ps.1 (af_presigned f) = Ok canonical;
  at_signature : af_signature f = to_hex (mac_of cred f canonical) }.

Lemma check_scope_Ok region services f : check_scope region services f = Ok tt <->
  (af_region f = region /\ af_service f ∈ services /\ af_terminal f = bs "aws4_request" /\ af_date f = take 8 (af_amz_date f)) /\ bs "host" ∈ split_on (ch ";") (af_signed_headers f).
Proof.
  unfold check_scope, header_is_signed. rewrite !throw_if_bind_Ok, throw_if_Ok, !orb_false_iff, !negb_false_iff, !bool_decide_eq_true, !existsb_true. split.
  - intros ([[? (sv & Hs & ->%bool_decide_eq_true)] ?] & ? & (n & Hn & ->%bool_decide_eq_true)). done.
  - intros ((? & ? & ? & ?) & ?). split_and!; try done; eexists; (split; [eassumption|by apply bool_decide_eq_true]).
Qed.
Lemma check_time_Ok clock req f : check_time clock req f = Ok tt <-> exists t, parse_amz_date (af_amz_date f) = Some t /\ timely clock req f t.
Proof.
  unfold check_time, timely, kMaxClockSkewSec, kMaxPresignExpires. destruct (parse_amz_date _) as [t|]; [|naive_solver]. trans (if af_presigned f then exists exp e, query_get req (bs "X-Amz-Expires") = Some exp /\ stol_long exp = Some e /\ (1 <= e <= 604800)%Z /\
      (t <= clock 0%nat + 900 * kNs)%Z /\ (clock 1%nat <= t + e * kNs)%Z else (Z.abs (clock 0%nat - t) < 901 * kNs)%Z); [|naive_solver]. destruct (af_presigned f).
  - rewrite throw_if_bind_Ok. destruct (query_get _ _) as [exp|]; [|naive_solver]. destruct (stol_long exp) as [e|] eqn:Ee; [|naive_solver]. rewrite throw_if_bind_Ok, throw_if_Ok, orb_false_iff. split.
    + intros (? & [? ?] & ?). exists exp, e. split_and!; try done; lia.
    + intros (? & ? & [= <-] & ? & ? & ? & ?). simplify_eq. split_and!; lia.
  - rewrite throw_if_Ok, orb_false_iff. unfold kNs. Z.quot_rem_to_equations. lia.
Qed.
Lemma check_token_Ok now req cred : check_token now req cred = Ok tt <-> token_fits now req cred.
Proof.
  unfold check_token, token_fits. destruct (cl_token cred) as [tok|], (request_token req) as [r|]; try naive_solver. destruct (constant_time_eq r tok) eqn:Ec; cbn [negb].
  - apply constant_time_eq_spec in Ec as ->. rewrite throw_if_Ok. destruct (cl_expires cred); [|naive_solver]. split; [intros; split; [done|lia]|intros [_ ?]; lia].
  - split; [done|]. intros [[= ->] _]. by rewrite (proj2 (constant_time_eq_spec tok tok) eq_refl) in Ec.
Qed.
Lemma parse_credential_parts cred f0 f : parse_credential cred f0 = Ok f -> ch "/" ∉ af_date f /\ ch "/" ∉ af_region f /\ ch "/" ∉ af_service f.
Proof.
  unfold parse_credential. intros E. destruct (split_on (ch "/") cred) as [|x0 [|x1 [|x2 [|x3 [|x4 [|]]]]]] eqn:Es; try done. inv_res. subst f. cbn. assert (forall x, x ∈ [x0; x1; x2; x3; x4] -> ch "/" ∉ x) as Hx by (intros x Hx; apply (split_on_segments _ cred); by rewrite Es).
  split_and!; apply Hx; set_solver.
Qed.
Definition slashless (f : AuthFields) : Prop := ch "/" ∉ af_date f /\ ch "/" ∉ af_region f /\ ch "/" ∉ af_service f.
Lemma auth_pieces_slashless l f0 f : slashless f0 -> auth_pieces f0 l = Ok f -> slashless f.
Proof.
  revert f0. induction l as [|p l IH]; intros f0 H0 E; cbn [auth_pieces] in E; [by (inv_res; subst)|]. apply bind_Ok in E as (f1 & E1 & E). refine (IH f1 _ E). clear E IH. unfold auth_piece in E1.
  destruct (bfind _ _); [|by inv_res; subst]. case_bool_decide; [by apply parse_credential_parts in E1|]. case_bool_decide; [by (inv_res; subst)|]. case_bool_decide; by (inv_res; subst).
Qed.
Lemma auth_fields_slashless req f : auth_fields req = Ok f -> slashless f.
Proof.
  assert (slashless no_fields) as H0 by (split_and!; apply not_elem_of_nil). unfold auth_fields. destruct (hfind _ _) as [auth|].
  - intros E. apply bind_Ok in E as (f1 & E1 & E). destruct (match hfind _ _ with Some _ => _ | None => _ end); [|done]. inv_res. subst f. unfold parse_auth_header in E1. destruct (negb _); [done|]. apply bind_Ok in E1 as (f2 & E2 & E1).
    destruct (_ || _); [done|]. inv_res. subst f2. exact (auth_pieces_slashless _ _ _ H0 E2).
  - destruct (query_get _ _); [|done]. destruct (negb _); [done|]. intros E. apply bind_Ok in E as (f1 & E1 & E). destruct (_ || _); [done|]. inv_res. subst f. exact (parse_credential_parts _ _ _ E1).
Qed.
Lemma scope_parts f : slashless f -> scope_part (scope_of f) 0 = af_date f /\ scope_part (scope_of f) 1 = af_region f /\ scope_part (scope_of f) 2 = af_service f.
Proof.
  intros (H1 & H2 & H3). unfold scope_part, scope_of. change (bs "/") with [ch "/"]. change (bs "/aws4_request") with (ch "/" :: bs "aws4_request"). cbn [app]. rewrite !split_on_app by done. done.
Qed.
Lemma signature_for_Ok req f cred ph sig : slashless f ->
  signature_for sha256_hex hmac_sha256 req (cl_secret cred) (af_amz_date f) (scope_of f) (af_signed_headers f) ph (af_presigned f) = Ok sig <->
  exists c, canonical_request req (af_signed_headers f) ph (af_presigned f) = Ok c /\ sig = to_hex (mac_of cred f c).
Proof.
  intros Hf. unfold signature_for. rewrite bind_Ok. cbv zeta. destruct (scope_parts f Hf) as (-> & -> & ->). fold (mac_of cred f). split; intros (c & Hc & E); exists c; (split; [done|]); [by inversion E|by rewrite E].
Qed.
Lemma check_signature_Ok req cred f ph : slashless f ->
  check_signature_of sha256_hex hmac_sha256 req cred f ph = Ok tt <-> exists c, canonical_request req (af_signed_headers f) ph (af_presigned f) = Ok c /\ af_signature f = to_hex (mac_of cred f c).
Proof.
  intros Hf. unfold check_signature_of. rewrite bind_Ok. split.
  - intros (sig & Hsig & E). apply signature_for_Ok in Hsig as (c & Hc & ->); [|done]. apply throw_if_Ok, negb_false_iff, constant_time_eq_spec in E. by exists c.
  - intros (c & Hc & E). eexists. split; [apply signature_for_Ok; [done|by exists c]|]. apply throw_if_Ok, negb_false_iff, constant_time_eq_spec. done.
Qed.
(** The steps of the verification as one condition. *)
Definition identity_of (f : AuthFields) (cred : CredentialLookup) : VerifiedIdentity := mkIdentity (af_access_key f) (cl_policy cred) (cl_tenant cred) (cl_admin cred).
Lemma verify_signed_exact clock req services explicit a id g : verify_signed clock req services explicit a = Ok (id, g) <->
  exists f cred ps c, authentic clock req services explicit a f cred ps c /\ id = identity_of f cred /\ guard_body hmac_sha256 req cred f explicit ps = Ok g.
Proof.
  unfold SigV4.verify_signed. rewrite bind_Ok. split.
  - intros (f & Hf & E). apply bind_Ok in E as ([] & Hs & E). apply bind_Ok in E as ([] & Ht & E). destruct (cred_lookup _ _) as [cred|] eqn:Ec; [|done].
    apply bind_Ok in E as ([] & Hk & E). apply bind_Ok in E as (ps & Hp & E). apply bind_Ok in E as ([] & Hg & E). apply bind_Ok in E as (g' & Hb & E).
    apply check_signature_Ok in Hg as (c & Hc & Es); [|by eapply auth_fields_slashless]. apply check_scope_Ok in Hs as [S1 S2]. apply check_time_Ok in Ht. apply check_token_Ok in Hk. exists f, cred, ps, c. inversion E. subst. done.
  - intros (f & cred & ps & c & [A1 A2 A3 A4 A5 A6 A7 A8 A9] & -> & Hb). exists f. split; [done|]. rewrite (proj2 (check_scope_Ok _ _ _) (conj A2 A3)). cbn [mbind res_bind]. rewrite (proj2 (check_time_Ok _ _ _) A4). cbn [mbind res_bind]. rewrite A5.
    rewrite (proj2 (check_token_Ok _ _ _) A6). cbn [mbind res_bind]. rewrite A7. cbn [mbind res_bind]. rewrite (proj2 (check_signature_Ok req cred f ps.1 (auth_fields_slashless _ _ A1))) by by exists c. cbn [mbind res_bind]. by rewrite Hb.
Qed.
Definition is_on (a : Authenticator P) : bool := au_required a || has_credentials (au_provider a).
Lemma enabled_on a : is_on a = true -> exists a', enabled a = (true, a') /\ au_provider a' = au_provider a /\ au_region a' = au_region a /\ au_service a' = au_service a /\ au_required a' = true.
Proof. unfold is_on, enabled. destruct (au_required a) eqn:E; [by exists a|]. cbn. intros ->. by eexists. Qed.
Lemma authentic_latch clock req services explicit a a' f cred ps c : au_provider a' = au_provider a -> au_region a' = au_region a ->
  authentic clock req services explicit a' f cred ps c <-> authentic clock req services explicit a f cred ps c.
Proof. intros E1 E2. split; intros [H1 H2 H3 H4 H5 H6 H7 H8 H9]; split; try done; congruence. Qed.
Lemma verify_exact_on clock req services explicit a id g : is_on a = true ->
  (verify_impl clock req services explicit a).1 = Ok (id, g) <->
  exists f cred ps c, authentic clock req services explicit a f cred ps c /\ id = identity_of f cred /\ guard_body hmac_sha256 req cred f explicit ps = Ok g.
Proof.
  intros Hon. destruct (enabled_on a Hon) as (a1 & E1 & P1 & R1 & _ & _). unfold SigV4.verify_impl. rewrite E1. cbn [fst]. rewrite verify_signed_exact. by setoid_rewrite (authentic_latch clock req services explicit a a1 _ _ _ _ P1 R1).
Qed.
(** Off, nothing is checked; the switch is on afterwards exactly when it was on. *)
Lemma enabled_off a : is_on a = false -> enabled a = (false, a).
Proof. unfold is_on, enabled. intros [-> ->]%orb_false_iff. done. Qed.
Lemma verify_off clock req services explicit a r a' : is_on a = false -> verify_impl clock req services explicit a = (r, a') ->
  r = ((λ g, (no_identity, g)) <$> strip_transport_framing req) /\ a' = a.
Proof. intros Hon. unfold SigV4.verify_impl. rewrite (enabled_off a Hon). intros E. apply pair_equal_spec in E as [<- <-]. split; reflexivity. Qed.
Lemma verify_latch clock req services explicit a : au_required (verify_impl clock req services explicit a).2 = is_on a.
Proof.
  unfold SigV4.verify_impl. destruct (is_on a) eqn:Hon.
  - destruct (enabled_on a Hon) as (a1 & -> & _ & _ & _ & E). done.
  - rewrite (enabled_off a Hon). cbn [snd]. unfold is_on in Hon. by apply orb_false_iff in Hon as [-> _].
Qed.

(** Two accepted requests with one signature: the MACs or the hashes of their canonical
    requests collide, or they agree on every signed part. *)
Definition collides (f f' : AuthFields) (cred cred' : CredentialLookup) (c c' : bytes) : Prop :=
  string_to_sign sha256_hex (af_amz_date f) (scope_of f) c <> string_to_sign sha256_hex (af_amz_date f') (scope_of f') c' /\ mac_of cred f c = mac_of cred' f' c' \/
  c <> c' /\ sha256_hex c = sha256_hex c'.
Record same_signed (req req' : HttpRequest) (f f' : AuthFields) (ph ph' : bytes) : Prop := mkSame {
  ss_method : hr_method req = hr_method req'; ss_path : path_of req = path_of req';
  ss_query : query_of req (af_presigned f) = query_of req' (af_presigned f');
  ss_date : af_amz_date f = af_amz_date f'; ss_scope : scope_of f = scope_of f';
  ss_signed : af_signed_headers f = af_signed_headers f'; ss_payload : ph = ph';
  ss_headers : forall n, n ∈ split_on (ch ";") (af_signed_headers f) -> join_values true (signed_values req n) = join_values true (signed_values req' n) }.
Lemma to_hex_inj a b : to_hex a = to_hex b -> a = b.
Proof. intros E%(f_equal from_hex). by rewrite !from_hex_to_hex in E. Qed.
Lemma scope_inj f f' h h' : af_date f = af_date f' -> one_line (af_region f) -> one_line (af_service f) -> one_line (af_region f') -> one_line (af_service f') ->
  scope_of f ++ nl ++ h = scope_of f' ++ nl ++ h' -> scope_of f = scope_of f' /\ h = h'.
Proof.
  intros Hd R1 S1 R2 S2 E. unfold scope_of in *. rewrite Hd in *. rewrite <- !(app_assoc (af_date f')) in E. apply app_inv_head in E. apply line_inj in E as [-> ->]; [done|..];
    rewrite !one_line_app; (split_and!; [by apply const_line|done|by apply const_line|done|by apply const_line]).
Qed.
Lemma same_string clock clock' req req' services services' explicit explicit' a a' f f' cred cred' ps ps' c c' :
  parsed req -> parsed req' -> Forall one_line (au_region a :: services) -> Forall one_line (au_region a' :: services') ->
  authentic clock req services explicit a f cred ps c -> authentic clock' req' services' explicit' a' f' cred' ps' c' ->
  string_to_sign sha256_hex (af_amz_date f) (scope_of f) c = string_to_sign sha256_hex (af_amz_date f') (scope_of f') c' ->
  c <> c' /\ sha256_hex c = sha256_hex c' \/ same_signed req req' f f' ps.1 ps'.1.
Proof.
  intros P1 P2 [L1 L2]%list.Forall_cons [L1' L2']%list.Forall_cons [_ (R & S & _ & D) _ (t & T & _) _ _ _ C1 _] [_ (R' & S' & _ & D') _ (t' & T' & _) _ _ _ C2 _] E.
  rewrite list.Forall_forall in L2, L2'. unfold string_to_sign in E. do 2 apply app_inv_head in E. apply app_inj_1 in E as [Ed E]; [|by rewrite (parse_amz_length _ _ T), (parse_amz_length _ _ T')]. apply app_inv_head in E.
  apply scope_inj in E as [Es E]; [|congruence|by rewrite R|by apply L2|by rewrite R'|by apply L2'].
  destruct (decide (c = c')) as [<-|Hne]; [right|by left]. pose proof (canonical_signed_line _ _ _ _ _ P1 C1) as L3. pose proof (canonical_signed_line _ _ _ _ _ P2 C2) as L3'.
  destruct (canonical_inj _ _ _ _ _ _ _ _ _ P1 P2 L3 L3' C1 C2) as (M & Hp & Hq & Hs & Hh & Hl). split; try done. intros n Hn. destruct (decide (n = [])) as [->|Hne].
  - by rewrite !signed_values_empty.
  - rewrite <- Hs in Hl. apply (header_lines_values _ _ _ n Hl). apply list_elem_of_In, filter_In. split; [by apply list_elem_of_In|]. by rewrite bool_decide_false.
Qed.
Lemma same_signature clock clock' req req' services services' explicit explicit' a a' f f' cred cred' ps ps' c c' :
  parsed req -> parsed req' -> Forall one_line (au_region a :: services) -> Forall one_line (au_region a' :: services') ->
  authentic clock req services explicit a f cred ps c -> authentic clock' req' services' explicit' a' f' cred' ps' c' ->
  af_signature f = af_signature f' -> collides f f' cred cred' c c' \/ same_signed req req' f f' ps.1 ps'.1.
Proof.
  intros P1 P2 L L' A A' E. rewrite (at_signature _ _ _ _ _ _ _ _ _ A), (at_signature _ _ _ _ _ _ _ _ _ A') in E. apply to_hex_inj in E.
  destruct (decide (string_to_sign sha256_hex (af_amz_date f) (scope_of f) c = string_to_sign sha256_hex (af_amz_date f') (scope_of f') c')) as [Es|Hne]; [|by left; left].
  destruct (same_string _ _ _ _ _ _ _ _ _ _ _ _ _ _ _ _ _ _ P1 P2 L L' A A' Es) as [Hc|Hs]; [by left; right|by right].
Qed.
End accept.
