(* ===== verification/SigV4Sign.v ===== *)
(** Signing and verifying: a request that [sign] has signed is accepted, by any server that
    knows the key. *)

From S2P Require Import Prelude Bytes Util Backend Policy TimeUtil Headers BodyReader Checksum Digest DigestProofs Chunked ChunkedProofs SigV4 SigV4Proofs.
From Stdlib Require Import ZArith Lia.
From stdpp Require Import base list gmap strings sorting.
Import Hex Uri.

(** * The list of names *)
Lemma unique_elem l n : n ∈ unique l <-> n ∈ l.
Proof.
  induction l as [|x [|y l] IH]; [done|done|]. change (unique (x :: y :: l)) with (if bool_decide (x = y) then unique (y :: l) else x :: unique (y :: l)). case_bool_decide as E.
  - subst y. rewrite IH, !elem_of_cons. tauto.
  - rewrite elem_of_cons, IH, (elem_of_cons (y :: l)). done.
Qed.
Definition tail_names (l : list bytes) : bytes := concat ((λ n, ch ";" :: n) <$> l).
Lemma join_names_from out l : out <> [] -> fold_left (λ out n, out ++ (if bool_decide (out = []) then [] else bs ";") ++ n) l out = out ++ tail_names l.
Proof.
  revert out. induction l as [|n l IH]; intros out Ho; cbn [fold_left]; [by rewrite app_nil_r|]. rewrite bool_decide_false by done. rewrite IH by (by destruct out). unfold tail_names. cbn [fmap list_fmap concat]. by rewrite <- !app_assoc.
Qed.
Lemma join_names_cons n l : n <> [] -> join_names (n :: l) = n ++ tail_names l.
Proof. intros Hn. unfold join_names. cbn [fold_left]. rewrite bool_decide_true by done. cbn [app]. by apply join_names_from. Qed.
Lemma split_names n l : ch ";" ∉ n -> Forall (λ s, ch ";" ∉ s) l -> split_on (ch ";") (n ++ tail_names l) = n :: l.
Proof.
  intros Hn Hl. revert n Hn. induction Hl as [|m l Hm _ IH]; intros n Hn; unfold tail_names; cbn [fmap list_fmap concat].
  - rewrite app_nil_r. by apply split_on_no_sep.
  - rewrite <- app_comm_cons, split_on_app by done. f_equal. by apply IH.
Qed.

(** Names as HTTP allows them, as far as it matters here. *)
Definition plain_name (s : bytes) : Prop := ch "," ∉ s /\ ch ";" ∉ s.
Lemma lower_plain_char : forall c, bool_decide (lower_char (lower_char c) = lower_char c /\ (lower_char c = ch "," -> c = ch ",") /\ (lower_char c = ch ";" -> c = ch ";")) = true.
Proof. intros []; vm_compute; reflexivity. Qed.
Lemma lower_idem s : lower (lower s) = lower s.
Proof. unfold lower. rewrite <- list_fmap_compose. apply list_fmap_ext. intros i c _. pose proof (lower_plain_char c) as H. apply bool_decide_eq_true in H as [H _]. done. Qed.
Lemma lower_plain s : plain_name s -> plain_name (lower s).
Proof.
  intros [H1 H2]. split; intros (c & E & Hc)%list_elem_of_fmap; pose proof (lower_plain_char c) as H; apply bool_decide_eq_true in H as (_ & H3 & H4); [apply H1; by rewrite <- H3|apply H2; by rewrite <- H4].
Qed.
Lemma lower_app a b : lower (a ++ b) = lower a ++ lower b.
Proof. apply fmap_app. Qed.

(** ** The names [sign] puts in the list *)
Definition signable_name (n : bytes) : bool := bool_decide (n = bs "host") || starts_with (bs "x-amz-") n.
Lemma names_to_sign_elem req n : n ∈ names_to_sign req <-> signable_name n = true /\ exists kv, kv ∈ hitems (hr_headers req) /\ n = lower kv.1.
Proof.
  unfold names_to_sign. rewrite unique_elem, merge_sort_Permutation, list_elem_of_In, filter_In, <- list_elem_of_In, list_elem_of_fmap. unfold signable_name. naive_solver.
Qed.
Lemma signable_nonempty n : signable_name n = true -> n <> [].
Proof. by intros H ->. Qed.
Section names.
Context (req : HttpRequest) (Hplain : Forall (λ kv, plain_name kv.1) (hitems (hr_headers req))).
Lemma names_plain : Forall (λ n, signable_name n = true /\ plain_name n /\ lower n = n) (names_to_sign req).
Proof.
  apply list.Forall_forall. intros n (Hs & kv & Hk & ->)%names_to_sign_elem. rewrite list.Forall_forall in Hplain. split; [done|]. split; [by apply lower_plain, Hplain|apply lower_idem].
Qed.
Lemma tail_plain l : Forall (λ n, signable_name n = true /\ plain_name n /\ lower n = n) l -> ch "," ∉ tail_names l /\ lower (tail_names l) = tail_names l.
Proof.
  induction 1 as [|n l (_ & [H1 _] & H2) _ [IH1 IH2]]; [split; [apply not_elem_of_nil|done]|]. unfold tail_names. cbn [fmap list_fmap concat]. fold (tail_names l). split.
  - rewrite elem_of_app, elem_of_cons. intros [[?|?]|?]; done.
  - rewrite lower_app, IH2. f_equal. change (lower (ch ";" :: n)) with (ch ";" :: lower n). by rewrite H2.
Qed.
Lemma signed_list n0 : n0 ∈ names_to_sign req ->
  split_on (ch ";") (join_names (names_to_sign req)) = names_to_sign req /\ ch "," ∉ join_names (names_to_sign req) /\ lower (join_names (names_to_sign req)) = join_names (names_to_sign req) /\
  join_names (names_to_sign req) <> [].
Proof.
  intros Hin. pose proof names_plain as Hp. destruct (names_to_sign req) as [|n l]; [by apply elem_of_nil in Hin|]. apply list.Forall_cons in Hp as [(Hs & [Hc Hse] & Hl) Hp]. pose proof (signable_nonempty _ Hs) as Hne. rewrite join_names_cons by done.
  destruct (tail_plain l Hp) as [T1 T2]. split; [|split; [|split]].
  - apply split_names; [done|]. eapply Forall_impl; [exact Hp|]. by intros x (_ & [_ ?] & _).
  - rewrite elem_of_app. tauto.
  - by rewrite lower_app, T2, Hl.
  - by destruct n.
Qed.
End names.

(** * Setting a header leaves the others *)
Lemma filter_update_first k v n l : ieq k n = false -> (List.filter (named n) (update_first k v l)).*2 = (List.filter (named n) l).*2.
Proof.
  intros Hk. induction l as [|kv l IH]; cbn [update_first List.filter]; [done|]. destruct (named k kv) eqn:E; cbn [List.filter].
  - change (named n (kv.1, v)) with (named n kv). by rewrite (named_clash k n kv Hk E).
  - destruct (named n kv); cbn; by rewrite IH.
Qed.
Lemma signed_values_set req k v n : headers_wf (hr_headers req) -> ieq k n = false -> signed_values (with_headers (set_header k v (hr_headers req)) req) n = signed_values req n.
Proof.
  intros Hw Hk. rewrite !signed_values_eq by (done || by apply set_header_wf). cbn [hr_headers with_headers]. rewrite set_header_items by done. destruct (has _ _); [by apply filter_update_first|].
  rewrite List.filter_app. cbn [List.filter]. change (named n (k, v)) with (ieq k n). by rewrite Hk, app_nil_r.
Qed.
Lemma canonical_headers_ext req req' names : (forall n, n ∈ names -> signed_values req n = signed_values req' n) -> canonical_headers req names = canonical_headers req' names.
Proof.
  induction names as [|n names IH]; intros Hn; [done|]. cbn [canonical_headers]. rewrite IH by (intros; apply Hn; by right). rewrite (Hn n) by by left. done.
Qed.
Lemma canonical_headers_total req names : (forall n, n ∈ names -> signed_values req n <> []) -> exists hs, canonical_headers req names = Ok hs.
Proof.
  induction names as [|n names IH]; intros Hn; cbn [canonical_headers]; [by eexists|]. destruct IH as [hs ->]; [intros; apply Hn; by right|]. destruct (signed_values req n) eqn:E; [by destruct (Hn n ltac:(by left))|]. by eexists.
Qed.
Lemma signed_present req kv : headers_wf (hr_headers req) -> kv ∈ hitems (hr_headers req) -> signed_values req (lower kv.1) <> [].
Proof.
  intros Hw Hk E. rewrite signed_values_eq in E by done. apply fmap_nil_inv in E. assert (kv ∈ List.filter (named (lower kv.1)) (hitems (hr_headers req))) as Hin; [|rewrite E in Hin; by apply elem_of_nil in Hin].
  apply list_elem_of_In, filter_In. split; [by apply list_elem_of_In|]. unfold named. rewrite ieq_spec. apply bool_decide_eq_true. symmetry. apply lower_idem.
Qed.

(** * The header [sign] writes *)
Lemma not_in (x : byte) (s : bytes) : forallb (λ c, negb (bool_decide (c = x))) s = true -> x ∉ s.
Proof. intros H Hin. rewrite forallb_forall in H. specialize (H x ltac:(by apply list_elem_of_In)). by rewrite bool_decide_true in H. Qed.
Section header.
Context (ak d r sv sh sig : bytes).
Definition auth_value : bytes :=
  kAlgo ++ bs " Credential=" ++ ak ++ bs "/" ++ (d ++ bs "/" ++ r ++ bs "/" ++ sv ++ bs "/aws4_request") ++ bs ", SignedHeaders=" ++ sh ++ bs ", Signature=" ++ sig.
Lemma parse_auth_value : (forall x, x ∈ [ak; d; r; sv] -> ch "," ∉ x /\ ch "/" ∉ x) -> ch "," ∉ sh -> ch "," ∉ sig -> ak <> [] -> sh <> [] -> lower sh = sh -> sig <> [] ->
  parse_auth_header auth_value = Ok (mkFields ak d r sv (bs "aws4_request") sh sig [] false).
Proof.
  intros Hx Hsh Hsig Hak Hsh0 Hl Hsig0. destruct (Hx ak ltac:(set_solver)) as [A1 A2], (Hx d ltac:(set_solver)) as [D1 D2], (Hx r ltac:(set_solver)) as [R1 R2], (Hx sv ltac:(set_solver)) as [S1 S2].
  set (cred := ak ++ ch "/" :: d ++ ch "/" :: r ++ ch "/" :: sv ++ ch "/" :: bs "aws4_request").
  assert (auth_value = kAlgo ++ (bs " Credential=" ++ cred) ++ ch "," :: (bs " SignedHeaders=" ++ sh) ++ ch "," :: bs " Signature=" ++ sig) as ->.
  { unfold auth_value, cred. repeat (rewrite <- ?app_assoc, <- ?app_comm_cons). reflexivity. }
  unfold parse_auth_header. rewrite starts_with_app. cbn [negb]. rewrite drop_app_length.
  assert (ch "," ∉ bs " Credential=" ++ cred) as N1.
  { unfold cred. repeat (apply not_elem_of_app; split; [first [done|by apply not_in]|]; try (apply not_elem_of_cons; split; [done|])). by apply not_in. }
  rewrite split_on_app by done. rewrite split_on_app by (apply not_elem_of_app; split; [by apply not_in|done]). rewrite split_on_no_sep by (apply not_elem_of_app; split; [by apply not_in|done]).
  cbn [auth_pieces]. assert (auth_piece no_fields (bs " Credential=" ++ cred) = Ok (set_credential ak d r sv (bs "aws4_request") no_fields)) as ->.
  { change (auth_piece no_fields (bs " Credential=" ++ cred)) with (parse_credential cred no_fields). unfold parse_credential, cred. rewrite !split_on_app by done. done. }
  cbn [mbind res_bind].
  change (auth_piece ?f (bs " SignedHeaders=" ++ sh)) with (Ok (E:=S3ErrorCode) (set_signed (lower sh) f)). cbn [mbind res_bind]. change (auth_piece ?f (bs " Signature=" ++ sig)) with (Ok (E:=S3ErrorCode) (set_signature sig f)). cbn [mbind res_bind].
  rewrite Hl. cbn. by rewrite !bool_decide_false.
Qed.
End header.

(** * Signed, then verified *)
Record signable (req : HttpRequest) : Prop := mkSignable {
  sg_wf : headers_wf (hr_headers req); sg_plain : Forall (λ kv, plain_name kv.1) (hitems (hr_headers req));
  sg_host : is_Some (hfind (hr_headers req) (bs "host")); sg_token : request_token req = None;
  sg_trailer : hfind (hr_headers req) (bs "x-amz-trailer") = None }.
Definition clean (s : bytes) : Prop := ch "," ∉ s /\ ch "/" ∉ s.

Lemma set_header_keys k v m : headers_wf m -> Forall (λ kv, plain_name kv.1) (hitems m) -> plain_name k -> Forall (λ kv, plain_name kv.1) (hitems (set_header k v m)).
Proof.
  intros Hw Hm Hk. rewrite set_header_items by done. destruct (has m k); [|apply Forall_app; split; [done|by constructor]].
  assert (Forall plain_name (update_first k v (hitems m)).*1) as H; [|by rewrite Forall_fmap in H]. rewrite update_first_keys, Forall_fmap. done.
Qed.
Lemma host_listed req : headers_wf (hr_headers req) -> is_Some (hfind (hr_headers req) (bs "host")) -> bs "host" ∈ names_to_sign req.
Proof.
  intros Hw [v Hv]. rewrite hfind_eq in Hv by done. destruct (List.find _ _) as [kv|] eqn:E; [|done]. apply find_some in E as [Hin Hn]. apply names_to_sign_elem. split; [done|]. exists kv. split; [by apply list_elem_of_In|].
  unfold named in Hn. rewrite ieq_spec in Hn. apply bool_decide_eq_true in Hn. unfold lower. rewrite Hn. reflexivity.
Qed.
Lemma signable_not_auth n : signable_name n = true -> lower n = n -> ieq (bs "Authorization") n = false.
Proof.
  intros Hs Hl. rewrite ieq_spec. apply bool_decide_eq_false_2. fold (lower n). rewrite Hl. intros <-. vm_compute in Hs. done.
Qed.

Lemma hex_plain m : m <> [] -> to_hex m <> [] /\ ch "," ∉ to_hex m.
Proof.
  intros Hm. split; [intros E%(f_equal length); rewrite length_to_hex in E; by destruct m|]. clear Hm. induction m as [|b m IH]; [apply not_elem_of_nil|]. change (to_hex (b :: m)) with (hex_pair (bs "0123456789abcdef") b ++ to_hex m).
  apply not_elem_of_app. split; [|done]. apply not_in. by destruct b.
Qed.
(** Names of the computations the proofs below only pass around. *)
#[local] Opaque TimeUtil.amz_date to_hex names_to_sign join_names.
Section roundtrip.
Context (sha256_hex : bytes -> bytes) (hmac_sha256 : bytes -> bytes -> bytes) {P : Type} `{CredentialProvider P}.
(** The request after the date and the payload hash have been set. *)
Definition dated (now : time_point) (ph : bytes) (req : HttpRequest) : HttpRequest :=
  with_headers (set_header (bs "x-amz-content-sha256") ph (set_header (bs "x-amz-date") (TimeUtil.amz_date now) (hr_headers req))) req.
Lemma dated_find now ph req k : headers_wf (hr_headers req) ->
  hfind (hr_headers (dated now ph req)) k = if ieq (bs "x-amz-content-sha256") k then Some ph else if ieq (bs "x-amz-date") k then Some (TimeUtil.amz_date now) else hfind (hr_headers req) k.
Proof. intros Hw. unfold dated. cbn [hr_headers with_headers]. rewrite !hfind_set by (done || by apply set_header_wf). done. Qed.
Lemma dated_signable now ph req : signable req -> signable (dated now ph req).
Proof.
  intros [Hw Hp Hh Ht Hr]. assert (forall k, ieq (bs "x-amz-content-sha256") k = false -> ieq (bs "x-amz-date") k = false -> hfind (hr_headers (dated now ph req)) k = hfind (hr_headers req) k) as Hf by (intros k H1 H2; by rewrite dated_find, H1, H2).
  split.
  - by do 2 apply set_header_wf.
  - apply set_header_keys; [by apply set_header_wf| |split; by apply not_in]. apply set_header_keys; [done|done|split; by apply not_in].
  - by rewrite Hf.
  - unfold request_token in *. by rewrite Hf.
  - by rewrite Hf.
Qed.
(** The guard of a body whose payload hash is not a streaming type. *)
Definition plain_guard (req : HttpRequest) (ph : bytes) : BodyGuard :=
  match hr_body req with Some _ => if is_hex_digest ph then Hashed ph else Bare | None => Bare end.
Lemma classify_plain ph : starts_with (bs "STREAMING-") ph = false -> exists t, classify_payload ph = Ok (mkStreaming false false t).
Proof.
  intros Hs. unfold classify_payload. set (t := (8 <=? _)%nat && _). cbv zeta. rewrite !bool_decide_false by (intros ->; vm_compute in Hs; discriminate Hs). cbn [orb]. rewrite Hs. by eexists.
Qed.
Lemma guard_plain req cred f ph t : hfind (hr_headers req) (bs "x-amz-trailer") = None -> guard_body hmac_sha256 req cred f None (ph, mkStreaming false false t) = Ok (plain_guard req ph).
Proof.
  intros Ht. unfold guard_body, declared_trailers_of, parse_declared_trailers. cbn [head_of req_headers fst snd sp_trailer sp_chunked]. rewrite Ht. cbn [declared_loop mbind res_bind]. unfold plain_guard. destruct (hr_body req); [|done]. cbn [andb bool_decide]. by destruct (is_hex_digest ph).
Qed.

Context (now : time_point) (Hnow : in_era now) (req : HttpRequest) (Hreq : signable req) (ak sk ph sv : bytes) (a : Authenticator P)
  (Hclean : clean ak /\ clean (au_region a) /\ clean sv) (Hak : ak <> []) (Hph : ph <> []) (Hsv : sv <> []) (Hmac : forall k m, hmac_sha256 k m <> []).
Let req1 := dated now ph req.
Let sh := join_names (names_to_sign req1).
Let d := take 8 (TimeUtil.amz_date now).
Definition signed_fields (sig : bytes) : AuthFields := mkFields ak d (au_region a) sv (bs "aws4_request") sh sig (TimeUtil.amz_date now) false.
Definition authorized (sig : bytes) : HttpRequest := with_headers (set_header (bs "Authorization") (auth_value ak d (au_region a) sv sh sig) (hr_headers req1)) req1.

Lemma date_clean : clean d.
Proof. split; intros Hin; eapply (amz_date_chars now); try exact Hnow; try (by apply subseteq_take in Hin); by vm_compute. Qed.
Lemma fields_slashless sig : slashless (signed_fields sig).
Proof. destruct Hclean as (_ & [_ H1] & [_ H2]). split; [apply date_clean|done]. Qed.
Lemma signed_list1 : split_on (ch ";") sh = names_to_sign req1 /\ ch "," ∉ sh /\ lower sh = sh /\ sh <> [].
Proof. pose proof (dated_signable now ph req Hreq) as H1. eapply signed_list; [apply H1|]. apply host_listed; apply H1. Qed.
Lemma sign_canonical : exists c, canonical_request req1 sh ph false = Ok c.
Proof.
  pose proof (dated_signable now ph req Hreq) as H1. unfold canonical_request. rewrite (proj1 signed_list1). destruct (canonical_headers_total req1 (names_to_sign req1)) as [hs ->]; [|by eexists].
  intros n (_ & kv & Hk & ->)%names_to_sign_elem. apply signed_present; [apply H1|done].
Qed.
Lemma mac_ignores s1 s2 cred c : mac_of sha256_hex hmac_sha256 cred (signed_fields s1) c = mac_of sha256_hex hmac_sha256 cred (signed_fields s2) c.
Proof. unfold mac_of, scope_of. cbn [signed_fields af_date af_region af_service af_amz_date]. reflexivity. Qed.
Lemma sign_eq : sign sha256_hex hmac_sha256 now req ak sk ph sv a =
  signature_for sha256_hex hmac_sha256 req1 sk (TimeUtil.amz_date now) (scope_of (signed_fields [])) sh ph false ≫= λ sig, Ok (authorized sig).
Proof. unfold sign. rewrite (bool_decide_false (sv = []) Hsv), (bool_decide_false (ph = []) Hph). reflexivity. Qed.
Lemma sign_Ok cred : cl_secret cred = sk -> exists c sig, canonical_request req1 sh ph false = Ok c /\ sig = to_hex (mac_of sha256_hex hmac_sha256 cred (signed_fields sig) c) /\
  sign sha256_hex hmac_sha256 now req ak sk ph sv a = Ok (authorized sig).
Proof.
  intros Hsk. destruct sign_canonical as [c Hc]. exists c, (to_hex (mac_of sha256_hex hmac_sha256 cred (signed_fields []) c)). split; [exact Hc|]. split; [f_equal; apply mac_ignores|]. rewrite sign_eq.
  assert (signature_for sha256_hex hmac_sha256 req1 sk (TimeUtil.amz_date now) (scope_of (signed_fields [])) sh ph false = Ok (to_hex (mac_of sha256_hex hmac_sha256 cred (signed_fields []) c))) as ->; [|reflexivity].
  rewrite <- Hsk. apply (signature_for_Ok sha256_hex hmac_sha256 req1 (signed_fields []) cred ph _ (fields_slashless [])). exists c. split; [exact Hc|reflexivity].
Qed.
Lemma authorized_find sig k : hfind (hr_headers (authorized sig)) k = if ieq (bs "Authorization") k then Some (auth_value ak d (au_region a) sv sh sig) else hfind (hr_headers req1) k.
Proof. unfold authorized. cbn [hr_headers with_headers]. apply hfind_set. apply (dated_signable now ph req Hreq). Qed.
Lemma authorized_fields sig : sig <> [] -> ch "," ∉ sig -> auth_fields (authorized sig) = Ok (signed_fields sig).
Proof.
  intros Hs Hc. unfold auth_fields. rewrite !authorized_find. change (ieq (bs "Authorization") (bs "Authorization")) with true. change (ieq (bs "Authorization") (bs "x-amz-date")) with false. cbv iota. destruct signed_list1 as (_ & H1 & H2 & H3), Hclean as ([A1 A2] & [B1 B2] & [C1 C2]), date_clean as [D1 D2].
  rewrite parse_auth_value; [|by intros x; rewrite !elem_of_cons, elem_of_nil; intros [->|[->|[->|[->|[]]]]]|done..]. cbn [mbind res_bind]. rewrite (dated_find now ph req) by apply Hreq. reflexivity.
Qed.
Lemma authorized_canonical sig : canonical_request (authorized sig) sh ph false = canonical_request req1 sh ph false.
Proof.
  unfold canonical_request. rewrite (canonical_headers_ext (authorized sig) req1); [reflexivity|]. rewrite (proj1 signed_list1). intros n Hn. pose proof (dated_signable now ph req Hreq) as H1. unfold authorized. apply signed_values_set; [apply H1|].
  pose proof (names_plain req1 (sg_plain _ H1)) as Hp. rewrite list.Forall_forall in Hp. destruct (Hp n Hn) as (Hs & _ & Hl). by apply signable_not_auth.
Qed.
Lemma authorized_rest sig : request_token (authorized sig) = None /\ hfind (hr_headers (authorized sig)) (bs "x-amz-trailer") = None /\ hfind (hr_headers (authorized sig)) (bs "x-amz-content-sha256") = Some ph.
Proof.
  pose proof (dated_signable now ph req Hreq) as [_ _ _ Ht Hr]. unfold request_token in *. rewrite !authorized_find. split; [exact Ht|]. split; [exact Hr|]. change (ieq (bs "Authorization") (bs "x-amz-content-sha256")) with false. cbv iota. rewrite (dated_find now ph req) by apply Hreq. done.
Qed.
(** The server: the same region, the key and no session, the clock within fifteen minutes. *)
Lemma signed_accepted (clock : nat -> time_point) (services : list bytes) (b : Authenticator P) cred : is_on b = true -> au_region b = au_region a -> sv ∈ services ->
  cred_lookup (au_provider b) ak = Some cred -> cl_secret cred = sk -> cl_token cred = None -> (Z.abs (clock 0%nat - now) <= 900 * kNs)%Z ->
  starts_with (bs "STREAMING-") ph = false ->
  exists req', sign sha256_hex hmac_sha256 now req ak sk ph sv a = Ok req' /\
    (verify_impl sha256_hex hmac_sha256 clock req' services None b).1 = Ok (mkIdentity ak (cl_policy cred) (cl_tenant cred) (cl_admin cred), plain_guard req ph).
Proof.
  intros Hon Hr Hsv' Hl Hsk Htok Hclk Hst. destruct (sign_Ok cred Hsk) as (c & sig & Hc & Hsig & Hsign). exists (authorized sig). split; [done|].
  assert (sig <> [] /\ ch "," ∉ sig) as [S1 S2] by (rewrite Hsig; apply hex_plain, Hmac). destruct (classify_plain ph Hst) as [t Ht]. destruct (authorized_rest sig) as (R1 & R2 & R3). apply verify_exact_on; [done|].
  exists (signed_fields sig), cred, (ph, mkStreaming false false t), c. split; [|split; [done|rewrite guard_plain by done; done]]. split.
  - by apply authorized_fields.
  - by rewrite Hr.
  - cbn [signed_fields af_signed_headers]. rewrite (proj1 signed_list1). pose proof (dated_signable now ph req Hreq) as H1. apply host_listed; apply H1.
  - exists (now / kNs * kNs)%Z. split; [exact (proj1 (dates_back now Hnow))|]. unfold timely. cbn [signed_fields af_presigned]. pose proof (Z.div_mod now kNs ltac:(done)) as D1. pose proof (Z.mod_pos_bound now kNs ltac:(done)) as D2. clear -Hclk D1 D2. unfold kNs in *. lia.
  - done.
  - unfold token_fits. rewrite R1, Htok. done.
  - unfold payload_of. cbn [signed_fields af_presigned]. rewrite R3, Ht. done.
  - cbn [signed_fields af_signed_headers af_presigned fst]. by rewrite authorized_canonical.
  - done.
Qed.
End roundtrip.
