(* ===== verification/SigV4Theorems.v ===== *)
(** The theorems of the authenticator: what verification accepts, what a signature binds,
    and that a signed request is accepted; each with a concrete instance. *)

From S2P Require Import Prelude Bytes Util Backend Policy TimeUtil Headers BodyReader Checksum Digest DigestProofs Chunked ChunkedProofs SigV4 SigV4Proofs SigV4Sign.
From Stdlib Require Import ZArith Lia.
From stdpp Require Import base list gmap strings sorting.
Import Hex Uri.

Section theorems.
Context (sha256_hex : bytes -> bytes) (hmac_sha256 : bytes -> bytes -> bytes) {P : Type} `{CredentialProvider P}.


(** C19: A signature binds the request: when two accepted requests carry the same
    signature, they agree on the method, the path, the canonical query, the date, the
    scope, the list of signed headers and their values, and the payload hash, unless the
    hash or the MAC has a collision. *)
Theorem signature_binds_request (clock clock' : nat -> time_point) (req req' : HttpRequest) (services services' : list bytes) (explicit explicit' : option bytes)
    (a a' : Authenticator P) (id id' : VerifiedIdentity) (g g' : BodyGuard) (f f' : AuthFields) :
  is_on a = true -> is_on a' = true -> parsed req -> parsed req' ->
  Forall one_line (au_region a :: services) -> Forall one_line (au_region a' :: services') ->
  (verify_impl sha256_hex hmac_sha256 clock req services explicit a).1 = Ok (id, g) ->
  (verify_impl sha256_hex hmac_sha256 clock' req' services' explicit' a').1 = Ok (id', g') ->
  auth_fields req = Ok f -> auth_fields req' = Ok f' -> af_signature f = af_signature f' ->
  exists cred cred' ps ps' c c',
    cred_lookup (au_provider a) (af_access_key f) = Some cred /\ cred_lookup (au_provider a') (af_access_key f') = Some cred' /\
    payload_of req f explicit = Ok ps /\ payload_of req' f' explicit' = Ok ps' /\
    canonical_request req (af_signed_headers f) ps.1 (af_presigned f) = Ok c /\ canonical_request req' (af_signed_headers f') ps'.1 (af_presigned f') = Ok c' /\
    (collides sha256_hex hmac_sha256 f f' cred cred' c c' \/ same_signed req req' f f' ps.1 ps'.1).
Proof.
  intros Hon Hon' P1 P2 L1 L2 (f1 & cred & ps & c & A & _ & _)%verify_exact_on (f2 & cred' & ps' & c' & A' & _ & _)%verify_exact_on F1 F2 E; [|done..].
  assert (f1 = f) as -> by (pose proof (at_fields _ _ _ _ _ _ _ _ _ _ _ A); congruence). assert (f2 = f') as -> by (pose proof (at_fields _ _ _ _ _ _ _ _ _ _ _ A'); congruence). exists cred, cred', ps, ps', c, c'.
  split_and!; [apply A|apply A'|apply A|apply A'|apply A|apply A'|]. exact (same_signature _ _ _ _ _ _ _ _ _ _ _ _ _ _ _ _ _ _ _ _ P1 P2 L1 L2 A A' E).
Qed.

End theorems.

(** * Instances *)
Module SigDemo.
(** Any functions of the right lengths do. *)
Definition fit (s : bytes) : bytes := take 32 (s ++ replicate 32 Byte.x00).
Definition demo_hmac (k m : bytes) : bytes := fit (take 8 k ++ drop (length m - 24) m).
Definition demo_sha (s : bytes) : bytes := to_hex (fit (drop (length s - 32) s)).
Lemma fit_length s : length (fit s) = 32%nat.
Proof. unfold fit. rewrite length_take, length_app, length_replicate. lia. Qed.
Definition server : Authenticator StaticCredentials := mkAuth (static_credentials [(bs "AK", bs "secret")]) false (bs "us-east-1") (bs "s3").
Definition plain_request : HttpRequest :=
  mkHttp (bs "GET") (bs "/bucket/key") (bs "partNumber=1") [(bs "partNumber", bs "1")] (add (bs "Host") (bs "example.com") no_headers) None.
Definition at_noon (i : nat) : time_point := (1700000000 * kNs)%Z.
Definition request : HttpRequest :=
  match sign demo_sha demo_hmac (at_noon 0) plain_request (bs "AK") (bs "secret") kUnsigned (bs "s3") server with Ok r => r | Throw _ => plain_request end.
(** The same, with a header that is not signed. *)
Definition request' : HttpRequest := with_headers (add (bs "User-Agent") (bs "curl") (hr_headers request)) request.
Definition fields_of (r : HttpRequest) : AuthFields := match auth_fields r with Ok f => f | Throw _ => no_fields end.
End SigDemo.

(** The request [sign] made, and the same with another header, are both accepted. *)
Import SigDemo.
Lemma parsed_add k v req : parsed req -> k <> [] -> one_line k -> one_line v -> parsed (with_headers (add k v (hr_headers req)) req).
Proof.
  intros [H1 H2 H3 H4] Hk Hl Hv. split; cbn [hr_method hr_raw_path hr_headers with_headers]; [done..| |by apply add_wf]. unfold add. cbn [hitems]. apply Forall_app. split; [done|]. by constructor.
Qed.
Lemma request_parsed : parsed request.
Proof.
  split; [by apply const_line|by apply const_line| |].
  - apply (bool_decide_unpack _). vm_compute. exact I.
  - apply set_header_wf, set_header_wf, set_header_wf, add_wf, no_headers_wf.
Qed.
Lemma signature_binds_request_witness :
  af_signature (fields_of request) = af_signature (fields_of request') /\ hitems (hr_headers request) <> hitems (hr_headers request') /\
  exists cred cred' ps ps' c c',
    cred_lookup (au_provider server) (bs "AK") = Some cred /\ cred_lookup (au_provider server) (bs "AK") = Some cred' /\
    payload_of request (fields_of request) None = Ok ps /\ payload_of request' (fields_of request') None = Ok ps' /\
    canonical_request request (af_signed_headers (fields_of request)) ps.1 false = Ok c /\ canonical_request request' (af_signed_headers (fields_of request')) ps'.1 false = Ok c' /\
    (collides demo_sha demo_hmac (fields_of request) (fields_of request') cred cred' c c' \/ same_signed request request' (fields_of request) (fields_of request') ps.1 ps'.1).
Proof.
  split; [vm_compute; reflexivity|]. split; [vm_compute; discriminate|].
  apply (signature_binds_request demo_sha demo_hmac at_noon at_noon request request' [bs "s3"] [bs "s3"] None None server server
           (mkIdentity (bs "AK") None [] false) (mkIdentity (bs "AK") None [] false) Bare Bare (fields_of request) (fields_of request')).
  1,2: vm_compute; reflexivity.
  1: exact request_parsed.
  1: apply parsed_add; [exact request_parsed|discriminate|by apply const_line..].
  1,2: apply (bool_decide_unpack _); vm_compute; exact I.
  all: vm_compute; reflexivity.
Defined.
